(* ===== verification/_CoqProject ===== *)
-Q . S2P
Prelude.v
GoFloat.v
Ranges.v
CacheState.v
Reader.v
Cache.v
CacheInv.v
CacheInit.v
CacheProps.v
CachePrio.v
CacheEvict.v
Shield.v
Storage.v
WebRuntime.v
WebCache.v
FileTypes.v
GoText.v
Encoding.v
TorrsHash.v
Segment.v
Matroska.v
MatroskaRead.v
MatroskaProps.v
MatroskaIndex.v
MP4Init.v
MP4Props.v
MP4Layout.v
Task.v
TaskProps.v
FragBox.v
FragTrack.v
FragSafe.v
FragQueue.v
FragState.v
FragReader.v
FragInv.v
FragFlow.v
FragCalls.v
FragRound.v
FragProps.v
Service.v
ServiceWorld.v
ServiceProps.v
ServiceCalls.v
GoNet.v
Waf.v
WafProps.v
Upload.v
UploadProps.v
Torrent.v
TorrentProps.v
TorrentSerial.v
TorrentCalls.v
Regex.v
Subtitles.v
SubtitlesProps.v
Episode.v
EpisodeProps.v
Database.v
DatabaseRoute.v
JsonStore.v
Migrate.v
Viewed.v
Settings.v
TorrentStore.v
JsText.v
WebList.v
Bencode.v
BencodeProps.v
BencodeTypes.v
Magnet.v
MagnetProps.v
MagnetLink.v
ParseTorrent.v
ParseTorrentProps.v
IconColor.v
IconColorProps.v
IconElement.v
IconElementProps.v
IconSequence.v
