(* ===== verification/Prelude.v ===== *)
(** * TorrServer: a verified model of its streaming core

    TorrServer streams the files of a torrent while they download.  This library
    models the parts of the program that carry its own logic, as executable
    functions, and proves what makes them correct.  The program is written in Go,
    with a web interface shipped as compiled JavaScript; both are modelled.

    ** The program and its parts

    - The piece cache ([src/server/torr/storage/torrstor]) holds the pieces of one
      torrent in memory, bounded by a capacity.  The torrent client writes pieces
      into it and reads them back; readers, one per open stream, protect a window of
      pieces around their position; the cleaner evicts pieces outside of the windows;
      download priorities follow the windows.  The first and last pieces of media
      files (index pieces) are kept on disk and restored when the torrent is opened
      again.
    - The adaptive shield ([piece.go]) switches the whole process to a strict mode
      when downloaded pieces turn out corrupt, and a watchdog switches it back.
    - The storage ([storage.go]) owns one cache per torrent.
    - The web interface ([src/server/web/pages/template/pages]) is a bundle of chunks
      started by a small script loader.  One of its views draws the state of a cache, as
      reported by [Cache.GetState]; its dialog for a new torrent reads torrent files,
      magnet links and hashes in the browser; its icons are animations played by an
      element of their own.
    - File types and file order ([src/server/utils]) decide which files of a torrent
      are played, and in which order they are listed.
    - Share tokens ([src/server/torrshash]) carry a torrent's hash, title and trackers
      as a short text.
    - The transcoder ([src/server/gstreamer]) serves streams to players: a task drives
      a pipeline; its stream of MP4 fragments is taken apart and put together again as
      segments, cut at the cues of Matroska files or by the length of the picture and
      described by the header of the stream; subtitles are kept per track and cut at
      the segments; a registry shares the tasks between requests, limits their number and
      removes the idle ones.
    - Torrents of the server ([src/server/torr]) wrap those of the BitTorrent client
      ([src/anacrolix-torrent]) from the time they are added until they are closed by a
      request or by the timer.
    - The request filter ([src/server/web/waf]) bans clients by lists of addresses and of
      referring hosts.
    - The databases ([src/server/settings]) keep settings, torrents and the files watched,
      in one file or in files of JSON, behind a router and a cache; entries move from one to
      the other when the server starts or its storage is switched.
    - The tools for assistants ([src/server/mcp]) say which episode to watch next; the
      chat bot ([src/server/tgbot]) queues files to upload.

    ** Files, and the code they model

    - [Prelude]: the tactics ([zlia], [split_if], [reflect_bools]), hint databases,
      machine integers of Go, slices with their bounds checks, the result type
      [outcome] ([Done], [Panic] for a run-time panic, [NoFuel] for a loop that does
      not end within the fuel) with its monad, byte codecs, and the lemmas on lists
      the components share.
    - [GoFloat]: [float64] on the executable binary64 of the Standard Library, with
      the error bounds of one rounding.
    - [Ranges]: [ranges.go]: merging windows, membership by binary search and by
      bitmap, the budgets of prefetching.
    - [CacheState]: the state ([Cache], [Piece], [Reader]) and the operations of
      [mempiece.go], [piece.go], [piecefake.go] and of the spare buffers.
    - [Reader]: [reader.go].  [Cache]: [cache.go].
    - [CacheInv], [CacheInit], [CacheProps], [CachePrio], [CacheEvict]: the proofs
      about the cache: the invariant of every reachable state, initialisation, the
      round trips through memory and disk, priorities, eviction.
    - [Shield]: the shield of [piece.go], as interleaved atomic accesses of any number of
      reports, resets and watchdogs, and as whole operations.
    - [Storage]: [storage.go], with the caches as objects in a heap.
    - [WebRuntime]: the script loader [runtime-main.5ed86a79.js]; [WebCache]: the
      cache view of [main.c4612288.chunk.js].
    - [FileTypes]: [filetypes.go], [strings.go], and the list of playable files of the
      web interface.
    - [TorrsHash]: [base62.go], [fields.go], [pack.go], [torrshash.go].
    - [GoText]: the functions of [strings], [strconv] and [encoding/hex] the program
      uses; [Encoding]: big-endian numbers, the statement that a printed text stands at
      an offset of some data ([at_]), and the [access] tactic for checked accesses.
    - [Segment]: [segment.go], against any destination that keeps the contract of
      [io.Writer] (the class [IoWriter]).
    - [Matroska]: [cue.go]; [MatroskaRead] and [MatroskaProps]: safety and the timeline;
      [MatroskaIndex]: a printer for indexes and the round trip.
    - [MP4Init]: [mp4init.go]; [MP4Props]: safety; [MP4Layout]: a printer for headers
      and what is read of them.
    - [mp4box.go], the reader of the pipeline's stream: [FragBox]: its error monad, whose
      third outcome is a panic, boxes and the parsers of fragments and headers; [FragTrack]:
      times, durations, the split of a fragment and the writers; [FragState]: the state of the
      reader and its monad; [FragReader]: its operations.  [FragSafe] (parsers),
      [FragQueue] (queues as the bytes they stand for), [FragInv] (segments), [FragFlow]
      (bytes and boxes), [FragCalls] (calls as the pipeline makes them), [FragRound] (what is
      written is read): the proofs; [FragProps]: the theorems and a stream they apply to.
    - [Task]: [task.go] and the request for a segment of [handlers.go], against any
      pipeline (the class [Runner]); [TaskProps]: the calls a task makes.
    - [Regex]: a matcher for the regular expressions of Go the program uses, leftmost and
      in order of preference; [Subtitles]: the store of [subtitles.go];
      [SubtitlesProps]: its invariant, and a cue over the segments of a stream.
    - [Service]: the registry of [service.go] and [config.go], with tasks as objects in a
      heap; [ServiceWorld]: calls that overlap, section by section; [ServiceProps]: the
      invariant; [ServiceCalls]: the calls that run alone.
    - [Torrent]: [torrent.go], [btserver.go], [apihelper.go], [dbwrapper.go] and the states
      of [preload.go], in sections as well, over the client's table of torrents;
      [TorrentProps]: calls that overlap; [TorrentSerial]: calls that do not;
      [TorrentCalls]: what removal and the list do, and runs that go wrong.
    - [GoNet]: addresses, blocks and headers as [net] reads them; [Waf]: [iplist.go],
      [parse.go], [referer.go], [store.go], [waf.go]; [WafProps]: what passes.
    - [Episode]: [episode.go], against any folding of letters (the class [Folding]);
      [EpisodeProps]: the choice, and the code of an episode read back.
    - [Database]: the interface of the databases ([torrserverdb.go]) as the class
      [TorrServerDB], the class [LawfulDB] of what a database promises, and the read cache
      ([dbreadcache.go]), which is a map over any of them.  [DatabaseRoute]:
      [xpathdbrouter.go], lawful if the databases behind it are.  [JsonStore]: [jsondb.go],
      lawful as well, over the class [JSON].  [Migrate]: [migrate.go].  [Viewed]:
      [viewed.go].  [TorrentStore]: [torrent.go].  [Settings]: [btsets.go] and starting and
      switching of [settings.go], and what restarts keep.
    - [Upload]: [upload/manager.go] and [ParseRange]; [UploadProps]: order, safety and
      progress of the queue.
    - [JsText]: strings, UTF-8, integers, objects and URI components of JavaScript.
    - [WebList]: the list of torrents of [main.c4612288.chunk.js], in the order of any
      language (the class [Collation]), and the titles of its cards.
    - [Bencode], [Magnet], [ParseTorrent]: the modules bencode, thirty-two (Module
      [Base32]), bep53-range (Module [Bep53]), magnet-uri and parse-torrent of
      [2.f454f580.chunk.js], and the patterns of the dialog of [main.c4612288.chunk.js];
      [BencodeProps], [BencodeTypes], [MagnetProps], [MagnetLink], [ParseTorrentProps]:
      round trips, termination, what values a reader gives, and safety of paths.
    - [IconColor], [IconElement], [IconSequence]: the player of [lord-icon-2.0.2.js]: the
      colours of a document, the element with its players and triggers as turns of the
      event loop, and the trigger that plays a sequence; [IconColorProps],
      [IconElementProps]: what is drawn, and what holds in every run.

    Operations keep the names of the code; a method [x.M] is [M], with the prefix
    [impl_] for the methods of the piece interface, [mp_] for the memory piece, [r_]
    for the reader and [s_] for the storage where two types share a name.  A method
    that changes its receiver takes the state as its last argument and returns the
    new state.  Map iteration order, the clock and the outcome of disk operations are
    arguments, and theorems hold for all of them.

    ** What the theorems show

    - The cache never breaks its memory invariant, whatever sequence of operations is
      performed ([cache_invariant]); bytes written are read back ([write_then_read]);
      index pieces survive a restart ([index_piece_survives]) and cover the ends of
      every large file ([Init_protects_ends]); closing releases everything
      ([Close_releases]).
    - Eviction never drops an index piece or the piece a reader stands in
      ([cleanPieces_safe]); it drops the oldest pieces first, as many as full pieces fit
      in the excess, plus one, which fits the cache but for what those were short of full
      ([cleanPieces_progress]).
    - Readers' windows stay within the cache's capacity and contain the reader
      ([getOffsetRange_protects]); the piece a reader waits for is requested at the
      highest priority and prefetching stays in its budget
      ([setLoadPriority_requests]); the two window tests agree and are exact
      ([inRanges_mergeRange_correct], [fillPieceInRange_agrees]).
    - Where reports overlap one another, but nothing a reset or a watchdog that clears, the
      shield is on exactly from the second corruption, and a watchdog lives as long as there
      is something to clear and clears it after a clean streak ([shield_orderly]); beyond
      that there is a run that leaves strict mode on with no watchdog ([shield_race]).
      Operations run to their end are schedules ([atomic_run]); of these,
      [shield_guarded] and [shield_recovers].
    - Caches of different torrents do not interfere ([storage_isolation]).
    - Chunks of the web interface may arrive in any order ([page_any_order]) and
      modules run at most once, cycles included ([require_once]); the cache view draws
      exactly the reported state ([useCreateCacheMap_spec], [getShortCacheMap_spec]); the
      list of torrents is complete, in order and the same whatever order the server sends
      ([shown_sorted], [shown_settled]); a title cut off inside a bracket is shown without
      it ([title_truncated]), but one bracket too many may cost a title its year
      ([title_numbered]).
    - A torrent file is read as what it says, of one file or several, with trackers in
      tiers or one, whatever other keys it has, and with the hash of exactly the bytes of
      its info ([torrent_file_read]); canonical values are printed and read back
      ([bencode_roundtrip]); any bytes that are read give well-formed values
      ([decode_typed]), of which those with a key [_isBuffer], or a text under
      [__proto__], cannot be printed ([flagged_throws]); no file's path climbs
      ([torrent_paths_safe]); links and hashes are read in every notation
      ([magnet_roundtrip], [hash_identifiers]).  Reading ends unless a length is
      negative ([decode_ends]), and then need not ([negative_length_hangs]); printing
      again may differ ([reencode_differs]), names lose plus signs ([magnet_plus_lost]),
      and the dialog accepts hashes the parser refuses ([accepted_and_refused]).
    - In every order of events the animation element commands no dead player and leaves
      no listener or timeout behind ([element_hygiene]); it has one player where nothing
      changes while a document is under way ([one_player]), and otherwise leaves players
      behind ([players_left_behind]).  Colours are drawn as given ([colors_drawn],
      [color_roundtrip]), one name apart ([indianred_is_black]); a sequence goes on
      exactly when an action stops it ([sequence_steps]).
    - Server and web interface agree on what is playable, one extension apart
      ([playable_agree]).  Lemmas on the order of files say where it follows the numbers
      ([CompareStrings_numeric]) and that it has a cycle ([CompareStrings_cycle]).
    - Share tokens round-trip ([token_roundtrip]), except for a size written as a
      non-canonical zero ([zero_size_corrupts]).
    - Segments are sent exactly, whole or by range ([Segment_writes]).  Reading a cue
      index or a stream header neither panics nor hangs on data of any content
      ([readMatroskaCueTimeline_safe], [readMP4InitInfo_safe]); printed indexes and
      headers are read as what they say ([cue_index_roundtrip], [video_header_read]),
      but a header with sound first loses its video ([audio_first_loses_video]).
    - The reader of fragments takes each byte of the stream once: in a run of calls without an
      error, what was pushed is whole boxes, one under way and what is deferred, and the
      segments sent, followed by the queues, are the bodies of each track in order
      ([stream_conserved]); at the end of the stream no picture is left ([stream_finished]).
      No bytes and no calls make it panic or run for ever, errors and seeks included
      ([reader_never_panics]).  Sound is cut at the first sample that reaches the end of the
      picture ([audio_selected]), fragments split into adjacent parts ([split_exact]), and
      the fragments written are read back ([traf_roundtrip]); a duration that was guessed is
      not corrected behind a split ([guess_forgotten]).
    - A task seeks its pipeline, lets it catch up or leaves it alone exactly as a
      request needs ([segmentLocked_calls]), except that a pipeline moved by the header's
      preparation after a freeze is taken to stand where it was
      ([forward_after_freeze]).
    - A store of subtitles keeps every cue once and little pending text
      ([store_invariant]); segments together show a cue in full ([cue_shown_in_full]).
    - However calls overlap, the registry of tasks loses no task, keeps its limit and is
      empty after closing ([registry_invariant]); a request alone gets the task it asks
      for ([getOrAdd_alone]), tidying alone removes and freezes the idle ones
      ([cleanup_alone]).
    - However calls overlap, the table of torrents holds torrents of the server under the
      hashes of what they wrap ([table_invariant]); calls that do not overlap keep it equal
      to the client's, none of it dropped, and never panic ([serial_calls]), while an addition
      that overlaps a removal can, and leaves a dropped torrent in the table
      ([add_during_drop]), and a torrent closed while it waits for its info
      can be left working ([closed_at_work]).  Removal leaves nothing behind
      ([removal_complete]); the list is complete and in order ([list_complete]); editing
      can lose a title ([title_erased]).
    - Over any lawful database the read cache is a map for calls that follow each other
      ([cache_is_map]); a path goes to the longest route it begins with ([longest_route]);
      entries in files of JSON are read back ([json_roundtrip]).  Files watched and torrents
      are what was marked and added ([viewed_marks], [torrents_kept]).  Calls that overlap may
      leave an old text or list in the cache ([stale_text], [stale_list]) or bring a removed
      torrent back ([removed_returns]).
    - A restart keeps settings that are in one place ([restart_keeps_settings]), though it
      raises some ([read_ahead_raised]); in two places, as after a switch, the old ones win
      ([settings_reverted]).  Moving entries loses none ([switch_keeps_entries]) unless two
      of equal length differ ([entry_lost]); a merge of watched files drops their times
      ([merge_forgets_times]), a file that is not JSON is replaced ([broken_file_lost]), and a
      read-only start moves entries ([read_only_moves]).
    - The filter passes exactly the requests its lists say ([waf_decides]), a block covers
      exactly the addresses under its mask ([cidr_covers]), and the hosts built in are
      refused whatever the lists ([defaults_enforced]); [hex_description] and
      [zone_refused] say where reading differs from its description.
    - The next file to watch is the first one not watched ([next_unwatched]); codes of
      episodes are read as they are printed ([episode_roundtrip]), but a word may be taken
      for one ([ep_within_word]).
    - Uploads are bounded, one at a time, and those of accepted requests, in order and from
      the start of the accepted range ([uploads_in_order]); they reach for no
      file that is not there as long as requests are checked ([uploads_exist],
      [file_zero_panics]), and none is left waiting ([queue_drains]).
    The lemmas [reader_off_on], [newReader_state], [getShortCacheMap_narrow] and those
    named as exceptions above state behaviour that differs from what the code means to
    do.

    ** Fuel

    Loops that are not structural take fuel, and theorems show that the fuel the
    definitions pass is enough, so that results are never [NoFuel]: [prio_loop] gets
    the number of pieces of the window; [mark_loop] the length of the bitmap;
    [sort.Search] the length of the slice; the module loader [l] the number of
    modules not yet cached; [digit_loop] the bits of the number; [read_fields] one
    more than the bytes of the stream, since a field takes at least one
    byte; the walks over Matroska elements and MP4 boxes one more than the bytes of the
    data, since an element takes two bytes and a box eight; the reader of fragments the length of what is
    pushed, since each turn takes a byte ([reader_never_panics] shows that it is enough); [find_all] one more than the
    length of the text, since a match is never empty there; a star of a pattern one more than what is left
    of the text; eviction of tasks one more than their number; the fields of an IPv6
    address eight.  Three take their fuel as an
    argument: reading bencoded data ([decode_ends] and [bencode_roundtrip] say what is
    enough, and [negative_length_hangs] that nothing may be), taking steps of a sequence
    ([sequence_steps]: one round), and reading a torrent file, which passes it on.

    ** What is not modelled, and assumptions

    - Locks are taken to make the operations they guard atomic; goroutines are
      operations that run to their end at any later point.  The shield has no lock
      and is modelled at the level of single atomic accesses.
    - The capacity of a Go slice is its length: no code modelled here reslices beyond
      the length of a buffer it did not allocate.
    - Log lines, panic recovery, metrics and [runtime] calls are left out.
    - [index_file] adds the lengths of files without the wrap-around of 64 bits, which
      files that exist do not reach; [keep_snapshot] answers [false] for a file without a
      state, which the code that builds snapshots never makes.
    - The torrent client is the sequence of calls made to it ([calls]); a client
      reader is its position, readahead and closed flag.  zlib is a pair of functions
      with the law that one undoes the other.  The answers of an HTTP server are an
      argument, one per place of the code that makes a request.
    - In [Service] a probe of a source is one step, taken between the sections; in
      [Torrent] the client is its table, what is known of each torrent and the channels
      that say so, and the caches of the storage are the hashes it has one for, since
      nothing takes a cache out; the reading that preloads, statistics and the exchange of
      all torrents when settings change ([dropAllTorrent], [SetSettings], [Connect]) are
      left out.  In [Upload] the number of files of a
      torrent does not change, and a torrent that does not get to work is an answer, while
      in the program the request waits under the queue's lock.
    - The parser of URLs and the classes of letters are arguments of [Waf]; folding of
      letters is one of [Episode].
    - Case folding is ASCII: the lists of extensions, colours and hashes hold no other
      letters.
    - JavaScript: assigning to [__proto__] makes no property; in decoded data an object
      assigned so is the prototype ([Bencode.set_key]), through which properties are looked
      up, but what lists and texts would pass on is left out, other than being taken for a
      buffer.  The members every object inherits are left out unless a definition names
      them; turns of the event
      loop are the synchronous pieces of the code, in any order the language allows and
      some it does not; two continuations that follow each other directly are one turn.
    - In the reader of fragments the capacities of buffers, and the slices of the storage a
      segment holds while it is sent, are left out: storage moves only in [ReclaimPayloads],
      which follows the release of the segment, as [discardReadySegment] has it.  Errors are
      without the numbers in their texts.  Seeking starts the stream anew, and
      [stream_conserved] is about the calls in between.
    - [encoding/json] is the classes [JSON], [MarkTexts], [SetsTexts] and [TorrentTexts] with the
      laws that what is printed is read back; each has an instance, to which the theorems are
      applied.  The database of one file ([db.go], on bbolt) is any lawful one.  The choice of a
      directory for the cache, which [SetBTSets] starts on the side, the migration only an
      operator asks for, and the import of files of older versions are left out.
    - Components of React, handlers of HTTP, the search of trackers, discovery protocols, the
      chat bot but for its queue, file systems and the pipelines built on native libraries are
      not modelled: they are glue and input/output.  Of the vendored libraries of the web
      interface only the modules named above are modelled; React, Material UI and lottie draw
      and style.

    ** What is left

    The reading that preloads and the exchange of torrents when settings change
    ([src/server/torr]); from the client fork ([src/anacrolix-torrent]) bencoding, to be compared
    with [Bencode], the segments of torrents and the order of piece requests; a reader of JSON
    texts in place of its class; calls on the cache of the databases that overlap, beyond the
    runs that go wrong. *)

From stdpp Require Export base numbers list option gmap sorting strings.
From Stdlib Require Export ZArith Lia.

#[global] Open Scope Z_scope.

(** * Hint databases and tactics of the development *)

Create HintDb go_bounds.
Create HintDb go_slices.

(** [zlia] is [lia] after the comparisons of [bool]-valued tests have been
    turned into propositions. *)
Ltac reflect_bools :=
  repeat match goal with
  | H : (_ && _) = true |- _ => apply andb_true_iff in H; destruct H
  | H : (_ || _) = false |- _ => apply orb_false_iff in H; destruct H
  | H : negb _ = true |- _ => apply negb_true_iff in H
  | H : negb _ = false |- _ => apply negb_false_iff in H
  | H : (_ <? _) = true |- _ => apply Z.ltb_lt in H
  | H : (_ <? _) = false |- _ => apply Z.ltb_ge in H
  | H : (_ <=? _) = true |- _ => apply Z.leb_le in H
  | H : (_ <=? _) = false |- _ => apply Z.leb_gt in H
  | H : (_ =? _) = true |- _ => apply Z.eqb_eq in H
  | H : (_ =? _) = false |- _ => apply Z.eqb_neq in H
  end.

Ltac zlia := reflect_bools; lia.

(** [split_if] destructs the first [if] on a boolean found in the goal, keeping
    the equation, reflected. *)
Ltac split_if :=
  match goal with
  | |- context [if ?b then _ else _] =>
      lazymatch type of b with bool => destruct b eqn:? end
  end; reflect_bools.

(** * Machine integers

    Go's [int] is 64 bits wide on the platforms the server is built for, so
    [int] and [int64] share a model: a [Z] in two's complement range, every
    operation that may leave the range followed by the wrap-around. *)

Definition two63 : Z := 9223372036854775808.
Definition two64 : Z := 18446744073709551616.

Definition i64 (z : Z) : Z := (z + two63) mod two64 - two63.
Definition u64 (z : Z) : Z := z mod two64.
Definition u32 (z : Z) : Z := z mod 4294967296.
Definition u16 (z : Z) : Z := z mod 65536.
Definition u8 (z : Z) : Z := z mod 256.
Definition i32 (z : Z) : Z := (z + 2147483648) mod 4294967296 - 2147483648.

Definition in_i64 (z : Z) : Prop := - two63 <= z < two63.
Definition in_u64 (z : Z) : Prop := 0 <= z < two64.

Lemma i64_id z : in_i64 z → i64 z = z.
Proof. unfold in_i64, i64, two63, two64. intros. rewrite Z.mod_small; lia. Qed.

Lemma i32_id z : - 2147483648 <= z < 2147483648 → i32 z = z.
Proof. intros Hz. unfold i32. rewrite Z.mod_small; lia. Qed.

Lemma u64_id z : in_u64 z → u64 z = z.
Proof. unfold in_u64, u64. intros. by apply Z.mod_small. Qed.

Lemma i64_range z : in_i64 (i64 z).
Proof.
  unfold in_i64, i64, two63, two64.
  pose proof (Z.mod_pos_bound (z + 9223372036854775808) 18446744073709551616). lia.
Qed.

Lemma u64_range z : in_u64 (u64 z).
Proof. unfold in_u64, u64, two64. apply Z.mod_pos_bound. lia. Qed.

Lemma i64_u64 z : i64 (u64 z) = i64 z.
Proof.
  unfold i64, u64, two63, two64. f_equal.
  rewrite Zplus_mod_idemp_l. done.
Qed.

#[export] Hint Resolve i64_range u64_range : go_bounds.

(** * Outcomes of Go code

    A computation finishes with a value, stops the goroutine with a run-time
    panic (an index out of range, a division by zero), or needs more loop
    iterations than the fuel the model was given.  Theorems about loops show
    that the fuel chosen is enough. *)

Inductive outcome (A : Type) : Type :=
| Done (a : A)
| Panic
| NoFuel.
Arguments Done {A} _.
Arguments Panic {A}.
Arguments NoFuel {A}.

#[export] Instance outcome_ret : MRet outcome := λ A a, Done a.
#[export] Instance outcome_bind : MBind outcome := λ A B f m,
  match m with Done a => f a | Panic => Panic | NoFuel => NoFuel end.
#[export] Instance outcome_fmap : FMap outcome := λ A B f m,
  match m with Done a => Done (f a) | Panic => Panic | NoFuel => NoFuel end.

Definition of_option {A} (o : option A) : outcome A :=
  match o with Some a => Done a | None => Panic end.

Definition returns {A} (m : outcome A) : Prop := ∃ a, m = Done a.

Lemma bind_Done {A B} (m : outcome A) (f : A → outcome B) b :
  mbind f m = Done b ↔ ∃ a, m = Done a ∧ f a = Done b.
Proof. destruct m; naive_solver. Qed.

Lemma of_option_Done {A} (o : option A) a : of_option o = Done a ↔ o = Some a.
Proof. destruct o; naive_solver. Qed.

(** [inv_outcome] takes apart the hypotheses that say a computation finished. *)
Ltac inv_outcome :=
  repeat match goal with
  | H : mbind _ _ = Done _ |- _ => apply bind_Done in H as (?&?&?)
  | H : of_option _ = Done _ |- _ => apply of_option_Done in H
  | H : Done _ = Done _ |- _ => injection H as H
  | H : Panic = Done _ |- _ => discriminate H
  | H : NoFuel = Done _ |- _ => discriminate H
  end; simplify_eq/=.

Lemma returns_bind {A B} (m : outcome A) (f : A → outcome B) :
  returns m → (∀ a, m = Done a → returns (f a)) → returns (mbind f m).
Proof. intros [a ->] Hf. apply (Hf a eq_refl). Qed.

Lemma returns_Done {A} (a : A) : returns (Done a).
Proof. by exists a. Qed.

#[export] Hint Resolve returns_Done : go_slices.

(** * Slices

    A slice is the list of its elements.  Go checks an index against the length
    and a slice bound against the capacity; the model checks both against the
    length, so code the model shows free of panics is free of them in Go. *)

Definition len {A} (l : list A) : Z := Z.of_nat (length l).

Definition idx {A} (l : list A) (i : Z) : option A :=
  if (0 <=? i) then l !! Z.to_nat i else None.

(** [l[lo:hi]] *)
Definition slice {A} (l : list A) (lo hi : Z) : option (list A) :=
  if (0 <=? lo) && (lo <=? hi) && (hi <=? len l)
  then Some (take (Z.to_nat (hi - lo)) (drop (Z.to_nat lo) l))
  else None.

(** [l[lo:]] *)
Definition slice_from {A} (l : list A) (lo : Z) : option (list A) := slice l lo (len l).

(** [copy(dst, src)]: the destination after the copy, and the count returned. *)
Definition copy_go {A} (dst src : list A) : list A * Z :=
  let n := Nat.min (length dst) (length src) in
  (take n src ++ drop n dst, Z.of_nat n).

(** [l[i] = x], with the index known to be in range. *)
Definition upd {A} (l : list A) (i : Z) (x : A) : option (list A) :=
  if (0 <=? i) && (i <? len l) then Some (<[Z.to_nat i := x]> l) else None.

Lemma len_nonneg {A} (l : list A) : 0 <= len l.
Proof. unfold len. lia. Qed.

Lemma len_app {A} (l k : list A) : len (l ++ k) = len l + len k.
Proof. unfold len. rewrite length_app. lia. Qed.

Lemma len_cons {A} (x : A) l : len (x :: l) = 1 + len l.
Proof. unfold len. simpl length. lia. Qed.

Lemma len_nil {A} : len (@nil A) = 0.
Proof. done. Qed.

Lemma idx_Some_lt {A} (l : list A) i x : idx l i = Some x → 0 <= i < len l.
Proof.
  unfold idx, len. intros H. destruct (0 <=? i) eqn:?; [|done].
  apply lookup_lt_Some in H. zlia.
Qed.

Lemma idx_in_range {A} (l : list A) i : 0 <= i < len l → is_Some (idx l i).
Proof.
  unfold idx, len. intros [Hi Hl]. rewrite (proj2 (Z.leb_le 0 i)) by lia.
  apply lookup_lt_is_Some_2. lia.
Qed.

Lemma slice_in_range {A} (l : list A) lo hi :
  0 <= lo <= hi → hi <= len l →
  slice l lo hi = Some (take (Z.to_nat (hi - lo)) (drop (Z.to_nat lo) l)).
Proof.
  intros. unfold slice.
  rewrite (proj2 (Z.leb_le 0 lo)), (proj2 (Z.leb_le lo hi)), (proj2 (Z.leb_le hi _)) by lia.
  done.
Qed.

Lemma slice_len {A} (l s : list A) lo hi : slice l lo hi = Some s → len s = hi - lo.
Proof.
  unfold slice. case_match eqn:E; [|done]. reflect_bools. intros [= <-].
  unfold len in *. rewrite length_take, length_drop. lia.
Qed.

Lemma slice_bounds {A} (l s : list A) lo hi :
  slice l lo hi = Some s → 0 <= lo <= hi ∧ hi <= len l.
Proof. unfold slice. case_match eqn:E; [|done]. reflect_bools. lia. Qed.

Lemma copy_go_length {A} (dst src : list A) : length (copy_go dst src).1 = length dst.
Proof. simpl. rewrite length_app, length_take, length_drop. lia. Qed.

Lemma copy_go_count {A} (dst src : list A) : (copy_go dst src).2 = Z.min (len dst) (len src).
Proof. unfold copy_go, len. simpl. lia. Qed.

(** A slice read element by element. *)
Lemma slice_lookup {A} (l d : list A) lo :
  slice l lo (lo + len d) = Some d ↔
  0 <= lo ∧ lo + len d <= len l ∧ ∀ k, (k < length d)%nat → l !! (Z.to_nat lo + k)%nat = d !! k.
Proof.
  unfold slice. pose proof (len_nonneg d). split.
  - intros H0. case_match eqn:E; [|done]. reflect_bools. injection H0 as H0. split_and!; [lia..|].
    intros k Hk. rewrite <- H0, lookup_take_lt, lookup_drop; [done|]. unfold len in *. lia.
  - intros (H1&H2&H3). rewrite (proj2 (Z.leb_le 0 lo)), (proj2 (Z.leb_le lo _)), (proj2 (Z.leb_le _ (len l))) by lia.
    simpl. f_equal. apply list_eq. intros k. replace (lo + len d - lo) with (len d) by lia. unfold len in *.
    rewrite Nat2Z.id. destruct (decide (k < length d)%nat) as [Hk|Hk].
    + by rewrite lookup_take_lt, lookup_drop, H3.
    + rewrite lookup_take_ge by lia. symmetry. apply lookup_ge_None. lia.
Qed.

(** [copy(buf[off:], b)] when [b] fits: [b] replaces the elements from [off] on. *)
Definition splice {A} (buf : list A) (off : Z) (b : list A) : list A :=
  take (Z.to_nat off) buf ++ b ++ drop (Z.to_nat off + length b) buf.

Lemma copy_go_splice {A} (buf tail b : list A) off :
  slice_from buf off = Some tail → off + len b <= len buf →
  take (Z.to_nat off) buf ++ (copy_go tail b).1 = splice buf off b ∧ (copy_go tail b).2 = len b.
Proof.
  intros Hs Hb. pose proof (slice_bounds _ _ _ _ Hs) as Hbd. unfold slice_from in Hs.
  rewrite slice_in_range in Hs by lia. injection Hs as <-. unfold splice, copy_go, len in *. simpl.
  assert (E : take (Z.to_nat (Z.of_nat (length buf) - off)) (drop (Z.to_nat off) buf) = drop (Z.to_nat off) buf)
    by (apply take_ge; rewrite length_drop; lia).
  rewrite E, length_drop. replace (Nat.min _ (length b)) with (length b) by lia.
  by rewrite drop_drop, firstn_all.
Qed.

Lemma splice_lookup {A} (buf b : list A) off k :
  0 <= off → off + len b <= len buf →
  splice buf off b !! k =
    if decide (Z.to_nat off ≤ k < Z.to_nat off + length b)%nat then b !! (k - Z.to_nat off)%nat else buf !! k.
Proof.
  unfold splice, len. intros H1 H2.
  destruct (decide (k < Z.to_nat off)%nat).
  { rewrite lookup_app_l by (rewrite length_take; lia). rewrite lookup_take_lt by lia. case_decide; [lia|done]. }
  rewrite lookup_app_r by (rewrite length_take; lia). rewrite length_take.
  replace (Nat.min _ _) with (Z.to_nat off) by lia. case_decide.
  - by rewrite lookup_app_l by lia.
  - rewrite lookup_app_r by lia. rewrite lookup_drop. f_equal. lia.
Qed.

Lemma splice_slice {A} (buf b : list A) off :
  0 <= off → off + len b <= len buf → slice (splice buf off b) off (off + len b) = Some b.
Proof.
  intros H1 H2. apply slice_lookup. split_and!; [done| |].
  - unfold splice, len in *. rewrite !length_app, length_take, length_drop. lia.
  - intros k Hk. rewrite splice_lookup by done. case_decide; [|lia]. f_equal. lia.
Qed.

Lemma splice_slice_other {A} (buf b d : list A) off off' :
  0 <= off → off + len b <= len buf → off' + len d <= off ∨ off + len b <= off' →
  slice buf off' (off' + len d) = Some d → slice (splice buf off b) off' (off' + len d) = Some d.
Proof.
  intros H1 H2 H3 Hs. apply slice_lookup in Hs as (H4&H5&H6). apply slice_lookup. split_and!; [done| |].
  - unfold splice, len in *. rewrite !length_app, length_take, length_drop. lia.
  - intros k Hk. rewrite splice_lookup by done. case_decide; [|by apply H6]. unfold len in *. lia.
Qed.

(** * Bytes *)

Definition is_byte (b : Z) : Prop := 0 <= b < 256.
Definition is_byteb (b : Z) : bool := (0 <=? b) && (b <? 256).
Definition bytes_ok (l : list Z) : Prop := Forall is_byte l.
Definition bytes_okb (l : list Z) : bool := forallb is_byteb l.

Lemma bytes_okb_spec l : bytes_okb l = true ↔ bytes_ok l.
Proof.
  unfold bytes_okb, bytes_ok. rewrite forallb_forall, Forall_forall.
  setoid_rewrite list_elem_of_In.
  unfold is_byteb, is_byte. split; intros H x Hx; specialize (H x Hx); [zlia|].
  apply andb_true_iff. rewrite Z.leb_le, Z.ltb_lt. lia.
Qed.

#[export] Instance bytes_ok_dec l : Decision (bytes_ok l).
Proof.
  refine (match bytes_okb l as b return bytes_okb l = b → _ with
          | true => λ H, left (proj1 (bytes_okb_spec l) H)
          | false => λ H, right _ end eq_refl).
  rewrite <- bytes_okb_spec. by rewrite H.
Defined.

Lemma bytes_ok_app l k : bytes_ok (l ++ k) ↔ bytes_ok l ∧ bytes_ok k.
Proof. apply Forall_app. Qed.

Lemma idx_byte l i b : bytes_ok l → idx l i = Some b → is_byte b.
Proof.
  unfold idx. case_match; [|done]. intros Hl Hb.
  by apply (Forall_lookup_1 _ _ _ _ Hl Hb).
Qed.

#[export] Hint Resolve len_nonneg idx_byte : go_bounds.

(** Big- and little-endian readings of a byte string. *)
Definition be (l : list Z) : Z := foldl (λ acc b, acc * 256 + b) 0 l.
Fixpoint le (l : list Z) : Z :=
  match l with [] => 0 | b :: t => b + 256 * le t end.

(** The [n] low bytes of [z], least significant first. *)
Fixpoint le_bytes (n : nat) (z : Z) : list Z :=
  match n with O => [] | S n => z mod 256 :: le_bytes n (z / 256) end.

Lemma le_bytes_length n z : length (le_bytes n z) = n.
Proof. revert z; induction n; intros; simpl; auto. Qed.

Lemma le_bytes_ok n z : bytes_ok (le_bytes n z).
Proof.
  revert z; induction n; intros z; simpl; constructor; [|apply IHn].
  unfold is_byte. pose proof (Z.mod_pos_bound z 256). lia.
Qed.

Lemma le_le_bytes n z : le (le_bytes n z) = z mod 256 ^ Z.of_nat n.
Proof.
  revert z; induction n as [|n IH]; intros z; simpl le_bytes; simpl le.
  - by rewrite Z.mod_1_r.
  - rewrite IH, Nat2Z.inj_succ, Z.pow_succ_r by lia.
    rewrite Z.rem_mul_r by lia. lia.
Qed.

Lemma be_app l k : be (l ++ k) = be l * 256 ^ len k + be k.
Proof.
  unfold be. rewrite foldl_app. generalize (foldl (λ acc b, acc * 256 + b) 0 l).
  induction k as [|x k IH] using rev_ind; intros acc; simpl.
  - rewrite len_nil. lia.
  - rewrite !foldl_app. simpl. rewrite (IH acc), len_app.
    pose proof (len_nonneg k). change (len [x]) with 1.
    rewrite Z.pow_add_r by lia. lia.
Qed.

Lemma be_cons b l : be (b :: l) = b * 256 ^ len l + be l.
Proof. change (b :: l) with ([b] ++ l). rewrite be_app. unfold be at 1. simpl. lia. Qed.

Lemma be_bound l : bytes_ok l → 0 <= be l < 256 ^ len l.
Proof.
  induction 1 as [|b l Hb _ IH].
  - unfold be, len. simpl. lia.
  - rewrite be_cons, len_cons, Z.pow_add_r by (pose proof (len_nonneg l); lia).
    unfold is_byte in Hb. nia.
Qed.

(** * Lists filtered by a test, and lists of lists *)

Lemma list_filter_elem {A} (f : A → bool) l x : x ∈ List.filter f l ↔ f x = true ∧ x ∈ l.
Proof. rewrite !list_elem_of_In, List.filter_In. tauto. Qed.

Lemma list_filter_sublist {A} (f : A → bool) l : sublist (List.filter f l) l.
Proof. induction l as [|x l IH]; [constructor|]. cbn [List.filter]. destruct (f x); by constructor. Qed.

Lemma elem_of_concat {A} (x : A) ls : x ∈ concat ls ↔ ∃ l, x ∈ l ∧ l ∈ ls.
Proof.
  rewrite list_elem_of_In, in_concat. split; intros (l&H1&H2); exists l.
  - by rewrite !list_elem_of_In.
  - by rewrite !list_elem_of_In in *.
Qed.

(** * The standard library's [sort] *)

(** [sort.Search(n, f)]: the binary search loop, [j - i] halving. *)
Fixpoint search_loop (fuel : nat) (f : Z → bool) (i j : Z) : Z :=
  match fuel with
  | O => i
  | S fuel =>
      if i <? j then
        let h := (i + j) / 2 in
        if negb (f h) then search_loop fuel f (h + 1) j else search_loop fuel f i h
      else i
  end.

Definition search (n : Z) (f : Z → bool) : Z := search_loop (Z.to_nat n) f 0 n.

Lemma search_loop_spec fuel f i j n :
  0 <= i <= j → j <= n → j - i <= Z.of_nat fuel →
  (∀ k, 0 <= k < i → f k = false) → (∀ k, j <= k < n → f k = true) →
  (∀ k k', 0 <= k <= k' → k' < n → f k = true → f k' = true) →
  let r := search_loop fuel f i j in
  i <= r <= j ∧ (∀ k, 0 <= k < r → f k = false) ∧ (∀ k, r <= k < n → f k = true).
Proof.
  intros Hij Hjn Hfuel Hlo Hhi Hmono. revert i j Hij Hjn Hfuel Hlo Hhi.
  induction fuel as [|fuel IH]; intros i j Hij Hjn Hfuel Hlo Hhi; cbn zeta; simpl search_loop.
  - assert (i = j) as -> by lia. split_and!; auto; lia.
  - destruct (i <? j) eqn:Hlt; reflect_bools; cycle 1.
    { assert (i = j) as -> by lia. split_and!; auto; lia. }
    assert (Hh : i <= (i + j) / 2 < j) by (split; [apply Z.div_le_lower_bound|apply Z.div_lt_upper_bound]; lia).
    assert (Hhalf : i + j <= 2 * ((i + j) / 2) + 1).
    { pose proof (Z.div_mod (i + j) 2). pose proof (Z.mod_pos_bound (i + j) 2). lia. }
    destruct (f ((i + j) / 2)) eqn:Hf; simpl negb; cbn iota.
    + destruct (IH i ((i + j) / 2)) as (?&?&?); try lia; auto.
      { intros k Hk. apply (Hmono ((i + j) / 2) k); auto; lia. }
      split_and!; auto; lia.
    + destruct (IH ((i + j) / 2 + 1) j) as (?&?&?); try lia; auto.
      { intros k Hk. destruct (f k) eqn:Hfk; [|done].
        rewrite (Hmono k ((i + j) / 2)) in Hf; auto; lia. }
      split_and!; auto; lia.
Qed.

(** [sort.Search] returns the smallest index at which a monotone predicate holds. *)
Lemma search_spec n f :
  0 <= n → (∀ k k', 0 <= k <= k' → k' < n → f k = true → f k' = true) →
  let r := search n f in
  0 <= r <= n ∧ (∀ k, 0 <= k < r → f k = false) ∧ (∀ k, r <= k < n → f k = true).
Proof. intros Hn Hf. apply search_loop_spec; auto; intros; lia. Qed.

(** [sort.Slice] leaves a permutation of the slice in which no element precedes
    one that is less; with equal keys the order is not specified, so clients are
    proved against this interface and not against one algorithm. *)
Class SliceSort {A} (less : A → A → bool) := {
  sort_slice : list A → list A;
  sort_slice_perm : ∀ l, sort_slice l ≡ₚ l;
  sort_slice_sorted : ∀ l, Sorted (λ a b, less b a = false) (sort_slice l);
}.
Arguments sort_slice {A} less {_} _.
Arguments sort_slice_perm {A} less {_} _.
Arguments sort_slice_sorted {A} less {_} _.

(** Insertion sort discharges the interface for every total order test. *)
Section InsertionSort.
Context {A : Type} (less : A → A → bool).
Context (less_asym : ∀ a b, less a b = true → less b a = false).

Fixpoint insert_sorted (x : A) (l : list A) : list A :=
  match l with
  | [] => [x]
  | y :: t => if less y x then y :: insert_sorted x t else x :: y :: t
  end.

Definition insertion_sort (l : list A) : list A := foldr insert_sorted [] l.

Lemma insert_sorted_perm x l : insert_sorted x l ≡ₚ x :: l.
Proof.
  induction l as [|y t IH]; simpl; [done|].
  destruct (less y x); [|done]. rewrite IH. apply Permutation_swap.
Qed.

Lemma insertion_sort_perm l : insertion_sort l ≡ₚ l.
Proof.
  induction l as [|x l IH]; simpl; [done|].
  rewrite insert_sorted_perm. by constructor.
Qed.

Lemma insert_sorted_sorted x l :
  Sorted (λ a b, less b a = false) l → Sorted (λ a b, less b a = false) (insert_sorted x l).
Proof.
  induction l as [|y t IH]; intros Hs; simpl; [by repeat constructor|].
  destruct (less y x) eqn:Hyx.
  - apply Sorted_inv in Hs as [Hs Hhd]. constructor; [auto|].
    destruct t as [|z t]; simpl; [constructor; auto|].
    destruct (less z x); constructor; auto. inversion Hhd; subst; auto.
  - constructor; [done|]. by constructor.
Qed.

Lemma insertion_sort_sorted l : Sorted (λ a b, less b a = false) (insertion_sort l).
Proof. induction l; simpl; [constructor|]. by apply insert_sorted_sorted. Qed.

Definition insertion_slice_sort : SliceSort less :=
  {| sort_slice := insertion_sort;
     sort_slice_perm := insertion_sort_perm;
     sort_slice_sorted := insertion_sort_sorted |}.
End InsertionSort.

Lemma filter_perm {A} (f : A → bool) l l' : l ≡ₚ l' → List.filter f l ≡ₚ List.filter f l'.
Proof.
  induction 1 as [|x l l' _ IH|x y l|l1 l2 l3 _ IH1 _ IH2]; cbn [List.filter]; [done| | |by rewrite IH1].
  - destruct (f x); by rewrite ?IH.
  - destruct (f x), (f y); try done. apply Permutation_swap.
Qed.


Lemma foldl_inv {A B} (P : A → Prop) (f : A → B → A) l a : (∀ a b, P a → P (f a b)) → P a → P (foldl f a l).
Proof. intros H. revert a. induction l as [|b l IH]; intros a Ha; [done|]. cbn [foldl]. by apply IH, H. Qed.

(** * Sums over maps *)

Definition map_sum {A} (f : A → Z) (m : gmap Z A) : Z := map_fold (λ _ a acc, f a + acc) 0 m.

Section MapSum.
Context {A : Type} (f : A → Z).

Lemma map_sum_empty : map_sum f ∅ = 0.
Proof. apply map_fold_empty. Qed.

Lemma map_sum_insert_new m i x : m !! i = None → map_sum f (<[i:=x]> m) = f x + map_sum f m.
Proof. intros. unfold map_sum. rewrite map_fold_insert_L; [done| |done]. intros. lia. Qed.

Lemma map_sum_delete m i x : m !! i = Some x → map_sum f m = f x + map_sum f (delete i m).
Proof. intros. unfold map_sum. erewrite map_fold_delete_L; [done| |done]. intros. simpl. lia. Qed.

Lemma map_sum_insert m i x y :
  m !! i = Some y → map_sum f (<[i:=x]> m) = map_sum f m - f y + f x.
Proof.
  intros Hy. rewrite <- insert_delete_eq, map_sum_insert_new by apply lookup_delete_eq.
  rewrite (map_sum_delete m i y) by done. lia.
Qed.

Lemma map_sum_nonneg m : map_Forall (λ _ a, 0 <= f a) m → 0 <= map_sum f m.
Proof.
  induction m as [|i x m Hi IH] using map_ind; intros H; [rewrite map_sum_empty; lia|].
  rewrite map_sum_insert_new by done. apply map_Forall_insert in H as [Hx H]; [|done].
  specialize (IH H). lia.
Qed.

Lemma map_sum_ext g m : map_Forall (λ _ a, f a = g a) m → map_sum f m = map_sum g m.
Proof.
  induction m as [|i x m Hi IH] using map_ind; intros H; [done|].
  apply map_Forall_insert in H as [Hx H]; [|done].
  unfold map_sum in *. rewrite !map_fold_insert_L by (done || (intros; lia)). by rewrite Hx, IH.
Qed.

(** The sum does not depend on the order of an iteration over the map. *)
Definition keyed_sum (m : gmap Z A) (l : list Z) : Z := foldr (λ i acc, default 0 (f <$> m !! i) + acc) 0 l.

Lemma keyed_sum_perm m l k : l ≡ₚ k → keyed_sum m l = keyed_sum m k.
Proof. apply foldr_permutation_proper; [apply _|solve_proper|]. intros. lia. Qed.

Lemma keyed_sum_insert_notin m i x l : i ∉ l → keyed_sum (<[i:=x]> m) l = keyed_sum m l.
Proof.
  induction l as [|j l IH]; intros Hni; [done|]. simpl.
  apply not_elem_of_cons in Hni as [Hne Hni]. by rewrite lookup_insert_ne, IH.
Qed.

Lemma map_sum_list m order : order ≡ₚ (map_to_list m).*1 → map_sum f m = keyed_sum m order.
Proof.
  intros Hp. rewrite (keyed_sum_perm _ _ _ Hp). clear order Hp.
  induction m as [|i x m Hi IH] using map_ind.
  { by rewrite map_to_list_empty, map_sum_empty. }
  rewrite map_sum_insert_new by done.
  assert (Hp : (map_to_list (<[i:=x]> m)).*1 ≡ₚ i :: (map_to_list m).*1).
  { change (i :: (map_to_list m).*1) with ((i, x) :: map_to_list m).*1. by rewrite map_to_list_insert. }
  rewrite (keyed_sum_perm _ _ _ Hp). simpl. rewrite lookup_insert_eq. simpl.
  rewrite keyed_sum_insert_notin, IH; [done|].
  rewrite list_elem_of_fmap. intros ([j y]&Heq&Hin%elem_of_map_to_list). simplify_eq/=.
Qed.
End MapSum.
