(* ===== verification/GoFloat.v ===== *)
(** * IEEE 754 binary64 arithmetic as Go's [float64]

    The server mixes integer byte counts with [float64] factors ([0.85], [0.8])
    when it sizes the reader windows of the piece cache.  The operations are
    those of the standard library's executable specification of binary64
    ([SpecFloat], 53 bits of precision, exponents below 1024, round to nearest
    even).  The lemmas bound the result of one rounding by a relative error of
    2^-52 from above, which is what the window bounds of [Reader] rest on. *)

From Stdlib Require Import SpecFloat QArith Qpower Qround Lqa.
From S2P Require Import Prelude.
#[local] Open Scope Z_scope.

Notation float64 := spec_float.

Definition prec : Z := 53.
Definition emax : Z := 1024.

(** [float64(n)] *)
Definition of_int (n : Z) : float64 := binary_normalize prec emax n 0 false.
Definition fmul : float64 → float64 → float64 := SFmul prec emax.
Definition fdiv : float64 → float64 → float64 := SFdiv prec emax.

(** [int64(x)]: truncation towards zero; out of range values give the integer
    indefinite value of amd64 (the language leaves them to the platform). *)
Definition to_int64 (x : float64) : Z :=
  match x with
  | S754_finite s m e =>
      let v := if 0 <=? e then Zpos m * 2 ^ e else Zpos m / 2 ^ (- e) in
      if v <? two63 then (if s then - v else v) else - two63
  | S754_zero _ => 0
  | _ => - two63
  end.

(** [x + y], [x < y], and the tests of [math.IsNaN] and [math.IsInf]. *)
Definition fadd : float64 → float64 → float64 := SFadd prec emax.
Definition flt : float64 → float64 → bool := SFltb.
Definition is_finite_float (x : float64) : bool :=
  match x with S754_zero _ | S754_finite _ _ _ => true | _ => false end.

(** The integral part of a finite number. *)
Definition Trunc (x : float64) : Z :=
  match x with
  | S754_finite s m e =>
      let v := if 0 <=? e then Zpos m * 2 ^ e else Zpos m / 2 ^ (- e) in if s then - v else v
  | _ => 0
  end.

(** The integers [math.Ceil(x)] and [math.Round(x)] (half away from zero) of a finite number. *)
Definition Ceil (x : float64) : Z :=
  match x with
  | S754_finite s m e =>
      let v := if s then Zneg m else Zpos m in
      if 0 <=? e then v * 2 ^ e else - (- v / 2 ^ (- e))
  | _ => 0
  end.
Definition Round (x : float64) : Z :=
  match x with
  | S754_finite s m e =>
      let v := if 0 <=? e then Zpos m * 2 ^ e else (2 * Zpos m + 2 ^ (- e)) / (2 * 2 ^ (- e)) in
      if s then - v else v
  | _ => 0
  end.

(** [uint64(x)] of an integral number; out of range values as on amd64. *)
Definition to_uint64 (z : Z) : Z := if (0 <=? z) && (z <? two64) then z else two63.

(** The literals [0.85], [0.8] and [100.0] as binary64 values. *)
Definition f_0_85 : float64 := S754_finite false 7656119366529843 (-53).
Definition f_0_8 : float64 := S754_finite false 7205759403792794 (-53).
Definition f_100 : float64 := S754_finite false 7036874417766400 (-46).

Example f_0_85_valid : valid_binary prec emax f_0_85 = true ∧
  fdiv (of_int 85) (of_int 100) = f_0_85.
Proof. by vm_compute. Qed.
Example f_0_8_valid : fdiv (of_int 8) (of_int 10) = f_0_8.
Proof. by vm_compute. Qed.
Example f_100_valid : of_int 100 = f_100.
Proof. by vm_compute. Qed.

(** ** Values *)

Definition pow2 (e : Z) : Q := Qpower 2 e.
Definition val (m e : Z) : Q := inject_Z m * pow2 e.

Lemma pow2_pos e : (0 < pow2 e)%Q.
Proof. apply Qpower_0_lt. reflexivity. Qed.

Lemma pow2_add a b : (pow2 (a + b) == pow2 a * pow2 b)%Q.
Proof. apply Qpower_plus. discriminate. Qed.

Lemma pow2_nonneg n : 0 <= n → (pow2 n == inject_Z (2 ^ n))%Q.
Proof. intros. unfold pow2. rewrite Zpower_Qpower by done. reflexivity. Qed.

Lemma val_shift m e n : 0 <= n → (val m (e + n) == val (m * 2 ^ n) e)%Q.
Proof.
  intros Hn. unfold val. rewrite pow2_add, (pow2_nonneg n), inject_Z_mult by done. ring.
Qed.

Lemma val_le m m' e : m <= m' → (val m e <= val m' e)%Q.
Proof.
  intros H. unfold val. apply Qmult_le_compat_r; [by rewrite <- Zle_Qle|].
  apply Qlt_le_weak, pow2_pos.
Qed.

Lemma val_mul m m' e e' : (val (m * m') (e + e') == val m e * val m' e')%Q.
Proof. unfold val. rewrite pow2_add, inject_Z_mult. ring. Qed.

Lemma val_nonneg m e : 0 <= m → (0 <= val m e)%Q.
Proof. intros. rewrite <- (Qmult_0_l (pow2 e)). apply (val_le 0 m e H). Qed.

(** [fle lo x B]: [x] is a non-negative finite number with exponent at least
    [lo], of value at most [B]. *)
Definition fle (lo : Z) (x : float64) (B : Q) : Prop :=
  (∃ s, x = S754_zero s ∧ (0 <= B)%Q) ∨
  (∃ m e, x = S754_finite false m e ∧ lo <= e ∧ (val (Zpos m) e <= B)%Q).

Lemma fle_mono lo lo' x B B' : lo' <= lo → (B <= B')%Q → fle lo x B → fle lo' x B'.
Proof.
  intros ? HB [(s&->&H)|(m&e&->&?&H)].
  - left. exists s. split; [done|]. by apply (Qle_trans _ B).
  - right. exists m, e. split_and!; [done|lia|]. by apply (Qle_trans _ B).
Qed.

(** ** One rounding *)

Lemma digits2_pos_spec p :
  2 ^ (Zpos (digits2_pos p) - 1) <= Zpos p < 2 ^ Zpos (digits2_pos p).
Proof.
  induction p as [p IH|p IH|]; simpl digits2_pos; [| |done].
  all: rewrite Pos2Z.inj_succ, Z.pow_succ_r by lia.
  all: replace (Z.succ (Zpos (digits2_pos p)) - 1) with (Z.succ (Zpos (digits2_pos p) - 1)) by lia.
  all: rewrite Z.pow_succ_r by lia; lia.
Qed.

Lemma Zdigits2_spec m : 0 < m → 2 ^ (Zdigits2 m - 1) <= m < 2 ^ Zdigits2 m ∧ 0 < Zdigits2 m.
Proof. destruct m as [|p|]; try lia. intros _. simpl. split; [apply digits2_pos_spec|lia]. Qed.

Lemma shr_1_m mrs : 0 <= shr_m mrs → shr_m (shr_1 mrs) = shr_m mrs / 2.
Proof.
  destruct mrs as [[|[p|p|]|p] r s]; simpl; intros H; try done.
  - apply (Z.div_unique _ _ _ 1); lia.
  - apply (Z.div_unique _ _ _ 0); lia.
Qed.

Lemma iter_shr_1_m n mrs :
  0 <= shr_m mrs → shr_m (SpecFloat.iter_pos shr_1 n mrs) = shr_m mrs / 2 ^ Zpos n.
Proof.
  assert (Hnn : ∀ (m k : Z), 0 <= m → 0 <= k → 0 <= m / 2 ^ k).
  { intros. apply Z.div_pos; [done|]. by apply Z.pow_pos_nonneg. }
  assert (Hdd : ∀ (m a b : Z), 0 <= a → 0 <= b → m / 2 ^ a / 2 ^ b = m / 2 ^ (a + b)).
  { intros. rewrite Z.pow_add_r, Z.div_div by (try apply Z.pow_pos_nonneg; try apply Z.pow_nonzero; lia).
    done. }
  revert mrs. induction n as [n IH|n IH|]; intros mrs H; simpl SpecFloat.iter_pos.
  - assert (H1 : shr_m (shr_1 mrs) = shr_m mrs / 2 ^ 1) by (by rewrite shr_1_m).
    pose proof (IH (shr_1 mrs)) as H2. rewrite H1 in H2.
    pose proof (IH (SpecFloat.iter_pos shr_1 n (shr_1 mrs))) as H3.
    rewrite H3; rewrite H2 by (apply Hnn; lia); rewrite !Hdd by lia; [|apply Hnn; lia].
    do 2 f_equal. lia.
  - pose proof (IH mrs H) as H2. pose proof (IH (SpecFloat.iter_pos shr_1 n mrs)) as H3.
    rewrite H3; rewrite H2; [|apply Hnn; lia]. rewrite Hdd by lia. do 2 f_equal. lia.
  - by rewrite shr_1_m.
Qed.

Lemma shr_record_of_loc_m m l : shr_m (shr_record_of_loc m l) = m.
Proof. by destruct l as [|[]]. Qed.

(** The shift that brings a mantissa to 53 digits: its amount and its effect. *)
Lemma shr_fexp_spec m e l :
  0 <= m → -1074 <= e →
  let n := Z.max 0 (Zdigits2 m - 53) in
  shr_m (shr_fexp prec emax m e l).1 = m / 2 ^ n ∧ (shr_fexp prec emax m e l).2 = e + n.
Proof.
  intros Hm He. unfold shr_fexp, shr, fexp, emin, prec, emax.
  set (k := Z.max (Zdigits2 m + e - 53) (3 - 1024 - 53) - e).
  assert (Hk : Z.max 0 (Zdigits2 m - 53) = Z.max 0 k) by lia. cbv zeta. rewrite Hk.
  destruct k as [|p|p] eqn:E; simpl fst; simpl snd.
  - rewrite shr_record_of_loc_m. change (2 ^ Z.max 0 0) with 1. rewrite Z.div_1_r. lia.
  - rewrite iter_shr_1_m, shr_record_of_loc_m by (by rewrite shr_record_of_loc_m).
    rewrite Z.max_r by lia. done.
  - rewrite shr_record_of_loc_m, Z.max_l, Z.div_1_r by lia. lia.
Qed.

Lemma round_nearest_even_bound m l : m <= round_nearest_even m l <= m + 1.
Proof. destruct l as [|[]]; simpl; try lia. destruct (Z.even m); lia. Qed.

Lemma round_nearest_even_exact m : round_nearest_even m loc_Exact = m.
Proof. done. Qed.

Lemma shr_exact_loc m e :
  Zdigits2 m <= 53 → -1074 <= e → 0 <= m →
  loc_of_shr_record (shr_fexp prec emax m e loc_Exact).1 = loc_Exact.
Proof.
  intros Hd He Hm. unfold shr_fexp, shr, fexp, emin, prec, emax.
  destruct (Z.max _ _ - e) eqn:E; try done. lia.
Qed.

Lemma shr_fexp_pair m e l :
  shr_fexp prec emax m e l = ((shr_fexp prec emax m e l).1, (shr_fexp prec emax m e l).2).
Proof. by destruct (shr_fexp prec emax m e l). Qed.

(** The rounded mantissa before renormalisation. *)
Definition rounded (m e : Z) (l : location) : Z :=
  round_nearest_even (shr_m (shr_fexp prec emax m e l).1)
    (loc_of_shr_record (shr_fexp prec emax m e l).1).

Lemma rounded_bounds m e l :
  0 < m → -1074 <= e → (2 ^ 52 <= m ∨ l = loc_Exact) →
  let n := Z.max 0 (Zdigits2 m - 53) in
  0 <= rounded m e l ∧ 2 ^ 52 * (rounded m e l * 2 ^ n) <= (2 ^ 52 + 1) * m
  ∧ rounded m e l <= 2 ^ 53.
Proof.
  intros Hm He Hl n. unfold rounded.
  destruct (shr_fexp_spec m e l) as [Hs _]; [lia..|]. fold n in Hs.
  pose proof (round_nearest_even_bound (shr_m (shr_fexp prec emax m e l).1)
    (loc_of_shr_record (shr_fexp prec emax m e l).1)) as Hr.
  set (r := round_nearest_even _ _) in *.
  destruct (Zdigits2_spec m Hm) as [[Hd1 Hd2] Hd3]. rewrite Hs in Hr.
  assert (0 <= m / 2 ^ n) by (apply Z.div_pos; lia).
  destruct (Z.le_gt_cases (Zdigits2 m) 53) as [Hle|Hgt].
  - assert (n = 0) as Hn by lia. rewrite Hn in *. rewrite Z.pow_0_r, Z.div_1_r in *.
    assert (m < 2 ^ 53) by (eapply Z.lt_le_trans; [apply Hd2|apply Z.pow_le_mono_r; lia]).
    destruct Hl as [Hl| ->]; [change (2 ^ 52) with 4503599627370496 in *; lia|].
    assert (r = m) as ->; [|change (2 ^ 52) with 4503599627370496; lia].
    unfold r. rewrite shr_exact_loc, round_nearest_even_exact by lia. done.
  - assert (Hn : n = Zdigits2 m - 53) by lia.
    assert (Hp : 2 ^ 52 * 2 ^ n <= m).
    { rewrite <- Z.pow_add_r by lia. eapply Z.le_trans; [|apply Hd1]. apply Z.pow_le_mono_r; lia. }
    assert (Hq : m < 2 ^ 53 * 2 ^ n).
    { rewrite <- Z.pow_add_r by lia. eapply Z.lt_le_trans; [apply Hd2|]. apply Z.pow_le_mono_r; lia. }
    assert (0 < 2 ^ n) by (apply Z.pow_pos_nonneg; lia).
    assert (m / 2 ^ n * 2 ^ n <= m) by (rewrite Z.mul_comm; apply Z.mul_div_le; done).
    assert (m / 2 ^ n < 2 ^ 53) by (apply Z.div_lt_upper_bound; lia).
    split_and!; [lia| |lia].
    assert (r * 2 ^ n <= m / 2 ^ n * 2 ^ n + 2 ^ n) by nia. nia.
Qed.

(** The relative error of one rounding, from above. *)
Definition rnd : Q := 1 + (1 # 4503599627370496).

Lemma rnd_pos : (0 <= rnd)%Q.
Proof. by vm_compute. Qed.

Lemma Zdigits2_le m k : 0 <= m → 0 <= k → m < 2 ^ k → Zdigits2 m <= k.
Proof.
  intros Hm Hk Hlt. destruct (Z.eq_dec m 0) as [->|]; [simpl; lia|].
  destruct (Zdigits2_spec m) as [[Hd _] _]; [lia|].
  apply Z.le_ngt. intros Hgt.
  assert (2 ^ k <= 2 ^ (Zdigits2 m - 1)) by (apply Z.pow_le_mono_r; lia). lia.
Qed.

Lemma binary_round_aux_le m e l :
  0 < m → -1074 <= e → e + Zdigits2 m <= 900 → (2 ^ 52 <= m ∨ l = loc_Exact) →
  fle e (binary_round_aux prec emax false m e l) (rnd * val m e).
Proof.
  intros Hm He Hmax Hl. unfold binary_round_aux.
  destruct (rounded_bounds m e l Hm He Hl) as (Hr0&Hr1&Hr2).
  destruct (shr_fexp_spec m e l) as [_ He']; [lia..|].
  set (n := Z.max 0 (Zdigits2 m - 53)) in *.
  rewrite (shr_fexp_pair m e l). cbv iota beta.
  fold (rounded m e l). rewrite He'. set (r := rounded m e l) in *.
  destruct (shr_fexp_spec r (e + n) loc_Exact) as [Hs2 He2]; [lia..|].
  rewrite (shr_fexp_pair r (e + n) loc_Exact). cbv iota beta.
  set (k := Z.max 0 (Zdigits2 r - 53)) in *.
  assert (Hk : 0 <= k <= 1).
  { assert (Zdigits2 r <= 54); [|lia]. apply Zdigits2_le; [lia..|].
    eapply Z.le_lt_trans; [apply Hr2|]. by vm_compute. }
  assert (Hn : 0 <= n <= Z.max 0 (Zdigits2 m)) by lia.
  assert (Hv : (val (r / 2 ^ k) (e + n + k) <= rnd * val m e)%Q).
  { rewrite (val_shift _ (e + n) k), (val_shift _ e n) by lia.
    assert (Hz : r / 2 ^ k * 2 ^ k * 2 ^ n <= r * 2 ^ n).
    { apply Z.mul_le_mono_nonneg_r; [apply Z.pow_nonneg; lia|].
      rewrite Z.mul_comm. apply Z.mul_div_le. apply Z.pow_pos_nonneg; lia. }
    eapply Qle_trans; [apply val_le, Hz|].
    unfold val, rnd. rewrite Qmult_assoc.
    apply Qmult_le_compat_r; [|apply Qlt_le_weak, pow2_pos].
    assert (Hi : (inject_Z (2 ^ 52 * (r * 2 ^ n)) <= inject_Z ((2 ^ 52 + 1) * m))%Q)
      by (by rewrite <- Zle_Qle).
    rewrite !inject_Z_mult in *.
    change (inject_Z (2 ^ 52)) with (4503599627370496 # 1)%Q in Hi.
    change (inject_Z (2 ^ 52 + 1)) with (4503599627370497 # 1)%Q in Hi. lra. }
  rewrite Hs2, He2. destruct (r / 2 ^ k) as [|p|p] eqn:Hq.
  - left. exists false. split; [done|].
    apply Qmult_le_0_compat; [apply rnd_pos|]. apply val_nonneg. lia.
  - rewrite (proj2 (Z.leb_le _ _)) by (unfold emax, prec; destruct (Zdigits2_spec m); lia).
    right. exists p, (e + n + k). split_and!; [done|lia|done].
  - assert (0 <= r / 2 ^ k) by (apply Z.div_pos; [lia|apply Z.pow_pos_nonneg; lia]). lia.
Qed.

(** ** The operations *)

Lemma val_pos_digits m e : 0 < m → (pow2 (e + Zdigits2 m - 1) <= val m e)%Q.
Proof.
  intros Hm. destruct (Zdigits2_spec m Hm) as [[H _] ?].
  replace (e + Zdigits2 m - 1) with (e + (Zdigits2 m - 1)) by lia.
  rewrite pow2_add, (pow2_nonneg (Zdigits2 m - 1)) by lia. unfold val. rewrite Qmult_comm.
  apply Qmult_le_compat_r; [by rewrite <- Zle_Qle|]. apply Qlt_le_weak, pow2_pos.
Qed.

Lemma pow2_lt_inv a b : (pow2 a < pow2 b)%Q → a < b.
Proof.
  intros H. apply Z.nle_gt. intros Hle.
  apply (Qlt_not_le _ _ H). replace a with (b + (a - b)) by lia.
  rewrite pow2_add, (pow2_nonneg (a - b)) by lia.
  rewrite <- (Qmult_1_r (pow2 b)) at 1. rewrite !(Qmult_comm (pow2 b)).
  apply Qmult_le_compat_r; [|apply Qlt_le_weak, pow2_pos].
  change 1%Q with (inject_Z 1). rewrite <- Zle_Qle.
  assert (0 < 2 ^ (a - b)) by (apply Z.pow_pos_nonneg; lia). lia.
Qed.

(** A value bound bounds the number of digits. *)
Lemma digits_of_val m e k : 0 < m → (val m e < pow2 k)%Q → e + Zdigits2 m <= k.
Proof.
  intros Hm Hv. assert (e + Zdigits2 m - 1 < k); [|lia].
  apply pow2_lt_inv. eapply Qle_lt_trans; [by apply val_pos_digits|done].
Qed.

Lemma fmul_le lo1 lo2 x y A B :
  fle lo1 x A → fle lo2 y B → -1074 <= lo1 + lo2 → (A * B < pow2 900)%Q →
  (0 <= A)%Q → (0 <= B)%Q →
  fle (lo1 + lo2) (fmul x y) (rnd * (A * B)).
Proof.
  intros Hx Hy Hlo Hmax HA HB.
  assert (H0 : (0 <= rnd * (A * B))%Q)
    by (apply Qmult_le_0_compat; [apply rnd_pos|by apply Qmult_le_0_compat]).
  destruct Hx as [(sx&->&_)|(mx&ex&->&Hex&Hvx)], Hy as [(sy&->&_)|(my&ey&->&Hey&Hvy)];
    unfold fmul; simpl SFmul; try (left; eexists; by split).
  assert (Hprod : (val (Zpos (mx * my)) (ex + ey) <= A * B)%Q).
  { rewrite Pos2Z.inj_mul, val_mul. apply Qmult_le_compat_nonneg; split; auto; by apply val_nonneg. }
  assert (Hd : ex + ey + Zdigits2 (Zpos (mx * my)) <= 900).
  { apply digits_of_val; [lia|]. eapply Qle_lt_trans; eassumption. }
  eapply fle_mono; [| |apply binary_round_aux_le]; try lia; [|by right].
  rewrite !(Qmult_comm rnd). apply Qmult_le_compat_r; [done|apply rnd_pos].
Qed.

Lemma fdiv_le lo x A my ey :
  fle lo x A → (0 <= A)%Q → -800 <= lo → -100 <= ey <= 100 → Zdigits2 (Zpos my) = 53 →
  (A < pow2 700)%Q →
  fle (Z.min (lo - 106 - ey) (lo - ey)) (fdiv x (S754_finite false my ey)) (rnd * (A / val (Zpos my) ey)).
Proof.
  intros Hx HA Hlo Hey Hdy Hmax.
  assert (Hy : (0 < val (Zpos my) ey)%Q)
    by (unfold val; apply Qmult_lt_0_compat; [by rewrite <- (Zlt_Qlt 0)|apply pow2_pos]).
  assert (H0 : (0 <= rnd * (A / val (Zpos my) ey))%Q).
  { apply Qmult_le_0_compat; [apply rnd_pos|]. apply Qle_shift_div_l; [done|]. by rewrite Qmult_0_l. }
  destruct Hx as [(sx&->&_)|(mx&ex&->&Hex&Hvx)]; unfold fdiv; simpl SFdiv;
    [left; eexists; by split|].
  unfold SFdiv_core_binary. rewrite Hdy.
  destruct (Zdigits2_spec (Zpos mx)) as [[Hm1 _] Hd0]; [lia|].
  destruct (Zdigits2_spec (Zpos my)) as [[_ Hm2] _]; [lia|]. rewrite Hdy in Hm2.
  set (d := Zdigits2 (Zpos mx)) in *.
  set (e' := Z.min (fexp prec emax (d + ex - (53 + ey))) (ex - ey)).
  assert (He'v : e' <= d + ex - (53 + ey) - 53 ∧ lo - 106 - ey <= e' ∧ 0 <= ex - ey - e').
  { subst e'. unfold fexp, emin, prec, emax. lia. }
  set (s := ex - ey - e') in *.
  set (m' := match s with Z0 => Zpos mx | Zpos _ => Z.shiftl (Zpos mx) s | Zneg _ => 0 end).
  assert (Hm' : m' = Zpos mx * 2 ^ s).
  { subst m'. destruct s eqn:E; [lia|by rewrite Z.shiftl_mul_pow2 by lia|lia]. }
  pose proof (Z_div_mod m' (Zpos my)) as Hdiv.
  destruct (Z.div_eucl m' (Zpos my)) as [q r]. destruct Hdiv as [Hq Hr]; [lia|].
  assert (Hq52 : 2 ^ 52 <= q).
  { assert (Hbig : 2 ^ 105 <= m').
    { rewrite Hm'. replace 105 with ((d - 1) + (106 - d)) by lia.
      destruct (Z.le_gt_cases d 106).
      - rewrite Z.pow_add_r by lia. apply Z.mul_le_mono_nonneg; try apply Z.pow_nonneg; try lia.
        apply Z.pow_le_mono_r; lia.
      - assert (2 ^ 105 <= 2 ^ (d - 1)) by (apply Z.pow_le_mono_r; lia).
        assert (0 < 2 ^ s) by (apply Z.pow_pos_nonneg; lia).
        replace (d - 1 + (106 - d)) with 105 by lia. nia. }
    change (2 ^ 105) with (2 ^ 52 * 2 ^ 53) in Hbig. nia. }
  assert (Hval : (val q e' * val (Zpos my) ey <= val (Zpos mx) ex)%Q).
  { rewrite <- val_mul. replace ex with (e' + ey + s) by lia.
    rewrite (val_shift _ (e' + ey) s) by lia. apply val_le. lia. }
  assert (Hqle : (val q e' <= A / val (Zpos my) ey)%Q).
  { apply Qle_shift_div_l; [done|]. eapply Qle_trans; eassumption. }
  eapply fle_mono; [| |apply binary_round_aux_le]; [|..|by left]; try lia.
  - rewrite !(Qmult_comm rnd). apply Qmult_le_compat_r; [done|apply rnd_pos].
  - apply digits_of_val; [lia|].
    assert (H52 : (pow2 (ey + 52) <= val (Zpos my) ey)%Q).
    { replace (ey + 52) with (ey + Zdigits2 (Zpos my) - 1) by lia. by apply val_pos_digits. }
    assert (Hb : (val q e' * pow2 (ey + 52) < pow2 700)%Q).
    { eapply Qle_lt_trans; [|apply Hmax]. eapply Qle_trans; [|apply Hvx]. eapply Qle_trans; [|apply Hval].
      rewrite !(Qmult_comm (val q e')). apply Qmult_le_compat_r; [done|]. apply val_nonneg. lia. }
    apply (Qmult_lt_r _ _ (pow2 (ey + 52)) (pow2_pos _)). eapply Qlt_le_trans; [apply Hb|].
    rewrite <- pow2_add. replace (900 + (ey + 52)) with (700 + (252 + ey)) by lia.
    rewrite pow2_add, (pow2_nonneg (252 + ey)) by lia. rewrite <- (Qmult_1_r (pow2 700)) at 1.
    rewrite !(Qmult_comm (pow2 700)). apply Qmult_le_compat_r; [|apply Qlt_le_weak, pow2_pos].
    change 1%Q with (inject_Z 1). rewrite <- Zle_Qle.
    assert (0 < 2 ^ (252 + ey)) by (apply Z.pow_pos_nonneg; lia). lia.
Qed.

Lemma of_int_le n : 0 <= n < 2 ^ 800 → fle (-52) (of_int n) (rnd * inject_Z n).
Proof.
  intros [Hn Hmax]. destruct n as [|p|p]; [|clear Hn|lia].
  { left. exists false. split; [done|]. by vm_compute. }
  unfold of_int, binary_normalize, binary_round.
  assert (Hd : 0 < Zdigits2 (Zpos p) <= 800).
  { destruct (Zdigits2_spec (Zpos p)) as [_ ?]; [lia|]. split; [done|]. by apply Zdigits2_le. }
  change (Zpos (digits2_pos p)) with (Zdigits2 (Zpos p)). unfold shl_align.
  set (d := Zdigits2 (Zpos p)) in *.
  assert (Hf : fexp prec emax (d + 0) - 0 = d - 53) by (unfold fexp, emin, prec, emax; lia).
  rewrite Hf. destruct (d - 53) as [|k|k] eqn:E; cbv iota beta.
  1,2: eapply fle_mono; [| |apply binary_round_aux_le]; try lia; [|by right];
    unfold val, pow2; simpl Qpower; rewrite Qmult_1_r; apply Qle_refl.
  assert (Hit : Zpos (Pos.iter xO p k) = Zpos p * 2 ^ Zpos k).
  { clear. induction k as [|k IH] using Pos.peano_ind; [simpl; lia|].
    rewrite Pos.iter_succ, Pos2Z.inj_succ, Z.pow_succ_r by lia. lia. }
  rewrite Hit. replace (fexp prec emax (d + 0)) with (Zneg k) by lia.
  assert (Hpk : 0 < 2 ^ Zpos k) by (apply Z.pow_pos_nonneg; lia).
  assert (Hdig : Zdigits2 (Zpos p * 2 ^ Zpos k) <= d + Zpos k).
  { apply Zdigits2_le; [lia..|]. destruct (Zdigits2_spec (Zpos p)) as [[_ H] _]; [lia|].
    fold d in H. rewrite Z.pow_add_r by lia. nia. }
  eapply fle_mono; [| |apply binary_round_aux_le]; try lia; [|by right].
  rewrite <- (val_shift _ (Zneg k) (Zpos k)) by lia.
  replace (Zneg k + Zpos k) with 0 by lia. unfold val, pow2. simpl Qpower.
  rewrite Qmult_1_r. apply Qle_refl.
Qed.

(** Truncation: a bounded float converts to an integer between 0 and the bound. *)
Lemma to_int64_le lo x B :
  fle lo x B → (B < inject_Z two63)%Q → 0 <= to_int64 x ∧ (inject_Z (to_int64 x) <= B)%Q.
Proof.
  intros [(s&->&H)|(m&e&->&_&H)] Hmax; simpl to_int64; [split; [lia|done]|].
  set (v := if 0 <=? e then _ else _).
  assert (Hv : 0 <= v ∧ (inject_Z v <= val (Zpos m) e)%Q).
  { unfold v. destruct (0 <=? e) eqn:He; reflect_bools.
    - split; [apply Z.mul_nonneg_nonneg; [lia|apply Z.pow_nonneg; lia]|].
      unfold val. rewrite pow2_nonneg, inject_Z_mult by lia. apply Qle_refl.
    - assert (0 < 2 ^ (- e)) by (apply Z.pow_pos_nonneg; lia).
      split; [apply Z.div_pos; lia|].
      apply (Qmult_le_r _ _ (pow2 (- e)) (pow2_pos _)).
      unfold val. rewrite <- Qmult_assoc, <- pow2_add.
      replace (e + - e) with 0 by lia. unfold pow2 at 2. simpl Qpower. rewrite Qmult_1_r.
      rewrite pow2_nonneg, <- inject_Z_mult by lia. rewrite <- Zle_Qle.
      rewrite Z.mul_comm. by apply Z.mul_div_le. }
  destruct Hv as [Hv0 Hv1].
  assert (Hvb : (inject_Z v <= B)%Q) by (eapply Qle_trans; eassumption).
  assert (v < two63) by (rewrite Zlt_Qlt; eapply Qle_lt_trans; eassumption).
  rewrite (proj2 (Z.ltb_lt _ _)) by done. by split.
Qed.

(** ** Exact results *)

(** A mantissa of 53 digits needs no rounding. *)
Lemma binary_round_aux_exact p e :
  Zdigits2 (Zpos p) = 53 → -1074 <= e <= 900 →
  binary_round_aux prec emax false (Zpos p) e loc_Exact = S754_finite false p e.
Proof.
  intros Hd He. unfold binary_round_aux.
  destruct (shr_fexp_spec (Zpos p) e loc_Exact) as [Hs He']; [lia..|].
  rewrite Hd in Hs, He'. change (Z.max 0 (53 - 53)) with 0 in *. rewrite Z.pow_0_r, Z.div_1_r in Hs.
  rewrite (shr_fexp_pair (Zpos p) e loc_Exact). cbv iota beta.
  rewrite shr_exact_loc, round_nearest_even_exact, Hs, He' by lia.
  rewrite (shr_fexp_pair (Zpos p) (e + 0) loc_Exact). cbv iota beta.
  destruct (shr_fexp_spec (Zpos p) (e + 0) loc_Exact) as [Hs2 He2]; [lia..|].
  rewrite Hd in Hs2, He2. change (Z.max 0 (53 - 53)) with 0 in *. rewrite Z.pow_0_r, Z.div_1_r in Hs2.
  rewrite Hs2, He2. replace (e + 0 + 0) with e by lia.
  by rewrite (proj2 (Z.leb_le _ _)) by (unfold emax, prec; lia).
Qed.

Lemma iter_xO p k : Zpos (Pos.iter xO p k) = Zpos p * 2 ^ Zpos k.
Proof.
  induction k as [|k IH] using Pos.peano_ind; [simpl; lia|].
  rewrite Pos.iter_succ, Pos2Z.inj_succ, Z.pow_succ_r by lia. lia.
Qed.

(** Integers below 2^53 convert exactly. *)
Lemma of_int_exact n :
  0 < n < 2 ^ 53 → ∃ m e, of_int n = S754_finite false m e ∧ Zdigits2 (Zpos m) = 53 ∧
    -52 <= e <= 0 ∧ (val (Zpos m) e == inject_Z n)%Q.
Proof.
  intros [Hn Hmax]. destruct n as [|p|p]; try lia.
  destruct (Zdigits2_spec (Zpos p)) as [[Hd1 Hd2] Hd0]; [lia|].
  assert (Hd : Zdigits2 (Zpos p) <= 53) by (apply Zdigits2_le; lia).
  unfold of_int, binary_normalize, binary_round.
  change (Zpos (digits2_pos p)) with (Zdigits2 (Zpos p)). unfold shl_align.
  set (d := Zdigits2 (Zpos p)) in *.
  assert (Hf : fexp prec emax (d + 0) - 0 = d - 53) by (unfold fexp, emin, prec, emax; lia). rewrite Hf.
  destruct (d - 53) as [|k|k] eqn:E; cbv iota beta; [|lia|].
  - rewrite binary_round_aux_exact by lia. exists p, 0. split_and!; [done|lia|lia|lia|].
    unfold val, pow2. simpl Qpower. ring.
  - replace (fexp prec emax (d + 0)) with (Zneg k) by lia.
    set (m := Pos.iter xO p k). pose proof (iter_xO p k) as Hit. fold m in Hit.
    assert (Hpk : 0 < 2 ^ Zpos k) by (apply Z.pow_pos_nonneg; lia).
    assert (Hdm : Zdigits2 (Zpos m) = 53).
    { assert (Zdigits2 (Zpos m) <= d + Zpos k).
      { apply Zdigits2_le; [lia..|]. rewrite Hit, Z.pow_add_r by lia. nia. }
      assert (d + Zpos k <= Zdigits2 (Zpos m)); [|lia].
      destruct (Zdigits2_spec (Zpos m)) as [[_ Hm2] _]; [lia|]. apply Z.nlt_ge. intros Hlt.
      assert (2 ^ Zdigits2 (Zpos m) <= 2 ^ (d - 1 + Zpos k)) by (apply Z.pow_le_mono_r; lia).
      rewrite Z.pow_add_r in H0 by lia. nia. }
    rewrite binary_round_aux_exact by lia. exists m, (Zneg k). split_and!; [done|done|lia|lia|].
    rewrite Hit, <- (val_shift _ (Zneg k) (Zpos k)) by lia. replace (Zneg k + Zpos k) with 0 by lia.
    unfold val, pow2. simpl Qpower. ring.
Qed.

Definition f_1 : float64 := S754_finite false 4503599627370496 (-52).

(** A number divided by itself is 1. *)
Lemma fdiv_self m e : Zdigits2 (Zpos m) = 53 → fdiv (S754_finite false m e) (S754_finite false m e) = f_1.
Proof.
  intros Hd. unfold fdiv. simpl SFdiv. unfold SFdiv_core_binary. rewrite Hd.
  assert (He : Z.min (fexp prec emax (53 + e - (53 + e))) (e - e) = -53) by (unfold fexp, emin, prec, emax; lia).
  rewrite He. replace (e - e - -53) with 53 by lia.
  change (Z.shiftl (Zpos m) 53) with (Z.shiftl (Zpos m) (Zpos 53)).
  rewrite Z.shiftl_mul_pow2 by lia. pose proof (Z_div_mod (Zpos m * 2 ^ 53) (Zpos m)) as Hdiv.
  destruct (Z.div_eucl (Zpos m * 2 ^ 53) (Zpos m)) as [q r]. destruct Hdiv as [Hq Hr]; [lia|].
  assert (Hk : Zpos m * (2 ^ 53 - q) = r) by lia.
  assert (2 ^ 53 - q = 0) as Hk0 by (clear -Hk Hr; set (k := 2 ^ 53 - q) in *; nia).
  rewrite Hk0, Z.mul_0_r in Hk. subst r. replace q with (2 ^ 53) by lia.
  assert (new_location (Zpos m) 0 = loc_Exact) as ->.
  { unfold new_location, new_location_even, new_location_odd. by destruct (Z.even _). }
  by vm_compute.
Qed.
