(* ===== verification/Ranges.v ===== *)
(** * Reader windows as piece ranges ([server/torr/storage/torrstor/ranges.go])

    A reader protects the pieces of a window around its position.  The cache
    collects one range per active reader, merges them, and asks whether a piece
    lies in one of them, by binary search ([inRanges]) or through a bitmap
    ([fillPieceInRange]).  The section ends with the two budget computations
    that turn byte counts into piece counts and per-reader readahead. *)

From S2P Require Import Prelude.

(** The part of [torrent.File] the cache reads: its position in the torrent and
    its length, both in bytes. *)
Record File := mkFile { Offset : Z; Length : Z }.

Record Range := mkRange { Start : Z; End : Z; RFile : File }.

#[export] Instance File_eq_dec : EqDecision File.
Proof. solve_decision. Defined.
#[export] Instance Range_eq_dec : EqDecision Range.
Proof. solve_decision. Defined.

Definition inRanges (ranges : list Range) (ind : Z) : bool :=
  let i := search (len ranges) (λ i,
    match idx ranges i with Some r => ind <=? End r | None => false end) in
  (i <? len ranges) &&
  match idx ranges i with Some r => Start r <=? ind | None => false end.

(** The marking loop [for i := start; i <= end; i++ { dst[i] = true }]. *)
Fixpoint mark_loop (n : nat) (dst : list bool) (i : Z) : outcome (list bool) :=
  match n with
  | O => Done dst
  | S n => dst' ← of_option (upd dst i true); mark_loop n dst' (i + 1)
  end.

Definition mark_range (dst : list bool) (pieceCount : Z) (rng : Range) : outcome (list bool) :=
  let start := if Start rng <? 0 then 0 else Start rng in
  let end_ := if pieceCount <=? End rng then pieceCount - 1 else End rng in
  mark_loop (Z.to_nat (end_ - start + 1)) dst start.

Fixpoint mark_ranges (dst : list bool) (ranges : list Range) (pieceCount : Z) : outcome (list bool) :=
  match ranges with
  | [] => Done dst
  | rng :: rest => dst' ← mark_range dst pieceCount rng; mark_ranges dst' rest pieceCount
  end.

Definition fillPieceInRange (dst : list bool) (ranges : list Range) (pieceCount : Z) : outcome (list bool) :=
  mark_ranges (replicate (length dst) false) ranges pieceCount.

Definition pieceEvictable (size : Z) (complete inReaderWindow : bool) : bool :=
  (0 <? size) && complete && negb inReaderWindow.

(** The comparison [sort.Slice] is called with. *)
Definition range_less (a b : Range) : bool :=
  (Start a <? Start b) || ((Start a =? Start b) && (End a <? End b)).

(** The merging loop: [cur] is [merged[j]], the list is [merged[i:]]. *)
Fixpoint merge_loop (cur : Range) (rest : list Range) : list Range :=
  match rest with
  | [] => [cur]
  | x :: rest =>
      if Start x <=? End cur then
        merge_loop (if End cur <? End x then mkRange (Start cur) (End x) (RFile cur) else cur) rest
      else cur :: merge_loop x rest
  end.

Definition mergeRange `{!SliceSort range_less} (ranges : list Range) : list Range :=
  if len ranges <=? 1 then ranges
  else match sort_slice range_less ranges with
       | [] => []
       | x :: rest => merge_loop x rest
       end.

Definition prefetchBudgetPct : Z := 40.

Definition pieceBudgetCount (count capacity pieceLength : Z) : Z :=
  if (count <=? 1) || (capacity <=? 0) || (pieceLength <=? 0) then count
  else
    let max := Z.quot (Z.quot (i64 (capacity * prefetchBudgetPct)) 100) pieceLength in
    let max := if max <? 1 then 1 else max in
    if max <? count then max else count.

Definition minPerReaderReadahead : Z := 8388608.

Definition perReaderReadahead (total readers : Z) : Z :=
  let readers := if readers <? 1 then 1 else readers in
  let ra := Z.quot total readers in
  let ra := if ra <? minPerReaderReadahead then minPerReaderReadahead else ra in
  if total <? ra then total else ra.

(** ** Coverage *)

Definition in_range (id : Z) (r : Range) : bool := (Start r <=? id) && (id <=? End r).
Definition covered (ranges : list Range) (id : Z) : bool := existsb (in_range id) ranges.
Definition range_wf (r : Range) : Prop := Start r <= End r.

#[export] Instance range_wf_dec r : Decision (range_wf r).
Proof. unfold range_wf. apply _. Defined.

(** Consecutive ranges do not meet: each ends before the next one starts. *)
Definition separated (ranges : list Range) : Prop := Sorted (λ a b, End a < Start b) ranges.

Lemma range_less_asym a b : range_less a b = true → range_less b a = false.
Proof.
  unfold range_less. intros H. apply orb_true_iff in H. apply orb_false_iff.
  rewrite andb_true_iff, !Z.ltb_lt, Z.eqb_eq in H. split; [apply Z.ltb_ge; lia|].
  apply andb_false_iff. rewrite Z.eqb_neq, Z.ltb_ge. lia.
Qed.

#[export] Instance range_sort : SliceSort range_less := insertion_slice_sort range_less range_less_asym.

Lemma covered_perm l k id : l ≡ₚ k → covered l id = covered k id.
Proof.
  intros Hp. unfold covered. apply eq_true_iff_eq. rewrite !existsb_exists.
  setoid_rewrite <- list_elem_of_In. by setoid_rewrite Hp.
Qed.

#[export] Instance covered_proper : Proper ((≡ₚ) ==> eq ==> eq) covered.
Proof. intros l k Hp id ? <-. by apply covered_perm. Qed.

(** A sorted list of ranges starts in increasing order. *)
Lemma sorted_starts x l :
  Sorted (λ a b, range_less b a = false) (x :: l) → Forall (λ y, Start x <= Start y) l.
Proof.
  intros Hs. apply Sorted_StronglySorted in Hs.
  - apply StronglySorted_inv in Hs as [_ Hs]. eapply Forall_impl; [apply Hs|].
    intros y Hy. unfold range_less in Hy. zlia.
  - intros a b c. unfold range_less. rewrite !orb_false_iff, !andb_false_iff.
    rewrite !Z.ltb_ge, !Z.eqb_neq. lia.
Qed.

Lemma merge_loop_covered cur rest id :
  range_wf cur → Forall range_wf rest →
  Sorted (λ a b, range_less b a = false) (cur :: rest) →
  covered (merge_loop cur rest) id = in_range id cur || covered rest id.
Proof.
  intros Hcur Hrest Hs.
  pose proof (sorted_starts cur rest Hs) as Hle.
  apply Sorted_inv in Hs as [Hs _].
  revert cur Hcur Hle. induction Hrest as [|x rest Hx Hrest IH]; intros cur Hcur Hle.
  { simpl. by rewrite orb_false_r. }
  pose proof (Sorted_inv Hs) as [Hs' _].
  apply Forall_cons in Hle as [Hx1 Hle]. simpl merge_loop.
  pose proof (sorted_starts x rest Hs) as Hle'.
  destruct (Start x <=? End cur) eqn:E; reflect_bools.
  - rewrite IH; try done.
    + simpl. unfold in_range. destruct (End cur <? End x) eqn:E2; simpl; reflect_bools;
        destruct (covered rest id); rewrite ?orb_true_r, ?orb_false_r; auto;
        apply eq_true_iff_eq; rewrite ?orb_true_iff, ?andb_true_iff, ?Z.leb_le;
        unfold range_wf in *; lia.
    + destruct (End cur <? End x) eqn:E2; unfold range_wf in *; simpl; zlia.
    + eapply Forall_impl; [apply Hle|]. by destruct (End cur <? End x).
  - simpl. f_equal. by apply IH.
Qed.

Lemma merge_loop_separated cur rest :
  separated (merge_loop cur rest) ∧ ∃ y l, merge_loop cur rest = y :: l ∧ Start y = Start cur.
Proof.
  revert cur. induction rest as [|x rest IH]; intros cur; simpl.
  { split; [repeat constructor|]. by exists cur, []. }
  destruct (Start x <=? End cur) eqn:E; reflect_bools.
  - destruct (IH (if End cur <? End x then mkRange (Start cur) (End x) (RFile cur) else cur))
      as (Hs&y&l&Heq&Hy). rewrite Heq in *. split; [done|]. exists y, l. split; [done|].
    rewrite Hy. by destruct (End cur <? End x).
  - destruct (IH x) as (Hs&y&l&Heq&Hy). rewrite Heq in *. split; [|by exists cur, (y :: l)].
    constructor; [done|]. constructor. lia.
Qed.

Lemma merge_loop_wf cur rest :
  range_wf cur → Forall range_wf rest → Forall range_wf (merge_loop cur rest).
Proof.
  intros Hcur Hrest. revert cur Hcur. induction Hrest as [|x rest Hx Hrest IH]; intros cur Hcur; simpl.
  - by constructor.
  - destruct (Start x <=? End cur) eqn:E; [|constructor; auto].
    apply IH. destruct (End cur <? End x) eqn:E2; unfold range_wf in *; simpl; zlia.
Qed.

Section Merge.
Context `{!SliceSort range_less}.

Lemma mergeRange_sorted_view ranges :
  (len ranges <=? 1 = true ∧ mergeRange ranges = ranges) ∨
  (∃ x rest, sort_slice range_less ranges = x :: rest ∧ mergeRange ranges = merge_loop x rest).
Proof.
  unfold mergeRange. destruct (len ranges <=? 1) eqn:E; [by left|]. right.
  destruct (sort_slice range_less ranges) as [|x rest] eqn:Hs; [|by exists x, rest].
  pose proof (sort_slice_perm range_less ranges) as Hp. rewrite Hs in Hp.
  apply Permutation_nil in Hp. subst. unfold len in E. simpl in E. zlia.
Qed.

Lemma mergeRange_covered ranges id :
  Forall range_wf ranges → covered (mergeRange ranges) id = covered ranges id.
Proof.
  intros Hwf. destruct (mergeRange_sorted_view ranges) as [[_ ->]|(x&rest&Hs&->)]; [done|].
  pose proof (sort_slice_perm range_less ranges) as Hp.
  pose proof (sort_slice_sorted range_less ranges) as Hso. rewrite Hs in Hp, Hso.
  rewrite <- Hp in Hwf. apply Forall_cons in Hwf as [Hx Hrest].
  rewrite merge_loop_covered by done. by rewrite <- Hp.
Qed.

Lemma mergeRange_separated ranges : separated (mergeRange ranges).
Proof.
  destruct (mergeRange_sorted_view ranges) as [[Hl ->]|(x&rest&_&->)].
  - destruct ranges as [|a [|b l]]; [constructor|repeat constructor|].
    rewrite !len_cons in Hl. pose proof (len_nonneg l). zlia.
  - apply merge_loop_separated.
Qed.

Lemma mergeRange_wf ranges : Forall range_wf ranges → Forall range_wf (mergeRange ranges).
Proof.
  intros Hwf. destruct (mergeRange_sorted_view ranges) as [[_ ->]|(x&rest&Hs&->)]; [done|].
  pose proof (sort_slice_perm range_less ranges) as Hp. rewrite Hs in Hp.
  rewrite <- Hp in Hwf. apply Forall_cons in Hwf as [Hx Hrest]. by apply merge_loop_wf.
Qed.
End Merge.

(** ** Binary search over separated ranges *)

Lemma separated_strong l :
  Forall range_wf l → separated l → StronglySorted (λ a b, End a < Start b) l.
Proof.
  induction 1 as [|x l Hx Hl IH]; intros Hs; [constructor|].
  apply Sorted_inv in Hs as [Hs Hhd]. specialize (IH Hs). constructor; [done|].
  destruct Hl as [|y l Hy Hl]; [constructor|]. inversion Hhd; subst.
  apply StronglySorted_inv in IH as [_ IH]. constructor; [done|].
  eapply Forall_impl; [apply IH|]. unfold range_wf in Hy. simpl. lia.
Qed.

Lemma separated_lookup l i j a b :
  Forall range_wf l → separated l → (i < j)%nat → l !! i = Some a → l !! j = Some b → End a < Start b.
Proof.
  intros Hwf Hs. apply separated_strong in Hs; [|done]. clear Hwf. revert i j.
  induction Hs as [|x l Hs IH Hx]; intros i j Hij Hi Hj; [done|].
  destruct j as [|j]; [lia|]. destruct i as [|i]; simplify_eq/=.
  - apply (Forall_lookup_1 _ _ _ _ Hx Hj).
  - eapply IH; [|done..]. lia.
Qed.

(** On separated well-formed ranges, the binary search decides membership. *)
Lemma inRanges_covered l id :
  Forall range_wf l → separated l → inRanges l id = covered l id.
Proof.
  intros Hwf Hs. unfold inRanges.
  set (f := λ i, match idx l i with Some r => id <=? End r | None => false end).
  assert (Hidx : ∀ k, 0 <= k < len l → ∃ r, idx l k = Some r ∧ l !! Z.to_nat k = Some r).
  { intros k Hk. destruct (idx_in_range l k Hk) as [r Hr]. exists r. split; [done|].
    unfold idx in Hr. destruct (0 <=? k) eqn:E; [done|zlia]. }
  destruct (search_spec (len l) f) as (Hb&Hlo&Hhi); [apply len_nonneg| |].
  { intros k k' Hk Hk'. destruct (Hidx k) as (a&Ha&Ha'); [lia|]. destruct (Hidx k') as (b&Hb&Hb'); [lia|].
    unfold f. rewrite Ha, Hb, !Z.leb_le. intros. destruct (Z.eq_dec k k') as [->|]; [congruence|].
    pose proof (separated_lookup l (Z.to_nat k) (Z.to_nat k') a b Hwf Hs ltac:(lia) Ha' Hb').
    apply (Forall_lookup_1 _ _ _ _ Hwf) in Hb'. unfold range_wf in Hb'. lia. }
  set (i := search (len l) f) in *. fold f. apply eq_true_iff_eq. unfold covered. rewrite existsb_exists.
  setoid_rewrite <- list_elem_of_In. unfold in_range. setoid_rewrite andb_true_iff. setoid_rewrite Z.leb_le.
  split.
  - intros [Hi Hst]. apply Z.ltb_lt in Hi. destruct (Hidx i) as (r&Hr&Hr'); [lia|]. rewrite Hr in Hst.
    exists r. split; [by apply list_elem_of_lookup_2 in Hr'|]. specialize (Hhi i). unfold f in Hhi.
    rewrite Hr in Hhi. rewrite Z.leb_le in Hst, Hhi. split; [done|]. apply Hhi. lia.
  - intros (r&Hin&Hst&Hen). apply list_elem_of_lookup in Hin as [k Hk].
    pose proof (lookup_lt_Some _ _ _ Hk) as Hkl.
    assert (Hfk : f (Z.of_nat k) = true).
    { destruct (Hidx (Z.of_nat k)) as (r'&Hr&Hr'); [unfold len; lia|]. unfold f. rewrite Hr.
      rewrite Nat2Z.id in Hr'. apply Z.leb_le. congruence. }
    assert (Hik : i <= Z.of_nat k).
    { apply Z.le_ngt. intros Hgt. rewrite Hlo in Hfk; [done|lia]. }
    assert (Hil : i < len l) by (unfold len; lia). split; [by apply Z.ltb_lt|].
    destruct (Hidx i) as (r'&Hr&Hr'); [lia|]. rewrite Hr. apply Z.leb_le.
    destruct (Z.eq_dec i (Z.of_nat k)) as [Heq|].
    { rewrite Heq, Nat2Z.id in Hr'. congruence. }
    specialize (Hhi i). unfold f in Hhi. rewrite Hr, Z.leb_le in Hhi.
    pose proof (separated_lookup l (Z.to_nat i) k r' r Hwf Hs ltac:(lia) Hr' Hk). lia.
Qed.

(** ** The bitmap *)

Lemma upd_in_range {A} (l : list A) i x :
  0 <= i < len l → upd l i x = Some (<[Z.to_nat i := x]> l).
Proof.
  intros [H1 H2]. unfold upd. by rewrite (proj2 (Z.leb_le _ _) H1), (proj2 (Z.ltb_lt _ _) H2).
Qed.

Lemma mark_loop_spec n dst i :
  0 <= i → (n = O ∨ i + Z.of_nat n <= len dst) →
  ∃ dst', mark_loop n dst i = Done dst' ∧ length dst' = length dst ∧
    ∀ k, dst' !! k = (λ b, b || ((i <=? Z.of_nat k) && (Z.of_nat k <? i + Z.of_nat n))) <$> dst !! k.
Proof.
  revert dst i. induction n as [|n IH]; intros dst i Hi Hn.
  - exists dst. split_and!; [done..|]. intros k. destruct (dst !! k) as [b|]; simpl; [|done].
    f_equal. rewrite (proj2 (andb_false_iff _ _)), orb_false_r; [done|].
    rewrite Z.leb_gt, Z.ltb_ge. lia.
  - destruct Hn as [|Hn]; [done|]. simpl mark_loop. rewrite upd_in_range by lia. simpl.
    destruct (IH (<[Z.to_nat i:=true]> dst) (i + 1)) as (d'&Hd&Hl&Hk); [lia| |].
    { right. unfold len in *. rewrite length_insert. lia. }
    exists d'. split_and!; [done|by rewrite Hl, length_insert|]. intros k. rewrite Hk.
    destruct (decide (k = Z.to_nat i)) as [->|Hne].
    + rewrite list_lookup_insert_eq by (unfold len in Hn; lia).
      destruct (lookup_lt_is_Some_2 dst (Z.to_nat i)) as [b ->]; [unfold len in Hn; lia|]. simpl.
      rewrite Z2Nat.id by lia. rewrite Z.leb_refl, (proj2 (Z.ltb_lt _ _)) by lia.
      by rewrite orb_true_r.
    + rewrite list_lookup_insert_ne by done. destruct (dst !! k) as [b|]; simpl; [|done].
      do 2 f_equal. apply eq_true_iff_eq. rewrite !andb_true_iff, !Z.leb_le, !Z.ltb_lt. lia.
Qed.

Lemma mark_range_spec dst pieceCount rng :
  len dst = pieceCount →
  ∃ dst', mark_range dst pieceCount rng = Done dst' ∧ length dst' = length dst ∧
    ∀ k, dst' !! k = (λ b, b || in_range (Z.of_nat k) rng) <$> dst !! k.
Proof.
  intros Hlen. unfold mark_range.
  set (st := if Start rng <? 0 then 0 else Start rng).
  set (en := if pieceCount <=? End rng then pieceCount - 1 else End rng).
  assert (Hst : st = Z.max 0 (Start rng)) by (unfold st; split_if; lia).
  assert (Hen : en = Z.min (pieceCount - 1) (End rng)) by (unfold en; split_if; lia).
  destruct (mark_loop_spec (Z.to_nat (en - st + 1)) dst st) as (d'&Hd&Hl&Hk); [lia| |].
  { destruct (Z.le_gt_cases (en - st + 1) 0); [left|right]; lia. }
  exists d'. split_and!; [done..|]. intros k. rewrite Hk.
  destruct (dst !! k) as [b|] eqn:E; simpl; [|done]. apply lookup_lt_Some in E.
  do 2 f_equal. unfold in_range. apply eq_true_iff_eq.
  rewrite !andb_true_iff, !Z.leb_le, Z.ltb_lt. unfold len in Hlen. lia.
Qed.

Lemma mark_ranges_spec dst ranges pieceCount :
  len dst = pieceCount →
  ∃ dst', mark_ranges dst ranges pieceCount = Done dst' ∧ length dst' = length dst ∧
    ∀ k, dst' !! k = (λ b, b || covered ranges (Z.of_nat k)) <$> dst !! k.
Proof.
  revert dst. induction ranges as [|r rs IH]; intros dst Hlen; simpl.
  - exists dst. split_and!; [done..|]. intros k. destruct (dst !! k); simpl; [|done].
    by rewrite orb_false_r.
  - destruct (mark_range_spec dst pieceCount r Hlen) as (d1&->&Hl1&Hk1). simpl.
    destruct (IH d1) as (d2&->&Hl2&Hk2); [unfold len in *; lia|].
    exists d2. split_and!; [done|lia|]. intros k. rewrite Hk2, Hk1.
    destruct (dst !! k); simpl; [|done]. by rewrite orb_assoc.
Qed.

Lemma fillPieceInRange_spec dst ranges pieceCount :
  len dst = pieceCount →
  ∃ dst', fillPieceInRange dst ranges pieceCount = Done dst' ∧ length dst' = length dst ∧
    ∀ k, (k < length dst)%nat → dst' !! k = Some (covered ranges (Z.of_nat k)).
Proof.
  intros Hlen. unfold fillPieceInRange.
  destruct (mark_ranges_spec (replicate (length dst) false) ranges pieceCount) as (d&->&Hl&Hk).
  { unfold len in *. by rewrite length_replicate. }
  rewrite length_replicate in Hl. exists d. split_and!; [done..|]. intros k Hlt.
  rewrite Hk, lookup_replicate_2 by done. done.
Qed.

(** ** Properties of the component *)

Definition demo_ranges : list Range :=
  [mkRange 30 40 (mkFile 0 100); mkRange 2 9 (mkFile 0 100); mkRange 5 12 (mkFile 0 100)].

(** Merging the readers' windows and testing a piece by binary search answers
    exactly whether some reader's window holds the piece, whatever order
    [sort.Slice] leaves equal windows in. *)
Theorem inRanges_mergeRange_correct `{!SliceSort range_less} (ranges : list Range) (id : Z) :
  Forall range_wf ranges →
  inRanges (mergeRange ranges) id = existsb (λ r, (Start r <=? id) && (id <=? End r)) ranges.
Proof.
  intros Hwf. rewrite inRanges_covered by auto using mergeRange_wf, mergeRange_separated.
  by apply mergeRange_covered.
Qed.

Lemma inRanges_mergeRange_correct_witness :
  inRanges (mergeRange demo_ranges) 10 = true ∧ inRanges (mergeRange demo_ranges) 20 = false.
Proof.
  assert (Hwf : Forall range_wf demo_ranges).
  { unfold demo_ranges. repeat constructor; unfold range_wf; simpl; lia. }
  rewrite !(inRanges_mergeRange_correct demo_ranges _ Hwf). by split.
Defined.

(** Filling the eviction bitmap never indexes out of range, and afterwards a
    piece's bit is set exactly when binary search over the merged windows finds it. *)
Theorem fillPieceInRange_agrees `{!SliceSort range_less} (dst : list bool) (ranges : list Range) :
  Forall range_wf ranges →
  ∃ dst', fillPieceInRange dst (mergeRange ranges) (len dst) = Done dst' ∧ length dst' = length dst ∧
    ∀ id, 0 <= id < len dst → idx dst' id = Some (inRanges (mergeRange ranges) id).
Proof.
  intros Hwf. destruct (fillPieceInRange_spec dst (mergeRange ranges) (len dst) eq_refl) as (d&Hd&Hl&Hk).
  exists d. split_and!; [done..|]. intros id [H1 H2]. unfold idx. rewrite (proj2 (Z.leb_le _ _) H1).
  rewrite Hk by (unfold len in H2; lia). rewrite Z2Nat.id by done.
  by rewrite inRanges_covered by auto using mergeRange_wf, mergeRange_separated.
Qed.

Lemma fillPieceInRange_agrees_witness :
  ∃ dst', fillPieceInRange (replicate 16 true) (mergeRange demo_ranges) 16 = Done dst' ∧
    idx dst' 10 = Some true ∧ idx dst' 14 = Some false.
Proof.
  assert (Hwf : Forall range_wf demo_ranges).
  { unfold demo_ranges. repeat constructor; unfold range_wf; simpl; lia. }
  destruct (fillPieceInRange_agrees (replicate 16 true) demo_ranges Hwf) as (d&Hd&_&Hk).
  exists d. split; [done|]. split; (rewrite Hk; [by vm_compute|by vm_compute]).
Defined.

(** The prefetch front never pins more than 40 per cent of the cache (one piece
    at least is always allowed) and never exceeds the count asked for, for any
    capacity below 2^57 bytes. *)
Theorem pieceBudgetCount_bound (count capacity pieceLength : Z) :
  1 <= count → 0 < capacity < 2 ^ 57 → 0 < pieceLength →
  let n := pieceBudgetCount count capacity pieceLength in
  1 <= n <= count ∧ (1 < n → 100 * (n * pieceLength) <= 40 * capacity).
Proof.
  intros Hc Hcap Hp. cbn zeta. unfold pieceBudgetCount.
  destruct ((count <=? 1) || (capacity <=? 0) || (pieceLength <=? 0)) eqn:E.
  { rewrite !orb_true_iff, !Z.leb_le in E. lia. }
  rewrite i64_id by (unfold in_i64, prefetchBudgetPct, two63; lia).
  unfold prefetchBudgetPct. rewrite !Z.quot_div_nonneg by (try apply Z.quot_pos; lia).
  set (m := capacity * 40 / 100 / pieceLength).
  assert (Hm : 100 * (m * pieceLength) <= 40 * capacity).
  { unfold m. pose proof (Z.mul_div_le (capacity * 40) 100 ltac:(lia)).
    pose proof (Z.mul_div_le (capacity * 40 / 100) pieceLength ltac:(lia)). lia. }
  assert (Hmx : (if m <? 1 then 1 else m) = Z.max 1 m) by (split_if; lia). rewrite Hmx.
  reflect_bools. split_if; (split; [lia|]); intros.
  - by replace (Z.max 1 m) with m by lia.
  - assert (count * pieceLength <= m * pieceLength) by (apply Z.mul_le_mono_nonneg_r; lia). lia.
Qed.

Lemma pieceBudgetCount_bound_witness :
  let n := pieceBudgetCount 30 134217728 4194304 in
  (1 <= n <= 30 ∧ (1 < n → 100 * (n * 4194304) <= 40 * 134217728)) ∧ n = 12.
Proof. split; [apply (pieceBudgetCount_bound 30 134217728 4194304); lia|by vm_compute]. Defined.

(** Readahead is split so that no reader exceeds the whole readahead and the
    readers together exceed it only through the 8 MiB floor. *)
Theorem perReaderReadahead_bound (total readers : Z) :
  0 <= total → 1 <= readers →
  let ra := perReaderReadahead total readers in
  0 <= ra <= total ∧ Z.min total minPerReaderReadahead <= ra ∧
  (minPerReaderReadahead < ra → ra * readers <= total).
Proof.
  intros Ht Hr. cbn zeta. unfold perReaderReadahead, minPerReaderReadahead.
  rewrite (proj2 (Z.ltb_ge readers 1)) by lia. rewrite Z.quot_div_nonneg by lia.
  pose proof (Z.mul_div_le total readers ltac:(lia)).
  assert (0 <= total / readers) by (apply Z.div_pos; lia).
  set (q := total / readers) in *. assert (q <= total) by nia.
  assert (Hmx : (if q <? 8388608 then 8388608 else q) = Z.max 8388608 q) by (split_if; lia).
  rewrite Hmx. split_if; split_and!; lia.
Qed.

Lemma perReaderReadahead_bound_witness :
  let ra := perReaderReadahead 100000000 3 in
  (0 <= ra <= 100000000 ∧ Z.min 100000000 minPerReaderReadahead <= ra ∧
   (minPerReaderReadahead < ra → ra * 3 <= 100000000)) ∧ ra = 33333333.
Proof. split; [apply (perReaderReadahead_bound 100000000 3); lia|by vm_compute]. Defined.
