(* ===== verification/CacheState.v ===== *)
(** * The state of the piece cache

    The data of [server/torr/storage/torrstor]: the cache of one torrent
    ([cache.go]), its pieces and their memory buffers ([piece.go], [mempiece.go])
    and its readers ([reader.go]), with the operations on buffers and pieces.

    Pieces and readers are objects shared between the cache and the torrent
    client, so they live in maps of their own that survive [Close]; [piecesOpen]
    and [readersOpen] say whether the cache's own maps are still there (Go sets
    them to [nil] on [Close]), and [registered] lists the readers the cache still
    holds, in the order one iteration over the Go map visits them.  Calls into the
    torrent client are recorded in [calls], newest first; [cleanTrigger] is the
    one-slot channel that wakes the cleaner; [indexDisk] is the directory
    [index_cache/<hash>] with one file per index piece. *)

From S2P Require Import Prelude GoFloat Ranges.

Record Piece := mkPiece {
  Id : Z;
  Size : Z;
  Complete : bool;
  Accessed : Z;
  buffer : option (list Z);
}.

(** The client's reader a [Reader] wraps: its position in the file and the static
    readahead, [None] while the client's default readahead function applies. *)
Record TReader := mkTReader { pos : Z; t_readahead : option Z; t_closed : bool }.

Record Reader := mkReader {
  r_Reader : TReader;
  r_offset : Z;
  r_readahead : Z;
  r_file : File;
  r_isClosed : bool;
  r_lastAccess : Z;
  r_isUse : bool;
  r_cache : bool; (* whether the cache field is set *)
}.

(** [torrent.PiecePriority] *)
Definition PiecePriorityNone : Z := 0.
Definition PiecePriorityNormal : Z := 1.
Definition PiecePriorityHigh : Z := 2.
Definition PiecePriorityReadahead : Z := 3.
Definition PiecePriorityNext : Z := 4.
Definition PiecePriorityNow : Z := 5.

(** What the cache asks of the torrent client. *)
Inductive Call :=
| SetPiecePriorities (batch : gmap Z Z)
| SetPriority (id prio : Z)
| UpdateCompletion (id : Z)
| SetPlaybackPressure (on : bool) (off : Z).

(** The settings the component reads. *)
Record BTSets := mkBTSets {
  CacheSize : Z;
  ReaderReadAHead : Z;
  ConnectionsLimit : Z;
  ResponsiveMode : bool;
  RemoveCacheOnDrop : bool;
  PathSet : bool;
}.

Record Cache := mkCache {
  capacity : Z;
  filled : Z;
  pieceLength : Z;
  pieceCount : Z;
  pieces : gmap Z Piece;
  piecesOpen : bool;
  readers : gmap Z Reader;
  registered : list Z;
  readersOpen : bool;
  activeReaders : Z;
  isRemove : bool;
  isClosed : bool;
  IsAggressive : bool;
  MasterLimit : Z;
  lastCleanNS : Z;
  torrent : bool;
  cleanTrigger : bool;
  localPriority : gmap Z Z;
  pieceInRange : list bool;
  isIndexPiece : list bool;
  free : list (list Z);
  freeCap : Z;
  indexDisk : gmap Z (list Z);
  calls : list Call;
}.

(** Field updates. *)
Definition set_capacity (x : Z) (c : Cache) : Cache :=
  mkCache x (filled c) (pieceLength c) (pieceCount c) (pieces c) (piecesOpen c) (readers c) (registered c) (readersOpen c) (activeReaders c) (isRemove c) (isClosed c) (IsAggressive c) (MasterLimit c) (lastCleanNS c) (torrent c) (cleanTrigger c) (localPriority c) (pieceInRange c) (isIndexPiece c) (free c) (freeCap c) (indexDisk c) (calls c).
Definition set_filled (x : Z) (c : Cache) : Cache :=
  mkCache (capacity c) x (pieceLength c) (pieceCount c) (pieces c) (piecesOpen c) (readers c) (registered c) (readersOpen c) (activeReaders c) (isRemove c) (isClosed c) (IsAggressive c) (MasterLimit c) (lastCleanNS c) (torrent c) (cleanTrigger c) (localPriority c) (pieceInRange c) (isIndexPiece c) (free c) (freeCap c) (indexDisk c) (calls c).
Definition set_pieceLength (x : Z) (c : Cache) : Cache :=
  mkCache (capacity c) (filled c) x (pieceCount c) (pieces c) (piecesOpen c) (readers c) (registered c) (readersOpen c) (activeReaders c) (isRemove c) (isClosed c) (IsAggressive c) (MasterLimit c) (lastCleanNS c) (torrent c) (cleanTrigger c) (localPriority c) (pieceInRange c) (isIndexPiece c) (free c) (freeCap c) (indexDisk c) (calls c).
Definition set_pieceCount (x : Z) (c : Cache) : Cache :=
  mkCache (capacity c) (filled c) (pieceLength c) x (pieces c) (piecesOpen c) (readers c) (registered c) (readersOpen c) (activeReaders c) (isRemove c) (isClosed c) (IsAggressive c) (MasterLimit c) (lastCleanNS c) (torrent c) (cleanTrigger c) (localPriority c) (pieceInRange c) (isIndexPiece c) (free c) (freeCap c) (indexDisk c) (calls c).
Definition set_pieces (x : gmap Z Piece) (c : Cache) : Cache :=
  mkCache (capacity c) (filled c) (pieceLength c) (pieceCount c) x (piecesOpen c) (readers c) (registered c) (readersOpen c) (activeReaders c) (isRemove c) (isClosed c) (IsAggressive c) (MasterLimit c) (lastCleanNS c) (torrent c) (cleanTrigger c) (localPriority c) (pieceInRange c) (isIndexPiece c) (free c) (freeCap c) (indexDisk c) (calls c).
Definition set_piecesOpen (x : bool) (c : Cache) : Cache :=
  mkCache (capacity c) (filled c) (pieceLength c) (pieceCount c) (pieces c) x (readers c) (registered c) (readersOpen c) (activeReaders c) (isRemove c) (isClosed c) (IsAggressive c) (MasterLimit c) (lastCleanNS c) (torrent c) (cleanTrigger c) (localPriority c) (pieceInRange c) (isIndexPiece c) (free c) (freeCap c) (indexDisk c) (calls c).
Definition set_readers (x : gmap Z Reader) (c : Cache) : Cache :=
  mkCache (capacity c) (filled c) (pieceLength c) (pieceCount c) (pieces c) (piecesOpen c) x (registered c) (readersOpen c) (activeReaders c) (isRemove c) (isClosed c) (IsAggressive c) (MasterLimit c) (lastCleanNS c) (torrent c) (cleanTrigger c) (localPriority c) (pieceInRange c) (isIndexPiece c) (free c) (freeCap c) (indexDisk c) (calls c).
Definition set_registered (x : list Z) (c : Cache) : Cache :=
  mkCache (capacity c) (filled c) (pieceLength c) (pieceCount c) (pieces c) (piecesOpen c) (readers c) x (readersOpen c) (activeReaders c) (isRemove c) (isClosed c) (IsAggressive c) (MasterLimit c) (lastCleanNS c) (torrent c) (cleanTrigger c) (localPriority c) (pieceInRange c) (isIndexPiece c) (free c) (freeCap c) (indexDisk c) (calls c).
Definition set_readersOpen (x : bool) (c : Cache) : Cache :=
  mkCache (capacity c) (filled c) (pieceLength c) (pieceCount c) (pieces c) (piecesOpen c) (readers c) (registered c) x (activeReaders c) (isRemove c) (isClosed c) (IsAggressive c) (MasterLimit c) (lastCleanNS c) (torrent c) (cleanTrigger c) (localPriority c) (pieceInRange c) (isIndexPiece c) (free c) (freeCap c) (indexDisk c) (calls c).
Definition set_activeReaders (x : Z) (c : Cache) : Cache :=
  mkCache (capacity c) (filled c) (pieceLength c) (pieceCount c) (pieces c) (piecesOpen c) (readers c) (registered c) (readersOpen c) x (isRemove c) (isClosed c) (IsAggressive c) (MasterLimit c) (lastCleanNS c) (torrent c) (cleanTrigger c) (localPriority c) (pieceInRange c) (isIndexPiece c) (free c) (freeCap c) (indexDisk c) (calls c).
Definition set_isRemove (x : bool) (c : Cache) : Cache :=
  mkCache (capacity c) (filled c) (pieceLength c) (pieceCount c) (pieces c) (piecesOpen c) (readers c) (registered c) (readersOpen c) (activeReaders c) x (isClosed c) (IsAggressive c) (MasterLimit c) (lastCleanNS c) (torrent c) (cleanTrigger c) (localPriority c) (pieceInRange c) (isIndexPiece c) (free c) (freeCap c) (indexDisk c) (calls c).
Definition set_isClosed (x : bool) (c : Cache) : Cache :=
  mkCache (capacity c) (filled c) (pieceLength c) (pieceCount c) (pieces c) (piecesOpen c) (readers c) (registered c) (readersOpen c) (activeReaders c) (isRemove c) x (IsAggressive c) (MasterLimit c) (lastCleanNS c) (torrent c) (cleanTrigger c) (localPriority c) (pieceInRange c) (isIndexPiece c) (free c) (freeCap c) (indexDisk c) (calls c).
Definition set_IsAggressive (x : bool) (c : Cache) : Cache :=
  mkCache (capacity c) (filled c) (pieceLength c) (pieceCount c) (pieces c) (piecesOpen c) (readers c) (registered c) (readersOpen c) (activeReaders c) (isRemove c) (isClosed c) x (MasterLimit c) (lastCleanNS c) (torrent c) (cleanTrigger c) (localPriority c) (pieceInRange c) (isIndexPiece c) (free c) (freeCap c) (indexDisk c) (calls c).
Definition set_MasterLimit (x : Z) (c : Cache) : Cache :=
  mkCache (capacity c) (filled c) (pieceLength c) (pieceCount c) (pieces c) (piecesOpen c) (readers c) (registered c) (readersOpen c) (activeReaders c) (isRemove c) (isClosed c) (IsAggressive c) x (lastCleanNS c) (torrent c) (cleanTrigger c) (localPriority c) (pieceInRange c) (isIndexPiece c) (free c) (freeCap c) (indexDisk c) (calls c).
Definition set_lastCleanNS (x : Z) (c : Cache) : Cache :=
  mkCache (capacity c) (filled c) (pieceLength c) (pieceCount c) (pieces c) (piecesOpen c) (readers c) (registered c) (readersOpen c) (activeReaders c) (isRemove c) (isClosed c) (IsAggressive c) (MasterLimit c) x (torrent c) (cleanTrigger c) (localPriority c) (pieceInRange c) (isIndexPiece c) (free c) (freeCap c) (indexDisk c) (calls c).
Definition set_torrent (x : bool) (c : Cache) : Cache :=
  mkCache (capacity c) (filled c) (pieceLength c) (pieceCount c) (pieces c) (piecesOpen c) (readers c) (registered c) (readersOpen c) (activeReaders c) (isRemove c) (isClosed c) (IsAggressive c) (MasterLimit c) (lastCleanNS c) x (cleanTrigger c) (localPriority c) (pieceInRange c) (isIndexPiece c) (free c) (freeCap c) (indexDisk c) (calls c).
Definition set_cleanTrigger (x : bool) (c : Cache) : Cache :=
  mkCache (capacity c) (filled c) (pieceLength c) (pieceCount c) (pieces c) (piecesOpen c) (readers c) (registered c) (readersOpen c) (activeReaders c) (isRemove c) (isClosed c) (IsAggressive c) (MasterLimit c) (lastCleanNS c) (torrent c) x (localPriority c) (pieceInRange c) (isIndexPiece c) (free c) (freeCap c) (indexDisk c) (calls c).
Definition set_localPriority (x : gmap Z Z) (c : Cache) : Cache :=
  mkCache (capacity c) (filled c) (pieceLength c) (pieceCount c) (pieces c) (piecesOpen c) (readers c) (registered c) (readersOpen c) (activeReaders c) (isRemove c) (isClosed c) (IsAggressive c) (MasterLimit c) (lastCleanNS c) (torrent c) (cleanTrigger c) x (pieceInRange c) (isIndexPiece c) (free c) (freeCap c) (indexDisk c) (calls c).
Definition set_pieceInRange (x : list bool) (c : Cache) : Cache :=
  mkCache (capacity c) (filled c) (pieceLength c) (pieceCount c) (pieces c) (piecesOpen c) (readers c) (registered c) (readersOpen c) (activeReaders c) (isRemove c) (isClosed c) (IsAggressive c) (MasterLimit c) (lastCleanNS c) (torrent c) (cleanTrigger c) (localPriority c) x (isIndexPiece c) (free c) (freeCap c) (indexDisk c) (calls c).
Definition set_isIndexPiece (x : list bool) (c : Cache) : Cache :=
  mkCache (capacity c) (filled c) (pieceLength c) (pieceCount c) (pieces c) (piecesOpen c) (readers c) (registered c) (readersOpen c) (activeReaders c) (isRemove c) (isClosed c) (IsAggressive c) (MasterLimit c) (lastCleanNS c) (torrent c) (cleanTrigger c) (localPriority c) (pieceInRange c) x (free c) (freeCap c) (indexDisk c) (calls c).
Definition set_free (x : list (list Z)) (c : Cache) : Cache :=
  mkCache (capacity c) (filled c) (pieceLength c) (pieceCount c) (pieces c) (piecesOpen c) (readers c) (registered c) (readersOpen c) (activeReaders c) (isRemove c) (isClosed c) (IsAggressive c) (MasterLimit c) (lastCleanNS c) (torrent c) (cleanTrigger c) (localPriority c) (pieceInRange c) (isIndexPiece c) x (freeCap c) (indexDisk c) (calls c).
Definition set_freeCap (x : Z) (c : Cache) : Cache :=
  mkCache (capacity c) (filled c) (pieceLength c) (pieceCount c) (pieces c) (piecesOpen c) (readers c) (registered c) (readersOpen c) (activeReaders c) (isRemove c) (isClosed c) (IsAggressive c) (MasterLimit c) (lastCleanNS c) (torrent c) (cleanTrigger c) (localPriority c) (pieceInRange c) (isIndexPiece c) (free c) x (indexDisk c) (calls c).
Definition set_indexDisk (x : gmap Z (list Z)) (c : Cache) : Cache :=
  mkCache (capacity c) (filled c) (pieceLength c) (pieceCount c) (pieces c) (piecesOpen c) (readers c) (registered c) (readersOpen c) (activeReaders c) (isRemove c) (isClosed c) (IsAggressive c) (MasterLimit c) (lastCleanNS c) (torrent c) (cleanTrigger c) (localPriority c) (pieceInRange c) (isIndexPiece c) (free c) (freeCap c) x (calls c).
Definition set_calls (x : list Call) (c : Cache) : Cache :=
  mkCache (capacity c) (filled c) (pieceLength c) (pieceCount c) (pieces c) (piecesOpen c) (readers c) (registered c) (readersOpen c) (activeReaders c) (isRemove c) (isClosed c) (IsAggressive c) (MasterLimit c) (lastCleanNS c) (torrent c) (cleanTrigger c) (localPriority c) (pieceInRange c) (isIndexPiece c) (free c) (freeCap c) (indexDisk c) x.
Definition p_set_Size (x : Z) (p : Piece) : Piece :=
  mkPiece (Id p) x (Complete p) (Accessed p) (buffer p).
Definition p_set_Complete (x : bool) (p : Piece) : Piece :=
  mkPiece (Id p) (Size p) x (Accessed p) (buffer p).
Definition p_set_Accessed (x : Z) (p : Piece) : Piece :=
  mkPiece (Id p) (Size p) (Complete p) x (buffer p).
Definition p_set_buffer (x : option (list Z)) (p : Piece) : Piece :=
  mkPiece (Id p) (Size p) (Complete p) (Accessed p) x.
Definition r_set_Reader (x : TReader) (r : Reader) : Reader :=
  mkReader x (r_offset r) (r_readahead r) (r_file r) (r_isClosed r) (r_lastAccess r) (r_isUse r) (r_cache r).
Definition r_set_offset (x : Z) (r : Reader) : Reader :=
  mkReader (r_Reader r) x (r_readahead r) (r_file r) (r_isClosed r) (r_lastAccess r) (r_isUse r) (r_cache r).
Definition r_set_readahead (x : Z) (r : Reader) : Reader :=
  mkReader (r_Reader r) (r_offset r) x (r_file r) (r_isClosed r) (r_lastAccess r) (r_isUse r) (r_cache r).
Definition r_set_isClosed (x : bool) (r : Reader) : Reader :=
  mkReader (r_Reader r) (r_offset r) (r_readahead r) (r_file r) x (r_lastAccess r) (r_isUse r) (r_cache r).
Definition r_set_lastAccess (x : Z) (r : Reader) : Reader :=
  mkReader (r_Reader r) (r_offset r) (r_readahead r) (r_file r) (r_isClosed r) x (r_isUse r) (r_cache r).
Definition r_set_isUse (x : bool) (r : Reader) : Reader :=
  mkReader (r_Reader r) (r_offset r) (r_readahead r) (r_file r) (r_isClosed r) (r_lastAccess r) x (r_cache r).
Definition r_set_cache (x : bool) (r : Reader) : Reader :=
  mkReader (r_Reader r) (r_offset r) (r_readahead r) (r_file r) (r_isClosed r) (r_lastAccess r) (r_isUse r) x.

Definition upd_piece (id : Z) (f : Piece → Piece) (c : Cache) : Cache :=
  set_pieces (alter f id (pieces c)) c.
Definition upd_reader (id : Z) (f : Reader → Reader) (c : Cache) : Cache :=
  set_readers (alter f id (readers c)) c.
Definition emit (e : Call) (c : Cache) : Cache := set_calls (e :: calls c) c.

(** ** Spare buffers *)

(** [getBuffer]: the buffer taken from the end of [free], if one is held. *)
Definition getBuffer (c : Cache) : option (list Z) * Cache :=
  if len (free c) =? 0 then (None, c)
  else (last (free c), set_free (take (length (free c) - 1) (free c)) c).

Definition putBuffer (b : list Z) (c : Cache) : Cache :=
  if negb (len b =? pieceLength c) || (pieceLength c =? 0) || isClosed c then c
  else if freeCap c <=? len (free c) then c
  else set_free (free c ++ [b]) c.

(** The non-blocking send on [cleanTrigger]. *)
Definition trigger (c : Cache) : Cache := set_cleanTrigger true c.

(** ** Memory pieces *)

Inductive Err := EOF | ErrFake.

Definition NewPiece (id : Z) : Piece := mkPiece id 0 false 0 None.

(** The buffer [WriteAt] copies into, allocated on the first write: a spare one,
    whose old contents stay in place, or a fresh zeroed one. *)
Definition alloc_buffer (p : Piece) (c : Cache) : list Z * Cache :=
  match buffer p with
  | Some b => (b, c)
  | None =>
      let c := trigger c in
      match getBuffer c with
      | (Some b, c) => (b, c)
      | (None, c) => (replicate (Z.to_nat (pieceLength c)) 0, c)
      end
  end.

(** [MemPiece.WriteAt]: the count of bytes copied; the second component of the
    Go result is always nil. *)
Definition WriteAt (id : Z) (b : list Z) (off now : Z) (c : Cache) : outcome (Z * Cache) :=
  p ← of_option (pieces c !! id);
  let '(buf, c) := alloc_buffer p c in
  tail ← of_option (slice_from buf off);
  let '(tail', n) := copy_go tail b in
  let buf' := take (Z.to_nat off) buf ++ tail' in
  let sz := Size p + n in
  let sz := if pieceLength c <? sz then pieceLength c else sz in
  Done (n, set_pieces (<[id := mkPiece (Id p) sz (Complete p) now (Some buf')]> (pieces c)) c).

(** [MemPiece.ReadAt] into a slice of [want] bytes: the bytes copied to its
    front, or the error. *)
Definition ReadAt (id want off now : Z) (c : Cache) : outcome ((list Z + Err) * Cache) :=
  p ← of_option (pieces c !! id);
  let buf := default [] (buffer p) in
  let size := if len buf <? want + off
              then (if len buf - off <? 0 then 0 else len buf - off) else want in
  if (len buf <? off) || (len buf <? off + size) then Done (inr EOF, c)
  else
    data ← of_option (slice buf off (off + size));
    let c := upd_piece id (p_set_Accessed now) c in
    let c := if Size p <=? want + off then trigger c else c in
    if len data =? 0 then Done (inr EOF, c) else Done (inl data, c).

Definition mp_Release (id : Z) (c : Cache) : outcome Cache :=
  p ← of_option (pieces c !! id);
  let c := match buffer p with Some b => putBuffer b c | None => c end in
  Done (upd_piece id (λ p, mkPiece (Id p) 0 false (Accessed p) None) c).

Definition mp_drop (id : Z) (c : Cache) : Cache :=
  upd_piece id (λ p, mkPiece (Id p) 0 false (Accessed p) None) c.

(** ** Pieces *)

Definition is_index (c : Cache) (id : Z) : bool :=
  (id <? len (isIndexPiece c)) && default false (idx (isIndexPiece c) id).

(** [saveIndexPieceToDisk]; [ok] is the outcome of the directory and file calls. *)
Definition saveIndexPieceToDisk (sets : BTSets) (ok : bool) (id : Z) (c : Cache) : outcome Cache :=
  if negb (PathSet sets) then Done c
  else
    p ← of_option (pieces c !! id);
    match buffer p with
    | None => Done c
    | Some buf =>
        let sz := if (Size p <=? 0) || (len buf <? Size p) then len buf else Size p in
        data ← of_option (slice buf 0 sz);
        if ok then Done (set_indexDisk (<[id := data]> (indexDisk c)) c) else Done c
    end.

(** [MarkComplete], the goroutine it starts run to its end. *)
Definition MarkComplete (sets : BTSets) (ok : bool) (id : Z) (c : Cache) : outcome Cache :=
  let c := upd_piece id (p_set_Complete true) c in
  if is_index c id then saveIndexPieceToDisk sets ok id c else Done c.

(** [Completion]: the flag reported to the client; the answer is always known. *)
Definition Completion (id : Z) (c : Cache) : outcome (bool * bool) :=
  p ← of_option (pieces c !! id); Done (Complete p, true).

Definition Release (id : Z) (c : Cache) : outcome Cache :=
  if negb (isClosed c) && is_index c id then Done c
  else
    c ← mp_Release id c;
    if negb (isClosed c) && torrent c
    then Done (emit (UpdateCompletion id) (emit (SetPriority id PiecePriorityNone) c))
    else Done c.

(** What [Cache.Piece] hands to the client: a piece of the cache, or the fake
    piece whose operations fail. *)
Inductive PieceImpl := Real (id : Z) | PieceFake.

Definition Cache_Piece (index : Z) (c : Cache) : PieceImpl :=
  if piecesOpen c then
    match pieces c !! index with Some _ => Real index | None => PieceFake end
  else PieceFake.

Definition impl_ReadAt (i : PieceImpl) (want off now : Z) (c : Cache) : outcome ((list Z + Err) * Cache) :=
  match i with Real id => ReadAt id want off now c | PieceFake => Done (inr ErrFake, c) end.

Definition impl_WriteAt (i : PieceImpl) (b : list Z) (off now : Z) (c : Cache) : outcome ((Z + Err) * Cache) :=
  match i with
  | Real id => r ← WriteAt id b off now c; Done (inl r.1, r.2)
  | PieceFake => Done (inr ErrFake, c)
  end.

Definition impl_MarkComplete (sets : BTSets) (ok : bool) (i : PieceImpl) (c : Cache) : outcome (option Err * Cache) :=
  match i with
  | Real id => c ← MarkComplete sets ok id c; Done (None, c)
  | PieceFake => Done (Some ErrFake, c)
  end.

Definition impl_Completion (i : PieceImpl) (c : Cache) : outcome (bool * bool) :=
  match i with Real id => Completion id c | PieceFake => Done (false, true) end.
