(* ===== verification/Reader.v ===== *)
(** * Readers ([server/torr/storage/torrstor/reader.go])

    A reader wraps a reader of the torrent client with the bookkeeping of the
    cache: its offset, whether it is in use, and the window of pieces it
    protects.  An idle reader is switched off ([readerOff]): its readahead is
    dropped, its client reader is parked at position 0 and it no longer counts as
    active; the next access switches it on again. *)

From Stdlib Require Import QArith Lqa.
From S2P Require Import Prelude GoFloat Ranges CacheState.
#[local] Open Scope Z_scope.

(** [reader.Seek] of the torrent client: the new position, [None] for an unknown
    whence. *)
Definition t_Seek (flen off whence : Z) (t : TReader) : option Z * TReader :=
  let newPos := if whence =? 0 then Some (i64 off)
                else if whence =? 1 then Some (i64 (pos t + off))
                else if whence =? 2 then Some (i64 (flen + off))
                else None in
  match newPos with
  | Some n => (Some n, mkTReader n (t_readahead t) (t_closed t))
  | None => (None, t)
  end.

Definition t_SetReadahead (n : Z) (t : TReader) : TReader := mkTReader (pos t) (Some n) (t_closed t).

Definition r_seek (off : Z) (r : Reader) : Reader :=
  r_set_Reader (t_Seek (Length (r_file r)) off 0 (r_Reader r)).2 r.

(** [Reader.SetReadahead] *)
Definition SetReadahead (length : Z) (r : Reader) : Reader :=
  if negb (r_cache r) then r
  else
    let r := if r_isUse r then r_set_Reader (t_SetReadahead length (r_Reader r)) r else r in
    r_set_readahead length r.

(** The bodies of [readerOn] and [readerOff] on the reader itself. *)
Definition turn_on (r : Reader) : Reader :=
  let r := if pos (r_Reader r) =? 0 then r_seek (r_offset r) r else r in
  r_set_isUse true (SetReadahead (r_readahead r) r).

Definition turn_off (r : Reader) : Reader :=
  let r := r_set_isUse false (SetReadahead 0 r) in
  if 0 <? r_offset r then r_seek 0 r else r.

Definition put_reader (rid : Z) (r : Reader) (c : Cache) : Cache :=
  set_readers (<[rid := r]> (readers c)) c.

Definition readerOn (rid : Z) (c : Cache) : outcome Cache :=
  r ← of_option (readers c !! rid);
  if r_isUse r then Done c
  else Done (set_activeReaders (activeReaders c + 1) (put_reader rid (turn_on r) c)).

Definition readerOff (rid : Z) (c : Cache) : outcome Cache :=
  r ← of_option (readers c !! rid);
  if r_isUse r
  then Done (set_activeReaders (activeReaders c - 1) (put_reader rid (turn_off r) c))
  else Done c.

(** [len(c.readers)]; a nil map has length 0. *)
Definition readers_len (c : Cache) : Z := if readersOpen c then len (registered c) else 0.

Definition checkReader (now rid : Z) (c : Cache) : outcome Cache :=
  r ← of_option (readers c !! rid);
  if (r_lastAccess r + 60 <? now) && (1 <? readers_len c) then readerOff rid c else readerOn rid c.

Definition SetAggressive (enabled : bool) (masterLimit : Z) (c : Cache) : Cache :=
  let c := set_IsAggressive enabled c in
  if 0 <? masterLimit then set_MasterLimit masterLimit c else c.

(** [newReader]; [rid] is the address of the new object.  The goroutine it starts
    ([refreshPriorities]) is a step of its own. *)
Definition newReader (rid : Z) (file : File) (c : Cache) : Cache :=
  let r := mkReader (mkTReader 0 None false) 0 0 file false 0 false false in
  let c := SetAggressive true 0 c in
  let r := SetReadahead 16777216 r in
  let r := r_set_isUse true (r_set_cache true r) in
  let c := set_activeReaders (activeReaders c + 1) (put_reader rid r c) in
  if readersOpen c then set_registered (registered c ++ [rid]) c else c.

Definition Seek (rid offset whence now : Z) (c : Cache) : outcome ((option Z + Err) * Cache) :=
  r ← of_option (readers c !! rid);
  if r_isClosed r then Done (inr EOF, c)
  else
    let off := if whence =? 0 then offset
               else if whence =? 1 then i64 (r_offset r + offset)
               else if whence =? 2 then i64 (Length (r_file r) + offset)
               else r_offset r in
    c ← readerOn rid (put_reader rid (r_set_offset off r) c);
    r ← of_option (readers c !! rid);
    let '(res, t) := t_Seek (Length (r_file r)) offset whence (r_Reader r) in
    let n := default 0 res in
    let r := r_set_lastAccess now (r_set_offset n (r_set_Reader t r)) in
    Done (inl res, emit (SetPlaybackPressure true (i64 (Offset (r_file r) + n))) (put_reader rid r c)).

(** [Read] and [ReadContext], once the client's read has delivered [n] bytes;
    [live] is whether the torrent and its info are still there. *)
Definition Read (rid : Z) (live : bool) (n now : Z) (c : Cache) : outcome (Z * Cache) :=
  r ← of_option (readers c !! rid);
  if r_isClosed r then Done (0, c)
  else if negb live then Done (0, c)
  else
    c ← readerOn rid c;
    r ← of_option (readers c !! rid);
    let t := mkTReader (i64 (pos (r_Reader r) + n)) (t_readahead (r_Reader r)) (t_closed (r_Reader r)) in
    let r := r_set_lastAccess now (r_set_offset (i64 (r_offset r + n)) (r_set_Reader t r)) in
    Done (n, emit (SetPlaybackPressure true (i64 (Offset (r_file r) + r_offset r))) (put_reader rid r c)).

Definition getUseReaders (c : Cache) : Z := activeReaders c.

(** [Reader.Close]; [files] is the number of files of its torrent.  The goroutine
    it starts ([getRemPieces]) is a step of its own. *)
Definition r_Close (rid files : Z) (c : Cache) : outcome Cache :=
  r ← of_option (readers c !! rid);
  if r_isClosed r then Done c
  else
    c ← readerOff rid (put_reader rid (r_set_isClosed true r) c);
    let c := if getUseReaders c <=? 0 then emit (SetPlaybackPressure false (-1)) c else c in
    r ← of_option (readers c !! rid);
    if 0 <? files
    then Done (put_reader rid (r_set_Reader
                 (mkTReader (pos (r_Reader r)) (t_readahead (r_Reader r)) true) r) c)
    else Done c.

Definition getPieceNum (r : Reader) (offset : Z) (c : Cache) : Z :=
  Z.quot (i64 (offset + Offset (r_file r))) (pieceLength c).

(** One side of the protected window:
    [int64(float64(capacity/readers) * 0.85 * float64(pct) / 100.0)]. *)
Definition window (capacity readers pct : Z) : Z :=
  to_int64 (fdiv (fmul (fmul (of_int (Z.quot capacity readers)) f_0_85) (of_int pct)) f_100).

Definition getOffsetRange (sets : BTSets) (r : Reader) (c : Cache) : Z * Z :=
  let prc := ReaderReadAHead sets in
  let readers := if getUseReaders c =? 0 then 1 else getUseReaders c in
  let beginOffset := i64 (r_offset r - window (capacity c) readers (100 - prc)) in
  let endOffset := i64 (r_offset r + window (capacity c) readers prc) in
  let beginOffset := if beginOffset <? 0 then 0 else beginOffset in
  let endOffset := if Length (r_file r) <? endOffset then Length (r_file r) else endOffset in
  (beginOffset, endOffset).

Definition getPiecesRange (sets : BTSets) (r : Reader) (c : Cache) : Range :=
  let '(startOff, endOff) := getOffsetRange sets r c in
  mkRange (getPieceNum r startOff c) (getPieceNum r endOff c) (r_file r).

Definition getReaderPiece (r : Reader) (c : Cache) : Z := getPieceNum r (r_offset r) c.
Definition getReaderRAHPiece (r : Reader) (c : Cache) : Z :=
  getPieceNum r (i64 (r_offset r + r_readahead r)) c.

Definition Readers (c : Cache) : Z := readers_len c.

Definition CloseReader (rid files : Z) (c : Cache) : outcome Cache :=
  if negb (readersOpen c) || isClosed c then Done c
  else
    c ← r_Close rid files c;
    Done (set_registered (filter (λ x, x ≠ rid) (registered c)) c).

(** [AdjustRA]: one [SetReadahead] per registered reader. *)
Definition AdjustRA (sets : BTSets) (readahead : Z) (c : Cache) : Cache :=
  let c := if CacheSize sets =? 0 then set_capacity (i64 (readahead * 3)) c else c in
  if 0 <? Readers c then
    let perReader := perReaderReadahead readahead (activeReaders c) in
    foldl (λ c rid, upd_reader rid (SetReadahead perReader) c) c (registered c)
  else c.

(** ** The protected window *)


Definition v85 : Q := val 7656119366529843 (-53).
Definition v100 : Q := val 7036874417766400 (-46).

Lemma inject_Z_nonneg z : 0 <= z → (0 <= inject_Z z)%Q.
Proof. intros. by rewrite <- (Zle_Qle 0). Qed.

(** Scaling by a factor below one keeps the bound of a product of integers. *)
Lemma scaled_lt k a p :
  (0 <= k <= 1)%Q → 0 <= a <= two63 → 0 <= p <= 100 →
  (0 <= k * (inject_Z a * inject_Z p) <= 922337203685477580800)%Q.
Proof.
  intros Hk [Ha0 Ha1] [Hp0 Hp1].
  assert (H : (0 <= inject_Z a * inject_Z p <= 922337203685477580800)%Q).
  { rewrite <- inject_Z_mult. split; [by apply inject_Z_nonneg, Z.mul_nonneg_nonneg|].
    change 922337203685477580800%Q with (inject_Z (two63 * 100)). rewrite <- Zle_Qle.
    apply Z.mul_le_mono_nonneg; unfold two63 in *; lia. }
  split; [apply Qmult_le_0_compat; lra|].
  pose proof (Qmult_le_compat_nonneg k 1 _ _ Hk H). lra.
Qed.

(** The product before the division by 100. *)
Lemma window_product a pct :
  0 <= a < two63 → 0 <= pct <= 100 →
  fle (-157) (fmul (fmul (of_int a) f_0_85) (of_int pct))
    (rnd * rnd * rnd * rnd * v85 * (inject_Z a * inject_Z pct)).
Proof.
  intros Ha Hp.
  assert (H1 : fle (-52) (of_int a) (rnd * inject_Z a)).
  { apply of_int_le. split; [lia|]. eapply Z.lt_trans; [apply Ha|]. by vm_compute. }
  assert (H2 : fle (-52) (of_int pct) (rnd * inject_Z pct)).
  { apply of_int_le. split; [lia|]. eapply Z.le_lt_trans; [apply Hp|]. by vm_compute. }
  assert (H85 : fle (-53) f_0_85 v85).
  { right. do 2 eexists. split_and!; [done|lia|]. apply Qle_refl. }
  assert (H900 : (922337203685477580800 < pow2 900)%Q) by (by vm_compute).
  assert (Hn : ∀ z, 0 <= z → (0 <= rnd * inject_Z z)%Q).
  { intros. apply Qmult_le_0_compat; [apply rnd_pos|by apply inject_Z_nonneg]. }
  pose proof (scaled_lt (rnd * v85) a 1 ltac:(by vm_compute) ltac:(lia) ltac:(lia)) as Hs1.
  pose proof (scaled_lt (rnd * rnd * v85 * rnd) a pct ltac:(by vm_compute) ltac:(lia) Hp) as Hs2.
  assert (H3 : fle (-105) (fmul (of_int a) f_0_85) (rnd * (rnd * inject_Z a * v85))).
  { apply (fmul_le (-52) (-53)); [done|done|lia| |apply Hn; lia|by vm_compute].
    assert (rnd * inject_Z a * v85 == rnd * v85 * (inject_Z a * inject_Z 1))%Q as -> by (change (inject_Z 1) with 1%Q; ring).
    lra. }
  eapply fle_mono; [| |apply (fmul_le (-105) (-52)); [apply H3|apply H2|lia|..]]; [lia|..].
  - apply Qle_lteq. right. ring.
  - assert (rnd * (rnd * inject_Z a * v85) * (rnd * inject_Z pct) ==
            rnd * rnd * v85 * rnd * (inject_Z a * inject_Z pct))%Q as -> by ring. lra.
  - apply Qmult_le_0_compat; [apply rnd_pos|]. apply Qmult_le_0_compat; [apply Hn; lia|by vm_compute].
  - apply Hn; lia.
Qed.

(** One side of the window is at most 86 per cent (85 per cent and the rounding of
    five float operations) of its share of the per-reader capacity. *)
Lemma window_bound capacity readers pct :
  0 <= Z.quot capacity readers < two63 → 0 <= pct <= 100 →
  0 <= window capacity readers pct ∧
  10000 * window capacity readers pct <= 86 * (Z.quot capacity readers * pct).
Proof.
  intros Ha Hp. unfold window. set (a := Z.quot capacity readers) in *.
  pose proof (scaled_lt (rnd * rnd * rnd * rnd * v85) a pct ltac:(by vm_compute) ltac:(lia) Hp) as Hs.
  pose proof (scaled_lt 1 a pct ltac:(by vm_compute) ltac:(lia) Hp) as Hs1.
  assert (H700 : (922337203685477580800 < pow2 700)%Q) by (by vm_compute).
  pose proof (fdiv_le (-157) _ _ 7036874417766400 (-46) (window_product a pct Ha Hp)
    (proj1 Hs) ltac:(lia) ltac:(lia) eq_refl ltac:(lra)) as H5. fold f_100 v100 in H5.
  assert (Hk : (rnd * rnd * rnd * rnd * rnd * v85 / v100 <= 86 # 10000)%Q) by (by vm_compute).
  assert (Hfin : (rnd * (rnd * rnd * rnd * rnd * v85 * (inject_Z a * inject_Z pct) / v100)
                  <= (86 # 10000) * (inject_Z a * inject_Z pct))%Q).
  { assert (rnd * (rnd * rnd * rnd * rnd * v85 * (inject_Z a * inject_Z pct) / v100) ==
      rnd * rnd * rnd * rnd * rnd * v85 / v100 * (inject_Z a * inject_Z pct))%Q as -> by (unfold Qdiv; ring).
    apply Qmult_le_compat_r; [done|lra]. }
  destruct (to_int64_le _ _ _ H5) as [Hr Hle].
  { change (inject_Z two63) with (9223372036854775808 # 1)%Q. lra. }
  split; [done|]. rewrite Zle_Qle, !inject_Z_mult.
  change (inject_Z 10000) with 10000%Q. change (inject_Z 86) with 86%Q. lra.
Qed.

Lemma getOffsetRange_bounds sets r c :
  0 <= ReaderReadAHead sets <= 100 → 0 <= capacity c < 2 ^ 61 → 0 <= activeReaders c →
  0 <= r_offset r <= Length (r_file r) → Length (r_file r) < 2 ^ 61 →
  let n := Z.max 1 (activeReaders c) in
  let '(b, e) := getOffsetRange sets r c in
  0 <= b <= r_offset r ∧ r_offset r <= e <= Length (r_file r) ∧
  100 * (n * (e - b)) <= 86 * capacity c.
Proof.
  intros Hprc Hcap Hact Hoff Hlen. cbn zeta. unfold getOffsetRange, getUseReaders.
  set (n := if activeReaders c =? 0 then 1 else activeReaders c).
  assert (Hn : n = Z.max 1 (activeReaders c)) by (unfold n; split_if; lia). rewrite <- Hn.
  assert (Hq : 0 <= Z.quot (capacity c) n ∧ n * Z.quot (capacity c) n <= capacity c).
  { rewrite Z.quot_div_nonneg by lia. split; [apply Z.div_pos; lia|apply Z.mul_div_le; lia]. }
  set (a := Z.quot (capacity c) n) in *. assert (a <= capacity c) by nia.
  assert (Ha : 0 <= a < two63) by (unfold two63; lia).
  destruct (window_bound (capacity c) n (100 - ReaderReadAHead sets) Ha ltac:(lia)) as [Hw0 Hw1].
  destruct (window_bound (capacity c) n (ReaderReadAHead sets) Ha ltac:(lia)) as [Hv0 Hv1].
  fold a in Hw1, Hv1. set (w := window _ _ (100 - _)) in *. set (v := window _ _ (ReaderReadAHead _)) in *.
  set (prc := ReaderReadAHead sets) in *.
  assert (Hs : 100 * (w + v) <= 86 * a) by nia.
  rewrite !i64_id by (unfold in_i64, two63; nia).
  assert (Hns : 100 * (n * (w + v)) <= 86 * capacity c) by nia.
  assert (Hb : (if r_offset r - w <? 0 then 0 else r_offset r - w) = Z.max 0 (r_offset r - w))
    by (split_if; lia).
  assert (He : (if Length (r_file r) <? r_offset r + v then Length (r_file r) else r_offset r + v)
    = Z.min (Length (r_file r)) (r_offset r + v)) by (split_if; lia).
  rewrite Hb, He. split_and!; try lia.
  eapply Z.le_trans; [|apply Hns]. apply Z.mul_le_mono_nonneg_l; [lia|].
  apply Z.mul_le_mono_nonneg_l; lia.
Qed.

Lemma getPiecesRange_contains sets r c :
  0 < pieceLength c → 0 <= ReaderReadAHead sets <= 100 → 0 <= capacity c < 2 ^ 61 →
  0 <= activeReaders c → 0 <= r_offset r <= Length (r_file r) → Length (r_file r) < 2 ^ 61 →
  0 <= Offset (r_file r) < 2 ^ 61 →
  let rng := getPiecesRange sets r c in
  0 <= Start rng <= getReaderPiece r c ∧ getReaderPiece r c <= End rng.
Proof.
  intros Hpl Hprc Hcap Hact Hoff Hlen Hf. cbn zeta. unfold getPiecesRange.
  pose proof (getOffsetRange_bounds sets r c Hprc Hcap Hact Hoff Hlen) as H. cbn zeta in H.
  destruct (getOffsetRange sets r c) as [b e]. destruct H as (Hb&He&_). simpl.
  unfold getReaderPiece, getPieceNum.
  rewrite !i64_id by (unfold in_i64, two63; lia). rewrite !Z.quot_div_nonneg by lia.
  split_and!; [apply Z.div_pos|apply Z.div_le_mono|apply Z.div_le_mono]; lia.
Qed.

(** ** Properties of the component *)

Definition demo_file : File := mkFile 1000000 4000000000.
Definition demo_reader : Reader :=
  mkReader (mkTReader 50000000 (Some 16777216) false) 50000000 16777216 demo_file false 0 true true.
Definition demo_sets : BTSets := mkBTSets 67108864 95 25 true false true.
Definition demo_cache : Cache :=
  mkCache 67108864 0 4194304 1000 ∅ true (<[1 := demo_reader]> ∅) [1] true 1 false false false 0
    0 true false ∅ (replicate 1000 false) (replicate 1000 false) [] 4 ∅ [].

(** C36: the window a reader protects lies inside its file, contains the reader's
    position, and the windows of all active readers together cover at most 86 per
    cent of the cache (85 per cent and the rounding of the float arithmetic), so
    that some cached piece can always be evicted. *)
Theorem getOffsetRange_protects (sets : BTSets) (r : Reader) (c : Cache) :
  0 <= ReaderReadAHead sets <= 100 → 0 <= capacity c < 2 ^ 61 → 0 <= activeReaders c →
  0 <= r_offset r <= Length (r_file r) → Length (r_file r) < 2 ^ 61 →
  let '(b, e) := getOffsetRange sets r c in
  0 <= b <= r_offset r ∧ r_offset r <= e <= Length (r_file r) ∧
  100 * (Z.max 1 (activeReaders c) * (e - b)) <= 86 * capacity c.
Proof. apply getOffsetRange_bounds. Qed.

Lemma getOffsetRange_protects_witness :
  let '(b, e) := getOffsetRange demo_sets demo_reader demo_cache in
  (0 <= b <= 50000000 ∧ 50000000 <= e <= 4000000000 ∧ 100 * (1 * (e - b)) <= 86 * 67108864)
  ∧ b = 47147874 ∧ e = 104190407.
Proof.
  pose proof (getOffsetRange_protects demo_sets demo_reader demo_cache) as H.
  specialize (H ltac:(cbn; lia) ltac:(cbn; lia) ltac:(cbn; lia) ltac:(cbn; lia) ltac:(cbn; lia)).
  destruct (getOffsetRange demo_sets demo_reader demo_cache) as [b e] eqn:E.
  split; [exact H|]. vm_compute in E. by simplify_eq.
Defined.

(** Switching a reader off and on again puts the client's reader back to the
    reader's offset, but its readahead is not restored: [readerOff] clears the
    saved value and [readerOn] forwards it only to a reader already in use. *)
Theorem reader_off_on (r : Reader) :
  r_isUse r = true → r_cache r = true → pos (r_Reader r) = r_offset r →
  0 <= r_offset r < two63 →
  let r' := turn_on (turn_off r) in
  pos (r_Reader r') = r_offset r ∧ r_offset r' = r_offset r ∧ r_isUse r' = true ∧
  r_readahead r' = 0 ∧ t_readahead (r_Reader r') = Some 0.
Proof.
  destruct r as [[p ra cl] off rah f clo la use ca]. simpl. intros -> -> -> Hoff.
  unfold turn_off, SetReadahead. simpl. destruct (0 <? off) eqn:E; reflect_bools.
  - unfold turn_on, r_seek, t_Seek, SetReadahead. simpl.
    rewrite i64_id by (unfold in_i64, two63 in *; lia). done.
  - assert (off = 0) as -> by lia. done.
Qed.

Lemma reader_off_on_witness :
  let r' := turn_on (turn_off demo_reader) in
  pos (r_Reader r') = 50000000 ∧ r_readahead demo_reader = 16777216 ∧ r_readahead r' = 0.
Proof.
  destruct (reader_off_on demo_reader) as (H1&_&_&H2&_); try done.
Defined.

(** A new reader is in use, registered and counted, but its initial readahead of
    16 MiB is never applied: [SetReadahead] runs before the cache field is set and
    returns at once, so the reader starts with readahead 0 and the client's reader
    keeps its default readahead function. *)
Theorem newReader_state (rid : Z) (file : File) (c : Cache) :
  readersOpen c = true →
  let c' := newReader rid file c in
  ∃ r, readers c' !! rid = Some r ∧ r_isUse r = true ∧ r_offset r = 0 ∧
    registered c' = registered c ++ [rid] ∧ activeReaders c' = activeReaders c + 1 ∧
    IsAggressive c' = true ∧ r_readahead r = 0 ∧ t_readahead (r_Reader r) = None.
Proof.
  intros Ho. unfold newReader, SetReadahead, SetAggressive. cbn. rewrite Ho. cbn.
  eexists. rewrite lookup_insert_eq. by split_and!.
Qed.

Lemma newReader_state_witness :
  ∃ r, readers (newReader 2 demo_file demo_cache) !! 2 = Some r ∧ r_readahead r = 0.
Proof.
  destruct (newReader_state 2 demo_file demo_cache eq_refl) as (r&Hr&_&_&_&_&_&Hra&_).
  by exists r.
Defined.
