(* ===== verification/Cache.v ===== *)
(** * The piece cache ([server/torr/storage/torrstor/cache.go])

    Initialisation from the torrent's metadata, the protected index pieces, the
    download priorities derived from the readers' windows, and eviction.  Time is
    an argument ([now], in seconds for access times and in nanoseconds for the
    cleaner's throttle); the order in which Go iterates over the map of pieces is
    the argument [order], and theorems hold for every order.  Background
    goroutines ([refreshPriorities], [clearPriority], [getRemPieces]) are
    operations of their own.  Log lines are left out. *)

From S2P Require Import Prelude GoFloat Ranges CacheState Reader.

(** What [Init] reads of [metainfo.Info]; [FileLengths] lists the lengths of
    [UpvertedFiles()]. *)
Record Info := mkInfo { PieceLength : Z; NumPieces : Z; FileLengths : list Z }.

Definition NewCache (capacity : Z) (disk : gmap Z (list Z)) : Cache :=
  mkCache capacity 0 0 0 ∅ true ∅ [] true 0 false false false 0 0 false false ∅ [] [] [] 0 disk [].

(** 8 MiB, or one piece when pieces are larger: what is kept at both ends of a file. *)
Definition fileRangeNotDelete (pieceLength : Z) : Z :=
  if pieceLength <? 8388608 then 8388608 else pieceLength.

(** [for p := ss; p <= se && p < c.pieceCount; p++ { c.isIndexPiece[p] = true }] *)
Definition mark_index (pieceCount ss se : Z) (dst : list bool) : outcome (list bool) :=
  mark_loop (Z.to_nat (Z.min se (pieceCount - 1) - ss + 1)) dst ss.

(** One file of the loop in [Init]. *)
Definition index_file (pl pieceCount fileStart fileLength : Z) (dst : list bool) : outcome (list bool) :=
  if fileLength <? 10485760 then Done dst
  else
    let fileEnd := fileStart + fileLength in
    let frnd := fileRangeNotDelete pl in
    let ss := Z.quot fileStart pl in
    let se := Z.quot (fileStart + frnd) pl in
    let se := if pieceCount <=? se then pieceCount - 1 else se in
    let es := Z.quot (fileEnd - frnd) pl in
    let es := if es <? 0 then 0 else es in
    let ee := Z.quot (fileEnd - 1) pl in
    let ee := if pieceCount <=? ee then pieceCount - 1 else ee in
    dst ← mark_index pieceCount ss se dst;
    mark_index pieceCount es ee dst.

Fixpoint index_files (pl pieceCount curOffset : Z) (files : list Z) (dst : list bool) : outcome (list bool) :=
  match files with
  | [] => Done dst
  | fl :: rest =>
      dst ← index_file pl pieceCount curOffset fl dst;
      index_files pl pieceCount (curOffset + fl) rest dst
  end.

(** The loop that creates the pieces [0 .. n-1]. *)
Fixpoint new_pieces (n : nat) : gmap Z Piece :=
  match n with
  | O => ∅
  | S n => <[Z.of_nat n := NewPiece (Z.of_nat n)]> (new_pieces n)
  end.

(** One iteration of [preloadIndexCache]: the bytes it adds. *)
Definition preload_piece (id now : Z) (c : Cache) : outcome (Z * Cache) :=
  if negb (default false (idx (isIndexPiece c) id)) then Done (0, c)
  else match indexDisk c !! id with
       | None | Some [] => Done (0, c)
       | Some data =>
           r ← WriteAt id data 0 now c;
           Done (len data, upd_piece id (λ p, p_set_Size (len data) (p_set_Complete true p)) r.2)
       end.

Fixpoint preload_loop (n : nat) (id now preloadedBytes : Z) (c : Cache) : outcome (Z * Cache) :=
  match n with
  | O => Done (preloadedBytes, c)
  | S n => r ← preload_piece id now c; preload_loop n (id + 1) now (preloadedBytes + r.1) r.2
  end.

Definition preloadIndexCache (sets : BTSets) (now : Z) (c : Cache) : outcome Cache :=
  if negb (PathSet sets) then Done c
  else r ← preload_loop (Z.to_nat (pieceCount c)) 0 now 0 c;
       Done (set_filled (filled r.2 + r.1) r.2).

Definition Init (sets : BTSets) (info : Info) (now : Z) (c : Cache) : outcome Cache :=
  let c := if capacity c =? 0 then set_capacity (i64 (PieceLength info * 4)) c else c in
  let c := set_pieceCount (NumPieces info) (set_pieceLength (PieceLength info) c) in
  if pieceLength c =? 0 then Panic
  else
    let fc := Z.quot (Z.quot (capacity c) 4) (pieceLength c) in
    let c := set_freeCap (if fc <? 2 then 2 else fc) c in
    let blank := replicate (Z.to_nat (pieceCount c)) false in
    index ← index_files (pieceLength c) (pieceCount c) 0 (FileLengths info) blank;
    let c := set_isIndexPiece index (set_pieceInRange blank c) in
    let c := set_pieces (new_pieces (Z.to_nat (pieceCount c))) c in
    preloadIndexCache sets now c.

(** [SetTorrent]: incomplete index pieces are queued with high priority. *)
Fixpoint index_batch (n : nat) (id : Z) (batch : gmap Z Z) (c : Cache) : outcome (gmap Z Z * Cache) :=
  match n with
  | O => Done (batch, c)
  | S n =>
      if is_index c id then
        p ← of_option (if piecesOpen c then pieces c !! id else None);
        if Complete p then index_batch n (id + 1) batch (emit (UpdateCompletion id) c)
        else index_batch n (id + 1) (<[id := PiecePriorityHigh]> batch) c
      else index_batch n (id + 1) batch c
  end.

Definition SetTorrent (torr : bool) (c : Cache) : outcome Cache :=
  let c := set_torrent torr c in
  if torr then
    r ← index_batch (Z.to_nat (pieceCount c)) 0 ∅ c;
    Done (if decide (r.1 = ∅) then r.2 else emit (SetPiecePriorities r.1) r.2)
  else Done c.

Definition Close (sets : BTSets) (c : Cache) : Cache :=
  if isClosed c then c
  else
    let c := set_isClosed true c in
    let c := if piecesOpen c
             then set_pieces ((λ p, mkPiece (Id p) 0 false (Accessed p) None) <$> pieces c) c else c in
    let c := set_readersOpen false (set_registered [] (set_free [] c)) in
    let c := set_piecesOpen false c in
    if RemoveCacheOnDrop sets && PathSet sets then set_indexDisk ∅ c else c.

(** ** Priorities *)

(** [for r := range c.readers { r.checkReader(); if r.isUse { ranges = append(..) } }] *)
Fixpoint collect_ranges (sets : BTSets) (now : Z) (rids : list Z) (c : Cache) : outcome (list Range * Cache) :=
  match rids with
  | [] => Done ([], c)
  | rid :: rest =>
      c ← checkReader now rid c;
      r ← of_option (readers c !! rid);
      let here := if r_isUse r then [getPiecesRange sets r c] else [] in
      t ← collect_ranges sets now rest c;
      Done (here ++ t.1, t.2)
  end.

Definition highPriorityWindow (c : Cache) : Z :=
  let w := Z.quot (Z.quot (capacity c) (pieceLength c)) 10 in
  if w <? 5 then 5 else w.

(** How many pieces one reader may have in flight. *)
Definition prefetch_count (sets : BTSets) (c : Cache) : Z :=
  let numReaders := if readers_len c =? 0 then 1 else readers_len c in
  let effectiveLimit := if 0 <? MasterLimit c then MasterLimit c else ConnectionsLimit sets in
  let count :=
    if IsAggressive c then
      let n := if capacity c <? filled c then 1 else to_int64 (fmul (of_int effectiveLimit) f_0_8) in
      if n <? 1 then 1 else n
    else Z.quot effectiveLimit numReaders in
  let count := pieceBudgetCount count (capacity c) (pieceLength c) in
  if count <? 1 then 1 else count.

(** The priority of an incomplete piece; 0 leaves the piece alone. *)
Definition piece_prio (readerPos readerRAHPos hpw i : Z) (cur : option Z) : Z :=
  if i =? readerPos then PiecePriorityNow
  else if i =? readerPos + 1 then PiecePriorityNext
  else if (readerPos <? i) && (i <=? readerRAHPos) then PiecePriorityReadahead
  else if (readerRAHPos <? i) && (i <=? readerRAHPos + hpw) then
    (if default 0 cur =? PiecePriorityHigh then 0 else PiecePriorityHigh)
  else if readerRAHPos + hpw <? i then
    (if default 0 cur =? PiecePriorityNormal then 0 else PiecePriorityNormal)
  else 0.

Fixpoint prio_loop (fuel : nat) (i readerPos readerRAHPos end_ hpw count limit : Z)
    (batch : gmap Z Z) (c : Cache) : outcome (gmap Z Z * Cache) :=
  if (i <? end_) && (i <? pieceCount c) && (limit <? count) then
    match fuel with
    | O => NoFuel
    | S fuel =>
        p ← of_option (if piecesOpen c then pieces c !! i else None);
        if Complete p then prio_loop fuel (i + 1) readerPos readerRAHPos end_ hpw count limit batch c
        else
          let prio := piece_prio readerPos readerRAHPos hpw i (localPriority c !! i) in
          if prio =? 0 then
            prio_loop fuel (i + 1) readerPos readerRAHPos end_ hpw count (limit + 1) batch c
          else
            prio_loop fuel (i + 1) readerPos readerRAHPos end_ hpw count (limit + 1)
              (<[i := prio]> batch) (set_localPriority (<[i := prio]> (localPriority c)) c)
    end
  else Done (batch, c).

Definition reader_priority (sets : BTSets) (rid : Z) (c : Cache) : outcome Cache :=
  r ← of_option (readers c !! rid);
  if negb (r_isUse r) then Done c
  else
    let readerPos := getReaderPiece r c in
    let end_ := End (getPiecesRange sets r c) in
    res ← prio_loop (Z.to_nat (end_ - readerPos)) readerPos readerPos (getReaderRAHPiece r c) end_
            (highPriorityWindow c) (prefetch_count sets c) 0 ∅ c
    ; Done (if decide (res.1 = ∅) then res.2 else emit (SetPiecePriorities res.1) res.2).

Fixpoint set_priorities (sets : BTSets) (rids : list Z) (c : Cache) : outcome Cache :=
  match rids with
  | [] => Done c
  | rid :: rest => c ← reader_priority sets rid c; set_priorities sets rest c
  end.

Definition setLoadPriority (sets : BTSets) (c : Cache) : outcome Cache :=
  if negb (torrent c) then Done c
  else if pieceLength c =? 0 then Panic
  else set_priorities sets (registered c) c.

(** The windows passed to [setLoadPriority] are not used by it, so computing them
    is left out here: [getPiecesRange] has no effect. *)
Definition refreshPriorities (sets : BTSets) (c : Cache) : outcome Cache :=
  if isClosed c then Done c
  else if negb (torrent c) || negb (piecesOpen c) || negb (readersOpen c) then Done c
  else setLoadPriority sets c.

Section Ordered.
Context `{!SliceSort range_less}.

(** The loop over [localPriority] in [clearPriority]. *)
Fixpoint clear_loop (ranges : list Range) (ids : list Z) (c : Cache) : outcome Cache :=
  match ids with
  | [] => Done c
  | id :: rest =>
      if (len ranges =? 0) || negb (inRanges ranges id) then
        if is_index c id then
          p ← of_option (if piecesOpen c then pieces c !! id else None);
          if negb (Complete p) then clear_loop ranges rest c
          else clear_loop ranges rest
                 (set_localPriority (delete id (localPriority c)) (emit (SetPriority id PiecePriorityNone) c))
        else clear_loop ranges rest
               (set_localPriority (delete id (localPriority c)) (emit (SetPriority id PiecePriorityNone) c))
      else clear_loop ranges rest c
  end.

Definition clearPriority (sets : BTSets) (now : Z) (c : Cache) : outcome Cache :=
  if isClosed c || negb (torrent c) || negb (piecesOpen c) || negb (readersOpen c) then Done c
  else
    r ← collect_ranges sets now (registered c) c;
    clear_loop (mergeRange r.1) (map_to_list (localPriority r.2)).*1 r.2.

(** ** Eviction *)

Definition isIdInFileBE (ranges : list Range) (id : Z) (c : Cache) : bool :=
  is_index c id ||
  let frnd := fileRangeNotDelete (pieceLength c) in
  existsb (λ rng,
    let off := Offset (RFile rng) in
    let ss := Z.quot off (pieceLength c) in
    let se := Z.quot (i64 (off + frnd)) (pieceLength c) in
    let es := Z.quot (i64 (off + Length (RFile rng) - frnd)) (pieceLength c) in
    let ee := Z.quot (i64 (off + Length (RFile rng))) (pieceLength c) in
    ((ss <=? id) && (id <? se)) || ((es <? id) && (id <=? ee))) ranges.

(** Whether the scan of [getRemPieces] puts the piece on the list. *)
Definition evictable (ranges : list Range) (bitmap : list bool) (c : Cache) (id : Z) (p : Piece) : bool :=
  let inRange := (id <? len bitmap) && default false (idx bitmap id) in
  pieceEvictable (Size p) (Complete p) inRange && negb (isIdInFileBE ranges id c).

(** The scan over the pieces: the evictable ones and the bytes held. *)
Fixpoint scan_pieces (ranges : list Range) (order : list Z) (c : Cache) : outcome (list Piece * Z) :=
  match order with
  | [] => Done ([], 0)
  | id :: rest =>
      p ← of_option (pieces c !! id);
      t ← scan_pieces ranges rest c;
      Done (if evictable ranges (pieceInRange c) c id p then p :: t.1 else t.1,
            (if 0 <? Size p then Size p else 0) + t.2)
  end.

Definition accessed_less (a b : Piece) : bool := Accessed a <? Accessed b.

Context `{!SliceSort accessed_less}.

(** [getRemPieces], past its early return. *)
Definition rem_pieces_open (sets : BTSets) (now : Z) (order : list Z) (c : Cache) : outcome (list Piece * Cache) :=
  r ← collect_ranges sets now (registered c) c;
  let ranges := mergeRange r.1 in
  let c := r.2 in
  bm ← fillPieceInRange (pieceInRange c) ranges (pieceCount c);
  let c := set_pieceInRange bm c in
  s ← scan_pieces ranges order c;
  c ← clearPriority sets now c;
  c ← setLoadPriority sets c;
  Done (sort_slice accessed_less s.1, set_filled s.2 c).

Definition getRemPieces (sets : BTSets) (now : Z) (order : list Z) (c : Cache) : outcome (list Piece * Cache) :=
  if isClosed c || negb (piecesOpen c) || negb (readersOpen c) then Done ([], c)
  else rem_pieces_open sets now order c.

Definition removePiece (p : Piece) (c : Cache) : outcome Cache :=
  if isClosed c then Done c else Release (Id p) c.

(** The eviction loop: [rems] counts down, the loop stops at zero. *)
Fixpoint evict (l : list Piece) (rems : Z) (c : Cache) : outcome Cache :=
  match l with
  | [] => Done c
  | p :: rest =>
      c ← removePiece p c;
      if rems - 1 <=? 0 then Done c else evict rest (rems - 1) c
  end.

(** [cleanPieces]; [unlocked] is the outcome of [muRemove.TryLock()]. *)
Definition cleanPieces (sets : BTSets) (now nowNS : Z) (unlocked : bool) (order : list Z) (c : Cache) : outcome Cache :=
  if isRemove c || isClosed c then Done c
  else
    c ← refreshPriorities sets c;
    if (nowNS - lastCleanNS c <? 1000000000) && (filled c <? Z.quot (i64 (capacity c * 9)) 10) then Done c
    else if negb unlocked then Done c
    else
      let c := set_lastCleanNS nowNS (set_isRemove true c) in
      r ← getRemPieces sets now order c;
      let c := r.2 in
      c ← (if capacity c <? filled c
           then evict r.1 (Z.quot (filled c - capacity c) (pieceLength c) + 1) c
           else Done c);
      Done (set_isRemove false c).
End Ordered.

(** ** The state reported to the user interface *)

Record ItemState := mkItemState { it_Id : Z; it_Size : Z; it_Length : Z; it_Completed : bool; it_Priority : Z }.
Record ReaderState := mkReaderState { rs_Start : Z; rs_End : Z; rs_Reader : Z }.
Record CacheState := mkCacheState {
  cs_Capacity : Z; cs_Filled : Z; cs_PiecesLength : Z; cs_PiecesCount : Z;
  cs_Pieces : gmap Z ItemState; cs_Readers : list ReaderState }.

Definition item_state (prio : Z → Z) (c : Cache) (p : Piece) : option ItemState :=
  if 0 <? Size p
  then Some (mkItemState (Id p) (Size p) (pieceLength c) (Complete p) (if torrent c then prio (Id p) else 0))
  else None.

(** [GetState]; [prio] is the client's [PieceState(id).Priority]. *)
Definition GetState (sets : BTSets) (prio : Z → Z) (c : Cache) : CacheState * Cache :=
  let items := if piecesOpen c then omap (item_state prio c) (pieces c) else ∅ in
  let fill := map_fold (λ _ it acc, it_Size it + acc) 0 items in
  let rds := if 0 <? Readers c
    then omap (λ rid, (λ r, let rng := getPiecesRange sets r c in
                mkReaderState (Start rng) (End rng) (getReaderPiece r c)) <$> (readers c !! rid)) (registered c)
    else [] in
  (mkCacheState (capacity c) fill (pieceLength c) (pieceCount c) items rds, set_filled fill c).

Definition GetUseReaders (c : Cache) : Z := activeReaders c.
Definition GetCapacity (c : Cache) : Z := capacity c.
