(* ===== verification/CacheInv.v ===== *)
(** * The invariant of the piece cache

    Every operation of the cache, its pieces and its readers is a step of a
    transition system; what the components rely on is proved invariant over all
    sequences of steps, so for every interleaving of the operations the locks of
    the program allow.

    [MemInv] is about memory: buffers and spare buffers have exactly the piece
    length, the spare list is bounded, sizes stay within a piece, and a closed
    cache holds nothing.  [UseInv] is about readers: the counter of active readers
    is the number of readers in use. *)

From S2P Require Import Prelude GoFloat Ranges CacheState Reader Cache.

Definition piece_ok (pl id : Z) (p : Piece) : Prop :=
  Id p = id ∧ 0 <= Size p <= pl ∧
  match buffer p with Some b => len b = pl | None => Size p = 0 end.

Record MemInv (c : Cache) : Prop := {
  mi_pl : 0 < pieceLength c;
  mi_pieces : map_Forall (piece_ok (pieceLength c)) (pieces c);
  mi_dom : ∀ id, is_Some (pieces c !! id) ↔ 0 <= id < pieceCount c;
  mi_free : Forall (λ b, len b = pieceLength c) (free c);
  mi_freeCap : len (free c) <= freeCap c;
  mi_index : len (isIndexPiece c) = Z.max 0 (pieceCount c);
  mi_range : len (pieceInRange c) = Z.max 0 (pieceCount c);
  mi_disk : map_Forall (λ _ d, len d <= pieceLength c) (indexDisk c);
  mi_open : piecesOpen c = negb (isClosed c);
  mi_closed : isClosed c = true → free c = [];
}.

Definition use_weight (r : Reader) : Z := if r_isUse r then 1 else 0.

Record UseInv (c : Cache) : Prop := {
  ui_active : activeReaders c = map_sum use_weight (readers c);
  ui_open : readersOpen c = negb (isClosed c);
  ui_reg : ∀ rid, rid ∈ registered c → is_Some (readers c !! rid);
  ui_nil : readersOpen c = false → registered c = [];
}.

Record Inv (c : Cache) : Prop := { inv_mem : MemInv c; inv_use : UseInv c }.

(** What each half of the invariant depends on: operations that leave a view
    unchanged preserve the corresponding half. *)
Definition mem_view (c : Cache) :=
  (pieceLength c, pieceCount c, pieces c, free c, freeCap c, isIndexPiece c,
   pieceInRange c, indexDisk c, piecesOpen c, isClosed c).
Definition use_view (c : Cache) :=
  (activeReaders c, readers c, readersOpen c, registered c, isClosed c).

Lemma MemInv_view c c' : mem_view c' = mem_view c → MemInv c → MemInv c'.
Proof.
  unfold mem_view. intros [= E1 E2 E3 E4 E5 E6 E7 E8 E9 E10] [].
  constructor; rewrite ?E1, ?E2, ?E3, ?E4, ?E5, ?E6, ?E7, ?E8, ?E9, ?E10; done.
Qed.

Lemma UseInv_view c c' : use_view c' = use_view c → UseInv c → UseInv c'.
Proof.
  unfold use_view. intros [= E1 E2 E3 E4 E5] [].
  constructor; rewrite ?E1, ?E2, ?E3, ?E4, ?E5; done.
Qed.

(** Closes a goal about a state that differs from one satisfying the invariant
    only in fields the view leaves out. *)
Ltac view_frame :=
  match goal with
  | H : MemInv ?c |- MemInv _ => refine (MemInv_view c _ _ H); reflexivity
  | H : UseInv ?c |- UseInv _ => refine (UseInv_view c _ _ H); reflexivity
  end.

(** ** Memory *)

Lemma getBuffer_MemInv c b c' :
  MemInv c → getBuffer c = (b, c') →
  MemInv c' ∧ (∀ x, b = Some x → len x = pieceLength c) ∧ pieceLength c' = pieceLength c ∧
  pieces c' = pieces c ∧ use_view c' = use_view c.
Proof.
  intros H. unfold getBuffer. destruct (len (free c) =? 0) eqn:E; intros [= <- <-].
  { split_and!; done || (intros; simplify_eq). }
  destruct H. split_and!; try done.
  - constructor; simpl; auto.
    + by apply Forall_take.
    + unfold len in *. rewrite length_take. lia.
    + intros Hc. rewrite mi_closed0 by done. done.
  - intros x Hx. apply last_Some_elem_of in Hx. rewrite Forall_forall in mi_free0. auto.
Qed.

Lemma putBuffer_MemInv b c : MemInv c → MemInv (putBuffer b c) ∧ use_view (putBuffer b c) = use_view c.
Proof.
  intros H. unfold putBuffer. destruct (_ || _) eqn:E; [done|].
  destruct (freeCap c <=? len (free c)) eqn:E2; [done|]. split; [|done]. reflect_bools.
  destruct H. constructor; simpl; auto.
  - apply Forall_app. auto.
  - rewrite len_app, len_cons, len_nil. lia.
  - congruence.
Qed.

Lemma alloc_buffer_MemInv p c buf c' :
  MemInv c → piece_ok (pieceLength c) (Id p) p → alloc_buffer p c = (buf, c') →
  MemInv c' ∧ len buf = pieceLength c' ∧ pieceLength c' = pieceLength c ∧ pieces c' = pieces c ∧
  use_view c' = use_view c.
Proof.
  intros H (_&_&Hb). unfold alloc_buffer. destruct (buffer p) as [b|].
  { intros [= <- <-]. done. }
  assert (H' : MemInv (trigger c)) by view_frame.
  destruct (getBuffer (trigger c)) as [o c2] eqn:E.
  destruct (getBuffer_MemInv _ _ _ H' E) as (Hm&Ho&Hpl&Hp&Hu).
  destruct o as [b|]; intros [= <- <-]; split_and!; auto.
  - rewrite Hpl. by apply Ho.
  - unfold len. rewrite length_replicate. destruct Hm. lia.
Qed.

(** Writing one piece back keeps the invariant when the piece is well formed. *)
Lemma MemInv_insert c id p :
  MemInv c → piece_ok (pieceLength c) id p → is_Some (pieces c !! id) →
  MemInv (set_pieces (<[id := p]> (pieces c)) c).
Proof.
  intros [] Hp Hs. constructor; simpl; auto.
  - by apply map_Forall_insert_2.
  - intros i. rewrite <- mi_dom0. destruct (decide (i = id)) as [->|].
    + rewrite lookup_insert_eq. naive_solver.
    + by rewrite lookup_insert_ne.
Qed.

Lemma MemInv_alter c id f :
  MemInv c → (∀ p, pieces c !! id = Some p → piece_ok (pieceLength c) id (f p)) →
  MemInv (upd_piece id f c).
Proof.
  intros H Hf. unfold upd_piece. destruct (pieces c !! id) as [p|] eqn:E.
  - assert (alter f id (pieces c) = <[id := f p]> (pieces c)) as ->.
    { apply map_eq. intros i. destruct (decide (i = id)) as [->|].
      - by rewrite lookup_alter_eq, lookup_insert_eq, E.
      - by rewrite lookup_alter_ne, lookup_insert_ne. }
    apply MemInv_insert; auto; by eexists.
  - rewrite alter_id by (intros; congruence). view_frame.
Qed.

Lemma MemInv_lookup c id p : MemInv c → pieces c !! id = Some p → piece_ok (pieceLength c) id p.
Proof. intros [] Hp. by apply (mi_pieces0 id p). Qed.

Lemma WriteAt_len (buf : list Z) off b tail tail' n :
  slice_from buf off = Some tail → copy_go tail b = (tail', n) →
  len (take (Z.to_nat off) buf ++ tail') = len buf ∧ 0 <= n.
Proof.
  intros Hs Hc. pose proof (slice_len _ _ _ _ Hs) as Hl. pose proof (slice_bounds _ _ _ _ Hs) as Hb.
  pose proof (copy_go_length tail b) as Hcl. pose proof (copy_go_count tail b) as Hcc.
  rewrite Hc in Hcl, Hcc. simpl in Hcl, Hcc.
  rewrite len_app. unfold len in *. rewrite length_take. lia.
Qed.

Lemma WriteAt_inv id b off now c n c' :
  WriteAt id b off now c = Done (n, c') →
  ∃ p buf c1 tail, pieces c !! id = Some p ∧ alloc_buffer p c = (buf, c1) ∧
    slice_from buf off = Some tail ∧ n = (copy_go tail b).2 ∧
    c' = set_pieces (<[id := mkPiece (Id p) (Z.min (pieceLength c1) (Size p + n)) (Complete p) now
           (Some (take (Z.to_nat off) buf ++ (copy_go tail b).1))]> (pieces c1)) c1.
Proof.
  unfold WriteAt. intros Hw. apply bind_Done in Hw as (p&Hp&Hw). apply of_option_Done in Hp.
  destruct (alloc_buffer p c) as [buf c1] eqn:Ea.
  apply bind_Done in Hw as (tail&Ht&Hw). apply of_option_Done in Ht.
  destruct (copy_go tail b) as [tail' k] eqn:Ec. injection Hw as <- <-.
  exists p, buf, c1, tail. rewrite Ec. split_and!; [done..|]. simpl. do 4 f_equal.
  split_if; lia.
Qed.

Lemma WriteAt_MemInv id b off now c n c' :
  MemInv c → WriteAt id b off now c = Done (n, c') →
  MemInv c' ∧ use_view c' = use_view c ∧ pieceLength c' = pieceLength c ∧
  (∃ p, pieces c' !! id = Some p ∧ is_Some (buffer p)).
Proof.
  intros H Hw. apply WriteAt_inv in Hw as (p&buf&c1&tail&Hp&Ha&Ht&->&->).
  pose proof (MemInv_lookup _ _ _ H Hp) as Hpo. pose proof Hpo as (Hid&Hsz&_).
  destruct (alloc_buffer_MemInv p c buf c1 H) as (HM&HL&HP&HPS&HU); [by rewrite Hid|done|].
  destruct (WriteAt_len buf off b tail (copy_go tail b).1 (copy_go tail b).2 Ht) as [Hlen Hk].
  { by destruct (copy_go tail b). }
  split_and!; [|done|done|].
  - apply MemInv_insert; [done| |rewrite HPS; by eexists].
    pose proof (mi_pl _ H). split_and!; simpl; [done|lia|lia|rewrite <- HL; exact Hlen].
  - eexists. simpl. rewrite lookup_insert_eq. by split; [|eexists].
Qed.

Lemma WriteAt_static id b off now c n c' :
  WriteAt id b off now c = Done (n, c') →
  pieceCount c' = pieceCount c ∧ isIndexPiece c' = isIndexPiece c.
Proof.
  intros Hw. apply WriteAt_inv in Hw as (p&buf&c1&tail&_&Ha&_&_&->). simpl.
  unfold alloc_buffer, getBuffer in Ha. simpl in Ha. repeat case_match; by simplify_eq/=.
Qed.

(** A write inside the piece returns. *)
Lemma WriteAt_total id b off now c :
  MemInv c → 0 <= id < pieceCount c → 0 <= off <= pieceLength c →
  ∃ n c', WriteAt id b off now c = Done (n, c').
Proof.
  intros H Hid Hoff. destruct (proj2 (mi_dom _ H id) Hid) as [p Hp]. unfold WriteAt. rewrite Hp. simpl mbind.
  destruct (alloc_buffer p c) as [buf c1] eqn:Ea. pose proof (MemInv_lookup _ _ _ H Hp) as Hpo.
  destruct (alloc_buffer_MemInv p c buf c1 H) as (_&HL&HP&_); [by rewrite (proj1 Hpo)|done|].
  unfold slice_from. rewrite slice_in_range by lia. simpl mbind.
  eexists _, _. reflexivity.
Qed.

Lemma ReadAt_view id want off now c r c' :
  ReadAt id want off now c = Done (r, c') →
  c' = c ∨ ∃ c1, c1 = upd_piece id (p_set_Accessed now) c ∧ (c' = c1 ∨ c' = trigger c1).
Proof.
  unfold ReadAt. intros H. apply bind_Done in H as (p&Hp&H). cbv zeta in H.
  destruct (_ || _) in H; [left; congruence|].
  apply bind_Done in H as (d&Hd&H). right. eexists. split; [done|].
  destruct (len d =? 0), (Size p <=? want + off); injection H as _ <-; auto.
Qed.

Lemma ReadAt_MemInv id want off now c r c' :
  MemInv c → ReadAt id want off now c = Done (r, c') → MemInv c' ∧ use_view c' = use_view c.
Proof.
  intros H Hr. destruct (ReadAt_view _ _ _ _ _ _ _ Hr) as [->|(c1&->&Hc)]; [done|].
  assert (H1 : MemInv (upd_piece id (p_set_Accessed now) c)).
  { apply MemInv_alter; [done|]. intros p Hp. by apply (MemInv_lookup _ _ _ H) in Hp. }
  destruct Hc as [->| ->]; split; done || view_frame.
Qed.

(** Emptying a piece, as [Release] and [drop] do. *)
Definition emptied (p : Piece) : Piece := mkPiece (Id p) 0 false (Accessed p) None.

Lemma emptied_ok pl id p : 0 < pl → piece_ok pl id p → piece_ok pl id (emptied p).
Proof. intros Hpl (?&?&?). split_and!; simpl; done || lia. Qed.

Lemma mp_Release_MemInv id c c' :
  MemInv c → mp_Release id c = Done c' → MemInv c' ∧ use_view c' = use_view c ∧
  isClosed c' = isClosed c ∧ torrent c' = torrent c ∧ pieces c' = alter emptied id (pieces c).
Proof.
  intros H Hr. unfold mp_Release in Hr. apply bind_Done in Hr as (p&Hp&Hr). apply of_option_Done in Hp.
  injection Hr as <-.
  set (c1 := match buffer p with Some b => putBuffer b c | None => c end).
  assert (H1 : MemInv c1 ∧ use_view c1 = use_view c ∧ pieces c1 = pieces c ∧ torrent c1 = torrent c).
  { unfold c1. destruct (buffer p) as [b|]; [|done]. destruct (putBuffer_MemInv b c H).
    split_and!; auto; unfold putBuffer; repeat case_match; done. }
  destruct H1 as (HM&HU&HP&HT). split_and!; try done.
  - apply MemInv_alter; [done|]. intros q Hq. apply emptied_ok; [apply HM|].
    by apply (MemInv_lookup _ _ _ HM).
  - simpl. unfold use_view in HU. congruence.
  - simpl. by rewrite HP.
Qed.

Lemma Release_MemInv id c c' :
  MemInv c → Release id c = Done c' → MemInv c' ∧ use_view c' = use_view c.
Proof.
  intros H Hr. unfold Release in Hr. destruct (_ && _) in Hr; [by simplify_eq|].
  apply bind_Done in Hr as (c1&Hc1&Hr).
  destruct (mp_Release_MemInv _ _ _ H Hc1) as (HM&HU&_).
  destruct (_ && _) in Hr; injection Hr as <-; split; done || view_frame.
Qed.

(** ** Readers *)

Lemma UseInv_put c rid r r' :
  UseInv c → readers c !! rid = Some r →
  UseInv (set_activeReaders (activeReaders c - use_weight r + use_weight r') (put_reader rid r' c)).
Proof.
  intros [] Hr. constructor; simpl; auto.
  - rewrite (map_sum_insert _ _ _ _ r) by done. lia.
  - intros i Hi. destruct (decide (i = rid)) as [->|]; [rewrite lookup_insert_eq; by eexists|].
    rewrite lookup_insert_ne by done. auto.
Qed.

Lemma UseInv_put_same c rid r r' :
  UseInv c → readers c !! rid = Some r → r_isUse r' = r_isUse r → UseInv (put_reader rid r' c).
Proof.
  intros H Hr Heq. pose proof (UseInv_put c rid r r' H Hr) as Hp.
  unfold use_weight in Hp. rewrite Heq in Hp.
  refine (UseInv_view _ _ _ Hp). unfold use_view. simpl. do 4 f_equal. lia.
Qed.

Lemma SetReadahead_isUse n r : r_isUse (SetReadahead n r) = r_isUse r.
Proof. unfold SetReadahead. destruct (r_cache r), (r_isUse r) eqn:E; simpl; by rewrite ?E. Qed.

Lemma turn_on_isUse r : r_isUse (turn_on r) = true.
Proof. done. Qed.

Lemma turn_off_isUse r : r_isUse (turn_off r) = false.
Proof. unfold turn_off. by split_if. Qed.

(** An operation that keeps the memory view and the readers' invariant. *)
Definition reader_op (c c' : Cache) : Prop :=
  mem_view c' = mem_view c ∧ (UseInv c → UseInv c') ∧
  readersOpen c' = readersOpen c ∧ registered c' = registered c.

#[export] Instance reader_op_preorder : PreOrder reader_op.
Proof.
  split; [by intros c|]. intros a b c (H1&H2&H3&H4) (G1&G2&G3&G4).
  split_and!; [congruence|auto|congruence..].
Qed.

Lemma reader_op_put c rid r r' :
  readers c !! rid = Some r → r_isUse r' = r_isUse r → reader_op c (put_reader rid r' c).
Proof. intros. split_and!; try done. intros. by eapply UseInv_put_same. Qed.

Lemma reader_op_emit c e : reader_op c (emit e c).
Proof. split_and!; try done. intros. view_frame. Qed.

Lemma readerOn_op rid c c' : readerOn rid c = Done c' → reader_op c c'.
Proof.
  unfold readerOn. intros H. apply bind_Done in H as (r&Hr&H). apply of_option_Done in Hr.
  destruct (r_isUse r) eqn:E; injection H as <-; [reflexivity|]. split_and!; try done. intros Hu.
  pose proof (UseInv_put c rid r (turn_on r) Hu Hr) as Hp. refine (UseInv_view _ _ _ Hp).
  unfold use_view, use_weight. rewrite E, turn_on_isUse. simpl. do 4 f_equal. lia.
Qed.

Lemma readerOff_op rid c c' : readerOff rid c = Done c' → reader_op c c'.
Proof.
  unfold readerOff. intros H. apply bind_Done in H as (r&Hr&H). apply of_option_Done in Hr.
  destruct (r_isUse r) eqn:E; injection H as <-; [|reflexivity]. split_and!; try done. intros Hu.
  pose proof (UseInv_put c rid r (turn_off r) Hu Hr) as Hp. refine (UseInv_view _ _ _ Hp).
  unfold use_view, use_weight. rewrite E, turn_off_isUse. simpl. do 4 f_equal. lia.
Qed.

Lemma checkReader_op now rid c c' : checkReader now rid c = Done c' → reader_op c c'.
Proof.
  unfold checkReader. intros H. apply bind_Done in H as (r&Hr&H).
  destruct (_ && _) in H; eauto using readerOn_op, readerOff_op.
Qed.

Lemma collect_ranges_op sets now rids c rs c' :
  collect_ranges sets now rids c = Done (rs, c') → reader_op c c'.
Proof.
  revert c rs c'. induction rids as [|rid rest IH]; intros c rs c' H; simpl in H.
  { injection H as _ <-. reflexivity. }
  apply bind_Done in H as (c1&H1&H). apply bind_Done in H as (r&_&H).
  apply bind_Done in H as ([rs2 c2]&H2&H). injection H as _ <-.
  etransitivity; [by eapply checkReader_op|by eapply IH].
Qed.

Lemma Seek_op rid off wh now c r c' : Seek rid off wh now c = Done (r, c') → reader_op c c'.
Proof.
  unfold Seek. intros H. apply bind_Done in H as (rd&Hr&H). apply of_option_Done in Hr.
  destruct (r_isClosed rd); [injection H as _ <-; reflexivity|].
  apply bind_Done in H as (c1&H1&H). apply bind_Done in H as (rd1&Hr1&H). apply of_option_Done in Hr1.
  destruct (t_Seek _ _ _ _) as [res t]. injection H as _ <-.
  apply readerOn_op in H1. etransitivity; [|etransitivity; [apply H1|]].
  - by eapply reader_op_put.
  - etransitivity; [|apply reader_op_emit]. by eapply reader_op_put.
Qed.

Lemma Read_op rid live n now c r c' : Read rid live n now c = Done (r, c') → reader_op c c'.
Proof.
  unfold Read. intros H. apply bind_Done in H as (rd&Hr&H). apply of_option_Done in Hr.
  destruct (r_isClosed rd); [injection H as _ <-; reflexivity|].
  destruct (negb live); [injection H as _ <-; reflexivity|].
  apply bind_Done in H as (c1&H1&H). apply bind_Done in H as (rd1&Hr1&H). apply of_option_Done in Hr1.
  injection H as _ <-. apply readerOn_op in H1. etransitivity; [apply H1|].
  etransitivity; [|apply reader_op_emit]. by eapply reader_op_put.
Qed.

Lemma r_Close_op rid files c c' : r_Close rid files c = Done c' → reader_op c c'.
Proof.
  unfold r_Close. intros H. apply bind_Done in H as (rd&Hr&H). apply of_option_Done in Hr.
  destruct (r_isClosed rd); [injection H as <-; reflexivity|].
  apply bind_Done in H as (c1&H1&H). cbv zeta in H.
  set (c2 := if getUseReaders c1 <=? 0 then _ else _) in H.
  assert (Hc2 : reader_op c c2).
  { apply readerOff_op in H1. etransitivity; [|etransitivity; [apply H1|]].
    - by eapply reader_op_put.
    - unfold c2. split_if; [apply reader_op_emit|reflexivity]. }
  apply bind_Done in H as (rd1&Hr1&H). apply of_option_Done in Hr1.
  destruct (0 <? files); injection H as <-; [|done].
  etransitivity; [apply Hc2|]. by eapply reader_op_put.
Qed.

Lemma foldl_reader_op {A} (f : Cache → A → Cache) l c :
  (∀ c a, reader_op c (f c a)) → reader_op c (foldl f c l).
Proof.
  intros Hf. revert c. induction l as [|a l IH]; intros c; simpl; [reflexivity|].
  etransitivity; [apply Hf|apply IH].
Qed.

Lemma upd_reader_op rid f c : (∀ r, r_isUse (f r) = r_isUse r) → reader_op c (upd_reader rid f c).
Proof.
  intros Hf. destruct (readers c !! rid) as [r|] eqn:E.
  - assert (upd_reader rid f c = put_reader rid (f r) c) as ->; [|by eapply reader_op_put].
    unfold upd_reader, put_reader. f_equal. apply map_eq. intros i. destruct (decide (i = rid)) as [->|].
    + by rewrite lookup_alter_eq, lookup_insert_eq, E.
    + by rewrite lookup_alter_ne, lookup_insert_ne.
  - split_and!; try done. intros. unfold upd_reader. rewrite alter_id by (intros; congruence). view_frame.
Qed.

Lemma AdjustRA_op sets ra c : reader_op c (AdjustRA sets ra c).
Proof.
  unfold AdjustRA. set (c1 := if CacheSize sets =? 0 then _ else _).
  assert (Hc1 : reader_op c c1).
  { unfold c1. split_if; [|reflexivity]. split_and!; try done. intros. view_frame. }
  split_if; [|done]. etransitivity; [apply Hc1|]. apply foldl_reader_op.
  intros. apply upd_reader_op. intros. apply SetReadahead_isUse.
Qed.

(** ** Priorities and eviction *)

Definition inv_op (c c' : Cache) : Prop := Inv c → Inv c'.

#[export] Instance inv_op_preorder : PreOrder inv_op.
Proof. split; unfold inv_op; [by intros c|]. intros a b c; auto. Qed.

Lemma reader_op_inv c c' : reader_op c c' → inv_op c c'.
Proof. intros (Hm&Hu&_) []. constructor; [by eapply MemInv_view|auto]. Qed.

Lemma mem_op_inv c c' : (MemInv c → MemInv c' ∧ use_view c' = use_view c) → inv_op c c'.
Proof. intros H [Hm Hu]. destruct (H Hm) as [Hm' Hv]. constructor; [done|by eapply UseInv_view]. Qed.

(** An operation that changes neither memory nor readers. *)
Definition quiet (c c' : Cache) : Prop := mem_view c' = mem_view c ∧ use_view c' = use_view c.

#[export] Instance quiet_preorder : PreOrder quiet.
Proof. split; unfold quiet; [done|]. intros a b c [] []; split; congruence. Qed.

Lemma quiet_reader_op c c' : quiet c c' → reader_op c c'.
Proof.
  intros [Hm Hu]. unfold use_view in Hu. split_and!; [done| |congruence..].
  intros H. by eapply UseInv_view; [|apply H].
Qed.

Lemma quiet_inv c c' : quiet c c' → inv_op c c'.
Proof. intros. by apply reader_op_inv, quiet_reader_op. Qed.

Lemma prio_loop_quiet fuel i rp rah e hpw count limit batch c b c' :
  prio_loop fuel i rp rah e hpw count limit batch c = Done (b, c') → quiet c c'.
Proof.
  revert i limit batch c. induction fuel as [|fuel IH]; intros i limit batch c H;
    simpl in H; destruct (_ && _ && _) in H; try done; try (by simplify_eq).
  apply bind_Done in H as (p&_&H). destruct (Complete p); [by eapply IH|].
  destruct (_ =? 0) in H; [by eapply IH|]. by apply IH in H.
Qed.

Lemma set_priorities_quiet sets rids c c' : set_priorities sets rids c = Done c' → quiet c c'.
Proof.
  revert c. induction rids as [|rid rest IH]; intros c H; simpl in H; [by simplify_eq|].
  apply bind_Done in H as (c1&H1&H). etransitivity; [|by eapply IH]. clear H.
  unfold reader_priority in H1. apply bind_Done in H1 as (r&_&H1).
  destruct (negb _) in H1; [by simplify_eq|].
  apply bind_Done in H1 as ([b c2]&H2&H1). apply prio_loop_quiet in H2.
  injection H1 as <-. simpl. by destruct (decide (b = ∅)).
Qed.

Lemma setLoadPriority_quiet sets c c' : setLoadPriority sets c = Done c' → quiet c c'.
Proof.
  unfold setLoadPriority. destruct (negb _); [by intros; simplify_eq|].
  destruct (_ =? _); [done|]. apply set_priorities_quiet.
Qed.

Lemma refreshPriorities_quiet sets c c' : refreshPriorities sets c = Done c' → quiet c c'.
Proof.
  unfold refreshPriorities. repeat case_match; try (by intros; simplify_eq).
  apply setLoadPriority_quiet.
Qed.

Lemma index_batch_quiet n id batch c b c' : index_batch n id batch c = Done (b, c') → quiet c c'.
Proof.
  revert id batch c. induction n as [|n IH]; intros id batch c H; simpl in H; [by simplify_eq|].
  destruct (is_index c id); [|by eapply IH].
  apply bind_Done in H as (p&_&H). destruct (Complete p); [by apply IH in H|by eapply IH].
Qed.

Lemma SetTorrent_quiet torr c c' : SetTorrent torr c = Done c' → quiet c c'.
Proof.
  unfold SetTorrent. destruct torr; [|by intros; simplify_eq]. intros H.
  apply bind_Done in H as ([b c1]&H1&H). apply index_batch_quiet in H1. injection H as <-.
  simpl. by destruct (decide (b = ∅)).
Qed.

Section Ordered.
Context `{!SliceSort range_less} `{!SliceSort accessed_less}.

Lemma clear_loop_quiet ranges ids c c' : clear_loop ranges ids c = Done c' → quiet c c'.
Proof.
  revert c. induction ids as [|id rest IH]; intros c H; simpl in H; [by simplify_eq|].
  destruct (_ || _) in H; [|by apply IH].
  destruct (is_index c id) in H; [|by apply IH in H].
  apply bind_Done in H as (p&_&H). destruct (negb _) in H; by apply IH in H.
Qed.

Lemma clearPriority_op sets now c c' : clearPriority sets now c = Done c' → reader_op c c'.
Proof.
  unfold clearPriority. destruct (_ || _ || _ || _); [intros; simplify_eq; reflexivity|].
  intros H. apply bind_Done in H as ([rs c1]&H1&H).
  etransitivity; [by eapply collect_ranges_op|]. by eapply quiet_reader_op, clear_loop_quiet.
Qed.

Lemma set_pieceInRange_inv bm c :
  length bm = length (pieceInRange c) → inv_op c (set_pieceInRange bm c).
Proof.
  intros Hl [[] ?]. constructor; [|view_frame]. constructor; simpl; auto.
  unfold len in *. by rewrite Hl.
Qed.

Lemma mark_loop_length n dst i dst' : mark_loop n dst i = Done dst' → length dst' = length dst.
Proof.
  revert dst i. induction n as [|n IH]; intros dst i H; simpl in H; [by simplify_eq|].
  apply bind_Done in H as (d&Hd&H). apply of_option_Done in Hd. apply IH in H.
  unfold upd in Hd. case_match; simplify_eq. by rewrite length_insert in H.
Qed.

Lemma mark_ranges_length dst ranges n dst' : mark_ranges dst ranges n = Done dst' → length dst' = length dst.
Proof.
  revert dst. induction ranges as [|r rs IH]; intros dst H; simpl in H; [by simplify_eq|].
  apply bind_Done in H as (d&Hd&H). apply IH in H. apply mark_loop_length in Hd. congruence.
Qed.

Lemma getRemPieces_inv sets now order c l c' :
  getRemPieces sets now order c = Done (l, c') → inv_op c c'.
Proof.
  unfold getRemPieces, rem_pieces_open.
  destruct (_ || _ || _); [intros; simplify_eq; reflexivity|]. intros H.
  apply bind_Done in H as ([rs c1]&H1&H). apply bind_Done in H as (bm&Hbm&H).
  apply bind_Done in H as ([ps fill]&_&H). apply bind_Done in H as (c2&H2&H).
  apply bind_Done in H as (c3&H3&H). injection H as _ <-. simpl in *.
  etransitivity; [eapply reader_op_inv, collect_ranges_op, H1|].
  etransitivity; [apply (set_pieceInRange_inv bm)|].
  { unfold fillPieceInRange in Hbm. apply mark_ranges_length in Hbm. by rewrite length_replicate in Hbm. }
  etransitivity; [eapply reader_op_inv, clearPriority_op, H2|].
  etransitivity; [eapply quiet_inv, setLoadPriority_quiet, H3|]. by apply quiet_inv.
Qed.

Lemma evict_inv l rems c c' : evict l rems c = Done c' → inv_op c c'.
Proof.
  revert rems c. induction l as [|p l IH]; intros rems c H; simpl in H; [simplify_eq; reflexivity|].
  apply bind_Done in H as (c1&H1&H).
  assert (G : inv_op c c1).
  { unfold removePiece in H1. destruct (isClosed c); [simplify_eq; reflexivity|].
    apply mem_op_inv. intros Hm. by eapply Release_MemInv. }
  etransitivity; [apply G|]. destruct (_ <=? 0); [simplify_eq; reflexivity|by eapply IH].
Qed.

Lemma cleanPieces_inv sets now nowNS u order c c' :
  cleanPieces sets now nowNS u order c = Done c' → inv_op c c'.
Proof.
  unfold cleanPieces. destruct (_ || _); [intros; simplify_eq; reflexivity|]. intros H.
  apply bind_Done in H as (c1&H1&H). apply refreshPriorities_quiet, quiet_inv in H1.
  etransitivity; [apply H1|]. destruct (_ && _); [simplify_eq; reflexivity|].
  destruct (negb u); [simplify_eq; reflexivity|].
  apply bind_Done in H as ([l c2]&H2&H). apply bind_Done in H as (c3&H3&H). injection H as <-.
  apply getRemPieces_inv in H2. etransitivity; [|etransitivity; [apply H2|]]; [by apply quiet_inv|].
  simpl in H3. assert (G : inv_op c2 c3).
  { destruct (_ <? _) in H3; [by eapply evict_inv|simplify_eq; reflexivity]. }
  etransitivity; [apply G|]. by apply quiet_inv.
Qed.
End Ordered.

(** ** The remaining operations *)

Lemma upd_flag_inv id f c :
  (∀ p, Id (f p) = Id p ∧ Size (f p) = Size p ∧ buffer (f p) = buffer p) → inv_op c (upd_piece id f c).
Proof.
  intros Hf. apply mem_op_inv. intros H. split; [|done]. apply MemInv_alter; [done|].
  intros p Hp. destruct (MemInv_lookup _ _ _ H Hp) as (H1&H2&H3).
  destruct (Hf p) as (E1&E2&E3). unfold piece_ok. by rewrite E1, E2, E3.
Qed.

Lemma set_indexDisk_inv d c :
  (MemInv c → map_Forall (λ _ x, len x <= pieceLength c) d) → inv_op c (set_indexDisk d c).
Proof.
  intros Hd. apply mem_op_inv. intros H. split; [|done]. specialize (Hd H). destruct H. by constructor.
Qed.

Lemma saveIndexPieceToDisk_inv sets ok id c c' :
  saveIndexPieceToDisk sets ok id c = Done c' → inv_op c c'.
Proof.
  unfold saveIndexPieceToDisk. destruct (negb _); [intros; simplify_eq; reflexivity|]. intros H.
  apply bind_Done in H as (p&Hp&H). apply of_option_Done in Hp.
  destruct (buffer p) as [buf|] eqn:Eb; [|simplify_eq; reflexivity].
  apply bind_Done in H as (d&Hd&H). apply of_option_Done in Hd.
  destruct ok; simplify_eq; [|reflexivity].
  apply set_indexDisk_inv. intros Hm. apply map_Forall_insert_2; [|apply Hm].
  destruct (MemInv_lookup _ _ _ Hm Hp) as (_&Hs&Hb). rewrite Eb in Hb.
  apply slice_bounds in Hd as Hb2. apply slice_len in Hd. lia.
Qed.

Lemma MarkComplete_inv sets ok id c c' : MarkComplete sets ok id c = Done c' → inv_op c c'.
Proof.
  unfold MarkComplete. intros H. etransitivity; [apply (upd_flag_inv id (p_set_Complete true)); done|].
  destruct (is_index _ id); [by eapply saveIndexPieceToDisk_inv|simplify_eq; reflexivity].
Qed.

Lemma Close_inv sets c : inv_op c (Close sets c).
Proof.
  intros HI. unfold Close. destruct (isClosed c) eqn:Hc; [exact HI|]. destruct HI as [[] []].
  change (piecesOpen (set_isClosed true c)) with (piecesOpen c).
  rewrite mi_open0, Hc. simpl negb. cbv iota zeta.
  set (f := λ p : Piece, mkPiece (Id p) 0 false (Accessed p) None).
  match goal with |- Inv (if ?b then set_indexDisk ∅ ?x else ?x) => set (c1 := x) end.
  assert (H : Inv c1).
  { constructor; constructor; simpl; try done.
    - intros i q Hq. rewrite lookup_fmap in Hq. destruct (pieces c !! i) as [p|] eqn:E; simplify_eq/=.
      apply mi_pieces0 in E as (?&?&?). split_and!; simpl; done || lia.
    - intros id. rewrite lookup_fmap, fmap_is_Some. apply mi_dom0.
    - unfold len. simpl. pose proof (len_nonneg (free c)). lia.
    - set_solver. }
  destruct (_ && _); [|done]. apply set_indexDisk_inv; [|done]. intros _. by apply map_Forall_empty.
Qed.

Lemma newReader_inv rid file c : readers c !! rid = None → inv_op c (newReader rid file c).
Proof.
  intros Hfresh [Hm []]. constructor.
  { refine (MemInv_view c _ _ Hm). unfold newReader, SetAggressive. simpl. by destruct (readersOpen c). }
  unfold newReader, SetAggressive, SetReadahead. simpl.
  destruct (readersOpen c) eqn:Ho; constructor; simpl; rewrite ?Ho; auto.
  1,4: rewrite map_sum_insert_new by done; unfold use_weight at 1; simpl; lia.
  - intros i [Hi| ->%list_elem_of_singleton]%elem_of_app.
    + destruct (decide (i = rid)) as [->|]; [rewrite lookup_insert_eq; by eexists|].
      rewrite lookup_insert_ne by done. auto.
    + rewrite lookup_insert_eq. by eexists.
  - done.
  - rewrite ui_nil0 by done. set_solver.
Qed.

Lemma CloseReader_inv rid files c c' : CloseReader rid files c = Done c' → inv_op c c'.
Proof.
  unfold CloseReader. destruct (negb (readersOpen c) || isClosed c); [intros; simplify_eq; reflexivity|].
  intros H. apply bind_Done in H as (c1&H1&H). injection H as <-. apply r_Close_op, reader_op_inv in H1.
  etransitivity; [apply H1|]. intros [Hm []]. constructor; [view_frame|]. constructor; simpl; auto.
  - intros i Hi. apply list_elem_of_filter in Hi as [_ Hi]. auto.
  - intros Ho. by rewrite ui_nil0.
Qed.

(** ** The transition system *)

Section Steps.
Context `{!SliceSort range_less} `{!SliceSort accessed_less} (sets : BTSets).

(** One operation of the program on the cache.  The arguments of a step are what
    the caller and the environment choose: offsets, data, times, the outcome of
    disk calls, of [TryLock], and the iteration order over the pieces. *)
Inductive step (c : Cache) : Cache → Prop :=
| step_write id b off now n c' : WriteAt id b off now c = Done (n, c') → step c c'
| step_read id want off now r c' : ReadAt id want off now c = Done (r, c') → step c c'
| step_complete ok id c' : MarkComplete sets ok id c = Done c' → step c c'
| step_incomplete id : step c (upd_piece id (p_set_Complete false) c)
| step_release id c' : Release id c = Done c' → step c c'
| step_torrent torr c' : SetTorrent torr c = Done c' → step c c'
| step_new_reader rid file : readers c !! rid = None → step c (newReader rid file c)
| step_seek rid off wh now r c' : Seek rid off wh now c = Done (r, c') → step c c'
| step_read_reader rid live n now r c' : Read rid live n now c = Done (r, c') → step c c'
| step_close_reader rid files c' : CloseReader rid files c = Done c' → step c c'
| step_adjust ra : step c (AdjustRA sets ra c)
| step_aggressive b n : step c (SetAggressive b n c)
| step_refresh c' : refreshPriorities sets c = Done c' → step c c'
| step_clear now c' : clearPriority sets now c = Done c' → step c c'
| step_rem now order l c' : getRemPieces sets now order c = Done (l, c') → step c c'
| step_wake now nowNS u order c' :
    cleanTrigger c = true → cleanPieces sets now nowNS u order (set_cleanTrigger false c) = Done c' → step c c'
| step_state prio : step c (GetState sets prio c).2
| step_close : step c (Close sets c).

Lemma step_inv c c' : step c c' → Inv c → Inv c'.
Proof.
  intros Hs. change (inv_op c c'). destruct Hs.
  - apply mem_op_inv. intros Hm. by destruct (WriteAt_MemInv _ _ _ _ _ _ _ Hm H) as (?&?&_).
  - apply mem_op_inv. intros Hm. by eapply ReadAt_MemInv.
  - by eapply MarkComplete_inv.
  - by apply upd_flag_inv.
  - apply mem_op_inv. intros Hm. by eapply Release_MemInv.
  - by eapply quiet_inv, SetTorrent_quiet.
  - by apply newReader_inv.
  - by eapply reader_op_inv, Seek_op.
  - by eapply reader_op_inv, Read_op.
  - by eapply CloseReader_inv.
  - apply reader_op_inv, AdjustRA_op.
  - apply quiet_inv. unfold SetAggressive. by destruct (0 <? n).
  - by eapply quiet_inv, refreshPriorities_quiet.
  - by eapply reader_op_inv, clearPriority_op.
  - by eapply getRemPieces_inv.
  - etransitivity; [|by eapply cleanPieces_inv]. by apply quiet_inv.
  - by apply quiet_inv.
  - apply Close_inv.
Qed.

Lemma steps_inv c c' : rtc step c c' → Inv c → Inv c'.
Proof. induction 1; eauto using step_inv. Qed.
End Steps.
