(* ===== verification/CacheInit.v ===== *)
(** * Initialisation of the piece cache

    [Init] marks the index pieces of every media file, creates the pieces and
    restores the index pieces found on disk.  It returns for every torrent, the
    state it returns satisfies the invariant, and every piece that holds one of
    the first or last 8 MiB of a file of 10 MiB or more is an index piece. *)

From S2P Require Import Prelude GoFloat Ranges CacheState Reader Cache CacheInv.

(** [marked dst i]: piece [i] is in range and its bit is set. *)
Definition marked (dst : list bool) (i : Z) : Prop := idx dst i = Some true.

Lemma mark_loop_marks n dst i dst' :
  mark_loop n dst i = Done dst' → 0 <= i → (n = O ∨ i + Z.of_nat n <= len dst) →
  ∀ k, marked dst' k ↔ marked dst k ∨ (i <= k < i + Z.of_nat n).
Proof.
  intros H Hi Hn k. destruct (mark_loop_spec n dst i Hi Hn) as (d&Hd&Hl&Hk).
  rewrite Hd in H. injection H as <-. unfold marked, idx.
  destruct (0 <=? k) eqn:E; reflect_bools; [|split; [done|intros [?|?]; [done|lia]]].
  rewrite Hk. destruct (dst !! Z.to_nat k) as [b|] eqn:Eb; simpl.
  - rewrite Z2Nat.id by done. split.
    + intros [= Ht]. apply orb_true_iff in Ht as [->|Ht]; [by left|right].
      apply andb_true_iff in Ht as [H1 H2]. zlia.
    + intros [[= ->]|Ht]; [done|]. rewrite (proj2 (andb_true_iff _ _)), orb_true_r; [done|].
      rewrite Z.leb_le, Z.ltb_lt. lia.
  - split; [done|]. intros [?|?]; [done|]. apply lookup_ge_None in Eb.
    destruct Hn as [->|Hn]; [lia|]. unfold len in Hn. lia.
Qed.

Lemma mark_index_spec pc ss se dst :
  0 <= ss → len dst = Z.max 0 pc →
  ∃ dst', mark_index pc ss se dst = Done dst' ∧ len dst' = len dst ∧
    ∀ k, marked dst' k ↔ marked dst k ∨ (ss <= k <= se ∧ k < pc).
Proof.
  intros Hss Hlen. unfold mark_index.
  assert (Hn : Z.to_nat (Z.min se (pc - 1) - ss + 1) = O ∨
               ss + Z.of_nat (Z.to_nat (Z.min se (pc - 1) - ss + 1)) <= len dst) by lia.
  set (n := Z.to_nat _) in *.
  destruct (mark_loop_spec n dst ss Hss Hn) as (d&Hd&Hl&_). exists d. split_and!; [done|unfold len; lia|].
  intros k. rewrite (mark_loop_marks _ _ _ _ Hd Hss Hn).
  assert (ss <= k < ss + Z.of_nat n ↔ ss <= k <= se ∧ k < pc) as ->; [|done]. unfold n. lia.
Qed.

(** What [index_file] must protect: the pieces of the first and of the last
    [fileRangeNotDelete] bytes of a file at [start] of length [fl]. *)
Definition index_byte (pl start fl b : Z) : Prop :=
  10485760 <= fl ∧ start <= b < start + fl ∧
  (b <= start + fileRangeNotDelete pl ∨ start + fl - fileRangeNotDelete pl <= b).

Lemma index_file_spec pl pc start fl dst :
  0 < pl → 0 <= start → 0 <= fl → len dst = Z.max 0 pc →
  ∃ dst', index_file pl pc start fl dst = Done dst' ∧ len dst' = len dst ∧
    (∀ k, marked dst k → marked dst' k) ∧
    (∀ b, index_byte pl start fl b → b / pl < pc → marked dst' (b / pl)).
Proof.
  intros Hpl Hst Hfl Hlen. unfold index_file. destruct (fl <? 10485760) eqn:E; reflect_bools.
  { exists dst. split_and!; auto. unfold index_byte. lia. }
  set (frnd := fileRangeNotDelete pl).
  assert (Hf : 8388608 <= frnd) by (unfold frnd, fileRangeNotDelete; split_if; lia).
  cbv zeta. rewrite !(Z.quot_div_nonneg start), !(Z.quot_div_nonneg (start + frnd)),
    !(Z.quot_div_nonneg (start + fl - 1)) by lia.
  assert (Hss : 0 <= start / pl) by (apply Z.div_pos; lia).
  set (es := if Z.quot (start + fl - frnd) pl <? 0 then 0 else _).
  assert (Hes : 0 <= es ∧ ∀ b, start + fl - frnd <= b → 0 <= b → es <= b / pl).
  { unfold es. split; [split_if; lia|]. intros b Hb Hb0.
    assert (Hb1 : 0 <= b / pl) by (apply Z.div_pos; lia). split_if; [done|].
    destruct (Z.le_gt_cases 0 (start + fl - frnd)).
    - rewrite Z.quot_div_nonneg by lia. apply Z.div_le_mono; lia.
    - assert (Z.quot (start + fl - frnd) pl <= 0); [|lia].
      replace (start + fl - frnd) with (- (frnd - start - fl)) by lia.
      rewrite Z.quot_opp_l by lia. pose proof (Z.quot_pos (frnd - start - fl) pl). lia. }
  destruct (mark_index_spec pc (start / pl) (if pc <=? (start + frnd) / pl then pc - 1 else (start + frnd) / pl)
    dst Hss Hlen) as (d1&->&Hl1&Hk1). simpl mbind.
  destruct (mark_index_spec pc es (if pc <=? (start + fl - 1) / pl then pc - 1 else (start + fl - 1) / pl)
    d1 (proj1 Hes) ltac:(lia)) as (d2&->&Hl2&Hk2).
  exists d2. split_and!; [done|lia| |].
  - intros k Hk. apply Hk2. left. apply Hk1. by left.
  - intros b (_&Hb&[Hhead|Htail]) Hbp; apply Hk2; [left; apply Hk1|]; right.
    + assert (start / pl <= b / pl <= (start + frnd) / pl) by (split; apply Z.div_le_mono; lia).
      split_if; lia.
    + assert (b / pl <= (start + fl - 1) / pl) by (apply Z.div_le_mono; lia).
      pose proof (proj2 Hes b Htail ltac:(lia)). split_if; lia.
Qed.

(** The offset of the [i]-th file. *)
Definition file_start (files : list Z) (i : nat) : Z := foldr Z.add 0 (take i files).

Lemma file_start_nonneg files i : Forall (Z.le 0) files → 0 <= file_start files i.
Proof.
  unfold file_start. intros H. revert i. induction H as [|x l Hx _ IH]; intros [|i]; simpl; try lia.
  specialize (IH i). lia.
Qed.

Lemma index_files_spec pl pc cur files dst :
  0 < pl → 0 <= cur → Forall (Z.le 0) files → len dst = Z.max 0 pc →
  ∃ dst', index_files pl pc cur files dst = Done dst' ∧ len dst' = len dst ∧
    (∀ k, marked dst k → marked dst' k) ∧
    (∀ i fl b, files !! i = Some fl → index_byte pl (cur + file_start files i) fl b → b / pl < pc →
       marked dst' (b / pl)).
Proof.
  intros Hpl Hcur Hf. revert cur dst Hcur. induction Hf as [|fl files Hfl Hf IH]; intros cur dst Hcur Hlen.
  { exists dst. by split_and!. }
  simpl. destruct (index_file_spec pl pc cur fl dst Hpl Hcur Hfl Hlen) as (d1&->&Hl1&Hm1&Hb1). simpl mbind.
  destruct (IH (cur + fl) d1) as (d2&->&Hl2&Hm2&Hb2); [lia|lia|].
  exists d2. split_and!; [done|lia|auto|]. intros [|i] fl' b Hi Hb Hbp; simplify_eq/=.
  - apply Hm2, Hb1; [|done]. by rewrite Z.add_0_r in Hb.
  - apply (Hb2 i fl'); [done| |done]. unfold file_start in *. simpl in Hb. by rewrite Z.add_assoc in Hb.
Qed.

(** ** Pieces *)

Lemma new_pieces_lookup n id :
  new_pieces n !! id = if decide (0 <= id < Z.of_nat n) then Some (NewPiece id) else None.
Proof.
  induction n as [|n IH]; simpl.
  - rewrite lookup_empty. case_decide; [exfalso; lia|done].
  - destruct (decide (id = Z.of_nat n)) as [->|].
    + rewrite lookup_insert_eq. clear IH. case_decide; [done|exfalso; lia].
    + rewrite lookup_insert_ne, IH by done. clear IH. repeat case_decide; try done; exfalso; lia.
Qed.

Lemma preload_piece_spec id now c :
  MemInv c → (0 <= id < pieceCount c) →
  ∃ n c', preload_piece id now c = Done (n, c') ∧ MemInv c' ∧ use_view c' = use_view c ∧
    pieceCount c' = pieceCount c ∧ isIndexPiece c' = isIndexPiece c.
Proof.
  intros H Hid. unfold preload_piece. destruct (negb _); [by eexists _, _|].
  destruct (indexDisk c !! id) as [[|d0 dt]|] eqn:Ed; [by eexists _, _| |by eexists _, _].
  set (data := d0 :: dt) in *.
  assert (Hl : len data <= pieceLength c) by (by apply (mi_disk _ H id)).
  destruct (WriteAt_total id data 0 now c H Hid) as (n&c1&Hw); [pose proof (mi_pl _ H); lia|].
  destruct (WriteAt_MemInv _ _ _ _ _ _ _ H Hw) as (HM&HU&HP&(q&Hq&[bq Hqb])).
  destruct (WriteAt_static _ _ _ _ _ _ _ Hw) as (HC&HI).
  rewrite Hw. simpl. eexists _, _. split; [reflexivity|]. split_and!; [|done..].
  apply MemInv_alter; [done|]. intros p' Hp'. rewrite Hq in Hp'. injection Hp' as <-.
  destruct (MemInv_lookup _ _ _ HM Hq) as (E1&E2&E3). rewrite Hqb in E3.
  split_and!; simpl; [done|pose proof (len_nonneg data); lia|lia|by rewrite Hqb].
Qed.

Lemma preload_loop_spec n id now acc c :
  MemInv c → 0 <= id → (id + Z.of_nat n <= Z.max id (pieceCount c)) →
  ∃ b c', preload_loop n id now acc c = Done (b, c') ∧ MemInv c' ∧ use_view c' = use_view c ∧
    isIndexPiece c' = isIndexPiece c.
Proof.
  revert id acc c. induction n as [|n IH]; intros id acc c H Hid Hn; [by eexists _, _|]. simpl.
  destruct (preload_piece_spec id now c H) as (k&c1&->&H1&HU1&HC1&HI1); [lia|]. simpl.
  destruct (IH (id + 1) (acc + k) c1 H1) as (b&c2&->&H2&HU2&HI2); [lia|rewrite HC1; lia|].
  eexists _, _. split_and!; [done|done|congruence..].
Qed.

Lemma new_pieces_MemInv c pl pc :
  0 < pl → pieceLength c = pl → pieceCount c = pc → pieces c = new_pieces (Z.to_nat pc) →
  free c = [] → 0 <= freeCap c → len (isIndexPiece c) = Z.max 0 pc → len (pieceInRange c) = Z.max 0 pc →
  map_Forall (λ _ d, len d <= pl) (indexDisk c) → piecesOpen c = true → isClosed c = false → MemInv c.
Proof.
  intros Hpl E1 E2 E3 E4 Hfc E5 E6 Hd E7 E8.
  constructor; rewrite ?E1, ?E2, ?E4, ?E5, ?E6, ?E7, ?E8; try done.
  - intros id p Hp. rewrite E3, new_pieces_lookup in Hp. case_decide; simplify_eq.
    split_and!; simpl; done || lia.
  - intros id. rewrite E3, new_pieces_lookup. case_decide; (split; [intros [? ?]|intros ?]); try lia;
      by eexists.
Qed.

(** The total length of the files never matters: [Init] returns for every torrent
    whose piece length is positive. *)
Lemma Init_spec sets info now cap disk :
  0 < PieceLength info → Forall (Z.le 0) (FileLengths info) →
  map_Forall (λ _ d, len d <= PieceLength info) disk →
  ∃ c, Init sets info now (NewCache cap disk) = Done c ∧ Inv c ∧
    (∀ i fl b, FileLengths info !! i = Some fl →
       index_byte (PieceLength info) (file_start (FileLengths info) i) fl b →
       b / PieceLength info < NumPieces info → is_index c (b / PieceLength info) = true).
Proof.
  intros Hpl Hfiles Hdisk. unfold Init.
  set (c0 := if capacity _ =? 0 then _ else _).
  assert (E0 : mem_view c0 = mem_view (NewCache cap disk) ∧ use_view c0 = use_view (NewCache cap disk))
    by (unfold c0; by destruct (_ =? 0)).
  destruct E0 as [Em Eu]. cbn zeta.
  set (c1 := set_pieceCount _ (set_pieceLength _ c0)).
  change (pieceLength c1) with (PieceLength info). rewrite (proj2 (Z.eqb_neq _ _)) by lia.
  set (fc := if _ <? 2 then 2 else _). assert (Hfc : 2 <= fc) by (unfold fc; split_if; lia).
  set (c2 := set_freeCap fc c1).
  change (pieceLength c2) with (PieceLength info). change (pieceCount c2) with (NumPieces info).
  set (blank := replicate _ false).
  assert (Hb : len blank = Z.max 0 (NumPieces info)).
  { unfold blank, len. rewrite length_replicate. lia. }
  destruct (index_files_spec (PieceLength info) (NumPieces info) 0 (FileLengths info) blank Hpl
    ltac:(lia) Hfiles Hb) as (index&->&Hil&_&Hmark). simpl mbind.
  set (c3 := set_isIndexPiece index (set_pieceInRange blank c2)).
  change (pieceCount c3) with (NumPieces info).
  set (c4 := set_pieces _ c3). unfold mem_view, use_view in Em, Eu. simpl in Em, Eu.
  assert (HM : MemInv c4).
  { apply (new_pieces_MemInv c4 (PieceLength info) (NumPieces info)); simpl; try done; try congruence; try lia.
    replace (indexDisk c0) with disk by congruence. done. }
  assert (HUse : UseInv c4).
  { constructor; simpl; replace (activeReaders c0) with 0 by congruence || idtac;
      replace (readers c0) with (∅ : gmap Z Reader) by congruence || idtac;
      replace (readersOpen c0) with true by congruence || idtac;
      replace (registered c0) with ([] : list Z) by congruence || idtac;
      replace (isClosed c0) with false by congruence || idtac; done || set_solver. }
  unfold preloadIndexCache. destruct (negb (PathSet sets)).
  - exists c4. split_and!; [done|by constructor|]. intros i fl b Hi Hib Hbp.
    specialize (Hmark i fl b Hi Hib Hbp). unfold marked in Hmark. unfold is_index. simpl.
    rewrite Hmark. apply idx_Some_lt in Hmark. rewrite (proj2 (Z.ltb_lt _ _)) by lia. done.
  - destruct (preload_loop_spec (Z.to_nat (pieceCount c4)) 0 now 0 c4 HM) as (bts&c5&->&H5&HU5&HI5);
      [lia|lia|]. simpl. eexists. split; [reflexivity|]. split.
    + constructor; [view_frame|]. eapply UseInv_view; [|apply HUse]. by rewrite <- HU5.
    + intros i fl b Hi Hib Hbp. specialize (Hmark i fl b Hi Hib Hbp). unfold marked in Hmark.
      unfold is_index. simpl. rewrite HI5. simpl. rewrite Hmark. apply idx_Some_lt in Hmark.
      rewrite (proj2 (Z.ltb_lt _ _)) by lia. done.
Qed.
