(* ===== verification/CacheProps.v ===== *)
(** * What the cache promises about memory

    The invariant over every reachable state, the protection of the index pieces,
    the round trips of a piece through memory and through the disk, and what is
    left after [Close]. *)

From S2P Require Import Prelude GoFloat Ranges CacheState Reader Cache CacheInv CacheInit.

(** ** A small torrent for the witnesses: three pieces of four bytes, one file *)

Definition tiny_info : Info := mkInfo 4 3 [12].
Definition tiny_sets : BTSets := mkBTSets 67108864 95 25 true false true.
Definition tiny_cache : Cache :=
  match Init tiny_sets tiny_info 100 (NewCache 8 ∅) with Done c => c | _ => NewCache 8 ∅ end.
Definition get {A} (o : outcome (A * Cache)) : Cache :=
  match o with Done r => r.2 | _ => tiny_cache end.

(** A torrent with a file large enough to have index pieces. *)
Definition movie_info : Info := mkInfo 4194304 10 [41943040].

Lemma no_disk pl : map_Forall (λ (_ : Z) (d : list Z), len d <= pl) (∅ : gmap Z (list Z)).
Proof. apply map_Forall_empty. Qed.

Section Reachable.
Context `{!SliceSort range_less} `{!SliceSort accessed_less}.

(** C1: whatever operations run on an initialised cache, in whatever order: every
    piece keeps its number, lies in the torrent, holds at most a piece of data and
    owns a buffer of exactly the piece length or none; spare buffers have the piece
    length and are bounded in number; the count of active readers is the number of
    readers in use; and a closed cache holds no spare buffer and no reader. *)
Theorem cache_invariant sets info now cap disk c c' :
  0 < PieceLength info → Forall (Z.le 0) (FileLengths info) →
  map_Forall (λ _ d, len d <= PieceLength info) disk →
  Init sets info now (NewCache cap disk) = Done c → rtc (step sets) c c' →
  (∀ id p, pieces c' !! id = Some p →
     Id p = id ∧ 0 <= id < pieceCount c' ∧ 0 <= Size p <= pieceLength c' ∧
     match buffer p with Some b => len b = pieceLength c' | None => Size p = 0 end) ∧
  Forall (λ b, len b = pieceLength c') (free c') ∧ len (free c') <= freeCap c' ∧
  activeReaders c' = map_sum use_weight (readers c') ∧
  (isClosed c' = true → free c' = [] ∧ registered c' = [] ∧ piecesOpen c' = false).
Proof.
  intros Hpl Hf Hd Hi Hs. destruct (Init_spec sets info now cap disk Hpl Hf Hd) as (c0&Hc0&HI&_).
  rewrite Hc0 in Hi. injection Hi as ->. destruct (steps_inv _ _ _ Hs HI) as [HM HU].
  split_and!; try apply HM; try apply HU.
  - intros id p Hp. destruct (MemInv_lookup _ _ _ HM Hp) as (H1&H2&H3).
    assert (0 <= id < pieceCount c') by (apply (mi_dom _ HM); by eexists). split_and!; done || lia.
  - intros Hc. split_and!; [by apply HM| |].
    + apply HU. by rewrite (ui_open _ HU), Hc.
    + by rewrite (mi_open _ HM), Hc.
Qed.
End Reachable.

Lemma cache_invariant_witness :
  let c := get (WriteAt 1 [7; 8; 9] 1 100 tiny_cache) in
  let c' := Close tiny_sets c in
  activeReaders c = 0 ∧ (isClosed c' = true ∧ free c' = []).
Proof.
  pose (S1 := insertion_slice_sort range_less range_less_asym).
  assert (A : ∀ a b, accessed_less a b = true → accessed_less b a = false).
  { unfold accessed_less. intros a b H. apply Z.ltb_lt in H. apply Z.ltb_ge. lia. }
  pose (S2 := insertion_slice_sort accessed_less A).
  assert (Hw : step tiny_sets tiny_cache (get (WriteAt 1 [7; 8; 9] 1 100 tiny_cache))).
  { apply (step_write tiny_sets tiny_cache 1 [7; 8; 9] 1 100 3). by vm_compute. }
  assert (Hf : Forall (Z.le 0) (FileLengths tiny_info)) by (repeat constructor; lia).
  pose proof (cache_invariant tiny_sets tiny_info 100 8 ∅ tiny_cache
    (get (WriteAt 1 [7; 8; 9] 1 100 tiny_cache)) eq_refl Hf (no_disk 4) ltac:(by vm_compute)
    (rtc_once _ _ Hw)) as (_&_&_&Ha&_).
  pose proof (cache_invariant tiny_sets tiny_info 100 8 ∅ tiny_cache
    (Close tiny_sets (get (WriteAt 1 [7; 8; 9] 1 100 tiny_cache))) eq_refl Hf (no_disk 4) ltac:(by vm_compute)
    (rtc_l _ _ _ _ Hw (rtc_once _ _ (step_close tiny_sets _)))) as (_&_&_&_&Hc).
  split; [rewrite Ha; by vm_compute|]. assert (isClosed (Close tiny_sets (get (WriteAt 1 [7; 8; 9] 1 100 tiny_cache))) = true)
    as Ht by (by vm_compute). split; [done|by apply Hc].
Defined.

(** Initialisation returns for every torrent with a positive piece length, and
    every piece that holds one of the first or last 8 MiB of a file of 10 MiB or
    more, the headers and cues a player asks for first, is an index piece. *)
Theorem Init_protects_ends sets info now cap disk :
  0 < PieceLength info → Forall (Z.le 0) (FileLengths info) →
  map_Forall (λ _ d, len d <= PieceLength info) disk →
  ∃ c, Init sets info now (NewCache cap disk) = Done c ∧
    (∀ i fl b, FileLengths info !! i = Some fl →
       index_byte (PieceLength info) (file_start (FileLengths info) i) fl b →
       b / PieceLength info < NumPieces info → is_index c (b / PieceLength info) = true).
Proof.
  intros H1 H2 H3. destruct (Init_spec sets info now cap disk H1 H2 H3) as (c&Hc&_&Hi). by exists c.
Qed.

Lemma Init_protects_ends_witness :
  ∃ c, Init tiny_sets movie_info 100 (NewCache 67108864 ∅) = Done c ∧
    is_index c 0 = true ∧ is_index c 9 = true ∧ is_index c 5 = false.
Proof.
  destruct (Init_protects_ends tiny_sets movie_info 100 67108864 ∅) as (c&Hc&Hi);
    [done|repeat constructor; lia|apply no_disk|].
  exists c. split; [exact Hc|]. split_and!.
  - refine (Hi 0%nat 41943040 0 eq_refl _ _); [|done]. unfold index_byte. vm_compute. intuition congruence.
  - refine (Hi 0%nat 41943040 41943039 eq_refl _ _); [|done]. unfold index_byte. vm_compute. intuition congruence.
  - assert (E : is_index <$> Init tiny_sets movie_info 100 (NewCache 67108864 ∅) = Done (is_index c))
      by (by rewrite Hc).
    clear Hi. destruct (Init tiny_sets movie_info 100 (NewCache 67108864 ∅)) as [c0| |] eqn:E0; [|done..].
    injection Hc as <-. clear E. assert (E1 : (λ c, is_index c 5) <$> Init tiny_sets movie_info 100 (NewCache 67108864 ∅) = Done false)
      by (by vm_compute). rewrite E0 in E1. by injection E1.
Defined.

(** ** Round trips *)

(** Piece [id] holds the bytes [d] at offset [off]. *)
Definition holds (c : Cache) (id off : Z) (d : list Z) : Prop :=
  ∃ p buf, pieces c !! id = Some p ∧ buffer p = Some buf ∧ slice buf off (off + len d) = Some d.

Lemma WriteAt_splice id b off now c p :
  MemInv c → pieces c !! id = Some p → 0 <= off → off + len b <= pieceLength c →
  ∃ buf c', WriteAt id b off now c = Done (len b, c') ∧ len buf = pieceLength c ∧
    (∀ old, buffer p = Some old → buf = old) ∧
    pieces c' = <[id := mkPiece (Id p) (Z.min (pieceLength c) (Size p + len b)) (Complete p) now
      (Some (splice buf off b))]> (pieces c).
Proof.
  intros H Hp H1 H2. pose proof (len_nonneg b).
  destruct (WriteAt_total id b off now c H) as (n&c'&Hw); [apply H; by eexists|lia|].
  destruct (WriteAt_inv _ _ _ _ _ _ _ Hw) as (p'&buf&c1&tail&Hp'&Ha&Ht&->&->).
  rewrite Hp in Hp'. injection Hp' as <-.
  pose proof (MemInv_lookup _ _ _ H Hp) as Hpo.
  destruct (alloc_buffer_MemInv p c buf c1 H) as (HM&HL&HP&HPS&HU); [by rewrite (proj1 Hpo)|done|].
  destruct (copy_go_splice buf tail b off Ht) as [E1 E2]; [lia|].
  exists buf. eexists. rewrite <- E2. split_and!; [done|lia| |].
  - intros old Ho. unfold alloc_buffer in Ha. rewrite Ho in Ha. congruence.
  - cbn [pieces set_pieces]. by rewrite E1, HP, HPS, E2.
Qed.

Lemma ReadAt_holds id off d now c :
  0 < len d → holds c id off d → ∃ c', ReadAt id (len d) off now c = Done (inl d, c').
Proof.
  intros Hd (p&buf&Hp&Hb&Hs). unfold ReadAt. rewrite Hp. simpl mbind. rewrite Hb. simpl default.
  pose proof (slice_bounds _ _ _ _ Hs) as Hbd.
  rewrite (proj2 (Z.ltb_ge (len buf) (len d + off))) by lia.
  rewrite (proj2 (Z.ltb_ge (len buf) off)), (proj2 (Z.ltb_ge (len buf) (off + len d))) by lia.
  simpl orb. cbv iota zeta. rewrite Hs. simpl mbind. rewrite (proj2 (Z.eqb_neq (len d) 0)) by lia.
  eexists. reflexivity.
Qed.

(** C17: bytes written to a piece are read back, and a write disturbs nothing else:
    every other stretch of bytes of the piece, and every other piece, reads as
    before. *)
Theorem write_then_read id b off now c :
  MemInv c → is_Some (pieces c !! id) → 0 < len b → 0 <= off → off + len b <= pieceLength c →
  ∃ c', WriteAt id b off now c = Done (len b, c') ∧
    (∀ now', ∃ c'', ReadAt id (len b) off now' c' = Done (inl b, c'')) ∧
    (∀ off' d, holds c id off' d → 0 < len d → off' + len d <= off ∨ off + len b <= off' →
       ∀ now', ∃ c'', ReadAt id (len d) off' now' c' = Done (inl d, c'')) ∧
    (∀ id', id' ≠ id → pieces c' !! id' = pieces c !! id').
Proof.
  intros H [p Hp] Hb H1 H2. destruct (WriteAt_splice id b off now c p H Hp H1 H2) as (buf&c'&Hw&Hl&Ho&Hps).
  exists c'. split_and!; [done|..].
  - intros now'. apply ReadAt_holds; [done|]. eexists _, _. rewrite Hps, lookup_insert_eq.
    split_and!; [done|done|]. apply splice_slice; lia.
  - intros off' d (p'&old&Hp'&Hb'&Hs) Hd Hdis now'. rewrite Hp in Hp'. injection Hp' as <-.
    rewrite (Ho _ Hb') in Hps, Hl. apply ReadAt_holds; [done|]. eexists _, _.
    rewrite Hps, lookup_insert_eq. split_and!; [done|done|]. apply splice_slice_other; done || lia.
  - intros id' Hne. by rewrite Hps, lookup_insert_ne.
Qed.

Definition holdsb (c : Cache) (id off : Z) (d : list Z) : bool :=
  match pieces c !! id with
  | Some (mkPiece _ _ _ _ (Some buf)) => bool_decide (slice buf off (off + len d) = Some d)
  | _ => false
  end.

Lemma holdsb_holds c id off d : holdsb c id off d = true → holds c id off d.
Proof.
  unfold holdsb. destruct (pieces c !! id) as [[pid sz cp ac [buf|]]|] eqn:E; try done.
  intros Hb. apply bool_decide_eq_true in Hb. by eexists _, buf.
Qed.

Lemma tiny_MemInv : MemInv tiny_cache.
Proof.
  destruct (Init_spec tiny_sets tiny_info 100 8 ∅) as (c&Hc&HI&_);
    [done|repeat constructor; lia|apply no_disk|]. unfold tiny_cache. rewrite Hc. apply HI.
Qed.

Lemma write_then_read_witness :
  let c := get (WriteAt 1 [7; 8] 0 100 tiny_cache) in
  ∃ c', WriteAt 1 [9; 10] 2 100 c = Done (2, c') ∧
    (∃ c'', ReadAt 1 2 2 200 c' = Done (inl [9; 10], c'')) ∧
    (∃ c'', ReadAt 1 2 0 200 c' = Done (inl [7; 8], c'')).
Proof.
  assert (HM : MemInv (get (WriteAt 1 [7; 8] 0 100 tiny_cache))).
  { assert (Hw : WriteAt 1 [7; 8] 0 100 tiny_cache = Done (2, get (WriteAt 1 [7; 8] 0 100 tiny_cache)))
      by (by vm_compute). by destruct (WriteAt_MemInv _ _ _ _ _ _ _ tiny_MemInv Hw). }
  destruct (write_then_read 1 [9; 10] 2 100 (get (WriteAt 1 [7; 8] 0 100 tiny_cache)))
    as (c'&Hw&Hr&Hf&_); [done|by vm_compute; eexists|done|done|done|].
  exists c'. split; [exact Hw|]. split; [apply Hr|]. refine (Hf 0 [7; 8] _ eq_refl _ 200); [|by left].
  apply holdsb_holds. by vm_compute.
Defined.

(** C18: a completed index piece survives a restart.  [MarkComplete] stores the
    bytes the piece received; a later cache of the same torrent that finds them
    creates the piece complete, with that size and those bytes. *)
Theorem index_piece_survives sets id now c c2 p buf :
  MemInv c → PathSet sets = true → is_index c id = true →
  pieces c !! id = Some p → buffer p = Some buf → 0 < Size p →
  MemInv c2 → pieceLength c2 = pieceLength c → idx (isIndexPiece c2) id = Some true →
  is_Some (pieces c2 !! id) →
  ∃ c1 data, MarkComplete sets true id c = Done c1 ∧ slice buf 0 (Size p) = Some data ∧
    ∃ c3, preload_piece id now (set_indexDisk (indexDisk c1) c2) = Done (Size p, c3) ∧
      (∃ p3, pieces c3 !! id = Some p3 ∧ Complete p3 = true ∧ Size p3 = Size p) ∧
      holds c3 id 0 data.
Proof.
  intros H Hset Hidx Hp Hb Hs H2 Hpl Hix [p2 Hp2].
  pose proof (MemInv_lookup _ _ _ H Hp) as (_&Hsz&Hbl). rewrite Hb in Hbl.
  destruct (slice buf 0 (Size p)) as [data|] eqn:Hd;
    [|rewrite slice_in_range in Hd by lia; done].
  assert (Hl : len data = Size p) by (apply slice_len in Hd; lia).
  set (c1 := set_indexDisk (<[id := data]> (indexDisk c)) (upd_piece id (p_set_Complete true) c)).
  exists c1, data. split_and!; [|done|].
  { unfold MarkComplete. change (is_index (upd_piece id (p_set_Complete true) c) id) with (is_index c id). rewrite Hidx.
    unfold saveIndexPieceToDisk. rewrite Hset. simpl negb. cbv iota. unfold upd_piece at 1. simpl pieces.
    rewrite lookup_alter_eq, Hp. simpl. rewrite Hb.
    rewrite (proj2 (Z.leb_gt (Size p) 0)), (proj2 (Z.ltb_ge (len buf) (Size p))) by lia. simpl.
    by rewrite Hd. }
  set (c2' := set_indexDisk (indexDisk c1) c2).
  assert (HM : MemInv c2').
  { destruct H2. constructor; simpl; auto. apply map_Forall_insert_2; [lia|]. rewrite Hpl. apply H. }
  assert (Hpos : 0 < len data) by lia. unfold preload_piece. simpl isIndexPiece. rewrite Hix. simpl negb.
  cbv iota. simpl indexDisk. rewrite lookup_insert_eq. destruct data as [|d0 dt] eqn:Ed; [done|]. rewrite <- Ed in *.
  destruct (WriteAt_splice id data 0 now c2' p2 HM Hp2) as (buf2&c3&Hw&Hl2&_&Hps); [lia|simpl; lia|].
  rewrite Hw. simpl. rewrite Hl. eexists. split; [reflexivity|]. split.
  - simpl. rewrite lookup_alter_eq, Hps, lookup_insert_eq. eexists. split; [reflexivity|]. done.
  - eexists _, _. simpl. rewrite lookup_alter_eq, Hps, lookup_insert_eq. split_and!; [reflexivity|reflexivity|].
    apply splice_slice; simpl in *; lia.
Qed.

Definition tiny_index : Cache := set_isIndexPiece [true; true; true] tiny_cache.
Definition tiny_written : Cache := get (WriteAt 2 [5; 6; 7] 0 100 tiny_index).

Lemma tiny_index_MemInv : MemInv tiny_index.
Proof. destruct tiny_MemInv. by constructor. Qed.

Lemma index_piece_survives_witness :
  ∃ c1 c3, MarkComplete tiny_sets true 2 tiny_written = Done c1 ∧
    preload_piece 2 300 (set_indexDisk (indexDisk c1) tiny_index) = Done (3, c3) ∧ holds c3 2 0 [5; 6; 7].
Proof.
  assert (Hw : WriteAt 2 [5; 6; 7] 0 100 tiny_index = Done (3, tiny_written)) by (by vm_compute).
  assert (HM : MemInv tiny_written) by (by destruct (WriteAt_MemInv _ _ _ _ _ _ _ tiny_index_MemInv Hw)).
  destruct (index_piece_survives tiny_sets 2 300 tiny_written tiny_index
    (mkPiece 2 3 false 100 (Some [5; 6; 7; 0])) [5; 6; 7; 0]) as (c1&data&Hc1&Hd&c3&Hc3&_&Hh);
    try done; try apply tiny_index_MemInv.
  exists c1, c3. split_and!; [exact Hc1|exact Hc3|]. vm_compute in Hd. injection Hd as <-. exact Hh.
Defined.

(** Closing gives the memory back: no piece keeps a buffer or a size, the spare
    buffers and the reader registry are gone, the cache hands out only fake pieces
    whose operations fail, buffers returned later are dropped, and closing twice
    changes nothing. *)
Theorem Close_releases sets c :
  Inv c → isClosed c = false →
  let c' := Close sets c in
  (∀ id p, pieces c' !! id = Some p → buffer p = None ∧ Size p = 0 ∧ Complete p = false) ∧
  free c' = [] ∧ registered c' = [] ∧ (∀ id, Cache_Piece id c' = PieceFake) ∧
  (∀ b, putBuffer b c' = c') ∧ Close sets c' = c'.
Proof.
  intros HI Hc. cbn zeta.
  assert (Hcl : isClosed (Close sets c) = true).
  { unfold Close. rewrite Hc. cbv zeta. destruct (piecesOpen _), (_ && _); done. }
  pose proof (Close_inv sets c HI) as [HM HU].
  assert (Ho : piecesOpen (Close sets c) = false) by (by rewrite (mi_open _ HM), Hcl).
  split_and!.
  - intros id p. assert (pieces (Close sets c) = emptied <$> pieces c) as ->.
    { unfold Close. rewrite Hc. change (piecesOpen (set_isClosed true c)) with (piecesOpen c).
      rewrite (mi_open _ (inv_mem _ HI)), Hc. simpl. by destruct (RemoveCacheOnDrop sets && PathSet sets). }
    rewrite lookup_fmap. destruct (pieces c !! id); intros; by simplify_eq/=.
  - by apply HM.
  - apply HU. by rewrite (ui_open _ HU), Hcl.
  - intros id. unfold Cache_Piece. by rewrite Ho.
  - intros b. unfold putBuffer. by rewrite Hcl, orb_true_r.
  - unfold Close at 1. by rewrite Hcl.
Qed.

Lemma tiny_Inv : Inv tiny_cache.
Proof.
  destruct (Init_spec tiny_sets tiny_info 100 8 ∅) as (c&Hc&HI&_);
    [done|repeat constructor; lia|apply no_disk|]. unfold tiny_cache. by rewrite Hc.
Qed.

Lemma Close_releases_witness :
  let c' := Close tiny_sets tiny_cache in free c' = [] ∧ Cache_Piece 1 c' = PieceFake.
Proof.
  destruct (Close_releases tiny_sets tiny_cache tiny_Inv eq_refl) as (_&H1&_&H2&_).
  by split; [exact H1|apply H2].
Defined.
