(* ===== verification/CachePrio.v ===== *)
(** * Download priorities of the cache

    [setLoadPriority] walks, for every reader in use, the incomplete pieces from the
    reader's position to the end of its window and hands the client one batch of
    priorities.  The loop returns for every cache that satisfies the invariant and
    whose readers stand inside their files; what it asks for is bounded by the
    prefetch budget, lies in the window and starts with the reader's own piece. *)

From S2P Require Import Prelude GoFloat Ranges CacheState Reader Cache CacheInv CacheInit CacheProps.

(** A reader that stands inside its file. *)
Definition reader_wf (r : Reader) : Prop :=
  0 <= r_offset r <= Length (r_file r) ∧ Length (r_file r) < 2 ^ 61 ∧ 0 <= Offset (r_file r) < 2 ^ 61.

Definition conf_ok (sets : BTSets) (c : Cache) : Prop :=
  0 <= ReaderReadAHead sets <= 100 ∧ 0 <= capacity c < 2 ^ 61.

Definition readers_wf (c : Cache) : Prop :=
  ∀ rid r, rid ∈ registered c → readers c !! rid = Some r → reader_wf r.

Lemma activeReaders_nonneg c : UseInv c → 0 <= activeReaders c.
Proof.
  intros H. rewrite (ui_active _ H). apply map_sum_nonneg. intros rid r _. unfold use_weight.
  split_if; lia.
Qed.

Lemma window_contains sets r c :
  MemInv c → UseInv c → conf_ok sets c → reader_wf r →
  0 <= Start (getPiecesRange sets r c) <= getReaderPiece r c ∧
  getReaderPiece r c <= End (getPiecesRange sets r c).
Proof.
  intros HM HU [Hp Hc] (H1&H2&H3). apply getPiecesRange_contains; try done; [apply HM|].
  by apply activeReaders_nonneg.
Qed.

(** What the loop adds to a batch. *)
Definition requested (c : Cache) (rp rah hpw i e j v : Z) : Prop :=
  i <= j < e ∧ j < pieceCount c ∧ (∃ p, pieces c !! j = Some p ∧ Complete p = false) ∧
  v ≠ 0 ∧ v = piece_prio rp rah hpw j (localPriority c !! j).

Lemma requested_step c rp rah hpw i e j v :
  requested c rp rah hpw (i + 1) e j v → requested c rp rah hpw i e j v.
Proof. intros (?&H). split; [lia|done]. Qed.

Lemma requested_lp c rp rah hpw i e j v k x :
  k < i → requested (set_localPriority (<[k := x]> (localPriority c)) c) rp rah hpw i e j v →
  requested c rp rah hpw i e j v.
Proof. intros Hk (H1&H2&H3&H4&H5). simpl in *. rewrite lookup_insert_ne in H5 by lia. done. Qed.

Lemma prio_loop_spec fuel i rp rah e hpw count limit batch c :
  MemInv c → piecesOpen c = true → 0 <= i → e - i <= Z.of_nat fuel →
  ∃ b c', prio_loop fuel i rp rah e hpw count limit batch c = Done (b, c') ∧
    (∀ j v, b !! j = Some v → batch !! j = Some v ∨ requested c rp rah hpw i e j v) ∧
    Z.of_nat (size b) <= Z.of_nat (size batch) + Z.max 0 (count - limit) ∧
    (∀ j v, batch !! j = Some v → j < i → b !! j = Some v).
Proof.
  revert i limit batch c. induction fuel as [|fuel IH]; intros i limit batch c H Ho Hi Hf; simpl.
  - rewrite (proj2 (Z.ltb_ge i e)) by lia. simpl. eexists _, _. split_and!; [done|by left|lia|done].
  - destruct (_ && _ && _) eqn:E; cycle 1.
    { eexists _, _. split_and!; [done|by left|lia|done]. }
    reflect_bools. rewrite Ho. destruct (proj2 (mi_dom _ H i)) as [p Hp]; [lia|]. rewrite Hp. simpl mbind.
    destruct (Complete p) eqn:Ec.
    { destruct (IH (i + 1) limit batch c) as (b&c'&->&K1&K2&K3); [done|done|lia|lia|].
      eexists _, _. split_and!; [done| |done|intros; apply K3; [done|lia]].
      intros j v Hj. destruct (K1 j v Hj) as [?|?]; [by left|right; by apply requested_step]. }
    destruct (_ =? 0) eqn:Ez; reflect_bools.
    { destruct (IH (i + 1) (limit + 1) batch c) as (b&c'&->&K1&K2&K3); [done|done|lia|lia|].
      eexists _, _. split_and!; [done| |lia|intros; apply K3; [done|lia]].
      intros j v Hj. destruct (K1 j v Hj) as [?|?]; [by left|right; by apply requested_step]. }
    set (v0 := piece_prio rp rah hpw i (localPriority c !! i)) in *.
    destruct (IH (i + 1) (limit + 1) (<[i := v0]> batch) (set_localPriority (<[i := v0]> (localPriority c)) c))
      as (b&c'&->&K1&K2&K3); [view_frame|done|lia|lia|].
    eexists _, _. split_and!; [done|..].
    + intros j v Hj. destruct (K1 j v Hj) as [Hb|Hr].
      * destruct (decide (j = i)) as [->|]; [|rewrite lookup_insert_ne in Hb by done; by left].
        rewrite lookup_insert_eq in Hb. injection Hb as <-. right. split_and!; try done || lia. by exists p.
      * right. apply requested_step. eapply requested_lp, Hr. lia.
    + rewrite map_size_insert in K2. destruct (batch !! i); simpl in K2; lia.
    + intros j v Hj Hlt. apply K3; [|lia]. rewrite lookup_insert_ne by lia. done.
Qed.

(** The reader's own piece comes first in the batch. *)
Lemma prio_loop_now fuel rp rah e hpw count batch c p b c' :
  prio_loop fuel rp rp rah e hpw count 0 batch c = Done (b, c') →
  MemInv c → piecesOpen c = true → 0 <= rp → e - rp <= Z.of_nat fuel →
  rp < e → rp < pieceCount c → 0 < count → pieces c !! rp = Some p → Complete p = false →
  b !! rp = Some PiecePriorityNow.
Proof.
  intros Hr H Ho Hrp Hf He Hpc Hc Hp Hcp. destruct fuel as [|fuel]; [lia|]. simpl in Hr.
  rewrite (proj2 (Z.ltb_lt rp e)), (proj2 (Z.ltb_lt rp (pieceCount c))), (proj2 (Z.ltb_lt 0 count)) in Hr by lia.
  simpl in Hr. rewrite Ho, Hp in Hr. simpl mbind in Hr. rewrite Hcp in Hr.
  unfold piece_prio in Hr at 1. rewrite Z.eqb_refl in Hr. change (PiecePriorityNow =? 0) with false in Hr.
  cbv iota in Hr. unfold piece_prio in Hr. rewrite Z.eqb_refl in Hr.
  edestruct prio_loop_spec as (b2&c2&Hr2&_&_&H3); [..|rewrite Hr in Hr2; injection Hr2 as <- <-];
    [..|eapply (H3 rp); [apply lookup_insert_eq|lia]]; [view_frame|done|lia|lia].
Qed.

(** The passes change the remembered priorities and the log of calls, nothing else. *)
Definition prio_frame (c c' : Cache) : Prop := ∃ x y, c' = set_calls x (set_localPriority y c).

#[export] Instance prio_frame_preorder : PreOrder prio_frame.
Proof.
  split.
  - intros c. exists (calls c), (localPriority c). by destruct c.
  - intros a b c (x&y&->) (x'&y'&->). by exists x', y'.
Qed.

Lemma prio_loop_frame fuel i rp rah e hpw count limit batch c b c' :
  prio_loop fuel i rp rah e hpw count limit batch c = Done (b, c') →
  prio_frame c c' ∧ calls c' = calls c.
Proof.
  revert i limit batch c. induction fuel as [|fuel IH]; intros i limit batch c H;
    simpl in H; destruct (_ && _ && _) in H; try done; try (by simplify_eq).
  apply bind_Done in H as (p&_&H). destruct (Complete p); [by eapply IH|].
  destruct (_ =? 0) in H; [by eapply IH|]. apply IH in H as [H1 H2]. split; [|done].
  etransitivity; [|apply H1]. exists (calls c). eexists. reflexivity.
Qed.

Section Requests.
Context (sets : BTSets).

(** A batch the client may be asked for on behalf of reader [rid]. *)
Record good_batch (c : Cache) (rid : Z) (r : Reader) (b : gmap Z Z) : Prop := {
  gb_reg : rid ∈ registered c;
  gb_reader : readers c !! rid = Some r;
  gb_use : r_isUse r = true;
  gb_size : 0 < Z.of_nat (size b) <= prefetch_count sets c;
  gb_pieces : ∀ j v, b !! j = Some v →
    getReaderPiece r c <= j < End (getPiecesRange sets r c) ∧ j < pieceCount c ∧
    (∃ p, pieces c !! j = Some p ∧ Complete p = false) ∧
    v ≠ 0 ∧ (v = PiecePriorityNow ↔ j = getReaderPiece r c);
}.

Definition good_call (c : Cache) (e : Call) : Prop :=
  ∃ rid r b, e = SetPiecePriorities b ∧ good_batch c rid r b.

(** Reader [rid] waits for the piece it stands in. *)
Definition waiting (c : Cache) (rid : Z) : Prop :=
  ∃ r p, readers c !! rid = Some r ∧ r_isUse r = true ∧
    getReaderPiece r c < End (getPiecesRange sets r c) ∧ getReaderPiece r c < pieceCount c ∧
    pieces c !! getReaderPiece r c = Some p ∧ Complete p = false.

Definition served (c : Cache) (new : list Call) (rid : Z) : Prop :=
  ∃ r b, readers c !! rid = Some r ∧ SetPiecePriorities b ∈ new ∧
    b !! getReaderPiece r c = Some PiecePriorityNow.

Lemma piece_prio_now rp rah hpw j o : piece_prio rp rah hpw j o = PiecePriorityNow ↔ j = rp.
Proof.
  unfold piece_prio. destruct (j =? rp) eqn:E; reflect_bools; [by split|].
  split; [|intros; lia]. intros Hx. exfalso. revert Hx. repeat case_match; vm_compute; congruence.
Qed.

Lemma reader_priority_spec rid r c :
  MemInv c → UseInv c → piecesOpen c = true → conf_ok sets c → rid ∈ registered c →
  readers c !! rid = Some r → reader_wf r →
  ∃ c' new, reader_priority sets rid c = Done c' ∧ prio_frame c c' ∧ calls c' = new ++ calls c ∧
    Forall (good_call c) new ∧ (waiting c rid → served c new rid).
Proof.
  intros HM HU Ho Hcf Hreg Hr Hwf. unfold reader_priority. rewrite Hr.
  cbn [of_option mbind outcome_bind].
  destruct (r_isUse r) eqn:Eu; simpl negb; cbv iota; cycle 1.
  { exists c, []. split_and!; [done|reflexivity|done|constructor|].
    intros (r'&p&Hr'&Hu'&_). congruence. }
  destruct (window_contains sets r c HM HU Hcf Hwf) as [Hw1 Hw2].
  set (pos := getReaderPiece r c) in *. set (e := End (getPiecesRange sets r c)) in *.
  set (cnt := prefetch_count sets c). assert (Hcnt : 1 <= cnt) by (unfold cnt, prefetch_count; split_if; lia).
  destruct (prio_loop_spec (Z.to_nat (e - pos)) pos pos (getReaderRAHPiece r c) e (highPriorityWindow c)
    cnt 0 ∅ c HM Ho) as (b&c'&Hb&H1&H2&_); [lia|lia|].
  destruct (prio_loop_frame _ _ _ _ _ _ _ _ _ _ _ _ Hb) as [Hfr Hcl].
  cbv zeta. rewrite Hb. cbn [mbind outcome_bind fst snd].
  assert (Hserve : waiting c rid → b !! pos = Some PiecePriorityNow).
  { intros (r'&p&Hr'&_&He&Hpc&Hp&Hc). rewrite Hr in Hr'. injection Hr' as <-.
    eapply prio_loop_now; [apply Hb|done|done|lia|lia|done|done|lia|done|done]. }
  rewrite map_size_empty in H2.
  destruct (decide (b = ∅)) as [->|Hne].
  { exists c', []. split_and!; [done|done|done|constructor|]. intros Hw. by specialize (Hserve Hw). }
  exists (emit (SetPiecePriorities b) c'), [SetPiecePriorities b].
  split_and!; [done| |by simpl; rewrite Hcl| |].
  - etransitivity; [apply Hfr|]. eexists _, (localPriority c'). by destruct c'.
  - repeat constructor. exists rid, r, b. split; [done|]. split; try done.
    + apply map_size_non_empty_iff in Hne. fold cnt. lia.
    + intros j v Hj. destruct (H1 j v Hj) as [Hx|((Hj1&Hj2)&Hpc&Hp&Hv0&Hv)]; [by rewrite lookup_empty in Hx|].
      fold pos e. split_and!; try done. rewrite Hv. apply piece_prio_now.
  - intros Hw. exists r, b. split_and!; [done|by apply list_elem_of_singleton|by apply Hserve].
Qed.

Lemma frame_good c c1 e : prio_frame c c1 → good_call c1 e → good_call c e.
Proof. intros (x&y&->) (rid&r&b&->&[]). exists rid, r, b. split; [done|]. by constructor. Qed.

Lemma frame_waiting c c1 rid : prio_frame c c1 → waiting c rid → waiting c1 rid.
Proof. by intros (x&y&->). Qed.

Lemma frame_served c c1 new rid : prio_frame c c1 → served c1 new rid → served c new rid.
Proof. by intros (x&y&->). Qed.

Lemma set_priorities_spec rids c :
  MemInv c → UseInv c → piecesOpen c = true → conf_ok sets c →
  (∀ rid, rid ∈ rids → rid ∈ registered c) → readers_wf c →
  ∃ c' new, set_priorities sets rids c = Done c' ∧ prio_frame c c' ∧ calls c' = new ++ calls c ∧
    Forall (good_call c) new ∧ ∀ rid, rid ∈ rids → waiting c rid → served c new rid.
Proof.
  revert c. induction rids as [|rid rest IH]; intros c HM HU Ho Hcf Hreg Hwf; simpl.
  { exists c, []. split_and!; [done|reflexivity|done|constructor|]. by intros rid ?%not_elem_of_nil. }
  destruct (ui_reg _ HU rid) as [r Hr]; [apply Hreg; set_solver|].
  destruct (reader_priority_spec rid r c HM HU Ho Hcf) as (c1&n1&->&Hf1&Hc1&Hg1&Hs1);
    [apply Hreg; set_solver|done|apply (Hwf rid); [apply Hreg; set_solver|done]|].
  simpl mbind. pose proof Hf1 as (x&y&E).
  destruct (IH c1) as (c2&n2&->&Hf2&Hc2&Hg2&Hs2); [subst c1..|].
  { view_frame. } { view_frame. } { done. } { done. } { intros; apply Hreg; set_solver. } { done. }
  exists c2, (n2 ++ n1). split_and!; [done|by etransitivity|by rewrite Hc2, Hc1, app_assoc| |].
  - apply Forall_app. split; [|done]. eapply Forall_impl; [apply Hg2|]. intros. by eapply frame_good.
  - intros rid' Hin Hw. apply elem_of_cons in Hin as [->|Hin].
    + destruct (Hs1 Hw) as (r'&b&?&Hb&?). exists r', b. split_and!; [done|set_solver|done].
    + destruct (frame_served c c1 n2 rid' Hf1) as (r'&b&?&Hb&?); [by eapply Hs2, frame_waiting|].
      exists r', b. split_and!; [done|set_solver|done].
Qed.
End Requests.

(** C4: on a cache whose readers stand inside their files, setting the priorities
    returns and only talks to the client through batches of priorities.  Every batch
    belongs to a registered reader in use, names at most [prefetch_count] pieces, all
    incomplete and inside that reader's window, and gives priority Now to the
    reader's own piece and to no other; and a reader that waits for an incomplete
    piece before the end of its window is served: its piece is asked for Now. *)
Theorem setLoadPriority_requests sets c :
  Inv c → isClosed c = false → torrent c = true → conf_ok sets c → readers_wf c →
  ∃ c' new, setLoadPriority sets c = Done c' ∧ calls c' = new ++ calls c ∧ prio_frame c c' ∧
    Forall (good_call sets c) new ∧
    (∀ rid, rid ∈ registered c → waiting sets c rid → served c new rid).
Proof.
  intros [HM HU] Hcl Ht Hcf Hwf. unfold setLoadPriority. rewrite Ht. simpl negb. cbv iota.
  rewrite (proj2 (Z.eqb_neq (pieceLength c) 0)) by (pose proof (mi_pl _ HM); lia).
  destruct (set_priorities_spec sets (registered c) c HM HU) as (c'&new&Hs&Hf&Hc&Hg&Hw);
    try done; [by rewrite (mi_open _ HM), Hcl|]. by exists c', new.
Qed.

(** A playing reader in a torrent of 12 pieces. *)
Definition play_info : Info := mkInfo 4194304 12 [50331648].
Definition play_sets : BTSets := mkBTSets 67108864 95 25 false false true.
Definition play_file : File := mkFile 0 50331648.
Definition play_cache : Cache :=
  match Init play_sets play_info 100 (NewCache 67108864 ∅) with
  | Done c => set_torrent true (newReader 1 play_file c)
  | _ => NewCache 67108864 ∅
  end.

Lemma play_Inv : Inv play_cache.
Proof.
  destruct (Init_spec play_sets play_info 100 67108864 ∅) as (c&Hc&HI&_);
    [done|repeat constructor; lia|apply no_disk|].
  unfold play_cache. rewrite Hc. assert (Hn : readers c !! 1 = None).
  { assert (E : readers <$> Init play_sets play_info 100 (NewCache 67108864 ∅) = Done ∅) by (by vm_compute).
    rewrite Hc in E. injection E as ->. done. }
  apply (quiet_inv (newReader 1 play_file c)); [done|]. by apply newReader_inv.
Qed.

Lemma play_readers : readers play_cache = <[1 := mkReader (mkTReader 0 None false) 0 0 play_file false 0 true true]> ∅
  ∧ registered play_cache = [1].
Proof. by vm_compute. Qed.

Lemma play_readers_wf : readers_wf play_cache.
Proof.
  intros rid r Hreg Hr. destruct play_readers as [E1 E2]. rewrite E2 in Hreg. apply list_elem_of_singleton in Hreg as ->.
  rewrite E1, lookup_insert_eq in Hr. injection Hr as <-. unfold reader_wf. simpl. lia.
Qed.

Lemma setLoadPriority_requests_witness :
  ∃ c' new, setLoadPriority play_sets play_cache = Done c' ∧ calls c' = new ++ [] ∧ served play_cache new 1.
Proof.
  destruct (setLoadPriority_requests play_sets play_cache) as (c'&new&Hs&Hc&_&_&Hw);
    [apply play_Inv|by vm_compute|by vm_compute|unfold conf_ok; vm_compute; intuition congruence|
     apply play_readers_wf|].
  exists c', new. split; [exact Hs|]. split; [exact Hc|]. apply Hw.
  - rewrite (proj2 play_readers). by apply list_elem_of_singleton.
  - exists (mkReader (mkTReader 0 None false) 0 0 play_file false 0 true true), (NewPiece 0).
    split_and!; vm_compute; reflexivity.
Defined.
