(* ===== verification/CacheEvict.v ===== *)
(** * Eviction

    [cleanPieces] scans the pieces, lists those that may be evicted, oldest access
    first, and releases as many of the oldest as full pieces fit in the excess over the
    capacity, plus one.  It returns for
    every cache whose readers stand inside their files, for every iteration order
    of the map of pieces and for every sorting algorithm. *)

From S2P Require Import Prelude GoFloat Ranges CacheState Reader Cache CacheInv CacheInit CacheProps CachePrio.

(** ** Switching readers on and off *)

Definition reader_frame (c c' : Cache) : Prop := ∃ m a, c' = set_activeReaders a (set_readers m c).

#[export] Instance reader_frame_preorder : PreOrder reader_frame.
Proof.
  split.
  - intros c. exists (readers c), (activeReaders c). by destruct c.
  - intros a b c (x&y&->) (x'&y'&->). by exists x', y'.
Qed.

Definition idle (now : Z) (c : Cache) (r : Reader) : bool :=
  (r_lastAccess r + 60 <? now) && (1 <? readers_len c).

(** [checkReader] has nothing left to do for the reader. *)
Definition settled (now : Z) (c : Cache) (rid : Z) : Prop :=
  ∀ r, readers c !! rid = Some r → r_isUse r = negb (idle now c r).

Lemma SetReadahead_fields n r :
  r_offset (SetReadahead n r) = r_offset r ∧ r_file (SetReadahead n r) = r_file r ∧
  r_lastAccess (SetReadahead n r) = r_lastAccess r.
Proof. unfold SetReadahead. by destruct (negb (r_cache r)), (r_isUse r). Qed.

Lemma turn_on_fields r :
  r_offset (turn_on r) = r_offset r ∧ r_file (turn_on r) = r_file r ∧ r_lastAccess (turn_on r) = r_lastAccess r.
Proof.
  unfold turn_on. cbv zeta. destruct (pos (r_Reader r) =? 0).
  - apply (SetReadahead_fields _ (r_seek (r_offset r) r)).
  - apply (SetReadahead_fields (r_readahead r) r).
Qed.

Lemma turn_off_fields r :
  r_offset (turn_off r) = r_offset r ∧ r_file (turn_off r) = r_file r ∧ r_lastAccess (turn_off r) = r_lastAccess r.
Proof. unfold turn_off. cbv zeta. destruct (0 <? _); apply (SetReadahead_fields 0 r). Qed.

Lemma checkReader_spec now rid r c :
  readers c !! rid = Some r →
  ∃ c' r', checkReader now rid c = Done c' ∧ reader_frame c c' ∧ readers c' = <[rid := r']> (readers c) ∧
    (r_offset r' = r_offset r ∧ r_file r' = r_file r ∧ r_lastAccess r' = r_lastAccess r) ∧
    r_isUse r' = negb (idle now c r) ∧ (r_isUse r = negb (idle now c r) → c' = c).
Proof.
  intros Hr. unfold checkReader. rewrite Hr. simpl mbind. fold (idle now c r).
  unfold readerOff, readerOn. rewrite Hr. simpl mbind.
  destruct (idle now c r), (r_isUse r) eqn:E; simpl negb.
  - eexists _, (turn_off r). split; [reflexivity|]. split; [by eexists _, _|]. split; [done|].
    split; [apply turn_off_fields|]. split; [apply turn_off_isUse|done].
  - exists c, r. rewrite insert_id by done. split_and!; done || reflexivity.
  - exists c, r. rewrite insert_id by done. split_and!; done || reflexivity.
  - eexists _, (turn_on r). split; [reflexivity|]. split; [by eexists _, _|]. split; [done|].
    split; [apply turn_on_fields|]. by split.
Qed.

Lemma reader_frame_static c c' :
  reader_frame c c' → readers_len c' = readers_len c ∧ (∀ r, getReaderPiece r c' = getReaderPiece r c) ∧
  registered c' = registered c ∧ (∀ now r, idle now c' r = idle now c r).
Proof. by intros (m&a&->). Qed.

Lemma in_range_iff id r : in_range id r = true ↔ Start r <= id <= End r.
Proof. unfold in_range. by rewrite andb_true_iff, !Z.leb_le. Qed.

(** What a pass over the readers collects. *)
Record collected (now : Z) (rids : list Z) (c : Cache) (rs : list Range) (c' : Cache) : Prop := {
  co_frame : reader_frame c c';
  co_wf : readers_wf c';
  co_rest : ∀ rid, rid ∉ rids → readers c' !! rid = readers c !! rid;
  co_ranges : Forall range_wf rs;
  co_cover : ∀ rid r, rid ∈ rids → readers c' !! rid = Some r → r_isUse r = true →
    covered rs (getReaderPiece r c') = true;
  co_settled : ∀ rid, rid ∈ rids → settled now c' rid;
}.

Lemma collect_ranges_spec sets now rids c :
  MemInv c → UseInv c → conf_ok sets c → (∀ rid, rid ∈ rids → rid ∈ registered c) → readers_wf c →
  ∃ rs c', collect_ranges sets now rids c = Done (rs, c') ∧ collected now rids c rs c'.
Proof.
  revert c. induction rids as [|rid rest IH]; intros c HM HU Hcf Hreg Hwf; simpl.
  { exists [], c. split; [done|]. split; try done; [intros ? ? Hin _ _|intros ? Hin];
      by apply not_elem_of_nil in Hin. }
  destruct (ui_reg _ HU rid) as [r Hr]; [apply Hreg; set_solver|].
  destruct (checkReader_spec now rid r c Hr) as (c1&r1&Hck&Hf1&Hrd&(Ho&Hfi&Hla)&Hu1&_).
  rewrite Hck. simpl mbind. rewrite Hrd, lookup_insert_eq. cbn [of_option mbind outcome_bind].
  pose proof (checkReader_op _ _ _ _ Hck) as (Hmv&Huv&_).
  destruct (reader_frame_static _ _ Hf1) as (_&Hpc&Hrg&Hid).
  assert (Hwf1 : readers_wf c1).
  { intros rid' r' Hin Hr'. rewrite Hrg in Hin. rewrite Hrd in Hr'. destruct (decide (rid' = rid)) as [->|].
    - rewrite lookup_insert_eq in Hr'. injection Hr' as <-. unfold reader_wf. rewrite Ho, Hfi. by apply (Hwf rid).
    - rewrite lookup_insert_ne in Hr' by done. by apply (Hwf rid'). }
  assert (HM1 : MemInv c1) by (by eapply MemInv_view). assert (HU1 : UseInv c1) by auto.
  assert (Hcf1 : conf_ok sets c1) by (destruct Hf1 as (?&?&->); done).
  destruct (IH c1 HM1 HU1 Hcf1) as (rs&c2&->&Hco); [intros; rewrite Hrg; apply Hreg; set_solver|done|].
  cbn [mbind outcome_bind fst snd]. eexists _, _. split; [done|]. destruct Hco.
  destruct (reader_frame_static _ _ co_frame0) as (Hl2&Hpc2&_&Hid2).
  assert (Hwr : reader_wf r1) by (apply (Hwf1 rid); [rewrite Hrg; apply Hreg; set_solver|by rewrite Hrd, lookup_insert_eq]).
  pose proof (window_contains sets r1 c1 HM1 HU1 Hcf1 Hwr) as Hwin.
  split; try done.
  - by etransitivity.
  - intros rid' Hni. apply not_elem_of_cons in Hni as [Hne Hni]. rewrite co_rest0, Hrd by done.
    by rewrite lookup_insert_ne.
  - apply Forall_app. split; [|done]. destruct (r_isUse r1); repeat constructor. unfold range_wf. lia.
  - intros rid' r' Hin Hr' Hu. unfold covered. rewrite existsb_app. apply orb_true_iff.
    destruct (decide (rid' ∈ rest)); [right; by eapply co_cover0|left].
    apply elem_of_cons in Hin as [->|]; [|done]. rewrite co_rest0, Hrd, lookup_insert_eq in Hr' by done.
    injection Hr' as <-. rewrite Hu. simpl. rewrite orb_false_r. apply in_range_iff. rewrite Hpc2. lia.
  - intros rid' Hin. destruct (decide (rid' ∈ rest)); [by apply co_settled0|].
    apply elem_of_cons in Hin as [->|]; [|done]. intros r' Hr'. rewrite co_rest0, Hrd, lookup_insert_eq in Hr' by done.
    injection Hr' as <-. rewrite Hu1, Hid2, Hid. f_equal. unfold idle. by rewrite Hla.
Qed.

(** A second pass at the same time changes nothing. *)
Lemma collect_ranges_settled sets now rids c :
  (∀ rid, rid ∈ rids → is_Some (readers c !! rid)) → (∀ rid, rid ∈ rids → settled now c rid) →
  ∃ rs, collect_ranges sets now rids c = Done (rs, c).
Proof.
  induction rids as [|rid rest IH]; intros Hs Hset; simpl; [by eexists|].
  destruct (Hs rid) as [r Hr]; [set_solver|].
  destruct (checkReader_spec now rid r c Hr) as (c1&r1&->&_&_&_&_&Hsame).
  rewrite Hsame by (by apply (Hset rid); [set_solver|]). cbn [mbind outcome_bind]. rewrite Hr.
  cbn [of_option mbind outcome_bind].
  destruct IH as [rs ->]; [set_solver..|]. cbn [mbind outcome_bind fst snd]. by eexists.
Qed.

(** ** The scan *)

Section Scan.
Context `{!SliceSort range_less} `{!SliceSort accessed_less}.

Definition size_held (p : Piece) : Z := if 0 <? Size p then Size p else 0.

Definition scan_list (ranges : list Range) (c : Cache) (order : list Z) : list Piece :=
  omap (λ id, p ← pieces c !! id; if evictable ranges (pieceInRange c) c id p then Some p else None) order.

Lemma scan_pieces_spec ranges order c :
  (∀ id, id ∈ order → is_Some (pieces c !! id)) →
  scan_pieces ranges order c = Done (scan_list ranges c order, keyed_sum size_held (pieces c) order).
Proof.
  induction order as [|id rest IH]; intros Ho; simpl; [done|].
  destruct (Ho id) as [p Hp]; [set_solver|]. rewrite Hp. simpl. rewrite IH by set_solver. simpl.
  by destruct (evictable _ _ _ _ _).
Qed.

Lemma is_index_range c id : MemInv c → is_index c id = true → 0 <= id < pieceCount c.
Proof.
  intros H Hi. unfold is_index in Hi. apply andb_true_iff in Hi as [H1 H2].
  destruct (idx (isIndexPiece c) id) eqn:E; [|done]. apply idx_Some_lt in E.
  rewrite (mi_index _ H) in E. lia.
Qed.

Lemma clear_loop_spec ranges ids c :
  MemInv c → piecesOpen c = true → ∃ c', clear_loop ranges ids c = Done c' ∧ prio_frame c c'.
Proof.
  revert c. induction ids as [|id rest IH]; intros c H Ho; simpl; [exists c; by split|].
  set (c1 := set_localPriority (delete id (localPriority c)) (emit (SetPriority id PiecePriorityNone) c)).
  assert (Hc1 : prio_frame c c1) by (by eexists _, _).
  assert (Hcut : ∃ c', clear_loop ranges rest c1 = Done c' ∧ prio_frame c c').
  { destruct (IH c1) as (c'&Hc'&Hf); [view_frame|done|]. exists c'. split; [done|by etransitivity]. }
  destruct (_ || _); [|by apply IH]. destruct (is_index c id) eqn:Ei; [|done].
  rewrite Ho. destruct (proj2 (mi_dom _ H id) (is_index_range _ _ H Ei)) as [p ->].
  cbn [of_option mbind outcome_bind]. destruct (negb _); [by apply IH|done].
Qed.

(** ** The eviction loop *)

Lemma Release_evicts id c :
  is_Some (pieces c !! id) → is_index c id = false →
  ∃ c', Release id c = Done c' ∧ pieces c' = alter emptied id (pieces c) ∧
    isIndexPiece c' = isIndexPiece c ∧ isClosed c' = isClosed c ∧ readers c' = readers c ∧
    registered c' = registered c ∧ pieceLength c' = pieceLength c.
Proof.
  intros [p Hp] Hi. unfold Release. rewrite Hi, andb_false_r. unfold mp_Release. rewrite Hp.
  cbn [of_option mbind outcome_bind].
  set (c1 := match buffer p with Some b => putBuffer b c | None => c end).
  assert (H1 : pieces c1 = pieces c ∧ isIndexPiece c1 = isIndexPiece c ∧ isClosed c1 = isClosed c ∧
               readers c1 = readers c ∧ registered c1 = registered c ∧ pieceLength c1 = pieceLength c).
  { unfold c1, putBuffer. by repeat case_match. }
  destruct H1 as (E1&E2&E3&E4&E5&E6). 
  destruct (_ && _); (eexists; split; [reflexivity|]); simpl; rewrite E1; by split_and!.
Qed.

Definition evicted_in (ids : list Z) (m m' : gmap Z Piece) : Prop :=
  ∀ id, m' !! id = if decide (id ∈ ids) then emptied <$> m !! id else m !! id.

Lemma evicted_in_nil m : evicted_in [] m m.
Proof. intros id. rewrite decide_False; [done|set_solver]. Qed.

Lemma evict_spec l rems c :
  isClosed c = false → (∀ p, p ∈ l → is_Some (pieces c !! Id p) ∧ is_index c (Id p) = false) →
  ∃ c', evict l rems c = Done c' ∧ readers c' = readers c ∧ registered c' = registered c ∧
    pieceLength c' = pieceLength c ∧ isClosed c' = isClosed c ∧ isIndexPiece c' = isIndexPiece c ∧
    evicted_in (Id <$> take (Z.to_nat (Z.max 1 rems)) l) (pieces c) (pieces c').
Proof.
  revert rems c. induction l as [|p l IH]; intros rems c Hcl Hl; simpl.
  { exists c. split_and!; try done. rewrite take_nil. apply evicted_in_nil. }
  destruct (Hl p) as [Hp Hi]; [set_solver|]. unfold removePiece. rewrite Hcl.
  destruct (Release_evicts (Id p) c Hp Hi) as (c1&->&Hps&Hix&Hc1&Hr1&Hg1&Hpl1). cbn [mbind outcome_bind].
  assert (Hone : evicted_in [Id p] (pieces c) (pieces c1)).
  { intros id. rewrite Hps. destruct (decide (id = Id p)) as [->|].
    - rewrite lookup_alter_eq, decide_True by set_solver. done.
    - rewrite lookup_alter_ne, decide_False by set_solver. done. }
  destruct (rems - 1 <=? 0) eqn:E; reflect_bools.
  { exists c1. split_and!; try congruence. replace (Z.to_nat (Z.max 1 rems)) with 1%nat by lia. exact Hone. }
  destruct (IH (rems - 1) c1) as (c2&->&Hr2&Hg2&Hpl2&Hc2&Hix2&Hev).
  { congruence. }
  { intros q Hq. destruct (Hl q) as [Hq1 Hq2]; [set_solver|]. unfold is_index in *. rewrite Hix. split; [|done].
    rewrite Hone. case_decide; [by apply fmap_is_Some|done]. }
  exists c2. split_and!; try congruence. intros id. rewrite Hev, Hone.
  replace (Z.to_nat (Z.max 1 rems)) with (S (Z.to_nat (Z.max 1 (rems - 1)))) by lia. simpl.
  destruct (decide (id = Id p)) as [->|Hne].
  - rewrite (decide_True (P := Id p ∈ [Id p])), (decide_True (P := Id p ∈ Id p :: _)) by set_solver.
    case_decide; [|done]. rewrite <- option_fmap_compose. by destruct (pieces c !! Id p).
  - rewrite (decide_False (P := id ∈ [Id p])) by set_solver.
    set (t := Id <$> _). destruct (decide (id ∈ t)) as [Hin|Hni].
    + rewrite !decide_True by set_solver. done.
    + rewrite !decide_False by set_solver. done.
Qed.

(** The bytes held by a list of pieces. *)
Definition sizes (l : list Piece) : Z := foldr (λ p acc, Size p + acc) 0 l.

(** Evicting pieces frees the bytes they hold. *)
Lemma evicted_in_sum l m m' :
  NoDup (Id <$> l) → (∀ p, p ∈ l → m !! Id p = Some p ∧ 0 < Size p) → evicted_in (Id <$> l) m m' →
  map_sum size_held m' = map_sum size_held m - sizes l.
Proof.
  revert m. induction l as [|p l IH]; intros m Hnd Hf He; simpl in *.
  { assert (m' = m) as ->; [|lia]. apply map_eq. intros i. rewrite He. rewrite decide_False; [done|set_solver]. }
  apply NoDup_cons in Hnd as [Hni Hnd]. destruct (Hf p) as (Hp&Hs); [set_solver|].
  rewrite (IH (<[Id p := emptied p]> m)); [|done| |].
  - rewrite (map_sum_insert _ _ _ _ p) by done. unfold size_held, emptied. simpl.
    rewrite (proj2 (Z.ltb_lt 0 (Size p))) by lia. lia.
  - intros q Hq. rewrite lookup_insert_ne.
    + apply Hf. set_solver.
    + intros E. apply Hni. rewrite E. by apply list_elem_of_fmap_2.
  - intros i. rewrite He. destruct (decide (i = Id p)) as [->|].
    + rewrite lookup_insert_eq, Hp. rewrite (decide_True (P := Id p ∈ Id p :: _)) by set_solver.
      by rewrite (decide_False (P := Id p ∈ _)).
    + rewrite lookup_insert_ne by done. destruct (decide (i ∈ Id <$> l)).
      * by rewrite decide_True by set_solver.
      * by rewrite decide_False by set_solver.
Qed.
End Scan.

Section Clean.
Context `{!SliceSort range_less} `{!SliceSort accessed_less}.
Context (sets : BTSets).

(** A state in which the cleaner can run. *)
Record cleanable (c : Cache) : Prop := {
  cl_inv : Inv c;
  cl_open : isClosed c = false;
  cl_count : 0 <= pieceCount c;
  cl_conf : conf_ok sets c;
  cl_readers : readers_wf c;
}.

(** The pieces eviction may touch: complete, not empty, outside every reader's
    window and away from the protected ends of the files. *)
Definition may_evict (rs : list Range) (c : Cache) (id : Z) (p : Piece) : Prop :=
  pieces c !! id = Some p ∧ Complete p = true ∧ 0 < Size p ∧ covered rs id = false ∧
  isIdInFileBE (mergeRange rs) id c = false.

Lemma may_evict_index rs c id p : may_evict rs c id p → is_index c id = false.
Proof. intros (_&_&_&_&H). unfold isIdInFileBE in H. by apply orb_false_iff in H as [H _]. Qed.

Lemma evictable_may_evict rs bm c id p :
  pieces c !! id = Some p → idx bm id = Some (covered rs id) → len bm = len (isIndexPiece c) →
  evictable (mergeRange rs) bm c id p = true ↔ may_evict rs c id p.
Proof.
  intros Hp Hb Hl. unfold evictable, may_evict, pieceEvictable. rewrite Hb.
  rewrite (proj2 (Z.ltb_lt id (len bm))) by (apply idx_Some_lt in Hb; lia). simpl.
  rewrite !andb_true_iff, !negb_true_iff, Z.ltb_lt. naive_solver.
Qed.

Lemma scan_list_spec rs bm c order :
  (∀ id, id ∈ order → is_Some (pieces c !! id)) → (∀ id p, pieces c !! id = Some p → Id p = id) →
  (∀ id, id ∈ order → idx bm id = Some (covered rs id)) → len bm = len (isIndexPiece c) → pieceInRange c = bm →
  (∀ p, p ∈ scan_list (mergeRange rs) c order ↔ Id p ∈ order ∧ may_evict rs c (Id p) p).
Proof.
  intros Ho Hid Hbm Hl E p. unfold scan_list. rewrite list_elem_of_omap. rewrite E. split.
  - intros (id&Hin&Hx). destruct (pieces c !! id) as [q|] eqn:Hq; [|done]. simpl in Hx.
    destruct (evictable _ _ _ _ _) eqn:Ev; [|done]. injection Hx as <-. rewrite (Hid _ _ Hq).
    split; [done|]. by apply (evictable_may_evict rs bm) in Ev; [|done|apply Hbm|].
  - intros [Hin Hm]. exists (Id p). split; [done|]. pose proof Hm as (Hp&_). rewrite Hp. simpl.
    rewrite (proj2 (evictable_may_evict rs bm c (Id p) p Hp (Hbm _ Hin) Hl)); done.
Qed.

Lemma scan_list_ids ranges c order :
  NoDup order → (∀ id p, pieces c !! id = Some p → Id p = id) → NoDup (Id <$> scan_list ranges c order).
Proof.
  intros Hnd Hid. unfold scan_list. induction Hnd as [|id order Hni Hnd IH]; simpl; [constructor|].
  destruct (pieces c !! id) as [p|] eqn:Hp; simpl; [|done]. destruct (evictable _ _ _ _ _); [|done].
  simpl. constructor; [|done]. rewrite (Hid _ _ Hp). intros Hin. apply list_elem_of_fmap in Hin as (q&Hq&Hin).
  apply list_elem_of_omap in Hin as (id'&Hin&Hx). destruct (pieces c !! id') as [q'|] eqn:Hq'; [|done].
  simpl in Hx. destruct (evictable _ _ _ _ _); [|done]. injection Hx as ->. rewrite (Hid _ _ Hq') in Hq. congruence.
Qed.

Lemma setLoadPriority_frame c :
  Inv c → isClosed c = false → conf_ok sets c → readers_wf c →
  ∃ c', setLoadPriority sets c = Done c' ∧ prio_frame c c'.
Proof.
  intros [HM HU] Hcl Hcf Hwf. unfold setLoadPriority. destruct (torrent c); simpl; [|by exists c].
  rewrite (proj2 (Z.eqb_neq (pieceLength c) 0)) by (pose proof (mi_pl _ HM); lia).
  destruct (set_priorities_spec sets (registered c) c HM HU) as (c'&new&Hs&Hf&_);
    try done; [by rewrite (mi_open _ HM), Hcl|]. by exists c'.
Qed.

Definition order_ok (c : Cache) (order : list Z) : Prop := order ≡ₚ (map_to_list (pieces c)).*1.

Lemma order_ok_elem c order id : order_ok c order → id ∈ order ↔ is_Some (pieces c !! id).
Proof.
  unfold order_ok. intros ->. rewrite list_elem_of_fmap. split.
  - intros ([i p]&->&Hin%elem_of_map_to_list). by eexists.
  - intros [p Hp]. exists (id, p). split; [done|]. by apply elem_of_map_to_list.
Qed.

Lemma prio_static c c' : prio_frame c c' →
  pieces c' = pieces c ∧ readers c' = readers c ∧ registered c' = registered c ∧ capacity c' = capacity c ∧
  isClosed c' = isClosed c ∧ isIndexPiece c' = isIndexPiece c ∧ pieceLength c' = pieceLength c ∧
  (Inv c → Inv c') ∧ (conf_ok sets c → conf_ok sets c') ∧ (readers_wf c → readers_wf c') ∧
  readers_len c' = readers_len c ∧ readersOpen c' = readersOpen c ∧ piecesOpen c' = piecesOpen c.
Proof.
  intros (x&y&->). split_and!; try done. by apply quiet_inv.
Qed.

(** [clearPriority] after a pass over the readers at the same time. *)
Lemma clearPriority_settled now c :
  Inv c → isClosed c = false → (∀ rid, rid ∈ registered c → settled now c rid) →
  ∃ c', clearPriority sets now c = Done c' ∧ prio_frame c c'.
Proof.
  intros [HM HU] Hcl Hset. unfold clearPriority. destruct (_ || _); [by exists c|].
  destruct (collect_ranges_settled sets now (registered c) c) as [rs ->]; [apply HU|done|].
  cbn [mbind outcome_bind fst snd]. apply clear_loop_spec; [done|]. by rewrite (mi_open _ HM), Hcl.
Qed.

Record selected (c : Cache) (rs : list Range) (order : list Z) (l : list Piece) (c' : Cache) : Prop := {
  se_pieces : pieces c' = pieces c;
  se_closed : isClosed c' = false;
  se_index : isIndexPiece c' = isIndexPiece c;
  se_pl : pieceLength c' = pieceLength c;
  se_cap : capacity c' = capacity c;
  se_filled : filled c' = map_sum size_held (pieces c);
  se_list : ∀ p, p ∈ l ↔ may_evict rs c (Id p) p;
  se_nodup : NoDup (Id <$> l);
  se_sorted : Sorted (λ a b, accessed_less b a = false) l;
  se_readers : ∀ rid r, rid ∈ registered c' → readers c' !! rid = Some r → r_isUse r = true →
    covered rs (getReaderPiece r c') = true;
}.

Lemma getRemPieces_spec now order c :
  cleanable c → order_ok c order →
  ∃ rs c1 l c', collect_ranges sets now (registered c) c = Done (rs, c1) ∧
    getRemPieces sets now order c = Done (l, c') ∧ selected c rs order l c'.
Proof.
  intros [HI Hcl Hct Hcf Hwf] Hord. pose proof HI as [HM HU].
  destruct (collect_ranges_spec sets now (registered c) c HM HU Hcf) as (rs&c1&Hcr&Hco); [done..|].
  pose proof (collect_ranges_op _ _ _ _ _ _ Hcr) as (Hmv&Huv&_).
  destruct Hco. pose proof co_frame0 as (m&a&E1).
  assert (HM1 : MemInv c1) by (by eapply MemInv_view). assert (HU1 : UseInv c1) by auto.
  unfold getRemPieces. rewrite Hcl, (mi_open _ HM), (ui_open _ HU), Hcl. simpl orb. cbv iota.
  unfold rem_pieces_open. rewrite Hcr. cbn [mbind outcome_bind fst snd].
  assert (Hlen : len (pieceInRange c1) = pieceCount c1).
  { pose proof (mi_range _ HM1). assert (pieceCount c1 = pieceCount c) by (by subst c1). lia. }
  destruct (fillPieceInRange_spec (pieceInRange c1) (mergeRange rs) (pieceCount c1) Hlen) as (bm&->&Hbl&Hbk).
  cbn [mbind outcome_bind]. set (c2 := set_pieceInRange bm c1).
  assert (HI2 : Inv c2) by (apply (set_pieceInRange_inv bm c1); done).
  assert (Ep : pieces c2 = pieces c) by (by subst c1).
  rewrite (scan_pieces_spec (mergeRange rs) order c2) by (rewrite Ep; intros id; by apply order_ok_elem).
  cbn [mbind outcome_bind fst snd].
  destruct (clearPriority_settled now c2 HI2) as (c3&->&Hf3); [by subst c1|by subst c1|].
  cbn [mbind outcome_bind]. destruct (prio_static _ _ Hf3) as (P3&R3&G3&Cp3&Cl3&Ix3&Pl3&I3&Cf3&W3&_).
  destruct (setLoadPriority_frame c3) as (c4&->&Hf4); [auto|rewrite Cl3; by subst c1|apply Cf3; by subst c1|by apply W3|].
  cbn [mbind outcome_bind]. destruct (prio_static _ _ Hf4) as (P4&R4&G4&Cp4&Cl4&Ix4&Pl4&_).
  exists rs, c1. eexists _, _. split; [done|]. split; [reflexivity|].
  assert (Hid : ∀ id p, pieces c2 !! id = Some p → Id p = id).
  { intros id p Hp. by apply (MemInv_lookup c2 id p (inv_mem _ HI2)). }
  assert (Hbm : ∀ id, id ∈ order → idx bm id = Some (covered rs id)).
  { intros id Hin. apply (order_ok_elem _ _ _ Hord) in Hin. rewrite <- Ep in Hin.
    apply (mi_dom _ (inv_mem _ HI2)) in Hin. change (pieceCount c2) with (pieceCount c1) in Hin.
    unfold idx. rewrite (proj2 (Z.leb_le 0 id)) by lia. unfold len in Hlen.
    rewrite Hbk, Z2Nat.id, mergeRange_covered by (lia || done). done. }
  assert (Hil : len bm = len (isIndexPiece c2)).
  { pose proof (mi_range _ (inv_mem _ HI2)) as X. pose proof (mi_index _ (inv_mem _ HI2)).
    change (pieceInRange c2) with bm in X. lia. }
  pose proof (scan_list_spec rs bm c2 order) as Hsl.
  assert (Hm : ∀ id p, may_evict rs c2 id p ↔ may_evict rs c id p) by (intros; by subst c1).
  assert (Ec : isClosed c2 = false ∧ isIndexPiece c2 = isIndexPiece c ∧ pieceLength c2 = pieceLength c ∧
    capacity c2 = capacity c) by (by subst c1). destruct Ec as (Ec1&Ec2&Ec3&Ec4).
  split; cbn [pieces isClosed isIndexPiece pieceLength capacity filled set_filled]; try congruence.
  - rewrite Ep. symmetry. by apply map_sum_list.
  - intros p. rewrite (sort_slice_perm accessed_less). rewrite Hsl; try done.
    + rewrite Hm. split; [by intros [_ ?]|]. intros Hme. split; [|done]. apply (order_ok_elem _ _ _ Hord).
      destruct Hme as [Hp _]. by eexists.
    + intros id. rewrite Ep. by apply order_ok_elem.
  - rewrite (sort_slice_perm accessed_less). apply scan_list_ids; [|done].
    rewrite Hord. apply NoDup_fst_map_to_list.
  - apply sort_slice_sorted.
  - intros rid r Hin Hr Hu. cbn [registered readers set_filled] in Hin, Hr. rewrite G4, G3 in Hin. rewrite R4, R3 in Hr.
    change (getReaderPiece r (set_filled _ c4)) with (getPieceNum r (r_offset r) c4).
    unfold getPieceNum. rewrite Pl4, Pl3. apply (co_cover0 rid); [by subst c1|done|done].
Qed.
End Clean.

(** The fields the cleaner sets before the scan do not matter to the windows. *)
Definition scan_start (x : list Call) (y : gmap Z Z) (t : Z) (c : Cache) : Cache :=
  set_lastCleanNS t (set_isRemove true (set_calls x (set_localPriority y c))).

Lemma checkReader_scan_start x y t now rid c :
  checkReader now rid (scan_start x y t c) = scan_start x y t <$> checkReader now rid c.
Proof.
  unfold checkReader, readerOn, readerOff. change (readers (scan_start x y t c)) with (readers c).
  change (readers_len (scan_start x y t c)) with (readers_len c).
  destruct (readers c !! rid) as [r|]; [|done]. cbn [of_option mbind outcome_bind].
  by destruct (_ && _), (r_isUse r).
Qed.

Lemma collect_ranges_scan_start x y t sets now rids c :
  collect_ranges sets now rids (scan_start x y t c) =
  (λ r, (r.1, scan_start x y t r.2)) <$> collect_ranges sets now rids c.
Proof.
  revert c. induction rids as [|rid rest IH]; intros c; [done|]. cbn [collect_ranges].
  rewrite checkReader_scan_start. destruct (checkReader now rid c) as [c1| |]; [|done..].
  cbn [mbind outcome_bind fmap outcome_fmap]. change (readers (scan_start x y t c1)) with (readers c1).
  destruct (readers c1 !! rid) as [r|]; [|done]. cbn [of_option mbind outcome_bind].
  rewrite IH. destruct (collect_ranges sets now rest c1) as [[rs c2]| |]; [|done..]. done.
Qed.

Lemma collect_ranges_start sets now nowNS rids c c0 rs c1 :
  prio_frame c c0 →
  collect_ranges sets now rids (set_lastCleanNS nowNS (set_isRemove true c0)) = Done (rs, c1) →
  ∃ c1', collect_ranges sets now rids c = Done (rs, c1').
Proof.
  intros (x&y&->) H. change (set_lastCleanNS _ _) with (scan_start x y nowNS c) in H.
  rewrite collect_ranges_scan_start in H.
  destruct (collect_ranges sets now rids c) as [[rs' c']| |]; [|done..]. injection H as -> _. by eexists.
Qed.

Section CleanTheorems.
Context `{!SliceSort range_less} `{!SliceSort accessed_less}.

Lemma refreshPriorities_frame sets c :
  Inv c → isClosed c = false → conf_ok sets c → readers_wf c →
  ∃ c', refreshPriorities sets c = Done c' ∧ prio_frame c c'.
Proof.
  intros HI Hcl Hcf Hwf. unfold refreshPriorities. rewrite Hcl. destruct (_ || _); [by exists c|].
  by apply setLoadPriority_frame.
Qed.

(** How many pieces the cleaner gives up for the bytes held. *)
Definition victims (c : Cache) (held : Z) : nat :=
  if capacity c <? held then Z.to_nat (Z.quot (held - capacity c) (pieceLength c) + 1) else O.

Lemma sorted_take_drop n (l : list Piece) p q :
  Sorted (λ a b, accessed_less b a = false) l → p ∈ take n l → q ∈ drop n l → Accessed p <= Accessed q.
Proof.
  intros Hs Hp Hq. apply Sorted_StronglySorted in Hs.
  - rewrite <- (take_drop n l) in Hs. revert Hs Hp. generalize (take n l) as t, (drop n l) as d, Hq. clear.
    intros t d Hq. induction t as [|x t IH]; intros Hs Hp; [by apply not_elem_of_nil in Hp|].
    simpl in Hs. apply StronglySorted_inv in Hs as [Hs Hx]. apply elem_of_cons in Hp as [->|Hp]; [|auto].
    rewrite Forall_forall in Hx. specialize (Hx q). unfold accessed_less in Hx.
    assert (Accessed q <? Accessed x = false) by (apply Hx; set_solver). zlia.
  - intros a b e. unfold accessed_less. intros. zlia.
Qed.

Lemma cleanPieces_spec sets now nowNS order c :
  cleanable sets c → order_ok c order → isRemove c = false → 1000000000 <= nowNS - lastCleanNS c →
  ∃ c0 rs c1 l c2 c', prio_frame c c0 ∧
    collect_ranges sets now (registered c) (set_lastCleanNS nowNS (set_isRemove true c0)) = Done (rs, c1) ∧
    selected (set_lastCleanNS nowNS (set_isRemove true c0)) rs order l c2 ∧
    cleanPieces sets now nowNS true order c = Done c' ∧ isRemove c' = false ∧
    readers c' = readers c2 ∧ registered c' = registered c2 ∧ pieceLength c' = pieceLength c2 ∧
    evicted_in (Id <$> take (victims c (map_sum size_held (pieces c))) l) (pieces c) (pieces c').
Proof.
  intros [HI Hcl Hct Hcf Hwf] Hord Hrm Ht. pose proof HI as [HM HU].
  destruct (refreshPriorities_frame sets c HI Hcl Hcf Hwf) as (c0&Hr&Hf).
  pose proof (prio_static sets _ _ Hf) as (Ep&_&Eg&Ec&Ecl&_&Epl&HI0&Hcf0&Hwf0&_).
  set (ca := set_lastCleanNS nowNS (set_isRemove true c0)).
  assert (HIa : Inv ca) by (apply (quiet_inv c0); [done|auto]).
  assert (Hcla : cleanable sets ca).
  { split; [done|by simpl; rewrite Ecl|by destruct Hf as (?&?&->)|by apply Hcf0|by apply Hwf0]. }
  destruct (getRemPieces_spec sets now order ca Hcla) as (rs&c1&l&c2&Hco&Hg&Hse).
  { unfold order_ok. simpl. by rewrite Ep. }
  pose proof Hse as []. exists c0, rs, c1, l, c2.
  assert (Hl : ∀ p, p ∈ l → is_Some (pieces c2 !! Id p) ∧ is_index c2 (Id p) = false).
  { intros p Hp. apply se_list0 in Hp. split; [rewrite se_pieces0; destruct Hp as [Hp _]; by eexists|].
    apply may_evict_index in Hp. unfold is_index in *. by rewrite se_index0. }
  set (rems := Z.quot (filled c2 - capacity c2) (pieceLength c2) + 1).
  destruct (evict_spec l rems c2 se_closed0 Hl) as (c3&He&Hr3&Hg3&Hpl3&_&_&Hev).
  assert (Hv : victims c (map_sum size_held (pieces c)) = if capacity c2 <? filled c2 then Z.to_nat rems else O).
  { unfold victims, rems. rewrite se_filled0, se_cap0, se_pl0. simpl. by rewrite Ep, Ec, Epl. }
  unfold cleanPieces. rewrite Hrm, Hcl. simpl orb. cbv iota. rewrite Hr. cbn [mbind outcome_bind].
  assert (El : lastCleanNS c0 = lastCleanNS c) by (by destruct Hf as (?&?&->)). rewrite El.
  rewrite (proj2 (Z.ltb_ge _ _) Ht). simpl andb. simpl negb. cbv iota zeta. fold ca. rewrite Hg.
  cbn [mbind outcome_bind fst snd]. fold rems. rewrite Hv.
  destruct (capacity c2 <? filled c2) eqn:Eb; reflect_bools.
  - rewrite He. cbn [mbind outcome_bind]. eexists. split_and!; [done|by rewrite <- Eg|done|reflexivity|done..|].
    assert (1 <= rems).
    { unfold rems. pose proof (mi_pl _ (inv_mem _ HIa)). rewrite se_pl0.
      pose proof (Z.quot_pos (filled c2 - capacity c2) (pieceLength ca)). lia. }
    rewrite Z.max_r in Hev by done. rewrite se_pieces0 in Hev. simpl in Hev. by rewrite Ep in Hev.
  - cbn [mbind outcome_bind]. eexists. split_and!; [done|by rewrite <- Eg|done|reflexivity|done..|].
    rewrite take_0. simpl. rewrite se_pieces0. simpl. rewrite Ep. apply evicted_in_nil.
Qed.

(** C2: a cleaning pass over an open cache returns, whatever the iteration order of
    the pieces and the sorting algorithm, and is safe: every piece is left as it was
    or emptied, and an emptied piece was complete, was not an index piece and is not
    the piece in which any reader in use stands; nothing is emptied while the cache
    is within its capacity. *)
Theorem cleanPieces_safe sets now nowNS order c :
  cleanable sets c → order_ok c order → isRemove c = false → 1000000000 <= nowNS - lastCleanNS c →
  ∃ c', cleanPieces sets now nowNS true order c = Done c' ∧ isRemove c' = false ∧
    ∀ id p, pieces c !! id = Some p →
      pieces c' !! id = Some p ∨
      (pieces c' !! id = Some (emptied p) ∧ Complete p = true ∧ is_index c id = false ∧
       capacity c < map_sum size_held (pieces c) ∧
       ∀ rid r, rid ∈ registered c' → readers c' !! rid = Some r → r_isUse r = true →
         getReaderPiece r c' ≠ id).
Proof.
  intros Hc Hord Hrm Ht.
  destruct (cleanPieces_spec sets now nowNS order c Hc Hord Hrm Ht)
    as (c0&rs&c1&l&c2&c'&Hf&_&Hse&Hcp&Hrm'&Hr&Hg&Hpl&Hev).
  exists c'. split_and!; [done..|]. intros id p Hp. rewrite Hev, Hp.
  case_decide as Hin; [|by left]. right. destruct Hse.
  pose proof (prio_static sets _ _ Hf) as (Ep&_&_&_&_&Ei&_).
  apply list_elem_of_fmap in Hin as (q&->&Hin). unfold victims in Hin.
  destruct (capacity c <? _) eqn:Eb; [|rewrite take_0 in Hin; by apply not_elem_of_nil in Hin].
  reflect_bools. apply elem_of_take in Hin as (i&Hi&_). apply list_elem_of_lookup_2, se_list0 in Hi.
  pose proof (may_evict_index _ _ _ _ Hi) as Hidx. destruct Hi as (Hq&Hcq&_&Hnc&_).
  simpl in Hq. rewrite Ep, Hp in Hq. injection Hq as ->.
  split_and!; [done|done| |done|].
  - unfold is_index in *. simpl in Hidx. by rewrite Ei in Hidx.
  - intros rid r Hin Hrd Hu Heq. rewrite Hg in Hin. rewrite Hr in Hrd.
    pose proof (se_readers0 rid r Hin Hrd Hu) as Hcov. unfold getReaderPiece, getPieceNum in *.
    rewrite Hpl in Heq. rewrite Heq in Hcov. congruence.
Qed.

(** The number is the full pieces that fit in the excess, plus one. *)
Lemma victims_count c held : 0 < pieceLength c →
  (held <= capacity c → victims c held = O) ∧
  (capacity c < held → (Z.of_nat (victims c held) - 1) * pieceLength c <= held - capacity c
     < Z.of_nat (victims c held) * pieceLength c).
Proof.
  intros Hpl. unfold victims. destruct (capacity c <? held) eqn:Eb; reflect_bools; [|split; lia].
  split; [lia|]. intros _. pose proof (Z.quot_pos (held - capacity c) (pieceLength c)).
  rewrite Z2Nat.id, Z.quot_div_nonneg by lia.
  pose proof (Z.div_mod (held - capacity c) (pieceLength c)).
  pose proof (Z.mod_pos_bound (held - capacity c) (pieceLength c)). nia.
Qed.

(** C3: a cleaning pass gives up a fixed number of the least recently used evictable
    pieces.  With [rs] the windows of the readers in use, [l] the evictable pieces and
    [n] the number of full pieces that fit in the excess over the capacity, plus one:
    the first [n] of [l] are emptied and nothing else; every piece kept from [l] was
    used at least as recently as every piece given up; what is held shrinks by
    exactly the bytes of the pieces given up; and afterwards either no evictable piece
    is left, or the cache exceeds its capacity by at most what the pieces given up
    were short of full ones, so not at all when all of them were full; the short last
    piece of the torrent is the one that may make the difference. *)
Theorem cleanPieces_progress sets now nowNS order c :
  cleanable sets c → order_ok c order → isRemove c = false → 1000000000 <= nowNS - lastCleanNS c →
  ∃ c' rs l, cleanPieces sets now nowNS true order c = Done c' ∧
    (∃ c1, collect_ranges sets now (registered c) c = Done (rs, c1)) ∧
    let held := map_sum size_held (pieces c) in
    let n := victims c held in
    (∀ p, p ∈ l ↔ may_evict rs c (Id p) p) ∧ NoDup (Id <$> l) ∧
    (held <= capacity c → n = O) ∧
    (capacity c < held →
       (Z.of_nat n - 1) * pieceLength c <= held - capacity c < Z.of_nat n * pieceLength c) ∧
    evicted_in (Id <$> take n l) (pieces c) (pieces c') ∧
    (∀ p q, p ∈ take n l → q ∈ drop n l → Accessed p <= Accessed q) ∧
    map_sum size_held (pieces c') = held - sizes (take n l) ∧
    (drop n l = [] ∨
     map_sum size_held (pieces c') <=
       capacity c + (Z.of_nat (length (take n l)) * pieceLength c - sizes (take n l))).
Proof.
  intros Hc Hord Hrm Ht.
  destruct (cleanPieces_spec sets now nowNS order c Hc Hord Hrm Ht)
    as (c0&rs&c1&l&c2&c'&Hf&Hcr&Hse&Hcp&_&_&_&_&Hev).
  exists c', rs, l. split; [done|]. split; [by eapply collect_ranges_start|]. cbv zeta.
  pose proof (mi_pl _ (inv_mem _ (cl_inv _ _ Hc))) as Hpl.
  destruct (victims_count c (map_sum size_held (pieces c)) Hpl) as [Hn0 Hn1].
  set (n := victims c _) in *. destruct Hse.
  assert (Hl : ∀ p, p ∈ l ↔ may_evict rs c (Id p) p).
  { intros p. rewrite se_list0. by destruct Hf as (?&?&->). }
  assert (Hsum : map_sum size_held (pieces c') = map_sum size_held (pieces c) - sizes (take n l)).
  { apply evicted_in_sum; [| |done].
    - rewrite <- (take_drop n l) in se_nodup0. rewrite fmap_app in se_nodup0.
      by apply NoDup_app in se_nodup0 as [? _].
    - intros p Hin. apply elem_of_take in Hin as (i&Hi&_).
      by apply list_elem_of_lookup_2, Hl in Hi as (?&?&?&_). }
  split_and!; [done..|by intros; apply (sorted_take_drop n l)|done|].
  destruct (decide (length l <= n)%nat); [left; by apply drop_ge|right]. rewrite Hsum, length_take.
  replace (Nat.min n _) with n by lia.
  destruct (Z.le_gt_cases (map_sum size_held (pieces c)) (capacity c)) as [Hle|Hgt]; [|specialize (Hn1 Hgt); lia].
  rewrite (Hn0 Hle), take_0. simpl. lia.
Qed.
End CleanTheorems.

(** ** Three full pieces in a cache of two *)

Definition fill (id t : Z) (c : Cache) : Cache :=
  match WriteAt id [1; 2; 3; 4] 0 t c with
  | Done (_, c1) => match MarkComplete tiny_sets true id c1 with Done c2 => c2 | _ => c end
  | _ => c
  end.

Definition full_cache : Cache := fill 2 101 (fill 1 102 (fill 0 100 tiny_cache)).

Lemma fill_Inv id t c : Inv c → Inv (fill id t c).
Proof.
  intros H. unfold fill. destruct (WriteAt _ _ _ _ _) as [[n c1]| |] eqn:Ew; [|done..].
  destruct (MarkComplete _ _ _ c1) as [c2| |] eqn:Em; [|done..].
  eapply MarkComplete_inv; [apply Em|]. revert H. apply mem_op_inv. intros HM.
  by destruct (WriteAt_MemInv _ _ _ _ _ _ _ HM Ew) as (?&?&_).
Qed.

Lemma accessed_less_asym a b : accessed_less a b = true → accessed_less b a = false.
Proof. unfold accessed_less. intros H. apply Z.ltb_lt in H. apply Z.ltb_ge. lia. Qed.

Lemma full_cleanable : cleanable tiny_sets full_cache.
Proof.
  split.
  - do 3 apply fill_Inv. apply tiny_Inv.
  - by vm_compute.
  - by vm_compute.
  - unfold conf_ok. vm_compute. intuition congruence.
  - intros rid r Hin _. assert (registered full_cache = []) as E by (by vm_compute).
    rewrite E in Hin. by apply not_elem_of_nil in Hin.
Qed.

Lemma full_order : order_ok full_cache [1; 2; 0].
Proof.
  unfold order_ok. assert ((map_to_list (pieces full_cache)).*1 = [2; 1; 0]) as -> by (by vm_compute).
  apply Permutation_swap.
Qed.

Definition full_piece (t : Z) (id : Z) : Piece := mkPiece id 4 true t (Some [1; 2; 3; 4]).

Lemma cleanPieces_safe_witness :
  let S1 := insertion_slice_sort range_less range_less_asym in
  let S2 := insertion_slice_sort accessed_less accessed_less_asym in
  ∃ c', cleanPieces tiny_sets 200 2000000000 true [1; 2; 0] full_cache = Done c' ∧
    (pieces c' !! 0 = Some (full_piece 100 0) ∨ pieces c' !! 0 = Some (emptied (full_piece 100 0))).
Proof.
  intros S1 S2.
  destruct (cleanPieces_safe tiny_sets 200 2000000000 [1; 2; 0] full_cache full_cleanable full_order)
    as (c'&Hc&_&Hs); [by vm_compute|by vm_compute|]. exists c'. split; [exact Hc|].
  destruct (Hs 0 (full_piece 100 0)) as [?|[? _]]; [by vm_compute|by left|by right].
Defined.

Lemma cleanPieces_progress_witness :
  let S1 := insertion_slice_sort range_less range_less_asym in
  let S2 := insertion_slice_sort accessed_less accessed_less_asym in
  ∃ c' rs l, cleanPieces tiny_sets 200 2000000000 true [1; 2; 0] full_cache = Done c' ∧
    (∃ c1, collect_ranges tiny_sets 200 (registered full_cache) full_cache = Done (rs, c1)) ∧
    victims full_cache (map_sum size_held (pieces full_cache)) = 2%nat ∧
    evicted_in (Id <$> take 2 l) (pieces full_cache) (pieces c').
Proof.
  intros S1 S2.
  destruct (cleanPieces_progress tiny_sets 200 2000000000 [1; 2; 0] full_cache full_cleanable full_order)
    as (c'&rs&l&Hc&Hcr&_&_&_&_&Hev&_); [by vm_compute|by vm_compute|].
  exists c', rs, l. split; [exact Hc|]. split; [exact Hcr|]. split; [by vm_compute|exact Hev].
Defined.
