(* ===== verification/Shield.v ===== *)
(** * The adaptive shield ([server/torr/storage/torrstor/piece.go])

    Process-wide state that switches streaming from FAST (responsive) to STRICT
    mode after repeated corruption and back after a clean streak.  The state is five
    atomic variables and the watchdog goroutines that watch them.

    [make_move] interleaves the single atomic accesses of any number of concurrent
    reports, resets and watchdogs, as the Go scheduler may.  [shield_orderly] is about
    runs in which reports overlap freely but a reset, or a watchdog that clears, does
    not overlap anything; [shield_race] is a run outside of them that goes wrong.
    [MarkNotComplete], [ResetShield] and [watchdog] are the same operations run to
    their end, for the code that calls them; [atomic_run] shows that each is one of
    the schedules. *)

From S2P Require Import Prelude GoFloat Ranges CacheState.

Record Shield := mkShield {
  lastCorruptionUnix : Z;
  shieldActive : bool;
  isWatchdogRunning : bool;
  staticCorruptionCount : Z;
  strictCycleCount : Z;
  watchdogs : nat; (* goroutines alive *)
}.

Definition strictEscalationCapSeconds : Z := 1800.

Definition IsResponsive (responsiveMode : bool) (s : Shield) : bool := responsiveMode && negb (shieldActive s).

Definition set_last (t : Z) (s : Shield) : Shield :=
  mkShield t (shieldActive s) (isWatchdogRunning s) (staticCorruptionCount s) (strictCycleCount s) (watchdogs s).
Definition set_active (b : bool) (s : Shield) : Shield :=
  mkShield (lastCorruptionUnix s) b (isWatchdogRunning s) (staticCorruptionCount s) (strictCycleCount s) (watchdogs s).
Definition set_flag (b : bool) (s : Shield) : Shield :=
  mkShield (lastCorruptionUnix s) (shieldActive s) b (staticCorruptionCount s) (strictCycleCount s) (watchdogs s).
Definition set_count (n : Z) (s : Shield) : Shield :=
  mkShield (lastCorruptionUnix s) (shieldActive s) (isWatchdogRunning s) n (strictCycleCount s) (watchdogs s).
Definition set_cycle (n : Z) (s : Shield) : Shield :=
  mkShield (lastCorruptionUnix s) (shieldActive s) (isWatchdogRunning s) (staticCorruptionCount s) n (watchdogs s).
Definition set_watchdogs (n : nat) (s : Shield) : Shield :=
  mkShield (lastCorruptionUnix s) (shieldActive s) (isWatchdogRunning s) (staticCorruptionCount s) (strictCycleCount s) n.

Definition ResetShield (s : Shield) : Shield := set_count 0 (set_flag false (set_active false s)).

(** The counting part of a corruption event. *)
Definition count_corruption (responsiveMode : bool) (s : Shield) : Shield :=
  if responsiveMode && negb (shieldActive s) then
    let count := i32 (staticCorruptionCount s + 1) in
    let s := set_count count s in
    if 1 <? count then set_active true (set_cycle (i32 (strictCycleCount s + 1)) s) else s
  else s.

(** The start of a watchdog, unless one is flagged as running. *)
Definition start_watchdog (s : Shield) : Shield :=
  if (1 <=? staticCorruptionCount s) && negb (isWatchdogRunning s)
  then set_watchdogs (S (watchdogs s)) (set_flag true s) else s.

Definition corruption (responsiveMode : bool) (now : Z) (s : Shield) : Shield :=
  start_watchdog (count_corruption responsiveMode (set_last now s)).

(** [Piece.MarkNotComplete]: a piece without data was evicted, not corrupted. *)
Definition MarkNotComplete (responsiveMode : bool) (id now : Z) (c : Cache) (s : Shield) : outcome (Cache * Shield) :=
  p ← of_option (pieces c !! id);
  let c := upd_piece id (p_set_Complete false) c in
  match buffer p with
  | None => Done (c, s)
  | Some _ => Done (c, corruption responsiveMode now s)
  end.

(** The clean streak asked for, in nanoseconds; [30*cycle] is an [int32] product. *)
Definition clean_needed (cycle : Z) : Z :=
  let n := i32 (30 * cycle) * 1000000000 in
  let n := if n <? 30000000000 then 30000000000 else n in
  if strictEscalationCapSeconds * 1000000000 <? n then strictEscalationCapSeconds * 1000000000 else n.

Definition streak_over (nowNS : Z) (s : Shield) : bool :=
  clean_needed (strictCycleCount s) <? nowNS - lastCorruptionUnix s * 1000000000.

(** One round of a watchdog; it ends once the streak is over. *)
Definition watchdog (nowNS : Z) (s : Shield) : Shield :=
  if streak_over nowNS s
  then set_watchdogs (pred (watchdogs s)) (set_flag false (set_cycle 0 (set_count 0 (set_active false s))))
  else s.

(** ** Operations run to their end *)

Inductive event :=
| Corruption (responsiveMode : bool) (now : Z)
| Reset
| Tick (nowNS : Z).

(** A tick needs a watchdog to be alive. *)
Definition run_event (e : event) (s : Shield) : Shield :=
  match e with
  | Corruption m now => corruption m now s
  | Reset => ResetShield s
  | Tick t => match watchdogs s with O => s | S _ => watchdog t s end
  end.

Definition run (es : list event) (s : Shield) : Shield := foldl (λ s e, run_event e s) s es.

Definition initial : Shield := mkShield 0 false false 0 0 0.

Definition is_i32 (z : Z) : Prop := -2147483648 <= z < 2147483648.

Lemma i32_range z : is_i32 (i32 z).
Proof. unfold is_i32, i32. pose proof (Z.mod_pos_bound (z + 2147483648) 4294967296). lia. Qed.

Lemma clean_needed_range cycle : 30000000000 <= clean_needed cycle <= 1800000000000.
Proof. unfold clean_needed, strictEscalationCapSeconds. repeat split_if; lia. Qed.

(** What the coarse operations keep: a watchdog is there whenever one is needed. *)
Record shield_ok (s : Shield) : Prop := {
  so_flag : isWatchdogRunning s = true → (0 < watchdogs s)%nat;
  so_active : shieldActive s = true → isWatchdogRunning s = true;
  so_count : 1 <= staticCorruptionCount s → isWatchdogRunning s = true;
  so_pos : 0 <= staticCorruptionCount s <= 2;
  so_strict : shieldActive s = true ↔ staticCorruptionCount s = 2;
}.

Lemma corruption_ok m now s : shield_ok s → shield_ok (corruption m now s).
Proof.
  intros [Hf Ha Hc Hp Hs]. unfold corruption, count_corruption. simpl.
  destruct (m && negb (shieldActive s)) eqn:E.
  - apply andb_true_iff in E as [_ E]. apply negb_true_iff in E. rewrite E in Hs.
    assert (staticCorruptionCount s <> 2) by (intros X; by apply Hs in X).
    rewrite i32_id by lia. split_if; unfold start_watchdog; simpl.
    + rewrite (proj2 (Z.leb_le 1 _)) by lia. destruct (isWatchdogRunning s) eqn:Ef; split; simpl; rewrite ?Ef; auto;
        try lia; try (split; lia).
    + rewrite (proj2 (Z.leb_le 1 _)) by lia. destruct (isWatchdogRunning s) eqn:Ef; split; simpl; rewrite ?Ef, ?E; auto;
        try lia; try (split; [done|lia]).
  - unfold start_watchdog. simpl. destruct ((1 <=? _) && _); split; simpl; auto; lia.
Qed.

Lemma run_event_ok e s : shield_ok s → shield_ok (run_event e s).
Proof.
  intros H. destruct e as [m now| |t]; simpl.
  - by apply corruption_ok.
  - destruct H. split; simpl; try done; lia.
  - destruct (watchdogs s) eqn:E; [done|]. unfold watchdog. destruct (streak_over t s); [|done].
    split; simpl; try done; lia.
Qed.

Lemma run_ok es s : shield_ok s → shield_ok (run es s).
Proof. revert s. induction es as [|e es IH]; intros s H; simpl; [done|]. apply IH, run_event_ok, H. Qed.

Lemma initial_ok : shield_ok initial.
Proof. split; simpl; try done; lia. Qed.

(** ** Properties of the operations *)

(** Operations one after another: over every sequence of whole corruption reports,
    resets and watchdog rounds, STRICT mode is on exactly when two corruptions were counted, one corruption
    never turns it on, and whenever STRICT is on or a corruption is pending a
    watchdog is alive to clear it. *)
Theorem shield_guarded (es : list event) :
  let s := run es initial in
  (shieldActive s = true ↔ staticCorruptionCount s = 2) ∧ 0 <= staticCorruptionCount s <= 2 ∧
  (shieldActive s = true ∨ 1 <= staticCorruptionCount s → (0 < watchdogs s)%nat) ∧
  (IsResponsive true s = false → staticCorruptionCount s = 2).
Proof.
  cbv zeta. destruct (run_ok es initial initial_ok) as [Hf Ha Hc Hp Hs]. split_and!; try apply Hs; try lia.
  - intros [H|H]; auto.
  - unfold IsResponsive. simpl. rewrite negb_false_iff. apply Hs.
Qed.

(** STRICT mode cannot outlast the corruption by more than the escalation cap:
    half an hour after the last report one round of the watchdog restores FAST mode
    and clears every counter; before the streak asked for is over, a round changes
    nothing. *)
Theorem shield_recovers (es : list event) (nowNS : Z) :
  let s := run es initial in
  let s' := run_event (Tick nowNS) s in
  (shieldActive s = true → 1800000000000 < nowNS - lastCorruptionUnix s * 1000000000 →
     IsResponsive true s' = true ∧ staticCorruptionCount s' = 0 ∧ strictCycleCount s' = 0 ∧
     isWatchdogRunning s' = false) ∧
  (nowNS - lastCorruptionUnix s * 1000000000 <= 30000000000 → s' = s).
Proof.
  cbv zeta. destruct (run_ok es initial initial_ok) as [Hf Ha Hc Hp Hs]. set (s := run es initial) in *.
  pose proof (clean_needed_range (strictCycleCount s)). simpl. split.
  - intros Hact Ht. destruct (watchdogs s) eqn:Ew; [pose proof (Hf (Ha Hact)); lia|].
    unfold watchdog, streak_over. rewrite (proj2 (Z.ltb_lt _ _)) by lia. done.
  - intros Ht. destruct (watchdogs s); [done|]. unfold watchdog, streak_over.
    by rewrite (proj2 (Z.ltb_ge _ _)) by lia.
Qed.

(** The streak asked for escalates by 30 seconds per cycle from 30 seconds to
    the cap of 30 minutes, and stays between the two for every value of the 32-bit
    cycle counter, also where the product wraps around. *)
Theorem clean_needed_escalates (cycle : Z) :
  30000000000 <= clean_needed cycle <= 1800000000000 ∧
  (1 <= cycle <= 71582788 → clean_needed cycle = Z.min (30 * cycle) 1800 * 1000000000).
Proof.
  split; [apply clean_needed_range|]. intros Hc. unfold clean_needed, strictEscalationCapSeconds.
  rewrite i32_id by lia. cbv zeta.
  destruct (30 * cycle * 1000000000 <? 30000000000) eqn:E1; reflect_bools.
  { split_if; lia. }
  split_if; lia.
Qed.

(** ** Single atomic accesses *)

(** Where a call stands: [MarkNotComplete] past the buffer check, or [ResetShield]. *)
Inductive caller :=
| CLast (* about to store the time *)
| CLoad (* about to load [shieldActive] *)
| CAdd (* about to add to [staticCorruptionCount] *)
| CCycle (* about to add to [strictCycleCount] *)
| CActive (* about to set [shieldActive] *)
| CCheck (* about to load [staticCorruptionCount] *)
| CSwap (* about to swap [isWatchdogRunning] *)
| RActive (* about to clear [shieldActive] *)
| RFlag (* about to clear [isWatchdogRunning] *)
| RCount. (* about to clear [staticCorruptionCount] *)

(** Where a watchdog stands. *)
Inductive dog :=
| DSleep (* about to load the time of the last report and to take the time since *)
| DCycleLoad (elapsed : Z) (* about to load the cycle *)
| DActive (* the streak is over; about to clear [shieldActive] *)
| DCount (* about to clear the count *)
| DCycle (* about to clear the cycle *)
| DFlag. (* about to clear the flag and end *)

Record config := mkConfig { cf_s : Shield; cf_callers : list caller; cf_dogs : list dog }.

(** The next access of a call: the new state, where it goes, and whether it starts
    a watchdog. *)
Definition caller_step (m : bool) (now : Z) (k : caller) (s : Shield) : Shield * option caller * bool :=
  match k with
  | CLast => (set_last now s, Some (if m then CLoad else CCheck), false)
  | CLoad => (s, Some (if shieldActive s then CCheck else CAdd), false)
  | CAdd => let n := i32 (staticCorruptionCount s + 1) in
            (set_count n s, Some (if 1 <? n then CCycle else CCheck), false)
  | CCycle => (set_cycle (i32 (strictCycleCount s + 1)) s, Some CActive, false)
  | CActive => (set_active true s, Some CCheck, false)
  | CCheck => (s, if 1 <=? staticCorruptionCount s then Some CSwap else None, false)
  | CSwap => if isWatchdogRunning s then (s, None, false)
             else (set_watchdogs (S (watchdogs s)) (set_flag true s), None, true)
  | RActive => (set_active false s, Some RFlag, false)
  | RFlag => (set_flag false s, Some RCount, false)
  | RCount => (set_count 0 s, None, false)
  end.

Definition dog_step (nowNS : Z) (d : dog) (s : Shield) : Shield * option dog :=
  match d with
  | DSleep => (s, Some (DCycleLoad (nowNS - lastCorruptionUnix s * 1000000000)))
  | DCycleLoad elapsed => (s, Some (if clean_needed (strictCycleCount s) <? elapsed then DActive else DSleep))
  | DActive => (set_active false s, Some DCount)
  | DCount => (set_count 0 s, Some DCycle)
  | DCycle => (set_cycle 0 s, Some DFlag)
  | DFlag => (set_watchdogs (pred (watchdogs s)) (set_flag false s), None)
  end.

Definition replace_at {A} (i : nat) (o : option A) (l : list A) : list A :=
  match o with Some x => <[i := x]> l | None => delete i l end.

(** What the scheduler lets happen next: a call of [MarkNotComplete] or of
    [ResetShield] comes in, or one of the calls or watchdogs makes its next access. *)
Inductive move :=
| Report
| Stop
| Go (i : nat) (m : bool) (now : Z)
| Wake (i : nat) (nowNS : Z).

Definition make_move (mv : move) (c : config) : option config :=
  let '(mkConfig s ks ds) := c in
  match mv with
  | Report => Some (mkConfig s (ks ++ [CLast]) ds)
  | Stop => Some (mkConfig s (ks ++ [RActive]) ds)
  | Go i m now =>
      k ← ks !! i;
      let '(s', k', b) := caller_step m now k s in
      Some (mkConfig s' (replace_at i k' ks) (if b then ds ++ [DSleep] else ds))
  | Wake i nowNS =>
      d ← ds !! i;
      let '(s', d') := dog_step nowNS d s in
      Some (mkConfig s' ks (replace_at i d' ds))
  end.

Definition fstep (c c' : config) : Prop := ∃ mv, make_move mv c = Some c'.

(** A run in which every configuration on the way is one that [ok] admits. *)
Fixpoint play (ok : config → bool) (mvs : list move) (c : config) : option config :=
  match mvs with
  | [] => Some c
  | mv :: mvs =>
      c' ← make_move mv c;
      if ok c' then play ok mvs c' else None
  end.

Lemma fs_caller m now s ks ds i k s' k' b :
  ks !! i = Some k → caller_step m now k s = (s', k', b) →
  fstep (mkConfig s ks ds) (mkConfig s' (replace_at i k' ks) (if b then ds ++ [DSleep] else ds)).
Proof. intros Hk Hs. exists (Go i m now). simpl. rewrite Hk. simpl. by rewrite Hs. Qed.

Lemma fs_dog nowNS s ks ds i d s' d' :
  ds !! i = Some d → dog_step nowNS d s = (s', d') →
  fstep (mkConfig s ks ds) (mkConfig s' ks (replace_at i d' ds)).
Proof. intros Hd Hs. exists (Wake i nowNS). simpl. rewrite Hd. simpl. by rewrite Hs. Qed.

(** A caller alone, to its end: the state and the watchdogs it started. *)
Fixpoint run_caller (fuel : nat) (m : bool) (now : Z) (k : caller) (s : Shield) : option (Shield * list dog) :=
  match fuel with
  | O => None
  | S fuel =>
      let '(s', k', b) := caller_step m now k s in
      let new := if b then [DSleep] else [] in
      match k' with
      | Some k' => (λ r, (r.1, new ++ r.2)) <$> run_caller fuel m now k' s'
      | None => Some (s', new)
      end
  end.

Lemma run_caller_corruption m now s :
  ∃ ds, run_caller 7 m now CLast s = Some (corruption m now s, ds) ∧
    length ds = (watchdogs (corruption m now s) - watchdogs s)%nat.
Proof.
  unfold corruption, count_corruption, start_watchdog. destruct s as [la ac fl ct cy w]. simpl.
  assert (Hf : ∀ (b f : bool), (b && negb f = true ∧ b = true ∧ f = false) ∨
    (b && negb f = false ∧ (b = false ∨ (b = true ∧ f = true)))) by (intros [] []; auto).
  destruct m, ac; simpl; try destruct (1 <? i32 (ct + 1)); simpl;
    match goal with |- context [1 <=? ?n] => destruct (1 <=? n) end; destruct fl; simpl;
    eexists; (split; [reflexivity|simpl; lia]).
Qed.

(** One access of the last caller. *)
Lemma last_step m now k s ks ds s' k' b :
  caller_step m now k s = (s', k', b) →
  fstep (mkConfig s (ks ++ [k]) ds)
    (mkConfig s' (ks ++ option_list k') (ds ++ (if b then [DSleep] else []))).
Proof.
  intros H. assert (E : ks ++ option_list k' = replace_at (length ks) k' (ks ++ [k])).
  { destruct k' as [k'|]; simpl.
    - rewrite insert_app_r_alt, Nat.sub_diag by lia. done.
    - by rewrite delete_middle. }
  rewrite E. assert (Ed : ds ++ (if b then [DSleep] else []) = if b then ds ++ [DSleep] else ds)
    by (destruct b; by rewrite ?app_nil_r).
  rewrite Ed. eapply fs_caller; [|done]. by rewrite lookup_app_r, Nat.sub_diag by lia.
Qed.

Lemma run_caller_steps fuel m now k s ks ds s' new :
  run_caller fuel m now k s = Some (s', new) →
  rtc fstep (mkConfig s (ks ++ [k]) ds) (mkConfig s' ks (ds ++ new)).
Proof.
  revert k s ds new. induction fuel as [|fuel IH]; intros k s ds new H; [done|]. simpl in H.
  destruct (caller_step m now k s) as [[s1 k1] b] eqn:E. pose proof (last_step m now k s ks ds _ _ _ E) as Hst.
  destruct k1 as [k1|]; simpl in Hst.
  - destruct (run_caller fuel m now k1 s1) as [[s2 new2]|] eqn:E2; [|done]. simpl in H. injection H as <- <-.
    eapply rtc_l; [apply Hst|]. rewrite app_assoc. by apply IH.
  - injection H as <- <-. rewrite app_nil_r in Hst. by apply rtc_once.
Qed.

(** The rounds of a sleeping watchdog, alone. *)
Lemma dog_steps nowNS s ks ds :
  rtc fstep (mkConfig s ks (DSleep :: ds))
    (mkConfig (watchdog nowNS s) ks (if streak_over nowNS s then ds else DSleep :: ds)).
Proof.
  unfold watchdog.
  assert (H : ∀ d d' s s', dog_step nowNS d s = (s', d') →
    fstep (mkConfig s ks (d :: ds)) (mkConfig s' ks (option_list d' ++ ds))).
  { intros d d' s1 s2 Hd. assert (option_list d' ++ ds = replace_at 0 d' (d :: ds)) as -> by (by destruct d').
    by apply (fs_dog nowNS s1 ks (d :: ds) 0 d). }
  eapply rtc_l; [by apply (H DSleep (Some (DCycleLoad (nowNS - lastCorruptionUnix s * 1000000000))))|].
  destruct (streak_over nowNS s) eqn:E; unfold streak_over in E;
    [|apply rtc_once, (H _ (Some DSleep)); simpl; by rewrite E].
  eapply rtc_l; [apply (H _ (Some DActive)); simpl; by rewrite E|].
  eapply rtc_l; [by apply (H DActive (Some DCount))|].
  eapply rtc_l; [apply (H DCount (Some DCycle)); done|].
  eapply rtc_l; [apply (H DCycle (Some DFlag)); done|].
  by apply rtc_once, (H DFlag None).
Qed.

(** Running [MarkNotComplete] or [ResetShield] to its end is one of the schedules of
    the interleaved model, and so is a round of a watchdog. *)
Theorem atomic_run m now nowNS s ks ds :
  (∃ new, rtc fstep (mkConfig s ks ds) (mkConfig (corruption m now s) ks (ds ++ new)) ∧
     length new = (watchdogs (corruption m now s) - watchdogs s)%nat) ∧
  rtc fstep (mkConfig s ks (DSleep :: ds))
    (mkConfig (watchdog nowNS s) ks (if streak_over nowNS s then ds else DSleep :: ds)) ∧
  rtc fstep (mkConfig s ks ds) (mkConfig (ResetShield s) ks ds).
Proof.
  split_and!; [|apply dog_steps|].
  2:{ eapply rtc_l; [by exists Stop|]. rewrite <- (app_nil_r ds) at 2.
      by apply (run_caller_steps 3 m now RActive). }
  destruct (run_caller_corruption m now s) as (new&Hr&Hl). exists new. split; [|done].
  eapply rtc_l; [by exists Report|]. by eapply run_caller_steps.
Qed.

Definition start : config := mkConfig initial [] [].

(** Single accesses interleave badly.  A watchdog that has cleared the count but
    not yet its flag lets two corruption reports through that see the flag and start
    no watchdog of their own; STRICT mode is then on with no watchdog alive, and
    stays on until the next report or reset. *)
Theorem shield_race :
  let first := Report :: repeat (Go 0 true 0) 5 in
  let second := Report :: repeat (Go 0 true 40) 5 in
  let third := Report :: repeat (Go 0 true 41) 7 in
  let round := repeat (Wake 0 40000000000) in
  ∃ s, play (λ _, true) (first ++ round 5%nat ++ second ++ third ++ round 1%nat) start = Some (mkConfig s [] []) ∧
    shieldActive s = true ∧ watchdogs s = O ∧ isWatchdogRunning s = false.
Proof. eexists. split; [by vm_compute|done]. Qed.

(** ** Runs in which reports overlap freely *)

Definition resets (k : caller) : bool := match k with RActive | RFlag | RCount => true | _ => false end.

(** A watchdog that has found its streak over and is clearing the state. *)
Definition clears (d : dog) : bool := match d with DCount | DCycle | DFlag => true | _ => false end.

Definition how_many {A} (p : A → bool) (l : list A) : Z := foldr (λ x acc, Z.b2z (p x) + acc) 0 l.

(** Reports overlap as they like, up to the range of the counter, and with
    watchdogs that wait; only a reset, and a watchdog that clears, are alone. *)
Definition orderly (c : config) : bool :=
  (len (cf_callers c) <? 2147483647) &&
  ((how_many resets (cf_callers c) + how_many clears (cf_dogs c) =? 0) ||
   (len (cf_callers c) + how_many clears (cf_dogs c) <=? 1)).

(** No call is under way and no watchdog is clearing. *)
Definition at_rest (c : config) : bool :=
  (len (cf_callers c) =? 0) && (how_many clears (cf_dogs c) =? 0).

Section Tally.
Context {A : Type} (p : A → bool).

Lemma how_many_nonneg l : 0 <= how_many p l.
Proof. induction l as [|x l IH]; simpl; [lia|]. destruct (p x); simpl; lia. Qed.

#[export] Instance how_many_perm : Proper (Permutation ==> eq) (how_many p).
Proof. intros l k H. induction H; simpl; lia. Qed.

Lemma replace_at_perm i o (x : A) l :
  l !! i = Some x → l ≡ₚ x :: delete i l ∧ replace_at i o l ≡ₚ option_list o ++ delete i l.
Proof.
  intros H. split; [by apply delete_Permutation|]. destruct o as [y|]; [|done]. simpl.
  rewrite insert_take_drop, delete_take_drop by (by eapply lookup_lt_Some). by rewrite Permutation_middle.
Qed.

Lemma how_many_replace i o x l :
  l !! i = Some x → how_many p (replace_at i o l) = how_many p l - Z.b2z (p x) + default 0 (Z.b2z ∘ p <$> o).
Proof.
  intros H. destruct (replace_at_perm i o x l H) as [H1 H2]. rewrite (how_many_perm _ _ H2), (how_many_perm _ _ H1).
  destruct o; simpl; lia.
Qed.

Lemma how_many_insert i y x l : l !! i = Some x → how_many p (<[i:=y]> l) = how_many p l - Z.b2z (p x) + Z.b2z (p y).
Proof. apply (how_many_replace i (Some y)). Qed.

Lemma len_replace i o (x : A) l : 
  l !! i = Some x → len (replace_at i o l) = len l - 1 + match o with Some _ => 1 | None => 0 end.
Proof.
  intros H. destruct (replace_at_perm i o x l H) as [H1 H2]. unfold len.
  rewrite (Permutation_length H2), length_app. apply Permutation_length in H1. simpl in H1.
  destruct o; simpl; lia.
Qed.

Lemma how_many_snoc l x : how_many p (l ++ [x]) = how_many p l + Z.b2z (p x).
Proof. rewrite (Permutation_app_comm l [x]). simpl. lia. Qed.

Lemma how_many_lookup l i x : l !! i = Some x → Z.b2z (p x) <= how_many p l.
Proof.
  intros H. destruct (replace_at_perm i None x l H) as [H1 _]. rewrite (how_many_perm _ _ H1). simpl.
  pose proof (how_many_nonneg (delete i l)). lia.
Qed.

Lemma how_many_le_len l : how_many p l <= len l.
Proof. unfold len. induction l as [|x l IH]; simpl; [lia|]. destruct (p x); simpl; lia. Qed.
End Tally.

Lemma how_many_disjoint {A} (p q : A → bool) l :
  (∀ x, p x && q x = false) → how_many p l + how_many q l <= len l.
Proof.
  intros H. unfold len. induction l as [|x l IH]; simpl; [lia|]. specialize (H x).
  destruct (p x), (q x); simpl in *; try done; lia.
Qed.

Definition adds (k : caller) : bool := match k with CAdd => true | _ => false end.
Definition raises (k : caller) : bool := match k with CCycle | CActive => true | _ => false end.
Definition checks (k : caller) : bool := match k with CCheck | CSwap => true | _ => false end.

(** What holds while reports overlap: the count has room for every report about to
    add to it, STRICT is on or about to be once two are counted, and a pending
    corruption has a watchdog or a report that is going to start one. *)
Record reports_ok (s : Shield) (ks : list caller) : Prop := {
  ro_pos : 0 <= staticCorruptionCount s;
  ro_room : staticCorruptionCount s + how_many adds ks <= 2147483647;
  ro_active : shieldActive s = true → 2 <= staticCorruptionCount s;
  ro_idle : shieldActive s = false → staticCorruptionCount s <= 1 + how_many raises ks;
  ro_raises : 0 < how_many raises ks → 2 <= staticCorruptionCount s;
  ro_flag : 1 <= staticCorruptionCount s →
    isWatchdogRunning s = true ∨ 0 < how_many raises ks + how_many checks ks;
}.

Definition dogs_ok (s : Shield) (ds : list dog) : Prop :=
  watchdogs s = length ds ∧ (isWatchdogRunning s = true → ds ≠ []).

(** What a watchdog that clears, and a reset, have done so far. *)
Definition cleared (d : dog) (s : Shield) : Prop :=
  match d with
  | DCount => shieldActive s = false
  | DCycle | DFlag => shieldActive s = false ∧ staticCorruptionCount s = 0
  | _ => False
  end.

Definition resetting (k : caller) (s : Shield) : Prop :=
  match k with
  | RActive => reports_ok s []
  | RFlag => shieldActive s = false
  | RCount => shieldActive s = false ∧ isWatchdogRunning s = false
  | _ => False
  end.

Inductive stage (c : config) : Prop :=
| ph_reports :
    len (cf_callers c) < 2147483647 → how_many resets (cf_callers c) = 0 → how_many clears (cf_dogs c) = 0 →
    reports_ok (cf_s c) (cf_callers c) → stage c
| ph_clears i d :
    cf_callers c = [] → how_many clears (cf_dogs c) = 1 → cf_dogs c !! i = Some d →
    cleared d (cf_s c) → stage c
| ph_resets k :
    cf_callers c = [k] → how_many clears (cf_dogs c) = 0 → resetting k (cf_s c) → stage c.

Definition orderly_ok (c : config) : Prop := dogs_ok (cf_s c) (cf_dogs c) ∧ stage c.

Lemma reports_ok_nil s : shieldActive s = false → staticCorruptionCount s = 0 → reports_ok s [].
Proof. intros Ha Hc. split; rewrite ?Ha, ?Hc; simpl; done || lia. Qed.

(** One access of a report among others. *)
Lemma report_step_ok m now s ks i k s' k' b :
  reports_ok s ks → len ks < 2147483647 → resets k = false → ks !! i = Some k →
  caller_step m now k s = (s', k', b) → reports_ok s' (replace_at i k' ks).
Proof.
  intros [Hp Hr Ha Hi Hs Hf] Hlen Hk Hki Hst.
  pose proof (how_many_lookup adds _ _ _ Hki). pose proof (how_many_lookup raises _ _ _ Hki).
  pose proof (how_many_lookup checks _ _ _ Hki).
  pose proof (how_many_nonneg adds ks). pose proof (how_many_nonneg raises ks). pose proof (how_many_nonneg checks ks).
  pose proof (how_many_nonneg adds (delete i ks)). pose proof (how_many_nonneg raises (delete i ks)).
  pose proof (how_many_nonneg checks (delete i ks)).
  assert (Hd : how_many adds (delete i ks) + how_many raises (delete i ks) <= len (delete i ks))
    by (apply how_many_disjoint; by intros []).
  pose proof (len_replace i None k ks Hki) as Hl. cbn in Hl.
  pose proof (how_many_replace adds i None k ks Hki) as Ea. pose proof (how_many_replace raises i None k ks Hki) as Eb.
  pose proof (how_many_replace checks i None k ks Hki) as Ec.
  destruct s as [la ac fl ct cy w]. simpl in *.
  assert (Hf' : 1 <= ct → fl = false → 0 < how_many raises ks + how_many checks ks).
  { intros Hc ->. by destruct (Hf Hc). }
  assert (Hgoal : ∀ a f c l y n, s' = mkShield l a f c y n →
    0 <= c → c + how_many adds (replace_at i k' ks) <= 2147483647 → (a = true → 2 <= c) →
    (a = false → c <= 1 + how_many raises (replace_at i k' ks)) →
    (0 < how_many raises (replace_at i k' ks) → 2 <= c) →
    (1 <= c → f = false → 0 < how_many raises (replace_at i k' ks) + how_many checks (replace_at i k' ks)) →
    reports_ok s' (replace_at i k' ks)).
  { intros a f c l y n -> ? ? ? ? ? Hfl. split; simpl; try done. intros Hc. destruct f; [by left|right; auto]. }
  destruct ac, fl, k; try done; cbn in Hst;
    unfold set_last, set_active, set_flag, set_count, set_cycle, set_watchdogs in Hst; cbn in Hst;
    repeat case_match; simplify_eq/=; (eapply Hgoal; [reflexivity|..]); clear Hgoal Hf;
    rewrite ?(how_many_insert adds _ _ _ _ Hki), ?(how_many_insert raises _ _ _ _ Hki),
      ?(how_many_insert checks _ _ _ _ Hki); cbn;
    repeat match goal with H : ?b = ?b → _ |- _ => specialize (H eq_refl) end;
    reflect_bools; rewrite ?i32_id in * by lia; intros; try done; try lia.
Qed.

Lemma how_many_zero {A} (p : A → bool) l i x : how_many p l = 0 → l !! i = Some x → p x = false.
Proof. intros H Hi. pose proof (how_many_lookup p _ _ _ Hi). destruct (p x); simpl in *; [lia|done]. Qed.

(** A call that is not a reset leaves the watchdogs as they were or starts one. *)
Lemma caller_dogs_ok m now k s s' k' b ds :
  caller_step m now k s = (s', k', b) → dogs_ok s ds → dogs_ok s' (if b then ds ++ [DSleep] else ds).
Proof.
  intros Hst [Hw Hf]. destruct k; simpl in Hst; repeat case_match; simplify_eq/=; split; simpl; try done.
  all: rewrite ?length_app; simpl; try lia; intros; by auto || destruct ds.
Qed.

Lemma caller_stays m now k s s' k' b : caller_step m now k s = (s', Some k', b) → resets k' = resets k.
Proof. intros H. destruct k; simpl in H; repeat case_match; by simplify_eq/=. Qed.

Lemma dog_dogs_ok nowNS i d s s' d' ds :
  ds !! i = Some d → dog_step nowNS d s = (s', d') → dogs_ok s ds → dogs_ok s' (replace_at i d' ds).
Proof.
  intros Hi Hst [Hw Hf]. pose proof (len_replace i d' d ds Hi) as Hl. unfold len in Hl.
  assert (Hne : is_Some d' → replace_at i d' ds ≠ []).
  { intros [x ->] E. rewrite E in Hl. pose proof (lookup_lt_Some _ _ _ Hi). simpl in Hl. lia. }
  destruct d; simpl in Hst; simplify_eq/=; split; try (simpl; lia); intros; (by apply Hne; eauto) || done.
Qed.

(** A watchdog that does not clear leaves the state alone, or takes the first step. *)
Lemma dog_step_quiet nowNS d s s' d' :
  dog_step nowNS d s = (s', d') → clears d = false →
  (s' = s ∧ ∃ x, d' = Some x ∧ clears x = false) ∨ (s' = set_active false s ∧ d' = Some DCount).
Proof. intros H Hd. destruct d; simpl in *; simplify_eq/=; [left; eauto|left|by right]. case_match; eauto. Qed.

Lemma orderly_spec c : orderly c = true →
  len (cf_callers c) < 2147483647 ∧
  ((how_many resets (cf_callers c) = 0 ∧ how_many clears (cf_dogs c) = 0) ∨
   len (cf_callers c) + how_many clears (cf_dogs c) <= 1).
Proof.
  unfold orderly. intros H. apply andb_true_iff in H as [H1 H2]. apply orb_true_iff in H2.
  pose proof (how_many_nonneg resets (cf_callers c)). pose proof (how_many_nonneg clears (cf_dogs c)). lia.
Qed.

Lemma wait_step_ok nowNS i d s s' d' ks ds :
  ds !! i = Some d → dog_step nowNS d s = (s', d') → how_many clears ds = 0 →
  orderly (mkConfig s' ks (replace_at i d' ds)) = true → stage (mkConfig s ks ds) →
  stage (mkConfig s' ks (replace_at i d' ds)).
Proof.
  intros Hi Hst Hq Ho Hph. pose proof (how_many_replace clears i d' d ds Hi) as Ht.
  pose proof (how_many_zero clears ds i d Hq Hi) as Hd. rewrite Hq, Hd in Ht.
  destruct (dog_step_quiet _ _ _ _ _ Hst Hd) as [(->&x&->&Hx)|(->&->)]; simpl in Ht.
  - rewrite Hx in Ht. simpl in Ht. inversion Hph; simpl in *; [by apply ph_reports; simpl|lia|].
    by apply (ph_resets _ k).
  - assert (ks = []) as ->.
    { destruct (orderly_spec _ Ho) as [_ [[_ H]|H]]; simpl in H; [lia|].
      apply length_zero_iff_nil. unfold len in H. lia. }
    apply (ph_clears _ i DCount); simpl; try done. apply list_lookup_insert_eq. by eapply lookup_lt_Some.
Qed.

Lemma how_many_unique {A} (p : A → bool) l i j x y :
  how_many p l <= 1 → l !! i = Some x → l !! j = Some y → p x = true → p y = true → i = j.
Proof.
  revert i j. induction l as [|z l IH]; intros [|i] [|j] Ht Hi Hj Hx Hy; simplify_eq/=; try done.
  - pose proof (how_many_lookup p _ _ _ Hj). rewrite Hx, Hy in *. simpl in *. lia.
  - pose proof (how_many_lookup p _ _ _ Hi). rewrite Hx, Hy in *. simpl in *. lia.
  - f_equal. apply IH; try done. destruct (p z); simpl in *; lia.
Qed.

Lemma call_in_ok s ks ds k : k = CLast ∨ k = RActive →
  orderly (mkConfig s (ks ++ [k]) ds) = true → stage (mkConfig s ks ds) → stage (mkConfig s (ks ++ [k]) ds).
Proof.
  intros Hk Ho Hph. destruct (orderly_spec _ Ho) as [Hl Hor]. simpl in Hl, Hor.
  unfold len in Hl, Hor. rewrite length_app in Hl, Hor. simpl in Hl, Hor. rewrite how_many_snoc in Hor.
  pose proof (how_many_nonneg resets ks). pose proof (how_many_nonneg clears ds).
  inversion Hph as [Hlen Hr Hc Hok|j d Hks Hc Hj Hcl|k' Hks Hc Hrs]; simpl in *; try subst ks.
  - destruct Hk as [->| ->]; simpl in *.
    + apply ph_reports; simpl; rewrite ?how_many_snoc; simpl; try lia.
      * unfold len. rewrite length_app. simpl. lia.
      * destruct Hok. split; rewrite ?how_many_snoc; simpl; try done; try lia.
        -- intros Hn. specialize (ro_idle0 Hn). lia.
        -- intros Hn. destruct (ro_flag0 Hn); [by left|right; lia].
    + assert (ks = []) as -> by (apply length_zero_iff_nil; lia). by apply (ph_resets _ RActive).
  - destruct Hk as [->| ->]; simpl in *; lia.
  - destruct Hk as [->| ->], k'; simpl in *; done || lia.
Qed.

Lemma call_goes_ok m now s ks ds i k s' k' b :
  ks !! i = Some k → caller_step m now k s = (s', k', b) → stage (mkConfig s ks ds) →
  orderly (mkConfig s' (replace_at i k' ks) (if b then ds ++ [DSleep] else ds)) = true →
  stage (mkConfig s' (replace_at i k' ks) (if b then ds ++ [DSleep] else ds)).
Proof.
  intros Hi Hst Hph Ho. destruct (orderly_spec _ Ho) as [Hl _]. simpl in Hl.
  inversion Hph as [Hlen Hr Hc Hok|j d Hk Hc Hj Hcl|k0 Hk Hc Hrs]; simpl in *.
  - pose proof (how_many_zero resets _ _ _ Hr Hi) as Hk. apply ph_reports; simpl; [done| | |].
    + rewrite (how_many_replace resets i k' k ks Hi), Hr, Hk. destruct k' as [k'|]; [|done]. simpl.
      by rewrite (caller_stays _ _ _ _ _ _ _ Hst), Hk.
    + destruct b; [|done]. by rewrite how_many_snoc, Hc.
    + by eapply report_step_ok.
  - by rewrite Hk in Hi.
  - subst ks. destruct i as [|i]; [|by destruct i]. injection Hi as ->.
    destruct k; simpl in Hrs; try done; simpl in Hst; simplify_eq/=.
    + by apply (ph_resets _ RFlag).
    + by apply (ph_resets _ RCount).
    + apply ph_reports; simpl; [done|done|done|]. apply reports_ok_nil; simpl; [by destruct Hrs|done].
Qed.

(** A watchdog that clears is the only one, and no call is under way. *)
Lemma clear_step_ok nowNS i d s s' d' ds j c :
  ds !! i = Some d → dog_step nowNS d s = (s', d') → how_many clears ds = 1 → ds !! j = Some c → cleared c s →
  orderly (mkConfig s' [] (replace_at i d' ds)) = true → stage (mkConfig s' [] (replace_at i d' ds)).
Proof.
  intros Hi Hst Hc Hj Hcl Ho. pose proof (how_many_replace clears i d' d ds Hi) as Ht.
  assert (Hcc : clears c = true) by (by destruct c).
  assert (Hlt : (i < length ds)%nat) by (by eapply lookup_lt_Some).
  destruct (clears d) eqn:Hd.
  - assert (i = j) as -> by (eapply (how_many_unique clears); try done; lia). rewrite Hi in Hj. injection Hj as ->.
    destruct c; try done; simpl in Hst; simplify_eq/=.
    + apply (ph_clears _ j DCycle); simpl; [done|lia|by apply list_lookup_insert_eq|done].
    + apply (ph_clears _ j DFlag); simpl; [done|lia|by apply list_lookup_insert_eq|done].
    + apply ph_reports; simpl; [done|done|lia|]. destruct Hcl. by apply reports_ok_nil.
  - destruct (dog_step_quiet _ _ _ _ _ Hst Hd) as [(->&x&->&Hx)|(->&->)]; simpl in Ht.
    + rewrite Hx in Ht. simpl in Ht. apply (ph_clears _ j c); simpl; [done|lia| |done].
      rewrite list_lookup_insert_ne; [done|]. intros ->. congruence.
    + destruct (orderly_spec _ Ho) as [_ [[_ H]|H]]; simpl in H; [lia|]. unfold len in H. simpl in H. lia.
Qed.

Lemma make_move_ok mv c c' :
  make_move mv c = Some c' → orderly c' = true → orderly_ok c → orderly_ok c'.
Proof.
  destruct c as [s ks ds]. intros Hm Ho [Hd Hph]. simpl in *. destruct mv as [| |i m now|i nowNS]; simpl in Hm.
  - injection Hm as <-. split; [done|]. apply call_in_ok; auto.
  - injection Hm as <-. split; [done|]. apply call_in_ok; auto.
  - destruct (ks !! i) as [k|] eqn:Hi; [|done]. simpl in Hm.
    destruct (caller_step m now k s) as [[s' k'] b] eqn:Hst. injection Hm as <-.
    split; [by eapply caller_dogs_ok|by eapply call_goes_ok].
  - destruct (ds !! i) as [d|] eqn:Hi; [|done]. simpl in Hm.
    destruct (dog_step nowNS d s) as [s' d'] eqn:Hst. injection Hm as <-. split; [by eapply dog_dogs_ok|].
    inversion Hph as [Hlen Hr Hc Hok|j c Hk Hc Hj Hcl|k0 Hk Hc Hrs]; simpl in *.
    + by eapply wait_step_ok.
    + subst ks. by eapply clear_step_ok.
    + by eapply wait_step_ok.
Qed.

Lemma play_ok mvs c c' : play orderly mvs c = Some c' → orderly_ok c → orderly_ok c'.
Proof.
  revert c. induction mvs as [|mv mvs IH]; intros c H Hc; simpl in H; [by injection H as <-|].
  destruct (make_move mv c) as [c1|] eqn:Hm; [|done]. simpl in H. destruct (orderly c1) eqn:Ho; [|done].
  eapply IH; [done|]. by eapply make_move_ok.
Qed.

Lemma start_ok : orderly_ok start.
Proof. split; [done|]. apply ph_reports; simpl; [done..|]. by apply reports_ok_nil. Qed.

Lemma at_rest_ok c : at_rest c = true → orderly_ok c →
  cf_callers c = [] ∧ how_many clears (cf_dogs c) = 0 ∧ reports_ok (cf_s c) [].
Proof.
  unfold at_rest. intros Hr [_ Hph]. apply andb_true_iff in Hr as [H1 H2].
  apply Z.eqb_eq in H1, H2. unfold len in H1.
  assert (E : cf_callers c = []) by (apply length_zero_iff_nil; lia). split_and!; [done|done|].
  inversion Hph as [Hlen Hr Hc Hok|j d Hk Hc Hj Hcl|k0 Hk Hc Hrs]; [by rewrite <- E|lia|congruence].
Qed.

(** A waiting watchdog that finds its streak over, and then is let alone. *)
Lemma watch_round i nowNS s ds :
  ds !! i = Some DSleep → how_many clears ds = 0 → streak_over nowNS s = true →
  play orderly (repeat (Wake i nowNS) 6) (mkConfig s [] ds) =
    Some (mkConfig (watchdog nowNS s) [] (delete i ds)).
Proof.
  intros Hi Hc Hs. unfold watchdog. rewrite Hs. unfold streak_over in Hs.
  assert (Hlt : (i < length ds)%nat) by (by eapply lookup_lt_Some).
  assert (Hor : ∀ s1 x, orderly (mkConfig s1 [] (<[i:=x]> ds)) = true).
  { intros s1 x. unfold orderly. cbn [cf_callers cf_dogs]. rewrite (how_many_insert clears i x DSleep ds Hi), Hc.
    by destruct x. }
  assert (Hod : ∀ s1, orderly (mkConfig s1 [] (delete i ds)) = true).
  { intros s1. unfold orderly. cbn [cf_callers cf_dogs].
    pose proof (how_many_replace clears i None DSleep ds Hi) as E. simpl in E. rewrite E, Hc. done. }
  assert (Hdi : ∀ x, delete i (<[i:=x]> ds) = delete i ds).
  { intros x. rewrite insert_take_drop, !delete_take_drop by done.
    rewrite take_app_le by (rewrite length_take; lia). rewrite take_take, Nat.min_id.
    f_equal. rewrite drop_app_ge by (rewrite length_take; lia). rewrite length_take.
    replace (S i - i `min` length ds)%nat with 1%nat by lia. done. }
  assert (Hstep : ∀ x s1 s2 y mvs, dog_step nowNS x s1 = (s2, Some y) →
    play orderly (Wake i nowNS :: mvs) (mkConfig s1 [] (<[i:=x]> ds)) =
    play orderly mvs (mkConfig s2 [] (<[i:=y]> ds))).
  { intros x s1 s2 y mvs Hx. simpl. rewrite list_lookup_insert_eq by done. simpl. rewrite Hx. simpl.
    by rewrite list_insert_insert_eq, Hor. }
  rewrite <- (list_insert_id ds i DSleep) at 1 by done. cbn [repeat].
  rewrite (Hstep DSleep s s (DCycleLoad (nowNS - lastCorruptionUnix s * 1000000000))) by done.
  rewrite (Hstep _ s s DActive) by (simpl; by rewrite Hs).
  rewrite (Hstep DActive s _ DCount), (Hstep DCount _ _ DCycle), (Hstep DCycle _ _ DFlag) by done.
  simpl. rewrite list_lookup_insert_eq by done. simpl. by rewrite Hdi, Hod.
Qed.

(** C21: reports of corruption, fewer than 2^31 - 1 at a time, may overlap one another and
    waiting watchdogs access by access, as the scheduler likes; only a reset, and a watchdog once it clears, must
    not overlap anything.  Over every such run, whenever nothing is under way: STRICT
    mode is on exactly when two corruptions were counted, so one never turns it on;
    if STRICT is on or a corruption is pending, a watchdog is flagged and alive; and
    a waiting watchdog that then finds the clean streak over, let alone, restores
    FAST mode and clears the count. *)
Theorem shield_orderly (mvs : list move) (c : config) :
  play orderly mvs start = Some c → at_rest c = true →
  let s := cf_s c in
  (shieldActive s = true ↔ 2 <= staticCorruptionCount s) ∧
  (IsResponsive true s = false ↔ 2 <= staticCorruptionCount s) ∧
  0 <= staticCorruptionCount s < 2147483648 ∧
  (shieldActive s = true ∨ 1 <= staticCorruptionCount s →
     isWatchdogRunning s = true ∧ cf_dogs c ≠ [] ∧ watchdogs s = length (cf_dogs c)) ∧
  (∀ i nowNS, cf_dogs c !! i = Some DSleep → streak_over nowNS s = true →
     ∃ s', play orderly (repeat (Wake i nowNS) 6) c = Some (mkConfig s' [] (delete i (cf_dogs c))) ∧
       IsResponsive true s' = true ∧ staticCorruptionCount s' = 0 ∧ strictCycleCount s' = 0).
Proof.
  intros Hp Hr. pose proof (play_ok _ _ _ Hp start_ok) as Hok. pose proof Hok as [[Hw Hf] _].
  destruct (at_rest_ok c Hr Hok) as (Hk&Hcl&[Hpos Hroom Hact Hidle _ Hflag]). destruct c as [s ks ds]. simpl in *.
  subst ks. assert (Hiff : shieldActive s = true ↔ 2 <= staticCorruptionCount s).
  { split; [done|]. intros H2. destruct (shieldActive s); [done|]. specialize (Hidle eq_refl). lia. }
  split_and!; [apply Hiff| |lia|lia| |].
  - unfold IsResponsive. simpl. rewrite negb_false_iff. apply Hiff.
  - intros H. assert (Hc : 1 <= staticCorruptionCount s) by (destruct H as [H|]; [apply Hiff in H; lia|done]).
    destruct (Hflag Hc) as [Hfl|]; [auto|lia].
  - intros i nowNS Hi Hs. eexists. split; [by apply watch_round|]. unfold watchdog. by rewrite Hs.
Qed.

(** Two reports that overlap, in a run that ends at rest with STRICT mode on. *)
Definition overlapping : list move :=
  Report :: Report :: concat (repeat [Go 0 true 10; Go 1 true 10] 4) ++ repeat (Go 0 true 10) 4.

Lemma shield_orderly_witness :
  ∃ c s', play orderly overlapping start = Some c ∧ IsResponsive true (cf_s c) = false ∧ cf_dogs c = [DSleep] ∧
    play orderly (repeat (Wake 0 41000000000) 6) c = Some (mkConfig s' [] []) ∧ IsResponsive true s' = true.
Proof.
  eexists. assert (Hp : play orderly overlapping start = Some (mkConfig (mkShield 10 true true 2 1 1) [] [DSleep]))
    by (by vm_compute).
  destruct (shield_orderly overlapping _ Hp) as (_&_&_&_&Hd); [by vm_compute|].
  destruct (Hd 0%nat 41000000000) as (s'&Hs&Hr&_); [by vm_compute|by vm_compute|]. exists s'.
  split; [exact Hp|]. split; [by vm_compute|]. split; [done|]. split; [exact Hs|exact Hr].
Defined.
