(* ===== verification/Storage.v ===== *)
(** * The storage ([server/torr/storage/torrstor/storage.go])

    The storage owns one cache per torrent.  A cache is an object that the torrent
    client and the storage share, so caches live in a heap under their addresses and
    [caches] maps an info hash to an address.  The mutex makes each operation
    atomic, so an execution is a sequence of operations. *)

From S2P Require Import Prelude GoFloat Ranges CacheState Reader Cache CacheInv CacheInit CacheProps.

Record Storage := mkStorage {
  s_caches : option (gmap string Z); (* [None]: a nil map *)
  s_capacity : Z;
  s_heap : gmap Z Cache;
  s_next : Z; (* the next address *)
}.

Definition NewStorage (capacity : Z) : Storage := mkStorage (Some ∅) capacity ∅ 0.

Definition upd_cache (a : Z) (f : Cache → Cache) (s : Storage) : Storage :=
  mkStorage (s_caches s) (s_capacity s) (alter f a (s_heap s)) (s_next s).
Definition set_caches (m : gmap string Z) (s : Storage) : Storage :=
  mkStorage (Some m) (s_capacity s) (s_heap s) (s_next s).

(** [OpenTorrent]; [disk] is what the index directory of the hash holds.  A write to
    a nil map panics. *)
Definition OpenTorrent (sets : BTSets) (info : Info) (hash : string) (now : Z) (disk : gmap Z (list Z))
    (s : Storage) : outcome (Z * Storage) :=
  ch ← Init sets info now (NewCache (s_capacity s) disk);
  m ← of_option (s_caches s);
  let a := s_next s in
  Done (a, mkStorage (Some (<[hash := a]> m)) (s_capacity s) (<[a := ch]> (s_heap s)) (a + 1)).

Definition CloseHash (sets : BTSets) (hash : string) (s : Storage) : Storage :=
  match s_caches s with
  | None => s
  | Some m =>
      match m !! hash with
      | Some a => set_caches (delete hash m) (upd_cache a (Close sets) s)
      | None => s
      end
  end.

(** [Close] of the storage: ranging over a nil map visits nothing. *)
Definition s_Close (sets : BTSets) (s : Storage) : Storage :=
  let addrs := match s_caches s with Some m => (map_to_list m).*2 | None => [] end in
  set_caches ∅ (foldl (λ s a, upd_cache a (Close sets) s) s addrs).

Definition GetCache (hash : string) (s : Storage) : option Z :=
  match s_caches s with Some m => m !! hash | None => None end.

(** ** Executions *)

Inductive st_step (sets : BTSets) (s : Storage) : Storage → Prop :=
| st_open info hash now disk a s' :
    0 < PieceLength info → Forall (Z.le 0) (FileLengths info) →
    map_Forall (λ _ d, len d <= PieceLength info) disk →
    OpenTorrent sets info hash now disk s = Done (a, s') → st_step sets s s'
| st_close_hash hash : st_step sets s (CloseHash sets hash s)
| st_close : st_step sets s (s_Close sets s)
| st_cache a c c' `{!SliceSort range_less} `{!SliceSort accessed_less} :
    s_heap s !! a = Some c → step sets c c' →
    st_step sets s (mkStorage (s_caches s) (s_capacity s) (<[a := c']> (s_heap s)) (s_next s)).

(** The caches the storage knows are live objects of its own, one per hash, and every
    cache satisfies the invariant of caches. *)
Record StInv (s : Storage) : Prop := {
  st_map : ∃ m, s_caches s = Some m ∧
    (∀ h a, m !! h = Some a → is_Some (s_heap s !! a)) ∧
    (∀ h1 h2 a, m !! h1 = Some a → m !! h2 = Some a → h1 = h2);
  st_fresh : ∀ a, is_Some (s_heap s !! a) → a < s_next s;
  st_inv : map_Forall (λ _ c, Inv c) (s_heap s);
}.

Lemma upd_cache_heap a f s : s_heap (upd_cache a f s) = alter f a (s_heap s).
Proof. done. Qed.

Lemma upd_cache_lookup a f s b :
  s_heap (upd_cache a f s) !! b = if decide (a = b) then f <$> s_heap s !! b else s_heap s !! b.
Proof. simpl. case_decide; [subst; apply lookup_alter_eq|by apply lookup_alter_ne]. Qed.

Lemma close_all_lookup sets addrs s b :
  NoDup addrs →
  s_heap (foldl (λ s a, upd_cache a (Close sets) s) s addrs) !! b =
    (if decide (b ∈ addrs) then Close sets <$> s_heap s !! b else s_heap s !! b) ∧
  s_next (foldl (λ s a, upd_cache a (Close sets) s) s addrs) = s_next s.
Proof.
  intros Hnd. revert s. induction Hnd as [|a addrs Hni Hnd IH]; intros s; cbn [foldl].
  { split; [|done]. rewrite decide_False by apply not_elem_of_nil. done. }
  destruct (IH (upd_cache a (Close sets) s)) as [-> ->]. split; [|done]. rewrite upd_cache_lookup.
  destruct (decide (a = b)) as [->|].
  - rewrite (decide_False (P := b ∈ addrs)) by done. by rewrite decide_True by (apply elem_of_cons; by left).
  - destruct (decide (b ∈ addrs)).
    + by rewrite decide_True by (apply elem_of_cons; by right).
    + rewrite decide_False; [done|]. by intros [->|?]%elem_of_cons.
Qed.

Lemma addrs_NoDup (m : gmap string Z) :
  (∀ h1 h2 a, m !! h1 = Some a → m !! h2 = Some a → h1 = h2) → NoDup (map_to_list m).*2.
Proof.
  intros Hinj. apply NoDup_fmap_2_strong; [|apply NoDup_map_to_list].
  intros [h1 a] [h2 b] H1 H2 Heq. simpl in Heq. subst b.
  apply elem_of_map_to_list in H1, H2. by rewrite (Hinj h1 h2 a).
Qed.

Lemma addrs_elem (m : gmap string Z) a : a ∈ (map_to_list m).*2 ↔ ∃ h, m !! h = Some a.
Proof.
  rewrite list_elem_of_fmap. split.
  - intros ([h b]&->&Hin%elem_of_map_to_list). by exists h.
  - intros [h Hh]. exists (h, a). split; [done|]. by apply elem_of_map_to_list.
Qed.

Lemma st_step_inv sets s s' : st_step sets s s' → StInv s → StInv s'.
Proof.
  intros Hs [(m&Hm&Hlive&Hinj) Hfr HI]. destruct Hs as [info hash now disk a s' H1 H2 H3 Ho|hash| |a c c' S1 S2 Hc Hst].
  - unfold OpenTorrent in Ho. destruct (Init_spec sets info now (s_capacity s) disk H1 H2 H3) as (ch&Hch&HIc&_).
    rewrite Hch, Hm in Ho. simpl in Ho. injection Ho as _ <-.
    assert (Hnew : s_heap s !! s_next s = None).
    { destruct (s_heap s !! s_next s) eqn:E; [|done]. pose proof (Hfr (s_next s)). rewrite E in H.
      specialize (H ltac:(by eexists)). lia. }
    split; simpl.
    + exists (<[hash := s_next s]> m). split_and!; [done|..].
      * intros h b Hb. destruct (decide (b = s_next s)) as [->|]; [rewrite lookup_insert_eq; by eexists|].
        rewrite lookup_insert_ne by done. apply lookup_insert_Some in Hb as [[_ <-]|[_ Hb]]; [done|]. by eapply Hlive.
      * assert (Hold : ∀ h, m !! h = Some (s_next s) → False).
        { intros h Hh. destruct (Hlive _ _ Hh) as [? Hx]. congruence. }
        intros h1 h2 b Hb1 Hb2. apply lookup_insert_Some in Hb1 as [[<- <-]|[? Hb1]], Hb2 as [[<- Hb2]|[? Hb2]];
          try done; [by apply Hold in Hb2|subst b; by apply Hold in Hb1|by eapply Hinj].
    + intros b Hb. destruct (decide (b = s_next s)) as [->|]; [lia|]. rewrite lookup_insert_ne in Hb by done.
      specialize (Hfr b Hb). lia.
    + by apply map_Forall_insert_2.
  - unfold CloseHash. rewrite Hm. destruct (m !! hash) as [a|] eqn:Ea; [|split; [by exists m|done..]].
    split; simpl.
    + exists (delete hash m). split_and!; [done|..].
      * intros h b Hb. apply lookup_delete_Some in Hb as [_ Hb]. apply Hlive in Hb.
        rewrite lookup_alter. case_decide; [subst; by apply fmap_is_Some|done].
      * intros h1 h2 b [_ Hb1]%lookup_delete_Some [_ Hb2]%lookup_delete_Some. by eapply Hinj.
    + intros b Hb. apply Hfr. rewrite lookup_alter in Hb. case_decide; [subst; by apply fmap_is_Some in Hb|done].
    + intros b c Hb. rewrite lookup_alter in Hb. case_decide; [subst|by eapply HI].
      destruct (s_heap s !! b) eqn:E; simplify_eq/=. apply Close_inv. by eapply HI.
  - unfold s_Close. rewrite Hm. set (f := foldl _ s _).
    pose proof (λ b, close_all_lookup sets _ s b (addrs_NoDup m Hinj)) as Hlk. fold f in Hlk. split; simpl.
    + exists ∅. split_and!; [done|by intros ? ? ?%lookup_empty_Some|by intros ? ? ? ?%lookup_empty_Some].
    + intros b Hb. destruct (Hlk b) as [E1 ->]. apply Hfr. rewrite E1 in Hb. case_decide; [by apply fmap_is_Some in Hb|done].
    + intros b c Hb. destruct (Hlk b) as [E1 _]. rewrite E1 in Hb. case_decide; [|by eapply HI].
      destruct (s_heap s !! b) eqn:E; simplify_eq/=. apply Close_inv. by eapply HI.
  - split; simpl.
    + exists m. split_and!; [done| |done]. intros h b Hb. destruct (decide (b = a)) as [->|].
      * rewrite lookup_insert_eq. by eexists.
      * rewrite lookup_insert_ne by done. by eapply Hlive.
    + intros b Hb. destruct (decide (b = a)) as [->|]; [apply Hfr; by eexists|].
      rewrite lookup_insert_ne in Hb by done. by apply Hfr.
    + apply map_Forall_insert_2; [|done]. eapply step_inv; [done|]. by eapply HI.
Qed.

Lemma st_steps_inv sets s s' : rtc (st_step sets) s s' → StInv s → StInv s'.
Proof. induction 1; eauto using st_step_inv. Qed.

Lemma NewStorage_inv capacity : StInv (NewStorage capacity).
Proof.
  split; simpl.
  - exists ∅. split_and!; [done|by intros ? ? ?%lookup_empty_Some|by intros ? ? ? ?%lookup_empty_Some].
  - intros a [? Hx]. by apply lookup_empty_Some in Hx.
  - apply map_Forall_empty.
Qed.

(** In every execution of a storage, with its caches working in between: two
    hashes never share a cache, every cache keeps its invariant, closing a hash
    closes its cache, forgets the hash and touches no other cache, and closing the
    storage closes every cache it knows and forgets them all. *)
Theorem storage_isolation sets capacity s :
  rtc (st_step sets) (NewStorage capacity) s →
  (∀ h1 h2 a, GetCache h1 s = Some a → GetCache h2 s = Some a → h1 = h2) ∧
  (∀ h a, GetCache h s = Some a → ∃ c, s_heap s !! a = Some c ∧ Inv c ∧
     let s' := CloseHash sets h s in
     GetCache h s' = None ∧ s_heap s' !! a = Some (Close sets c) ∧
     (∀ h', h' ≠ h → GetCache h' s' = GetCache h' s) ∧
     (∀ b, b ≠ a → s_heap s' !! b = s_heap s !! b)) ∧
  (∀ h, GetCache h (s_Close sets s) = None) ∧
  (∀ h a, GetCache h s = Some a → ∃ c, s_heap (s_Close sets s) !! a = Some c ∧ isClosed c = true).
Proof.
  intros Hr. destruct (st_steps_inv _ _ _ Hr (NewStorage_inv capacity)) as [(m&Hm&Hlive&Hinj) Hfr HI].
  assert (Hg : ∀ h, GetCache h s = m !! h) by (intros; unfold GetCache; by rewrite Hm).
  assert (Hcl : ∀ c, isClosed (Close sets c) = true).
  { intros c. unfold Close. destruct (isClosed c) eqn:E; [done|]. cbv zeta. by destruct (piecesOpen _), (_ && _). }
  split_and!.
  - intros h1 h2 a. rewrite !Hg. apply Hinj.
  - intros h a. rewrite Hg. intros Ha. destruct (Hlive _ _ Ha) as [c Hc]. exists c. split; [done|].
    split; [by eapply HI|]. unfold CloseHash, GetCache. rewrite Hm, Ha. simpl. split_and!.
    + by apply lookup_delete_eq.
    + by rewrite lookup_alter_eq, Hc.
    + intros h' Hne. by rewrite lookup_delete_ne.
    + intros b Hne. by rewrite lookup_alter_ne.
  - intros h. unfold GetCache. simpl. apply lookup_empty.
  - intros h a. rewrite Hg. intros Ha. destruct (Hlive _ _ Ha) as [c Hc]. unfold s_Close. rewrite Hm. simpl.
    destruct (close_all_lookup sets _ s a (addrs_NoDup m Hinj)) as [-> _].
    rewrite decide_True by (apply addrs_elem; by exists h). rewrite Hc. by eexists.
Qed.

Definition two_open : Storage :=
  match OpenTorrent tiny_sets tiny_info "a" 100 ∅ (NewStorage 8) with
  | Done (_, s) => match OpenTorrent tiny_sets tiny_info "b" 100 ∅ s with Done (_, s) => s | _ => s end
  | _ => NewStorage 8
  end.

Lemma storage_isolation_witness :
  GetCache "a" two_open = Some 0 ∧ GetCache "b" two_open = Some 1 ∧
  GetCache "b" (CloseHash tiny_sets "a" two_open) = Some 1 ∧
  (∃ c, s_heap (CloseHash tiny_sets "a" two_open) !! 0 = Some c ∧ isClosed c = true).
Proof.
  assert (Hf : Forall (Z.le 0) (FileLengths tiny_info)) by (repeat constructor; lia).
  assert (Ho : ∃ s, OpenTorrent tiny_sets tiny_info "a" 100 ∅ (NewStorage 8) = Done (0, s) ∧
    OpenTorrent tiny_sets tiny_info "b" 100 ∅ s = Done (1, two_open)) by (eexists; split; vm_compute; reflexivity).
  destruct Ho as (s1&Ho1&Ho2).
  destruct (storage_isolation tiny_sets 8 two_open) as (_&H&_&_).
  { eapply rtc_l; [by eapply (st_open _ _ tiny_info "a" 100 ∅)|].
    eapply rtc_once. by eapply (st_open _ _ tiny_info "b" 100 ∅). }
  assert (Ea : GetCache "a" two_open = Some 0) by (by vm_compute).
  assert (Eb : GetCache "b" two_open = Some 1) by (by vm_compute).
  destruct (H "a"%string 0 Ea) as (c&Hc&_&_&Hcl&Hoth&_). split_and!; [exact Ea|exact Eb|by rewrite Hoth|].
  eexists. split; [exact Hcl|]. unfold Close. assert (E : isClosed <$> s_heap two_open !! 0 = Some false) by (by vm_compute).
  rewrite Hc in E. injection E as ->. cbv zeta. by destruct (piecesOpen _), (_ && _).
Defined.
