(* ===== verification/WebRuntime.v ===== *)
(** * The script loader of the web interface
      ([server/web/pages/template/pages/static/js/runtime-main.5ed86a79.js])

    The bundle is split into chunks that arrive in any order, before or after this
    runtime.  Each chunk registers modules and may ask for an entry module to be run
    once the chunks it depends on are there.  The names are those of the minified
    file: [l] requires a module, [r] is the callback that receives a chunk, [t] runs
    the entries whose chunks are there, [n] is the module cache, [o] the installed
    chunks and [u] the deferred entries.

    A module's body is a tree of the calls it makes to the runtime; what it computes
    in between is its own.  [Export] is an assignment to [module.exports].  The model
    runs a body to its end or to its first exception. *)

From S2P Require Import Prelude.

Section Loader.
Context {V : Type}.

(** What [module.exports] holds: the object the runtime created for the module, or a
    value the module put there. *)
Inductive exports := Own (id : Z) | Value (v : V).

Inductive body :=
| Return
| Throw
| Export (e : exports) (k : body)
| Require (id : Z) (k : exports → body).

Record module := mkModule { m_l : bool; m_exports : exports }.

(** An installed chunk, or one being fetched with the callback that settles it. *)
Inductive chunk_state := Installed | Fetching (resolve : Z).

Record deferred := mkDeferred { d_entry : Z; d_deps : list Z }.

Record chunk := mkChunk { c_ids : list Z; c_modules : gmap Z body; c_deferred : list deferred }.

Record runtime := mkRuntime {
  rt_modules : gmap Z body; (* e, also l.m *)
  rt_n : gmap Z module; (* n, also l.c *)
  rt_o : gmap Z chunk_state;
  rt_u : list deferred;
  rt_p : option (list chunk); (* p: the page's array once the runtime has taken it over *)
  rt_log : list Z; (* the modules whose bodies were entered, newest first *)
  rt_resolved : list Z; (* the callbacks called, newest first *)
}.

Definition set_n (n : gmap Z module) (s : runtime) : runtime :=
  mkRuntime (rt_modules s) n (rt_o s) (rt_u s) (rt_p s) (rt_log s) (rt_resolved s).
Definition set_u (u : list deferred) (s : runtime) : runtime :=
  mkRuntime (rt_modules s) (rt_n s) (rt_o s) u (rt_p s) (rt_log s) (rt_resolved s).
Definition enter (id : Z) (s : runtime) : runtime :=
  mkRuntime (rt_modules s) (rt_n s) (rt_o s) (rt_u s) (rt_p s) (id :: rt_log s) (rt_resolved s).

(** A call returns a value or throws; either way the state it leaves counts. *)
Inductive result (A : Type) := Val (a : A) (s : runtime) | Exc (s : runtime) | OutOfFuel.
Arguments Val {A}. Arguments Exc {A}. Arguments OutOfFuel {A}.

(** Running the body of module [id], [req] standing for the runtime's [l]. *)
Fixpoint run_body (req : Z → runtime → result exports) (id : Z) (b : body) (s : runtime) : result unit :=
  match b with
  | Return => Val tt s
  | Throw => Exc s
  | Export e k => run_body req id k (set_n (alter (λ m, mkModule (m_l m) e) id (rt_n s)) s)
  | Require d k =>
      match req d s with
      | Val e s => run_body req id (k e) s
      | Exc s => Exc s
      | OutOfFuel => OutOfFuel
      end
  end.

(** [l]: the cached exports, or a fresh module whose body is run.  The cache entry is
    made first; a missing body throws when it is called. *)
Fixpoint l (fuel : nat) (id : Z) (s : runtime) : result exports :=
  match rt_n s !! id with
  | Some m => Val (m_exports m) s
  | None =>
      let s := set_n (<[id := mkModule false (Own id)]> (rt_n s)) s in
      match rt_modules s !! id with
      | None => Exc s
      | Some b =>
          match fuel with
          | O => OutOfFuel
          | S fuel =>
              match run_body (l fuel) id b (enter id s) with
              | Val _ s =>
                  let s := set_n (alter (λ m, mkModule true (m_exports m)) id (rt_n s)) s in
                  match rt_n s !! id with Some m => Val (m_exports m) s | None => Exc s end
              | Exc s => Exc s
              | OutOfFuel => OutOfFuel
              end
          end
      end
  end.

Definition installed (s : runtime) (c : Z) : bool :=
  match rt_o s !! c with Some Installed => true | _ => false end.

(** [t]: the loop over [u]; [kept] are the entries passed over. An entry leaves [u]
    before its module is required. *)
Fixpoint t_loop (fuel : nat) (kept todo : list deferred) (e : option exports) (s : runtime) : result (option exports) :=
  match todo with
  | [] => Val e s
  | d :: rest =>
      if forallb (installed s) (d_deps d) then
        match l fuel (d_entry d) (set_u (kept ++ rest) s) with
        | Val x s => t_loop fuel kept rest (Some x) s
        | Exc s => Exc s
        | OutOfFuel => OutOfFuel
        end
      else t_loop fuel (kept ++ [d]) rest e s
  end.

Definition t (fuel : nat) (s : runtime) : result (option exports) := t_loop fuel [] (rt_u s) None s.

(** The chunk ids of a callback: each is marked installed, the callbacks of fetches
    under way are collected. *)
Fixpoint install (ids : list Z) (o : gmap Z chunk_state) (acc : list Z) : gmap Z chunk_state * list Z :=
  match ids with
  | [] => (o, acc)
  | c :: rest =>
      let acc := match o !! c with Some (Fetching x) => acc ++ [x] | _ => acc end in
      install rest (<[c := Installed]> o) acc
  end.

(** [r], up to the call of [t]. *)
Definition receive (d : chunk) (s : runtime) : runtime :=
  let '(o, resolves) := install (c_ids d) (rt_o s) [] in
  mkRuntime (c_modules d ∪ rt_modules s) (rt_n s) o (rt_u s ++ c_deferred d)
    ((λ p, p ++ [d]) <$> rt_p s) (rt_log s) (rev resolves ++ rt_resolved s).

Definition r (fuel : nat) (d : chunk) (s : runtime) : result (option exports) := t fuel (receive d s).

Fixpoint r_all (fuel : nat) (ds : list chunk) (s : runtime) : result unit :=
  match ds with
  | [] => Val tt s
  | d :: rest =>
      match r fuel d s with
      | Val _ s => r_all fuel rest s
      | Exc s => Exc s
      | OutOfFuel => OutOfFuel
      end
  end.

(** The runtime's own start: chunk 1 is the runtime itself; the chunks that came
    first wait in the page's array and are replayed, then [p] is set and [t] runs. *)
Definition boot (fuel : nat) (queued : list chunk) : result (option exports) :=
  match r_all fuel queued (mkRuntime ∅ ∅ {[1 := Installed]} [] None [] []) with
  | Val _ s => t fuel (mkRuntime (rt_modules s) (rt_n s) (rt_o s) (rt_u s) (Some queued) (rt_log s) (rt_resolved s))
  | Exc s => Exc s
  | OutOfFuel => OutOfFuel
  end.

(** The whole page: [queued] arrive before the runtime, [later] after it. *)
Definition page (fuel : nat) (queued later : list chunk) : result unit :=
  match boot fuel queued with
  | Val _ s => r_all fuel later s
  | Exc s => Exc s
  | OutOfFuel => OutOfFuel
  end.

(** ** Requiring modules *)

(** Modules that were never required. *)
Definition unseen (s : runtime) : gset Z := dom (rt_modules s) ∖ dom (rt_n s).

(** Requiring only adds to the cache, and every body entered is a new one. *)
Record grows (s s' : runtime) : Prop := {
  gr_modules : rt_modules s' = rt_modules s;
  gr_o : rt_o s' = rt_o s;
  gr_u : rt_u s' = rt_u s;
  gr_p : rt_p s' = rt_p s;
  gr_resolved : rt_resolved s' = rt_resolved s;
  gr_n : dom (rt_n s) ⊆ dom (rt_n s');
  gr_log : ∃ new, rt_log s' = new ++ rt_log s ∧ NoDup new ∧
    (∀ id, id ∈ new → id ∉ dom (rt_n s) ∧ id ∈ dom (rt_n s'));
}.

Lemma grows_refl s : grows s s.
Proof. split; try done. exists []. split_and!; [done|constructor|]. by intros id ?%not_elem_of_nil. Qed.

Lemma grows_trans s1 s2 s3 : grows s1 s2 → grows s2 s3 → grows s1 s3.
Proof.
  intros [? ? ? ? ? H1 (n1&E1&N1&D1)] [? ? ? ? ? H2 (n2&E2&N2&D2)]. split; try congruence; [set_solver|].
  exists (n2 ++ n1). split_and!; [by rewrite E2, E1, app_assoc| |].
  - apply NoDup_app. split_and!; [done| |done]. intros id Hi1 Hi2. apply D2 in Hi1. apply D1 in Hi2. naive_solver.
  - intros id [Hi|Hi]%elem_of_app; [apply D2 in Hi|apply D1 in Hi]; set_solver.
Qed.

#[local] Instance grows_preorder : PreOrder grows.
Proof. split; [exact grows_refl|exact grows_trans]. Qed.

(** Changing what a cached module holds. *)
Lemma grows_alter f id s : grows s (set_n (alter f id (rt_n s)) s).
Proof.
  split; try done; simpl.
  - by rewrite dom_alter_L.
  - exists []. split_and!; [done|constructor|]. by intros x ?%not_elem_of_nil.
Qed.

Lemma grows_unseen s s' : grows s s' → unseen s' ⊆ unseen s.
Proof. intros [E _ _ _ _ H _]. unfold unseen. rewrite E. set_solver. Qed.

Definition ended {A} (s : runtime) (x : result A) : Prop :=
  match x with Val _ s' | Exc s' => grows s s' | OutOfFuel => False end.

Lemma run_body_ended req id b s k :
  (size (unseen s) <= k)%nat → (∀ d s0, (size (unseen s0) <= k)%nat → ended s0 (req d s0)) →
  ended s (run_body req id b s).
Proof.
  intros Hk Hreq. revert s Hk. induction b as [| |e b IH|d b IH]; intros s Hk; simpl; [reflexivity..| |].
  - assert (Hg := grows_alter (λ m, mkModule (m_l m) e) id s). set (s1 := set_n _ s) in *.
    assert (Hk1 : (size (unseen s1) <= k)%nat).
    { pose proof (subseteq_size _ _ (grows_unseen _ _ Hg)). lia. }
    specialize (IH s1 Hk1). destruct (run_body _ _ _ s1); simpl in *; [by etransitivity..|done].
  - pose proof (Hreq d s Hk) as Hd. destruct (req d s) as [e s1|s1|]; simpl in Hd; [|done..].
    assert (Hk1 : (size (unseen s1) <= k)%nat).
    { pose proof (subseteq_size _ _ (grows_unseen _ _ Hd)). lia. }
    specialize (IH e s1 Hk1). destruct (run_body _ _ _ s1); simpl in *; [by etransitivity..|done].
Qed.

(** Fuel for every module not yet seen is enough: cycles end in the cache. *)
Lemma l_ended fuel id s : (size (unseen s) <= fuel)%nat → ended s (l fuel id s).
Proof.
  revert id s. induction fuel as [|fuel IH]; intros id s Hf; simpl;
    (destruct (rt_n s !! id) as [m|] eqn:En; [apply grows_refl|]).
  all: set (s1 := set_n (<[id := mkModule false (Own id)]> (rt_n s)) s).
  all: assert (Hn : id ∉ dom (rt_n s)) by (by apply not_elem_of_dom).
  all: assert (Hd : dom (rt_n s1) = {[id]} ∪ dom (rt_n s)) by (simpl; apply dom_insert_L).
  all: assert (Hg : grows s s1)
    by (split; try done; [rewrite Hd; set_solver|exists []; split_and!; [done|constructor|by intros x ?%not_elem_of_nil]]).
  all: destruct (rt_modules s !! id) as [b|] eqn:Em; [|done].
  all: assert (Hu : id ∈ unseen s) by (unfold unseen; apply elem_of_difference; split; [by apply elem_of_dom_2 in Em|done]).
  { assert (size (unseen s) <> 0%nat); [|lia]. apply size_non_empty_iff. set_solver. }
  assert (Hge : grows s (enter id s1)).
  { split; try apply Hg. exists [id]. split_and!; [done|apply NoDup_singleton|].
    intros x ->%list_elem_of_singleton. split; [done|].
    change (id ∈ dom (rt_n s1)). rewrite Hd. set_solver. }
  assert (Hs : (size (unseen (enter id s1)) <= fuel)%nat).
  { assert (Hd' : dom (rt_n (enter id s1)) = {[id]} ∪ dom (rt_n s)) by exact Hd.
    assert (Hm' : dom (rt_modules (enter id s1)) = dom (rt_modules s)) by done.
    assert (unseen (enter id s1) ⊂ unseen s) as Hsub%subset_size; [|lia].
    unfold unseen in *. rewrite Hd', Hm'. clear -Hu. set_solver. }
  pose proof (run_body_ended (l fuel) id b (enter id s1) fuel Hs IH) as Hb.
  destruct (run_body _ _ _ _) as [u s2|s2|]; simpl in Hb; [|simpl; by etransitivity|done].
  set (s3 := set_n _ s2). assert (Hg3 : grows s s3).
  { etransitivity; [apply Hge|]. etransitivity; [apply Hb|]. apply grows_alter. }
  cbv zeta. destruct (alter _ id (rt_n s2) !! id); exact Hg3.
Qed.

(** Whatever a required module did, it is in the cache afterwards. *)
Lemma l_caches fuel id s :
  (size (unseen s) <= fuel)%nat →
  match l fuel id s with Val _ s' | Exc s' => is_Some (rt_n s' !! id) | OutOfFuel => False end.
Proof.
  intros Hf. pose proof (l_ended fuel id s Hf) as He. destruct fuel as [|fuel]; simpl in *;
    (destruct (rt_n s !! id) as [m|] eqn:En; [by eexists|]);
    (destruct (rt_modules s !! id) as [b|] eqn:Em; [|simpl; rewrite lookup_insert_eq; by eexists]); [done|].
  set (s1 := set_n _ s) in *. pose proof (grows_refl s) as _.
  assert (Hin : is_Some (rt_n (enter id s1) !! id)) by (simpl; rewrite lookup_insert_eq; by eexists).
  assert (Hs : (size (unseen (enter id s1)) <= fuel)%nat).
  { assert (unseen (enter id s1) ⊂ unseen s) as Hsub%subset_size; [|lia].
    assert (Hd' : dom (rt_n (enter id s1)) = {[id]} ∪ dom (rt_n s)) by (simpl; apply dom_insert_L).
    assert (Hm' : dom (rt_modules (enter id s1)) = dom (rt_modules s)) by done.
    apply not_elem_of_dom in En. apply elem_of_dom_2 in Em. unfold unseen. rewrite Hd', Hm'. clear -En Em. set_solver. }
  pose proof (run_body_ended (l fuel) id b (enter id s1) fuel Hs (l_ended fuel)) as Hb.
  destruct (run_body (l fuel) id b (enter id s1)) as [u s2|s2|]; simpl in Hb; [| |done].
  - apply gr_n in Hb. apply elem_of_dom in Hin. apply Hb, elem_of_dom in Hin as [m Hm].
    cbn [rt_n set_n]. rewrite lookup_alter_eq, Hm. simpl. rewrite lookup_alter_eq, Hm. by eexists.
  - apply gr_n in Hb. apply elem_of_dom in Hin. by apply Hb, elem_of_dom in Hin.
Qed.

(** C30: requiring a module ends, for every table of modules and every cycle among
    them: no body is entered twice, and from then on the module is answered from the
    cache without running anything, even when its first run threw. *)
Theorem require_once (fuel : nat) (id : Z) (s : runtime) :
  (size (unseen s) <= fuel)%nat →
  ∃ s' new m, ((∃ e, l fuel id s = Val e s') ∨ l fuel id s = Exc s') ∧
    rt_log s' = new ++ rt_log s ∧ NoDup new ∧ (∀ x, x ∈ new → rt_n s !! x = None) ∧
    rt_n s' !! id = Some m ∧ ∀ fuel', l fuel' id s' = Val (m_exports m) s'.
Proof.
  intros Hf. pose proof (l_ended fuel id s Hf) as He. pose proof (l_caches fuel id s Hf) as Hc.
  assert (Hfin : ∀ s', grows s s' → is_Some (rt_n s' !! id) → ∃ new m,
    rt_log s' = new ++ rt_log s ∧ NoDup new ∧ (∀ x, x ∈ new → rt_n s !! x = None) ∧
    rt_n s' !! id = Some m ∧ ∀ fuel', l fuel' id s' = Val (m_exports m) s').
  { intros s' [_ _ _ _ _ _ (new&E&Hnd&Hnew)] [m Hm]. exists new, m. split_and!; [done..| |done|].
    - intros x Hx. apply Hnew in Hx as [Hx _]. by apply not_elem_of_dom in Hx.
    - intros [|fuel']; simpl; by rewrite Hm. }
  destruct (l fuel id s) as [e s'|s'|] eqn:E; [| |done].
  - destruct (Hfin s' He Hc) as (new&m&H). exists s', new, m. split; [left; by exists e|done].
  - destruct (Hfin s' He Hc) as (new&m&H). exists s', new, m. split; [by right|done].
Qed.

(** ** Chunks in any order *)

(** What modules see of the state, next to what only the loader sees. *)
Definition with_rest (s s0 : runtime) : runtime :=
  mkRuntime (rt_modules s0) (rt_n s0) (rt_o s) (rt_u s) (rt_p s) (rt_log s0) (rt_resolved s).

Definition map_result {A} (f : runtime → runtime) (x : result A) : result A :=
  match x with Val a s => Val a (f s) | Exc s => Exc (f s) | OutOfFuel => OutOfFuel end.

Lemma run_body_rest req id b s s0 :
  (∀ d s0, req d (with_rest s s0) = map_result (with_rest s) (req d s0)) →
  run_body req id b (with_rest s s0) = map_result (with_rest s) (run_body req id b s0).
Proof.
  intros Hreq. revert s0. induction b as [| |e b IH|d b IH]; intros s0; simpl; try done.
  - apply (IH (set_n _ s0)).
  - rewrite Hreq. destruct (req d s0) as [e0 s1|s1|]; [apply IH|done|done].
Qed.

Lemma l_rest fuel id s s0 : l fuel id (with_rest s s0) = map_result (with_rest s) (l fuel id s0).
Proof.
  revert id s0. induction fuel as [|fuel IH]; intros id s0; simpl; (destruct (rt_n s0 !! id); [done|]);
    (destruct (rt_modules s0 !! id); [|done]); [done|].
  set (s1 := set_n _ s0). change (enter id _) with (with_rest s (enter id s1)) at 1.
  rewrite run_body_rest by done. destruct (run_body _ _ _ (enter id s1)) as [[] s2|s2|]; simpl; [|done..].
  by destruct (alter _ id (rt_n s2) !! id).
Qed.

(** A page: chunks whose tables agree, one entry that needs every one of them. *)
Record wf_page (ds : list chunk) (entry : Z) (deps : list Z) : Prop := {
  wp_agree : ∀ d1 d2 id b1 b2, d1 ∈ ds → d2 ∈ ds → c_modules d1 !! id = Some b1 →
    c_modules d2 !! id = Some b2 → b1 = b2;
  wp_entry : mjoin (c_deferred <$> ds) = [mkDeferred entry deps];
  wp_deps : ∀ c, c ∈ deps → c = 1 ∨ ∃ d, d ∈ ds ∧ c ∈ c_ids d;
  wp_needed : ∀ pre d post, ds = pre ++ d :: post → ∃ c, c ∈ deps ∧ c ≠ 1 ∧
    ∀ d', d' ∈ pre ++ post → c ∉ c_ids d';
}.

(** The state once the chunks [ds] are there and nothing has run. *)
Record arrived (ds : list chunk) (s : runtime) : Prop := {
  ar_modules : rt_modules s = foldl (λ m d, c_modules d ∪ m) ∅ ds;
  ar_n : rt_n s = ∅;
  ar_log : rt_log s = [];
  ar_u : rt_u s = mjoin (c_deferred <$> ds);
  ar_o : ∀ c, installed s c = true ↔ c = 1 ∨ ∃ d, d ∈ ds ∧ c ∈ c_ids d;
}.

Lemma install_spec ids o acc c :
  (install ids o acc).1 !! c = if decide (c ∈ ids) then Some Installed else o !! c.
Proof.
  revert o acc. induction ids as [|x ids IH]; intros o acc; [done|]. cbn [install].
  rewrite IH. destruct (decide (c ∈ ids)); [by rewrite decide_True by set_solver|].
  destruct (decide (c = x)) as [->|].
  - by rewrite lookup_insert_eq, decide_True by set_solver.
  - by rewrite lookup_insert_ne, decide_False by set_solver.
Qed.

Lemma receive_arrived ds d s : arrived ds s → arrived (ds ++ [d]) (receive d s).
Proof.
  intros [Hm Hn Hl Hu Ho]. unfold receive. pose proof (install_spec (c_ids d) (rt_o s) []) as Hi.
  destruct (install _ _ _) as [o res]. split; simpl; try done.
  - by rewrite foldl_app, Hm.
  - rewrite Hu, fmap_app, join_app. cbn [fmap list_fmap mjoin list_join]. by rewrite app_nil_r.
  - intros c. unfold installed. simpl. simpl in Hi. rewrite Hi. specialize (Ho c). unfold installed in Ho.
    setoid_rewrite elem_of_app. setoid_rewrite list_elem_of_singleton. case_decide; [naive_solver|].
    rewrite Ho. naive_solver.
Qed.

(** While an entry waits, nothing runs. *)
Lemma t_waits fuel ds s :
  arrived ds s → (∀ d, d ∈ mjoin (c_deferred <$> ds) → ∃ c, c ∈ d_deps d ∧ installed s c = false) →
  t fuel s = Val None s.
Proof.
  intros [_ _ _ Hu _] Hw. unfold t. rewrite Hu. clear Hu. generalize (@nil deferred) as kept, (None : option exports) as e.
  revert Hw. generalize (mjoin (c_deferred <$> ds)) as todo. induction todo as [|d todo IH]; intros Hw kept e; simpl; [done|].
  destruct (Hw d) as (c&Hc&Hi); [set_solver|].
  assert (forallb (installed s) (d_deps d) = false) as ->; [|apply IH; set_solver].
  apply not_true_is_false. rewrite forallb_forall. intros Hall.
  rewrite Hall in Hi by (by apply list_elem_of_In). done.
Qed.

Section Page.
Context (fuel : nat) (ds : list chunk) (entry : Z) (deps : list Z) (Hwf : wf_page ds entry deps).

Lemma waits pre d post s :
  ds = pre ++ d :: post → arrived pre s → t fuel s = Val None s.
Proof.
  intros E Ha. eapply t_waits; [done|]. intros x Hx.
  assert (x = mkDeferred entry deps) as ->.
  { apply list_elem_of_singleton. rewrite <- (wp_entry _ _ _ Hwf), E, fmap_app, join_app. set_solver. }
  destruct (wp_needed _ _ _ Hwf pre d post E) as (c&Hc&H1&Hnot). exists c. split; [done|].
  apply not_true_is_false. rewrite (ar_o _ _ Ha). intros [?|(d'&Hd'&Hin)]; [done|].
  eapply Hnot; [|done]. set_solver.
Qed.

Lemma r_all_waits pre mid d post s :
  ds = pre ++ mid ++ d :: post → arrived pre s →
  ∃ s', r_all fuel mid s = Val tt s' ∧ arrived (pre ++ mid) s'.
Proof.
  revert pre s. induction mid as [|x mid IH]; intros pre s E Ha; simpl.
  { exists s. by rewrite app_nil_r. }
  assert (Hx : arrived (pre ++ [x]) (receive x s)) by (by apply receive_arrived).
  assert (E' : ds = (pre ++ [x]) ++ mid ++ d :: post) by (by rewrite E, <- app_assoc).
  unfold r. destruct mid as [|y mid].
  - rewrite (waits (pre ++ [x]) d post (receive x s) E' Hx). simpl. by eexists.
  - rewrite (waits (pre ++ [x]) y (mid ++ d :: post) (receive x s) E' Hx).
    destruct (IH (pre ++ [x]) (receive x s) E' Hx) as (s'&->&Hs'). exists s'. by rewrite <- app_assoc in Hs'.
Qed.

(** The start state of the entry module: the full table, nothing run. *)
Definition full : runtime := mkRuntime (foldl (λ m d, c_modules d ∪ m) ∅ ds) ∅ ∅ [] None [] [].

(** What an observer of the modules sees of a run. *)
Definition observed {A} (x : result A) : option (gmap Z module * list Z * bool) :=
  match x with
  | Val _ s => Some (rt_n s, rt_log s, true)
  | Exc s => Some (rt_n s, rt_log s, false)
  | OutOfFuel => None
  end.

Lemma last_fires pre d s :
  ds = pre ++ [d] → arrived pre s → observed (r fuel d s) = observed (l fuel entry full) ∧
  (∀ e s', r fuel d s = Val e s' → rt_u s' = []).
Proof.
  intros E Ha. assert (Hx : arrived ds (receive d s)) by (rewrite E; by apply receive_arrived).
  destruct Hx as [Hm Hn Hl Hu Ho]. unfold r, t. rewrite Hu, (wp_entry _ _ _ Hwf). simpl.
  assert (forallb (installed (receive d s)) deps = true) as ->.
  { apply forallb_forall. intros c Hc. apply list_elem_of_In in Hc. apply Ho. by apply (wp_deps _ _ _ Hwf). }
  assert (set_u [] (receive d s) = with_rest (set_u [] (receive d s)) full) as ->.
  { unfold with_rest, set_u, full. simpl. by rewrite Hm, Hn, Hl. }
  rewrite l_rest. by destruct (l fuel entry full); simpl; [split; [done|intros ? ? [= _ <-]]|..].
Qed.
End Page.

Lemma start_arrived : arrived [] (mkRuntime ∅ ∅ {[1 := Installed]} [] None [] []).
Proof.
  split; try done. intros c. unfold installed. simpl. destruct (decide (c = 1)) as [->|].
  - rewrite lookup_singleton_eq. by split; [left|].
  - rewrite lookup_singleton_ne by done. split; [done|]. intros [?|(d&?%not_elem_of_nil&_)]; done.
Qed.

Lemma r_all_app fuel d1 d2 s :
  r_all fuel (d1 ++ d2) s =
  match r_all fuel d1 s with Val _ s => r_all fuel d2 s | Exc s => Exc s | OutOfFuel => OutOfFuel end.
Proof.
  revert s. induction d1 as [|d d1 IH]; intros s; simpl; [done|]. destruct (r fuel d s); [apply IH|done..].
Qed.

Definition taken_over (q : list chunk) (s : runtime) : runtime :=
  mkRuntime (rt_modules s) (rt_n s) (rt_o s) (rt_u s) (Some q) (rt_log s) (rt_resolved s).

Lemma t_nothing fuel s : rt_u s = [] → t fuel s = Val None s.
Proof. unfold t. by intros ->. Qed.

Lemma page_observed fuel ds entry deps q later :
  wf_page ds entry deps → q ++ later = ds →
  observed (page fuel q later) = observed (l fuel entry (full ds)).
Proof.
  intros Hwf E. unfold page, boot. fold (taken_over q).
  assert (Hds : ds ≠ []) by (intros Hd; pose proof (wp_entry _ _ _ Hwf) as He; rewrite Hd in He; done).
  destruct (decide (later = [])) as [->|Hl].
  - rewrite app_nil_r in E. subst q. destruct (exists_last Hds) as (pre&d&E).
    destruct (r_all_waits fuel ds entry deps Hwf [] pre d [] _ E start_arrived) as (s1&H1&A1).
    rewrite E at 1. rewrite r_all_app, H1. simpl.
    destruct (last_fires fuel ds entry deps Hwf pre d s1 E A1) as [Hf Hu].
    destruct (r fuel d s1) as [e s2|s2|]; [|by rewrite <- Hf..].
    simpl. fold (taken_over ds s2). rewrite t_nothing by (exact (Hu e s2 eq_refl)). by rewrite <- Hf.
  - destruct (exists_last Hl) as (mid&d&El). subst later.
    assert (Hq : ∃ s0, r_all fuel q (mkRuntime ∅ ∅ {[1 := Installed]} [] None [] []) = Val tt s0 ∧ arrived q s0 ∧
      t fuel (taken_over q s0) = Val None (taken_over q s0)).
    { assert (Hx : ∃ x post, mid ++ [d] = x :: post) by (destruct mid; by eexists _, _). destruct Hx as (x&post&Hx).
      rewrite Hx in E. symmetry in E.
      destruct (r_all_waits fuel ds entry deps Hwf [] q x post _ E start_arrived) as (s0&H0&A0).
      exists s0. split_and!; [done|done|]. apply (waits fuel ds entry deps Hwf q x post); [done|].
      destruct A0. by split. }
    destruct Hq as (s0&->&A0&Ht). fold (taken_over q s0). rewrite Ht.
    rewrite r_all_app. symmetry in E.
    destruct (r_all_waits fuel ds entry deps Hwf q mid d [] (taken_over q s0) E) as (s1&->&A1).
    { destruct A0. by split. }
    simpl. destruct (last_fires fuel ds entry deps Hwf (q ++ mid) d s1) as [Hf _]; [by rewrite <- app_assoc|done|].
    by destruct (r fuel d s1); rewrite <- Hf.
Qed.

(** *** Permutations of a page *)

Lemma table_lookup ds id b :
  (∀ d1 d2 b1 b2, d1 ∈ ds → d2 ∈ ds → c_modules d1 !! id = Some b1 → c_modules d2 !! id = Some b2 → b1 = b2) →
  foldl (λ m d, c_modules d ∪ m) ∅ ds !! id = Some b ↔ ∃ d, d ∈ ds ∧ c_modules d !! id = Some b.
Proof.
  induction ds as [|d ds IH] using rev_ind; intros Ha.
  { simpl. rewrite lookup_empty. split; [done|]. by intros (d&?%not_elem_of_nil&_). }
  rewrite foldl_app. simpl. rewrite lookup_union_Some_raw. rewrite IH by (intros; eapply Ha; set_solver).
  setoid_rewrite elem_of_app. setoid_rewrite list_elem_of_singleton. split.
  - intros [H|(_&d'&Hin&Hd')]; [exists d; auto|exists d'; auto].
  - intros (d'&[Hin| ->]&Hd'); [|by left]. destruct (c_modules d !! id) as [b'|] eqn:E; [left|right; eauto].
    f_equal. apply (Ha d d'); set_solver.
Qed.

Lemma wf_page_perm ds ds' entry deps : ds' ≡ₚ ds → wf_page ds entry deps → wf_page ds' entry deps ∧ full ds' = full ds.
Proof.
  intros Hp [Ha He Hd Hn]. split; [split|].
  - intros d1 d2 id b1 b2 H1 H2. rewrite Hp in H1, H2. by apply Ha.
  - apply Permutation_singleton_r. rewrite <- He. by rewrite Hp.
  - intros c Hc. destruct (Hd c Hc) as [?|(d&Hin&?)]; [by left|right]. exists d. by rewrite Hp.
  - intros pre d post E. assert (Hin : d ∈ ds) by (rewrite <- Hp, E; set_solver).
    apply list_elem_of_split in Hin as (pre0&post0&E0). destruct (Hn pre0 d post0 E0) as (c&Hc&H1&Hnot).
    exists c. split_and!; [done..|]. intros d' Hd'. apply Hnot.
    assert (Hperm : pre ++ post ≡ₚ pre0 ++ post0) by (apply (Permutation_app_inv _ _ _ _ d); by rewrite <- E, <- E0).
    by rewrite <- Hperm.
  - unfold full. f_equal. apply map_eq. intros id. apply option_eq. intros b.
    rewrite !table_lookup; [by setoid_rewrite Hp| |].
    + intros. by eapply (Ha d1 d2).
    + intros d1 d2 b1 b2 H1 H2. rewrite Hp in H1, H2. by apply Ha.
Qed.

(** C29: the chunks of a page may arrive in any order, each before or after the
    runtime: the modules run are the same, in the same order, and end in the same
    state, as when the entry module is required once with every chunk in place; and
    no body runs twice. *)
Theorem page_any_order (fuel : nat) (ds q later : list chunk) (entry : Z) (deps : list Z) :
  wf_page ds entry deps → q ++ later ≡ₚ ds → (size (dom (rt_modules (full ds))) <= fuel)%nat →
  observed (page fuel q later) = observed (l fuel entry (full ds)) ∧
  ∃ n log ok, observed (page fuel q later) = Some (n, log, ok) ∧ NoDup log ∧ is_Some (n !! entry).
Proof.
  intros Hwf Hp Hf. destruct (wf_page_perm ds (q ++ later) entry deps Hp Hwf) as [Hwf' Hfull].
  pose proof (page_observed fuel (q ++ later) entry deps q later Hwf' eq_refl) as Ho. rewrite Hfull in Ho.
  split; [done|]. rewrite Ho.
  assert (Hun : (size (unseen (full ds)) <= fuel)%nat).
  { unfold unseen. assert (dom (rt_modules (full ds)) ∖ dom (rt_n (full ds)) ⊆ dom (rt_modules (full ds))) as H%subseteq_size
      by set_solver. lia. }
  pose proof (l_ended fuel entry (full ds) Hun) as He. pose proof (l_caches fuel entry (full ds) Hun) as Hc.
  assert (Hlog : ∀ s', grows (full ds) s' → NoDup (rt_log s')).
  { intros s' [_ _ _ _ _ _ (new&E&Hnd&_)]. rewrite E. simpl. by rewrite app_nil_r. }
  destruct (l fuel entry (full ds)) as [e s'|s'|]; simpl in *; [eauto 10..|done].
Qed.
End Loader.

Arguments body V : clear implicits.
Arguments chunk V : clear implicits.

(** ** A page of two chunks and a cycle *)

(** Modules 10 and 20 require each other; entry 452 requires both. *)
Definition vendor : chunk Z :=
  mkChunk [2] {[10 := Require 20 (λ _, Export (Value 1) Return)]} [].
Definition app : chunk Z :=
  mkChunk [0] (<[20 := Require 10 (λ e, Export e Return)]>
    {[452 := Require 10 (λ _, Require 20 (λ _, Return))]}) [mkDeferred 452 [0; 1; 2]].

Lemma demo_page : wf_page [vendor; app] 452 [0; 1; 2].
Proof.
  split; [..|].
  - intros d1 d2 id b1 b2 H1 H2 E1 E2.
    assert (Hd : ∀ d, d ∈ [vendor; app] → d = vendor ∨ d = app) by (intros d Hd; set_solver).
    destruct (Hd d1 H1) as [->| ->], (Hd d2 H2) as [->| ->]; try congruence.
    + cbn [vendor c_modules] in E1. apply lookup_singleton_Some in E1 as [<- _]. by vm_compute in E2.
    + cbn [vendor c_modules] in E2. apply lookup_singleton_Some in E2 as [<- _]. by vm_compute in E1.
  - done.
  - intros c Hc. assert (Hcs : c = 0 ∨ c = 1 ∨ c = 2) by set_solver. destruct Hcs as [->|[->| ->]].
    + right. exists app. split; [set_solver|]. simpl. set_solver.
    + by left.
    + right. exists vendor. split; [set_solver|]. simpl. set_solver.
  - intros pre d post E. destruct pre as [|x [|y pre]]; simplify_eq/=.
    + exists 2. split_and!; [set_solver|done|]. intros d' ->%list_elem_of_singleton. simpl. set_solver.
    + exists 0. split_and!; [set_solver|done|]. intros d' ->%list_elem_of_singleton. simpl. set_solver.
    + by destruct pre.
Qed.

Lemma page_any_order_witness :
  observed (page 3 [app] [vendor]) = observed (l 3 452 (full [vendor; app])) ∧
  observed (page 3 [vendor; app] []) = observed (l 3 452 (full [vendor; app])) ∧
  (λ x, x.1.2) <$> observed (page 3 [app] [vendor]) = Some [20; 10; 452].
Proof.
  split_and!.
  - apply (page_any_order 3 [vendor; app] [app] [vendor] 452 [0; 1; 2] demo_page); [apply Permutation_swap|].
    by vm_compute.
  - apply (page_any_order 3 [vendor; app] [vendor; app] [] 452 [0; 1; 2] demo_page); [done|]. by vm_compute.
  - by vm_compute.
Defined.

Lemma require_once_witness :
  ∃ (s' : runtime (V := Z)) m, rt_n s' !! 10 = Some m ∧ l 0 10 s' = Val exports (m_exports m) s'.
Proof.
  destruct (require_once 3 10 (full [vendor; app])) as (s'&new&m&_&_&_&_&Hm&Hl); [by vm_compute|].
  exists s', m. split; [exact Hm|apply Hl].
Defined.
