(* ===== verification/WebCache.v ===== *)
(** * The cache view of the web interface
      ([server/web/pages/template/pages/static/js/main.c4612288.chunk.js])

    The "snake" shows one block per piece of the torrent.  [useCreateCacheMap] turns
    the state reported by the server ([Cache.GetState]) into blocks,
    [getShortCacheMap] keeps the non-empty ones and pads the last row, and the
    drawing effect places block [i] in a grid.  The functions are nested in one line
    of the bundle; they carry their source names here.  A JavaScript number that is
    not a number is [None]; percentages are binary64 values. *)

From Stdlib Require Import SpecFloat QArith Lqa.
From S2P Require Import Prelude GoFloat Ranges CacheState Reader Cache.
#[local] Open Scope Z_scope.

Record block := mkBlock {
  b_id : Z;
  b_percentage : float64;
  b_priority : Z;
  b_isReader : bool;
  b_isReaderRange : bool;
}.

Definition f_zero : float64 := S754_zero false.

(** [x || 0] *)
Definition or_zero (x : float64) : float64 :=
  match x with S754_nan | S754_zero _ => f_zero | _ => x end.

(** [Size / Length * 100 || 0], for a piece the state holds or not. *)
Definition percentage (it : option ItemState) : float64 :=
  match it with
  | Some it => or_zero (fmul (fdiv (of_int (it_Size it)) (of_int (it_Length it))) f_100)
  | None => f_zero
  end.

Definition create_block (st : CacheState) (i : Z) : block :=
  let it := cs_Pieces st !! i in
  mkBlock i (percentage it) (match it with Some it => it_Priority it | None => 0 end)
    (existsb (λ r, i =? rs_Reader r) (cs_Readers st))
    (existsb (λ r, (rs_Start r <=? i) && (i <? rs_End r)) (cs_Readers st)).

(** [for (let i = 0; i < PiecesCount; i++)] *)
Fixpoint create_blocks (n : nat) (i : Z) (st : CacheState) : list block :=
  match n with
  | O => []
  | S n => create_block st i :: create_blocks n (i + 1) st
  end.

Definition useCreateCacheMap (st : CacheState) : list block :=
  create_blocks (Z.to_nat (cs_PiecesCount st)) 0 st.

(** Comparisons of the drawing code. *)
Definition positive (x : float64) : bool := SFltb f_zero x.
Definition inProgress (b : block) : bool := positive (b_percentage b) && SFltb (b_percentage b) f_100.
Definition isCompleted (b : block) : bool := SFeqb (b_percentage b) f_100.

Inductive stroke := ReaderColor | CompleteColor | RangeColor | BorderColor.

Definition strokeStyle (b : block) : stroke :=
  if b_isReader b then ReaderColor
  else if inProgress b || isCompleted b then CompleteColor
  else if b_isReaderRange b then RangeColor else BorderColor.

(** ** The short view *)

(** JavaScript's [%] on integers: not a number for a zero divisor. *)
Definition js_rem (a p : Z) : option Z := if p =? 0 then None else Some (Z.rem a p).

Definition getFullAmountOfBlocks (piecesInOneRow : Z) (amountOfBlocks : option Z) : Z :=
  match amountOfBlocks with
  | None => 0
  | Some a =>
      match js_rem a piecesInOneRow with
      | None => 0
      | Some 0 => a - 1
      | Some m => a + piecesInOneRow - m - 1
      end
  end.

(** [preloadPiecesAmount] is not a number while the state is still empty.  The
    result lists the blocks, [None] standing for an empty object; [new Array] of a
    negative length throws ([Panic]). *)
Definition getShortCacheMap (cacheMap : list block) (preloadPiecesAmount : option Z) (piecesInOneRow : Z)
    : outcome (list (option block)) :=
  let full := filter (λ b, positive (b_percentage b) = true) cacheMap in
  let amount := getFullAmountOfBlocks piecesInOneRow preloadPiecesAmount in
  let scalable := getFullAmountOfBlocks piecesInOneRow (Some (len full)) in
  let final := Z.max scalable amount in
  let extra := final - len full + 1 in
  if extra =? 0 then Done (Some <$> full)
  else if extra <? 0 then Panic
  else Done ((Some <$> full) ++ replicate (Z.to_nat extra) None).

(** Where block [i] is drawn: its place in the row and its row. *)
Definition cell (piecesInOneRow i : Z) : Z * Z := (Z.rem i piecesInOneRow, i / piecesInOneRow).
(** The rows of the canvas. *)
Definition rows (piecesInOneRow n : Z) : Z := - ((- n) / piecesInOneRow).

(** ** Properties *)

Lemma create_blocks_lookup n i st k :
  create_blocks n i st !! k = if decide (k < n)%nat then Some (create_block st (i + Z.of_nat k)) else None.
Proof.
  revert i k. induction n as [|n IH]; intros i k; cbn [create_blocks].
  - rewrite lookup_nil. by rewrite decide_False by lia.
  - destruct k as [|k]; cbn [lookup list_lookup]; [by rewrite decide_True, Z.add_0_r by lia|].
    rewrite IH. destruct (decide (k < n)%nat).
    + rewrite decide_True by lia. do 2 f_equal. lia.
    + by rewrite decide_False by lia.
Qed.

Lemma SFeqb_finite m e m' e' :
  SFeqb (S754_finite false m e) (S754_finite false m' e') = true → m = m' ∧ e = e'.
Proof.
  unfold SFeqb. cbn [SFcompare]. destruct (e ?= e') eqn:E1; try done. apply Z.compare_eq in E1 as ->.
  change (Pos.compare_cont Eq m m') with (m ?= m')%positive.
  destruct (m ?= m')%positive eqn:E2; try done. by apply Pos.compare_eq in E2 as ->.
Qed.

(** A float of value below 100 is not equal to 100. *)
Lemma fle_not_100 lo x B : fle lo x B → (B < 100)%Q → SFeqb (or_zero x) f_100 = false.
Proof.
  intros [(s&->&_)|(m&e&->&_&Hv)] HB; [by destruct s|]. cbn [or_zero].
  destruct (SFeqb _ _) eqn:E; [|done]. exfalso. unfold f_100 in E. apply SFeqb_finite in E as [-> ->].
  assert (Hc : (val 7036874417766400 (-46) == 100)%Q) by (by vm_compute). rewrite Hc in Hv. lra.
Qed.

Lemma percentage_bound sz pl :
  0 <= sz < pl → pl <= 2 ^ 50 → ∃ lo B, fle lo (fmul (fdiv (of_int sz) (of_int pl)) f_100) B ∧ (B < 100)%Q.
Proof.
  intros Hs Hp. assert (H53 : pl < 2 ^ 53) by (eapply Z.le_lt_trans; [apply Hp|by vm_compute]).
  destruct (of_int_exact pl) as (m&e&->&Hd&He&Hv); [lia|].
  assert (Hpos : (1 <= inject_Z pl)%Q) by (change 1%Q with (inject_Z 1); rewrite <- Zle_Qle; lia).
  assert (Hsz : fle (-52) (of_int sz) (inject_Z sz)).
  { destruct (decide (sz = 0)) as [->|]; [left; by exists false|].
    destruct (of_int_exact sz) as (m1&e1&->&_&He1&Hv1); [lia|]. right. exists m1, e1.
    split_and!; [done|lia|]. rewrite Hv1. apply Qle_refl. }
  assert (H700 : (1125899906842625 < pow2 700)%Q) by (by vm_compute).
  assert (H900 : (1000 < pow2 900)%Q) by (by vm_compute).
  assert (Hs0 : (0 <= inject_Z sz)%Q) by (change 0%Q with (inject_Z 0); rewrite <- Zle_Qle; lia).
  assert (Hsp : (inject_Z sz + 1 <= inject_Z pl)%Q).
  { change 1%Q with (inject_Z 1). rewrite <- inject_Z_plus, <- Zle_Qle. lia. }
  assert (Hpl : (inject_Z pl <= 1125899906842624)%Q).
  { change 1125899906842624%Q with (inject_Z (2 ^ 50)). by rewrite <- Zle_Qle. }
  pose proof (fdiv_le (-52) (of_int sz) (inject_Z sz) m e Hsz Hs0 ltac:(lia) ltac:(lia) Hd ltac:(lra)) as Hq.
  set (x := fdiv _ _) in *.
  assert (Hx : fle (-300) x (rnd * (inject_Z sz / inject_Z pl))).
  { eapply fle_mono; [| |apply Hq]; [lia|]. rewrite Hv. apply Qle_refl. }
  assert (Hr1 : (inject_Z sz / inject_Z pl <= 1125899906842623 # 1125899906842624)%Q).
  { apply Qle_shift_div_r; [lra|]. lra. }
  assert (Hr0 : (0 <= inject_Z sz / inject_Z pl)%Q) by (apply Qle_shift_div_l; lra).
  set (ratio := (inject_Z sz / inject_Z pl)%Q) in *.
  assert (Hrat : (0 <= rnd * ratio)%Q) by (apply Qmult_le_0_compat; [apply rnd_pos|done]).
  assert (Hb : (rnd * ratio <= rnd * (1125899906842623 # 1125899906842624))%Q).
  { rewrite !(Qmult_comm rnd). apply Qmult_le_compat_r; [done|apply rnd_pos]. }
  assert (Hk : (rnd * (1125899906842623 # 1125899906842624) <= 1)%Q) by (by vm_compute).
  assert (H100 : fle (-46) f_100 100).
  { right. exists 7036874417766400%positive, (-46). split_and!; [done|lia|by vm_compute]. }
  exists (-346), (rnd * (rnd * ratio * 100))%Q. split.
  - apply (fmul_le (-300) (-46) x f_100 (rnd * ratio) 100 Hx H100); [lia|lra|done|lra].
  - assert (Hfin : (rnd * (rnd * (1125899906842623 # 1125899906842624) * 100) < 100)%Q) by (by vm_compute).
    eapply Qle_lt_trans; [|apply Hfin]. rewrite !(Qmult_comm rnd).
    apply Qmult_le_compat_r; [|apply rnd_pos]. apply Qmult_le_compat_r; [|lra].
    apply Qmult_le_compat_r; [done|apply rnd_pos].
Qed.

(** A block is drawn as complete exactly when the piece is full. *)
Lemma isCompleted_iff st i it :
  cs_Pieces st !! i = Some it → 0 <= it_Size it <= it_Length it → 0 < it_Length it <= 2 ^ 50 →
  isCompleted (create_block st i) = true ↔ it_Size it = it_Length it.
Proof.
  intros Hi Hs Hl. unfold isCompleted, create_block. rewrite Hi. simpl.
  destruct (decide (it_Size it = it_Length it)) as [E|E].
  - split; [done|]. intros _. rewrite E. destruct (of_int_exact (it_Length it)) as (m&e&->&Hd&_); [lia|].
    rewrite fdiv_self by done. by vm_compute.
  - split; [|done]. destruct (percentage_bound (it_Size it) (it_Length it)) as (lo&B&Hf&HB); [lia|lia|].
    rewrite (fle_not_100 lo _ B Hf HB). done.
Qed.

(** The snake has one block per piece, in order.  The block of a piece the
    server does not hold is drawn empty; a piece it holds is drawn as complete exactly
    when all its bytes are there, for every piece length up to 2^50; a block carries
    the reader's mark exactly when some reader stands in it, and the range mark
    exactly on the half-open window of some reader. *)
Theorem useCreateCacheMap_spec (st : CacheState) (k : nat) (b : block) :
  useCreateCacheMap st !! k = Some b →
  let i := Z.of_nat k in
  b_id b = i ∧ i < cs_PiecesCount st ∧
  (b_isReader b = true ↔ ∃ r, r ∈ cs_Readers st ∧ rs_Reader r = i) ∧
  (b_isReaderRange b = true ↔ ∃ r, r ∈ cs_Readers st ∧ rs_Start r <= i < rs_End r) ∧
  (cs_Pieces st !! i = None → inProgress b = false ∧ isCompleted b = false) ∧
  (∀ it, cs_Pieces st !! i = Some it → 0 <= it_Size it <= it_Length it → 0 < it_Length it <= 2 ^ 50 →
     isCompleted b = true ↔ it_Size it = it_Length it).
Proof.
  unfold useCreateCacheMap. rewrite create_blocks_lookup. case_decide as Hk; [|done].
  rewrite Z.add_0_l. intros [= <-]. cbn zeta. split_and!; [done|lia|..].
  - simpl. rewrite existsb_exists. setoid_rewrite list_elem_of_In. setoid_rewrite Z.eqb_eq.
    split; intros (r&?&?); exists r; split; done || lia.
  - simpl. rewrite existsb_exists. setoid_rewrite list_elem_of_In. setoid_rewrite andb_true_iff.
    setoid_rewrite Z.leb_le. setoid_rewrite Z.ltb_lt. done.
  - intros Hn. unfold inProgress, isCompleted, create_block. rewrite Hn. by vm_compute.
  - intros it Hi Hs Hl. by apply isCompleted_iff.
Qed.

Definition demo_state : CacheState :=
  mkCacheState 67108864 0 4194304 5
    (<[1 := mkItemState 1 4194304 4194304 true 0]> {[2 := mkItemState 2 4194303 4194304 false 5]})
    [mkReaderState 1 3 2].

Lemma useCreateCacheMap_spec_witness :
  ∃ b1 b2, useCreateCacheMap demo_state !! 1%nat = Some b1 ∧ useCreateCacheMap demo_state !! 2%nat = Some b2 ∧
    isCompleted b1 = true ∧ ¬ isCompleted b2 = true ∧ b_isReader b2 = true.
Proof.
  exists (create_block demo_state 1), (create_block demo_state 2).
  assert (E1 : useCreateCacheMap demo_state !! 1%nat = Some (create_block demo_state 1)) by done.
  assert (E2 : useCreateCacheMap demo_state !! 2%nat = Some (create_block demo_state 2)) by done.
  destruct (useCreateCacheMap_spec demo_state 1 _ E1) as (_&_&_&_&_&H1).
  destruct (useCreateCacheMap_spec demo_state 2 _ E2) as (_&_&H2r&_&_&H2).
  split; [exact E1|]. split; [exact E2|]. split; [|split].
  - apply (H1 (mkItemState 1 4194304 4194304 true 0)); [done|simpl; lia..|done].
  - rewrite (H2 (mkItemState 2 4194303 4194304 false 5)); [done|done|simpl; lia..].
  - apply H2r. exists (mkReaderState 1 3 2). split; [by apply list_elem_of_singleton|done].
Defined.

(** ** The short view *)

(** The least multiple of [p] not below [n]. *)
Definition round_up (p n : Z) : Z := - ((- n) / p) * p.

Lemma round_up_spec p n : 0 < p → n <= round_up p n < n + p ∧ round_up p n mod p = 0.
Proof.
  intros Hp. unfold round_up. pose proof (Z.div_mod (- n) p). pose proof (Z.mod_pos_bound (- n) p).
  split; [lia|]. by rewrite Z.mod_mul by lia.
Qed.

Lemma round_up_mono p a b : 0 < p → a <= b → round_up p a <= round_up p b.
Proof.
  intros Hp Hab. unfold round_up. assert (- b / p <= - a / p) by (apply Z.div_le_mono; lia). nia.
Qed.

Lemma getFull_round_up p n : 0 < p → 0 <= n → getFullAmountOfBlocks p (Some n) = round_up p n - 1.
Proof.
  intros Hp Hn. unfold getFullAmountOfBlocks, js_rem. rewrite (proj2 (Z.eqb_neq p 0)) by lia.
  rewrite Z.rem_mod_nonneg by lia. pose proof (Z.div_mod n p). pose proof (Z.mod_pos_bound n p).
  unfold round_up. destruct (n mod p) eqn:E; [|rewrite <- E|lia].
  - replace (- n) with (- (n / p) * p) by lia. rewrite Z.div_mul by lia. lia.
  - assert (- n / p = - (n / p) - 1) as ->; [|lia].
    symmetry. apply (Z.div_unique _ _ _ (p - n mod p)); lia.
Qed.

Lemma getFull_none p : getFullAmountOfBlocks p None = 0.
Proof. done. Qed.

Lemma short_len p full pre :
  0 < p → 0 <= full → 0 <= pre →
  Z.max (getFullAmountOfBlocks p (Some full)) (getFullAmountOfBlocks p (Some pre)) - full + 1 =
  round_up p (Z.max full pre) - full.
Proof.
  intros Hp Hf Hpre. rewrite !getFull_round_up by done.
  destruct (Z.max_spec full pre) as [[Hlt ->]|[Hle ->]].
  - pose proof (round_up_mono p full pre Hp ltac:(lia)). lia.
  - pose proof (round_up_mono p pre full Hp ltac:(lia)). lia.
Qed.

(** In a view at least one block wide, the short view never fails; it lists the
    blocks with data in their order, followed by empty ones up to the end of the row:
    its length is the least multiple of the row that holds both the data and the
    blocks to preload.  No block falls outside the canvas and no two blocks share a
    cell. *)
Theorem getShortCacheMap_spec (cacheMap : list block) (pre p : Z) :
  0 < p → 0 <= pre →
  ∃ short, getShortCacheMap cacheMap (Some pre) p = Done short ∧
    let full := filter (λ b, positive (b_percentage b) = true) cacheMap in
    take (length full) short = Some <$> full ∧
    Forall (λ o, o = None) (drop (length full) short) ∧
    len short = round_up p (Z.max (len full) pre) ∧
    (∀ i, 0 <= i < len short → 0 <= (cell p i).1 < p ∧ 0 <= (cell p i).2 < rows p (len short)) ∧
    (∀ i j, 0 <= i → 0 <= j → cell p i = cell p j → i = j).
Proof.
  intros Hp Hpre. unfold getShortCacheMap. set (full := filter _ cacheMap).
  pose proof (len_nonneg full) as Hl. rewrite short_len by done.
  destruct (round_up_spec p (Z.max (len full) pre) Hp) as [Hru _].
  set (n := round_up p (Z.max (len full) pre)) in *. set (extra := n - len full).
  assert (Hcell : ∀ i, 0 <= i → Z.rem i p = i mod p) by (intros; by rewrite Z.rem_mod_nonneg by lia).
  assert (Hgrid : ∀ i, 0 <= i < n → 0 <= (cell p i).1 < p ∧ 0 <= (cell p i).2 < rows p n).
  { intros i Hi. unfold cell, rows. simpl. rewrite Hcell by lia. split; [apply Z.mod_pos_bound; lia|].
    split; [apply Z.div_pos; lia|].
    pose proof (Z.div_mod (- n) p). pose proof (Z.mod_pos_bound (- n) p). apply Z.div_lt_upper_bound; lia. }
  assert (Hinj : ∀ i j, 0 <= i → 0 <= j → cell p i = cell p j → i = j).
  { intros i j Hi Hj [= E1 E2]. rewrite !Hcell in E1 by done.
    rewrite (Z.div_mod i p), (Z.div_mod j p) by lia. by rewrite E1, E2. }
  assert (Hlen : ∀ x, 0 <= x → len ((Some <$> full) ++ replicate (Z.to_nat x) None) = len full + x).
  { intros x Hx. rewrite len_app. unfold len. rewrite length_fmap, length_replicate. lia. }
  destruct (extra =? 0) eqn:E; reflect_bools.
  - exists (Some <$> full). split; [done|]. cbv zeta.
    assert (Hn : len (Some <$> full) = n) by (subst extra; unfold len in *; rewrite length_fmap; lia).
    rewrite Hn. split_and!; try done; [by rewrite take_ge by (by rewrite length_fmap)|].
    rewrite drop_ge by (by rewrite length_fmap). constructor.
  - destruct (extra <? 0) eqn:E2; reflect_bools; [subst extra; lia|]. eexists. split; [done|]. cbv zeta.
    assert (Hn : len ((Some <$> full) ++ replicate (Z.to_nat extra) (@None block)) = n)
      by (rewrite Hlen by lia; subst extra; lia).
    rewrite Hn. split_and!; try done.
    + rewrite take_app_le by (by rewrite length_fmap). by rewrite take_ge by (by rewrite length_fmap).
    + rewrite drop_app_ge by (by rewrite length_fmap). rewrite length_fmap, Nat.sub_diag. simpl.
      apply Forall_replicate. done.
Qed.

Lemma getShortCacheMap_spec_witness :
  ∃ short, getShortCacheMap (useCreateCacheMap demo_state) (Some 15) 6 = Done short ∧ len short = 18.
Proof.
  destruct (getShortCacheMap_spec (useCreateCacheMap demo_state) 15 6) as (s&Hs&_&_&Hl&_); [lia..|].
  exists s. split; [exact Hs|]. rewrite Hl. by vm_compute.
Defined.

(** In a view narrower than one block the short view fails as soon as two pieces
    hold data: the padding comes out negative and creating the array throws. *)
Theorem getShortCacheMap_narrow (cacheMap : list block) (pre : option Z) :
  2 <= len (filter (λ b, positive (b_percentage b) = true) cacheMap) →
  getShortCacheMap cacheMap pre 0 = Panic.
Proof.
  intros Hl. unfold getShortCacheMap. set (full := filter _ cacheMap) in *.
  assert (Hz : ∀ o, getFullAmountOfBlocks 0 o = 0) by (by intros [a|]). rewrite !Hz.
  rewrite (proj2 (Z.eqb_neq _ 0)) by lia. by rewrite (proj2 (Z.ltb_lt _ 0)) by lia.
Qed.

Lemma getShortCacheMap_narrow_witness :
  getShortCacheMap (useCreateCacheMap demo_state) (Some 15) 0 = Panic.
Proof. apply (getShortCacheMap_narrow (useCreateCacheMap demo_state) (Some 15)). by vm_compute. Defined.
