(* ===== verification/FileTypes.v ===== *)
(** * File names: playable types and the order of files

    The server decides by extension which files of a torrent are media
    ([server/utils/filetypes.go]); the web interface has a list of its own
    ([main.c4612288.chunk.js]).  [server/utils/strings.go] compares names for the
    order of files ([server/torr/torrent.go]).  Names are lists of bytes; case is
    folded for ASCII letters, which is all the extension lists hold. *)

From Stdlib Require Import Ascii String.
From S2P Require Import Prelude.
#[local] Open Scope Z_scope.

Notation name := (list ascii).

Definition chars (s : string) : name := list_ascii_of_string s.

Definition dot : ascii := "."%char.
Definition slash : ascii := "/"%char.

Definition lower (c : ascii) : ascii :=
  let n := nat_of_ascii c in
  if (65 <=? n)%nat && (n <=? 90)%nat then ascii_of_nat (n + 32) else c.

(** ** The server's lists *)

Definition extVideo : list string :=
  [".3g2"; ".3gp"; ".aaf"; ".asf"; ".avchd"; ".avi"; ".drc"; ".dv"; ".flv"; ".iso"; ".m2ts";
  ".m2v"; ".m4p"; ".m4v"; ".mkv"; ".mng"; ".mov"; ".mp2"; ".mp4"; ".mpe"; ".mpeg"; ".mpg";
  ".mpv"; ".mts"; ".mxf"; ".nsv"; ".ogv"; ".qt"; ".rm"; ".rmvb"; ".roq"; ".svi"; ".ts"; ".vob";
  ".webm"; ".wmv"; ".yuv"].

Definition extAudio : list string :=
  [".aac"; ".ac3"; ".aiff"; ".ape"; ".au"; ".dff"; ".dsf"; ".flac"; ".gsm"; ".it"; ".m3u";
  ".m4a"; ".mid"; ".mod"; ".mp3"; ".mpa"; ".mpga"; ".oga"; ".ogg"; ".opus"; ".pls"; ".ra";
  ".s3m"; ".sid"; ".spx"; ".wav"; ".weba"; ".wma"; ".wv"; ".wvc"; ".xm"].

(** [filepath.Ext]: from the last dot on, unless a separator comes after it; the
    loop runs over the name from its end, [acc] is what it has passed. *)
Fixpoint Ext_loop (rest acc : name) : name :=
  match rest with
  | [] => []
  | c :: rest => if decide (c = slash) then []
                 else if decide (c = dot) then c :: acc else Ext_loop rest (c :: acc)
  end.

Definition Ext (path : name) : name := Ext_loop (rev path) [].

Definition in_list (e : name) (l : list string) : bool := existsb (λ x, bool_decide (e = chars x)) l.

Inductive mime := Video | Audio | Any.

#[export] Instance mime_eq_dec : EqDecision mime.
Proof. solve_decision. Defined.

Definition GetMimeType (filename : name) : mime :=
  let ext := lower <$> Ext filename in
  if in_list ext extVideo then Video else if in_list ext extAudio then Audio else Any.

Definition GetPlayableFiles {A} (path : A → name) (files : list A) : list A :=
  filter (λ f, GetMimeType (path f) ≠ Any) files.

(** ** The web interface's list *)

Definition playableExtList : list string :=
  ["3g2"; "3gp"; "aaf"; "asf"; "avchd"; "avi"; "drc"; "dv"; "flv"; "iso"; "m2ts"; "m2v"; "m4p";
  "m4v"; "mk3d"; "mkv"; "mng"; "mov"; "mp2"; "mp4"; "mpe"; "mpeg"; "mpg"; "mpv"; "mts"; "mxf";
  "nsv"; "ogv"; "qt"; "rm"; "rmvb"; "roq"; "svi"; "ts"; "vob"; "webm"; "wmv"; "yuv"; "aac";
  "ac3"; "aiff"; "ape"; "au"; "dff"; "dsf"; "flac"; "gsm"; "it"; "m3u"; "m4a"; "mid"; "mod";
  "mp3"; "mpa"; "mpga"; "oga"; "ogg"; "opus"; "pls"; "ra"; "s3m"; "sid"; "spx"; "wav"; "weba";
  "wma"; "wv"; "wvc"; "xm"].

(** [s.split('.')] *)
Fixpoint split_dot (s : name) : list name :=
  match s with
  | [] => [[]]
  | c :: s =>
      if decide (c = dot) then [] :: split_dot s
      else match split_dot s with
           | w :: ws => (c :: w) :: ws
           | [] => [[c]]
           end
  end.

Definition getExt (filename : name) : name :=
  let ext := default [] (last (split_dot filename)) in
  if decide (ext = filename) then [] else lower <$> ext.

Definition isFilePlayable (fileName : name) : bool := in_list (getExt fileName) playableExtList.

(** ** The order of files *)

Fixpoint CommonPrefix (first second : name) : name :=
  match first, second with
  | a :: first, b :: second => if decide (a = b) then a :: CommonPrefix first second else []
  | _, _ => []
  end.

(** [strings.TrimPrefix] *)
Fixpoint TrimPrefix (s prefix : name) : option name :=
  match prefix, s with
  | [], _ => Some s
  | p :: prefix, c :: s => if decide (p = c) then TrimPrefix s prefix else None
  | _ :: _, [] => None
  end.
Definition trim_prefix (s prefix : name) : name := default s (TrimPrefix s prefix).

Definition IsDigit (c : ascii) : bool := let n := nat_of_ascii c in (48 <=? n)%nat && (n <=? 57)%nat.
Definition digit (c : ascii) : Z := Z.of_nat (nat_of_ascii c) - 48.

Fixpoint digits (s : name) : name :=
  match s with [] => [] | c :: s => if IsDigit c then c :: digits s else [] end.

Definition number (ds : name) : Z := foldl (λ acc c, acc * 10 + digit c) 0 ds.

(** [strconv.Atoi] on a string of digits: an error when it is empty or too big. *)
Definition Atoi (ds : name) : option Z :=
  match ds with
  | [] => None
  | _ => if number ds <? two63 then Some (number ds) else None
  end.

Definition NumberPrefix (s : name) : option Z := Atoi (digits s).

(** The order of Go strings. *)
Fixpoint str_lt (a b : name) : bool :=
  match a, b with
  | [], [] => false
  | [], _ :: _ => true
  | _ :: _, [] => false
  | x :: a, y :: b =>
      if decide (x = y) then str_lt a b else (nat_of_ascii x <? nat_of_ascii y)%nat
  end.

Definition CompareStrings (first second : name) : bool :=
  let commonPrefix := CommonPrefix first second in
  let resultStr1 := trim_prefix first commonPrefix in
  let resultStr2 := trim_prefix second commonPrefix in
  match NumberPrefix resultStr1, NumberPrefix resultStr2 with
  | Some num1, Some num2 => num1 <? num2
  | Some _, None => true
  | None, Some _ => false
  | None, None => str_lt resultStr1 resultStr2
  end.

(** ** Lemmas *)

Lemma in_list_spec e l : in_list e l = true ↔ ∃ s, s ∈ l ∧ e = chars s.
Proof.
  unfold in_list. rewrite existsb_exists. setoid_rewrite list_elem_of_In. by setoid_rewrite bool_decide_eq_true.
Qed.

Lemma split_dot_cons s : ∃ w ws, split_dot s = w :: ws.
Proof.
  induction s as [|c s (w&ws&IH)]; simpl; [by eexists _, _|]. destruct (decide (c = dot)); [by eexists _, _|].
  rewrite IH. by eexists _, _.
Qed.

Lemma split_dot_none s : dot ∉ s → split_dot s = [s].
Proof.
  induction s as [|c s IH]; intros Hd; simpl; [done|]. apply not_elem_of_cons in Hd as [Hne Hd].
  rewrite decide_False by congruence. by rewrite IH.
Qed.

Lemma split_dot_last pre e : dot ∉ e → last (split_dot (pre ++ dot :: e)) = Some e.
Proof.
  intros Hd. induction pre as [|c pre IH]; cbn [app split_dot].
  - rewrite decide_True by done. by rewrite split_dot_none.
  - destruct (split_dot_cons (pre ++ dot :: e)) as (w&ws&E). rewrite E in IH.
    destruct (decide (c = dot)); rewrite E; [done|]. destruct ws; [|done].
    exfalso. clear -E. assert (∀ s, split_dot s = [w] → dot ∉ s) as H.
    { clear. intros s. revert w. induction s as [|x s IH]; intros w H; [by apply not_elem_of_nil|]. simpl in H.
      destruct (split_dot_cons s) as (v&vs&E). rewrite E in H. destruct (decide (x = dot)); [done|].
      injection H as _ ->. apply not_elem_of_cons. split; [congruence|]. by eapply IH. }
    apply (H _ E). set_solver.
Qed.

Lemma Ext_loop_spec e pre acc :
  dot ∉ e → Ext_loop (e ++ dot :: pre) acc = if decide (slash ∈ e) then [] else dot :: rev e ++ acc.
Proof.
  revert acc. induction e as [|c e IH]; intros acc Hd; cbn [app Ext_loop].
  - by rewrite decide_False, decide_True, decide_False by (done || apply not_elem_of_nil).
  - apply not_elem_of_cons in Hd as [Hne Hd]. destruct (decide (c = slash)) as [->|Hs].
    + by rewrite decide_True by set_solver.
    + rewrite decide_False by congruence. rewrite IH by done.
      destruct (decide (slash ∈ e)); [by rewrite decide_True by set_solver|].
      rewrite decide_False by set_solver. simpl. by rewrite <- app_assoc.
Qed.

Lemma Ext_loop_none s acc : dot ∉ s → Ext_loop s acc = [].
Proof.
  revert acc. induction s as [|c s IH]; intros acc Hd; cbn [Ext_loop]; [done|].
  apply not_elem_of_cons in Hd as [Hne Hd]. destruct (decide (c = slash)); [done|].
  rewrite decide_False by congruence. by apply IH.
Qed.

Lemma last_dot (s : name) : dot ∉ s ∨ ∃ pre e, s = pre ++ dot :: e ∧ dot ∉ e.
Proof.
  destruct (decide (dot ∈ s)) as [Hin|]; [right|by left].
  apply list_elem_of_split_r in Hin as (pre&e&->&He). by exists pre, e.
Qed.

Lemma Ext_dot pre e : dot ∉ e → Ext (pre ++ dot :: e) = if decide (slash ∈ e) then [] else dot :: e.
Proof.
  intros Hd. unfold Ext. rewrite rev_app_distr. simpl rev. rewrite <- app_assoc. simpl.
  rewrite Ext_loop_spec by (intros H; apply Hd; by apply list_elem_of_In, in_rev, list_elem_of_In).
  rewrite rev_involutive, app_nil_r.
  assert (slash ∈ rev e ↔ slash ∈ e) as Hiff by (rewrite !list_elem_of_In; symmetry; apply in_rev).
  by destruct (decide (slash ∈ rev e)), (decide (slash ∈ e)); try done; tauto.
Qed.

Lemma getExt_dot pre e : dot ∉ e → getExt (pre ++ dot :: e) = lower <$> e.
Proof.
  intros Hd. unfold getExt. rewrite split_dot_last by done. simpl. rewrite decide_False; [done|].
  intros E. apply (f_equal length) in E. rewrite length_app in E. simpl in E. lia.
Qed.

Lemma getExt_none s : dot ∉ s → getExt s = [].
Proof. intros Hd. unfold getExt. rewrite split_dot_none by done. simpl. by rewrite decide_True. Qed.

Lemma lower_slash (e : name) : slash ∈ e → slash ∈ (lower <$> e).
Proof. intros H. apply list_elem_of_fmap. by exists slash. Qed.

(** ** Properties *)

Definition mk3d : name := chars "mk3d".
Definition media : list string := extVideo ++ extAudio.

Lemma media_playable : Forall (λ s, ∃ t, t ∈ playableExtList ∧ chars s = dot :: chars t ∧ chars t ≠ mk3d) media.
Proof.
  assert (H : forallb (λ s, existsb (λ t, bool_decide (chars s = dot :: chars t) &&
    bool_decide (chars t ≠ mk3d)) playableExtList) media = true) by (by vm_compute).
  apply Forall_forall. intros s Hs. rewrite forallb_forall in H. apply list_elem_of_In, H, existsb_exists in Hs as (t&Ht&Hb).
  apply andb_true_iff in Hb as [H1%bool_decide_eq_true H2%bool_decide_eq_true].
  exists t. split; [by apply list_elem_of_In|done].
Qed.

Lemma playable_media : Forall (λ t, (chars t = mk3d ∨ ∃ s, s ∈ media ∧ chars s = dot :: chars t) ∧
  slash ∉ chars t ∧ chars t ≠ []) playableExtList.
Proof.
  assert (H : forallb (λ t, (bool_decide (chars t = mk3d) || existsb (λ s, bool_decide (chars s = dot :: chars t)) media) &&
    bool_decide (slash ∉ chars t) && bool_decide (chars t ≠ [])) playableExtList = true) by (by vm_compute).
  apply Forall_forall. intros t Ht. rewrite forallb_forall in H. apply list_elem_of_In, H in Ht.
  apply andb_true_iff in Ht as [[Ht H1%bool_decide_eq_true]%andb_true_iff H2%bool_decide_eq_true].
  split; [|done]. apply orb_true_iff in Ht as [Ht%bool_decide_eq_true|Ht]; [by left|right].
  apply existsb_exists in Ht as (s&Hs&Hb%bool_decide_eq_true). exists s. split; [by apply list_elem_of_In|done].
Qed.

Lemma GetMimeType_media n : GetMimeType n ≠ Any ↔ ∃ s, s ∈ media ∧ lower <$> Ext n = chars s.
Proof.
  unfold GetMimeType, media. setoid_rewrite elem_of_app.
  pose proof (in_list_spec (lower <$> Ext n) extVideo) as Hv. pose proof (in_list_spec (lower <$> Ext n) extAudio) as Ha.
  destruct (in_list _ extVideo), (in_list _ extAudio); naive_solver.
Qed.

Lemma no_media_empty : ¬ ∃ s, s ∈ media ∧ [] = chars s.
Proof.
  intros (s&Hs&E). pose proof media_playable as H. rewrite Forall_forall in H. apply H in Hs as (t&_&Ht&_). congruence.
Qed.

(** The interface and the server agree on what can be played, for every file
    name, with one exception: the interface also plays [.mk3d] files, which the server
    leaves out of its playlists. *)
Theorem playable_agree (n : name) :
  isFilePlayable n = true ↔ GetMimeType n ≠ Any ∨ getExt n = mk3d.
Proof.
  unfold isFilePlayable. rewrite in_list_spec, GetMimeType_media.
  pose proof playable_media as HJ. rewrite Forall_forall in HJ. pose proof media_playable as HM. rewrite Forall_forall in HM.
  assert (Hmk : "mk3d"%string ∈ playableExtList) by (apply list_elem_of_In; vm_compute; tauto).
  destruct (last_dot n) as [Hd|(pre&e&->&Hd)].
  - rewrite getExt_none by done. assert (Ext n = []) as ->.
    { unfold Ext. apply Ext_loop_none. intros H. apply Hd. by apply list_elem_of_In, in_rev, list_elem_of_In. }
    split.
    + intros (t&Ht&E). apply HJ in Ht as (_&_&Hne). by rewrite <- E in Hne.
    + intros [H|H]; [by apply no_media_empty in H|done].
  - rewrite getExt_dot, Ext_dot by done. destruct (decide (slash ∈ e)) as [Hs|Hs].
    + split.
      * intros (t&Ht&E). apply HJ in Ht as (_&Hn&_). exfalso. apply Hn. rewrite <- E. by apply lower_slash.
      * intros [H|H]; [by apply no_media_empty in H|]. exists "mk3d"%string. by split.
    + split.
      * intros (t&Ht&E). destruct (HJ t Ht) as ([Hk|(s&Hs'&E')]&_); [right; congruence|left].
        exists s. split; [done|]. rewrite E'.
        change (lower <$> dot :: e) with (dot :: (lower <$> e)). by rewrite E.
      * intros [(s&Hs'&E)|H]; [|exists "mk3d"%string; by split].
        apply HM in Hs' as (t&Ht&E'&_). exists t. split; [done|].
        change (lower <$> dot :: e) with (dot :: (lower <$> e)) in E. rewrite E' in E. by injection E.
Qed.

Lemma CommonPrefix_sym a b : CommonPrefix a b = CommonPrefix b a.
Proof.
  revert b. induction a as [|x a IH]; intros [|y b]; simpl; try done.
  destruct (decide (x = y)) as [->|]; [|by rewrite decide_False by congruence].
  rewrite decide_True by done. by rewrite IH.
Qed.

Lemma str_lt_asym a b : str_lt a b = true → str_lt b a = false.
Proof.
  revert b. induction a as [|x a IH]; intros [|y b]; simpl; try done.
  destruct (decide (x = y)) as [->|]; [rewrite decide_True by done; apply IH|].
  rewrite decide_False by congruence. rewrite Nat.ltb_lt, Nat.ltb_ge. lia.
Qed.

Lemma trim_prefix_app p s : trim_prefix (p ++ s) p = s.
Proof.
  assert (TrimPrefix (p ++ s) p = Some s) as E.
  { induction p as [|x p IH]; [by destruct s|]. simpl. by rewrite decide_True. }
  unfold trim_prefix. by rewrite E.
Qed.

Lemma CommonPrefix_app p a b :
  head a ≠ head b → CommonPrefix (p ++ a) (p ++ b) = p.
Proof.
  intros Hh. induction p as [|x p IH]; simpl; [|by rewrite decide_True, IH by done].
  destruct a as [|x a], b as [|y b]; try done. simpl in *. by rewrite decide_False by congruence.
Qed.

Lemma digits_app ds r :
  forallb IsDigit ds = true → match r with [] => True | c :: _ => IsDigit c = false end → digits (ds ++ r) = ds.
Proof.
  intros Hd Hr. induction ds as [|c ds IH]; simpl in *.
  - destruct r; simpl; [done|]. by rewrite Hr.
  - apply andb_true_iff in Hd as [-> Hd]. by rewrite IH.
Qed.

(** Names that share a stem and then continue with numbers of different first
    digits are ordered by the numbers, and no two names are each less than the
    other. *)
Theorem CompareStrings_numeric (p d1 r1 d2 r2 : name) :
  d1 ≠ [] → d2 ≠ [] → head d1 ≠ head d2 → forallb IsDigit d1 = true → forallb IsDigit d2 = true →
  match r1 with [] => True | c :: _ => IsDigit c = false end →
  match r2 with [] => True | c :: _ => IsDigit c = false end →
  number d1 < two63 → number d2 < two63 →
  CompareStrings (p ++ d1 ++ r1) (p ++ d2 ++ r2) = (number d1 <? number d2) ∧
  (∀ a b, CompareStrings a b = true → CompareStrings b a = false).
Proof.
  intros Hn1 Hn2 Hh Hd1 Hd2 Hr1 Hr2 H1 H2. split.
  - unfold CompareStrings. assert (Hc : CommonPrefix (p ++ d1 ++ r1) (p ++ d2 ++ r2) = p).
    { apply CommonPrefix_app. destruct d1, d2; done. }
    rewrite Hc, !trim_prefix_app. unfold NumberPrefix. rewrite !digits_app by done. unfold Atoi.
    destruct d1; [done|]. destruct d2; [done|]. by rewrite !(proj2 (Z.ltb_lt _ _)) by done.
  - intros a b. unfold CompareStrings. rewrite (CommonPrefix_sym b a). cbv zeta.
    destruct (NumberPrefix (trim_prefix a _)), (NumberPrefix (trim_prefix b _)); try done.
    + intros. zlia.
    + apply str_lt_asym.
Qed.

Lemma CompareStrings_numeric_witness :
  CompareStrings (chars "ep" ++ chars "9" ++ chars ".mkv") (chars "ep" ++ chars "10" ++ chars ".mkv") = true.
Proof.
  destruct (CompareStrings_numeric (chars "ep") (chars "9") (chars ".mkv") (chars "10") (chars ".mkv")) as [-> _];
    by vm_compute.
Defined.

(** The comparison is not an order.  Episodes 10, 1 and 2 are each less than the
    next, around a cycle: when the shared stem swallows the first digits of a number,
    what is left of it decides.  So no arrangement of the three files is sorted, and
    the file numbers of a torrent depend on the sorting algorithm. *)
Theorem CompareStrings_cycle :
  let ep1 := chars "ep1.mkv" in let ep2 := chars "ep2.mkv" in let ep10 := chars "ep10.mkv" in
  CompareStrings ep10 ep1 = true ∧ CompareStrings ep1 ep2 = true ∧ CompareStrings ep2 ep10 = true ∧
  ∀ l, l ≡ₚ [ep1; ep2; ep10] → ¬ StronglySorted (λ a b, CompareStrings b a = false) l.
Proof.
  cbv zeta. assert (C1 : CompareStrings (chars "ep10.mkv") (chars "ep1.mkv") = true) by (by vm_compute).
  assert (C2 : CompareStrings (chars "ep1.mkv") (chars "ep2.mkv") = true) by (by vm_compute).
  assert (C3 : CompareStrings (chars "ep2.mkv") (chars "ep10.mkv") = true) by (by vm_compute).
  split_and!; try done. intros l Hp Hs.
  set (e1 := chars "ep1.mkv") in *. set (e2 := chars "ep2.mkv") in *. set (e3 := chars "ep10.mkv") in *.
  destruct l as [|x l]; [by apply Permutation_nil_l in Hp|].
  apply StronglySorted_inv in Hs as [_ Hx]. rewrite Forall_forall in Hx.
  assert (Hin : ∀ y, y ∈ [e1; e2; e3] → y = x ∨ CompareStrings y x = false).
  { intros y Hy. rewrite <- Hp in Hy. apply elem_of_cons in Hy as [->|Hy]; [by left|right; by apply Hx]. }
  assert (Hxin : x ∈ [e1; e2; e3]) by (rewrite <- Hp; set_solver).
  assert (N12 : e1 ≠ e2) by done. assert (N13 : e1 ≠ e3) by done. assert (N23 : e2 ≠ e3) by done.
  apply elem_of_cons in Hxin as [->|Hxin]; [destruct (Hin e3); [set_solver|done|congruence]|].
  apply elem_of_cons in Hxin as [->|Hxin]; [destruct (Hin e1); [set_solver|done|congruence]|].
  apply list_elem_of_singleton in Hxin as ->. destruct (Hin e2); [set_solver|done|congruence].
Qed.
