(* ===== verification/GoText.v ===== *)
(** * Text as Go's standard library handles it

    Strings are lists of bytes.  The functions of [strings], [strconv] and
    [encoding/hex] the program uses: trimming of white space, decimal and
    hexadecimal numbers, the runes of a string, and positional notation in any
    base, with the lemmas that make conversion and parsing inverse. *)

From Stdlib Require Import Ascii String.
From S2P Require Import Prelude.
#[local] Open Scope Z_scope.

Notation bytes := (list Z).

Definition str (s : string) : bytes := (λ c, Z.of_nat (nat_of_ascii c)) <$> list_ascii_of_string s.

(** ** Positional notation *)

(** The digits of [x] in base [B], least significant first, while [x > 0]. *)
Fixpoint digit_loop (fuel : nat) (B x : Z) : list Z :=
  match fuel with
  | O => []
  | S fuel => if 0 <? x then x mod B :: digit_loop fuel B (x / B) else []
  end.

Definition fuel_for (x : Z) : nat := Z.to_nat (Z.log2 x + 1).

(** The digits, most significant first. *)
Definition to_base (B x : Z) : list Z := rev (digit_loop (fuel_for x) B x).

Definition from_base (B : Z) (ds : list Z) : Z := foldl (λ acc d, acc * B + d) 0 ds.

Definition is_alnum (c : Z) : bool :=
  ((48 <=? c) && (c <=? 57)) || ((65 <=? c) && (c <=? 90)) || ((97 <=? c) && (c <=? 122)).

(** The runes a [range] loop takes from a string: a byte that starts no UTF-8
    sequence is U+FFFD on its own. *)
Definition cont (lo hi c : Z) : bool := (lo <=? c) && (c <=? hi).

Fixpoint runes (s : bytes) : list Z :=
  match s with
  | [] => []
  | a :: s1 =>
      if a <? 128 then a :: runes s1
      else
        match s1 with
        | b :: s2 =>
            if cont 194 223 a && cont 128 191 b then (a - 192) * 64 + (b - 128) :: runes s2
            else
              match s2 with
              | c :: s3 =>
                  let lo := if a =? 224 then 160 else 128 in
                  let hi := if a =? 237 then 159 else 191 in
                  if cont 224 239 a && cont lo hi b && cont 128 191 c
                  then (a - 224) * 4096 + (b - 128) * 64 + (c - 128) :: runes s3
                  else
                    match s3 with
                    | d :: s4 =>
                        let lo := if a =? 240 then 144 else 128 in
                        let hi := if a =? 244 then 143 else 191 in
                        if cont 240 244 a && cont lo hi b && cont 128 191 c && cont 128 191 d
                        then (a - 240) * 262144 + (b - 128) * 4096 + (c - 128) * 64 + (d - 128) :: runes s4
                        else 65533 :: runes s1
                    | [] => 65533 :: runes s1
                    end
              | [] => 65533 :: runes s1
              end
        | [] => 65533 :: runes s1
        end
  end.

(** ** Trimming *)

(** The encodings of the white space characters [strings.TrimSpace] removes. *)
Definition spaces : list bytes :=
  [[9]; [10]; [11]; [12]; [13]; [32]; [194; 133]; [194; 160]; [225; 154; 128]] ++
  ((λ k, [226; 128; 128 + Z.of_nat k]) <$> seq 0 11) ++
  [[226; 128; 168]; [226; 128; 169]; [226; 128; 175]; [226; 129; 159]; [227; 128; 128]].

Fixpoint strip_prefix (p s : bytes) : option bytes :=
  match p, s with
  | [], _ => Some s
  | x :: p, y :: s => if x =? y then strip_prefix p s else None
  | _, [] => None
  end.

Definition starts_with (p s : bytes) : bool := bool_decide (is_Some (strip_prefix p s)).

Fixpoint first_match (ps : list bytes) (s : bytes) : option bytes :=
  match ps with
  | [] => None
  | p :: ps => match strip_prefix p s with Some r => Some r | None => first_match ps s end
  end.

Fixpoint trim_loop (fuel : nat) (ps : list bytes) (s : bytes) : bytes :=
  match fuel with
  | O => s
  | S fuel => match first_match ps s with Some r => trim_loop fuel ps r | None => s end
  end.

Definition TrimSpace (s : bytes) : bytes :=
  let l := trim_loop (length s) spaces s in
  rev (trim_loop (length l) (@rev Z <$> spaces) (rev l)).

(** ** Order *)

(** [strings.Compare], the order of strings. *)
Fixpoint compare_text (a b : bytes) : Z :=
  match a, b with
  | [], [] => 0
  | [], _ => -1
  | _, [] => 1
  | x :: a, y :: b => if x <? y then -1 else if y <? x then 1 else compare_text a b
  end.

Lemma compare_text_flip a b : compare_text b a = - compare_text a b.
Proof.
  revert b. induction a as [|x a IH]; intros [|y b]; try done. cbn. destruct (y <? x) eqn:E1, (x <? y) eqn:E2; reflect_bools; try lia; apply IH.
Qed.

Lemma compare_text_trans a b c : compare_text a b <= 0 → compare_text b c <= 0 → compare_text a c <= 0.
Proof.
  revert b c. induction a as [|x a IH]; intros [|y b] [|z c]; cbn; try lia.
  destruct (x <? y) eqn:E1, (y <? x) eqn:E2, (y <? z) eqn:E3, (z <? y) eqn:E4, (x <? z) eqn:E5, (z <? x) eqn:E6; reflect_bools; try lia; apply IH.
Qed.

(** ** Numbers in text *)

(** [strconv.FormatInt(z, 10)] *)
Definition FormatInt (z : Z) : bytes :=
  if z =? 0 then [48] else (if z <? 0 then [45] else []) ++ ((λ d, 48 + d) <$> to_base 10 (Z.abs z)).

Definition is_digit (c : Z) : bool := (48 <=? c) && (c <=? 57).

(** [strconv.ParseInt(s, 10, 64)] *)
Definition ParseInt (s : bytes) : option Z :=
  let '(neg, ds) := match s with
                    | 43 :: ds => (false, ds)
                    | 45 :: ds => (true, ds)
                    | _ => (false, s)
                    end in
  if (len ds =? 0) || negb (forallb is_digit ds) then None
  else
    let v := from_base 10 ((λ c, c - 48) <$> ds) in
    if negb neg && (two63 <=? v) then None
    else if neg && (two63 <? v) then None
    else Some (if neg then - v else v).

(** [hex.DecodeString]: the bytes decoded up to the first error. *)
Definition hex_val (c : Z) : option Z :=
  if (48 <=? c) && (c <=? 57) then Some (c - 48)
  else if (97 <=? c) && (c <=? 102) then Some (c - 87)
  else if (65 <=? c) && (c <=? 70) then Some (c - 55)
  else None.

Fixpoint hex_decode (s : bytes) : bytes :=
  match s with
  | a :: b :: s =>
      match hex_val a, hex_val b with
      | Some x, Some y => x * 16 + y :: hex_decode s
      | _, _ => []
      end
  | _ => []
  end.

Definition hex_digit (x : Z) : Z := if x <? 10 then 48 + x else 87 + x.
Fixpoint hex_encode (b : bytes) : bytes :=
  match b with [] => [] | x :: b => hex_digit (x / 16) :: hex_digit (x mod 16) :: hex_encode b end.

(** ** Positional notation *)

Lemma from_base_app B ds es : from_base B (ds ++ es) = from_base B ds * B ^ len es + from_base B es.
Proof.
  unfold from_base. rewrite foldl_app. generalize (foldl (λ acc d, acc * B + d) 0 ds).
  induction es as [|x es IH] using rev_ind; intros acc; simpl.
  - rewrite len_nil, Z.pow_0_r. lia.
  - rewrite !foldl_app. simpl. rewrite (IH acc), len_app. pose proof (len_nonneg es). change (len [x]) with 1.
    rewrite Z.pow_add_r, Z.pow_1_r by lia. lia.
Qed.

Lemma from_base_snoc B ds d : from_base B (ds ++ [d]) = from_base B ds * B + d.
Proof. rewrite from_base_app. change (len [d]) with 1. rewrite Z.pow_1_r. done. Qed.

Section Base.
Context (B : Z) (HB : 2 <= B).

Definition ranged (ds : list Z) : Prop := Forall (λ d, 0 <= d < B) ds.

Lemma digit_loop_value fuel x : 0 <= x < 2 ^ Z.of_nat fuel → from_base B (rev (digit_loop fuel B x)) = x.
Proof.
  revert x. induction fuel as [|fuel IH]; intros x Hx; simpl digit_loop.
  { change (2 ^ Z.of_nat 0) with 1 in Hx. simpl. unfold from_base. simpl. lia. }
  destruct (0 <? x) eqn:E; reflect_bools; [|unfold from_base; simpl; lia].
  simpl rev. rewrite from_base_snoc, IH.
  - rewrite Z.mul_comm. symmetry. apply Z.div_mod. lia.
  - split; [apply Z.div_pos; lia|]. rewrite Nat2Z.inj_succ, Z.pow_succ_r in Hx by lia.
    apply Z.div_lt_upper_bound; nia.
Qed.

Lemma to_base_value x : 0 <= x → from_base B (to_base B x) = x.
Proof.
  intros Hx. apply digit_loop_value. split; [done|]. unfold fuel_for.
  destruct (decide (x = 0)) as [->|]; [done|]. pose proof (Z.log2_spec x ltac:(lia)). pose proof (Z.log2_nonneg x).
  rewrite Z2Nat.id by lia. rewrite <- Z.add_1_r in H. lia.
Qed.

Lemma digit_loop_ranged fuel x : ranged (digit_loop fuel B x).
Proof.
  revert x. induction fuel as [|fuel IH]; intros x; simpl; [constructor|]. destruct (0 <? x); constructor; [|apply IH].
  apply Z.mod_pos_bound. lia.
Qed.

Lemma to_base_ranged x : ranged (to_base B x).
Proof. unfold to_base, ranged. apply Forall_rev, digit_loop_ranged. Qed.

(** A number has one representation without leading zeros. *)
Definition normal (ds : list Z) : Prop := match ds with [] => True | d :: _ => d ≠ 0 end.

Lemma from_base_nonneg ds : ranged ds → 0 <= from_base B ds.
Proof.
  induction ds as [|d ds IH] using rev_ind; intros Hr; [done|].
  apply Forall_app in Hr as [Hr [Hd _]%Forall_cons]. rewrite from_base_snoc. specialize (IH Hr).
  cbv beta in Hd. nia.
Qed.

Lemma from_base_pos ds : ranged ds → normal ds → ds ≠ [] → 0 < from_base B ds.
Proof.
  intros Hr Hn Hne. destruct ds as [|d ds]; [done|]. change (d :: ds) with ([d] ++ ds). rewrite from_base_app.
  apply Forall_cons in Hr as [Hd Hr]. pose proof (from_base_nonneg ds Hr).
  assert (0 < B ^ len ds) by (apply Z.pow_pos_nonneg; [lia|apply len_nonneg]).
  simpl in Hn. assert (E : from_base B [d] = d) by (unfold from_base; simpl; lia). rewrite E.
  assert (1 * B ^ len ds <= d * B ^ len ds) by (apply Z.mul_le_mono_nonneg_r; lia). lia.
Qed.

Lemma digit_loop_unique fuel ds :
  ranged ds → normal ds → from_base B ds < 2 ^ Z.of_nat fuel → digit_loop fuel B (from_base B ds) = rev ds.
Proof.
  revert fuel. induction ds as [|d ds IH] using rev_ind; intros fuel Hr Hn Hf.
  { destruct fuel; [done|]. simpl. done. }
  assert (Hpos : 0 < from_base B (ds ++ [d])) by (apply from_base_pos; [done..|by destruct ds]).
  apply Forall_app in Hr as [Hr [Hd _]%Forall_cons]. rewrite rev_app_distr. simpl rev.
  destruct fuel as [|fuel]; [change (2 ^ Z.of_nat 0) with 1 in Hf; lia|]. simpl digit_loop.
  rewrite (proj2 (Z.ltb_lt _ _)) by done. rewrite from_base_snoc in *.
  rewrite (Z.add_comm _ d), Z.mod_add, Z.mod_small, Z.div_add, Z.div_small, Z.add_0_l by lia. simpl app. f_equal.
  apply IH; [done|by destruct ds as [|? [|]]|].
  rewrite Nat2Z.inj_succ, Z.pow_succ_r in Hf by lia. pose proof (from_base_nonneg ds Hr). nia.
Qed.

Lemma to_base_unique ds : ranged ds → normal ds → to_base B (from_base B ds) = ds.
Proof.
  intros Hr Hn. unfold to_base. rewrite digit_loop_unique, rev_involutive; try done. unfold fuel_for.
  destruct (decide (ds = [])) as [->|Hne]; [done|]. pose proof (from_base_pos ds Hr Hn Hne) as Hp.
  pose proof (Z.log2_spec _ Hp). pose proof (Z.log2_nonneg (from_base B ds)).
  rewrite Z2Nat.id by lia. rewrite <- Z.add_1_r in H. lia.
Qed.
End Base.

Lemma be_from_base l : be l = from_base 256 l.
Proof. done. Qed.

Lemma runes_alnum s : forallb is_alnum s = true → runes s = s.
Proof.
  induction s as [|a s IH]; [done|]. intros [Ha Hs]%andb_true_iff. simpl.
  assert (a < 128) by (unfold is_alnum in Ha; zlia). rewrite (proj2 (Z.ltb_lt _ _)) by done. by rewrite IH.
Qed.

(** ** Trimming what needs no trimming *)

Lemma strip_prefix_app p s : strip_prefix p (p ++ s) = Some s.
Proof. induction p as [|x p IH]; [by destruct s|]. simpl. by rewrite Z.eqb_refl. Qed.

Lemma first_match_none ps s :
  forallb (λ p, match p with c :: _ => negb (is_alnum c) | [] => false end) ps = true →
  match s with c :: _ => is_alnum c = true | [] => True end → first_match ps s = None.
Proof.
  induction ps as [|p ps IH]; intros Hp Hs; [done|]. simpl in *. apply andb_true_iff in Hp as [H1 H2].
  destruct p as [|c p]; [done|]. destruct s as [|x s]; simpl; [by apply IH|].
  destruct (c =? x) eqn:E; reflect_bools; [subst; by rewrite Hs in H1|by apply IH].
Qed.

Lemma TrimSpace_alnum s : forallb is_alnum s = true → TrimSpace s = s.
Proof.
  intros Hs. unfold TrimSpace.
  assert (Hl : ∀ n ps t, forallb (λ p, match p with c :: _ => negb (is_alnum c) | [] => false end) ps = true →
    forallb is_alnum t = true → trim_loop n ps t = t).
  { intros [|n] ps t Hp Ht; [done|]. simpl. rewrite first_match_none; [done|done|].
    destruct t; [done|]. by apply andb_true_iff in Ht as [? _]. }
  cbv zeta. rewrite (Hl _ spaces s) by (done || by vm_compute). rewrite Hl; [by rewrite rev_involutive|by vm_compute|].
  rewrite forallb_forall in *. intros x Hx. apply Hs. by apply in_rev.
Qed.

Lemma from_base_digits_nonneg ds : forallb is_digit ds = true → 0 <= from_base 10 ((λ c, c - 48) <$> ds).
Proof.
  intros H. apply from_base_nonneg; [lia|]. apply Forall_fmap, Forall_forall. intros c Hc.
  rewrite forallb_forall in H. apply list_elem_of_In, H in Hc. unfold is_digit in Hc. simpl. zlia.
Qed.

Lemma ParseInt_range s ii : ParseInt s = Some ii → in_i64 ii.
Proof.
  unfold ParseInt. set (p := match s with 43 :: ds => _ | _ => _ end). destruct p as [neg ds].
  destruct (_ || _) eqn:E; [done|]. apply orb_false_iff in E as [_ E]. apply negb_false_iff in E.
  pose proof (from_base_digits_nonneg ds E) as Hv. cbv zeta. unfold in_i64.
  destruct neg; simpl negb; simpl andb.
  - destruct (two63 <? _) eqn:E2; [done|]. intros [= <-]. reflect_bools. unfold two63 in *. lia.
  - destruct (two63 <=? _) eqn:E2; [done|]. simpl. intros [= <-]. reflect_bools. unfold two63 in *. lia.
Qed.

(** ** Hashes in hexadecimal *)

Definition is_lower_hex (c : Z) : bool := ((48 <=? c) && (c <=? 57)) || ((97 <=? c) && (c <=? 102)).

Lemma hex_val_lower c : is_lower_hex c = true → ∃ x, hex_val c = Some x ∧ 0 <= x < 16 ∧ hex_digit x = c.
Proof.
  unfold is_lower_hex, hex_val. intros H. apply orb_true_iff in H as [H|H].
  - rewrite H. exists (c - 48). unfold hex_digit. split_and!; [done|zlia|zlia|]. rewrite (proj2 (Z.ltb_lt _ _)) by zlia. lia.
  - destruct ((48 <=? c) && (c <=? 57)) eqn:E; [zlia|]. rewrite H. exists (c - 87). unfold hex_digit.
    split_and!; [done|zlia|zlia|]. rewrite (proj2 (Z.ltb_ge _ _)) by zlia. lia.
Qed.

Lemma hex_roundtrip n s :
  length s = (2 * n)%nat → forallb is_lower_hex s = true →
  hex_encode (hex_decode s) = s ∧ length (hex_decode s) = n ∧ bytes_ok (hex_decode s).
Proof.
  revert s. induction n as [|n IH]; intros s Hl Hs; [destruct s; [by split_and!; [..|constructor]|simpl in Hl; lia]|].
  destruct s as [|a [|b s]]; simpl in Hl; [lia..|]. simpl in Hs.
  apply andb_true_iff in Hs as [Ha Hs]. apply andb_true_iff in Hs as [Hb Hs].
  destruct (hex_val_lower a Ha) as (x&Ex&Hx&Hdx), (hex_val_lower b Hb) as (y&Ey&Hy&Hdy).
  destruct (IH s) as (IH1&IH2&IH3); [lia|done|]. simpl. rewrite Ex, Ey. simpl. split_and!.
  - rewrite IH1, Z.div_add_l, Z.div_small, Z.add_0_r by lia.
    rewrite (Z.add_comm _ y), Z.mod_add, Z.mod_small by lia. by rewrite Hdx, Hdy.
  - by rewrite IH2.
  - constructor; [unfold is_byte; lia|done].
Qed.

(** ** Trimming keeps bytes *)

Lemma first_match_suffix ps s r : first_match ps s = Some r → ∃ p, s = p ++ r.
Proof.
  induction ps as [|p ps IH]; [done|]. simpl. destruct (strip_prefix p s) as [r'|] eqn:E; [|done].
  intros [= ->]. clear IH. revert s E. induction p as [|x p IH]; intros s E.
  - exists []. change (Some s = Some r) in E. by injection E as ->.
  - destruct s as [|y s]; [done|]. simpl in E. destruct (x =? y); [|done].
    destruct (IH s E) as (q&->). by exists (y :: q).
Qed.

Lemma trim_loop_bytes n ps s : bytes_ok s → bytes_ok (trim_loop n ps s).
Proof.
  revert s. induction n as [|n IH]; intros s Hs; simpl; [done|].
  destruct (first_match ps s) as [r|] eqn:E; [|done]. apply IH.
  apply first_match_suffix in E as (p&->). by apply bytes_ok_app in Hs as [_ ?].
Qed.

Lemma TrimSpace_bytes s : bytes_ok s → bytes_ok (TrimSpace s).
Proof. intros Hs. unfold TrimSpace. by apply Forall_rev, trim_loop_bytes, Forall_rev, trim_loop_bytes. Qed.
