(* ===== verification/Encoding.v ===== *)
(** * Printed data and where it stands

    Big-endian numbers of a given width, and the statement that a printed text stands
    at an offset of some data ([at_]), which the round trips of binary formats are
    stated with. *)

From S2P Require Import Prelude.
#[local] Open Scope Z_scope.

(** ** Big-endian numbers *)

(** The [n] low bytes of [z], most significant first. *)
Fixpoint be_bytes (n : nat) (z : Z) : list Z :=
  match n with O => [] | S n => z / 256 ^ Z.of_nat n mod 256 :: be_bytes n z end.

Lemma be_bytes_length n z : length (be_bytes n z) = n.
Proof. induction n; simpl; auto. Qed.

Lemma be_bytes_ok n z : bytes_ok (be_bytes n z).
Proof. induction n; constructor; [|done]. unfold is_byte. apply Z.mod_pos_bound. lia. Qed.

Lemma be_be_bytes n z : be (be_bytes n z) = z mod 256 ^ Z.of_nat n.
Proof.
  induction n as [|n IH]; [by rewrite Z.mod_1_r|]. simpl be_bytes. rewrite be_cons, IH.
  unfold len. rewrite be_bytes_length, Nat2Z.inj_succ, Z.pow_succ_r by lia.
  assert (0 < 256 ^ Z.of_nat n) by (apply Z.pow_pos_nonneg; lia).
  rewrite (Z.mul_comm 256), Z.rem_mul_r by lia. lia.
Qed.

(** ** Printed text inside data *)

Definition at_ (data : list Z) (off : Z) (enc : list Z) : Prop :=
  ∃ pre rest, data = pre ++ enc ++ rest ∧ off = len pre.

Lemma at_app data off a b : at_ data off (a ++ b) ↔ at_ data off a ∧ at_ data (off + len a) b.
Proof.
  split.
  - intros (pre&rest&->&->). split; [exists pre, (b ++ rest); by rewrite <- app_assoc|].
    exists (pre ++ a), rest. by rewrite <- !app_assoc, len_app.
  - intros [(pre&rest&->&->) (pre'&rest'&E&E')]. exists pre. assert (Hl : length (pre ++ a) = length pre').
    { rewrite <- len_app in E'. unfold len in E'. lia. }
    rewrite app_assoc in E. apply app_inj_1 in E as [<- ->]; [|done]. exists rest'. split; [by rewrite <- app_assoc|done].
Qed.

Lemma at_bounds data off enc : at_ data off enc → 0 <= off ∧ off + len enc <= len data.
Proof. intros (pre&rest&->&->). rewrite !len_app. pose proof (len_nonneg pre). pose proof (len_nonneg rest). lia. Qed.

Lemma at_idx data off b enc : at_ data off (b :: enc) → idx data off = Some b.
Proof.
  intros (pre&rest&->&->). unfold idx. rewrite (proj2 (Z.leb_le _ _)) by apply len_nonneg.
  unfold len. rewrite Nat2Z.id. by rewrite lookup_app_r, Nat.sub_diag by lia.
Qed.

Lemma at_take data off enc n : at_ data off enc → n = length enc → take n (drop (Z.to_nat off) data) = enc.
Proof.
  intros (pre&rest&->&->) ->. unfold len. rewrite Nat2Z.id, drop_app_length. by rewrite take_app_length.
Qed.

(** ** Data in bounds *)

(** Data a Go slice can hold. *)
Definition wf_data (data : list Z) : Prop := bytes_ok data ∧ len data < two63.

(** An access in bounds succeeds, and gives bytes. *)
Lemma slice_Done data lo hi : bytes_ok data → 0 <= lo <= hi → hi <= len data →
  ∃ s, slice data lo hi = Some s ∧ len s = hi - lo ∧ bytes_ok s.
Proof.
  intros Hb Hl Hh. pose proof (slice_in_range data lo hi Hl Hh) as E. eexists. split; [exact E|].
  split; [by eapply slice_len|]. by apply Forall_take, Forall_drop.
Qed.

Lemma idx_Done data i : bytes_ok data → 0 <= i < len data → ∃ b, idx data i = Some b ∧ is_byte b.
Proof. intros Hb Hi. destruct (idx_in_range data i Hi) as [b E]. exists b. split; [done|by eapply idx_byte]. Qed.

(** [access] evaluates the next access of the computation the goal is about, given
    bounds [lia] can prove. *)
Ltac access_in m :=
  lazymatch m with
  | mbind _ ?m => access_in m
  | of_option (slice ?data ?lo ?hi) =>
      match goal with
      | Hb : bytes_ok data |- _ =>
          let s := fresh "s" in let Hs := fresh "Hs" in let Hl := fresh "Hl" in let Hk := fresh "Hk" in
          destruct (slice_Done data lo hi Hb) as (s&Hs&Hl&Hk); [lia..|]; rewrite Hs; cbn [mbind outcome_bind of_option]
      end
  | of_option (idx ?data ?i) =>
      match goal with
      | Hb : bytes_ok data |- _ =>
          let b := fresh "b" in let Hs := fresh "Hs" in let Hk := fresh "Hk" in
          destruct (idx_Done data i Hb) as (b&Hs&Hk); [lia..|]; rewrite Hs; cbn [mbind outcome_bind of_option]
      end
  end.

Ltac access :=
  lazymatch goal with
  | |- returns ?m => access_in m
  | |- ∃ _ _, ?m = _ ∧ _ => access_in m
  | |- ∃ _, ?m = _ ∧ _ => access_in m
  | |- ∃ _, ?m = _ => access_in m
  end.
