(* ===== verification/TorrsHash.v ===== *)
(** * Share tokens ([server/torrshash])

    A token carries a torrent's hash and a few fields: the hash and the fields are
    written one after the other ([fields.go]), compressed ([pack.go]) and printed in
    base 62 ([base62.go]).  Strings are lists of bytes.  The compressor is the
    standard library's [zlib]; the development takes it as a pair of functions of
    which it uses that the second undoes the first and that a compressed stream
    starts with the header byte 0x78. *)

From S2P Require Import Prelude GoText.
#[local] Open Scope Z_scope.

(** ** Base 62 *)

Definition base62Alphabet : bytes := str "0123456789ABCDEFGHIJKLMNOPQRSTUVWXYZabcdefghijklmnopqrstuvwxyz".

Definition Encode62 (b : bytes) : bytes :=
  (λ d, default 0 (base62Alphabet !! Z.to_nat d)) <$> to_base 62 (be b).

(** [bytes.IndexByte]: -1 for a byte that is not there. *)
Fixpoint index_byte (c : Z) (l : bytes) (i : Z) : Z :=
  match l with [] => -1 | x :: l => if x =? c then i else index_byte c l (i + 1) end.

(** [Decode62]: a rune is cut to its low byte; [big.Int.Bytes] ignores the sign. *)
Definition Decode62 (s : bytes) : bytes :=
  to_base 256 (Z.abs (from_base 62 ((λ c, index_byte (u8 c) base62Alphabet 0) <$> runes s))).

Definition IsBase62 (s : bytes) : bool :=
  let s := TrimSpace s in negb (len s =? 0) && forallb is_alnum s.

(** ** Fields *)

Definition TagTitle : Z := 0.
Definition TagPoster : Z := 1.
Definition TagTracker : Z := 2.
Definition TagCategory : Z := 3.
Definition TagSize : Z := 4.

Record Field := mkField { Tag : Z; Value : bytes }.

Definition isBinary (t : Z) : bool := t =? TagSize.

(** [Field.write]: the bytes handed to the writer and whether it succeeded; what was
    written before an error stays written. *)
Definition write (f : Field) : bytes * bool :=
  let value := TrimSpace (Value f) in
  if len value =? 0 then ([], true)
  else if isBinary (Tag f) && bool_decide (value = [48]) then ([], true)
  else
    let tag := [u8 (Tag f)] in
    if isBinary (Tag f) then
      match ParseInt value with
      | None => (tag, false)
      | Some ii => if ii =? 0 then (tag, true) else (tag ++ le_bytes 8 (u64 ii), true)
      end
    else (tag ++ le_bytes 2 (u16 (len value)) ++ value, true).

Inductive read := ReadEnd | ReadErr | ReadOk (f : Field) (rest : bytes).

(** How a decompressed stream ends: with the end reported by the read after the last
    byte, with the end reported together with the last byte (both are allowed to a
    reader), or with an error such as a wrong checksum. *)
Inductive ending := EofAfter | EofWith | Broken.

(** [ReadField] on what is left of the stream.  An end reported together with the tag
    is taken for the end of the fields; an error of the tag's read is not looked at,
    and comes back in the read that follows. *)
Definition ReadField (e : ending) (s : bytes) : read :=
  match s with
  | [] => match e with Broken => ReadErr | _ => ReadEnd end
  | tag :: s =>
      if (match e with EofWith => true | _ => false end) && (len s =? 0) then ReadEnd
      else if isBinary tag then
        if len s <? 8 then ReadErr
        else ReadOk (mkField tag (FormatInt (i64 (le (take 8 s))))) (drop 8 s)
      else
        if len s <? 2 then ReadErr
        else
          let length := le (take 2 s) in
          let s := drop 2 s in
          if len s <? length then ReadErr
          else ReadOk (mkField tag (take (Z.to_nat length) s)) (drop (Z.to_nat length) s)
  end.

(** ** Tokens *)

Record TorrsHash := mkTorrsHash { Hash : bytes; Fields : list Field }.

Definition New (hash : bytes) : TorrsHash := mkTorrsHash hash [].
Definition AddField (tag : Z) (value : bytes) (th : TorrsHash) : TorrsHash :=
  mkTorrsHash (Hash th) (Fields th ++ [mkField tag value]).

(** The first field of a tag, as [Title], [Poster] and [Category] look it up. *)
Definition first_field (tag : Z) (th : TorrsHash) : bytes :=
  match filter (λ f, Tag f = tag) (Fields th) with f :: _ => Value f | [] => [] end.
Definition Title := first_field TagTitle.
Definition Poster := first_field TagPoster.
Definition Category := first_field TagCategory.
Definition Trackers (th : TorrsHash) : list bytes := Value <$> filter (λ f, Tag f = TagTracker) (Fields th).

Fixpoint write_fields (fs : list Field) : option bytes :=
  match fs with
  | [] => Some []
  | f :: fs => let '(out, ok) := write f in
               if ok then (λ rest, out ++ rest) <$> write_fields fs else None
  end.

(** The reading loop; every field takes at least one byte.  The second component
    says whether it ended without an error. *)
Fixpoint read_fields (fuel : nat) (e : ending) (s : bytes) : list Field * bool :=
  match fuel with
  | O => ([], false)
  | S fuel =>
      match ReadField e s with
      | ReadEnd => ([], true)
      | ReadErr => ([], false)
      | ReadOk f rest => let '(fs, ok) := read_fields fuel e rest in (f :: fs, ok)
      end
  end.

Section Zlib.
(** [zlib.NewReader] fails on a bad header; otherwise the stream has some bytes that
    can be read and an ending. *)
Context (compress : bytes → bytes) (decompress : bytes → option (bytes * ending)).

Definition pack (t : TorrsHash) : option bytes :=
  (λ fs, compress (hex_decode (TrimSpace (Hash t)) ++ fs)) <$> write_fields (Fields t).

(** The value and whether the error is nil: after a bad field the fields read so far
    are returned next to the error. *)
Definition unpack (data : bytes) : option TorrsHash * bool :=
  match decompress data with
  | None => (None, false)
  | Some (s, e) =>
      if len s <? 20 then (None, false)
      else
        let '(fs, ok) := read_fields (S (length s)) e (drop 20 s) in
        (Some (mkTorrsHash (hex_encode (take 20 s)) fs), ok)
  end.

Definition Pack (t : TorrsHash) : option bytes := Encode62 <$> pack t.
Definition Unpack (token : bytes) : option TorrsHash * bool := unpack (Decode62 (TrimSpace token)).
End Zlib.

Lemma alphabet_index : Forall (λ d, index_byte (u8 (default 0 (base62Alphabet !! d))) base62Alphabet 0 = Z.of_nat d) (seq 0 62).
Proof. apply Forall_forall. intros d Hd. apply elem_of_seq in Hd. do 62 (destruct d as [|d]; [by vm_compute|]). lia. Qed.

Lemma alphabet_alnum d : 0 <= d < 62 → is_alnum (default 0 (base62Alphabet !! Z.to_nat d)) = true.
Proof.
  intros Hd. assert (H : forallb is_alnum base62Alphabet = true) by (by vm_compute). rewrite forallb_forall in H.
  destruct (base62Alphabet !! Z.to_nat d) as [c|] eqn:E.
  - simpl. apply H. apply list_elem_of_In. by eapply list_elem_of_lookup_2.
  - apply lookup_ge_None in E. change (length base62Alphabet) with 62%nat in E. lia.
Qed.

Lemma runes_alphabet ds : ranged 62 ds →
  runes ((λ d, default 0 (base62Alphabet !! Z.to_nat d)) <$> ds) = (λ d, default 0 (base62Alphabet !! Z.to_nat d)) <$> ds.
Proof.
  intros Hr. apply runes_alnum, forallb_forall. intros x (d&->&Hd)%list_elem_of_In%list_elem_of_fmap.
  unfold ranged in Hr. rewrite Forall_forall in Hr. by apply alphabet_alnum, Hr.
Qed.

Lemma Decode62_digits ds : ranged 62 ds →
  (λ c, index_byte (u8 c) base62Alphabet 0) <$> ((λ d, default 0 (base62Alphabet !! Z.to_nat d)) <$> ds) = ds.
Proof.
  induction 1 as [|d ds Hd _ IH]; [done|]. rewrite !fmap_cons, IH. f_equal.
  pose proof alphabet_index as Ha. rewrite Forall_forall in Ha. rewrite (Ha (Z.to_nat d)) by (apply elem_of_seq; lia).
  lia.
Qed.

Lemma Decode62_Encode62 b : bytes_ok b → normal b → Decode62 (Encode62 b) = b.
Proof.
  intros Hb Hn. unfold Decode62, Encode62. rewrite runes_alphabet, Decode62_digits by (apply to_base_ranged; lia).
  rewrite to_base_value, be_from_base by (lia || by apply be_bound).
  rewrite Z.abs_eq by (apply from_base_nonneg; [lia|done]). apply to_base_unique; [lia|done|done].
Qed.

Fixpoint drop_zeros (b : bytes) : bytes :=
  match b with 0 :: b => drop_zeros b | _ => b end.

Lemma drop_zeros_normal b : normal (drop_zeros b).
Proof. induction b as [|[| |] b IH]; done. Qed.

Lemma drop_zeros_ok b : bytes_ok b → bytes_ok (drop_zeros b).
Proof. induction 1 as [|x b Hx Hb IH]; [constructor|]. simpl. destruct x; [exact IH|by constructor..]. Qed.

Lemma be_drop_zeros b : be (drop_zeros b) = be b.
Proof.
  induction b as [|x b IH]; [done|]. simpl. destruct x; [|done..]. rewrite IH, (be_cons 0). lia.
Qed.

Lemma Encode62_alnum b : forallb is_alnum (Encode62 b) = true.
Proof.
  unfold Encode62. apply forallb_forall. intros x Hx. apply list_elem_of_In, list_elem_of_fmap in Hx as (d&->&Hd).
  pose proof (to_base_ranged 62 ltac:(lia) (be b)) as Hr. unfold ranged in Hr. rewrite Forall_forall in Hr.
  by apply alphabet_alnum, Hr.
Qed.

(** ** Fields through the stream *)

(** Whether [write] writes the field at all. *)
Definition kept (f : Field) : bool :=
  let value := TrimSpace (Value f) in
  negb (len value =? 0) && negb (isBinary (Tag f) && bool_decide (value = [48])).

(** A field the stream can carry: a byte as its tag, a text shorter than 64 KiB, or a
    size other than zero. *)
Definition ok_field (f : Field) : Prop :=
  0 <= Tag f < 256 ∧
  if isBinary (Tag f) then match ParseInt (TrimSpace (Value f)) with Some ii => ii ≠ 0 | None => False end
  else len (TrimSpace (Value f)) < 65536.

(** The field as it comes back: trimmed, a size in plain decimal. *)
Definition canon (f : Field) : Field :=
  if isBinary (Tag f)
  then mkField (Tag f) (match ParseInt (TrimSpace (Value f)) with Some ii => FormatInt ii | None => [] end)
  else mkField (Tag f) (TrimSpace (Value f)).

Lemma ReadField_write e f rest :
  ok_field f → kept f = true →
  ∃ out, write f = (out, true) ∧ out ≠ [] ∧ ReadField e (out ++ rest) = ReadOk (canon f) rest.
Proof.
  intros [Ht Hok] Hk. unfold kept in Hk. apply andb_true_iff in Hk as [H1%negb_true_iff H2%negb_true_iff].
  unfold write. rewrite H1, H2. unfold canon. assert (Hu : u8 (Tag f) = Tag f) by (apply Z.mod_small; lia).
  destruct (isBinary (Tag f)) eqn:Eb.
  - destruct (ParseInt (TrimSpace (Value f))) as [ii|] eqn:Ep; [|done].
    rewrite (proj2 (Z.eqb_neq ii 0)) by done. rewrite Hu. eexists. split; [reflexivity|]. split; [done|].
    cbn [app]. unfold ReadField. rewrite Eb. pose proof (le_bytes_length 8 (u64 ii)) as Hlb.
    set (lb := le_bytes 8 (u64 ii)) in *.
    assert (Hlen : len (lb ++ rest) = 8 + len rest) by (rewrite len_app; unfold len; lia).
    pose proof (len_nonneg rest). rewrite Hlen.
    rewrite (proj2 (Z.eqb_neq (8 + len rest) 0)), andb_false_r, (proj2 (Z.ltb_ge _ 8)) by lia. cbv iota.
    rewrite take_app_le, take_ge, drop_app_ge, Hlb, Nat.sub_diag, drop_0 by lia. do 3 f_equal.
    unfold lb. rewrite le_le_bytes. change (256 ^ Z.of_nat 8) with two64.
    rewrite Z.mod_small by (apply u64_range). rewrite i64_u64. apply i64_id. by eapply ParseInt_range.
  - rewrite Hu. set (v := TrimSpace (Value f)) in *. eexists. split; [reflexivity|]. split; [done|].
    cbn [app]. unfold ReadField. rewrite Eb. set (lb := le_bytes 2 (u16 (len v))).
    assert (Hlb : length lb = 2%nat) by apply le_bytes_length.
    rewrite <- app_assoc. pose proof (len_nonneg rest). pose proof (len_nonneg v).
    assert (Hlen : len (lb ++ v ++ rest) = 2 + len v + len rest) by (rewrite !len_app; unfold len; lia).
    rewrite Hlen, (proj2 (Z.eqb_neq (2 + len v + len rest) 0)), andb_false_r, (proj2 (Z.ltb_ge _ 2)) by lia. cbv iota.
    rewrite take_app_le, take_ge, drop_app_ge, Hlb, Nat.sub_diag, drop_0 by lia.
    assert (Hle : le lb = len v).
    { unfold lb. rewrite le_le_bytes. change (256 ^ Z.of_nat 2) with 65536. unfold u16.
      rewrite Z.mod_mod by lia. apply Z.mod_small. lia. }
    rewrite Hle. cbv zeta. rewrite (proj2 (Z.ltb_ge _ (len v))) by (rewrite len_app; lia). unfold len.
    rewrite Nat2Z.id, take_app_length, drop_app_length. done.
Qed.

Lemma write_skipped f : kept f = false → write f = ([], true).
Proof.
  unfold kept, write. intros H. apply andb_false_iff in H as [H|H]; apply negb_false_iff in H; rewrite H; [done|].
  by destruct (_ =? _).
Qed.

Lemma fields_roundtrip e fs :
  e ≠ Broken →
  Forall ok_field (filter (λ f, kept f = true) fs) →
  ∃ out, write_fields fs = Some out ∧
    ∀ fuel, (length fs < fuel)%nat → read_fields fuel e out = (canon <$> filter (λ f, kept f = true) fs, true).
Proof.
  intros He. induction fs as [|f fs IH]; intros Hok.
  { exists []. split; [done|]. intros [|fuel] Hf; [simpl in Hf; lia|by destruct e]. }
  rewrite filter_cons in Hok. case_decide as Hk.
  - apply Forall_cons in Hok as [Hf Hfs]. destruct (IH Hfs) as (out&Hw&Hr).
    destruct (ReadField_write e f out Hf Hk) as (o&Hwf&_&Hrf). exists (o ++ out). split.
    + simpl. by rewrite Hwf, Hw.
    + intros [|fuel] Hfu; [simpl in Hfu; lia|]. simpl read_fields. rewrite Hrf, Hr by (simpl in Hfu; lia).
      rewrite filter_cons_True by done. done.
  - destruct (IH Hok) as (out&Hw&Hr). exists out. split.
    + simpl. rewrite write_skipped by (by apply not_true_is_false). by rewrite Hw.
    + intros fuel Hfu. rewrite filter_cons_False by done. apply Hr. simpl in Hfu. lia.
Qed.

(** Once the loop ends without running out of fuel, any fuel above the length of the
    stream gives the same. *)
Lemma ReadField_shorter e s f rest : ReadField e s = ReadOk f rest → (length rest < length s)%nat.
Proof.
  destruct s as [|tag s]; [by destruct e|]. unfold ReadField. destruct (_ && _); [done|]. destruct (isBinary tag).
  - destruct (_ <? 8); [done|]. intros [= _ <-]. rewrite length_drop. simpl. lia.
  - destruct (_ <? 2); [done|]. cbv zeta. destruct (_ <? _); [done|]. intros [= _ <-].
    rewrite !length_drop. simpl. lia.
Qed.

Lemma read_fields_fuel fuel e s fuel' fs :
  (length s < fuel)%nat → read_fields fuel' e s = (fs, true) → read_fields fuel e s = (fs, true).
Proof.
  revert fuel s fs. induction fuel' as [|fuel' IH]; intros fuel s fs Hf Hr; [done|].
  destruct fuel as [|fuel]; [lia|]. simpl in *. destruct (ReadField e s) as [| |f rest] eqn:E; [done..|].
  destruct (read_fields fuel' e rest) as [fs' ok] eqn:E'. injection Hr as <- ->.
  rewrite (IH fuel rest fs'); [done| |done]. apply ReadField_shorter in E. lia.
Qed.

(** A hash as the server prints it: 40 lower-case hexadecimal digits. *)
Definition hash_ok (h : bytes) : Prop := length h = 40%nat ∧ forallb is_lower_hex h = true.

Lemma lower_hex_alnum s : forallb is_lower_hex s = true → forallb is_alnum s = true.
Proof.
  rewrite !forallb_forall. intros H x Hx. apply H in Hx. unfold is_lower_hex, is_alnum in *.
  apply orb_true_iff in Hx as [Hx|Hx]; [by rewrite Hx|]. apply orb_true_iff. right.
  apply andb_true_iff. rewrite !Z.leb_le. zlia.
Qed.

(** ** The stream is made of bytes *)

Lemma write_bytes f out ok : bytes_ok (Value f) → write f = (out, ok) → bytes_ok out.
Proof.
  intros Hv. unfold write. pose proof (TrimSpace_bytes _ Hv) as Ht.
  assert (Htag : bytes_ok [u8 (Tag f)]).
  { repeat constructor; unfold u8; pose proof (Z.mod_pos_bound (Tag f) 256); lia. }
  destruct (_ =? 0); [intros [= <- _]; constructor|]. destruct (_ && _); [intros [= <- _]; constructor|].
  destruct (isBinary (Tag f)).
  - destruct (ParseInt _) as [ii|]; [|by intros [= <- _]]. destruct (ii =? 0); intros [= <- _]; [done|].
    apply (bytes_ok_app [u8 (Tag f)]). split; [done|apply (le_bytes_ok 8)].
  - intros [= <- _]. apply (bytes_ok_app [u8 (Tag f)]). split; [done|].
    apply (bytes_ok_app (le_bytes 2 _)). split; [apply (le_bytes_ok 2)|done].
Qed.

Lemma write_fields_bytes fs out :
  Forall (λ f, bytes_ok (Value f)) fs → write_fields fs = Some out → bytes_ok out.
Proof.
  intros Hv. revert out. induction Hv as [|f fs Hf _ IH]; intros out Hw; simpl in Hw.
  { injection Hw as <-. constructor. }
  destruct (write f) as [o [|]] eqn:E; [|done]. destruct (write_fields fs) as [r|]; [|done].
  injection Hw as <-. apply bytes_ok_app. split; [by eapply write_bytes|by apply IH].
Qed.

(** ** Properties *)

(** Base 62 loses nothing but leading zero bytes, and printing is the inverse
    of reading on tokens without leading zeros. *)
Theorem base62_roundtrip (b ds : list Z) :
  bytes_ok b → ranged 62 ds → normal ds →
  Decode62 (Encode62 b) = drop_zeros b ∧
  let token := (λ d, default 0 (base62Alphabet !! Z.to_nat d)) <$> ds in
  Encode62 (Decode62 token) = token ∧ IsBase62 (Encode62 b) = negb (bool_decide (Encode62 b = [])).
Proof.
  intros Hb Hr Hn. split; [|split].
  - assert (Encode62 b = Encode62 (drop_zeros b)) as -> by (unfold Encode62; by rewrite be_drop_zeros).
    apply Decode62_Encode62; [by apply drop_zeros_ok|apply drop_zeros_normal].
  - cbv zeta. unfold Decode62. rewrite runes_alphabet, Decode62_digits by done.
    pose proof (from_base_nonneg 62 ltac:(lia) ds Hr). rewrite Z.abs_eq by done.
    unfold Encode62. rewrite be_from_base, to_base_value, to_base_unique by (lia || done). done.
  - unfold IsBase62. rewrite TrimSpace_alnum by apply Encode62_alnum. rewrite Encode62_alnum, andb_true_r.
    destruct (Encode62 b); [done|]. by rewrite (proj2 (Z.eqb_neq _ 0)) by (rewrite len_cons; pose proof (len_nonneg l); lia).
Qed.

Lemma base62_roundtrip_witness :
  Decode62 (Encode62 [0; 0; 120; 156; 1]) = [120; 156; 1] ∧ Encode62 (Decode62 (str "TorrServer")) = str "TorrServer".
Proof.
  assert (Hb : bytes_ok [0; 0; 120; 156; 1]) by (repeat constructor; done).
  assert (Hr : ranged 62 [29; 50; 53; 53; 28; 40; 53; 57; 40; 53]) by (repeat constructor; lia).
  destruct (base62_roundtrip [0; 0; 120; 156; 1] [29; 50; 53; 53; 28; 40; 53; 57; 40; 53] Hb Hr) as (H1&H2&_); [done|].
  split; [exact H1|exact H2].
Defined.

Section Token.
Context (compress : bytes → bytes) (decompress : bytes → option (bytes * ending)).
Context (zlib_inverse : ∀ s, bytes_ok s → ∃ e, e ≠ Broken ∧ decompress (compress s) = Some (s, e)).
Context (zlib_header : ∀ s, bytes_ok s → bytes_ok (compress s) ∧ head (compress s) = Some 120).

(** C39: a token read back gives the torrent it was made of: the same hash, and the
    fields that are not empty, in order, trimmed, sizes in plain decimal. *)
Theorem token_roundtrip (t : TorrsHash) :
  hash_ok (Hash t) → Forall (λ f, bytes_ok (Value f)) (Fields t) →
  Forall ok_field (filter (λ f, kept f = true) (Fields t)) →
  ∃ token, Pack compress t = Some token ∧ IsBase62 token = true ∧
    Unpack decompress token =
      (Some (mkTorrsHash (Hash t) (canon <$> filter (λ f, kept f = true) (Fields t))), true).
Proof.
  intros [Hl Hx] Hvb Hok. destruct (hex_roundtrip 20 (Hash t) Hl Hx) as (He&Hdl&Hhb).
  destruct (fields_roundtrip EofAfter (Fields t)) as (out&Hw&_); [done|done|].
  unfold Pack, pack. rewrite TrimSpace_alnum by (by apply lower_hex_alnum). rewrite Hw. simpl.
  set (s := hex_decode (Hash t) ++ out).
  assert (Hsb : bytes_ok s) by (apply bytes_ok_app; split; [done|by eapply write_fields_bytes]).
  destruct (zlib_header s Hsb) as [Hb Hh].
  assert (Hn : normal (compress s)) by (destruct (compress s); [done|]; by injection Hh as ->).
  eexists. split; [reflexivity|]. split.
  - unfold IsBase62. rewrite TrimSpace_alnum, Encode62_alnum, andb_true_r by apply Encode62_alnum.
    apply negb_true_iff, Z.eqb_neq. intros Hz. assert (E : Encode62 (compress s) = []).
    { destruct (Encode62 (compress s)); [done|]. rewrite len_cons in Hz. pose proof (len_nonneg l). lia. }
    pose proof (Decode62_Encode62 _ Hb Hn) as Hd. rewrite E in Hd. change (Decode62 []) with (@nil Z) in Hd.
    rewrite <- Hd in Hh. done.
  - unfold Unpack. rewrite TrimSpace_alnum by apply Encode62_alnum. rewrite Decode62_Encode62 by done.
    destruct (zlib_inverse s Hsb) as (e&He'&Hz). unfold unpack. rewrite Hz. unfold s. rewrite len_app.
    destruct (fields_roundtrip e (Fields t) He' Hok) as (out'&Hw'&Hr). rewrite Hw in Hw'. injection Hw' as <-.
    rewrite (proj2 (Z.ltb_ge _ 20)) by (pose proof (len_nonneg out); unfold len; lia).
    rewrite take_app_le, take_ge, drop_app_ge, Hdl, Nat.sub_diag, drop_0 by lia.
    rewrite (read_fields_fuel _ _ out (S (length (Fields t))) (canon <$> filter (λ f, kept f = true) (Fields t))).
    + by rewrite He.
    + rewrite length_app. lia.
    + apply Hr. lia.
Qed.
End Token.

(** A compressor for the witness: the header byte and the bytes themselves. *)
Definition toy_compress (s : bytes) : bytes := 120 :: s.
Definition toy_decompress (s : bytes) : option (bytes * ending) := match s with 120 :: s => Some (s, EofWith) | _ => None end.

Definition demo_token : TorrsHash :=
  mkTorrsHash (str "0123456789abcdef0123456789abcdef01234567")
    [mkField TagTitle (str " A film "); mkField TagPoster []; mkField TagSize (str "+700"); mkField TagTracker (str "udp://t")].

Lemma token_roundtrip_witness :
  ∃ token, Pack toy_compress demo_token = Some token ∧
    Unpack toy_decompress token =
      (Some (mkTorrsHash (Hash demo_token)
        [mkField TagTitle (str "A film"); mkField TagSize (str "700"); mkField TagTracker (str "udp://t")]), true).
Proof.
  destruct (token_roundtrip toy_compress toy_decompress) with (t := demo_token) as (token&Hp&_&Hu).
  - intros s Hs. by exists EofWith.
  - intros s Hs. split; [constructor; [unfold is_byte; lia|exact Hs]|done].
  - split; by vm_compute.
  - assert (H : forallb (λ f, bytes_okb (Value f)) (Fields demo_token) = true) by (by vm_compute).
    apply Forall_forall. intros f Hf. rewrite forallb_forall in H. apply bytes_okb_spec, H. by apply list_elem_of_In.
  - assert (E : filter (λ f, kept f = true) (Fields demo_token) =
      [mkField TagTitle (str " A film "); mkField TagSize (str "+700"); mkField TagTracker (str "udp://t")]) by (by vm_compute).
    rewrite E. repeat constructor; vm_compute; congruence.
  - exists token. split; [exact Hp|]. rewrite Hu. by vm_compute.
Defined.

(** A size of zero that is not written as [0] breaks the stream: its tag is
    written without a value, and the bytes of the next field are read in its place.
    The title is lost, however the stream ends. *)
Theorem zero_size_corrupts :
  let fs := [mkField TagSize (str "00"); mkField TagTitle (str "A film")] in
  ∃ s, write_fields fs = Some s ∧
    ∀ e, filter (λ f, Tag f = TagTitle) (read_fields (S (length s)) e s).1 = [].
Proof. cbv zeta. eexists. split; [by vm_compute|]. intros []; by vm_compute. Qed.
