(* ===== verification/Segment.v ===== *)
(** * Stream segments ([server/gstreamer/segment.go])

    A segment is a header and payloads kept in separate buffers; it is sent whole
    ([WriteTo]) or as a byte range of the concatenation ([WriteRange]) without
    being joined first.  The destination is an [io.Writer], which the code uses
    through its documented contract ([IoWriter]): a call takes a prefix of the
    bytes, and reports an error when that is not all of them. *)

From S2P Require Import Prelude.
#[local] Open Scope Z_scope.

(** ** The destination *)

(** [Write] returns the count, whether the error is not nil, and the new state. *)
Class IoWriter (W : Type) := {
  Write : list Z → W → Z * bool * W;
  sent : W → list Z;
  Write_prefix : ∀ data w n failed w', Write data w = (n, failed, w') →
    0 <= n <= len data ∧ sent w' = sent w ++ take (Z.to_nat n) data ∧ (n < len data → failed = true);
}.

Inductive write_error := WriterError | ErrShortWrite.

(** ** Segments *)

Record Segment := mkSegment {
  Header : list Z;
  Payloads : list (list Z);
  StartNS : Z;
  EndNS : Z;
}.

Definition Len (s : Segment) : Z := foldl (λ total payload, total + len payload) (len (Header s)) (Payloads s).

Definition Empty (s : Segment) : bool := Len s =? 0.

Section Writing.
Context {W : Type} `{IoWriter W}.

Definition writeBytes (data : list Z) (w : W) : Z * option write_error * W :=
  if len data =? 0 then (0, None, w)
  else
    let '(written, failed, w) := Write data w in
    if (failed : bool) then (written, Some WriterError, w)
    else if negb (written =? len data) then (written, Some ErrShortWrite, w)
    else (written, None, w).

Fixpoint write_payloads (ps : list (list Z)) (written : Z) (w : W) : Z * option write_error * W :=
  match ps with
  | [] => (written, None, w)
  | payload :: ps =>
      if len payload =? 0 then write_payloads ps written w
      else
        let '(count, err, w) := writeBytes payload w in
        let written := written + count in
        match err with
        | Some _ => (written, err, w)
        | None => write_payloads ps written w
        end
  end.

Definition WriteTo (s : Segment) (w : W) : Z * option write_error * W :=
  let '(count, err, w) := writeBytes (Header s) w in
  match err with
  | Some _ => (count, err, w)
  | None => write_payloads (Payloads s) count w
  end.

(** The result: the error, and the offset and count that are left. *)
Definition writeRangePart (part : list Z) (offset count : Z) (w : W) : outcome (option write_error * Z * Z * W) :=
  if (len part =? 0) || (count <=? 0) then Done (None, offset, count, w)
  else
    let partLength := len part in
    if partLength <=? offset then Done (None, offset - partLength, count, w)
    else
      let start := offset in
      let length := partLength - start in
      let length := if count <? length then count else length in
      data ← of_option (slice part start (start + length));
      let '(_, err, w) := writeBytes data w in
      match err with
      | Some _ => Done (err, offset, count, w)
      | None => Done (None, 0, count - length, w)
      end.

Fixpoint range_payloads (ps : list (list Z)) (offset count : Z) (w : W) : outcome (option write_error * W) :=
  match ps with
  | [] => Done (None, w)
  | payload :: ps =>
      '(err, offset, count, w) ← writeRangePart payload offset count w;
      match err with
      | Some _ => Done (err, w)
      | None => if count <=? 0 then Done (None, w) else range_payloads ps offset count w
      end
  end.

Definition WriteRange (s : Segment) (offset count : Z) (w : W) : outcome (option write_error * W) :=
  if (count <=? 0) || (offset <? 0) || (Len s <=? offset) then Done (None, w)
  else
    '(err, offset, count, w) ← writeRangePart (Header s) offset count w;
    match err with
    | Some _ => Done (err, w)
    | None => if count <=? 0 then Done (None, w) else range_payloads (Payloads s) offset count w
    end.
End Writing.

(** ** Properties *)

(** The bytes a segment stands for. *)
Definition content (s : Segment) : list Z := Header s ++ concat (Payloads s).

(** The bytes of a range that lies in the segment. *)
Definition wanted (s : Segment) (offset count : Z) : list Z :=
  if (count <=? 0) || (offset <? 0) then [] else take (Z.to_nat count) (drop (Z.to_nat offset) (content s)).

Lemma Len_content s : Len s = len (content s).
Proof.
  unfold Len, content. rewrite len_app. generalize (len (Header s)).
  induction (Payloads s) as [|p ps IH]; intros n; simpl.
  - rewrite len_nil. lia.
  - rewrite IH, len_app. lia.
Qed.

Section Laws.
Context {W : Type} `{IoWriter W}.

(** What an attempt to send [data] did: all of it, or a part and an error of the
    destination. *)
Definition attempt (data : list Z) (w : W) (err : option write_error) (w' : W) : Prop :=
  ∃ n : nat, sent w' = sent w ++ take n data ∧
    match err with None => (length data ≤ n)%nat | Some e => e = WriterError end.

Lemma attempt_nil w : attempt [] w None w.
Proof. exists 0%nat. by rewrite take_nil, app_nil_r. Qed.

Lemma attempt_fail data data' w e w' : attempt data w (Some e) w' → attempt (data ++ data') w (Some e) w'.
Proof.
  intros (n&Hs&->). exists (min n (length data)). split; [|done].
  by rewrite take_app_le, <- take_take, (take_ge data) by lia.
Qed.

Lemma attempt_app data data' w w' err w'' :
  attempt data w None w' → attempt data' w' err w'' → attempt (data ++ data') w err w''.
Proof.
  intros (n&Hs&Hn) (m&Hs'&Hm). exists (length data + m)%nat. split.
  - rewrite Hs', Hs, (take_ge data) by done. rewrite take_app_add, <- app_assoc. done.
  - destruct err; [done|]. rewrite length_app. lia.
Qed.

Lemma writeBytes_attempt data w n err w' :
  writeBytes data w = (n, err, w') → attempt data w err w' ∧ sent w' = sent w ++ take (Z.to_nat n) data ∧ 0 <= n <= len data.
Proof.
  unfold writeBytes. destruct (len data =? 0) eqn:E; reflect_bools.
  { intros [= <- <- <-]. destruct data; [|rewrite len_cons in E; pose proof (len_nonneg data); lia].
    split_and!; [apply attempt_nil|by rewrite app_nil_r|done|done]. }
  destruct (Write data w) as [[k failed] u] eqn:Ew. apply Write_prefix in Ew as (Hk&Hs&Hf).
  destruct failed; [|destruct (k =? len data) eqn:Ek; reflect_bools; simpl].
  - intros [= <- <- <-]. split_and!; [by exists (Z.to_nat k)|done|lia|lia].
  - intros [= <- <- <-]. split_and!; [|done|lia|lia]. exists (Z.to_nat k). split; [done|]. unfold len in *. lia.
  - exfalso. assert (k < len data) by lia. by specialize (Hf ltac:(lia)).
Qed.

Lemma write_payloads_attempt ps written w n err w' :
  write_payloads ps written w = (n, err, w') →
  attempt (concat ps) w err w' ∧ ∃ k, n = written + k ∧ len (sent w') = len (sent w) + k.
Proof.
  revert written w. induction ps as [|p ps IH]; intros written w; simpl.
  { intros [= <- <- <-]. split; [apply attempt_nil|]. exists 0. lia. }
  destruct (len p =? 0) eqn:E; reflect_bools.
  { intros Hw. destruct p; [|rewrite len_cons in E; pose proof (len_nonneg p); lia]. by apply IH in Hw. }
  destruct (writeBytes p w) as [[k e] u] eqn:Ew. apply writeBytes_attempt in Ew as (Ha&Hs&Hk).
  assert (Hl : len (sent u) = len (sent w) + k).
  { rewrite Hs, len_app. unfold len in *. rewrite length_take. lia. }
  destruct e as [e|].
  - intros [= <- <- <-]. split; [by apply attempt_fail|]. by exists k.
  - intros Hw. apply IH in Hw as (Ha'&k'&->&Hl'). split; [by eapply attempt_app|]. exists (k + k'). lia.
Qed.

Lemma writeRangePart_spec part offset count w :
  0 <= offset → 0 < count →
  ∃ err off' count' w', writeRangePart part offset count w = Done (err, off', count', w') ∧
    let d := take (Z.to_nat count) (drop (Z.to_nat offset) part) in
    attempt d w err w' ∧ (err = None → off' = Z.max 0 (offset - len part) ∧ count' = count - len d).
Proof.
  intros Ho Hc. unfold writeRangePart. pose proof (len_nonneg part) as Hl. destruct (_ || _) eqn:E.
  { apply orb_true_iff in E as [E|E]; reflect_bools; [|lia].
    destruct part; [|rewrite len_cons in E; pose proof (len_nonneg part); lia].
    eexists _, _, _, _. split; [reflexivity|]. cbv zeta. rewrite drop_nil, take_nil.
    split; [apply attempt_nil|]. intros _. unfold len in *. simpl length in *. lia. }
  reflect_bools. cbv zeta. destruct (len part <=? offset) eqn:E; reflect_bools.
  { eexists _, _, _, _. split; [reflexivity|]. rewrite drop_ge, take_nil by (unfold len in *; lia).
    split; [apply attempt_nil|]. intros _. unfold len in *. simpl length in *. lia. }
  set (n := if count <? len part - offset then count else len part - offset).
  assert (Hn : 0 < n <= len part - offset ∧ n <= count ∧ (n = count ∨ n = len part - offset)).
  { unfold n. destruct (count <? len part - offset) eqn:En; reflect_bools; lia. }
  clearbody n.
  rewrite slice_in_range by lia. cbn [mbind outcome_bind of_option].
  replace (offset + n - offset) with n by lia.
  assert (Ed : take (Z.to_nat n) (drop (Z.to_nat offset) part) = take (Z.to_nat count) (drop (Z.to_nat offset) part)).
  { destruct Hn as (Hn&Hn'&[->| ->]); [done|]. rewrite !take_ge; [done|..]; rewrite length_drop; unfold len in *; lia. }
  rewrite Ed. set (d := take (Z.to_nat count) _) in *.
  assert (Hd : len d = n) by (rewrite <- Ed; unfold len in *; rewrite length_take, length_drop; lia).
  destruct (writeBytes d w) as [[k e] u] eqn:Ew. apply writeBytes_attempt in Ew as (Ha&_&_).
  destruct e; eexists _, _, _, _; (split; [reflexivity|]); (split; [exact Ha|]); [done|]. intros _. lia.
Qed.

(** Going through the parts sends the range of their concatenation. *)
Lemma range_payloads_spec ps offset count w :
  0 <= offset → 0 < count →
  ∃ err w', range_payloads ps offset count w = Done (err, w') ∧
    attempt (take (Z.to_nat count) (drop (Z.to_nat offset) (concat ps))) w err w'.
Proof.
  revert offset count w. induction ps as [|p ps IH]; intros offset count w Ho Hc; simpl.
  { exists None, w. split; [done|]. rewrite drop_nil, take_nil. apply attempt_nil. }
  destruct (writeRangePart_spec p offset count w Ho Hc) as (e&o'&c'&u&->&Ha&Hn). cbn [mbind outcome_bind].
  rewrite drop_app, take_app. set (d := take (Z.to_nat count) (drop (Z.to_nat offset) p)) in *.
  destruct e as [e|]; [eexists _, _; split; [done|]; by apply attempt_fail|].
  destruct (Hn eq_refl) as [-> ->]. clear Hn.
  assert (Hd : len d = Z.min count (Z.max 0 (len p - offset))).
  { unfold d, len. rewrite length_take, length_drop. lia. }
  destruct (count - len d <=? 0) eqn:E; reflect_bools.
  - eexists _, _. split; [done|].
    replace (Z.to_nat count - length (drop (Z.to_nat offset) p))%nat with 0%nat by (rewrite length_drop; unfold len in *; lia).
    by rewrite take_0, app_nil_r.
  - destruct (IH (Z.max 0 (offset - len p)) (count - len d) u) as (e&w'&->&Ha'); [lia..|].
    eexists _, _. split; [done|]. eapply attempt_app; [exact Ha|].
    replace (Z.to_nat offset - length p)%nat with (Z.to_nat (Z.max 0 (offset - len p))) by (unfold len; lia).
    replace (Z.to_nat count - length (drop (Z.to_nat offset) p))%nat with (Z.to_nat (count - len d)); [done|].
    rewrite length_drop. unfold len in *. lia.
Qed.

(** For a destination that keeps the contract of [io.Writer], [WriteRange]
    never panics and sends exactly the bytes of the range that lie in the segment,
    or a first part of them and the destination's error; [WriteTo] does so for the
    whole segment and counts the bytes that were sent. *)
Theorem Segment_writes (s : Segment) (offset count : Z) (w : W) :
  (∃ err w', WriteRange s offset count w = Done (err, w') ∧ attempt (wanted s offset count) w err w') ∧
  (∃ n err w', WriteTo s w = (n, err, w') ∧ attempt (content s) w err w' ∧
     len (sent w') = len (sent w) + n ∧ (err = None → n = Len s)).
Proof.
  split.
  - unfold WriteRange, wanted. rewrite Len_content. destruct (count <=? 0) eqn:Ec; [eexists _, _; split; [done|apply attempt_nil]|].
    destruct (offset <? 0) eqn:Eo; [eexists _, _; split; [done|apply attempt_nil]|]. reflect_bools. simpl orb.
    destruct (len (content s) <=? offset) eqn:El; reflect_bools.
    { eexists _, _. split; [done|]. rewrite drop_ge, take_nil by (unfold len in *; lia). apply attempt_nil. }
    apply (range_payloads_spec (Header s :: Payloads s) offset count w); lia.
  - unfold WriteTo. destruct (writeBytes (Header s) w) as [[k e] u] eqn:Ew.
    apply writeBytes_attempt in Ew as (Ha&Hs&Hk).
    assert (Hl : len (sent u) = len (sent w) + k) by (rewrite Hs, len_app; unfold len in *; rewrite length_take; lia).
    destruct e as [e|]; [eexists _, _, _; split_and!; [done|by apply attempt_fail|done|done]|].
    destruct (write_payloads (Payloads s) k u) as [[n e] v] eqn:Ep.
    apply write_payloads_attempt in Ep as (Ha'&j&->&Hl'). pose proof (attempt_app _ _ _ _ _ _ Ha Ha') as Hall.
    eexists _, _, _. split_and!; [done|exact Hall|lia|]. intros ->. destruct Hall as (m&Hm&Hlm).
    rewrite take_ge in Hm by done. rewrite Len_content. unfold content. apply (f_equal len) in Hm. rewrite len_app in Hm. lia.
Qed.
End Laws.

(** A destination with room for a number of bytes. *)
Record room := mkRoom { taken : list Z; space : nat }.

#[export] Instance room_writer : IoWriter room.
Proof.
  refine {| Write := λ data w, let n := min (length data) (space w) in
              (Z.of_nat n, bool_decide (n < length data)%nat, mkRoom (taken w ++ take n data) (space w - n));
            sent := taken |}.
  intros data w n failed w' [= <- <- <-]. unfold len. split_and!; [lia|lia|by rewrite Nat2Z.id|].
  intros Hn. apply bool_decide_eq_true. lia.
Defined.

Definition demo_segment : Segment := mkSegment [104; 101] [[118; 105; 100]; []; [97; 117; 100]] 0 1000.

Lemma Segment_writes_witness :
  WriteRange demo_segment 1 5 (mkRoom [] 100) = Done (None, mkRoom [101; 118; 105; 100; 97] 95) ∧
  WriteRange demo_segment 1 5 (mkRoom [] 2) = Done (Some WriterError, mkRoom [101; 118] 0) ∧
  (∃ err w', WriteRange demo_segment 1 5 (mkRoom [] 2) = Done (err, w') ∧
     attempt (wanted demo_segment 1 5) (mkRoom [] 2) err w').
Proof.
  split_and!; [vm_compute; reflexivity|vm_compute; reflexivity|].
  apply (proj1 (Segment_writes demo_segment 1 5 (mkRoom [] 2))).
Defined.
