(* ===== verification/Matroska.v ===== *)
(** * Matroska cue indexes ([server/gstreamer/cue.go])

    To cut a stream at key frames, the transcoder reads the cue index of a Matroska
    file over HTTP range requests: the start of the file for the seek head, the
    segment's information and the tracks, then the elements the seek head points
    to, and last the cues.  The result is a timeline of segments from one key frame
    to the next.

    The bytes come from the network and may be anything.  Go's slice accesses are
    checked ([Panic]), loops carry fuel ([NoFuel]) and the theorems show that neither
    happens.  [uint64] and [int] arithmetic is written with its wrap-around. *)

From S2P Require Import Prelude GoText.
#[local] Open Scope Z_scope.

(** ** Identifiers and limits *)

Definition ebmlID : Z := 0x1A45DFA3.
Definition matroskaSegmentID : Z := 0x18538067.
Definition seekHeadID : Z := 0x114D9B74.
Definition seekID : Z := 0x4DBB.
Definition seekEntryID : Z := 0x53AB.
Definition seekPositionID : Z := 0x53AC.
Definition infoID : Z := 0x1549A966.
Definition timestampScaleID : Z := 0x2AD7B1.
Definition tracksID : Z := 0x1654AE6B.
Definition trackEntryID : Z := 0xAE.
Definition trackNumberID : Z := 0xD7.
Definition trackTypeID : Z := 0x83.
Definition cuesID : Z := 0x1C53BB6B.
Definition cuePointID : Z := 0xBB.
Definition cueTimeID : Z := 0xB3.
Definition cueTrackPositionsID : Z := 0xB7.
Definition cueTrackID : Z := 0xF7.
Definition cueClusterPositionID : Z := 0xF1.

Definition defaultTimestampScaleNS : Z := 1000000.
Definition matroskaPrefixLength : Z := 4 * 1024 * 1024.
Definition maxMatroskaMetadata : Z := 8 * 1024 * 1024.
Definition maxMatroskaCues : Z := 64 * 1024 * 1024.
Definition maxMatroskaCuePoints : Z := 1000000.

Record CueSegment := mkCueSegment { cs_StartNS : Z; cs_EndNS : Z }.
Definition DurationNS (s : CueSegment) : Z := u64 (cs_EndNS s - cs_StartNS s).

Record CueTimeline := mkCueTimeline { Segments : list CueSegment; TimestampScaleNS : Z; MaxDurationNS : Z }.

(** [CueTimeline.Segment]; a nil timeline is [None]. *)
Definition timeline_Segment (t : option CueTimeline) (index : Z) : option CueSegment :=
  match t with
  | None => None
  | Some t => if (index <? 0) || (len (Segments t) <=? index) then None else idx (Segments t) index
  end.

(** ** EBML elements *)

Record ebmlElement := mkElement { e_id : Z; e_offset : Z; dataOffset : Z; e_size : Z; unknownSize : bool }.

Definition endOffset (e : ebmlElement) : Z := u64 (u64 (dataOffset e) + e_size e).

(** The loop of [ebmlVintLength]; [mask] loses a bit in every turn and is 0 after
    eight of them. *)
Fixpoint vint_loop (fuel : nat) (first mask length maxLength : Z) : outcome Z :=
  match fuel with
  | O => NoFuel
  | S fuel =>
      if (length <=? maxLength) && (Z.land first mask =? 0)
      then vint_loop fuel first (Z.shiftr mask 1) (length + 1) maxLength
      else Done length
  end.

Definition ebmlVintLength (first maxLength : Z) : outcome (Z * bool) :=
  length ← vint_loop (S (Z.to_nat maxLength)) first 0x80 1 maxLength;
  Done (length, length <=? maxLength).

(** [n] turns of [value = value<<8 | uint64(data[i])]. *)
Fixpoint shift_in (n : nat) (data : list Z) (i value : Z) : outcome Z :=
  match n with
  | O => Done value
  | S n => b ← of_option (idx data i); shift_in n data (i + 1) (u64 (Z.lor (Z.shiftl value 8) b))
  end.

Definition readEBMLElement (data : list Z) (offset : Z) : outcome (option ebmlElement) :=
  if (offset <? 0) || (len data <=? offset) then Done None
  else
    first ← of_option (idx data offset);
    '(idLength, ok) ← ebmlVintLength first 4;
    if negb ok || (len data - offset <? idLength + 1) then Done None
    else
      id ← shift_in (Z.to_nat idLength) data offset 0;
      let sizeOffset := offset + idLength in
      b ← of_option (idx data sizeOffset);
      '(sizeLength, ok) ← ebmlVintLength b 8;
      if negb ok || (len data - sizeOffset <? sizeLength) then Done None
      else
        let marker := u8 (Z.shiftr 0x80 (sizeLength - 1)) in
        size ← shift_in (Z.to_nat (sizeLength - 1)) data (sizeOffset + 1) (Z.land b (u8 (marker - 1)));
        let valueBits := sizeLength * 7 in
        let unknown := if valueBits =? 56 then 0x00ffffffffffffff else u64 (u64 (Z.shiftl 1 valueBits) - 1) in
        Done (Some (mkElement id offset (sizeOffset + sizeLength) size (size =? unknown))).

Definition readEBMLUnsigned (data : list Z) (e : ebmlElement) : outcome (Z * bool) :=
  if (e_size e =? 0) || (8 <? e_size e) || (len data <? endOffset e) then Done (0, false)
  else
    value ← shift_in (Z.to_nat (i64 (endOffset e) - dataOffset e)) data (dataOffset e) 0;
    Done (value, true).

(** ** Walking over the elements of a parent *)

(** The loop all parsers share: read an element at [offset], leave with [broken] when
    it is not one, has no known size or ends beyond [limit], give it to [body], which
    may leave with a result ([inr]), and go on behind it; [whole] is the result at the
    end. *)
Section Walk.
Context {St R : Type} (data : list Z) (broken whole : St → R) (body : ebmlElement → St → outcome (St + R)).

Fixpoint elements (fuel : nat) (offset limit : Z) (s : St) : outcome R :=
  match fuel with
  | O => NoFuel
  | S fuel =>
      if offset <? limit then
        element ← readEBMLElement data offset;
        match element with
        | None => Done (broken s)
        | Some e =>
            if unknownSize e || (u64 limit <? endOffset e) then Done (broken s)
            else
              r ← body e s;
              match r with
              | inl s => elements fuel (i64 (endOffset e)) limit s
              | inr r => Done r
              end
        end
      else Done (whole s)
  end.
End Walk.

(** An element takes at least two bytes of the data. *)
Definition walk_fuel (data : list Z) : nat := S (length data).

(** The children of an element. *)
Definition children {St R : Type} (data : list Z) (parent : ebmlElement) (broken whole : St → R)
    (body : ebmlElement → St → outcome (St + R)) (s : St) : outcome R :=
  elements data broken whole body (walk_fuel data) (dataOffset parent) (i64 (endOffset parent)) s.

(** ** Seek head, information and tracks *)

(** The children of a [Seek] entry: the target, the position and whether it is there. *)
Definition seek_entry (data : list Z) (child : ebmlElement) (s : Z * Z * bool) : outcome ((Z * Z * bool) + (Z * Z * bool)) :=
  let '(target, position, hasPosition) := s in
  if (e_id child =? seekEntryID) && (0 <? e_size child) && (e_size child <=? 4) then
    '(v, _) ← readEBMLUnsigned data child; Done (inl (v, position, hasPosition))
  else if (e_id child =? seekPositionID) && (0 <? e_size child) && (e_size child <=? 8) then
    '(v, _) ← readEBMLUnsigned data child; Done (inl (target, v, true))
  else Done (inl (target, position, hasPosition)).

Definition parseSeekHead (data : list Z) (parent : ebmlElement) (positions : gmap Z Z) : outcome (gmap Z Z) :=
  children data parent id id (λ entry positions,
    if e_id entry =? seekID then
      '(target, position, hasPosition) ← children data entry id id (seek_entry data) (0, 0, false);
      if negb (target =? 0) && hasPosition then
        Done (inl (match positions !! target with Some _ => positions | None => <[target := position]> positions end))
      else Done (inl positions)
    else Done (inl positions)) positions.

Definition parseTimestampScale (data : list Z) (parent : ebmlElement) (result : Z) : outcome Z :=
  children data parent id id (λ child result,
    if (e_id child =? timestampScaleID) && (0 <? e_size child) && (e_size child <=? 8) then
      '(value, ok) ← readEBMLUnsigned data child;
      Done (inr (if (ok : bool) && (0 <? value) then value else result))
    else Done (inl result)) result.

(** The children of a [TrackEntry]: the number and the type. *)
Definition track_entry (data : list Z) (child : ebmlElement) (s : Z * Z) : outcome ((Z * Z) + (Z * Z)) :=
  let '(number, trackType) := s in
  if e_id child =? trackNumberID then '(v, _) ← readEBMLUnsigned data child; Done (inl (v, trackType))
  else if e_id child =? trackTypeID then '(v, _) ← readEBMLUnsigned data child; Done (inl (number, v))
  else Done (inl (number, trackType)).

Definition parseVideoTrackNumber (data : list Z) (tracks : ebmlElement) : outcome Z :=
  children data tracks (λ _, 0) (λ _, 0) (λ entry (_ : unit),
    if e_id entry =? trackEntryID then
      '(number, trackType) ← children data entry id id (track_entry data) (0, 0);
      if (trackType =? 1) && (0 <? number) then Done (inr number) else Done (inl tt)
    else Done (inl tt)) tt.

(** What is known of the file: the positions of the seek head, the time scale and the
    number of the video track. *)
Record prefix_info := mkInfo { positions : gmap Z Z; scaleNS : Z; videoTrackNumber : Z }.

Definition prefix_element (data : list Z) (element : ebmlElement) (s : prefix_info) : outcome (prefix_info + prefix_info) :=
  if e_id element =? seekHeadID then
    p ← parseSeekHead data element (positions s); Done (inl (mkInfo p (scaleNS s) (videoTrackNumber s)))
  else if e_id element =? infoID then
    t ← parseTimestampScale data element (scaleNS s); Done (inl (mkInfo (positions s) t (videoTrackNumber s)))
  else if e_id element =? tracksID then
    n ← parseVideoTrackNumber data element; Done (inl (mkInfo (positions s) (scaleNS s) n))
  else Done (inl s).

Definition parseMatroskaPrefix (data : list Z) (offset : Z) (s : prefix_info) : outcome prefix_info :=
  elements data id id (prefix_element data) (walk_fuel data) offset (len data) s.

Definition findMatroskaSegment (data : list Z) : outcome (option ebmlElement) :=
  e ← readEBMLElement data 0;
  match e with
  | None => Done None
  | Some ebml =>
      if negb (e_id ebml =? ebmlID) || unknownSize ebml || (len data <? endOffset ebml) then Done None
      else
        s ← readEBMLElement data (i64 (endOffset ebml));
        match s with
        | Some segment => Done (if e_id segment =? matroskaSegmentID then Some segment else None)
        | None => Done None
        end
  end.

(** ** Cues *)

(** The children of a [CueTrackPositions]: the track and whether there is a cluster. *)
Definition cue_position (data : list Z) (child : ebmlElement) (s : Z * bool) : outcome ((Z * bool) + bool) :=
  let '(track, hasCluster) := s in
  if e_id child =? cueTrackID then '(v, _) ← readEBMLUnsigned data child; Done (inl (v, hasCluster))
  else if e_id child =? cueClusterPositionID then '(_, ok) ← readEBMLUnsigned data child; Done (inl (track, ok))
  else Done (inl (track, hasCluster)).

Definition hasVideoCuePosition (data : list Z) (position : ebmlElement) (videoTrack : Z) : outcome bool :=
  children data position (λ _, false) (λ '(track, hasCluster), (track =? videoTrack) && hasCluster)
    (cue_position data) (0, false).

(** The children of a [CuePoint]: the time, whether it is there, and whether a
    position of the video track is. *)
Definition cue_child (data : list Z) (videoTrack : Z) (child : ebmlElement) (s : Z * bool * bool)
    : outcome ((Z * bool * bool) + (Z * bool)) :=
  let '(cueTime, hasTime, hasPosition) := s in
  if e_id child =? cueTimeID then '(v, ok) ← readEBMLUnsigned data child; Done (inl (v, ok, hasPosition))
  else if e_id child =? cueTrackPositionsID then
    here ← hasVideoCuePosition data child videoTrack;
    Done (inl (cueTime, hasTime, if (here : bool) then true else hasPosition))
  else Done (inl (cueTime, hasTime, hasPosition)).

Definition readVideoCueTime (data : list Z) (point : ebmlElement) (videoTrack : Z) : outcome (Z * bool) :=
  children data point (λ _, (0, false)) (λ '(cueTime, hasTime, hasPosition), (cueTime, hasTime && hasPosition))
    (cue_child data videoTrack) (0, false, false).

(** A point of the index: its time is kept when the product with the scale fits and
    lies before the end of the stream. *)
Definition cue_point (data : list Z) (videoTrack timestampScaleNS durationNS : Z) (point : ebmlElement) (times : list Z)
    : outcome (list Z + option (list Z)) :=
  if e_id point =? cuePointID then
    '(cueTime, ok) ← readVideoCueTime data point videoTrack;
    if (ok : bool) then
      if timestampScaleNS =? 0 then Panic
      else if cueTime <=? (two64 - 1) / timestampScaleNS then
        let timeNS := u64 (cueTime * timestampScaleNS) in
        if timeNS <? durationNS then
          let times := times ++ [timeNS] in
          if maxMatroskaCuePoints <? len times then Done (inr None) else Done (inl times)
        else Done (inl times)
      else Done (inl times)
    else Done (inl times)
  else Done (inl times).

Definition cue_times (data : list Z) (cues : ebmlElement) (videoTrack timestampScaleNS durationNS : Z) : outcome (option (list Z)) :=
  children data cues (λ _, None) Some (cue_point data videoTrack timestampScaleNS durationNS) [].

Section Timeline.
Context `{!SliceSort Z.ltb}.

(** The segments between the times that increase; the time that is left. *)
Fixpoint cut (times : list Z) (previous : Z) : list CueSegment * Z :=
  match times with
  | [] => ([], previous)
  | current :: times =>
      if current <=? previous then cut times previous
      else let '(segments, last) := cut times current in (mkCueSegment previous current :: segments, last)
  end.

Definition max_duration (segments : list CueSegment) : Z :=
  foldl (λ m s, if m <? DurationNS s then DurationNS s else m) 0 segments.

Definition build_timeline (times : list Z) (timestampScaleNS durationNS : Z) : option CueTimeline :=
  if len times <? 2 then None
  else
    match sort_slice Z.ltb times with
    | [] => None
    | first :: rest =>
        let '(segments, previous) := cut rest first in
        let segments := if previous <? durationNS then segments ++ [mkCueSegment previous durationNS] else segments in
        if len segments =? 0 then None
        else Some (mkCueTimeline segments timestampScaleNS (max_duration segments))
    end.

Definition parseCueTimeline (data : list Z) (cues : ebmlElement) (videoTrack timestampScaleNS durationNS : Z)
    : outcome (option CueTimeline) :=
  times ← cue_times data cues videoTrack timestampScaleNS durationNS;
  match times with
  | None => Done None
  | Some times => Done (build_timeline times timestampScaleNS durationNS)
  end.
End Timeline.

(** ** Over HTTP *)

Record http_response := mkResponse { StatusCode : Z; ContentRange : list Z; Body : list Z }.

Definition StatusOK : Z := 200.
Definition StatusPartialContent : Z := 206.

Section Http.
(** What the server answers to the request numbered [request] for the bytes [from] to
    [to]; [None] when the request fails.  Every place of the code that makes a request
    has its own number, so equal ranges may get different answers. *)
Context (Do : nat → Z → Z → option http_response).
Context `{!SliceSort Z.ltb}.

Definition maxInt64 : Z := two63 - 1.

Definition readHTTPRange (request : nat) (offset length : Z) : option (list Z) :=
  if (offset <? 0) || (length <=? 0) || (maxInt64 - offset <? length - 1) then None
  else
    match Do request offset (offset + length - 1) with
    | None => None
    | Some resp =>
        if negb (StatusCode resp =? StatusPartialContent) && negb ((offset =? 0) && (StatusCode resp =? StatusOK)) then None
        else if (StatusCode resp =? StatusPartialContent) &&
                negb (bool_decide (is_Some (strip_prefix (str "bytes " ++ FormatInt offset ++ str "-") (ContentRange resp)))) then None
        else if len (Body resp) <? length then None
        else Some (take (Z.to_nat length) (Body resp))
    end.

(** [nil] is the empty list. *)
Definition readMatroskaElement (request : nat) (segmentOffset relative expectedID maxLength contentLength : Z) : outcome (list Z) :=
  if (maxInt64 <? relative) || (segmentOffset <? 0) || (maxInt64 - segmentOffset <? relative) then Done []
  else
    let offset := segmentOffset + relative in
    let headerLength := if (0 <? contentLength) && (contentLength - offset <? 16) then contentLength - offset else 16 in
    if headerLength <=? 0 then Done []
    else
      match readHTTPRange request offset headerLength with
      | None => Done []
      | Some header =>
          e ← readEBMLElement header 0;
          match e with
          | None => Done []
          | Some element =>
              if negb (e_id element =? expectedID) || unknownSize element || (maxLength <? e_size element) then Done []
              else
                let total := u64 (dataOffset element - e_offset element + e_size element) in
                if (maxLength + 16 <? total) || (maxInt64 <? total) then Done []
                else if (0 <? contentLength) && ((contentLength <? offset) || (contentLength - offset <? total)) then Done []
                else Done (default [] (readHTTPRange (S request) offset total))
          end
      end.

(** The two elements that may lie beyond the prefix. *)
Definition fetch_tracks (segmentDataOffset contentLength : Z) (s : prefix_info) : outcome prefix_info :=
  if videoTrackNumber s =? 0 then
    match positions s !! tracksID with
    | None => Done s
    | Some position =>
        data ← readMatroskaElement 1 segmentDataOffset position tracksID maxMatroskaMetadata contentLength;
        if 0 <? len data then
          e ← readEBMLElement data 0;
          match e with
          | Some element => n ← parseVideoTrackNumber data element; Done (mkInfo (positions s) (scaleNS s) n)
          | None => Done s
          end
        else Done s
    end
  else Done s.

Definition fetch_scale (segmentDataOffset contentLength : Z) (s : prefix_info) : outcome prefix_info :=
  match positions s !! infoID with
  | None => Done s
  | Some position =>
      data ← readMatroskaElement 3 segmentDataOffset position infoID maxMatroskaMetadata contentLength;
      if 0 <? len data then
        e ← readEBMLElement data 0;
        match e with
        | Some element => t ← parseTimestampScale data element (scaleNS s); Done (mkInfo (positions s) t (videoTrackNumber s))
        | None => Done s
        end
      else Done s
  end.

Definition fetch_cues (segmentDataOffset contentLength durationNS : Z) (s : prefix_info) : outcome (option CueTimeline) :=
  match positions s !! cuesID with
  | None => Done None
  | Some cuesPosition =>
      if (videoTrackNumber s =? 0) || (scaleNS s =? 0) then Done None
      else
        cues ← readMatroskaElement 5 segmentDataOffset cuesPosition cuesID maxMatroskaCues contentLength;
        if len cues =? 0 then Done None
        else
          e ← readEBMLElement cues 0;
          match e with
          | None => Done None
          | Some element => parseCueTimeline cues element (videoTrackNumber s) (scaleNS s) (u64 durationNS)
          end
  end.

Definition readMatroskaCueTimeline (sourceURL : list Z) (contentLength durationNS : Z) : outcome (option CueTimeline) :=
  if (len sourceURL =? 0) || (durationNS <=? 0) then Done None
  else
    let prefixLength :=
      if (0 <? contentLength) && (contentLength <? matroskaPrefixLength) then contentLength else matroskaPrefixLength in
    match readHTTPRange 0 0 prefixLength with
    | None => Done None
    | Some prefix =>
        seg ← findMatroskaSegment prefix;
        match seg with
        | None => Done None
        | Some segment =>
            let segmentDataOffset := dataOffset segment in
            s ← parseMatroskaPrefix prefix segmentDataOffset (mkInfo ∅ defaultTimestampScaleNS 0);
            s ← fetch_tracks segmentDataOffset contentLength s;
            s ← fetch_scale segmentDataOffset contentLength s;
            fetch_cues segmentDataOffset contentLength durationNS s
        end
    end.
End Http.
