(* ===== verification/MatroskaRead.v ===== *)
(** * Reading Matroska elements is safe

    On data of any content a Go slice can hold, every parser of [Matroska] returns:
    no access is out of bounds and no loop runs on.  The file ends with the meaning of
    the numbers read and the shared lemma on walks over the elements of a parent. *)

From S2P Require Import Prelude GoText Encoding Matroska.
#[local] Open Scope Z_scope.

(** ** Reading bytes *)

Definition all_bytes : list Z := Z.of_nat <$> seq 0 256.

Lemma byte_cases (f : Z → bool) b : forallb f all_bytes = true → is_byte b → f b = true.
Proof.
  rewrite forallb_forall. intros H Hb. apply H, list_elem_of_In, list_elem_of_fmap. exists (Z.to_nat b).
  unfold is_byte in Hb. split; [lia|]. apply elem_of_seq. lia.
Qed.

(** The length is the position of the first bit set, for one byte. *)
Definition vint_is (b m : Z) : bool :=
  match ebmlVintLength b m with
  | Done (l, ok) => (l =? if b =? 0 then m + 1 else Z.min (m + 1) (8 - Z.log2 b)) && Bool.eqb ok (l <=? m)
  | _ => false
  end.

Lemma vint_table : forallb (λ b, vint_is b 4 && vint_is b 8) all_bytes = true.
Proof. vm_compute. reflexivity. Qed.

Lemma ebmlVintLength_spec b m : is_byte b → m = 4 ∨ m = 8 →
  let l := if b =? 0 then m + 1 else Z.min (m + 1) (8 - Z.log2 b) in
  ebmlVintLength b m = Done (l, l <=? m) ∧ 1 <= l <= m + 1.
Proof.
  intros Hb Hm l. pose proof (byte_cases _ b vint_table Hb) as H. apply andb_true_iff in H as [H4 H8].
  assert (Hv : vint_is b m = true) by (destruct Hm as [-> | ->]; done). unfold vint_is in Hv.
  destruct (ebmlVintLength b m) as [[k ok]| |]; [|done..]. apply andb_true_iff in Hv as [Hk Ho].
  apply Z.eqb_eq in Hk. apply Bool.eqb_prop in Ho. subst k ok. split; [done|]. unfold l.
  unfold is_byte in Hb. destruct (b =? 0) eqn:E; [lia|]. reflect_bools.
  pose proof (Z.log2_nonneg b). assert (Z.log2 b < 8) by (apply Z.log2_lt_pow2; lia). lia.
Qed.

Lemma lor_shift8 v b : 0 <= v → is_byte b → Z.lor (Z.shiftl v 8) b = v * 256 + b.
Proof.
  intros Hv Hb. unfold is_byte in Hb. rewrite Z.shiftl_mul_pow2 by lia. change (2 ^ 8) with 256.
  apply Z.bits_inj'. intros k Hk. rewrite Z.lor_spec. destruct (Z.lt_ge_cases k 8).
  - rewrite (Z.mul_pow2_bits_low _ 8) by lia. simpl. change 256 with (2 ^ 8).
    rewrite <- (Z.mod_pow2_bits_low (v * 2 ^ 8 + b) 8) by lia.
    rewrite Z.add_comm, Z.mod_add, Z.mod_small by lia. done.
  - change 256 with (2 ^ 8). rewrite Z.mul_pow2_bits by lia.
    assert (Z.testbit b k = false) as ->.
    { destruct (decide (b = 0)) as [->|]; [apply Z.testbit_0_l|]. apply Z.bits_above_log2; [lia|].
      apply Z.lt_le_trans with 8; [|done]. apply Z.log2_lt_pow2; lia. }
    rewrite orb_false_r. replace k with ((k - 8) + 8) at 2 by lia. rewrite <- Z.div_pow2_bits by lia.
    rewrite Z.div_add_l, Z.div_small, Z.add_0_r by lia. done.
Qed.

(** Bytes shifted in are read as a big-endian number. *)
Lemma shift_in_spec n data i v :
  bytes_ok data → 0 <= i → i + Z.of_nat n <= len data → 0 <= v → (v + 1) * 256 ^ Z.of_nat n <= two64 →
  shift_in n data i v = Done (v * 256 ^ Z.of_nat n + be (take n (drop (Z.to_nat i) data))).
Proof.
  intros Hb. revert i v. induction n as [|n IH]; intros i v Hi Hl Hv Hbound.
  { simpl. unfold be. simpl. f_equal. lia. }
  cbn [shift_in]. destruct (idx_in_range data i) as [b Eb]; [lia|]. rewrite Eb. cbn [mbind outcome_bind of_option].
  pose proof (idx_byte _ _ _ Hb Eb) as Hbb. rewrite lor_shift8 by done. unfold is_byte in Hbb.
  assert (Hp : 0 < 256 ^ Z.of_nat n) by (apply Z.pow_pos_nonneg; lia).
  assert (Es : 256 ^ Z.of_nat (S n) = 256 * 256 ^ Z.of_nat n) by (rewrite Nat2Z.inj_succ, Z.pow_succ_r; lia).
  rewrite Es in *. rewrite u64_id by (unfold in_u64; nia). rewrite IH by nia. f_equal.
  assert (Ed : drop (Z.to_nat i) data = b :: drop (Z.to_nat (i + 1)) data).
  { unfold idx in Eb. destruct (0 <=? i); [|done]. rewrite (drop_S _ b) by done. do 2 f_equal. lia. }
  rewrite Ed. simpl take. rewrite be_cons. unfold len at 1. rewrite length_take, length_drop.
  replace (Nat.min n _) with n by (unfold len in *; lia). lia.
Qed.

Lemma be_take_bound n (l : list Z) : bytes_ok l → 0 <= be (take n l) < 256 ^ Z.of_nat n.
Proof.
  intros Hl. pose proof (be_bound (take n l) (Forall_take _ _ _ Hl)) as Hb.
  assert (256 ^ len (take n l) <= 256 ^ Z.of_nat n); [|lia].
  apply Z.pow_le_mono_r; [lia|]. unfold len. rewrite length_take. lia.
Qed.

(** The first byte of a size without its marker. *)
Definition size_bits (b n : Z) : bool :=
  Z.land b (u8 (u8 (Z.shiftr 0x80 (n - 1)) - 1)) =? b mod 2 ^ (8 - n).

Lemma size_bits_table : forallb (λ b, forallb (size_bits b) [1; 2; 3; 4; 5; 6; 7; 8]) all_bytes = true.
Proof. vm_compute. reflexivity. Qed.

Lemma size_bits_spec b n : is_byte b → 1 <= n <= 8 →
  Z.land b (u8 (u8 (Z.shiftr 0x80 (n - 1)) - 1)) = b mod 2 ^ (8 - n).
Proof.
  intros Hb Hn. pose proof (byte_cases _ b size_bits_table Hb) as H. rewrite forallb_forall in H.
  apply Z.eqb_eq, H. assert (E : n = 1 ∨ n = 2 ∨ n = 3 ∨ n = 4 ∨ n = 5 ∨ n = 6 ∨ n = 7 ∨ n = 8) by lia. simpl. naive_solver.
Qed.

(** ** Elements read *)

(** What the parsers rely on: the element lies in the data up to its content, and its
    size has at most 56 bits. *)
Record wf_element (data : list Z) (e : ebmlElement) : Prop := {
  we_offset : 0 <= e_offset e;
  we_header : e_offset e + 2 <= dataOffset e;
  we_data : dataOffset e <= len data;
  we_size : 0 <= e_size e < 2 ^ 56;
}.

Lemma endOffset_id data e : wf_data data → wf_element data e → endOffset e = dataOffset e + e_size e.
Proof.
  intros [_ Hl] []. unfold endOffset. change (2 ^ 56) with 72057594037927936 in *. unfold two63 in *.
  rewrite !u64_id; unfold in_u64, two64; rewrite ?u64_id; unfold in_u64, two64; lia.
Qed.

Lemma readEBMLElement_wf data offset : wf_data data →
  ∃ r, readEBMLElement data offset = Done r ∧ ∀ e, r = Some e → wf_element data e ∧ e_offset e = offset.
Proof.
  intros [Hb Hl]. unfold readEBMLElement. destruct (_ || _) eqn:E0; [by exists None|]. reflect_bools.
  destruct (idx_in_range data offset) as [b1 E1]; [lia|]. rewrite E1. cbn [mbind outcome_bind of_option].
  pose proof (idx_byte _ _ _ Hb E1) as Hb1. destruct (ebmlVintLength_spec b1 4 Hb1) as [-> L1]; [by left|].
  set (n1 := if b1 =? 0 then _ else _) in *. clearbody n1. cbn [mbind outcome_bind].
  destruct (_ || _) eqn:E2; [by exists None|]. reflect_bools.
  rewrite shift_in_spec; [|done|lia|lia|lia|].
  2: { change (0 + 1) with 1. rewrite Z.mul_1_l. change two64 with (256 ^ 8). apply Z.pow_le_mono_r; lia. }
  cbn [mbind outcome_bind]. destruct (idx_in_range data (offset + n1)) as [b2 E3]; [lia|]. rewrite E3.
  cbn [mbind outcome_bind of_option]. pose proof (idx_byte _ _ _ Hb E3) as Hb2.
  destruct (ebmlVintLength_spec b2 8 Hb2) as [-> L2]; [by right|].
  set (n2 := if b2 =? 0 then _ else _) in *. clearbody n2. cbn [mbind outcome_bind].
  destruct (_ || _) eqn:E4; [by exists None|]. reflect_bools.
  rewrite size_bits_spec by (done || lia). pose proof (Z.mod_pos_bound b2 (2 ^ (8 - n2))) as Hm.
  assert (Hp : 0 < 2 ^ (8 - n2)) by (apply Z.pow_pos_nonneg; lia). specialize (Hm Hp).
  assert (Hpow : 2 ^ (8 - n2) * 256 ^ (n2 - 1) = 2 ^ (7 * n2)).
  { change 256 with (2 ^ 8). rewrite <- Z.pow_mul_r, <- Z.pow_add_r by lia. f_equal. lia. }
  assert (H56 : 2 ^ (7 * n2) <= 2 ^ 56) by (apply Z.pow_le_mono_r; lia).
  assert (Hp' : 0 < 256 ^ (n2 - 1)) by (apply Z.pow_pos_nonneg; lia).
  pose proof (be_take_bound (Z.to_nat (n2 - 1)) (drop (Z.to_nat (offset + n1 + 1)) data) (Forall_drop _ _ _ Hb)) as Hbe.
  rewrite Z2Nat.id in Hbe by lia.
  rewrite shift_in_spec; rewrite ?Z2Nat.id by lia; [|done|lia|lia|lia|change (2 ^ 56) with 72057594037927936 in *; unfold two64; nia].
  cbn [mbind outcome_bind]. eexists. split; [reflexivity|]. intros e [= <-]. split; [|done].
  constructor; simpl; [lia|lia|lia|nia].
Qed.

Lemma readEBMLUnsigned_wf data e : wf_data data → wf_element data e →
  ∃ v ok, readEBMLUnsigned data e = Done (v, ok) ∧ in_u64 v.
Proof.
  intros Hd He. pose proof (endOffset_id _ _ Hd He) as Hend. destruct Hd as [Hb Hl], He as [].
  unfold readEBMLUnsigned. rewrite Hend. destruct (_ || _) eqn:E.
  { exists 0, false. split; [done|]. unfold in_u64, two64. lia. }
  reflect_bools. rewrite i64_id by (unfold in_i64; lia). replace (dataOffset e + e_size e - dataOffset e) with (e_size e) by lia.
  rewrite shift_in_spec; rewrite ?Z2Nat.id by lia; [|done|lia|lia|lia|].
  - cbn [mbind outcome_bind]. eexists _, _. split; [reflexivity|].
    pose proof (be_take_bound (Z.to_nat (e_size e)) (drop (Z.to_nat (dataOffset e)) data) (Forall_drop _ _ _ Hb)) as Hbe.
    rewrite Z2Nat.id in Hbe by lia. assert (256 ^ e_size e <= 256 ^ 8) by (apply Z.pow_le_mono_r; lia).
    change (256 ^ 8) with two64 in *. unfold in_u64. lia.
  - rewrite Z.mul_1_l. change two64 with (256 ^ 8). apply Z.pow_le_mono_r; lia.
Qed.

(** A walk returns, and keeps what its body keeps. *)
Lemma elements_spec {St R : Type} data (broken whole : St → R) body (P : St → Prop) (Q : R → Prop) :
  wf_data data →
  (∀ s, P s → Q (broken s)) → (∀ s, P s → Q (whole s)) →
  (∀ e s, wf_element data e → P s → ∃ x, body e s = Done x ∧ match x with inl s' => P s' | inr r => Q r end) →
  ∀ fuel offset limit s, 0 <= offset → in_i64 limit → Z.max 0 (len data - offset) < Z.of_nat fuel → P s →
    ∃ r, elements data broken whole body fuel offset limit s = Done r ∧ Q r.
Proof.
  intros Hd Hbr Hwh Hbody. induction fuel as [|fuel IH]; intros offset limit s Ho Hlim Hf Hs; [lia|].
  cbn [elements]. destruct (offset <? limit) eqn:El; reflect_bools; [|eexists; split; [done|auto]].
  destruct (readEBMLElement_wf data offset Hd) as (r&->&Hr). cbn [mbind outcome_bind].
  destruct r as [e|]; [|eexists; split; [done|auto]]. destruct (Hr e eq_refl) as [He Heo]. clear Hr.
  pose proof (endOffset_id _ _ Hd He) as Hend. destruct (_ || _) eqn:E; [eexists; split; [done|auto]|]. reflect_bools.
  rewrite (u64_id limit) in * by (unfold in_i64, in_u64, two63, two64 in *; lia).
  destruct (Hbody e s He Hs) as (x&->&Hx). cbn [mbind outcome_bind].
  destruct x as [s'|x]; [|eexists; split; [done|auto]]. destruct He.
  rewrite i64_id by (unfold in_i64 in *; lia). apply IH; [lia|done|lia|done].
Qed.

Lemma children_spec {St R : Type} data parent (broken whole : St → R) body (P : St → Prop) (Q : R → Prop) s :
  wf_data data → wf_element data parent →
  (∀ s, P s → Q (broken s)) → (∀ s, P s → Q (whole s)) →
  (∀ e s, wf_element data e → P s → ∃ x, body e s = Done x ∧ match x with inl s' => P s' | inr r => Q r end) →
  P s → ∃ r, children data parent broken whole body s = Done r ∧ Q r.
Proof.
  intros Hd Hp Hbr Hwh Hbody Hs. unfold children.
  apply (elements_spec data broken whole body P Q Hd Hbr Hwh Hbody); [destruct Hp; lia|apply i64_range| |done].
  destruct Hp. unfold walk_fuel, len. lia.
Qed.

(** [read_unsigned] evaluates the next number read. *)
Ltac read_unsigned Hd He :=
  match goal with
  | |- context [readEBMLUnsigned ?data ?e] =>
      let v := fresh "v" in let ok := fresh "ok" in let Hv := fresh "Hv" in
      destruct (readEBMLUnsigned_wf data e Hd He) as (v&ok&->&Hv); cbn [mbind outcome_bind]
  end.

Section Parsers.
Context (data : list Z) (Hd : wf_data data).

Lemma parseSeekHead_returns parent positions : wf_element data parent → map_Forall (λ _, in_u64) positions →
  ∃ p, parseSeekHead data parent positions = Done p ∧ map_Forall (λ _, in_u64) p.
Proof.
  intros Hp Hm. unfold parseSeekHead.
  apply (children_spec (St := gmap Z Z) data parent id id _ (map_Forall (λ _, in_u64)) (map_Forall (λ _, in_u64))); [done..| |done].
  intros e s He Hs. cbv beta. destruct (e_id e =? seekID); [|eexists; by split].
  edestruct (children_spec (R := Z * Z * bool) data e id id (seek_entry data))
    with (P := λ s : Z * Z * bool, in_u64 s.1.2) (Q := λ s : Z * Z * bool, in_u64 s.1.2)
    as ([[t q] h]&->&Hq); [exact Hd|exact He|done|done| |by vm_compute|].
  - intros c [[t q] h] Hc Hq. unfold seek_entry. destruct (_ && _); [read_unsigned Hd Hc; eexists; by split|].
    destruct (_ && _); [read_unsigned Hd Hc; eexists; by split|eexists; by split].
  - cbn [mbind outcome_bind]. destruct (_ && _); (eexists; split; [reflexivity|]); [|done].
    destruct (s !! t); [done|]. by apply map_Forall_insert_2.
Qed.

Lemma parseTimestampScale_returns parent scale : wf_element data parent → in_u64 scale →
  ∃ t, parseTimestampScale data parent scale = Done t ∧ in_u64 t.
Proof.
  intros Hp Ht. unfold parseTimestampScale.
  apply (children_spec (St := Z) data parent id id _ in_u64 in_u64); [done..| |done].
  intros e s He Hs. cbv beta. destruct (_ && _); [|eexists; by split].
  read_unsigned Hd He. eexists. split; [done|]. simpl. by destruct (_ && _).
Qed.

Lemma parseVideoTrackNumber_returns tracks : wf_element data tracks →
  ∃ n, parseVideoTrackNumber data tracks = Done n ∧ in_u64 n.
Proof.
  intros Hp. unfold parseVideoTrackNumber. assert (H0 : in_u64 0) by done.
  apply (children_spec data tracks (λ _, 0) (λ _, 0) _ (λ _, True) in_u64); [done..| |done].
  intros e s He _. cbv beta. destruct (e_id e =? trackEntryID); [|eexists; by split].
  edestruct (children_spec (R := Z * Z) data e id id (track_entry data)) with (P := λ s : Z * Z, in_u64 s.1) (Q := λ s : Z * Z, in_u64 s.1)
    as ([n t]&->&Hn); [exact Hd|exact He|done|done| |done|].
  - intros c [n t] Hc Hn. unfold track_entry. simpl in Hn. destruct (_ =? _); [read_unsigned Hd Hc; eexists; by split|].
    destruct (_ =? _); [read_unsigned Hd Hc; eexists; by split|eexists; by split].
  - cbn [mbind outcome_bind]. destruct (_ && _); eexists; by split.
Qed.

Lemma readVideoCueTime_returns point track : wf_element data point →
  ∃ v ok, readVideoCueTime data point track = Done (v, ok) ∧ in_u64 v.
Proof.
  intros Hp. unfold readVideoCueTime. assert (H0 : in_u64 0) by done.
  edestruct (children_spec (St := Z * bool * bool) (R := Z * bool) data point) with (P := λ s : Z * bool * bool, in_u64 s.1.1) (Q := λ s : Z * bool, in_u64 s.1)
    as ([v ok]&Hr&Hv); [exact Hd|exact Hp| | | |apply (H0 : in_u64 (0, false, false).1.1)|rewrite Hr; by exists v, ok].
  - done.
  - intros [[v t] p] Hv. done.
  - intros c [[v t] p] Hc Hv. unfold cue_child. simpl in Hv. destruct (_ =? _); [read_unsigned Hd Hc; eexists; by split|].
    destruct (_ =? _); [|eexists; by split]. unfold hasVideoCuePosition.
    edestruct (children_spec (St := Z * bool) (R := bool) data c) with (P := λ _ : Z * bool, True) (Q := λ _ : bool, True)
      as (h&->&_); [exact Hd|exact Hc|done|done| |exact I|cbn [mbind outcome_bind]; eexists; by split].
    intros k [n q] Hk _. unfold cue_position. destruct (_ =? _); [read_unsigned Hd Hk; eexists; by split|].
    destruct (_ =? _); [read_unsigned Hd Hk|]; eexists; by split.
Qed.

Lemma cue_times_returns cues track scale duration : wf_element data cues → 0 < scale → in_u64 duration →
  ∃ r, cue_times data cues track scale duration = Done r ∧ ∀ times, r = Some times → Forall (λ t, 0 <= t < duration) times.
Proof.
  intros Hp Hs Hdu. unfold cue_times.
  apply (children_spec data cues (λ _, None) Some _ (Forall (λ t, 0 <= t < duration))
    (λ r, ∀ times, r = Some times → Forall (λ t, 0 <= t < duration) times)); [done|done|done| | |constructor].
  { intros s Ht times [= <-]. done. }
  intros e times He Ht. unfold cue_point. destruct (_ =? _); [|eexists; by split].
  destruct (readVideoCueTime_returns e track He) as (v&ok&->&Hv). cbn [mbind outcome_bind].
  destruct ok; [|eexists; by split]. rewrite (proj2 (Z.eqb_neq scale 0)) by lia.
  destruct (v <=? _) eqn:E1; [|eexists; by split]. cbv zeta. destruct (_ <? duration) eqn:E2; [|eexists; by split].
  destruct (maxMatroskaCuePoints <? _); eexists; (split; [reflexivity|]); [done|]. reflect_bools.
  apply Forall_app. split; [done|]. repeat constructor; [apply u64_range|lia].
Qed.
End Parsers.
