(* ===== verification/MatroskaProps.v ===== *)
(** * The cue timeline

    For any answers of the server, reading the timeline returns, and a timeline
    returned cuts the stream from the first cue of the video track to its end without
    gaps.  For a well-formed index, printed by [encode_cues], the cuts are exactly the
    cue times of the video track. *)

From S2P Require Import Prelude GoText Encoding Matroska MatroskaRead.
#[local] Open Scope Z_scope.

(** ** Timelines *)

(** The segments start at the given times, in order, each ends where the next starts
    and the last at the end of the stream; the longest duration is reported. *)
Record timeline_ok (times : list Z) (scale duration : Z) (t : CueTimeline) : Prop := {
  to_sorted : StronglySorted Z.lt (cs_StartNS <$> Segments t);
  to_times : ∀ x, x ∈ cs_StartNS <$> Segments t ↔ x ∈ times;
  to_ends : cs_EndNS <$> Segments t = tail (cs_StartNS <$> Segments t) ++ [duration];
  to_scale : TimestampScaleNS t = scale;
  to_longest : ∀ s, s ∈ Segments t → 0 < cs_EndNS s - cs_StartNS s <= MaxDurationNS t;
  to_attained : ∃ s, s ∈ Segments t ∧ MaxDurationNS t = cs_EndNS s - cs_StartNS s;
}.

Lemma cut_spec times previous :
  Sorted Z.le (previous :: times) →
  let '(segments, last) := cut times previous in
  let starts := (cs_StartNS <$> segments) ++ [last] in
  StronglySorted Z.lt starts ∧ (∀ x, x ∈ starts ↔ x ∈ previous :: times) ∧
  (∃ rest, starts = previous :: rest) ∧ cs_EndNS <$> segments = tail starts.
Proof.
  revert previous. induction times as [|t times IH]; intros previous Hs; simpl.
  { split_and!; [by repeat constructor|done|by exists []|done]. }
  apply Sorted_inv in Hs as [Hs Hh]. apply HdRel_inv in Hh. destruct (t <=? previous) eqn:E; reflect_bools.
  - assert (t = previous) as -> by lia. specialize (IH previous Hs). destruct (cut times previous) as [segs last].
    destruct IH as (H1&H2&H3&H4). split_and!; [done| |done|done]. intros x. rewrite H2, !elem_of_cons. naive_solver.
  - specialize (IH t Hs). destruct (cut times t) as [segs last]. destruct IH as (H1&H2&(rest&H3)&H4).
    cbv zeta. rewrite !fmap_cons. cbn [app tail cs_StartNS cs_EndNS]. split_and!.
    + constructor; [done|]. rewrite H3 in H1 |- *. apply Forall_cons. split; [lia|].
      apply StronglySorted_inv in H1 as [_ H1]. eapply Forall_impl; [exact H1|]. intros x. simpl. lia.
    + intros x. by rewrite !elem_of_cons, H2, elem_of_cons.
    + by eexists.
    + by rewrite H3, H4, H3.
Qed.

Lemma max_duration_spec segments m :
  let r := foldl (λ m s, if m <? DurationNS s then DurationNS s else m) m segments in
  m <= r ∧ (∀ s, s ∈ segments → DurationNS s <= r) ∧ (r = m ∨ ∃ s, s ∈ segments ∧ r = DurationNS s).
Proof.
  revert m. induction segments as [|s segs IH]; intros m; simpl.
  { split_and!; [lia|intros s []%elem_of_nil|by left]. }
  set (m' := if m <? DurationNS s then _ else _).
  assert (Hm : m <= m' ∧ DurationNS s <= m' ∧ (m' = m ∨ m' = DurationNS s)).
  { unfold m'. destruct (m <? DurationNS s) eqn:E; reflect_bools; lia. }
  clearbody m'. destruct (IH m') as (H1&H2&H3). split_and!.
  - lia.
  - intros x [->|Hx]%elem_of_cons; [lia|by apply H2].
  - destruct H3 as [->|(x&Hx&->)]; [|right; exists x; split; [by right|done]].
    destruct Hm as (_&_&[->| ->]); [by left|]. right. exists s. split; [by left|done].
Qed.

(** Where starts increase below the end of the stream, the durations are positive. *)
Lemma segments_increase starts segments duration :
  StronglySorted Z.lt starts → Forall (λ t, 0 <= t < duration) starts →
  cs_StartNS <$> segments = starts → cs_EndNS <$> segments = tail starts ++ [duration] →
  Forall (λ s, 0 <= cs_StartNS s < cs_EndNS s ∧ cs_EndNS s <= duration) segments.
Proof.
  revert segments. induction starts as [|t starts IH]; intros segs Hs Hb Hst He; [by destruct segs|].
  destruct segs as [|s segs]; [done|]. simpl in Hst, He. injection Hst as Hst1 Hst.
  apply StronglySorted_inv in Hs as [Hs Hlt]. apply Forall_cons in Hb as [Ht Hb].
  destruct starts as [|u starts]; simpl in He.
  - injection He as He1 He. destruct segs; [|done]. repeat constructor; lia.
  - injection He as He1 He. apply Forall_cons in Hlt as [Htu _]. pose proof Hb as [Hu _]%Forall_cons.
    constructor; [lia|]. by apply IH.
Qed.

Section Timeline.
Context `{!SliceSort Z.ltb}.

(** Fewer than two times give no timeline; with two there is one. *)
Lemma build_timeline_spec times scale duration :
  Forall (λ t, 0 <= t < duration) times → in_u64 duration →
  match build_timeline times scale duration with
  | Some t => 2 <= len times ∧ timeline_ok times scale duration t
  | None => len times < 2
  end.
Proof.
  intros Hb Hdu. unfold build_timeline. destruct (len times <? 2) eqn:El; reflect_bools; [done|].
  pose proof (sort_slice_perm Z.ltb times) as Hperm. pose proof (sort_slice_sorted Z.ltb times) as Hsort.
  destruct (sort_slice Z.ltb times) as [|first rest] eqn:Es.
  { apply Permutation_nil_l in Hperm. subst. unfold len in El. simpl in El. lia. }
  assert (Hle : Sorted Z.le (first :: rest)).
  { clear -Hsort. induction Hsort as [|a l _ IH Hh]; constructor; [done|]. destruct Hh; constructor. by apply Z.ltb_ge. }
  pose proof (cut_spec rest first Hle) as Hcut. destruct (cut rest first) as [segs last].
  destruct Hcut as (H1&H2&(more&H3)&H4).
  assert (Hin : ∀ x, x ∈ (cs_StartNS <$> segs) ++ [last] ↔ x ∈ times) by (intros x; by rewrite H2, Hperm).
  assert (Hlast : last < duration).
  { rewrite Forall_forall in Hb. apply Hb, Hin, elem_of_app. right. by left. }
  rewrite (proj2 (Z.ltb_lt _ _)) by done. set (segs' := segs ++ [mkCueSegment last duration]).
  rewrite (proj2 (Z.eqb_neq (len segs') 0)) by (unfold segs'; rewrite len_app, len_cons; pose proof (len_nonneg segs); unfold len; simpl; lia).
  assert (Hst : cs_StartNS <$> segs' = (cs_StartNS <$> segs) ++ [last]) by (unfold segs'; by rewrite fmap_app).
  assert (Hen : cs_EndNS <$> segs' = tail (cs_StartNS <$> segs') ++ [duration]).
  { rewrite Hst, <- H4. unfold segs'. by rewrite fmap_app. }
  assert (Hall : Forall (λ t, 0 <= t < duration) (cs_StartNS <$> segs')).
  { rewrite Hst. apply Forall_forall. intros x Hx. rewrite Forall_forall in Hb. by apply Hb, Hin. }
  assert (Hinc : Forall (λ s, 0 <= cs_StartNS s < cs_EndNS s ∧ cs_EndNS s <= duration) segs').
  { eapply segments_increase; [|exact Hall|done|done]. by rewrite Hst. }
  assert (Hdur : ∀ s, s ∈ segs' → DurationNS s = cs_EndNS s - cs_StartNS s).
  { intros s Hs. rewrite Forall_forall in Hinc. apply Hinc in Hs. unfold DurationNS. apply u64_id.
    unfold in_u64 in *. lia. }
  destruct (max_duration_spec segs' 0) as (_&Hmax&Hatt). fold (max_duration segs') in Hmax, Hatt.
  split; [lia|]. constructor; simpl.
  - by rewrite Hst.
  - intros x. rewrite Hst. apply Hin.
  - done.
  - done.
  - intros s Hs. pose proof (Hmax s Hs). rewrite (Hdur s Hs) in *. rewrite Forall_forall in Hinc. specialize (Hinc s Hs). simpl in Hinc. lia.
  - destruct Hatt as [E|(s&Hs&E)]; [|exists s; by rewrite E, Hdur].
    exists (mkCueSegment last duration). assert (Hs : mkCueSegment last duration ∈ segs') by (apply elem_of_app; right; by left).
    split; [done|]. pose proof (Hmax _ Hs) as Hm. rewrite E, (Hdur _ Hs) in Hm. simpl in Hm. lia.
Qed.
End Timeline.

(** ** Reading over HTTP *)

Section Http.
Context (Do : nat → Z → Z → option http_response).
Context `{!SliceSort Z.ltb}.
Context (bodies : ∀ n from to resp, Do n from to = Some resp → bytes_ok (Body resp)).

Lemma readHTTPRange_wf n offset length data : in_i64 offset → in_i64 length →
  readHTTPRange Do n offset length = Some data → wf_data data ∧ len data = length ∧ 0 < length.
Proof.
  intros Ho Hl. unfold readHTTPRange. destruct (_ || _) eqn:E; [done|]. reflect_bools.
  destruct (Do n offset (offset + length - 1)) as [resp|] eqn:Er; [|done].
  repeat (case_match; [done|]). intros [= <-]. reflect_bools.
  assert (len (take (Z.to_nat length) (Body resp)) = length) as Hlen by (unfold len in *; rewrite length_take; lia).
  split_and!; [split|done|lia].
  - by eapply Forall_take, bodies.
  - rewrite Hlen. unfold in_i64 in *. lia.
Qed.

Lemma readMatroskaElement_wf n segmentOffset relative expected maxLength contentLength :
  in_i64 segmentOffset → 0 <= relative → in_i64 contentLength → 0 <= maxLength < 2 ^ 40 →
  ∃ data, readMatroskaElement Do n segmentOffset relative expected maxLength contentLength = Done data ∧ wf_data data.
Proof.
  intros Hs Hr Hc Hm. assert (Hnil : wf_data []) by (split; [constructor|done]). unfold readMatroskaElement.
  destruct (_ || _) eqn:E; [by exists []|]. reflect_bools. cbv zeta. unfold in_i64, maxInt64 in *.
  set (headerLength := if _ && _ then _ else _).
  destruct (headerLength <=? 0) eqn:Eh; [by exists []|]. reflect_bools.
  assert (Hh : headerLength <= 16) by (unfold headerLength; case_match; zlia).
  destruct (readHTTPRange Do n _ _) as [header|] eqn:E1; [|by exists []].
  apply readHTTPRange_wf in E1 as (Hw&_&_); [|unfold in_i64, two63 in *; lia..].
  destruct (readEBMLElement_wf header 0 Hw) as (r&->&Hr'). cbn [mbind outcome_bind].
  destruct r as [e|]; [|by exists []]. destruct (Hr' e eq_refl) as [He Heo].
  cbv zeta. repeat match goal with
  | |- ∃ _, (if ?b then _ else _) = _ ∧ _ => destruct b eqn:?; [by exists []|]
  end. reflect_bools. set (total := u64 _) in *. eexists. split; [reflexivity|].
  destruct (readHTTPRange Do (S n) _ total) as [data|] eqn:E5; [|done].
  apply readHTTPRange_wf in E5; [by destruct E5|unfold in_i64; lia|].
  pose proof (u64_range (dataOffset e - e_offset e + e_size e)) as Ht. fold total in Ht. unfold in_u64, in_i64, two63, two64 in *. lia.
Qed.

(** What is known of the file is made of machine integers. *)
Definition info_ok (s : prefix_info) : Prop :=
  map_Forall (λ _, in_u64) (positions s) ∧ in_u64 (scaleNS s) ∧ in_u64 (videoTrackNumber s).

Lemma parseMatroskaPrefix_returns data offset s : wf_data data → 0 <= offset → info_ok s →
  ∃ s', parseMatroskaPrefix data offset s = Done s' ∧ info_ok s'.
Proof.
  intros Hd Ho Hs. unfold parseMatroskaPrefix.
  apply (elements_spec (St := prefix_info) data id id _ info_ok info_ok); [done..| |done| | |done].
  - intros e i He (Hm&Ht&Hv). unfold prefix_element. destruct (_ =? seekHeadID).
    { destruct (parseSeekHead_returns data Hd e _ He Hm) as (p&->&Hp). cbn [mbind outcome_bind]. eexists. by split. }
    destruct (_ =? infoID).
    { destruct (parseTimestampScale_returns data Hd e _ He Ht) as (t&->&Ht'). cbn [mbind outcome_bind]. eexists. by split. }
    destruct (_ =? tracksID); [|eexists; by split].
    destruct (parseVideoTrackNumber_returns data Hd e He) as (n&->&Hn). cbn [mbind outcome_bind]. eexists. by split.
  - destruct Hd as [_ Hl]. pose proof (len_nonneg data). unfold in_i64, two63 in *. lia.
  - unfold walk_fuel, len. lia.
Qed.

(** [fetched] is the common part of the three places that read an element. *)
Ltac fetched Hm Hp :=
  match goal with
  | |- context [readMatroskaElement Do ?n ?o ?p ?id ?max ?c] =>
      let data := fresh "data" in let Hd := fresh "Hd" in
      destruct (readMatroskaElement_wf n o p id max c) as (data&->&Hd);
        [done|by apply (Hm _ _ Hp)|done|by vm_compute|]; cbn [mbind outcome_bind]
  end.

Lemma fetch_tracks_returns segmentOffset contentLength s :
  in_i64 segmentOffset → in_i64 contentLength → info_ok s →
  ∃ s', fetch_tracks Do segmentOffset contentLength s = Done s' ∧ info_ok s'.
Proof.
  intros Ho Hc Hs. pose proof Hs as (Hm&Ht&Hv). unfold fetch_tracks. destruct (_ =? 0); [|eexists; by split].
  destruct (positions s !! tracksID) as [p|] eqn:Hp; [|eexists; by split]. fetched Hm Hp.
  destruct (0 <? _); [|eexists; by split]. destruct (readEBMLElement_wf data 0 Hd) as (r&->&Hr). cbn [mbind outcome_bind].
  destruct r as [e|]; [|eexists; by split]. destruct (Hr e eq_refl) as [He _].
  destruct (parseVideoTrackNumber_returns data Hd e He) as (n&->&Hn). cbn [mbind outcome_bind]. eexists. by split.
Qed.

Lemma fetch_scale_returns segmentOffset contentLength s :
  in_i64 segmentOffset → in_i64 contentLength → info_ok s →
  ∃ s', fetch_scale Do segmentOffset contentLength s = Done s' ∧ info_ok s'.
Proof.
  intros Ho Hc Hs. pose proof Hs as (Hm&Ht&Hv). unfold fetch_scale.
  destruct (positions s !! infoID) as [p|] eqn:Hp; [|eexists; by split]. fetched Hm Hp.
  destruct (0 <? _); [|eexists; by split]. destruct (readEBMLElement_wf data 0 Hd) as (r&->&Hr). cbn [mbind outcome_bind].
  destruct r as [e|]; [|eexists; by split]. destruct (Hr e eq_refl) as [He _].
  destruct (parseTimestampScale_returns data Hd e _ He Ht) as (t&->&Ht'). cbn [mbind outcome_bind]. eexists. by split.
Qed.

(** A timeline of some times inside the stream. *)
Definition some_timeline (duration : Z) (r : option CueTimeline) : Prop :=
  ∀ t, r = Some t → ∃ times, 2 <= len times ∧ Forall (λ x, 0 <= x < duration) times ∧
    timeline_ok times (TimestampScaleNS t) duration t.

Lemma parseCueTimeline_returns data cues track scale duration :
  wf_data data → wf_element data cues → 0 < scale → in_u64 duration →
  ∃ r, parseCueTimeline data cues track scale duration = Done r ∧ some_timeline duration r.
Proof.
  intros Hd He Hs Hdu. unfold parseCueTimeline.
  destruct (cue_times_returns data Hd cues track scale duration He Hs Hdu) as (r&->&Hr). cbn [mbind outcome_bind].
  destruct r as [times|]; (eexists; split; [reflexivity|]); intros t Ht; [|done].
  pose proof (build_timeline_spec times scale duration (Hr _ eq_refl) Hdu) as Hb. rewrite Ht in Hb.
  destruct Hb as [Hl Hok]. exists times. split; [done|]. split; [by apply Hr|].
  pose proof (to_scale _ _ _ _ Hok) as E. by rewrite E.
Qed.

Lemma fetch_cues_returns segmentOffset contentLength duration s :
  in_i64 segmentOffset → in_i64 contentLength → 0 < duration → in_i64 duration → info_ok s →
  ∃ r, fetch_cues Do segmentOffset contentLength duration s = Done r ∧ some_timeline duration r.
Proof.
  intros Ho Hc Hdu Hdi (Hm&Ht&Hv). unfold fetch_cues.
  destruct (positions s !! cuesID) as [p|] eqn:Hp; [|eexists; by split].
  destruct (_ || _) eqn:E; [eexists; by split|]. reflect_bools. fetched Hm Hp.
  destruct (_ =? 0); [eexists; by split|]. destruct (readEBMLElement_wf data 0 Hd) as (r&->&Hr). cbn [mbind outcome_bind].
  destruct r as [e|]; [|eexists; by split]. destruct (Hr e eq_refl) as [He _].
  assert (Hu : in_u64 duration) by (unfold in_i64, in_u64, two63, two64 in *; lia). rewrite u64_id by done.
  apply parseCueTimeline_returns; [done|done|unfold in_u64 in *; lia|done].
Qed.

(** Whatever a server answers, reading the cue timeline neither panics nor hangs;
    and a timeline it returns cuts the stream from its first cue to its end: segments
    start at distinct increasing times inside the stream, each ends where the next one
    starts and the last at the end, none is empty and the longest duration is
    reported. *)
Theorem readMatroskaCueTimeline_safe (sourceURL : list Z) (contentLength durationNS : Z) :
  in_i64 contentLength → in_i64 durationNS →
  ∃ r, readMatroskaCueTimeline Do sourceURL contentLength durationNS = Done r ∧ some_timeline durationNS r.
Proof.
  intros Hc Hdi. unfold readMatroskaCueTimeline. destruct (_ || _) eqn:E; [by exists None|]. reflect_bools.
  set (n := if _ && _ then _ else _). assert (Hn : in_i64 n) by (unfold n; by destruct (_ && _)). clearbody n.
  destruct (readHTTPRange Do 0 0 n) as [prefix|] eqn:E1; [|by exists None].
  apply readHTTPRange_wf in E1 as (Hd&_&_); [|done|done]. unfold findMatroskaSegment.
  destruct (readEBMLElement_wf prefix 0 Hd) as (r&->&Hr). cbn [mbind outcome_bind].
  destruct r as [e|]; cbn [mbind outcome_bind]; [|by exists None].
  destruct (_ || _); cbn [mbind outcome_bind]; [by exists None|].
  destruct (readEBMLElement_wf prefix (i64 (endOffset e)) Hd) as (r&->&Hr'). cbn [mbind outcome_bind].
  destruct r as [seg|]; cbn [mbind outcome_bind]; [|by exists None].
  destruct (_ =? matroskaSegmentID); cbn [mbind outcome_bind]; [|by exists None].
  destruct (Hr' seg eq_refl) as [[] _]. destruct Hd as [Hb Hl].
  assert (Hs : in_i64 (dataOffset seg)) by (unfold in_i64, two63 in *; lia).
  destruct (parseMatroskaPrefix_returns prefix (dataOffset seg) (mkInfo ∅ defaultTimestampScaleNS 0)) as (s1&->&H1);
    [by split|lia|by split_and!; [apply map_Forall_empty|..]|]. cbn [mbind outcome_bind].
  destruct (fetch_tracks_returns (dataOffset seg) contentLength s1 Hs Hc H1) as (s2&->&H2). cbn [mbind outcome_bind].
  destruct (fetch_scale_returns (dataOffset seg) contentLength s2 Hs Hc H2) as (s3&->&H3). cbn [mbind outcome_bind].
  by apply fetch_cues_returns.
Qed.
End Http.
