(* ===== verification/MatroskaIndex.v ===== *)
(** * Printed Matroska elements are read back

    A printer for EBML elements, numbers and cue indexes, which is the specification
    the parsers of [Matroska] are compared with: sizes and numbers may be printed in
    any width the format allows. *)

From S2P Require Import Prelude GoText Encoding Matroska MatroskaRead MatroskaProps.
#[local] Open Scope Z_scope.

(** ** Printing *)

(** A size in [w] bytes: the marker bit, then 7 bits per byte. *)
Definition size_field (w : nat) (n : Z) : list Z := be_bytes w (2 ^ (7 * Z.of_nat w) + n).

Definition ebml (w : nat) (id payload : list Z) : list Z := id ++ size_field w (len payload) ++ payload.

(** An identifier: its first byte says how long it is. *)
Definition id_ok (id : list Z) : bool :=
  bytes_okb id &&
  match id with
  | [] => false
  | b :: _ => match ebmlVintLength b 4 with Done (l, ok) => ok && (l =? len id) | _ => false end
  end.

(** A cue and the widths of its numbers. *)
Record cue := mkCue { c_time : Z; c_track : Z; c_cluster : Z; w_time : nat; w_track : nat; w_cluster : nat }.

Definition number_ok (w : nat) (z : Z) : Prop := (1 <= w <= 8)%nat ∧ 0 <= z < 256 ^ Z.of_nat w.

Definition cue_ok (c : cue) : Prop :=
  number_ok (w_time c) (c_time c) ∧ number_ok (w_track c) (c_track c) ∧ number_ok (w_cluster c) (c_cluster c).

Definition print_position (w : nat) (c : cue) : list Z :=
  ebml w [0xF7] (be_bytes (w_track c) (c_track c)) ++ ebml w [0xF1] (be_bytes (w_cluster c) (c_cluster c)).

Definition print_point (w : nat) (c : cue) : list Z :=
  ebml w [0xB3] (be_bytes (w_time c) (c_time c)) ++ ebml w [0xB7] (print_position w c).

Definition print_points (w : nat) (cs : list cue) : list Z := concat ((λ c, ebml w [0xBB] (print_point w c)) <$> cs).

Definition print_cues (w : nat) (cs : list cue) : list Z := ebml w [0x1C; 0x53; 0xBB; 0x6B] (print_points w cs).

(** The times the timeline is made of. *)
Definition video_times (track scale duration : Z) (cs : list cue) : list Z :=
  (λ c, c_time c * scale) <$> filter (λ c, c_track c = track ∧ c_time c * scale < duration) cs.

(** ** Sizes *)

(** The size comes back from its bytes. *)
Lemma size_field_spec w n : (1 <= w <= 8)%nat → 0 <= n < 2 ^ (7 * Z.of_nat w) →
  ∃ b rest, size_field w n = b :: rest ∧ is_byte b ∧ bytes_ok rest ∧ length rest = (w - 1)%nat ∧
    ebmlVintLength b 8 = Done (Z.of_nat w, true) ∧
    b mod 2 ^ (8 - Z.of_nat w) * 256 ^ (Z.of_nat w - 1) + be rest = n.
Proof.
  intros Hw Hn. destruct w as [|w]; [lia|]. unfold size_field. cbn [be_bytes].
  set (z := 2 ^ (7 * Z.of_nat (S w)) + n). eexists _, _. split; [reflexivity|].
  assert (Hp : 0 < 256 ^ Z.of_nat w) by (apply Z.pow_pos_nonneg; lia).
  assert (Hk : 2 ^ (7 * Z.of_nat (S w)) = 2 ^ (8 - Z.of_nat (S w)) * 256 ^ Z.of_nat w).
  { change 256 with (2 ^ 8). rewrite <- Z.pow_mul_r, <- Z.pow_add_r by lia. f_equal. lia. }
  set (m := 2 ^ (8 - Z.of_nat (S w))) in *. assert (Hm : 0 < m) by (apply Z.pow_pos_nonneg; lia).
  assert (Hm2 : 2 * m <= 256).
  { unfold m. change 256 with (2 * 2 ^ 7). apply Z.mul_le_mono_nonneg_l; [lia|]. apply Z.pow_le_mono_r; lia. }
  set (q := n / 256 ^ Z.of_nat w). assert (Hq : 0 <= q < m).
  { unfold q. split; [apply Z.div_pos; lia|]. apply Z.div_lt_upper_bound; lia. }
  assert (Hz : z / 256 ^ Z.of_nat w = m + q).
  { unfold z. rewrite Hk. by rewrite Z.div_add_l by lia. }
  rewrite Hz, Z.mod_small by lia. rewrite be_bytes_length, be_be_bytes. split_and!.
  - unfold is_byte. lia.
  - apply be_bytes_ok.
  - lia.
  - destruct (ebmlVintLength_spec (m + q) 8) as [-> _]; [unfold is_byte; lia|by right|].
    rewrite (proj2 (Z.eqb_neq (m + q) 0)) by lia.
    assert (Z.log2 (m + q) = 8 - Z.of_nat (S w)) as ->.
    { apply Z.log2_unique; [lia|]. rewrite Z.pow_succ_r by lia. fold m. lia. }
    replace (Z.min (8 + 1) (8 - (8 - Z.of_nat (S w)))) with (Z.of_nat (S w)) by lia.
    by rewrite (proj2 (Z.leb_le _ 8)) by lia.
  - replace (Z.of_nat (S w) - 1) with (Z.of_nat w) by lia.
    rewrite Z.add_comm, Z.mul_comm. rewrite <- (Z.mul_1_l m) at 1. rewrite Z.add_comm, (Z.add_comm (1 * m)), Z.mod_add, Z.mod_small by lia.
    assert (Ez : z mod 256 ^ Z.of_nat w = n mod 256 ^ Z.of_nat w).
    { unfold z. rewrite Hk, Z.add_comm. by rewrite Z.mod_add by lia. }
    rewrite Ez. unfold q. rewrite (Z.div_mod n (256 ^ Z.of_nat w)) at 3 by lia. lia.
Qed.

(** ** Printed elements inside data *)

Lemma at_shift_in data off enc n v :
  bytes_ok data → at_ data off enc → n = length enc → 0 <= v → (v + 1) * 256 ^ Z.of_nat n <= two64 →
  shift_in n data off v = Done (v * 256 ^ Z.of_nat n + be enc).
Proof.
  intros Hb Ha -> Hv Hbd. pose proof (at_bounds _ _ _ Ha). unfold len in *.
  rewrite shift_in_spec; [by erewrite at_take|done|lia|unfold len; lia|done|done].
Qed.

Lemma ebml_len w id payload : len (ebml w id payload) = len id + Z.of_nat w + len payload.
Proof. unfold ebml, size_field. rewrite !len_app. unfold len. rewrite be_bytes_length. lia. Qed.

(** What fits a size field of [w] bytes; the largest value stands for an unknown size. *)
Definition fits (w : nat) (n : Z) : Prop := (1 <= w <= 8)%nat ∧ 0 <= n < 2 ^ (7 * Z.of_nat w) - 1.

Definition element_at (off : Z) (w : nat) (id payload : list Z) : ebmlElement :=
  mkElement (be id) off (off + len id + Z.of_nat w) (len payload) false.

Lemma readEBMLElement_printed data off w id payload :
  wf_data data → at_ data off (ebml w id payload) → id_ok id = true → fits w (len payload) →
  readEBMLElement data off = Done (Some (element_at off w id payload)).
Proof.
  intros [Hb Hl] Ha Hid [Hw Hfit]. pose proof (at_bounds _ _ _ Ha) as Hbd. rewrite ebml_len in Hbd.
  apply at_app in Ha as [Hid' Ha]. apply at_app in Ha as [Hsz _].
  unfold id_ok in Hid. apply andb_true_iff in Hid as [_ Hid]. destruct id as [|b0 id0] eqn:Eid; [done|].
  rewrite <- Eid in *. destruct (ebmlVintLength b0 4) as [[n1 ok]| |] eqn:Ev; [|done..].
  apply andb_true_iff in Hid as [-> Hn1%Z.eqb_eq].
  assert (Hlid : 1 <= len id) by (rewrite Eid, len_cons; pose proof (len_nonneg id0); lia).
  assert (Hn1' : n1 <= 4).
  { unfold ebmlVintLength in Ev. destruct (vint_loop _ _ _ _ _); [|done..]. cbn in Ev. injection Ev as <- Hok. lia. }
  destruct (size_field_spec w (len payload)) as (b&rest&Es&Hbb&Hrest&Hrl&Hv&Hval); [done|lia|].
  pose proof (len_nonneg payload). unfold readEBMLElement.
  rewrite (proj2 (Z.ltb_ge off 0)), (proj2 (Z.leb_gt (len data) off)) by lia. cbn [orb].
  rewrite Eid in Hid'. rewrite (at_idx _ _ _ _ Hid'). cbn [mbind outcome_bind of_option]. rewrite Ev. cbn [mbind outcome_bind].
  rewrite (proj2 (Z.ltb_ge _ (n1 + 1))) by lia. cbn [negb orb]. rewrite <- Eid in Hid'.
  rewrite (at_shift_in data off id) with (v := 0); [|done|done|unfold len in *; lia|lia|].
  2: { rewrite Z.mul_1_l. change two64 with (256 ^ 8). apply Z.pow_le_mono_r; lia. }
  cbn [mbind outcome_bind]. rewrite Es in Hsz. subst n1. rewrite (at_idx _ _ _ _ Hsz). cbn [mbind outcome_bind of_option].
  rewrite Hv. cbn [mbind outcome_bind]. rewrite (proj2 (Z.ltb_ge _ (Z.of_nat w))) by lia. cbn [negb orb].
  rewrite size_bits_spec by (done || lia). apply (at_app _ _ [b]) in Hsz as [_ Hsz].
  change (len [b]) with 1 in Hsz. pose proof (Z.mod_pos_bound b (2 ^ (8 - Z.of_nat w))) as Hm.
  assert (Hp : 0 < 2 ^ (8 - Z.of_nat w)) by (apply Z.pow_pos_nonneg; lia). specialize (Hm Hp).
  assert (Hpow : 2 ^ (8 - Z.of_nat w) * 256 ^ (Z.of_nat w - 1) = 2 ^ (7 * Z.of_nat w)).
  { change 256 with (2 ^ 8). rewrite <- Z.pow_mul_r, <- Z.pow_add_r by lia. f_equal. lia. }
  assert (H56 : 2 ^ (7 * Z.of_nat w) <= 2 ^ 56) by (apply Z.pow_le_mono_r; lia).
  assert (Hp' : 0 < 256 ^ (Z.of_nat w - 1)) by (apply Z.pow_pos_nonneg; lia).
  rewrite (at_shift_in data _ rest); [|done|done|lia|lia|].
  2: { rewrite Z2Nat.id by lia. change (2 ^ 56) with 72057594037927936 in H56. unfold two64. nia. }
  cbn [mbind outcome_bind]. rewrite ?Z2Nat.id by lia. rewrite Hval. unfold element_at. do 3 f_equal.
  apply Z.eqb_neq. destruct (Z.of_nat w * 7 =? 56) eqn:E56; reflect_bools.
  - assert (Hw8 : Z.of_nat w = 8) by lia. rewrite Hw8 in *. change (2 ^ (7 * 8)) with 0x100000000000000 in *. lia.
  - assert (Hlt : 2 ^ (7 * Z.of_nat w) <= 2 ^ 49) by (apply Z.pow_le_mono_r; lia).
    change (2 ^ 49) with 562949953421312 in Hlt. rewrite Z.shiftl_mul_pow2, Z.mul_1_l by lia.
    rewrite (Z.mul_comm _ 7). rewrite !u64_id; unfold in_u64, two64; rewrite ?u64_id; unfold in_u64, two64; lia.
Qed.

Lemma element_at_wf data off w id payload :
  at_ data off (ebml w id payload) → id_ok id = true → fits w (len payload) →
  wf_element data (element_at off w id payload).
Proof.
  intros Ha Hid [Hw Hf]. apply at_bounds in Ha. rewrite ebml_len in Ha. pose proof (len_nonneg payload).
  assert (1 <= len id).
  { unfold id_ok in Hid. destruct id; [by rewrite andb_false_r in Hid|]. rewrite len_cons. pose proof (len_nonneg id). lia. }
  assert (2 ^ (7 * Z.of_nat w) <= 2 ^ 56) by (apply Z.pow_le_mono_r; lia).
  constructor; simpl; lia.
Qed.

Lemma element_at_payload data off w id payload :
  at_ data off (ebml w id payload) → at_ data (dataOffset (element_at off w id payload)) payload.
Proof.
  unfold ebml, element_at. simpl. intros Ha. apply at_app in Ha as [_ Ha]. apply at_app in Ha as [_ Ha].
  unfold size_field, len at 2 in Ha. rewrite be_bytes_length in Ha. done.
Qed.

Lemma element_at_end data off w id payload :
  wf_data data → at_ data off (ebml w id payload) → id_ok id = true → fits w (len payload) →
  endOffset (element_at off w id payload) = off + len (ebml w id payload).
Proof.
  intros Hd Ha Hid Hf. rewrite (endOffset_id data) by (done || by apply element_at_wf). simpl. rewrite ebml_len. lia.
Qed.

Lemma readEBMLUnsigned_printed data off w id n z :
  wf_data data → at_ data off (ebml w id (be_bytes n z)) → id_ok id = true → fits w (Z.of_nat n) → number_ok n z →
  readEBMLUnsigned data (element_at off w id (be_bytes n z)) = Done (z, true).
Proof.
  intros Hd Ha Hid Hf [Hn Hz]. assert (Hlen : len (be_bytes n z) = Z.of_nat n) by (unfold len; by rewrite be_bytes_length).
  assert (Hend := element_at_end data off w id (be_bytes n z) Hd Ha Hid). rewrite Hlen in Hend. specialize (Hend Hf).
  pose proof (at_bounds _ _ _ Ha) as Hbd. pose proof (len_nonneg id). pose proof (element_at_payload _ _ _ _ _ Ha) as Hp. destruct Hd as [Hb Hl].
  unfold readEBMLUnsigned. rewrite Hend. simpl in *. rewrite ebml_len, Hlen in *.
  rewrite (proj2 (Z.eqb_neq _ 0)), (proj2 (Z.ltb_ge 8 _)), (proj2 (Z.ltb_ge (len data) _)) by lia. cbn [orb].
  rewrite i64_id by (unfold in_i64, two63 in *; lia).
  rewrite (at_shift_in data _ (be_bytes n z)); [|done|done|rewrite be_bytes_length; lia|lia|].
  - cbn [mbind outcome_bind]. rewrite be_be_bytes, Z.mod_small by lia. do 2 f_equal.
  - rewrite Z.mul_1_l. change two64 with (256 ^ 8). apply Z.pow_le_mono_r; lia.
Qed.

(** ** Walking over printed elements *)

Section Walk.
Context {St R : Type} (data : list Z) (Hd : wf_data data) (broken whole : St → R).
Context (body : ebmlElement → St → outcome (St + R)).

Lemma elements_done fuel off s : (0 < fuel)%nat → elements data broken whole body fuel off off s = Done (whole s).
Proof. intros Hf. destruct fuel; [lia|]. simpl. by rewrite Z.ltb_irrefl. Qed.

Lemma elements_step fuel off limit s w id payload s' :
  at_ data off (ebml w id payload) → id_ok id = true → fits w (len payload) →
  off + len (ebml w id payload) <= limit → limit <= len data →
  body (element_at off w id payload) s = Done (inl s') →
  elements data broken whole body (S fuel) off limit s =
  elements data broken whole body fuel (off + len (ebml w id payload)) limit s'.
Proof.
  intros Ha Hid Hf Hl Hlim Hbody. pose proof (at_bounds _ _ _ Ha) as Hbd. pose proof (len_nonneg payload).
  pose proof (element_at_wf _ _ _ _ _ Ha Hid Hf) as []. simpl in *. rewrite ebml_len in *.
  rewrite (proj2 (Z.ltb_lt off limit)) by lia. rewrite (readEBMLElement_printed data off w id payload) by done.
  cbn [mbind outcome_bind]. rewrite (element_at_end data) by done. rewrite ebml_len. simpl unknownSize. cbn [orb].
  destruct Hd as [_ Hdl]. rewrite u64_id by (unfold in_u64, two63, two64 in *; lia).
  rewrite (proj2 (Z.ltb_ge limit _)) by lia. rewrite Hbody. cbn [mbind outcome_bind].
  by rewrite i64_id by (unfold in_i64, two63 in *; lia).
Qed.

(** The children of a printed element are what its payload holds. *)
Lemma children_printed off w id payload s :
  at_ data off (ebml w id payload) → id_ok id = true → fits w (len payload) →
  let from := off + len id + Z.of_nat w in
  children data (element_at off w id payload) broken whole body s =
    elements data broken whole body (walk_fuel data) from (from + len payload) s ∧
  at_ data from payload ∧ from + len payload <= len data.
Proof.
  intros Ha Hid Hf from. pose proof (at_bounds _ _ _ Ha) as Hbd. pose proof (element_at_payload _ _ _ _ _ Ha) as Hp.
  pose proof (element_at_wf _ _ _ _ _ Ha Hid Hf) as []. simpl in *. unfold children.
  rewrite (element_at_end data) by done. rewrite ebml_len in *. destruct Hd as [_ Hl]. pose proof (len_nonneg payload). pose proof (len_nonneg id).
  rewrite i64_id by (unfold in_i64, two63 in *; lia). unfold from. split_and!; [|done|lia].
  cbn [dataOffset element_at]. by rewrite !Z.add_assoc.
Qed.
End Walk.

Lemma walk_fuel_2 data off enc : at_ data off enc → 2 <= len enc → ∃ k, walk_fuel data = S (S (S k)).
Proof.
  intros Ha Hl. apply at_bounds in Ha. unfold walk_fuel. destruct (length data) as [|[|n]] eqn:E; unfold len in *; [lia..|].
  by exists n.
Qed.

(** ** Cues *)

Section Cues.
Context (data : list Z) (Hd : wf_data data) (w : nat) (Hw : (1 <= w <= 8)%nat).

Lemma fits_le n m : fits w n → 0 <= m <= n → fits w m.
Proof. unfold fits. lia. Qed.

(** Two elements in a row are two steps. *)
Lemma elements_two {St R : Type} (broken whole : St → R) body off id1 p1 id2 p2 s1 s2 s3 :
  at_ data off (ebml w id1 p1 ++ ebml w id2 p2) →
  id_ok id1 = true → id_ok id2 = true → fits w (len (ebml w id1 p1 ++ ebml w id2 p2)) →
  body (element_at off w id1 p1) s1 = Done (inl s2) →
  body (element_at (off + len (ebml w id1 p1)) w id2 p2) s2 = Done (inl s3) →
  elements data broken whole body (walk_fuel data) off (off + len (ebml w id1 p1 ++ ebml w id2 p2)) s1 = Done (whole s3).
Proof.
  intros Ha Hi1 Hi2 Hf Hb1 Hb2. pose proof Ha as Hab. pose proof (at_bounds _ _ _ Ha) as Hbd. apply at_app in Ha as [H1 H2].
  rewrite len_app in *. pose proof (ebml_len w id1 p1) as L1. pose proof (ebml_len w id2 p2) as L2.
  pose proof (len_nonneg p1). pose proof (len_nonneg p2). pose proof (len_nonneg id1). pose proof (len_nonneg id2).
  destruct (walk_fuel_2 data _ _ Hab) as [k ->]; [rewrite len_app; lia|].
  rewrite (elements_step data Hd broken whole body _ off _ s1 w id1 p1 s2); [|done|done|eapply fits_le; [exact Hf|lia]|lia|lia|done].
  rewrite (elements_step data Hd broken whole body _ _ _ s2 w id2 p2 s3); [|done|done|eapply fits_le; [exact Hf|lia]|lia|lia|done].
  rewrite <- Z.add_assoc. apply elements_done. lia.
Qed.

Lemma hasVideoCuePosition_printed off c track :
  cue_ok c → at_ data off (ebml w [0xB7] (print_position w c)) → fits w (len (print_position w c)) →
  hasVideoCuePosition data (element_at off w [0xB7] (print_position w c)) track = Done (c_track c =? track).
Proof.
  intros (_&Ht&Hc) Ha Hf. unfold hasVideoCuePosition.
  destruct (children_printed data Hd (λ _, false) (λ '(t, h), (t =? track) && h) (cue_position data) off w [0xB7] (print_position w c) (0, false) Ha eq_refl Hf)
    as (->&Hp&_).
  set (from := off + len [0xB7] + Z.of_nat w) in *. clearbody from. unfold print_position in Hp, Hf.
  pose proof Hp as [H1 H2]%at_app. pose proof Hf as Hf'. rewrite len_app, !ebml_len in Hf'.
  assert (L1 : len (be_bytes (w_track c) (c_track c)) = Z.of_nat (w_track c)) by (unfold len; by rewrite be_bytes_length).
  assert (L2 : len (be_bytes (w_cluster c) (c_cluster c)) = Z.of_nat (w_cluster c)) by (unfold len; by rewrite be_bytes_length).
  rewrite L1, L2 in Hf'. change (len [0xF7]) with 1 in Hf'. change (len [0xF1]) with 1 in Hf'. unfold print_position.
  erewrite (elements_two _ _ (cue_position data) from _ _ _ _ (0, false) (c_track c, false) (c_track c, true)).
  - by rewrite andb_true_r.
  - exact Hp.
  - done.
  - done.
  - exact Hf.
  - unfold cue_position. change (e_id _ =? cueTrackID) with true. cbv iota.
    rewrite readEBMLUnsigned_printed; [done|done|done|done|eapply fits_le; [exact Hf'|lia]|done].
  - unfold cue_position. change (e_id _ =? cueTrackID) with false. change (e_id _ =? cueClusterPositionID) with true. cbv iota.
    rewrite readEBMLUnsigned_printed; [done|done|done|done|eapply fits_le; [exact Hf'|lia]|done].
Qed.

Lemma readVideoCueTime_printed off c track :
  cue_ok c → at_ data off (ebml w [0xBB] (print_point w c)) → fits w (len (print_point w c)) →
  readVideoCueTime data (element_at off w [0xBB] (print_point w c)) track = Done (c_time c, c_track c =? track).
Proof.
  intros Hok Ha Hf. pose proof Hok as (Ht&_&_). unfold readVideoCueTime.
  destruct (children_printed data Hd (λ _, (0, false)) (λ '(t, h, p), (t, h && p)) (cue_child data track)
    off w [0xBB] (print_point w c) (0, false, false) Ha eq_refl Hf) as (->&Hp&_).
  set (from := off + len [0xBB] + Z.of_nat w) in *. clearbody from. unfold print_point in Hp, Hf.
  pose proof Hp as [H1 H2]%at_app. pose proof Hf as Hf'. rewrite len_app, !ebml_len in Hf'.
  assert (L1 : len (be_bytes (w_time c) (c_time c)) = Z.of_nat (w_time c)) by (unfold len; by rewrite be_bytes_length).
  pose proof (len_nonneg (print_position w c)). rewrite L1 in Hf'. change (len [0xB3]) with 1 in Hf'. change (len [0xB7]) with 1 in Hf'.
  unfold print_point.
  erewrite (elements_two _ _ (cue_child data track) from _ _ _ _ (0, false, false) (c_time c, true, false) (c_time c, true, c_track c =? track)).
  - done.
  - exact Hp.
  - done.
  - done.
  - exact Hf.
  - unfold cue_child. change (e_id _ =? cueTimeID) with true. cbv iota.
    rewrite readEBMLUnsigned_printed; [done|done|done|done|eapply fits_le; [exact Hf'|lia]|done].
  - unfold cue_child. change (e_id _ =? cueTimeID) with false. change (e_id _ =? cueTrackPositionsID) with true. cbv iota.
    rewrite hasVideoCuePosition_printed; [|done|done|eapply fits_le; [exact Hf'|lia]]. cbn [mbind outcome_bind].
    by destruct (c_track c =? track).
Qed.

Lemma video_times_cons track scale duration c cs :
  video_times track scale duration (c :: cs) =
  (if bool_decide (c_track c = track ∧ c_time c * scale < duration) then [c_time c * scale] else []) ++ video_times track scale duration cs.
Proof. unfold video_times. rewrite filter_cons. case_decide; [by rewrite bool_decide_true|by rewrite bool_decide_false]. Qed.

Lemma cue_point_printed off c track scale duration times :
  cue_ok c → at_ data off (ebml w [0xBB] (print_point w c)) → fits w (len (print_point w c)) →
  0 < scale → in_u64 duration → len times < maxMatroskaCuePoints →
  cue_point data track scale duration (element_at off w [0xBB] (print_point w c)) times =
  Done (inl (times ++ if bool_decide (c_track c = track ∧ c_time c * scale < duration) then [c_time c * scale] else [])).
Proof.
  intros Hok Ha Hf Hs Hdu Hl. pose proof Hok as ([_ Ht]&_). unfold cue_point. change (e_id _ =? cuePointID) with true. cbv iota.
  rewrite readVideoCueTime_printed by done. cbn [mbind outcome_bind]. rewrite (proj2 (Z.eqb_neq scale 0)) by lia.
  destruct (c_track c =? track) eqn:Et; reflect_bools; [|rewrite bool_decide_false by naive_solver; by rewrite app_nil_r].
  assert (Hdiv : c_time c <= (two64 - 1) / scale ↔ c_time c * scale < two64).
  { split; intros Hle.
    - pose proof (Z.mul_div_le (two64 - 1) scale Hs). nia.
    - apply Z.div_le_lower_bound; lia. }
  destruct (c_time c <=? _) eqn:Ed; reflect_bools.
  - rewrite u64_id by (unfold in_u64; nia). destruct (c_time c * scale <? duration) eqn:Eu; reflect_bools.
    + rewrite bool_decide_true by done. rewrite len_app. change (len [c_time c * scale]) with 1.
      by rewrite (proj2 (Z.ltb_ge _ _)) by lia.
    + rewrite bool_decide_false by lia. by rewrite app_nil_r.
  - rewrite bool_decide_false by (unfold in_u64 in *; lia). by rewrite app_nil_r.
Qed.

Lemma print_points_cons c cs : print_points w (c :: cs) = ebml w [0xBB] (print_point w c) ++ print_points w cs.
Proof. done. Qed.

Lemma cue_points_printed track scale duration cs :
  0 < scale → in_u64 duration → Forall cue_ok cs →
  ∀ fuel off times, at_ data off (print_points w cs) → fits w (len (print_points w cs)) →
    (length cs < fuel)%nat → len times + len cs <= maxMatroskaCuePoints →
    elements data (λ _, None) Some (cue_point data track scale duration) fuel off (off + len (print_points w cs)) times =
    Done (Some (times ++ video_times track scale duration cs)).
Proof.
  intros Hs Hdu. induction 1 as [|c cs Hc _ IH]; intros fuel off times Ha Hf Hfu Hl.
  { change (len (print_points w [])) with 0. rewrite Z.add_0_r. rewrite elements_done by (simpl in Hfu; lia). by rewrite app_nil_r. }
  rewrite print_points_cons in *. rewrite len_app, len_cons in *. pose proof Ha as [H1 H2]%at_app.
  pose proof (at_bounds _ _ _ Ha) as Hbd. rewrite len_app in Hbd.
  pose proof (len_nonneg (print_points w cs)). pose proof (len_nonneg cs). pose proof (len_nonneg (print_point w c)).
  pose proof (ebml_len w [0xBB] (print_point w c)) as El. change (len [0xBB]) with 1 in El.
  assert (Hfp : fits w (len (print_point w c))) by (eapply fits_le; [exact Hf|lia]).
  destruct fuel as [|fuel]; [simpl in Hfu; lia|].
  erewrite (elements_step data Hd _ _ _ _ off _ times w [0xBB] (print_point w c)); [|done|done|done|lia|lia|].
  2: { apply cue_point_printed; [done|done|done|done|done|lia]. }
  replace (off + (len (ebml w [0xBB] (print_point w c)) + len (print_points w cs)))
    with (off + len (ebml w [0xBB] (print_point w c)) + len (print_points w cs)) by lia.
  rewrite IH; [|done|eapply fits_le; [exact Hf|lia]|simpl in Hfu; lia|].
  - by rewrite video_times_cons, <- app_assoc.
  - rewrite len_app. case_bool_decide; unfold len in *; simpl; lia.
Qed.

Lemma print_points_length cs : Z.of_nat (length cs) <= len (print_points w cs).
Proof.
  induction cs as [|c cs IH]; [done|]. rewrite print_points_cons, len_app, ebml_len.
  pose proof (len_nonneg (print_point w c)). change (len [0xBB]) with 1. simpl length. lia.
Qed.

Context `{!SliceSort Z.ltb}.

(** C37: an index printed in any of the widths the format allows, with at most a
    million points, is read as what it says: the timeline has a segment for every cue
    time of the video track that lies before the end of the stream, in order and
    without duplicates; there is none when fewer than two cues are left. *)
Theorem cue_index_roundtrip (cs : list cue) (off track scale duration : Z) :
  Forall cue_ok cs → len cs <= maxMatroskaCuePoints → fits w (len (print_points w cs)) →
  at_ data off (print_cues w cs) → 0 < scale → in_u64 duration →
  ∃ e r, readEBMLElement data off = Done (Some e) ∧ e_id e = cuesID ∧
    parseCueTimeline data e track scale duration = Done r ∧
    match r with
    | Some t => timeline_ok (video_times track scale duration cs) scale duration t
    | None => len (video_times track scale duration cs) < 2
    end.
Proof.
  intros Hok Hn Hf Ha Hs Hdu. unfold print_cues in Ha. set (cuesIDb := [0x1C; 0x53; 0xBB; 0x6B]) in *.
  exists (element_at off w cuesIDb (print_points w cs)), (build_timeline (video_times track scale duration cs) scale duration).
  split_and!; [by apply readEBMLElement_printed|done| |].
  - unfold parseCueTimeline, cue_times.
    destruct (children_printed data Hd (λ _, None) Some (cue_point data track scale duration) off w cuesIDb (print_points w cs) [] Ha eq_refl Hf)
      as (->&Hp&Hbd).
    rewrite cue_points_printed; [done|done|done|done|done|done| |done].
    pose proof (print_points_length cs). pose proof (at_bounds _ _ _ Hp). unfold walk_fuel, len in *. lia.
  - assert (Hb : Forall (λ t, 0 <= t < duration) (video_times track scale duration cs)).
    { unfold video_times. apply Forall_fmap, Forall_forall. intros c [[_ Hlt] Hin]%list_elem_of_filter.
      rewrite Forall_forall in Hok. destruct (Hok c Hin) as ([_ Ht]&_). simpl. nia. }
    pose proof (build_timeline_spec _ scale duration Hb Hdu) as Hbt.
    destruct (build_timeline _ _ _) as [t|]; [by destruct Hbt|done].
Qed.
End Cues.

(** ** A file on a server *)

Definition sort_times : SliceSort Z.ltb := insertion_slice_sort Z.ltb (λ a b H, proj2 (Z.ltb_ge b a) (Z.lt_le_incl a b (proj1 (Z.ltb_lt a b) H))).

(** Three cues of the video track 1, out of order and one of them twice, and one of
    another track. *)
Definition demo_cues : list cue :=
  [mkCue 0 1 9 1 1 2; mkCue 4000 1 77 2 1 2; mkCue 1000 2 50 2 1 2; mkCue 2000 1 60 3 1 4; mkCue 2000 1 60 3 1 4].

Definition demo_head : list Z :=
  ebml 1 [0x15; 0x49; 0xA9; 0x66] (ebml 1 [0x2A; 0xD7; 0xB1] (be_bytes 3 1000000)) ++
  ebml 1 [0x16; 0x54; 0xAE; 0x6B] (ebml 1 [0xAE] (ebml 1 [0xD7] [1] ++ ebml 1 [0x83] [1])).

Definition demo_seek (position : Z) : list Z :=
  ebml 1 [0x11; 0x4D; 0x9B; 0x74]
    (ebml 1 [0x4D; 0xBB] (ebml 1 [0x53; 0xAB] [0x1C; 0x53; 0xBB; 0x6B] ++ ebml 1 [0x53; 0xAC] (be_bytes 2 position))).

Definition demo_file : list Z :=
  ebml 1 [0x1A; 0x45; 0xDF; 0xA3] [0x42; 0x86; 0x81; 1] ++
  [0x18; 0x53; 0x80; 0x67; 1; 255; 255; 255; 255; 255; 255; 255] ++
  demo_seek (len (demo_seek 0) + len demo_head) ++ demo_head ++ print_cues 2 demo_cues.

Definition demo_server (_ : nat) (from to : Z) : option http_response :=
  body ← slice demo_file from (Z.min (to + 1) (len demo_file));
  Some (mkResponse 206 (str "bytes " ++ FormatInt from ++ str "-" ++ FormatInt to ++ str "/*") body).

Definition ms (n : Z) : Z := n * 1000000.

Definition demo_timeline : CueTimeline :=
  mkCueTimeline [mkCueSegment 0 (ms 2000); mkCueSegment (ms 2000) (ms 4000); mkCueSegment (ms 4000) (ms 9000)] 1000000 (ms 5000).

Lemma demo_run :
  readMatroskaCueTimeline (SliceSort0 := sort_times) demo_server (str "http://x/f.mkv") (len demo_file) (ms 9000) = Done (Some demo_timeline).
Proof. vm_compute. reflexivity. Qed.

Lemma readMatroskaCueTimeline_safe_witness :
  ∃ r, readMatroskaCueTimeline (SliceSort0 := sort_times) demo_server (str "http://x/f.mkv") (len demo_file) (ms 9000) = Done r ∧
    some_timeline (ms 9000) r.
Proof.
  apply (readMatroskaCueTimeline_safe (SliceSort0 := sort_times) demo_server).
  - intros n from to resp. unfold demo_server. destruct (slice demo_file _ _) as [body|] eqn:E; [|done].
    intros [= <-]. simpl. assert (Hb : bytes_okb demo_file = true) by (vm_compute; reflexivity). apply bytes_okb_spec in Hb.
    unfold slice in E. destruct (_ && _) in E; [|done]. injection E as <-. by apply Forall_take, Forall_drop.
  - vm_compute. split; congruence.
  - vm_compute. split; congruence.
Defined.

Lemma cue_index_roundtrip_witness :
  let data := print_cues 2 demo_cues in
  ∃ e r, readEBMLElement data 0 = Done (Some e) ∧ e_id e = cuesID ∧
    parseCueTimeline (SliceSort0 := sort_times) data e 1 1000000 (ms 9000) = Done r ∧
    match r with
    | Some t => timeline_ok (video_times 1 1000000 (ms 9000) demo_cues) 1000000 (ms 9000) t
    | None => len (video_times 1 1000000 (ms 9000) demo_cues) < 2
    end.
Proof.
  intros data. apply (cue_index_roundtrip data) with (w := 2%nat).
  - split; [|vm_compute; reflexivity]. apply bytes_okb_spec. vm_compute. reflexivity.
  - lia.
  - repeat constructor; simpl; lia.
  - vm_compute. congruence.
  - split; [lia|]. vm_compute. split; congruence.
  - exists [], []. split; [by rewrite app_nil_r|done].
  - lia.
  - vm_compute. split; congruence.
Defined.
