(* ===== verification/MP4Init.v ===== *)
(** * Stream headers ([server/gstreamer/mp4init.go])

    The header of a fragmented MP4 stream is a tree of boxes.  The playlist of the
    stream needs the codecs of the first video and audio track, the size of the picture
    and its range, which are read from it.  Every access to the data is checked
    ([Panic]) and every loop has fuel ([NoFuel]); [MP4Props] shows that neither
    happens, for data of any content. *)

From S2P Require Import Prelude GoText.
#[local] Open Scope Z_scope.

(** ** Formatting *)

Definition hex_upper (x : Z) : Z := if x <? 10 then 48 + x else 55 + x.
(** [%02X] of a byte *)
Definition fmt_02X (b : Z) : bytes := [hex_upper (b / 16); hex_upper (b mod 16)].
(** [%02d] of a number that is not negative *)
Definition fmt_02d (n : Z) : bytes := if n <? 10 then 48 :: FormatInt n else FormatInt n.

(** [strings.Contains] *)
Fixpoint Contains (s sub : bytes) : bool :=
  bool_decide (is_Some (strip_prefix sub s)) || match s with [] => false | _ :: s => Contains s sub end.

(** [bits.Reverse32] *)
Definition Reverse32 (x : Z) : Z :=
  foldl (λ acc i, acc + Z.b2z (Z.testbit x (Z.of_nat i)) * 2 ^ (31 - Z.of_nat i)) 0 (seq 0 32).

(** ** Boxes *)

Record initBox := mkBox { typ : bytes; payloadStart : Z; b_end : Z }.

(** The end of [readInitBox]: the box and the position behind it, if the size is sound. *)
Definition box_of (start end_ : Z) (t : bytes) (headerSize size : Z) : option (initBox * Z) :=
  if (size <? headerSize) || (u64 (end_ - start) <? size) || (two63 - 1 <? size) then None
  else let boxEnd := start + size in Some (mkBox t (start + headerSize) boxEnd, boxEnd).

Definition readInitBox (data : bytes) (cursor end_ : Z) : outcome (option (initBox * Z)) :=
  if (cursor <? 0) || (len data <? end_) || (end_ - 8 <? cursor) then Done None
  else
    let start := cursor in
    s ← of_option (slice data start (start + 4));
    t ← of_option (slice data (start + 4) (start + 8));
    let size32 := be s in
    if size32 =? 1 then
      if end_ - 16 <? start then Done None
      else s ← of_option (slice data (start + 8) (start + 16)); Done (box_of start end_ t 16 (be s))
    else if size32 =? 0 then Done (box_of start end_ t 8 (u64 (end_ - start)))
    else Done (box_of start end_ t 8 size32).

(** A box takes at least eight bytes. *)
Definition box_fuel (data : bytes) : nat := S (length data).

Fixpoint find_loop (fuel : nat) (data : bytes) (cursor end_ : Z) (t : bytes) : outcome (option initBox) :=
  match fuel with
  | O => NoFuel
  | S fuel =>
      r ← readInitBox data cursor end_;
      match r with
      | None => Done None
      | Some (box, next) => if bool_decide (typ box = t) then Done (Some box) else find_loop fuel data next end_ t
      end
  end.

Definition findInitChild (data : bytes) (start end_ : Z) (t : bytes) : outcome (option initBox) :=
  find_loop (box_fuel data) data start end_ t.

(** ** Codecs *)

(** The empty string stands for a codec that is not known. *)
Fixpoint last_constraint (fuel : nat) (data : bytes) (lastConstraint : Z) : outcome Z :=
  match fuel with
  | O => NoFuel
  | S fuel =>
      if 6 <=? lastConstraint then
        b ← of_option (idx data lastConstraint);
        if b =? 0 then last_constraint fuel data (lastConstraint - 1) else Done lastConstraint
      else Done lastConstraint
  end.

(** [n] turns of the loop that prints the constraint bytes. *)
Fixpoint print_constraints (n : nat) (data : bytes) (i : Z) (result : bytes) : outcome bytes :=
  match n with
  | O => Done result
  | S n => b ← of_option (idx data i); print_constraints n data (i + 1) (result ++ str "." ++ fmt_02X b)
  end.

Definition readHEVCCodec (sampleEntry data : bytes) : outcome bytes :=
  if len data <? 13 then Done []
  else
    profileByte ← of_option (idx data 1);
    profileSpace ← of_option (idx [[]; str "A"; str "B"; str "C"] (Z.shiftr profileByte 6));
    let profileIDC := Z.land profileByte 0x1f in
    s ← of_option (slice data 2 6);
    let compatibility := Reverse32 (be s) in
    let tier := if negb (Z.land profileByte 0x20 =? 0) then str "H" else str "L" in
    level ← of_option (idx data 12);
    let result := sampleEntry ++ str "." ++ profileSpace ++ FormatInt profileIDC ++ str "." ++
                  FormatInt compatibility ++ str "." ++ tier ++ FormatInt level in
    lastConstraint ← last_constraint 7 data 11;
    print_constraints (Z.to_nat (lastConstraint - 5)) data 6 result.

Definition readAV1Codec (data : bytes) : outcome bytes :=
  if len data <? 3 then Done []
  else
    d0 ← of_option (idx data 0);
    if Z.land d0 0x80 =? 0 then Done []
    else
      d1 ← of_option (idx data 1);
      let profile := Z.shiftr d1 5 in
      let level := Z.land d1 0x1f in
      d2 ← of_option (idx data 2);
      let tier := if negb (Z.land d2 0x80 =? 0) then str "H" else str "M" in
      let bitDepth := if negb (Z.land d2 0x40 =? 0)
                      then if (profile =? 2) && negb (Z.land d2 0x20 =? 0) then 12 else 10
                      else 8 in
      Done (str "av01." ++ FormatInt profile ++ str "." ++ fmt_02d level ++ tier ++ str "." ++ fmt_02d bitDepth).

(** Whether the payload starts with the version and flags of a full box. *)
Definition vp9_full_box (data : bytes) : bool :=
  match data with
  | d0 :: d1 :: d2 :: d3 :: _ => (7 <=? len data) && (d0 <=? 1) && (d1 =? 0) && (d2 =? 0) && (d3 =? 0)
  | _ => false
  end.

Definition readVP9Codec (data : bytes) : outcome bytes :=
  let offset := if vp9_full_box data then 4 else 0 in
  if len data <? offset + 3 then Done []
  else
    bitDepth ← of_option (idx data (offset + 2));
    let bitDepth := if 16 <? bitDepth then Z.shiftr bitDepth 4 else bitDepth in
    profile ← of_option (idx data offset);
    level ← of_option (idx data (offset + 1));
    Done (str "vp09." ++ fmt_02d profile ++ str "." ++ fmt_02d level ++ str "." ++ fmt_02d bitDepth).

(** The loop of [readDescriptorLength]; the length (if there is one) and the cursor. *)
Fixpoint descriptor_loop (n : nat) (data : bytes) (cursor length : Z) : outcome (option Z * Z) :=
  match n with
  | O => Done (None, cursor)
  | S n =>
      if cursor <? len data then
        value ← of_option (idx data cursor);
        let length := Z.lor (Z.shiftl length 7) (Z.land value 0x7f) in
        if Z.land value 0x80 =? 0 then Done (Some length, cursor + 1) else descriptor_loop n data (cursor + 1) length
      else Done (None, cursor)
  end.

Definition readDescriptorLength (data : bytes) (cursor : Z) : outcome (option Z * Z) := descriptor_loop 4 data cursor 0.

(** A decoder-specific descriptor at [i]: the codec, unless there is none. *)
Definition aac_at (data : bytes) (i : Z) : outcome (option bytes) :=
  b ← of_option (idx data i);
  if negb (b =? 0x05) then Done None
  else
    '(r, cursor) ← readDescriptorLength data (i + 1);
    match r with
    | None => Done None
    | Some length =>
        if (length <? 2) || (len data - length <? cursor) then Done None
        else
          c0 ← of_option (idx data cursor);
          let objectType := Z.shiftr c0 3 in
          objectType ← (if objectType =? 31 then
                          c1 ← of_option (idx data (cursor + 1));
                          Done (32 + Z.shiftl (Z.land c0 7) 3 + Z.shiftr c1 5)
                        else Done objectType);
          Done (Some (str "mp4a.40." ++ FormatInt objectType))
    end.

Fixpoint aac_loop (fuel : nat) (data : bytes) (i : Z) : outcome bytes :=
  match fuel with
  | O => NoFuel
  | S fuel =>
      if i <? len data - 2 then
        r ← aac_at data i;
        match r with Some codec => Done codec | None => aac_loop fuel data (i + 1) end
      else Done []
  end.

Definition readAACCodec (data : bytes) : outcome bytes := aac_loop (box_fuel data) data (Z.min 4 (len data)).

Definition readInitVideoRange (data : bytes) : outcome bytes :=
  if len data <? 10 then Done []
  else
    t ← of_option (slice data 0 4);
    if negb (bool_decide (t = str "nclx")) && negb (bool_decide (t = str "nclc")) then Done []
    else
      s ← of_option (slice data 6 8);
      let transfer := be s in
      if transfer =? 16 then Done (str "PQ")
      else if transfer =? 18 then Done (str "HLG")
      else if bool_decide (transfer ∈ [1; 4; 5; 6; 7; 8; 13; 14; 15]) then Done (str "SDR")
      else Done [].

(** ** Tracks *)

Record initTrack := mkTrack { video : bool; codec : bytes; videoRange : bytes; width : Z; height : Z }.

Definition configType (t : bytes) : bytes :=
  if bool_decide (t = str "avc1") || bool_decide (t = str "avc3") then str "avcC"
  else if bool_decide (t = str "hvc1") || bool_decide (t = str "hev1") then str "hvcC"
  else if bool_decide (t = str "av01") then str "av1C"
  else if bool_decide (t = str "vp09") then str "vpcC"
  else [].

Definition videoCodec (t payload : bytes) : outcome bytes :=
  if bool_decide (t = str "avc1") || bool_decide (t = str "avc3") then
    if 4 <=? len payload then
      p1 ← of_option (idx payload 1); p2 ← of_option (idx payload 2); p3 ← of_option (idx payload 3);
      Done (t ++ str "." ++ fmt_02X p1 ++ fmt_02X p2 ++ fmt_02X p3)
    else Done []
  else if bool_decide (t = str "hvc1") || bool_decide (t = str "hev1") then readHEVCCodec t payload
  else if bool_decide (t = str "av01") then readAV1Codec payload
  else if bool_decide (t = str "vp09") then readVP9Codec payload
  else Done [].

Definition readInitVideoEntry (data : bytes) (entry : initBox) : outcome (option initTrack) :=
  let fixedEnd := payloadStart entry + 78 in
  if b_end entry <? fixedEnd then Done None
  else if len (configType (typ entry)) =? 0 then Done None
  else
    c ← findInitChild data fixedEnd (b_end entry) (configType (typ entry));
    match c with
    | None => Done None
    | Some config =>
        payload ← of_option (slice data (payloadStart config) (b_end config));
        codec ← videoCodec (typ entry) payload;
        if len codec =? 0 then Done None
        else
          colr ← findInitChild data fixedEnd (b_end entry) (str "colr");
          videoRange ← (match colr with
                        | Some colr => p ← of_option (slice data (payloadStart colr) (b_end colr)); readInitVideoRange p
                        | None => Done []
                        end);
          w ← of_option (slice data (payloadStart entry + 24) (payloadStart entry + 26));
          h ← of_option (slice data (payloadStart entry + 26) (payloadStart entry + 28));
          Done (Some (mkTrack true codec videoRange (be w) (be h)))
    end.

Definition readInitAudioEntry (data : bytes) (entry : initBox) : outcome (option initTrack) :=
  if negb (bool_decide (typ entry = str "mp4a")) || (b_end entry - 28 <? payloadStart entry) then Done None
  else
    v ← of_option (slice data (payloadStart entry + 8) (payloadStart entry + 10));
    let version := be v in
    let childStart := payloadStart entry + (if version =? 1 then 44 else if version =? 2 then 64 else 28) in
    e ← findInitChild data childStart (b_end entry) (str "esds");
    match e with
    | None => Done None
    | Some esds =>
        payload ← of_option (slice data (payloadStart esds) (b_end esds));
        codec ← readAACCodec payload;
        if len codec =? 0 then Done None else Done (Some (mkTrack false codec [] 0 0))
    end.

(** The loop over the sample entries: at most [count] of them. *)
Fixpoint entries_loop (fuel : nat) (data : bytes) (isVideo : bool) (count cursor end_ : Z) : outcome (option initTrack) :=
  match fuel with
  | O => NoFuel
  | S fuel =>
      if 0 <? count then
        r ← readInitBox data cursor end_;
        match r with
        | None => Done None
        | Some (entry, next) =>
            result ← (if isVideo then readInitVideoEntry data entry else readInitAudioEntry data entry);
            match result with
            | Some t => Done (Some t)
            | None => entries_loop fuel data isVideo (count - 1) next end_
            end
        end
      else Done None
  end.

(** [with_child] stops with nil where a child box is missing. *)
Definition with_child {A} (data : bytes) (parent : initBox) (t : bytes) (k : initBox → outcome (option A)) : outcome (option A) :=
  c ← findInitChild data (payloadStart parent) (b_end parent) t;
  match c with Some c => k c | None => Done None end.

(** The parts of [readInitTrack], from the inside out: the sample description, the
    tables above it, and the media with its handler. *)
Definition read_stsd (data : bytes) (isVideo : bool) (stsd : initBox) : outcome (option initTrack) :=
  if b_end stsd - 8 <? payloadStart stsd then Done None
  else
    n ← of_option (slice data (payloadStart stsd + 4) (payloadStart stsd + 8));
    entries_loop (box_fuel data) data isVideo (be n) (payloadStart stsd + 8) (b_end stsd).

Definition read_tables (data : bytes) (isVideo : bool) (mdia : initBox) : outcome (option initTrack) :=
  with_child data mdia (str "minf") (λ minf,
  with_child data minf (str "stbl") (λ stbl,
  with_child data stbl (str "stsd") (read_stsd data isVideo))).

Definition read_media (data : bytes) (mdia : initBox) : outcome (option initTrack) :=
  with_child data mdia (str "hdlr") (λ hdlr,
    if b_end hdlr - 12 <? payloadStart hdlr then Done None
    else
      handler ← of_option (slice data (payloadStart hdlr + 8) (payloadStart hdlr + 12));
      let isVideo := bool_decide (handler = str "vide") in
      if negb isVideo && negb (bool_decide (handler = str "soun")) then Done None
      else read_tables data isVideo mdia).

Definition readInitTrack (data : bytes) (trak : initBox) : outcome (option initTrack) :=
  with_child data trak (str "mdia") (read_media data).

(** ** The stream *)

(** [FrameRate] is set elsewhere. *)
Record HLSVariantInfo := mkVariant { Codecs : bytes; VideoRange : bytes; Width : Z; Height : Z }.

(** What a track adds to the result. *)
Definition add_track (result : HLSVariantInfo) (track : option initTrack) : HLSVariantInfo :=
  match track with
  | None => result
  | Some t =>
      if len (codec t) =? 0 then result
      else if video t && (len (Codecs result) =? 0) then mkVariant (codec t) (videoRange t) (width t) (height t)
      else if negb (video t) then
        if len (Codecs result) =? 0 then mkVariant (codec t) (VideoRange result) (Width result) (Height result)
        else if negb (Contains (Codecs result) (str "mp4a."))
        then mkVariant (Codecs result ++ str "," ++ codec t) (VideoRange result) (Width result) (Height result)
        else result
      else result
  end.

Fixpoint tracks_loop (fuel : nat) (data : bytes) (cursor end_ : Z) (result : HLSVariantInfo) : outcome HLSVariantInfo :=
  match fuel with
  | O => NoFuel
  | S fuel =>
      r ← readInitBox data cursor end_;
      match r with
      | None => Done result
      | Some (box, next) =>
          if negb (bool_decide (typ box = str "trak")) then tracks_loop fuel data next end_ result
          else
            track ← readInitTrack data box;
            tracks_loop fuel data next end_ (add_track result track)
      end
  end.

Definition readMP4InitInfo (data : bytes) : outcome (option HLSVariantInfo) :=
  if len data <? 8 then Done None
  else
    m ← findInitChild data 0 (len data) (str "moov");
    match m with
    | None => Done None
    | Some moov =>
        result ← tracks_loop (box_fuel data) data (payloadStart moov) (b_end moov) (mkVariant [] [] 0 0);
        if len (Codecs result) =? 0 then Done None else Done (Some result)
    end.
