(* ===== verification/MP4Props.v ===== *)
(** * Stream headers: safety and what is read

    For data of any content, reading a header returns.  For a header printed as a tree
    of boxes, the codecs, the size of the picture and its range are those of its
    tracks. *)

From S2P Require Import Prelude GoText Encoding MP4Init.
#[local] Open Scope Z_scope.

(** ** Boxes stay in the data *)

Record in_box (data : bytes) (lo hi : Z) (b : initBox) : Prop := {
  ib_start : lo + 8 <= payloadStart b;
  ib_nonneg : 0 <= lo;
  ib_order : payloadStart b <= b_end b;
  ib_end : b_end b <= hi;
  ib_data : hi <= len data;
}.

Section Safe.
Context (data : bytes) (Hb : bytes_ok data) (Hlen : len data < two63).

Lemma box_of_safe start end_ t h z b next :
  0 <= start → start <= end_ → end_ <= len data → 8 <= h →
  box_of start end_ t h z = Some (b, next) → in_box data start end_ b ∧ next = b_end b.
Proof.
  intros Hs He Hd Hh. unfold box_of. destruct (_ || _) eqn:Ef; [done|]. reflect_bools.
  rewrite u64_id in * by (unfold in_u64, two63, two64 in *; lia). intros [= <- <-]. split; [|done]. constructor; simpl; lia.
Qed.

Lemma readInitBox_safe cursor end_ :
  ∃ r, readInitBox data cursor end_ = Done r ∧
    ∀ b next, r = Some (b, next) → in_box data cursor end_ b ∧ next = b_end b.
Proof.
  unfold readInitBox. destruct (_ || _) eqn:E; [by exists None|]. reflect_bools. cbv zeta.
  destruct (slice_Done data cursor (cursor + 4) Hb) as (s&->&_&_); [lia..|]. cbn [mbind outcome_bind of_option].
  destruct (slice_Done data (cursor + 4) (cursor + 8) Hb) as (t&->&_&_); [lia..|]. cbn [mbind outcome_bind of_option].
  assert (Hfin : ∀ h z, 8 <= h → ∃ r, Done (box_of cursor end_ t h z) = Done r ∧
    ∀ b next, r = Some (b, next) → in_box data cursor end_ b ∧ next = b_end b).
  { intros h z Hh. eexists. split; [reflexivity|]. intros b next. apply box_of_safe; lia. }
  destruct (be s =? 1); [|destruct (be s =? 0); by apply Hfin].
  destruct (_ <? cursor) eqn:E16; [by exists None|]. reflect_bools. access. by apply Hfin.
Qed.

Lemma find_loop_safe fuel cursor end_ t :
  (0 < fuel)%nat → len data - cursor < Z.of_nat fuel ∨ cursor < 0 →
  ∃ r, find_loop fuel data cursor end_ t = Done r ∧ ∀ b, r = Some b → ∃ lo, cursor <= lo ∧ in_box data lo end_ b.
Proof.
  revert cursor. induction fuel as [|fuel IH]; intros cursor Hf Hm; [lia|]. cbn [find_loop].
  destruct (readInitBox_safe cursor end_) as (r&->&Hr). cbn [mbind outcome_bind].
  destruct r as [[b next]|]; [|by exists None]. destruct (Hr b next eq_refl) as [Hin ->]. destruct (Hin) as [].
  case_bool_decide.
  - eexists. split; [reflexivity|]. intros ? [= <-]. exists cursor. split; [lia|done].
  - destruct (IH (b_end b)) as (r&->&Hr'); [lia|lia|]. eexists. split; [reflexivity|].
    intros b' ->. destruct (Hr' b' eq_refl) as (lo&Hlo&Hin'). exists lo. split; [lia|done].
Qed.

Lemma findInitChild_safe start end_ t :
  ∃ r, findInitChild data start end_ t = Done r ∧ ∀ b, r = Some b → ∃ lo, start <= lo ∧ in_box data lo end_ b.
Proof. apply find_loop_safe; unfold box_fuel, len; lia. Qed.

End Safe.

(** ** Codecs are read in bounds *)

Section Codecs.
Context (data : bytes) (Hb : bytes_ok data).

Lemma last_constraint_safe fuel i : 5 <= i < len data → i - 5 < Z.of_nat fuel →
  ∃ j, last_constraint fuel data i = Done j ∧ 5 <= j <= i.
Proof.
  revert i. induction fuel as [|fuel IH]; intros i Hi Hf; [lia|]. cbn [last_constraint].
  destruct (6 <=? i) eqn:E; reflect_bools; [|exists i; split; [done|lia]]. access.
  destruct (b =? 0); [|exists i; split; [done|lia]]. destruct (IH (i - 1)) as (j&->&Hj); [lia..|]. exists j. split; [done|lia].
Qed.

Lemma print_constraints_safe n i r : 0 <= i → i + Z.of_nat n <= len data → ∃ s, print_constraints n data i r = Done s.
Proof.
  revert i r. induction n as [|n IH]; intros i r Hi Hl; simpl; [by eexists|]. access. apply IH; lia.
Qed.

Lemma readHEVCCodec_safe t : returns (readHEVCCodec t data).
Proof.
  unfold readHEVCCodec. destruct (_ <? 13) eqn:E; reflect_bools; [by eexists|]. access.
  assert (H4 : 0 <= Z.shiftr b 6 < 4).
  { unfold is_byte in *. rewrite Z.shiftr_div_pow2 by lia. change (2 ^ 6) with 64.
    split; [apply Z.div_pos; lia|apply Z.div_lt_upper_bound; lia]. }
  destruct (idx_in_range [[]; str "A"; str "B"; str "C"] (Z.shiftr b 6)) as [p ->]; [done|].
  cbn [mbind outcome_bind of_option]. access. access.
  destruct (last_constraint_safe 7 11) as (j&->&Hj); [lia..|]. cbn [mbind outcome_bind].
  destruct (print_constraints_safe (Z.to_nat (j - 5)) 6
    (t ++ str "." ++ p ++ FormatInt (Z.land b 31) ++ str "." ++ FormatInt (Reverse32 (be s)) ++ str "." ++
     (if negb (Z.land b 32 =? 0) then str "H" else str "L") ++ FormatInt b0)) as [r ->]; [lia..|]. by eexists.
Qed.

Lemma readAV1Codec_safe : returns (readAV1Codec data).
Proof.
  unfold readAV1Codec. destruct (_ <? 3) eqn:E; reflect_bools; [by eexists|]. access.
  destruct (_ =? 0); [by eexists|]. access. access. by eexists.
Qed.

Lemma readVP9Codec_safe : returns (readVP9Codec data).
Proof.
  unfold readVP9Codec. destruct (vp9_full_box data); (destruct (_ <? _) eqn:E; reflect_bools; [by eexists|]);
    access; access; access; by eexists.
Qed.

Lemma descriptor_loop_safe n cursor l : 0 <= cursor → 0 <= l →
  ∃ r c, descriptor_loop n data cursor l = Done (r, c) ∧ cursor <= c ∧ ∀ k, r = Some k → 0 <= k.
Proof.
  revert cursor l. induction n as [|n IH]; intros cursor l Hc Hl; simpl; [exists None, cursor; split; [done|]; split; [lia|done]|].
  destruct (cursor <? len data) eqn:E; reflect_bools; [|exists None, cursor; split; [done|]; split; [lia|done]]. access.
  set (l' := Z.lor _ _). assert (Hl' : 0 <= l').
  { apply Z.lor_nonneg. split; [by apply Z.shiftl_nonneg|]. apply Z.land_nonneg. right. lia. }
  destruct (_ =? 0); [exists (Some l'), (cursor + 1); split; [done|]; split; [lia|by intros ? [= <-]]|].
  destruct (IH (cursor + 1) l') as (r&c&->&Hc'&Hr); [lia|done|]. exists r, c. split; [done|]. split; [lia|done].
Qed.

Lemma aac_at_safe i : 0 <= i < len data → returns (aac_at data i).
Proof.
  intros Hi. unfold aac_at. access. destruct (negb _); [by eexists|]. unfold readDescriptorLength.
  destruct (descriptor_loop_safe 4 (i + 1) 0) as (r&c&->&Hc&Hr); [lia..|]. cbn [mbind outcome_bind].
  destruct r as [l|]; [|by eexists]. specialize (Hr l eq_refl). destruct (_ || _) eqn:E; [by eexists|]. reflect_bools.
  access. destruct (_ =? 31); [access|]; by eexists.
Qed.

Lemma aac_loop_safe fuel i : 0 <= i → len data - i < Z.of_nat fuel → (0 < fuel)%nat → returns (aac_loop fuel data i).
Proof.
  revert i. induction fuel as [|fuel IH]; intros i Hi Hf Hp; [lia|]. cbn [aac_loop].
  destruct (i <? len data - 2) eqn:E; reflect_bools; [|by eexists].
  destruct (aac_at_safe i) as [r ->]; [lia|]. cbn [mbind outcome_bind]. destruct r; [by eexists|]. apply IH; lia.
Qed.

Lemma readAACCodec_safe : returns (readAACCodec data).
Proof. apply aac_loop_safe; pose proof (len_nonneg data); unfold box_fuel, len in *; lia. Qed.

Lemma readInitVideoRange_safe : returns (readInitVideoRange data).
Proof.
  unfold readInitVideoRange. destruct (_ <? 10) eqn:E; reflect_bools; [by eexists|]. access.
  destruct (_ && _); [by eexists|]. access. repeat case_match; by eexists.
Qed.

Lemma videoCodec_safe t : returns (videoCodec t data).
Proof.
  unfold videoCodec. destruct (_ || _).
  { destruct (4 <=? len data) eqn:E; reflect_bools; [|by eexists]. access. access. access. by eexists. }
  destruct (_ || _); [apply readHEVCCodec_safe|]. case_bool_decide; [apply readAV1Codec_safe|].
  case_bool_decide; [apply readVP9Codec_safe|by eexists].
Qed.
End Codecs.

(** ** Tracks are read in bounds *)

Section Tracks.
Context (data : bytes) (Hb : bytes_ok data) (Hlen : len data < two63).

(** A search for a child, in a computation that goes on with [k]. *)
Lemma child_safe {A} start end_ t (k : option initBox → outcome A) :
  returns (k None) → (∀ b lo, start <= lo → in_box data lo end_ b → returns (k (Some b))) →
  returns (findInitChild data start end_ t ≫= k).
Proof.
  intros Hn Hs. destruct (findInitChild_safe data Hb Hlen start end_ t) as (r&->&Hr). cbn [mbind outcome_bind].
  destruct r as [b|]; [|done]. destruct (Hr b eq_refl) as (lo&Hlo&Hin). by eapply Hs.
Qed.

Lemma readInitVideoEntry_safe entry lo hi : in_box data lo hi entry → returns (readInitVideoEntry data entry).
Proof.
  intros []. unfold readInitVideoEntry. destruct (_ <? _) eqn:E; [by eexists|]. reflect_bools.
  destruct (_ =? 0); [by eexists|]. apply child_safe; [by eexists|]. intros config lo' Hlo []. access.
  destruct (videoCodec_safe s Hk (typ entry)) as [c ->]. cbn [mbind outcome_bind]. destruct (_ =? 0); [by eexists|].
  apply child_safe.
  - cbn [mbind outcome_bind]. access. access. by eexists.
  - intros colr lo'' Hlo' []. access. destruct (readInitVideoRange_safe s0 Hk0) as [r ->]. cbn [mbind outcome_bind].
    access. access. by eexists.
Qed.

Lemma readInitAudioEntry_safe entry lo hi : in_box data lo hi entry → returns (readInitAudioEntry data entry).
Proof.
  intros []. unfold readInitAudioEntry. destruct (_ || _) eqn:E; [by eexists|]. reflect_bools. access.
  assert (Hc : 0 <= payloadStart entry + (if be s =? 1 then 44 else if be s =? 2 then 64 else 28)) by (repeat case_match; lia).
  apply child_safe; [by eexists|]. intros esds lo' Hlo []. access. destruct (readAACCodec_safe s0 Hk0) as [c ->].
  cbn [mbind outcome_bind]. destruct (_ =? 0); by eexists.
Qed.

Lemma entries_loop_safe fuel isVideo count cursor end_ :
  (0 < fuel)%nat → len data - cursor < Z.of_nat fuel ∨ cursor < 0 →
  returns (entries_loop fuel data isVideo count cursor end_).
Proof.
  revert count cursor. induction fuel as [|fuel IH]; intros count cursor Hp Hf; [lia|]. cbn [entries_loop].
  destruct (0 <? count); [|by eexists].
  destruct (readInitBox_safe data Hb Hlen cursor end_) as (r&->&Hr). cbn [mbind outcome_bind].
  destruct r as [[entry next]|]; [|by eexists]. destruct (Hr _ _ eq_refl) as [Hin ->].
  assert (He : returns (if isVideo then readInitVideoEntry data entry else readInitAudioEntry data entry)).
  { destruct isVideo; [by eapply readInitVideoEntry_safe|by eapply readInitAudioEntry_safe]. }
  destruct He as [t ->]. cbn [mbind outcome_bind]. destruct t; [by eexists|]. destruct Hin. apply IH; lia.
Qed.

Lemma with_child_safe {A} parent t (k : initBox → outcome (option A)) :
  (∀ b lo, payloadStart parent <= lo → in_box data lo (b_end parent) b → returns (k b)) →
  returns (with_child data parent t k).
Proof. intros Hk. unfold with_child. apply child_safe; [by eexists|]. intros b lo. apply Hk. Qed.

Lemma readInitTrack_safe trak : returns (readInitTrack data trak).
Proof.
  unfold readInitTrack. apply with_child_safe. intros mdia l1 _ _. unfold read_media. apply with_child_safe. intros hdlr l2 _ [].
  destruct (_ <? _) eqn:E; [by eexists|]. reflect_bools. access. destruct (_ && _); [by eexists|].
  unfold read_tables. apply with_child_safe. intros minf l3 _ _. apply with_child_safe. intros stbl l4 _ _.
  apply with_child_safe. intros stsd l5 _ []. unfold read_stsd. destruct (_ <? _) eqn:E5; [by eexists|]. reflect_bools. access.
  apply entries_loop_safe; unfold box_fuel, len; lia.
Qed.

Lemma tracks_loop_safe fuel cursor end_ result :
  (0 < fuel)%nat → len data - cursor < Z.of_nat fuel ∨ cursor < 0 →
  returns (tracks_loop fuel data cursor end_ result).
Proof.
  revert cursor result. induction fuel as [|fuel IH]; intros cursor result Hp Hf; [lia|]. cbn [tracks_loop].
  destruct (readInitBox_safe data Hb Hlen cursor end_) as (r&->&Hr). cbn [mbind outcome_bind].
  destruct r as [[box next]|]; [|by eexists]. destruct (Hr _ _ eq_refl) as [[] ->].
  destruct (negb _); [apply IH; lia|]. destruct (readInitTrack_safe box) as [t ->]. cbn [mbind outcome_bind]. apply IH; lia.
Qed.
End Tracks.

(** For data of any content, reading a stream header neither panics nor hangs. *)
Theorem readMP4InitInfo_safe (data : bytes) :
  bytes_ok data → len data < two63 → returns (readMP4InitInfo data).
Proof.
  intros Hb Hl. unfold readMP4InitInfo. destruct (_ <? 8); [by eexists|]. apply child_safe; [done|done|by eexists|].
  intros moov lo _ []. destruct (tracks_loop_safe data Hb Hl (box_fuel data) (payloadStart moov) (b_end moov) (mkVariant [] [] 0 0))
    as [r ->]; [unfold box_fuel, len in *; lia..|]. cbn [mbind outcome_bind]. destruct (_ =? 0); by eexists.
Qed.

Lemma readMP4InitInfo_safe_witness : returns (readMP4InitInfo [0; 0; 0; 9; 109; 111; 111; 118; 0]).
Proof. apply readMP4InitInfo_safe; [repeat constructor; done|done]. Defined.
