(* ===== verification/MP4Layout.v ===== *)
(** * Printed stream headers are read back

    A printer for boxes and the layout of tracks the format prescribes, which is the
    specification the functions of [MP4Init] are compared with: boxes of other types
    may stand before and behind those that matter, at every level. *)

From S2P Require Import Prelude GoText Encoding MP4Init MP4Props.
#[local] Open Scope Z_scope.

(** ** Printing *)

Notation box := (bytes * bytes)%type.

Definition print_box (b : box) : bytes := be_bytes 4 (8 + len b.2) ++ b.1 ++ b.2.
Definition print_boxes (bs : list box) : bytes := concat (print_box <$> bs).

Definition box_ok (b : box) : Prop := len b.1 = 4 ∧ 8 + len b.2 < 2 ^ 32.

(** The payload of the first box of a type. *)
Definition find_box (bs : list box) (t : bytes) : option bytes := snd <$> head (filter (λ b, b.1 = t) bs).

(** [p] is made of boxes, and the first of type [t] has the payload [q]. *)
Definition holds (p t q : bytes) : Prop := ∃ bs, p = print_boxes bs ∧ Forall box_ok bs ∧ find_box bs t = Some q.

(** ** Tracks *)

(** The path from a track to its only sample entry. *)
Record track_layout (p handler etype entry : bytes) : Prop := {
  tl_path : ∃ mdia hdlr minf stbl stsd,
    holds p (str "mdia") mdia ∧ holds mdia (str "hdlr") hdlr ∧ holds mdia (str "minf") minf ∧
    holds minf (str "stbl") stbl ∧ holds stbl (str "stsd") stsd ∧
    (∃ a b, hdlr = a ++ handler ++ b ∧ len a = 8) ∧
    (∃ a, stsd = a ++ be_bytes 4 1 ++ print_box (etype, entry) ∧ len a = 4);
  tl_handler : len handler = 4;
  tl_entry : box_ok (etype, entry);
}.

(** A video sample entry: 78 bytes with the size of the picture, then boxes. *)
Record video_layout (entry etype config : bytes) (colr : option bytes) (w h : Z) : Prop := {
  vl_fixed : ∃ a b bs, entry = a ++ be_bytes 2 w ++ be_bytes 2 h ++ b ++ print_boxes bs ∧ len a = 24 ∧ len b = 50 ∧
    Forall box_ok bs ∧ find_box bs (configType etype) = Some config ∧ find_box bs (str "colr") = colr;
  vl_size : 0 <= w < 65536 ∧ 0 <= h < 65536;
}.

(** A sound sample entry: fixed fields, longer for the later versions, then boxes. *)
Record audio_layout (entry esds : bytes) : Prop := {
  al_fixed : ∃ a v b bs, entry = a ++ be_bytes 2 v ++ b ++ print_boxes bs ∧ len a = 8 ∧
    len b = (if v =? 1 then 34 else if v =? 2 then 54 else 18) ∧ 0 <= v < 65536 ∧
    Forall box_ok bs ∧ find_box bs (str "esds") = Some esds;
}.

(** ** Reading printed boxes *)

Lemma print_box_len b : box_ok b → len (print_box b) = 8 + len b.2.
Proof. intros [Ht _]. unfold print_box. rewrite !len_app. unfold len at 1. rewrite be_bytes_length. lia. Qed.

Lemma print_boxes_cons b bs : print_boxes (b :: bs) = print_box b ++ print_boxes bs.
Proof. done. Qed.

Lemma at_slice data off enc lo hi : at_ data off enc → lo = off → hi = off + len enc → slice data lo hi = Some enc.
Proof.
  intros Ha -> ->. pose proof (at_bounds _ _ _ Ha). pose proof (len_nonneg enc). rewrite slice_in_range by lia.
  f_equal. apply at_take; [done|]. unfold len. lia.
Qed.

Section Read.
Context (data : bytes) (Hlen : len data < two63).

(** A printed box at [off] and the box the code makes of it. *)
Definition box_at (off : Z) (b : box) : initBox := mkBox b.1 (off + 8) (off + 8 + len b.2).

Lemma readInitBox_printed off end_ b :
  at_ data off (print_box b) → box_ok b → off + len (print_box b) <= end_ → end_ <= len data →
  readInitBox data off end_ = Done (Some (box_at off b, off + len (print_box b))) ∧ at_ data (off + 8) b.2.
Proof.
  intros Ha Hok He Hd. pose proof (print_box_len b Hok) as Hl. pose proof (at_bounds _ _ _ Ha) as Hbd.
  destruct Hok as [Ht Hs]. pose proof (len_nonneg b.2). unfold print_box in Ha.
  apply at_app in Ha as [H1 H2]. apply at_app in H2 as [H2 H3].
  assert (L4 : len (be_bytes 4 (8 + len b.2)) = 4) by (unfold len; by rewrite be_bytes_length).
  rewrite L4 in *. rewrite Ht in *. split; [|by replace (off + 8) with (off + 4 + 4) by lia].
  unfold readInitBox. rewrite (proj2 (Z.ltb_ge off 0)), (proj2 (Z.ltb_ge (len data) _)), (proj2 (Z.ltb_ge (end_ - 8) _)) by lia.
  cbn [orb]. rewrite (at_slice _ _ _ off (off + 4) H1) by lia. cbn [mbind outcome_bind of_option].
  rewrite (at_slice _ _ _ (off + 4) (off + 8) H2) by lia. cbn [mbind outcome_bind of_option].
  rewrite be_be_bytes. change (256 ^ Z.of_nat 4) with (2 ^ 32). rewrite Z.mod_small by lia.
  rewrite (proj2 (Z.eqb_neq _ 1)), (proj2 (Z.eqb_neq _ 0)) by lia. unfold box_of.
  rewrite u64_id by (unfold in_u64, two63, two64 in *; lia). change (2 ^ 32) with 4294967296 in *.
  rewrite (proj2 (Z.ltb_ge _ 8)), (proj2 (Z.ltb_ge (end_ - off) _)), (proj2 (Z.ltb_ge (two63 - 1) _)) by (unfold two63; lia).
  cbn [orb]. unfold box_at. by rewrite Hl, Z.add_assoc.
Qed.

Lemma find_box_cons b bs t : find_box (b :: bs) t = if bool_decide (b.1 = t) then Some b.2 else find_box bs t.
Proof. unfold find_box. rewrite filter_cons. case_decide; [by rewrite bool_decide_true|by rewrite bool_decide_false]. Qed.

(** A search through printed boxes gives the first of the type. *)
Lemma find_printed bs t : Forall box_ok bs →
  ∀ fuel off end_, at_ data off (print_boxes bs) → end_ = off + len (print_boxes bs) → (length bs < fuel)%nat →
  match find_box bs t with
  | Some q => ∃ o, find_loop fuel data off end_ t = Done (Some (mkBox t o (o + len q))) ∧ at_ data o q ∧ off <= o
  | None => find_loop fuel data off end_ t = Done None
  end.
Proof.
  induction 1 as [|b bs Hb Hbs IH]; intros fuel off end_ Ha -> Hf; (destruct fuel as [|fuel]; [simpl in Hf; lia|]).
  - pose proof (at_bounds _ _ _ Ha). change (print_boxes []) with (@nil Z) in *. change (len (@nil Z)) with 0 in *.
    change (find_box [] t) with (@None bytes). cbv iota. cbn [find_loop]. unfold readInitBox.
    rewrite (proj2 (Z.ltb_ge off 0)), (proj2 (Z.ltb_ge (len data) _)), (proj2 (Z.ltb_lt (off + 0 - 8) _)) by lia. done.
  - rewrite print_boxes_cons, len_app in *. pose proof Ha as [H1 H2]%at_app. pose proof (at_bounds _ _ _ Ha) as Hbd.
    rewrite len_app in Hbd. pose proof (len_nonneg (print_boxes bs)).
    destruct (readInitBox_printed off (off + (len (print_box b) + len (print_boxes bs))) b H1 Hb) as [Hr Hp]; [lia..|].
    rewrite find_box_cons. cbn [find_loop]. rewrite Hr. cbn [mbind outcome_bind]. unfold box_at at 1. cbn [typ].
    case_bool_decide as Et.
    + exists (off + 8). subst t. rewrite bool_decide_true by done. split; [done|]. split; [done|lia].
    + rewrite ?bool_decide_false by done.
      specialize (IH fuel (off + len (print_box b)) (off + (len (print_box b) + len (print_boxes bs))) H2 ltac:(lia) ltac:(simpl in Hf; lia)).
      destruct (find_box bs t) as [q|]; [|done]. destruct IH as (o&->&Ho&Hle). exists o. split; [done|]. split; [done|].
      pose proof (len_nonneg (print_box b)). lia.
Qed.

Lemma print_boxes_length bs : Forall box_ok bs → 8 * Z.of_nat (length bs) <= len (print_boxes bs).
Proof.
  induction 1 as [|b bs Hb _ IH]; [done|]. rewrite print_boxes_cons, len_app, print_box_len by done.
  pose proof (len_nonneg b.2). simpl length. lia.
Qed.

Lemma boxes_fuel off bs : at_ data off (print_boxes bs) → Forall box_ok bs → (length bs < box_fuel data)%nat.
Proof.
  intros Ha Hok. pose proof (print_boxes_length bs Hok). apply at_bounds in Ha. unfold box_fuel, len in *. lia.
Qed.

Lemma findInitChild_printed bs off t : Forall box_ok bs → at_ data off (print_boxes bs) →
  match find_box bs t with
  | Some q => ∃ o, findInitChild data off (off + len (print_boxes bs)) t = Done (Some (mkBox t o (o + len q))) ∧ at_ data o q
  | None => findInitChild data off (off + len (print_boxes bs)) t = Done None
  end.
Proof.
  intros Hok Ha. pose proof (find_printed bs t Hok (box_fuel data) off _ Ha eq_refl (boxes_fuel off bs Ha Hok)) as Hf.
  destruct (find_box bs t); [|done]. destruct Hf as (o&?&?&_). by exists o.
Qed.

(** Where a payload holds a child, reading goes on with it. *)
Lemma with_child_printed {A} p t q off t0 (k : initBox → outcome (option A)) :
  holds p t q → at_ data off p →
  ∃ o, with_child data (mkBox t0 off (off + len p)) t k = k (mkBox t o (o + len q)) ∧ at_ data o q.
Proof.
  intros (bs&->&Hok&Hf) Ha. pose proof (findInitChild_printed bs off t Hok Ha) as Hc. rewrite Hf in Hc.
  destruct Hc as (o&Hc&Ho). exists o. split; [|done]. unfold with_child. cbn [payloadStart b_end]. by rewrite Hc.
Qed.
End Read.

(** ** Sample entries *)

(** A track of the header and what is read of it. *)
Inductive track_of (p : bytes) : initTrack → Prop :=
| video_track etype entry config colr w h c range :
    track_layout p (str "vide") etype entry → video_layout entry etype config colr w h →
    bytes_ok config → videoCodec etype config = Done c → c ≠ [] →
    match colr with Some q => readInitVideoRange q | None => Done [] end = Done range →
    track_of p (mkTrack true c range w h)
| audio_track entry esds c :
    track_layout p (str "soun") (str "mp4a") entry → audio_layout entry esds →
    readAACCodec esds = Done c → c ≠ [] →
    track_of p (mkTrack false c [] 0 0).

Lemma len_not_nil (c : bytes) : c ≠ [] → (len c =? 0) = false.
Proof. intros Hc. apply Z.eqb_neq. destruct c; [done|]. rewrite len_cons. pose proof (len_nonneg c). lia. Qed.

Lemma videoCodec_type t p c : videoCodec t p = Done c → c ≠ [] → (len (configType t) =? 0) = false.
Proof.
  unfold videoCodec, configType. intros Hc Hn. destruct (_ || _); [done|]. destruct (_ || _); [done|].
  case_bool_decide; [done|]. case_bool_decide; [done|]. by injection Hc as <-.
Qed.

Lemma be_2 v : 0 <= v < 65536 → be (be_bytes 2 v) = v.
Proof. intros Hv. rewrite be_be_bytes. by apply Z.mod_small. Qed.

Lemma len_be_bytes n z : len (be_bytes n z) = Z.of_nat n.
Proof. unfold len. by rewrite be_bytes_length. Qed.

Section Entries.
Context (data : bytes) (Hlen : len data < two63).

Lemma video_entry_printed entry etype config colr w h c range off :
  video_layout entry etype config colr w h → videoCodec etype config = Done c → c ≠ [] →
  match colr with Some q => readInitVideoRange q | None => Done [] end = Done range →
  at_ data off entry →
  readInitVideoEntry data (mkBox etype off (off + len entry)) = Done (Some (mkTrack true c range w h)).
Proof.
  intros [(a&b&bs&He&La&Lb&Hok&Hcfg&Hcolr) [Hw Hh]] Hc Hn Hr Ha. subst entry. pose proof Ha as Hall.
  apply at_app in Ha as [_ Ha]. apply at_app in Ha as [H1 Ha]. apply at_app in Ha as [H2 Ha]. apply at_app in Ha as [_ Hbs].
  rewrite !len_be_bytes, La, Lb in *. change (Z.of_nat 2) with 2 in *.
  unfold readInitVideoEntry. cbn [payloadStart b_end typ]. rewrite !len_app, !len_be_bytes, La, Lb. change (Z.of_nat 2) with 2.
  pose proof (len_nonneg (print_boxes bs)). rewrite (proj2 (Z.ltb_ge _ (off + 78))) by lia.
  rewrite (videoCodec_type _ _ _ Hc Hn).
  replace (off + 24 + 2 + 2 + 50) with (off + 78) in Hbs by lia.
  replace (off + (24 + (2 + (2 + (50 + len (print_boxes bs)))))) with (off + 78 + len (print_boxes bs)) by lia.
  pose proof (findInitChild_printed data Hlen bs (off + 78) (configType etype) Hok Hbs) as Hf. rewrite Hcfg in Hf.
  destruct Hf as (o&->&Ho). cbn [mbind outcome_bind payloadStart b_end].
  rewrite (at_slice _ _ _ o (o + len config) Ho) by done. cbn [mbind outcome_bind of_option]. rewrite Hc. cbn [mbind outcome_bind].
  rewrite len_not_nil by done.
  assert (Hrange : ∀ k : bytes → outcome (option initTrack),
    (colr ← findInitChild data (off + 78) (off + 78 + len (print_boxes bs)) (str "colr");
     r ← match colr with
         | Some colr => p ← of_option (slice data (payloadStart colr) (b_end colr)); readInitVideoRange p
         | None => Done []
         end; k r) = k range).
  { intros k. pose proof (findInitChild_printed data Hlen bs (off + 78) (str "colr") Hok Hbs) as Hf. rewrite Hcolr in Hf.
    destruct colr as [q|].
    - destruct Hf as (o'&->&Ho'). cbn [mbind outcome_bind payloadStart b_end].
      rewrite (at_slice _ _ _ o' (o' + len q) Ho') by done. cbn [mbind outcome_bind of_option]. by rewrite Hr.
    - rewrite Hf. cbn [mbind outcome_bind]. injection Hr as <-. done. }
  rewrite Hrange. rewrite (at_slice _ _ _ (off + 24) (off + 26) H1) by (rewrite ?len_be_bytes; lia).
  cbn [mbind outcome_bind of_option].
  rewrite (at_slice _ _ _ (off + 26) (off + 28) H2) by (rewrite ?len_be_bytes; lia). cbn [mbind outcome_bind of_option].
  by rewrite !be_2.
Qed.

Lemma audio_entry_printed entry esds c off :
  audio_layout entry esds → readAACCodec esds = Done c → c ≠ [] → at_ data off entry →
  readInitAudioEntry data (mkBox (str "mp4a") off (off + len entry)) = Done (Some (mkTrack false c [] 0 0)).
Proof.
  intros [(a&v&b&bs&He&La&Lb&Hv&Hok&Hes)] Hc Hn Ha. subst entry.
  apply at_app in Ha as [_ Ha]. apply at_app in Ha as [H1 Ha]. apply at_app in Ha as [_ Hbs].
  rewrite !len_be_bytes, La in *. change (Z.of_nat 2) with 2 in *. pose proof (len_nonneg (print_boxes bs)).
  set (n := if v =? 1 then 44 else if v =? 2 then 64 else 28).
  assert (Ln : len b = n - 10) by (rewrite Lb; unfold n; repeat case_match; lia).
  assert (Hn28 : 28 <= n) by (unfold n; repeat case_match; lia).
  unfold readInitAudioEntry. cbn [payloadStart b_end typ]. rewrite !len_app, len_be_bytes, La, Ln. change (Z.of_nat 2) with 2.
  rewrite bool_decide_true by done. rewrite (proj2 (Z.ltb_ge _ off)) by lia. cbn [negb orb].
  rewrite (at_slice _ _ _ (off + 8) (off + 10) H1) by (rewrite ?len_be_bytes; lia). cbn [mbind outcome_bind of_option].
  rewrite be_2 by done. fold n. replace (off + 8 + 2 + len b) with (off + n) in Hbs by lia.
  replace (off + (8 + (2 + (n - 10 + len (print_boxes bs))))) with (off + n + len (print_boxes bs)) by lia.
  pose proof (findInitChild_printed data Hlen bs (off + n) (str "esds") Hok Hbs) as Hf. rewrite Hes in Hf.
  destruct Hf as (o&->&Ho). cbn [mbind outcome_bind payloadStart b_end].
  rewrite (at_slice _ _ _ o (o + len esds) Ho) by done. cbn [mbind outcome_bind of_option]. rewrite Hc. cbn [mbind outcome_bind].
  by rewrite len_not_nil.
Qed.

(** The path to the sample entry. *)
Lemma track_printed p handler etype entry tr off :
  track_layout p handler etype entry → handler = str "vide" ∨ handler = str "soun" →
  (∀ o, at_ data o entry →
     (if bool_decide (handler = str "vide") then readInitVideoEntry data (mkBox etype o (o + len entry))
      else readInitAudioEntry data (mkBox etype o (o + len entry))) = Done (Some tr)) →
  at_ data off p → readInitTrack data (mkBox (str "trak") off (off + len p)) = Done (Some tr).
Proof.
  intros [(mdia&hdlr&minf&stbl&stsd&P1&P2&P3&P4&P5&(a&b&Eh&La)&(a'&Es&La')) Lh Hok] Hh Hentry Ha. unfold readInitTrack.
  destruct (with_child_printed data Hlen p (str "mdia") mdia off (str "trak") (read_media data) P1 Ha) as (o1&->&H1).
  unfold read_media. eassert (E2 := with_child_printed data Hlen mdia (str "hdlr") hdlr o1 (str "mdia") _ P2 H1).
  destruct E2 as (o2&->&H2). cbn [payloadStart b_end]. subst hdlr. pose proof (at_bounds _ _ _ H2) as Hb2.
  apply at_app in H2 as [_ H2]. apply at_app in H2 as [H2 _]. rewrite !len_app, La, Lh in *. pose proof (len_nonneg b).
  rewrite (proj2 (Z.ltb_ge _ o2)) by lia. rewrite (at_slice _ _ _ (o2 + 8) (o2 + 12) H2) by lia.
  cbn [mbind outcome_bind of_option]. cbv zeta.
  assert (Hg : negb (bool_decide (handler = str "vide")) && negb (bool_decide (handler = str "soun")) = false)
    by (by destruct Hh as [-> | ->]).
  rewrite Hg. unfold read_tables.
  eassert (E3 := with_child_printed data Hlen mdia (str "minf") minf o1 (str "mdia") _ P3 H1). destruct E3 as (o3&->&H3).
  eassert (E4 := with_child_printed data Hlen minf (str "stbl") stbl o3 (str "minf") _ P4 H3). destruct E4 as (o4&->&H4).
  eassert (E5 := with_child_printed data Hlen stbl (str "stsd") stsd o4 (str "stbl") _ P5 H4). destruct E5 as (o5&->&H5).
  unfold read_stsd. cbn [payloadStart b_end]. subst stsd. pose proof (at_bounds _ _ _ H5) as Hb5.
  apply at_app in H5 as [_ H5]. apply at_app in H5 as [H5 H6]. rewrite !len_app, len_be_bytes, La' in *.
  change (Z.of_nat 4) with 4 in *. pose proof (len_nonneg (print_box (etype, entry))).
  rewrite (proj2 (Z.ltb_ge _ o5)) by lia. rewrite (at_slice _ _ _ (o5 + 4) (o5 + 8) H5) by (rewrite ?len_be_bytes; lia).
  cbn [mbind outcome_bind of_option]. change (be (be_bytes 4 1)) with 1. replace (o5 + 4 + 4) with (o5 + 8) in H6 by lia.
  unfold box_fuel. cbn [entries_loop]. change (0 <? 1) with true. cbv iota.
  destruct (readInitBox_printed data Hlen (o5 + 8) (o5 + (4 + (4 + len (print_box (etype, entry))))) (etype, entry) H6 Hok)
    as [-> Hp]; [lia..|]. cbn [mbind outcome_bind]. unfold box_at. cbn [fst snd] in *.
  specialize (Hentry _ Hp). destruct (bool_decide (handler = str "vide")); rewrite Hentry; done.
Qed.

Lemma track_of_read p tr off : track_of p tr → at_ data off p →
  readInitTrack data (mkBox (str "trak") off (off + len p)) = Done (Some tr).
Proof.
  intros [etype entry config colr w h c range Hl Hv _ Hc Hn Hr|entry esds c Hl Hau Hc Hn] Ha.
  - apply (track_printed p (str "vide") etype entry); [done|by left| |done]. intros o Ho. rewrite bool_decide_true by done.
    by eapply video_entry_printed.
  - apply (track_printed p (str "soun") (str "mp4a") entry); [done|by right| |done]. intros o Ho.
    rewrite bool_decide_false by done. by eapply audio_entry_printed.
Qed.

(** The payloads of the tracks of a header. *)
Definition traks (ms : list box) : list bytes := snd <$> filter (λ b, b.1 = str "trak") ms.

Lemma tracks_printed ms : Forall box_ok ms →
  ∀ trs fuel off end_ result, Forall2 track_of (traks ms) trs → at_ data off (print_boxes ms) →
    end_ = off + len (print_boxes ms) → (length ms < fuel)%nat →
    tracks_loop fuel data off end_ result = Done (foldl (λ r t, add_track r (Some t)) result trs).
Proof.
  induction 1 as [|b ms Hb Hms IH]; intros trs fuel off end_ result Ht Ha -> Hf;
    (destruct fuel as [|fuel]; [simpl in Hf; lia|]); cbn [tracks_loop].
  - apply Forall2_nil_inv_l in Ht as ->. pose proof (at_bounds _ _ _ Ha). change (print_boxes []) with (@nil Z) in *.
    change (len (@nil Z)) with 0 in *. unfold readInitBox.
    rewrite (proj2 (Z.ltb_ge off 0)), (proj2 (Z.ltb_ge (len data) _)), (proj2 (Z.ltb_lt (off + 0 - 8) _)) by lia. done.
  - rewrite print_boxes_cons, len_app in *. pose proof Ha as [H1 H2]%at_app. pose proof (at_bounds _ _ _ Ha) as Hbd.
    rewrite len_app in Hbd. pose proof (len_nonneg (print_boxes ms)).
    destruct (readInitBox_printed data Hlen off (off + (len (print_box b) + len (print_boxes ms))) b H1 Hb) as [-> Hp]; [lia..|].
    cbn [mbind outcome_bind]. unfold box_at. cbn [typ]. unfold traks in Ht. rewrite filter_cons in Ht.
    destruct (decide (b.1 = str "trak")) as [Et|Et].
    + rewrite bool_decide_true by done. cbn [negb]. apply Forall2_cons_inv_l in Ht as (tr&trs'&Htr&Ht&->).
      rewrite Et. rewrite (track_of_read b.2 tr) by done. cbn [mbind outcome_bind foldl].
      apply (IH trs' fuel); [done|done|lia|simpl in Hf; lia].
    + rewrite bool_decide_false by done. cbn [negb]. apply (IH trs fuel); [done|done|lia|simpl in Hf; lia].
Qed.
End Entries.

(** ** The names of codecs *)

Definition no_m (s : bytes) : Prop := Forall (λ c, c ≠ 109) s.

Lemma no_m_app s t : no_m (s ++ t) ↔ no_m s ∧ no_m t.
Proof. apply Forall_app. Qed.

Lemma no_m_cons c s : no_m (c :: s) ↔ c ≠ 109 ∧ no_m s.
Proof. unfold no_m. by rewrite Forall_cons. Qed.

#[local] Arguments fmt_02X _ : simpl never.
#[local] Arguments fmt_02d _ : simpl never.
#[local] Arguments FormatInt _ : simpl never.

Lemma no_m_02X b : is_byte b → no_m (fmt_02X b).
Proof.
  intros Hb. unfold is_byte in Hb. assert (0 <= b / 16 < 16) by (split; [apply Z.div_pos; lia|apply Z.div_lt_upper_bound; lia]).
  pose proof (Z.mod_pos_bound b 16). unfold fmt_02X, hex_upper. repeat constructor; case_match; lia.
Qed.

Lemma no_m_02X_app b s : is_byte b → no_m s → no_m (hex_upper (b / 16) :: hex_upper (b mod 16) :: s).
Proof. intros Hb Hs. apply (no_m_app (fmt_02X b)). by split; [apply no_m_02X|]. Qed.

Lemma no_m_FormatInt z : no_m (FormatInt z).
Proof.
  unfold FormatInt. destruct (z =? 0); [by repeat constructor|]. apply no_m_app. split; [by destruct (z <? 0); repeat constructor|].
  apply Forall_fmap. eapply Forall_impl; [apply (to_base_ranged 10); lia|]. intros d Hd. simpl in *. lia.
Qed.

Lemma no_m_02d z : no_m (fmt_02d z).
Proof. unfold fmt_02d. case_match; [constructor; [done|]|]; apply no_m_FormatInt. Qed.

Create HintDb codec_names.
#[local] Hint Resolve no_m_02X no_m_FormatInt no_m_02d : codec_names.

(** [names] splits the name of a codec into its parts. *)
Ltac names :=
  repeat (match goal with
          | |- no_m (_ ++ _) => apply no_m_app; split
          | |- no_m (_ :: _) => apply no_m_cons; split; [by vm_compute|]
          end); eauto with codec_names; try (by repeat constructor).

Lemma no_m_constraints n data i r s : bytes_ok data → no_m r → print_constraints n data i r = Done s → no_m s.
Proof.
  intros Hb. revert i r. induction n as [|n IH]; intros i r Hr; simpl; [by intros [= <-]|].
  destruct (idx data i) as [b|] eqn:E; [|done]. simpl. apply IH. names. apply no_m_02X. by eapply idx_byte.
Qed.

Lemma videoCodec_no_m t p c : bytes_ok p → videoCodec t p = Done c → no_m c.
Proof.
  intros Hb. unfold videoCodec. destruct (_ || _) eqn:E1.
  { destruct (4 <=? len p); [|intros [= <-]; constructor]. intros Hc. inv_outcome.
    names; [|do 2 (apply no_m_02X_app; [by eapply idx_byte|]); apply no_m_02X; by eapply idx_byte].
    apply orb_true_iff in E1 as [E1|E1]; apply bool_decide_eq_true in E1 as ->; by repeat constructor. }
  destruct (bool_decide (t = str "hvc1") || bool_decide (t = str "hev1")) eqn:E2.
  { unfold readHEVCCodec. destruct (len p <? 13); [intros Hc; injection Hc as <-; constructor|]. intros Hc.
    apply bind_Done in Hc as (x&_&Hc). apply bind_Done in Hc as (space&Hsp&Hc). apply bind_Done in Hc as (s&_&Hc).
    apply bind_Done in Hc as (level&_&Hc). apply bind_Done in Hc as (j&_&Hc). apply of_option_Done in Hsp.
    assert (Hspace : no_m space).
    { unfold idx in Hsp. destruct (0 <=? _) in Hsp; [|done]. apply list_elem_of_lookup_2 in Hsp.
      rewrite !elem_of_cons, elem_of_nil in Hsp. destruct Hsp as [->|[->|[->|[->|[]]]]]; by repeat constructor. }
    eapply no_m_constraints; [done| |exact Hc]. names.
    - apply orb_true_iff in E2 as [E2|E2]; apply bool_decide_eq_true in E2 as ->; by repeat constructor.
    - case_match; by repeat constructor. }
  destruct (bool_decide (t = str "av01")).
  { unfold readAV1Codec. destruct (len p <? 3); [intros Hc; injection Hc as <-; constructor|]. intros Hc.
    apply bind_Done in Hc as (d0&_&Hc). destruct (Z.land d0 128 =? 0); [injection Hc as <-; constructor|].
    apply bind_Done in Hc as (d1&_&Hc). apply bind_Done in Hc as (d2&_&Hc). injection Hc as <-. names.
    case_match; by repeat constructor. }
  destruct (bool_decide (t = str "vp09")); [|intros Hc; injection Hc as <-; constructor].
  unfold readVP9Codec. cbv zeta. destruct (len p <? _); [intros Hc; injection Hc as <-; constructor|]. intros Hc.
  apply bind_Done in Hc as (d0&_&Hc). apply bind_Done in Hc as (d1&_&Hc). apply bind_Done in Hc as (d2&_&Hc).
  injection Hc as <-. names.
Qed.

Lemma Contains_no_m s t : no_m s → Contains s (109 :: t) = false.
Proof.
  induction 1 as [|c s Hc _ IH]; [done|]. cbn [Contains strip_prefix]. rewrite IH, orb_false_r.
  by rewrite (proj2 (Z.eqb_neq 109 c)) by done.
Qed.

Lemma Contains_prefix p s : Contains (p ++ s) p = true.
Proof.
  assert (E : bool_decide (is_Some (strip_prefix p (p ++ s))) = true).
  { apply bool_decide_eq_true. rewrite strip_prefix_app. by eexists. }
  destruct (p ++ s); simpl in *; by rewrite E.
Qed.

Lemma Contains_app_r a s p : Contains s p = true → Contains (a ++ s) p = true.
Proof. intros H. induction a as [|x a IH]; [done|]. simpl. by rewrite IH, orb_true_r. Qed.

Lemma readAACCodec_name data c : readAACCodec data = Done c → c ≠ [] → ∃ n, c = str "mp4a." ++ n.
Proof.
  unfold readAACCodec. generalize (box_fuel data), (Z.min 4 (len data)). intros fuel. induction fuel as [|fuel IH]; intros i; [done|].
  cbn [aac_loop]. case_match; [|by intros [= <-]]. intros Hc Hn. apply bind_Done in Hc as (r&Hr&Hc).
  destruct r as [s|]; [|by apply (IH (i + 1))]. injection Hc as <-. unfold aac_at in Hr.
  apply bind_Done in Hr as (b&_&Hr). destruct (negb _); [done|]. apply bind_Done in Hr as ([l cu]&_&Hr).
  destruct l as [l|]; [|done]. destruct (_ || _); [done|]. apply bind_Done in Hr as (c0&_&Hr). apply bind_Done in Hr as (ot&_&Hr).
  injection Hr as <-. by exists (str "40." ++ FormatInt ot).
Qed.

Lemma audio_name p tr : track_of p tr → video tr = false → ∃ n, codec tr = str "mp4a." ++ n.
Proof. intros [|entry esds c _ _ Hc Hn] Hv; [done|]. by eapply readAACCodec_name. Qed.

Lemma track_codec p tr : track_of p tr → (len (codec tr) =? 0) = false.
Proof. intros []; by apply len_not_nil. Qed.

(** Once sound is named, further tracks change nothing. *)
Lemma tracks_named ps trs r : Forall2 track_of ps trs → Contains (Codecs r) (str "mp4a.") = true →
  foldl (λ r t, add_track r (Some t)) r trs = r.
Proof.
  intros Ht Hc. assert (Hl : (len (Codecs r) =? 0) = false) by (apply len_not_nil; intros E; by rewrite E in Hc).
  induction Ht as [|p tr ps trs Htr _ IH]; [done|]. simpl.
  rewrite (track_codec p tr Htr), Hl, andb_false_r, Hc. by destruct (video tr).
Qed.

(** ** Properties *)

(** The header: boxes with a [moov] that holds the tracks. *)
Definition header_layout (data : bytes) (tracks : list bytes) : Prop :=
  len data < two63 ∧ ∃ top ms, data = print_boxes top ∧ Forall box_ok top ∧
    find_box top (str "moov") = Some (print_boxes ms) ∧ Forall box_ok ms ∧ traks ms = tracks.

Lemma header_printed data tracks trs :
  header_layout data tracks → Forall2 track_of tracks trs →
  readMP4InitInfo data =
  let r := foldl (λ r t, add_track r (Some t)) (mkVariant [] [] 0 0) trs in
  Done (if len (Codecs r) =? 0 then None else Some r).
Proof.
  intros (Hl&top&ms&->&Hok&Hf&Hms&<-) Ht. unfold readMP4InitInfo.
  assert (Ha : at_ (print_boxes top) 0 (print_boxes top)) by (exists [], []; by rewrite app_nil_r).
  assert (H8 : 8 <= len (print_boxes top)).
  { pose proof (print_boxes_length top Hok). destruct top; [done|]. simpl length in *. lia. }
  rewrite (proj2 (Z.ltb_ge _ 8)) by done.
  pose proof (findInitChild_printed _ Hl top 0 (str "moov") Hok Ha) as Hc. rewrite Hf in Hc. rewrite Z.add_0_l in Hc.
  destruct Hc as (o&->&Ho). cbn [mbind outcome_bind payloadStart b_end].
  rewrite (tracks_printed _ Hl ms Hms trs) with (off := o); [|done|done|done|by eapply boxes_fuel].
  cbn [mbind outcome_bind]. by destruct (_ =? 0).
Qed.

(** A header whose first track is video is described by it: its codec, size and
    range, and the codec of the first sound track behind a comma; boxes of other types
    at any level make no difference. *)
Theorem video_header_read (data p : bytes) (v : initTrack) (ps : list bytes) (audio : list initTrack) :
  header_layout data (p :: ps) → track_of p v → video v = true →
  Forall2 track_of ps audio → Forall (λ a, video a = false) audio →
  readMP4InitInfo data =
  Done (Some (mkVariant (codec v ++ match audio with [] => [] | a :: _ => str "," ++ codec a end)
                        (videoRange v) (width v) (height v))).
Proof.
  intros Hh Hv Hvid Ha Haud. rewrite (header_printed _ _ (v :: audio)) by (done || by constructor).
  pose proof (track_codec p v Hv) as Hcv. cbv zeta. cbn [foldl].
  assert (E1 : add_track (mkVariant [] [] 0 0) (Some v) = mkVariant (codec v) (videoRange v) (width v) (height v))
    by (unfold add_track; by rewrite Hcv, Hvid).
  rewrite E1. inversion Ha as [|pa a ps' audio' Hpa Ha' Ep Ea]; subst.
  { cbn [foldl Codecs]. by rewrite Hcv, app_nil_r. }
  apply Forall_cons in Haud as [Haa _]. cbn [foldl].
  assert (Hcm : Contains (codec v) (str "mp4a.") = false).
  { apply (Contains_no_m _ [112; 52; 97; 46]).
    destruct Hv as [etype entry config colr w h c range _ _ Hb Hc _ _|]; [|done]. by eapply videoCodec_no_m. }
  assert (E2 : add_track (mkVariant (codec v) (videoRange v) (width v) (height v)) (Some a) =
    mkVariant (codec v ++ str "," ++ codec a) (videoRange v) (width v) (height v)).
  { unfold add_track. cbn [Codecs VideoRange Width Height]. by rewrite (track_codec pa a Hpa), Haa, Hcv, Hcm. }
  rewrite E2. destruct (audio_name pa a Hpa Haa) as [n Hn]. rewrite (tracks_named ps' audio' _ Ha').
  - cbn [Codecs]. rewrite len_not_nil; [done|]. by destruct (codec v).
  - cbn [Codecs]. rewrite Hn. apply Contains_app_r, Contains_app_r, Contains_prefix.
Qed.

(** Where a sound track comes first, the video is lost: neither its codec nor the
    size of the picture is reported. *)
Theorem audio_first_loses_video (data p : bytes) (a : initTrack) (ps : list bytes) (trs : list initTrack) :
  header_layout data (p :: ps) → track_of p a → video a = false → Forall2 track_of ps trs →
  readMP4InitInfo data = Done (Some (mkVariant (codec a) [] 0 0)).
Proof.
  intros Hh Ha Hav Ht. rewrite (header_printed _ _ (a :: trs)) by (done || by constructor).
  pose proof (track_codec p a Ha) as Hc. cbv zeta. cbn [foldl].
  assert (E1 : add_track (mkVariant [] [] 0 0) (Some a) = mkVariant (codec a) [] 0 0)
    by (unfold add_track; by rewrite Hc, Hav).
  destruct (audio_name p a Ha Hav) as [n Hn]. rewrite E1, (tracks_named ps trs _ Ht).
  - cbn [Codecs]. by rewrite Hc.
  - cbn [Codecs]. rewrite Hn. apply Contains_prefix.
Qed.

(** ** A header *)

Lemma boxes_ok bs : forallb (λ b : box, (len b.1 =? 4) && (8 + len b.2 <? 2 ^ 32)) bs = true → Forall box_ok bs.
Proof.
  rewrite forallb_forall. intros H. apply Forall_forall. intros b Hb. apply list_elem_of_In, H in Hb. reflect_bools. by split.
Qed.

(** [in_boxes bs] proves that a payload printed from [bs] holds a child. *)
Ltac in_boxes bs := exists bs; split; [reflexivity|split; [apply boxes_ok; vm_compute; reflexivity|vm_compute; reflexivity]].

Definition zeros (n : nat) : bytes := replicate n 0.

Definition demo_stsd (etype entry : bytes) : list box := [(str "stsd", zeros 4 ++ be_bytes 4 1 ++ print_box (etype, entry))].
Definition demo_stbl (etype entry : bytes) : list box := [(str "stbl", print_boxes (demo_stsd etype entry))].
Definition demo_mdia (handler etype entry : bytes) : list box :=
  [(str "mdhd", zeros 24); (str "hdlr", zeros 8 ++ handler ++ zeros 13); (str "minf", print_boxes (demo_stbl etype entry))].
Definition demo_trak (handler etype entry : bytes) : list box :=
  [(str "tkhd", zeros 84); (str "mdia", print_boxes (demo_mdia handler etype entry))].

(** H.264 High, level 4.0, 1920 by 1080; AAC-LC. *)
Definition demo_avc : list box := [(str "avcC", [1; 0x64; 0; 0x28; 255; 225]); (str "colr", str "nclx" ++ [0; 1; 0; 16; 0; 9; 0])].
Definition demo_avc1 : bytes := zeros 24 ++ be_bytes 2 1920 ++ be_bytes 2 1080 ++ zeros 50 ++ print_boxes demo_avc.
Definition demo_esds : bytes := zeros 4 ++ [3; 25; 0; 1; 0; 4; 17; 64; 21; 0; 0; 0; 0; 0; 0; 0; 0; 0; 0; 0; 5; 2; 0x12; 0x10; 6; 1; 2].
Definition demo_mp4a : bytes := zeros 8 ++ be_bytes 2 0 ++ zeros 18 ++ print_boxes [(str "esds", demo_esds)].

Definition demo_video : bytes := print_boxes (demo_trak (str "vide") (str "avc1") demo_avc1).
Definition demo_audio : bytes := print_boxes (demo_trak (str "soun") (str "mp4a") demo_mp4a).

Definition demo_header (tracks : list bytes) : bytes :=
  print_boxes [(str "ftyp", str "isom"); (str "moov", print_boxes ((str "mvhd", zeros 100) :: ((λ p, (str "trak", p)) <$> tracks)))].

Definition demo_video_track : initTrack := mkTrack true (str "avc1.640028") (str "PQ") 1920 1080.
Definition demo_audio_track : initTrack := mkTrack false (str "mp4a.40.2") [] 0 0.

Lemma demo_video_of : track_of demo_video demo_video_track.
Proof.
  apply (video_track demo_video (str "avc1") demo_avc1 [1; 0x64; 0; 0x28; 255; 225] (Some (str "nclx" ++ [0; 1; 0; 16; 0; 9; 0]))
    1920 1080 (str "avc1.640028") (str "PQ")); [| |apply bytes_okb_spec; reflexivity|vm_compute; reflexivity|done|vm_compute; reflexivity].
  - split; [|reflexivity|split; vm_compute; reflexivity].
    eexists _, _, _, _, _. split_and!; [in_boxes (demo_trak (str "vide") (str "avc1") demo_avc1)|
      in_boxes (demo_mdia (str "vide") (str "avc1") demo_avc1)|in_boxes (demo_mdia (str "vide") (str "avc1") demo_avc1)|
      in_boxes (demo_stbl (str "avc1") demo_avc1)|in_boxes (demo_stsd (str "avc1") demo_avc1)|
      exists (zeros 8), (zeros 13); split; reflexivity|exists (zeros 4); split; reflexivity].
  - split; [|lia]. exists (zeros 24), (zeros 50), demo_avc. split_and!; [reflexivity..|apply boxes_ok; reflexivity|reflexivity|reflexivity].
Qed.

Lemma demo_audio_of : track_of demo_audio demo_audio_track.
Proof.
  apply (audio_track demo_audio demo_mp4a demo_esds (str "mp4a.40.2")); [| |vm_compute; reflexivity|done].
  - split; [|reflexivity|split; vm_compute; reflexivity].
    eexists _, _, _, _, _. split_and!; [in_boxes (demo_trak (str "soun") (str "mp4a") demo_mp4a)|
      in_boxes (demo_mdia (str "soun") (str "mp4a") demo_mp4a)|in_boxes (demo_mdia (str "soun") (str "mp4a") demo_mp4a)|
      in_boxes (demo_stbl (str "mp4a") demo_mp4a)|in_boxes (demo_stsd (str "mp4a") demo_mp4a)|
      exists (zeros 8), (zeros 13); split; reflexivity|exists (zeros 4); split; reflexivity].
  - split. exists (zeros 8), 0, (zeros 18), [(str "esds", demo_esds)].
    split_and!; [reflexivity|reflexivity|reflexivity|lia|lia|apply boxes_ok; reflexivity|reflexivity].
Qed.

Lemma demo_header_layout tracks : tracks = [demo_video; demo_audio] ∨ tracks = [demo_audio; demo_video] →
  header_layout (demo_header tracks) tracks.
Proof.
  intros [-> | ->]; (split; [vm_compute; reflexivity|]);
    (eexists _, _; split; [reflexivity|]; split; [apply boxes_ok; vm_compute; reflexivity|]; split; [reflexivity|];
     split; [apply boxes_ok; vm_compute; reflexivity|reflexivity]).
Qed.

Lemma video_header_read_witness :
  readMP4InitInfo (demo_header [demo_video; demo_audio]) = Done (Some (mkVariant (str "avc1.640028,mp4a.40.2") (str "PQ") 1920 1080)).
Proof.
  rewrite (video_header_read (demo_header [demo_video; demo_audio]) demo_video demo_video_track [demo_audio] [demo_audio_track]).
  - vm_compute. reflexivity.
  - apply demo_header_layout. by left.
  - apply demo_video_of.
  - reflexivity.
  - constructor; [apply demo_audio_of|constructor].
  - repeat constructor.
Defined.

Lemma audio_first_loses_video_witness :
  readMP4InitInfo (demo_header [demo_audio; demo_video]) = Done (Some (mkVariant (str "mp4a.40.2") [] 0 0)).
Proof.
  apply (audio_first_loses_video (demo_header [demo_audio; demo_video]) demo_audio demo_audio_track [demo_video] [demo_video_track]).
  - apply demo_header_layout. by right.
  - apply demo_audio_of.
  - reflexivity.
  - constructor; [apply demo_video_of|constructor].
Defined.
