(* ===== verification/Task.v ===== *)
(** * Transcoding tasks ([server/gstreamer/task.go])

    A task serves the segments of one stream.  It owns a pipeline, which it drives
    through the interface [pipelineRunner] (the class [Runner]): the pipeline produces
    segments one after the other, so the task seeks it, or lets it catch up, when the
    segment asked for is not the next one.  The calls made to the pipeline are recorded
    in [calls], oldest first.

    The mutex [mu] makes [EnsureInit], [WithSegment], [Frozen], [FreezeIfInactive] and
    [Dispose] atomic.  A request can be cancelled at any time: [ctx n] says whether it
    is at its [n]-th check.  [pipelineRunner] may set or clear the header of the stream
    during a call; it returns these changes with its answer. *)

From S2P Require Import Prelude GoFloat GoText Segment Matroska MP4Init.
#[local] Open Scope Z_scope.

(** ** The pipeline *)

Inductive task_error :=
| ErrTaskNotFound | ErrInvalidIdentifier | ErrEndOfStreamExhausted | ErrSegmentNotReady
| NilConsumer | Cancelled | RunnerError (n : Z) | ConsumerError (n : Z).

(** A change of the header: [Some data] sets it, [None] clears it. *)
Notation changes := (list (option bytes)).

Class Runner (R : Type) := {
  run_EnsureInit : Z → Z → R → option task_error * changes * R;
  run_GetSegment : Z → Z → R → (task_error + Segment) * changes * R;
  run_Seek : float64 → R → bool * changes * R;
  run_Frozen : R → changes * R;
  run_Dispose : R → changes * R;
  run_IsFrozen : R → bool;
}.

Inductive call :=
| CEnsureInit (audio startIndex : Z) (ok : bool)
| CGetSegment (index audio : Z) (ok : bool)
| CSeek (seconds : float64) (ok : bool)
| CFrozen
| CDispose.

(** ** State *)

(** The video track of the probe, as far as the header needs it. *)
Record video_info := mkVideoInfo { v_Width : Z; v_Height : Z; VideoTransfer : bytes; IsHDRVideo : bool }.

Record Task (R : Type) := mkTask {
  Audio : Z;
  Video : option video_info;
  DurationNS : Z;
  Cue : option CueTimeline;
  ConfigSegmentSeconds : Z;
  HDRToSDR : bool;
  LastSentSegment : Z;
  initMP4 : bytes;
  variant : option HLSVariantInfo;
  lastActive : Z;
  runner : option R;
  disposed : bool;
  calls : list call;
}.
Arguments mkTask {R}. Arguments Audio {R}. Arguments Video {R}. Arguments DurationNS {R}. Arguments Cue {R}.
Arguments ConfigSegmentSeconds {R}. Arguments HDRToSDR {R}. Arguments LastSentSegment {R}. Arguments initMP4 {R}.
Arguments variant {R}. Arguments lastActive {R}. Arguments runner {R}. Arguments disposed {R}. Arguments calls {R}.

Section Task.
Context {R : Type} `{!Runner R}.
Implicit Types t : Task R.

Definition set_Audio (x : Z) t : Task R :=
  mkTask x (Video t) (DurationNS t) (Cue t) (ConfigSegmentSeconds t) (HDRToSDR t) (LastSentSegment t) (initMP4 t) (variant t) (lastActive t) (runner t) (disposed t) (calls t).
Definition set_Last (x : Z) t : Task R :=
  mkTask (Audio t) (Video t) (DurationNS t) (Cue t) (ConfigSegmentSeconds t) (HDRToSDR t) x (initMP4 t) (variant t) (lastActive t) (runner t) (disposed t) (calls t).
Definition set_init (x : bytes) (v : option HLSVariantInfo) t : Task R :=
  mkTask (Audio t) (Video t) (DurationNS t) (Cue t) (ConfigSegmentSeconds t) (HDRToSDR t) (LastSentSegment t) x v (lastActive t) (runner t) (disposed t) (calls t).
Definition set_lastActive (x : Z) t : Task R :=
  mkTask (Audio t) (Video t) (DurationNS t) (Cue t) (ConfigSegmentSeconds t) (HDRToSDR t) (LastSentSegment t) (initMP4 t) (variant t) x (runner t) (disposed t) (calls t).
Definition set_runner (x : option R) t : Task R :=
  mkTask (Audio t) (Video t) (DurationNS t) (Cue t) (ConfigSegmentSeconds t) (HDRToSDR t) (LastSentSegment t) (initMP4 t) (variant t) (lastActive t) x (disposed t) (calls t).
Definition set_disposed (x : bool) t : Task R :=
  mkTask (Audio t) (Video t) (DurationNS t) (Cue t) (ConfigSegmentSeconds t) (HDRToSDR t) (LastSentSegment t) (initMP4 t) (variant t) (lastActive t) (runner t) x (calls t).
Definition log_call (c : call) t : Task R :=
  mkTask (Audio t) (Video t) (DurationNS t) (Cue t) (ConfigSegmentSeconds t) (HDRToSDR t) (LastSentSegment t) (initMP4 t) (variant t) (lastActive t) (runner t) (disposed t) (calls t ++ [c]).

(** [Config.normalized] and [max(SegmentSeconds, 1)] on the length of a segment. *)
Definition normalizedSegmentSeconds t : Z := if ConfigSegmentSeconds t <=? 0 then 6 else ConfigSegmentSeconds t.

Definition NewTask (audio : Z) (v : option video_info) (durationNS : Z) (cue : option CueTimeline)
    (segmentSeconds : Z) (hdrToSDR : bool) (now : Z) (r : option R) : option (Task R) :=
  match r with
  | None => None
  | Some r => Some (mkTask audio v durationNS cue (if segmentSeconds <=? 0 then 6 else segmentSeconds) hdrToSDR (-1) [] None now (Some r) false [])
  end.

Definition UpdateLastActive (now : Z) t : Task R := set_lastActive now t.

(** ** The header of the stream *)

Definition hasInitMP4 t : bool := 0 <? len (initMP4 t).

Definition WithInitMP4 (consume : bytes → option task_error) t : option task_error :=
  if len (initMP4 t) =? 0 then Some ErrSegmentNotReady else consume (initMP4 t).

(** [strings.ToUpper] on ASCII *)
Definition ToUpper (s : bytes) : bytes := (λ c, if (97 <=? c) && (c <=? 122) then c - 32 else c) <$> s.

Definition fill_variant t (v : HLSVariantInfo) : HLSVariantInfo :=
  match Video t with
  | None => v
  | Some i =>
      let range := if len (VideoRange v) =? 0 then ToUpper (VideoTransfer i) else VideoRange v in
      mkVariant (Codecs v) (if HDRToSDR t && IsHDRVideo i then str "SDR" else range)
        (if Width v <=? 0 then v_Width i else Width v) (if Height v <=? 0 then v_Height i else Height v)
  end.

(** [readMP4InitInfo] does not panic on data of any content. *)
Definition setInitMP4 (data : bytes) t : Task R :=
  let v := match readMP4InitInfo data with Done v => v | _ => None end in
  set_init data (fill_variant t <$> v) t.

Definition clearInitMP4 t : Task R := set_init [] None t.

Definition hlsVariant t : option HLSVariantInfo := variant t.

Definition apply_changes (cs : changes) t : Task R :=
  foldl (λ t c, match c with Some data => setInitMP4 data t | None => clearInitMP4 t end) t cs.

(** ** Calls to the pipeline *)

Definition call_EnsureInit (audio startIndex : Z) (r : R) t : option task_error * Task R :=
  let '(err, cs, r) := run_EnsureInit audio startIndex r in
  (err, log_call (CEnsureInit audio startIndex (bool_decide (err = None))) (apply_changes cs (set_runner (Some r) t))).

Definition call_GetSegment (index audio : Z) (r : R) t : (task_error + Segment) * Task R :=
  let '(res, cs, r) := run_GetSegment index audio r in
  (res, log_call (CGetSegment index audio (match res with inr _ => true | _ => false end)) (apply_changes cs (set_runner (Some r) t))).

Definition call_Seek (seconds : float64) (r : R) t : bool * Task R :=
  let '(ok, cs, r) := run_Seek seconds r in
  (ok, log_call (CSeek seconds ok) (apply_changes cs (set_runner (Some r) t))).

(** [GetSegment] where the pipeline is known to be there. *)
Definition get_segment (index audio : Z) t : (task_error + Segment) * Task R :=
  match runner t with Some r => call_GetSegment index audio r t | None => (inl ErrTaskNotFound, t) end.

Definition freezeLocked t : bool * Task R :=
  match runner t with
  | None => (false, t)
  | Some r =>
      if disposed t || run_IsFrozen r then (false, t)
      else let '(cs, r) := run_Frozen r in
           (true, clearInitMP4 (log_call CFrozen (apply_changes cs (set_runner (Some r) t))))
  end.

Definition Frozen t : Task R := (freezeLocked t).2.

Definition FreezeIfInactive (cutoff : Z) t : bool * Task R :=
  if negb (lastActive t <? cutoff) then (false, t) else freezeLocked t.

Definition Dispose t : Task R :=
  if disposed t then t
  else
    let t := set_disposed true t in
    let t := match runner t with
             | Some r => let '(cs, r) := run_Dispose r in set_runner None (log_call CDispose (apply_changes cs t))
             | None => t
             end in
    clearInitMP4 t.

Definition IsFrozen t : bool :=
  if disposed t then false else match runner t with Some r => run_IsFrozen r | None => false end.

(** ** Segments and time *)

Definition billion : Z := 1000000000.

Definition segmentStartNS (index : Z) t : Z :=
  match timeline_Segment (Cue t) index with
  | Some cue => cs_StartNS cue
  | None =>
      if index <=? 0 then 0
      else u64 (u64 (u64 index * u64 (Z.max (ConfigSegmentSeconds t) 1)) * billion)
  end.

(** [startSegmentIndex] of handlers.go *)
Definition startSegmentIndex (seconds segmentSeconds count : Z) : Z :=
  if (seconds <=? 0) || (segmentSeconds <=? 0) then 0
  else let index := seconds / segmentSeconds in if (0 <? count) && (count <? index) then count else index.

(** The index of the first segment that ends after [targetNS]; the number of segments
    when there is none. *)
Fixpoint cue_index (targetNS : Z) (segments : list CueSegment) (i : Z) : Z :=
  match segments with
  | [] => i
  | s :: segments => if targetNS <? cs_EndNS s then i else cue_index targetNS segments (i + 1)
  end.

Definition startIndexForSeconds (seconds : Z) t : Z :=
  if seconds <=? 0 then 0
  else
    let segmentSeconds := Z.max (ConfigSegmentSeconds t) 1 in
    match Cue t with
    | Some tl => cue_index (u64 (u64 seconds * billion)) (Segments tl) 0
    | None =>
        let duration := if DurationNS t <=? 0 then 0 else DurationNS t / billion in
        let count := if 0 <? duration then 1 + (duration - 1) / segmentSeconds else 0 in
        startSegmentIndex seconds segmentSeconds count
    end.

Definition maxInt64 : Z := two63 - 1.

(** [None] is a valid index. *)
Definition validateSegmentIndex (index : Z) t : option task_error :=
  if index <? 0 then Some ErrInvalidIdentifier
  else
    match Cue t with
    | Some tl => if len (Segments tl) <=? index then Some ErrEndOfStreamExhausted else None
    | None =>
        let segmentSeconds := normalizedSegmentSeconds t in
        if (segmentSeconds <=? 0) || (maxInt64 / billion <? segmentSeconds) then Some ErrInvalidIdentifier
        else
          let segmentDurationNS := segmentSeconds * billion in
          if maxInt64 / segmentDurationNS <? index then Some ErrInvalidIdentifier
          else if 0 <? DurationNS t then
            let count := 1 + (DurationNS t - 1) / segmentDurationNS in
            if count <=? index then Some ErrEndOfStreamExhausted else None
          else None
    end.

(** The time [seekToSegmentLocked] seeks to. *)
Definition seek_seconds (index : Z) t : float64 :=
  match timeline_Segment (Cue t) index with
  | Some cue => fdiv (of_int (cs_StartNS cue)) (of_int billion)
  | None => fmul (of_int index) (of_int (normalizedSegmentSeconds t))
  end.

Definition seekToSegmentLocked (index : Z) (r : R) t : option task_error * Task R :=
  match timeline_Segment (Cue t) index, Cue t with
  | None, Some _ => (Some ErrEndOfStreamExhausted, t)
  | _, _ => let '(ok, t) := call_Seek (seek_seconds index t) r t in (if ok then None else Some ErrSegmentNotReady, t)
  end.

(** ** Serving *)

Definition EnsureInit (audio startIndex : Z) t : option task_error * Task R :=
  let startIndex := if startIndex <? 0 then 0 else startIndex in
  match validateSegmentIndex startIndex t with
  | Some err => (Some err, t)
  | None =>
      if (Audio t =? audio) && hasInitMP4 t && ((startIndex =? 0) || negb (LastSentSegment t =? -1)) then (None, t)
      else
        let t := if negb (Audio t =? audio) then (freezeLocked (clearInitMP4 (set_Audio audio t))).2 else t in
        match runner t with
        | None => (Some ErrTaskNotFound, t)
        | Some r =>
            let '(err, t) := call_EnsureInit audio startIndex r t in
            match err with
            | None => (None, if (0 <? startIndex) && (LastSentSegment t =? -1) then set_Last (startIndex - 1) t else t)
            | Some _ => (err, t)
            end
        end
  end.

Definition maxSegmentCatchupSeconds : Z := 60.

Section Request.
Context (ctx : Z → bool).

(** [n] turns of the catch-up loop. *)
Fixpoint catch_up (n : nat) (i audio : Z) t : option task_error * Task R :=
  match n with
  | O => (None, t)
  | S n =>
      if ctx i then (Some Cancelled, t)
      else
        let t := set_Last (LastSentSegment t + 1) t in
        let '(res, t) := get_segment (LastSentSegment t) audio t in
        match res with
        | inl err => (Some err, set_Last (LastSentSegment t - 1) t)
        | inr _ => catch_up n (i + 1) audio t
        end
  end.

(** What is done before the segment is taken: nothing, a seek, or catching up. *)
Definition position_runner (index audio : Z) (r : R) t : option task_error * Task R :=
  if negb (Audio t =? audio) then seekToSegmentLocked index r (clearInitMP4 (set_Audio audio t))
  else if run_IsFrozen r then seekToSegmentLocked index r t
  else if (LastSentSegment t =? -1) && (0 <? index) then seekToSegmentLocked index r t
  else if negb (LastSentSegment t =? -1) && negb (LastSentSegment t =? index) && negb (index =? LastSentSegment t + 1) then
    let diff := index - LastSentSegment t in
    match Cue t with
    | None =>
        if (0 <? diff) && (diff <=? maxSegmentCatchupSeconds / normalizedSegmentSeconds t)
        then catch_up (Z.to_nat (diff - 1)) 0 audio t
        else seekToSegmentLocked index r t
    | Some _ => seekToSegmentLocked index r t
    end
  else (None, t).

Definition segmentLocked (index audio : Z) t : (task_error + Segment) * Task R :=
  match runner t with
  | None => (inl ErrTaskNotFound, t)
  | Some r =>
      match validateSegmentIndex index t with
      | Some err => (inl err, t)
      | None =>
          let '(err, t) := position_runner index audio r t in
          match err with
          | Some err => (inl err, t)
          | None =>
              let '(res, t) := get_segment index audio t in
              match res with
              | inl err => (inl err, t)
              | inr seg => (inr seg, set_Last index t)
              end
          end
      end
  end.

Definition WithSegment (index audio : Z) (consume : Segment → option task_error) t : option task_error * Task R :=
  let '(res, t) := segmentLocked index audio t in
  match res with
  | inl err => (Some err, t)
  | inr seg => if ctx (-1) then (Some Cancelled, t) else (consume seg, t)
  end.

(** The request for a segment ([segment] of handlers.go): the header first, if there
    is none. *)
Definition segment_request (index audio : Z) (consume : Segment → option task_error) t : option task_error * Task R :=
  let '(err, t) := if hasInitMP4 t then (None, t) else EnsureInit audio index t in
  match err with
  | Some err => (Some err, t)
  | None => WithSegment index audio (λ seg, if Empty seg then Some ErrSegmentNotReady else consume seg) t
  end.
End Request.
End Task.
