(* ===== verification/TaskProps.v ===== *)
(** * What a task asks of its pipeline

    A request for a segment makes a known sequence of calls: none for an index that is
    not valid, otherwise a seek to the start of the segment, or the segments left out
    since the last one, or nothing, and then the segment itself.  The last theorem is a
    run in which the pipeline stands elsewhere. *)

From S2P Require Import Prelude GoFloat GoText Segment Matroska MP4Init Task.
#[local] Open Scope Z_scope.

Section Props.
Context {R : Type} `{!Runner R}.
Implicit Types t : Task R.

(** ** What operations leave alone *)

(** Everything but the header, the pipeline, the last segment and the calls. *)
Definition static t t' : Prop :=
  Cue t' = Cue t ∧ ConfigSegmentSeconds t' = ConfigSegmentSeconds t ∧ DurationNS t' = DurationNS t.

#[global] Instance static_preorder : PreOrder static.
Proof. split; [by intros t|]. intros t1 t2 t3. unfold static. intuition congruence. Qed.

Lemma apply_changes_frame cs t :
  let t' := apply_changes cs t in
  static t t' ∧ Audio t' = Audio t ∧ LastSentSegment t' = LastSentSegment t ∧ runner t' = runner t ∧ calls t' = calls t.
Proof.
  cbv zeta. unfold apply_changes. revert t. induction cs as [|c cs IH]; intros t; simpl; [done|].
  destruct (IH (match c with Some data => setInitMP4 data t | None => clearInitMP4 t end)) as (H1&H2&H3&H4&H5).
  rewrite H2, H3, H4, H5. split; [etrans; [|exact H1]; by destruct c|]. by destruct c.
Qed.

(** A call to the pipeline changes the header and is recorded. *)
Definition called (c : call) t t' : Prop :=
  static t t' ∧ Audio t' = Audio t ∧ LastSentSegment t' = LastSentSegment t ∧
  calls t' = calls t ++ [c] ∧ is_Some (runner t').

Lemma call_GetSegment_called index audio r t :
  ∃ res t', call_GetSegment index audio r t = (res, t') ∧
    called (CGetSegment index audio (match res with inr _ => true | _ => false end)) t t'.
Proof.
  unfold call_GetSegment. destruct (run_GetSegment index audio r) as [[res cs] r']. eexists _, _. split; [reflexivity|].
  destruct (apply_changes_frame cs (set_runner (Some r') t)) as (H1&H2&H3&H4&H5).
  split; [exact H1|]. simpl. rewrite H2, H3, H4, H5. done.
Qed.

Lemma call_Seek_called seconds r t :
  ∃ ok t', call_Seek seconds r t = (ok, t') ∧ called (CSeek seconds ok) t t'.
Proof.
  unfold call_Seek. destruct (run_Seek seconds r) as [[ok cs] r']. eexists _, _. split; [reflexivity|].
  destruct (apply_changes_frame cs (set_runner (Some r') t)) as (H1&H2&H3&H4&H5).
  split; [exact H1|]. simpl. rewrite H2, H3, H4, H5. done.
Qed.

Lemma get_segment_called index audio t : is_Some (runner t) →
  ∃ res t', get_segment index audio t = (res, t') ∧
    called (CGetSegment index audio (match res with inr _ => true | _ => false end)) t t'.
Proof. intros [r Hr]. unfold get_segment. rewrite Hr. apply call_GetSegment_called. Qed.

(** ** The calls of a request *)

(** Segments taken one after the other. *)
Definition takes (from : Z) (n : nat) (audio : Z) : list call := (λ i, CGetSegment i audio true) <$> seqZ from (Z.of_nat n).

Lemma takes_S from n audio : takes from (S n) audio = CGetSegment from audio true :: takes (from + 1) n audio.
Proof. unfold takes. rewrite seqZ_cons by lia. rewrite fmap_cons. do 3 f_equal; lia. Qed.

Lemma catch_up_spec ctx n i audio t : is_Some (runner t) →
  ∃ err t' k, catch_up ctx n i audio t = (err, t') ∧ is_Some (runner t') ∧ static t t' ∧ Audio t' = Audio t ∧
    LastSentSegment t' = LastSentSegment t + Z.of_nat k ∧ (k ≤ n)%nat ∧
    (err = None → k = n ∧ calls t' = calls t ++ takes (LastSentSegment t + 1) n audio) ∧
    (err ≠ None → ∃ failed, calls t' = calls t ++ takes (LastSentSegment t + 1) k audio ++ failed ∧
       (failed = [] ∨ failed = [CGetSegment (LastSentSegment t + Z.of_nat k + 1) audio false])).
Proof.
  revert i t. induction n as [|n IH]; intros i t Hr; cbn [catch_up].
  { exists None, t, 0%nat. split_and!; [done..|lia|lia| |done]. intros _. split; [done|]. by rewrite app_nil_r. }
  destruct (ctx i).
  { exists (Some Cancelled), t, 0%nat. split_and!; [done..|lia|lia|done|]. intros _. exists []. split; [by rewrite app_nil_r|by left]. }
  cbv zeta. set (t1 := set_Last (LastSentSegment t + 1) t).
  destruct (get_segment_called (LastSentSegment t1) audio t1 Hr) as (res&t2&->&Hs&Ha&Hl&Hc&Hr2).
  assert (Hl1 : LastSentSegment t2 = LastSentSegment t + 1) by exact Hl.
  destruct res as [err|seg].
  - exists (Some err), (set_Last (LastSentSegment t2 - 1) t2), 0%nat. split_and!; [done|done|exact Hs|exact Ha| |lia|done|].
    + simpl. lia.
    + intros _. eexists. split; [simpl; exact Hc|]. right. simpl. by rewrite Z.add_0_r.
  - destruct (IH (i + 1) t2 Hr2) as (err&t3&k&->&Hr3&Hs3&Ha3&Hl3&Hk&Hok&Hbad). rewrite Hl1 in *.
    exists err, t3, (S k). split_and!; [done|done|by etrans|by rewrite Ha3|lia|lia| |].
    + intros E. destruct (Hok E) as [-> Hc3]. split; [done|]. rewrite Hc3, Hc, takes_S, <- app_assoc. done.
    + intros E. destruct (Hbad E) as (failed&Hc3&Hf). exists failed. rewrite Hc3, Hc, takes_S, <- !app_assoc. split; [done|].
      destruct Hf as [->|Hf]; [by left|right]. rewrite Hf. do 3 f_equal. lia.
Qed.

Lemma seekToSegmentLocked_spec index r t : validateSegmentIndex index t = None →
  ∃ (ok : bool) t', seekToSegmentLocked index r t = (if ok then None else Some ErrSegmentNotReady, t') ∧
    called (CSeek (seek_seconds index t) ok) t t'.
Proof.
  intros Hv. unfold seekToSegmentLocked.
  assert (Hc : ∀ tl, Cue t = Some tl → timeline_Segment (Cue t) index ≠ None).
  { intros tl Ht. unfold validateSegmentIndex in Hv. rewrite Ht in *. destruct (index <? 0) eqn:E; [done|].
    destruct (len (Segments tl) <=? index) eqn:E2; [done|]. simpl. rewrite E, E2. simpl. reflect_bools.
    destruct (idx_in_range (Segments tl) index) as [s ->]; [lia|done]. }
  destruct (call_Seek_called (seek_seconds index t) r t) as (ok&t'&Hs&Hcall).
  destruct (timeline_Segment (Cue t) index) as [s|] eqn:Et, (Cue t) as [tl|] eqn:Ec;
    [| |exfalso; by apply (Hc tl)|]; rewrite Hs; by exists ok, t'.
Qed.

(** What precedes the call for the segment, and the last segment then. *)
Inductive prepared t (r : R) (index audio : Z) : Z → list call → Prop :=
| by_seek : prepared t r index audio (LastSentSegment t) [CSeek (seek_seconds index t) true]
| in_place : Audio t = audio → run_IsFrozen r = false →
    (index = LastSentSegment t ∨ index = LastSentSegment t + 1) → prepared t r index audio (LastSentSegment t) []
| by_catching_up n : Audio t = audio → run_IsFrozen r = false → Cue t = None → LastSentSegment t ≠ -1 →
    (0 < n)%nat → index = LastSentSegment t + Z.of_nat n + 1 →
    Z.of_nat n < maxSegmentCatchupSeconds / normalizedSegmentSeconds t →
    prepared t r index audio (index - 1) (takes (LastSentSegment t + 1) n audio).

(** How a request can fail before its segment: at the seek, or while catching up with
    the last segment counted up to where it got. *)
Inductive stopped t (index audio : Z) : Z → list call → Prop :=
| at_seek : stopped t index audio (LastSentSegment t) [CSeek (seek_seconds index t) false]
| at_catching_up k failed : LastSentSegment t + Z.of_nat k < index →
    failed = [] ∨ failed = [CGetSegment (LastSentSegment t + Z.of_nat k + 1) audio false] →
    stopped t index audio (LastSentSegment t + Z.of_nat k) (takes (LastSentSegment t + 1) k audio ++ failed).

Lemma seek_case index audio r t t0 :
  validateSegmentIndex index t = None → static t t0 → LastSentSegment t0 = LastSentSegment t → calls t0 = calls t →
  ∃ err t', seekToSegmentLocked index r t0 = (err, t') ∧ is_Some (runner t') ∧
    match err with
    | None => ∃ prep, calls t' = calls t ++ prep ∧ prepared t r index audio (LastSentSegment t') prep
    | Some _ => ∃ new, calls t' = calls t ++ new ∧ stopped t index audio (LastSentSegment t') new
    end.
Proof.
  intros Hv (Hcue&Hseg&Hdur) Hl Hc.
  assert (Hv0 : validateSegmentIndex index t0 = None).
  { rewrite <- Hv. unfold validateSegmentIndex, normalizedSegmentSeconds. by rewrite Hcue, Hseg, Hdur. }
  assert (Hss : seek_seconds index t0 = seek_seconds index t).
  { unfold seek_seconds, normalizedSegmentSeconds. by rewrite Hcue, Hseg. }
  destruct (seekToSegmentLocked_spec index r t0 Hv0) as (ok&t'&->&_&_&Hl'&Hc'&Hr'). rewrite Hss, Hc in Hc'. rewrite Hl in Hl'.
  eexists _, _. split; [reflexivity|]. split; [done|]. destruct ok.
  - eexists. split; [exact Hc'|]. rewrite Hl'. constructor.
  - eexists. split; [exact Hc'|]. rewrite Hl'. constructor.
Qed.

Lemma position_runner_spec ctx index audio r t :
  runner t = Some r → validateSegmentIndex index t = None → (-1 <= LastSentSegment t) →
  ∃ err t', position_runner ctx index audio r t = (err, t') ∧ is_Some (runner t') ∧
    match err with
    | None => ∃ prep, calls t' = calls t ++ prep ∧ prepared t r index audio (LastSentSegment t') prep
    | Some _ => ∃ new, calls t' = calls t ++ new ∧ stopped t index audio (LastSentSegment t') new
    end.
Proof.
  intros Hr Hv Hlast. assert (Hidx : 0 <= index).
  { unfold validateSegmentIndex in Hv. destruct (index <? 0) eqn:E; [done|]. by reflect_bools. }
  unfold position_runner. destruct (Audio t =? audio) eqn:Ea; reflect_bools; cbn [negb]; [|by apply seek_case].
  destruct (run_IsFrozen r) eqn:Efr; [by apply seek_case|].
  destruct (_ && (0 <? index)) eqn:E1; [by apply seek_case|].
  destruct (_ && negb (index =? _)) eqn:E2.
  - apply andb_true_iff in E2 as [[E2 E3]%andb_true_iff E4]. reflect_bools.
    destruct (Cue t) eqn:Ecue; [by apply seek_case|]. destruct (_ && (_ <=? _)) eqn:E5; [|by apply seek_case]. reflect_bools.
    assert (Hrun : is_Some (runner t)) by (by rewrite Hr).
    destruct (catch_up_spec ctx (Z.to_nat (index - LastSentSegment t - 1)) 0 audio t Hrun)
      as (err&t'&k&->&Hr'&_&_&Hl'&Hk&Hok&Hbad).
    eexists _, _. split; [reflexivity|]. split; [done|]. destruct err as [err|].
    + destruct Hbad as (failed&Hc&Hf); [done|]. eexists. split; [exact Hc|]. rewrite Hl'. constructor; [lia|done].
    + destruct Hok as [-> Hc]; [done|]. eexists. split; [exact Hc|].
      replace (LastSentSegment t') with (index - 1) by lia. constructor; try done; lia.
  - exists None, t. split; [done|]. split; [by rewrite Hr|]. exists []. split; [by rewrite app_nil_r|].
    constructor; [done|done|]. apply andb_false_iff in E1, E2. rewrite andb_false_iff in E2. reflect_bools.
    destruct E1 as [E1|E1], E2 as [[E2|E2]|E2]; reflect_bools; lia.
Qed.

(** C38: a request for a segment makes no call for an index that is not valid.
    Otherwise it succeeds only after a seek to the start of the segment, in place (the
    segment is the last one again or the next one), or after taking every segment since
    the last one, of at most 60 seconds; then the segment is the last one.  Where it
    fails, the last segment is the last one that was taken. *)
Theorem segmentLocked_calls (ctx : Z → bool) (index audio : Z) t : -1 <= LastSentSegment t →
  ∃ res t', segmentLocked ctx index audio t = (res, t') ∧
  match runner t, validateSegmentIndex index t with
  | None, _ => res = inl ErrTaskNotFound ∧ t' = t
  | Some _, Some err => res = inl err ∧ t' = t
  | Some r, None =>
      (∃ seg prep, res = inr seg ∧ LastSentSegment t' = index ∧
         calls t' = calls t ++ prep ++ [CGetSegment index audio true] ∧
         ∃ last, prepared t r index audio last prep) ∨
      (∃ err prep, res = inl err ∧ calls t' = calls t ++ prep ++ [CGetSegment index audio false] ∧
         prepared t r index audio (LastSentSegment t') prep) ∨
      (∃ err new, res = inl err ∧ calls t' = calls t ++ new ∧ stopped t index audio (LastSentSegment t') new)
  end.
Proof.
  intros Hlast. unfold segmentLocked. destruct (runner t) as [r|] eqn:Hr; [|by eexists _, _].
  destruct (validateSegmentIndex index t) as [err|] eqn:Hv; [by eexists _, _|].
  destruct (position_runner_spec ctx index audio r t Hr Hv Hlast) as (err&t1&->&Hr1&Hpos).
  destruct err as [err|]; [eexists _, _; split; [reflexivity|]; right; right; destruct Hpos as (new&?&?); by eexists _, _|].
  destruct Hpos as (prep&Hc&Hp). destruct (get_segment_called index audio t1 Hr1) as (res&t2&->&_&_&Hl2&Hc2&_).
  destruct res as [err|seg]; eexists _, _; (split; [reflexivity|]).
  - right. left. exists err, prep. split_and!; [done| |by rewrite Hl2]. by rewrite Hc2, Hc, <- app_assoc.
  - left. exists seg, prep. split_and!; [done|done| |by eexists]. simpl. by rewrite Hc2, Hc, <- app_assoc.
Qed.

(** ** Seeking forward after a freeze *)

(** A pipeline that works: once it runs it goes on, and every segment taken is there. *)
Definition works (good : R → Prop) (audio : Z) : Prop :=
  ∀ r, good r → run_IsFrozen r = false ∧
    ∀ i, ∃ seg cs r', run_GetSegment i audio r = (inr seg, cs, r') ∧ Empty seg = false ∧ good r'.

Lemma catch_up_works good audio n i t r :
  works good audio → runner t = Some r → good r →
  ∃ t' r', catch_up (λ _, false) n i audio t = (None, t') ∧ runner t' = Some r' ∧ good r' ∧
    calls t' = calls t ++ takes (LastSentSegment t + 1) n audio.
Proof.
  intros Hw. revert i t r. induction n as [|n IH]; intros i t r Hr Hg; cbn [catch_up].
  { exists t, r. split_and!; [done..|]. by rewrite app_nil_r. }
  cbv zeta. set (t1 := set_Last (LastSentSegment t + 1) t). unfold get_segment. change (runner t1) with (runner t). rewrite Hr.
  destruct (Hw r Hg) as [_ Hget]. destruct (Hget (LastSentSegment t1)) as (seg&cs&r'&Eg&_&Hg').
  unfold call_GetSegment. rewrite Eg. set (t2 := log_call _ _).
  destruct (apply_changes_frame cs (set_runner (Some r') t1)) as (_&_&Hl&Hrun&Hc).
  destruct (IH (i + 1) t2 r') as (t3&r3&->&Hr3&Hg3&Hc3); [unfold t2; simpl; by rewrite Hrun|done|].
  exists t3, r3. split_and!; [done..|]. rewrite Hc3. unfold t2. simpl. rewrite Hl, Hc, takes_S, <- app_assoc. done.
Qed.

(** A task without cues that was frozen, asked for a segment a little further on:
    the header is prepared at that segment, which moves the pipeline there, but the
    last segment stays where it was, so the segments in between are then taken from
    the pipeline without a seek, and the segment asked for after them. *)
Theorem forward_after_freeze (good : R → Prop) (index audio : Z) (consume : Segment → option task_error)
    t (r r1 : R) (cs : changes) :
  runner t = Some r → initMP4 t = [] → Audio t = audio → Cue t = None → 0 <= LastSentSegment t →
  LastSentSegment t + 1 < index <= LastSentSegment t + maxSegmentCatchupSeconds / normalizedSegmentSeconds t →
  validateSegmentIndex index t = None →
  run_EnsureInit audio index r = (None, cs, r1) → good r1 → works good audio →
  ∃ seg t', segment_request (λ _, false) index audio consume t = (consume seg, t') ∧
    calls t' = calls t ++ [CEnsureInit audio index true] ++
      takes (LastSentSegment t + 1) (Z.to_nat (index - LastSentSegment t)) audio.
Proof.
  intros Hr Hi Ha Hcue Hl Hidx Hv He Hg Hw. unfold segment_request, hasInitMP4. rewrite Hi. change (0 <? len []) with false. cbv iota.
  unfold EnsureInit, hasInitMP4. rewrite (proj2 (Z.ltb_ge index 0)), Hv, Hi, (proj2 (Z.eqb_eq _ _)) by (done || lia).
  change (0 <? len []) with false. cbn [andb negb]. rewrite Hr. unfold call_EnsureInit. rewrite He.
  set (t1 := log_call _ _). destruct (apply_changes_frame cs (set_runner (Some r1) t)) as ((Hc1&Hc2&Hc3)&Ha1&Hl1&Hr1&Hcalls).
  assert (L1 : LastSentSegment t1 = LastSentSegment t) by exact Hl1. rewrite L1.
  rewrite (proj2 (Z.eqb_neq _ (-1))), andb_false_r by lia.
  assert (R1 : runner t1 = Some r1) by exact Hr1. assert (A1 : Audio t1 = audio) by (rewrite <- Ha; exact Ha1).
  assert (C1 : Cue t1 = None) by (rewrite <- Hcue; exact Hc1).
  assert (K1 : ConfigSegmentSeconds t1 = ConfigSegmentSeconds t) by exact Hc2.
  assert (D1 : DurationNS t1 = DurationNS t) by exact Hc3.
  assert (S1 : normalizedSegmentSeconds t1 = normalizedSegmentSeconds t) by (unfold normalizedSegmentSeconds; by rewrite K1).
  assert (V1 : validateSegmentIndex index t1 = None).
  { rewrite <- Hv. unfold validateSegmentIndex. by rewrite S1, C1, Hcue, D1. }
  unfold WithSegment, segmentLocked. rewrite R1, V1. unfold position_runner. destruct (Hw r1 Hg) as [Hfr _].
  rewrite A1, Z.eqb_refl, Hfr, L1, C1, S1. cbn [negb].
  rewrite (proj2 (Z.eqb_neq _ (-1))), (proj2 (Z.eqb_neq _ index)), (proj2 (Z.eqb_neq index _)) by lia. cbn [negb andb].
  rewrite (proj2 (Z.ltb_lt 0 _)), (proj2 (Z.leb_le _ _)) by lia. cbn [andb].
  destruct (catch_up_works good audio (Z.to_nat (index - LastSentSegment t - 1)) 0 t1 r1 Hw R1 Hg) as (t2&r2&->&R2&G2&C2).
  unfold get_segment. rewrite R2. unfold call_GetSegment. destruct (Hw r2 G2) as [_ Hget].
  destruct (Hget index) as (seg&cs2&r3&->&Hne&_). rewrite Hne. eexists _, _. split; [reflexivity|]. simpl.
  destruct (apply_changes_frame cs2 (set_runner (Some r3) t2)) as (_&_&_&_&Hc4). rewrite Hc4. simpl. rewrite C2, L1. unfold t1. simpl.
  rewrite Hcalls. simpl. rewrite <- !app_assoc. do 2 f_equal. simpl. f_equal.
  replace (Z.to_nat (index - LastSentSegment t)) with (S (Z.to_nat (index - LastSentSegment t - 1))) by lia.
  unfold takes. rewrite seqZ_S, fmap_app. rewrite list_fmap_singleton. do 3 f_equal. lia.
Qed.
End Props.

(** ** A pipeline that streams *)

(** The position of the next segment, and whether the pipeline is frozen.  The segment
    it produces holds the number of its position. *)
Record stream := mkStream { next : Z; frozen : bool }.

#[export] Instance stream_runner : Runner stream := {|
  run_EnsureInit audio start r := (None, [Some [1]], mkStream (if frozen r then start else next r) false);
  run_GetSegment index audio r := (inr (mkSegment [next r] [] 0 0), [], mkStream (next r + 1) false);
  run_Seek seconds r := (true, [], mkStream (to_int64 seconds / 6) false);
  run_Frozen r := ([None], mkStream (next r) true);
  run_Dispose r := ([], r);
  run_IsFrozen r := frozen r |}.

(** Segments of six seconds; 0 to 41 were sent, then the task was frozen. *)
Definition paused : Task stream :=
  mkTask 0 None 0 None 6 false 41 [] None 0 (Some (mkStream 42 true)) false [].

Lemma segmentLocked_calls_witness :
  (segmentLocked (λ _, false) 42 0 paused).1 = inr (mkSegment [42] [] 0 0) ∧
  ∃ res t', segmentLocked (λ _, false) 42 0 paused = (res, t') ∧
  match runner paused, validateSegmentIndex 42 paused with
  | None, _ => res = inl ErrTaskNotFound ∧ t' = paused
  | Some _, Some err => res = inl err ∧ t' = paused
  | Some r, None =>
      (∃ seg prep, res = inr seg ∧ LastSentSegment t' = 42 ∧
         calls t' = calls paused ++ prep ++ [CGetSegment 42 0 true] ∧ ∃ last, prepared paused r 42 0 last prep) ∨
      (∃ err prep, res = inl err ∧ calls t' = calls paused ++ prep ++ [CGetSegment 42 0 false] ∧
         prepared paused r 42 0 (LastSentSegment t') prep) ∨
      (∃ err new, res = inl err ∧ calls t' = calls paused ++ new ∧ stopped paused 42 0 (LastSentSegment t') new)
  end.
Proof. split; [vm_compute; reflexivity|]. apply (segmentLocked_calls (λ _, false) 42 0 paused). vm_compute. congruence. Defined.

(** Asked for segment 45, the task sends what follows segment 47. *)
Lemma forward_after_freeze_witness :
  let consume := λ seg : Segment, match Header seg with [n] => Some (ConsumerError n) | _ => None end in
  (segment_request (λ _, false) 45 0 consume paused).1 = Some (ConsumerError 48) ∧
  ∃ seg t', segment_request (λ _, false) 45 0 consume paused = (consume seg, t') ∧
    calls t' = [] ++ [CEnsureInit 0 45 true] ++ takes 42 4 0.
Proof.
  intros consume. split; [vm_compute; reflexivity|].
  apply (forward_after_freeze (λ r, frozen r = false) 45 0 consume paused (mkStream 42 true) (mkStream 45 false) [Some [1]]).
  - reflexivity.
  - reflexivity.
  - reflexivity.
  - reflexivity.
  - vm_compute. congruence.
  - vm_compute. split; congruence.
  - vm_compute. reflexivity.
  - reflexivity.
  - reflexivity.
  - intros r Hr. split; [exact Hr|]. intros i. eexists _, _, _. split; [reflexivity|]. split; reflexivity.
Defined.
