(* ===== verification/FragBox.v ===== *)
(** * Fragments of a stream: boxes ([server/gstreamer/mp4box.go])

    The pipeline of the transcoder delivers a fragmented MP4 stream: a header, then
    pairs of a [moof], which lists the samples of one track, and an [mdat], which holds
    their bytes.  This file reads the boxes: the tracks of the header
    ([parseInitTracks]) and the samples of a [moof] ([parseSourceMoof]).

    A computation gives a value, returns an error, or crashes ([go]); a crash is a
    run-time panic or a loop that has not ended within its fuel, and [FragSafe] shows
    that there is none.  The texts of errors are without the numbers printed into them. *)

From S2P Require Import Prelude GoText Encoding.
#[local] Open Scope Z_scope.

(** ** Values and errors *)

Inductive go (A : Type) : Type := Ok (a : A) | Err (e : string) | Crash.
Arguments Ok {A} _.
Arguments Err {A} _.
Arguments Crash {A}.

#[export] Instance go_ret : MRet go := λ A a, Ok a.
#[export] Instance go_bind : MBind go := λ A B f m,
  match m with Ok a => f a | Err e => Err e | Crash => Crash end.

Definition checked {A} (o : option A) : go A := match o with Some a => Ok a | None => Crash end.

(** [if !cond { return errors.New(e) }] *)
Definition demand (cond : bool) (e : string) : go () := if cond then Ok () else Err e.

(** ** Names of boxes, flags and limits *)

Definition boxStyp : Z := 0x73747970.
Definition boxSidx : Z := 0x73696478.
Definition boxEmsg : Z := 0x656d7367.
Definition boxFree : Z := 0x66726565.
Definition boxPrft : Z := 0x70726674.
Definition boxMoov : Z := 0x6d6f6f76.
Definition boxMoof : Z := 0x6d6f6f66.
Definition boxMdat : Z := 0x6d646174.
Definition boxMfhd : Z := 0x6d666864.
Definition boxTraf : Z := 0x74726166.
Definition boxTfhd : Z := 0x74666864.
Definition boxTfdt : Z := 0x74666474.
Definition boxTrun : Z := 0x7472756e.
Definition boxTrak : Z := 0x7472616b.
Definition boxTkhd : Z := 0x746b6864.
Definition boxMdia : Z := 0x6d646961.
Definition boxMdhd : Z := 0x6d646864.
Definition boxHdlr : Z := 0x68646c72.
Definition boxMvex : Z := 0x6d766578.
Definition boxTrex : Z := 0x74726578.
Definition boxMfra : Z := 0x6d667261.
Definition handlerVideo : Z := 0x76696465.
Definition handlerAudio : Z := 0x736f756e.

Definition tfhdBaseDataOffsetPresent : Z := 0x000001.
Definition tfhdSampleDescriptionIndexPresent : Z := 0x000002.
Definition tfhdDefaultSampleDurationPresent : Z := 0x000008.
Definition tfhdDefaultSampleSizePresent : Z := 0x000010.
Definition tfhdDefaultSampleFlagsPresent : Z := 0x000020.
Definition tfhdDurationIsEmpty : Z := 0x010000.
Definition tfhdDefaultBaseIsMoof : Z := 0x020000.
Definition trunDataOffsetPresent : Z := 0x000001.
Definition trunFirstSampleFlagsPresent : Z := 0x000004.
Definition trunSampleDurationPresent : Z := 0x000100.
Definition trunSampleSizePresent : Z := 0x000200.
Definition trunSampleFlagsPresent : Z := 0x000400.
Definition trunCompositionTimeOffsetPresent : Z := 0x000800.
Definition maxTrunSamples : Z := 1000000.
Definition canonicalTfhdSize : Z := 20.
Definition MaxInt32 : Z := 2147483647.
Definition MaxUint32 : Z := 4294967295.
Definition MaxUint64 : Z := two64 - 1.

(** The flags of a [tfhd] and of a [trun] the parser knows. *)
Definition knownTfhdFlags : Z := 0x03003b.
Definition knownTrunFlags : Z := 0x000f05.

(** ** Data *)

Record trexInfo := mkTrex { x_descriptionIndex : Z; x_duration : Z; x_size : Z; x_flags : Z }.
Record trackInfo := mkTrack { tr_id : Z; tr_timescale : Z; tr_trex : trexInfo }.
Definition noTrex : trexInfo := mkTrex 0 0 0 0.
Definition noTrack : trackInfo := mkTrack 0 0 noTrex.

(** A field the box does not hold is [None]. *)
Record tfhdInfo := mkTfhd {
  h_trackID : Z;
  h_sampleDescriptionIndex : option Z;
  h_defaultDuration : Z;
  h_defaultSize : Z;
  h_defaultFlags : option Z;
}.

Record mp4Sample := mkSample { sm_duration : Z; sm_size : Z; sm_flags : Z; sm_compositionTimeOffsetRaw : Z }.

Record mp4Run := mkRun {
  ru_sourceDataOffset : option Z;
  ru_samples : list mp4Sample;
  ru_version : Z;
  ru_hasCompositionTimeOffsets : bool;
  ru_duration : Z;
  ru_dataSize : Z;
  ru_payloadOffset : Z;
  ru_outputOffset : Z;
  ru_startsWithSync : bool;
  ru_hasInferredDuration : bool;
}.

Record mp4Fragment := mkFragment {
  f_trackID : Z;
  f_timescale : Z;
  f_decodeTime : Z;
  f_duration : Z;
  f_startsWithSync : bool;
  f_sampleDescriptionIndex : Z;
  f_tfhd : bytes;
  f_runs : list mp4Run;
  f_payloadStart : Z;
  f_payloadLen : Z;
  f_hasInferredDuration : bool;
}.

Definition endTime (f : mp4Fragment) : Z := u64 (f_decodeTime f + f_duration f).

(** ** Reading boxes *)

(** [binary.BigEndian.Uint32(data[lo:lo+4])] and [Uint64(data[lo:lo+8])] *)
Definition Uint32 (data : bytes) (lo : Z) : go Z := s ← checked (slice data lo (lo + 4)); Ok (be s).
Definition Uint64 (data : bytes) (lo : Z) : go Z := s ← checked (slice data lo (lo + 8)); Ok (be s).

(** A box: its type, the length of its header, its bytes, and the position behind it. *)
Record box := mkBox { b_type : Z; b_header : Z; b_data : bytes; b_next : Z }.

(** The end of [tryReadBox], when the size is known. *)
Definition cut_box (data : bytes) (start boxType headerSize size : Z) : go (option box) :=
  if (size <? headerSize) || (MaxInt32 <? size) || (u64 (len data - start) <? size) then Ok None
  else b ← checked (slice data start (start + size)); Ok (Some (mkBox boxType headerSize b (start + size))).

Definition tryReadBox (data : bytes) (position : Z) : go (option box) :=
  let start := position in
  if (start <? 0) || (len data <? start) || (len data - start <? 8) then Ok None
  else
    size32 ← Uint32 data start;
    boxType ← Uint32 data (start + 4);
    if size32 =? 1 then
      if len data - start <? 16 then Ok None
      else size ← Uint64 data (start + 8); cut_box data start boxType 16 size
    else if size32 =? 0 then cut_box data start boxType 8 (u64 (len data - start))
    else cut_box data start boxType 8 size32.

(** The boxes a loop [for { ..., ok := tryReadBox(data, &position); if !ok { break } ... }]
    visits; a box takes at least eight bytes. *)
Fixpoint boxes_loop (fuel : nat) (data : bytes) (position : Z) : go (list box) :=
  match fuel with
  | O => Crash
  | S fuel =>
      r ← tryReadBox data position;
      match r with
      | None => Ok []
      | Some b => bs ← boxes_loop fuel data (b_next b); Ok (b :: bs)
      end
  end.

Definition boxes_in (data : bytes) (position : Z) : go (list box) := boxes_loop (S (length data)) data position.

Definition readUint32 (data : bytes) (position : Z) : go (option (Z * Z)) :=
  if (position <? 0) || (len data - position <? 4) then Ok None
  else v ← Uint32 data position; Ok (Some (v, position + 4)).

(** A field that is read when [present], with the error when it is cut off. *)
Definition read_field (present : bool) (data : bytes) (position : Z) (e : string) : go (option Z * Z) :=
  if present then
    r ← readUint32 data position;
    match r with Some (v, position) => Ok (Some v, position) | None => Err e end
  else Ok (None, position).

Definition has_flag (flags flag : Z) : bool := negb (Z.land flags flag =? 0).

(** ** The fragment header *)

Definition parseTfhd (box : bytes) (headerSize : Z) : go tfhdInfo :=
  if len box <? headerSize + 8 then Err "tfhd is too small" else
  versionFlags ← Uint32 box headerSize;
  let flags := Z.land versionFlags 0x00ffffff in
  _ ← demand (u8 (Z.shiftr versionFlags 24) =? 0) "unsupported tfhd version";
  _ ← demand (Z.ldiff flags knownTfhdFlags =? 0) "unsupported tfhd flags";
  _ ← demand (negb (has_flag flags tfhdBaseDataOffsetPresent)) "tfhd.base-data-offset-present is not supported";
  _ ← demand (negb (has_flag flags tfhdDurationIsEmpty)) "tfhd.duration-is-empty is not supported";
  trackID ← Uint32 box (headerSize + 4);
  _ ← demand (negb (trackID =? 0)) "tfhd track_ID is zero";
  '(index, cursor) ← read_field (has_flag flags tfhdSampleDescriptionIndexPresent) box (headerSize + 8) "invalid tfhd sample_description_index";
  _ ← demand (negb (bool_decide (index = Some 0))) "invalid tfhd sample_description_index";
  '(duration, cursor) ← read_field (has_flag flags tfhdDefaultSampleDurationPresent) box cursor "invalid tfhd default_sample_duration";
  '(size, cursor) ← read_field (has_flag flags tfhdDefaultSampleSizePresent) box cursor "invalid tfhd default_sample_size";
  '(sampleFlags, cursor) ← read_field (has_flag flags tfhdDefaultSampleFlagsPresent) box cursor "invalid tfhd default_sample_flags";
  _ ← demand (cursor =? len box) "invalid tfhd body";
  Ok (mkTfhd trackID index (default 0 duration) (default 0 size) sampleFlags).

(** The bytes [binary.BigEndian.PutUint32] and [PutUint64] write. *)
Definition PutUint32 : Z → bytes := be_bytes 4.
Definition PutUint64 : Z → bytes := be_bytes 8.

Definition buildCanonicalTfhd (trackID sampleDescriptionIndex : Z) : bytes :=
  PutUint32 canonicalTfhdSize ++ PutUint32 boxTfhd ++
  PutUint32 (Z.lor tfhdSampleDescriptionIndexPresent tfhdDefaultBaseIsMoof) ++
  PutUint32 trackID ++ PutUint32 sampleDescriptionIndex.

Definition readTfdt (box : bytes) (headerSize : Z) : go (option Z) :=
  if len box <? headerSize + 8 then Ok None else
  version ← checked (idx box headerSize);
  let offset := headerSize + 4 in
  if version =? 1 then
    if len box <? offset + 8 then Ok None else v ← Uint64 box offset; Ok (Some v)
  else if version =? 0 then
    if len box <? offset + 4 then Ok None else v ← Uint32 box offset; Ok (Some v)
  else Ok None.

(** ** Runs of samples *)

Definition isSyncSample (flags : Z) : bool :=
  negb (has_flag flags 0x00010000) && negb (Z.land (Z.shiftr flags 24) 3 =? 1).

(** How the fields of a sample are found. *)
Record trun_layout := mkLayout { l_duration : bool; l_size : bool; l_flags : bool; l_composition : bool;
  l_defaultDuration : Z; l_defaultSize : Z; l_defaultFlags : Z; l_firstFlags : option Z }.

(** The flags of a sample that does not bring its own; [first] for the first sample. *)
Definition flags_of (l : trun_layout) (first : bool) (read : option Z) : Z :=
  match read with
  | Some v => v
  | None => if first then default (l_defaultFlags l) (l_firstFlags l) else l_defaultFlags l
  end.

(** [n] turns of the loop over the samples. *)
Fixpoint samples_loop (n : nat) (first : bool) (box : bytes) (l : trun_layout) (cursor duration dataSize : Z) :
    go (list mp4Sample * Z * Z * Z) :=
  match n with
  | O => Ok ([], cursor, duration, dataSize)
  | S n =>
      '(d, cursor) ← read_field (l_duration l) box cursor "invalid trun sample_duration";
      '(s, cursor) ← read_field (l_size l) box cursor "invalid trun sample_size";
      '(fl, cursor) ← read_field (l_flags l) box cursor "invalid trun sample_flags";
      '(c, cursor) ← read_field (l_composition l) box cursor "invalid trun composition_time_offset";
      let sample := mkSample (default (l_defaultDuration l) d) (default (l_defaultSize l) s) (flags_of l first fl) (default 0 c) in
      _ ← demand (negb (MaxUint64 - duration <? sm_duration sample)) "trun duration overflow";
      _ ← demand (negb (MaxUint64 - dataSize <? sm_size sample)) "trun payload size overflow";
      '(samples, cursor, duration, dataSize) ← samples_loop n false box l cursor (duration + sm_duration sample) (dataSize + sm_size sample);
      Ok (sample :: samples, cursor, duration, dataSize)
  end.

Definition normalizeTrun (box : bytes) (headerSize defaultDuration defaultSize defaultFlags : Z)
    (defaultDurationIsHint : bool) : go mp4Run :=
  if len box <? headerSize + 8 then Err "trun is too small" else
  versionFlags ← Uint32 box headerSize;
  let version := u8 (Z.shiftr versionFlags 24) in
  let flags := Z.land versionFlags 0x00ffffff in
  _ ← demand (version <=? 1) "unsupported trun version";
  _ ← demand (Z.ldiff flags knownTrunFlags =? 0) "unsupported trun flags";
  sampleCount ← Uint32 box (headerSize + 4);
  _ ← demand (negb (sampleCount =? 0)) "trun sample_count is zero";
  '(offset, cursor) ← read_field (has_flag flags trunDataOffsetPresent) box (headerSize + 8) "invalid trun data_offset";
  let hasSampleFlags := has_flag flags trunSampleFlagsPresent in
  let hasFirst := has_flag flags trunFirstSampleFlagsPresent in
  _ ← demand (negb (hasFirst && hasSampleFlags)) "trun first_sample_flags and sample_flags are both present";
  '(firstFlags, cursor) ← read_field hasFirst box cursor "invalid trun first_sample_flags";
  let hasDuration := has_flag flags trunSampleDurationPresent in
  let hasSize := has_flag flags trunSampleSizePresent in
  let hasComposition := has_flag flags trunCompositionTimeOffsetPresent in
  _ ← demand (negb (negb hasDuration && (defaultDuration =? 0))) "sample duration is absent";
  _ ← demand (negb (negb hasSize && (defaultSize =? 0))) "sample size is absent";
  _ ← demand (sampleCount <=? maxTrunSamples) "trun sample_count exceeds safety limit";
  let fields := Z.b2z hasDuration + Z.b2z hasSize + Z.b2z hasSampleFlags + Z.b2z hasComposition in
  _ ← demand (cursor + sampleCount * fields * 4 =? len box) "invalid trun body";
  let l := mkLayout hasDuration hasSize hasSampleFlags hasComposition defaultDuration defaultSize defaultFlags firstFlags in
  '(samples, cursor, duration, dataSize) ← samples_loop (Z.to_nat sampleCount) true box l cursor 0 0;
  _ ← demand (negb (negb (cursor =? len box) || (duration =? 0) || (dataSize =? 0))) "invalid trun body";
  Ok (mkRun (i32 <$> offset) samples version hasComposition duration dataSize 0 0
        (match samples with s :: _ => isSyncSample (sm_flags s) | [] => isSyncSample 0 end)
        (negb hasDuration && defaultDurationIsHint)).

(** ** The fragment of one track *)

(** The first pass over the boxes of a [traf]: its header and decode time. *)
Fixpoint traf_heads (bs : list box) (tfhd : option tfhdInfo) (tfdt : option Z) : go (option tfhdInfo * option Z) :=
  match bs with
  | [] => Ok (tfhd, tfdt)
  | b :: bs =>
      if b_type b =? boxTfhd then
        match tfhd with
        | Some _ => Err "duplicate tfhd"
        | None => value ← parseTfhd (b_data b) (b_header b); traf_heads bs (Some value) tfdt
        end
      else if b_type b =? boxTfdt then
        match tfdt with
        | Some _ => Err "duplicate tfdt"
        | None =>
            value ← readTfdt (b_data b) (b_header b);
            match value with Some v => traf_heads bs tfhd (Some v) | None => Err "invalid tfdt" end
        end
      else if b_type b =? boxTrun then traf_heads bs tfhd tfdt
      else Err "unsupported box inside traf"
  end.

(** The second pass: the runs, with the duration so far. *)
Fixpoint traf_runs (bs : list box) (d s fl : Z) (hint : bool) (duration : Z) : go (list mp4Run * Z) :=
  match bs with
  | [] => Ok ([], duration)
  | b :: bs =>
      if negb (b_type b =? boxTrun) then traf_runs bs d s fl hint duration
      else
        run ← normalizeTrun (b_data b) (b_header b) d s fl hint;
        _ ← demand (negb (MaxUint64 - duration <? ru_duration run)) "fragment duration overflow";
        '(runs, duration) ← traf_runs bs d s fl hint (duration + ru_duration run);
        Ok (run :: runs, duration)
  end.

Definition parseTraf (traf : bytes) (trafHeader : Z) (video audio : trackInfo) (videoHint audioHint : Z) : go mp4Fragment :=
  bs ← boxes_in traf trafHeader;
  '(tfhd, tfdt) ← traf_heads bs None None;
  match tfhd, tfdt with
  | Some h, Some decodeTime =>
      '(track, hint) ←
        (if h_trackID h =? tr_id video then Ok (video, videoHint)
         else if negb (tr_id audio =? 0) && (h_trackID h =? tr_id audio) then Ok (audio, audioHint)
         else Err "unsupported track_ID");
      _ ← demand (negb (tr_timescale track =? 0)) "timescale is zero";
      let trex := tr_trex track in
      let index := default (x_descriptionIndex trex) (h_sampleDescriptionIndex h) in
      _ ← demand (negb (index =? 0)) "sample description index is absent";
      let known := if h_defaultDuration h =? 0 then x_duration trex else h_defaultDuration h in
      let d := if known =? 0 then hint else known in
      let isHint := (known =? 0) && negb (d =? 0) in
      let s := if h_defaultSize h =? 0 then x_size trex else h_defaultSize h in
      let fl := default (x_flags trex) (h_defaultFlags h) in
      bs ← boxes_in traf trafHeader;
      '(runs, duration) ← traf_runs bs d s fl isHint 0;
      match runs with
      | first :: _ =>
          _ ← demand (negb (duration =? 0)) "trun/duration was not found";
          Ok (mkFragment (h_trackID h) (tr_timescale track) decodeTime duration (ru_startsWithSync first) index
                (buildCanonicalTfhd (h_trackID h) index) runs 0 0 (existsb ru_hasInferredDuration runs))
      | [] => Err "trun/duration was not found"
      end
  | _, _ => Err "tfhd/tfdt was not found"
  end.

(** The loop over the boxes of the [moof], with the fragment found so far. *)
Fixpoint moof_loop (bs : list box) (video audio : trackInfo) (videoHint audioHint : Z) (dst : option mp4Fragment) :
    go (option mp4Fragment) :=
  match bs with
  | [] => Ok dst
  | b :: bs =>
      if negb (b_type b =? boxTraf) then moof_loop bs video audio videoHint audioHint dst
      else
        match dst with
        | Some _ => Err "source moof must contain one traf"
        | None =>
            f ← parseTraf (b_data b) (b_header b) video audio videoHint audioHint;
            moof_loop bs video audio videoHint audioHint (Some f)
        end
  end.

Definition parseSourceMoof (moof : bytes) (video audio : trackInfo) (videoHint audioHint : Z) : go mp4Fragment :=
  root ← tryReadBox moof 0;
  match root with
  | None => Err "buffer does not contain exactly one moof"
  | Some root =>
      _ ← demand ((b_type root =? boxMoof) && (b_next root =? len moof)) "buffer does not contain exactly one moof";
      bs ← boxes_in (b_data root) (b_header root);
      dst ← moof_loop bs video audio videoHint audioHint None;
      match dst with Some f => Ok f | None => Err "traf was not found" end
  end.

(** ** The tracks of the header *)

Definition readHandlerType (box : bytes) (header : Z) : go Z :=
  let offset := header + 8 in
  if offset + 4 <=? len box then Uint32 box offset else Ok 0.

(** [readTkhdTrackID] and [readMdhdTimescale]: a number behind times of 4 or 8 bytes. *)
Definition after_times (box : bytes) (header : Z) : go Z :=
  if len box <=? header then Ok 0 else
  version ← checked (idx box header);
  if version =? 1 then if header + 24 <=? len box then Uint32 box (header + 20) else Ok 0
  else if version =? 0 then if header + 16 <=? len box then Uint32 box (header + 12) else Ok 0
  else Ok 0.
Definition readTkhdTrackID : bytes → Z → go Z := after_times.
Definition readMdhdTimescale : bytes → Z → go Z := after_times.

Fixpoint mdia_loop (bs : list box) (timescale handler : Z) : go (Z * Z) :=
  match bs with
  | [] => Ok (timescale, handler)
  | b :: bs =>
      if b_type b =? boxMdhd then t ← readMdhdTimescale (b_data b) (b_header b); mdia_loop bs t handler
      else if b_type b =? boxHdlr then h ← readHandlerType (b_data b) (b_header b); mdia_loop bs timescale h
      else mdia_loop bs timescale handler
  end.

Fixpoint trak_loop (bs : list box) (trackID timescale handler : Z) : go (Z * Z * Z) :=
  match bs with
  | [] => Ok (trackID, timescale, handler)
  | b :: bs =>
      if b_type b =? boxTkhd then id ← readTkhdTrackID (b_data b) (b_header b); trak_loop bs id timescale handler
      else if negb (b_type b =? boxMdia) then trak_loop bs trackID timescale handler
      else
        cs ← boxes_in (b_data b) (b_header b);
        '(timescale, handler) ← mdia_loop cs timescale handler;
        trak_loop bs trackID timescale handler
  end.

Definition readTrack (trak : bytes) (trakHeader : Z) : go (Z * Z * Z) :=
  bs ← boxes_in trak trakHeader; trak_loop bs 0 0 0.

Definition readTrex (box : bytes) (header : Z) : go (option (Z * trexInfo)) :=
  if len box <? header + 24 then Ok None else
  trackID ← Uint32 box (header + 4);
  descriptionIndex ← Uint32 box (header + 8);
  if (trackID =? 0) || (descriptionIndex =? 0) then Ok None
  else
    d ← Uint32 box (header + 12);
    s ← Uint32 box (header + 16);
    fl ← Uint32 box (header + 20);
    Ok (Some (trackID, mkTrex descriptionIndex d s fl)).

Fixpoint mvex_loop (bs : list box) : go (list (Z * trexInfo)) :=
  match bs with
  | [] => Ok []
  | b :: bs =>
      if negb (b_type b =? boxTrex) then mvex_loop bs
      else
        e ← readTrex (b_data b) (b_header b);
        match e with Some e => es ← mvex_loop bs; Ok (e :: es) | None => Err "invalid trex" end
  end.

Definition findTrex (entries : list (Z * trexInfo)) (trackID : Z) : trexInfo :=
  match List.find (λ e, e.1 =? trackID) entries with Some e => e.2 | None => noTrex end.

(** What the loop over the [moov] has found: the tracks as identifier and time scale. *)
Record moov_state := mkMoov { m_video : Z * Z; m_audio : Z * Z; m_trex : list (Z * trexInfo) }.

Fixpoint moov_loop (bs : list box) (m : moov_state) : go moov_state :=
  match bs with
  | [] => Ok m
  | b :: bs =>
      if b_type b =? boxTrak then
        '(trackID, timescale, handler) ← readTrack (b_data b) (b_header b);
        if handler =? handlerVideo then
          _ ← demand ((m_video m).1 =? 0) "multiple video tracks in mp4mux output";
          moov_loop bs (mkMoov (trackID, timescale) (m_audio m) (m_trex m))
        else if handler =? handlerAudio then
          _ ← demand ((m_audio m).1 =? 0) "multiple audio tracks in mp4mux output";
          moov_loop bs (mkMoov (m_video m) (trackID, timescale) (m_trex m))
        else moov_loop bs m
      else if negb (b_type b =? boxMvex) then moov_loop bs m
      else
        cs ← boxes_in (b_data b) (b_header b);
        es ← mvex_loop cs;
        moov_loop bs (mkMoov (m_video m) (m_audio m) (m_trex m ++ es))
  end.

(** The box of a type and its header. *)
Fixpoint findBox_loop (fuel : nat) (data : bytes) (requiredType position : Z) : go (option (bytes * Z)) :=
  match fuel with
  | O => Crash
  | S fuel =>
      if position <? len data then
        r ← tryReadBox data position;
        match r with
        | None => Ok None
        | Some b =>
            if negb (b_type b =? requiredType) then findBox_loop fuel data requiredType (b_next b)
            else d ← checked (slice data position (b_next b)); Ok (Some (d, b_header b))
        end
      else Ok None
  end.
Definition findBox (data : bytes) (requiredType : Z) : go (option (bytes * Z)) :=
  findBox_loop (S (length data)) data requiredType 0.

Definition parseInitTracks (init : bytes) : go (trackInfo * trackInfo) :=
  r ← findBox init boxMoov;
  match r with
  | None => Err "moov was not found"
  | Some (moov, moovHeader) =>
      bs ← boxes_in moov moovHeader;
      m ← moov_loop bs (mkMoov (0, 0) (0, 0) []);
      let '(videoID, videoTimescale) := m_video m in
      let '(audioID, audioTimescale) := m_audio m in
      _ ← demand (negb ((videoID =? 0) || (videoTimescale =? 0))) "video track was not found through hdlr=vide";
      let video := mkTrack videoID videoTimescale (findTrex (m_trex m) videoID) in
      if negb (audioID =? 0) then
        _ ← demand (negb (audioTimescale =? 0)) "audio timescale is zero";
        Ok (video, mkTrack audioID audioTimescale (findTrex (m_trex m) audioID))
      else Ok (video, noTrack)
  end.
