(* ===== verification/FragTrack.v ===== *)
(** * Fragments of a stream: tracks and segments ([server/gstreamer/mp4box.go])

    Fragments wait in one queue per track until they make a segment.  This file holds
    what is done with queued fragments: choosing those of a segment, splitting a
    fragment of sound where the picture ends, and writing the segment's header. *)

From Stdlib Require Import SpecFloat.
From S2P Require Import Prelude GoText Encoding GoFloat Segment FragBox.
#[local] Open Scope Z_scope.

Definition MaxInt64 : Z := two63 - 1.

(** ** Time *)

Definition toUnits (seconds : float64) (timescale : Z) : go Z :=
  let value := fmul seconds (of_int timescale) in
  if negb (is_finite_float value) || flt value (of_int 0) || flt (of_int two64) value then Err "invalid timeline value"
  else Ok (to_uint64 (Ceil value)).

Definition timelineNanoseconds (value timescale : Z) : go Z :=
  if timescale =? 0 then Err "timeline timescale is zero"
  else
    let seconds := value / timescale in
    let remainder := value mod timescale in
    if MaxUint64 / 1000000000 <? seconds then Err "timeline nanoseconds overflow"
    else
      let nanoseconds := u64 (seconds * 1000000000) in
      let fraction := u64 (remainder * 1000000000) / timescale in
      if MaxUint64 - nanoseconds <? fraction then Err "timeline nanoseconds overflow"
      else Ok (nanoseconds + fraction).

Definition addTfdtOffset (value timescale : Z) (seconds : float64) : go Z :=
  if SFleb seconds (of_int 0) then Ok value
  else
    let units := fmul seconds (of_int timescale) in
    if negb (is_finite_float units) || flt units (of_int 0) || flt (of_int two64) units then Err "invalid tfdt offset"
    else
      let offset := to_uint64 (Round units) in
      if MaxUint64 - value <? offset then Err "tfdt offset overflow" else Ok (value + offset).

(** [bits.Mul64]: the high and the low word of a product. *)
Definition Mul64 (x y : Z) : Z * Z := (x * y / two64, x * y mod two64).

Definition scaledGreaterOrEqual (left leftScale right rightScale : Z) : bool :=
  let '(leftHi, leftLo) := Mul64 left leftScale in
  let '(rightHi, rightLo) := Mul64 right rightScale in
  if negb (leftHi =? rightHi) then rightHi <? leftHi else rightLo <=? leftLo.

(** ** Durations that were guessed *)

(** The last non-zero duration of a list of samples, latest first. *)
Definition last_duration (samples : list mp4Sample) : option Z :=
  sm_duration <$> List.find (λ s, negb (sm_duration s =? 0)) (rev samples).

Fixpoint last_of_runs (runs : list mp4Run) : Z :=
  match runs with
  | [] => 0
  | run :: earlier => match last_duration (ru_samples run) with Some d => d | None => last_of_runs earlier end
  end.
Definition lastSampleDuration (f : mp4Fragment) : Z := last_of_runs (rev (f_runs f)).

Definition set_samples (samples : list mp4Sample) (duration : Z) (run : mp4Run) : mp4Run :=
  mkRun (ru_sourceDataOffset run) samples (ru_version run) (ru_hasCompositionTimeOffsets run) duration (ru_dataSize run)
    (ru_payloadOffset run) (ru_outputOffset run) (ru_startsWithSync run) (ru_hasInferredDuration run).
Definition clear_inferred (run : mp4Run) : mp4Run :=
  mkRun (ru_sourceDataOffset run) (ru_samples run) (ru_version run) (ru_hasCompositionTimeOffsets run) (ru_duration run)
    (ru_dataSize run) (ru_payloadOffset run) (ru_outputOffset run) (ru_startsWithSync run) false.
Definition set_duration (s : mp4Sample) (d : Z) : mp4Sample := mkSample d (sm_size s) (sm_flags s) (sm_compositionTimeOffsetRaw s).

(** The runs, latest first, with the last sample of the latest inferred run changed:
    [f] is given its duration, and says the new one. *)
Fixpoint change_inferred (runs : list mp4Run) (f : Z → go Z) : go (list mp4Run * Z * Z) :=
  match runs with
  | [] => Err "inferred sample duration marker is missing"
  | run :: earlier =>
      if ru_hasInferredDuration run then
        match rev (ru_samples run) with
        | [] => Err "inferred sample duration marker is missing"
        | sample :: before =>
            let old := sm_duration sample in
            exact ← f old;
            Ok (set_samples (rev (set_duration sample exact :: before)) (u64 (ru_duration run - old + exact)) run :: earlier, old, exact)
        end
      else '(earlier, old, exact) ← change_inferred earlier f; Ok (run :: earlier, old, exact)
  end.

(** [resolvePreviousInferredDuration] on the last fragment of the track: the duration of
    its last sample, if it was guessed, reaches to the decode time of the next fragment. *)
Definition resolve_inferred (previous : mp4Fragment) (currentDecodeTime : Z) : go (mp4Fragment * Z) :=
  '(runs, old, exact) ← change_inferred (rev (f_runs previous)) (λ old,
    if f_duration previous <? old then Err "invalid inferred sample duration"
    else
      let sampleStart := u64 (f_decodeTime previous + f_duration previous - old) in
      if currentDecodeTime <? sampleStart then Err "inferred sample moves decode time backwards"
      else
        let exactDuration := currentDecodeTime - sampleStart in
        if MaxUint32 <? exactDuration then Err "inferred sample duration exceeds uint32" else Ok exactDuration);
  Ok (mkFragment (f_trackID previous) (f_timescale previous) (f_decodeTime previous) (u64 (f_duration previous - old + exact))
        (f_startsWithSync previous) (f_sampleDescriptionIndex previous) (f_tfhd previous)
        (clear_inferred <$> rev runs) (f_payloadStart previous) (f_payloadLen previous) false, exact).

(** ** Payload of a fragment *)

Definition set_offset (offset : Z) (run : mp4Run) : mp4Run :=
  mkRun (ru_sourceDataOffset run) (ru_samples run) (ru_version run) (ru_hasCompositionTimeOffsets run) (ru_duration run)
    (ru_dataSize run) offset (ru_outputOffset run) (ru_startsWithSync run) (ru_hasInferredDuration run).

Fixpoint place_runs (runs : list mp4Run) (payloadFromMoof expected : Z) : go (list mp4Run * Z) :=
  match runs with
  | [] => Ok ([], expected)
  | run :: runs =>
      let offset := match ru_sourceDataOffset run with Some o => i64 (o - payloadFromMoof) | None => expected end in
      _ ← demand (offset =? expected) "non-contiguous source mdat";
      _ ← demand (ru_dataSize run <=? MaxInt64) "trun payload is too large";
      '(runs, expected) ← place_runs runs payloadFromMoof (i64 (offset + ru_dataSize run));
      Ok (set_offset offset run :: runs, expected)
  end.

Definition attachPayload (f : mp4Fragment) (payloadStart payloadLen payloadFromMoof : Z) : go mp4Fragment :=
  _ ← demand (negb ((payloadStart <? 0) || (payloadLen <? 0))) "negative source mdat payload range";
  '(runs, expected) ← place_runs (f_runs f) payloadFromMoof 0;
  _ ← demand (expected =? payloadLen) "source mdat size mismatch";
  Ok (mkFragment (f_trackID f) (f_timescale f) (f_decodeTime f) (f_duration f) (f_startsWithSync f)
        (f_sampleDescriptionIndex f) (f_tfhd f) runs payloadStart payloadLen (f_hasInferredDuration f)).

(** ** Splitting a fragment *)

Fixpoint fragment_samples (runs : list mp4Run) (total : Z) : go Z :=
  match runs with
  | [] => Ok total
  | run :: runs =>
      match ru_samples run with
      | [] => Err "fragment trun has no parsed samples"
      | samples => fragment_samples runs (total + len samples)
      end
  end.
Definition fragmentSampleCount (f : mp4Fragment) : go Z :=
  total ← fragment_samples (f_runs f) 0;
  if total =? 0 then Err "fragment contains no samples" else Ok total.

Fixpoint explicit_sums (samples : list mp4Sample) (duration dataSize : Z) : go (Z * Z) :=
  match samples with
  | [] => Ok (duration, dataSize)
  | s :: samples =>
      _ ← demand (negb (MaxUint64 - duration <? sm_duration s)) "derived trun duration overflow";
      _ ← demand (negb (MaxUint64 - dataSize <? sm_size s)) "derived trun payload size overflow";
      explicit_sums samples (duration + sm_duration s) (dataSize + sm_size s)
  end.

Definition buildExplicitRun (template : mp4Run) (samples : list mp4Sample) : go mp4Run :=
  match samples with
  | [] => Err "cannot build trun without samples"
  | first :: _ =>
      '(duration, dataSize) ← explicit_sums samples 0 0;
      _ ← demand (negb ((duration =? 0) || (dataSize =? 0))) "invalid derived trun";
      Ok (mkRun None samples (ru_version template) (ru_hasCompositionTimeOffsets template) duration dataSize 0 0
            (isSyncSample (sm_flags first)) false)
  end.

(** One side of a split: its runs, bytes and duration so far. *)
Record side := mkSide { d_runs : list mp4Run; d_bytes : Z; d_duration : Z }.

Definition add_run (sourceRun : mp4Run) (samples : list mp4Sample) (e : string) (d : side) : go side :=
  run ← buildExplicitRun sourceRun samples;
  _ ← demand (negb ((MaxInt64 <? d_bytes d) || (MaxInt64 - d_bytes d <? ru_dataSize run))) e;
  Ok (mkSide (d_runs d ++ [set_offset (d_bytes d) run]) (d_bytes d + ru_dataSize run) (u64 (d_duration d + ru_duration run))).

Fixpoint split_loop (runs : list mp4Run) (remaining : Z) (l r : side) : go (Z * side * side) :=
  match runs with
  | [] => Ok (remaining, l, r)
  | run :: runs =>
      _ ← demand (negb (len (ru_samples run) =? 0)) "cannot split a run without parsed samples";
      let take := if 0 <? remaining then Z.min remaining (len (ru_samples run)) else 0 in
      '(remaining, l) ←
        (if 0 <? take then
           s ← checked (slice (ru_samples run) 0 take);
           l ← add_run run s "left audio payload offset overflow" l;
           Ok (remaining - take, l)
         else Ok (remaining, l));
      r ←
        (if take <? len (ru_samples run) then
           s ← checked (slice_from (ru_samples run) take);
           add_run run s "right audio payload offset overflow" r
         else Ok r);
      split_loop runs remaining l r
  end.

Definition starts_sync (runs : list mp4Run) : bool := match runs with run :: _ => ru_startsWithSync run | [] => false end.

Definition splitFragmentAtSample (f : mp4Fragment) (splitSamples : Z) : go (mp4Fragment * mp4Fragment) :=
  totalSamples ← fragmentSampleCount f;
  _ ← demand (negb ((splitSamples <=? 0) || (totalSamples <=? splitSamples))) "split sample must be inside fragment";
  '(remaining, l, r) ← split_loop (f_runs f) splitSamples (mkSide [] 0 0) (mkSide [] 0 0);
  _ ← demand (negb (negb (remaining =? 0) || (len (d_runs l) =? 0) || (len (d_runs r) =? 0)))
        "failed to partition fragment runs";
  _ ← demand (u64 (d_duration l + d_duration r) =? f_duration f) "split fragment duration mismatch";
  _ ← demand (u64 (d_bytes l + d_bytes r) =? u64 (f_payloadLen f)) "split payload mismatch";
  _ ← demand (d_bytes l <=? u64 (f_payloadLen f)) "left payload exceeds source payload";
  let splitByte := i64 (d_bytes l) in
  _ ← demand (negb (MaxUint64 - f_decodeTime f <? d_duration l)) "right fragment decode time overflow";
  let part decodeTime d start n :=
    mkFragment (f_trackID f) (f_timescale f) decodeTime (d_duration d) (starts_sync (d_runs d)) (f_sampleDescriptionIndex f)
      (f_tfhd f) (d_runs d) start n false in
  Ok (part (f_decodeTime f) l (f_payloadStart f) splitByte,
      part (f_decodeTime f + d_duration l) r (f_payloadStart f + splitByte) (f_payloadLen f - splitByte)).

(** ** Choosing the sound of a segment *)

(** The samples of a run until the sound reaches the end of the picture: how many, and
    whether it does; else the end of the sound and the count. *)
Fixpoint reach_in_run (samples : list mp4Sample) (videoEnd timescale videoTimescale audioEnd count : Z) : go (Z * Z * bool) :=
  match samples with
  | [] => Ok (audioEnd, count, false)
  | s :: samples =>
      _ ← demand (negb (MaxUint64 - audioEnd <? sm_duration s)) "audio sample timeline overflow";
      let audioEnd := audioEnd + sm_duration s in
      let count := count + 1 in
      if scaledGreaterOrEqual audioEnd videoTimescale videoEnd timescale then Ok (audioEnd, count, true)
      else reach_in_run samples videoEnd timescale videoTimescale audioEnd count
  end.

Fixpoint reach_in_runs (runs : list mp4Run) (videoEnd timescale videoTimescale audioEnd count : Z) : go (Z * Z * bool) :=
  match runs with
  | [] => Ok (audioEnd, count, false)
  | run :: runs =>
      _ ← demand (negb (len (ru_samples run) =? 0)) "audio trun has no parsed samples";
      '(audioEnd, count, reached) ← reach_in_run (ru_samples run) videoEnd timescale videoTimescale audioEnd count;
      if (reached : bool) then Ok (audioEnd, count, true)
      else reach_in_runs runs videoEnd timescale videoTimescale audioEnd count
  end.

Definition findAudioSplitSampleCount (f : mp4Fragment) (videoEnd videoTimescale : Z) : go (Z * bool) :=
  _ ← demand (negb ((f_timescale f =? 0) || (videoTimescale =? 0))) "audio/video timescale is zero";
  '(audioEnd, count, reached) ← reach_in_runs (f_runs f) videoEnd (f_timescale f) videoTimescale (f_decodeTime f) 0;
  if (reached : bool) then Ok (count, true)
  else
    _ ← demand (audioEnd =? endTime f) "audio sample durations do not match fragment duration";
    Ok (count, false).

(** [selectAudioCount]: the queue, with the last fragment split where it must be, and how
    many fragments to take; [i] are behind. *)
Fixpoint select_audio (audio : list mp4Fragment) (videoEnd videoTimescale i : Z) : go (list mp4Fragment * Z) :=
  match audio with
  | [] => Ok ([], 0)
  | f :: rest =>
      '(splitSamples, reached) ← findAudioSplitSampleCount f videoEnd videoTimescale;
      if negb reached then
        '(rest, n) ← select_audio rest videoEnd videoTimescale (i + 1);
        Ok (f :: rest, n)
      else
        totalSamples ← fragmentSampleCount f;
        _ ← demand (negb ((splitSamples <=? 0) || (totalSamples <? splitSamples))) "invalid audio split sample count";
        if splitSamples <? totalSamples then
          '(l, r) ← splitFragmentAtSample f splitSamples;
          Ok (l :: r :: rest, i + 1)
        else Ok (f :: rest, i + 1)
  end.

(** ** Choosing the pictures of a segment *)

(** The loop of [selectVideoCount] over the fragments and their successors. *)
Fixpoint video_loop (takeFirst : bool) (target : Z) (video : list mp4Fragment) (i duration selected : Z) : Z :=
  match video with
  | f :: ((next :: _) as rest) =>
      let duration := u64 (duration + f_duration f) in
      if negb takeFirst then
        if (target <=? duration) && f_startsWithSync next then i + 1
        else video_loop takeFirst target rest (i + 1) duration selected
      else if duration <=? target then
        if f_startsWithSync next then
          if duration =? target then i + 1 else video_loop takeFirst target rest (i + 1) duration (i + 1)
        else video_loop takeFirst target rest (i + 1) duration selected
      else if 0 <? selected then selected
      else if f_startsWithSync next then i + 1
      else video_loop takeFirst target rest (i + 1) duration selected
  | _ => 0
  end.

Definition firstPresentationTime (f : mp4Fragment) : go Z :=
  match f_runs f with
  | (mkRun _ (sample :: _) _ _ _ _ _ _ _ _ as run) :: _ =>
      let raw := sm_compositionTimeOffsetRaw sample in
      let offset := if ru_version run =? 1 then i32 raw else raw in
      _ ← demand (f_decodeTime f <=? MaxInt64) "video decode time exceeds int64";
      let result := f_decodeTime f in
      _ ← demand (negb ((0 <? offset) && (MaxInt64 - offset <? result))) "presentation time overflow";
      _ ← demand (negb ((offset <? 0) && (result <? - two63 - offset))) "presentation time underflow";
      Ok (result + offset)
  | _ => Err "video fragment has no first sample"
  end.

(** The loop of [selectCueVideoCount] from fragment [i] on. *)
Fixpoint cue_loop (video : list mp4Fragment) (first timescale target tolerance i : Z) : go Z :=
  match video with
  | [] => Ok 0
  | boundary :: rest =>
      if negb (f_startsWithSync boundary) then cue_loop rest first timescale target tolerance (i + 1)
      else
        p ← firstPresentationTime boundary;
        _ ← demand (first <? p) "cue presentation timeline is not increasing";
        durationNS ← timelineNanoseconds (u64 (p - first)) timescale;
        if (durationNS <? target) && (tolerance <? target - durationNS)
        then cue_loop rest first timescale target tolerance (i + 1)
        else Ok i
  end.

(** ** Writing a segment *)

Fixpoint same_track (first : mp4Fragment) (expected : Z) (fs : list mp4Fragment) : bool :=
  match fs with
  | [] => true
  | f :: fs =>
      (f_trackID f =? f_trackID first) && (f_timescale f =? f_timescale first) && (f_decodeTime f =? expected) &&
      (f_sampleDescriptionIndex f =? f_sampleDescriptionIndex first) && bool_decide (f_tfhd f = f_tfhd first) &&
      same_track first (endTime f) fs
  end.

Definition validateTrack (fragments : list mp4Fragment) (count : Z) : go () :=
  if (count <=? 0) || (len fragments <? count) then Err "invalid fragment count"
  else
    match take (Z.to_nat count) fragments with
    | first :: fs => demand (same_track first (endTime first) fs) "fragments cannot be merged into one traf"
    | [] => Crash
    end.

Definition set_output (base : Z) (run : mp4Run) : mp4Run :=
  mkRun (ru_sourceDataOffset run) (ru_samples run) (ru_version run) (ru_hasCompositionTimeOffsets run) (ru_duration run)
    (ru_dataSize run) (ru_payloadOffset run) (i64 (base + ru_payloadOffset run)) (ru_startsWithSync run) (ru_hasInferredDuration run).
Definition set_runs (runs : list mp4Run) (f : mp4Fragment) : mp4Fragment :=
  mkFragment (f_trackID f) (f_timescale f) (f_decodeTime f) (f_duration f) (f_startsWithSync f) (f_sampleDescriptionIndex f)
    (f_tfhd f) runs (f_payloadStart f) (f_payloadLen f) (f_hasInferredDuration f).

(** [assignOffsets] for the first [n] fragments. *)
Fixpoint assignOffsets (fragments : list mp4Fragment) (n : nat) (outputOffset : Z) : list mp4Fragment * Z :=
  match n, fragments with
  | S n, f :: fs =>
      let '(fs, out) := assignOffsets fs n (i64 (outputOffset + f_payloadLen f)) in
      (set_runs (set_output outputOffset <$> f_runs f) f :: fs, out)
  | _, fs => (fs, outputOffset)
  end.

Definition entry_size (run : mp4Run) : Z := if ru_hasCompositionTimeOffsets run then 16 else 12.
Definition canonicalTrunSize (run : mp4Run) : Z := 20 + len (ru_samples run) * entry_size run.

Definition runs_size (runs : list mp4Run) : Z := foldr (λ run size, canonicalTrunSize run + size) 0 runs.
Definition getTrafSize (fragments : list mp4Fragment) : Z :=
  8 + len (match fragments with f :: _ => f_tfhd f | [] => [] end) + 20 + foldr (λ f size, runs_size (f_runs f) + size) 0 fragments.

Definition write_sample (composition : bool) (s : mp4Sample) : bytes :=
  PutUint32 (sm_duration s) ++ PutUint32 (sm_size s) ++ PutUint32 (sm_flags s) ++
  if composition then PutUint32 (sm_compositionTimeOffsetRaw s) else [].

Definition canonical_flags (composition : bool) : Z := if composition then 0xf01 else 0x701.

Definition writeCanonicalTrun (run : mp4Run) (dataOffset : Z) : go bytes :=
  _ ← demand (negb (len (ru_samples run) =? 0)) "cannot write trun without samples";
  _ ← demand (ru_version run <=? 1) "unsupported trun version";
  let size := canonicalTrunSize run in
  _ ← demand (size <=? MaxUint32) "canonical trun is too large";
  let composition := ru_hasCompositionTimeOffsets run in
  Ok (PutUint32 size ++ PutUint32 boxTrun ++
      PutUint32 (Z.lor (Z.shiftl (ru_version run) 24) (canonical_flags composition)) ++
      PutUint32 (len (ru_samples run)) ++ PutUint32 dataOffset ++ concat (write_sample composition <$> ru_samples run)).

Definition writeHeader (size boxType : Z) : bytes := PutUint32 size ++ PutUint32 boxType.
Definition writeTfdt (decodeTime : Z) : bytes := writeHeader 20 boxTfdt ++ PutUint32 0x01000000 ++ PutUint64 decodeTime.
Definition writeMfhd (sequence : Z) : bytes := writeHeader 16 boxMfhd ++ PutUint32 0 ++ PutUint32 sequence.
Definition writeMdatHeader (payloadLength headerSize : Z) : bytes :=
  if headerSize =? 8 then writeHeader (payloadLength + 8) boxMdat
  else PutUint32 1 ++ PutUint32 boxMdat ++ PutUint64 (payloadLength + 16).

Fixpoint write_runs (runs : list mp4Run) (moofSize mdatHeaderSize : Z) : go bytes :=
  match runs with
  | [] => Ok []
  | run :: runs =>
      let dataOffset := moofSize + mdatHeaderSize + ru_outputOffset run in
      _ ← demand (negb ((dataOffset <? - 2147483648) || (MaxInt32 <? dataOffset))) "trun.data_offset exceeds int32";
      b ← writeCanonicalTrun run dataOffset;
      bs ← write_runs runs moofSize mdatHeaderSize;
      Ok (b ++ bs)
  end.

(** [writeTraf] for all of [fragments]. *)
Definition writeTraf (tfdtOffsetSeconds : float64) (fragments : list mp4Fragment) (moofSize mdatHeaderSize : Z) : go bytes :=
  let size := getTrafSize fragments in
  _ ← demand (size <=? MaxUint32) "combined traf is too large";
  match fragments with
  | [] => Crash
  | first :: _ =>
      decodeTime ← addTfdtOffset (f_decodeTime first) (f_timescale first) tfdtOffsetSeconds;
      runs ← write_runs (concat (f_runs <$> fragments)) moofSize mdatHeaderSize;
      Ok (writeHeader size boxTraf ++ f_tfhd first ++ writeTfdt decodeTime ++ runs)
  end.

(** [appendFragmentPayloadRanges] for all of [fragments]. *)
Fixpoint payload_ranges (storage : bytes) (fragments : list mp4Fragment) : go (list bytes) :=
  match fragments with
  | [] => Ok []
  | f :: fs =>
      if f_payloadLen f =? 0 then payload_ranges storage fs
      else
        _ ← demand (negb ((f_payloadStart f <? 0) || (f_payloadLen f <? 0))) "negative fragment payload range";
        let end_ := i64 (f_payloadStart f + f_payloadLen f) in
        _ ← demand (negb ((end_ <? f_payloadStart f) || (len storage <? end_))) "fragment payload range exceeds storage";
        b ← checked (slice storage (f_payloadStart f) end_);
        bs ← payload_ranges storage fs;
        Ok (b :: bs)
  end.
