(* ===== verification/FragSafe.v ===== *)
(** * Fragments of a stream: no panic

    Whatever bytes the pipeline delivers, reading boxes ends and stays within its data.
    [ends m Q]: a computation does not crash, and its value satisfies [Q]. *)

From Stdlib Require Import SpecFloat.
From S2P Require Import Prelude GoText Encoding GoFloat Segment FragBox FragTrack.
#[local] Open Scope Z_scope.

Definition ends {A} (m : go A) (Q : A → Prop) : Prop :=
  match m with Ok a => Q a | Err _ => True | Crash => False end.

Lemma ends_bind {A B} (m : go A) (f : A → go B) P Q : ends m P → (∀ a, P a → ends (f a) Q) → ends (a ← m; f a) Q.
Proof. intros Hm Hf. destruct m; cbn in *; auto. Qed.

Lemma ends_mono {A} (m : go A) P Q : ends m P → (∀ a, P a → Q a) → ends m Q.
Proof. destruct m; cbn; auto. Qed.

Lemma ends_true {A} (m : go A) Q : ends m Q → ends m (λ _, True).
Proof. intros H. by eapply ends_mono. Qed.

Lemma ends_demand c e (Q : () → Prop) : (c = true → Q tt) → ends (demand c e) Q.
Proof. unfold demand. destruct c; cbn; auto. Qed.

Lemma ends_checked {A} (o : option A) (Q : A → Prop) : is_Some o → (∀ a, o = Some a → Q a) → ends (checked o) Q.
Proof. intros [a ->]. cbn. auto. Qed.

Lemma go_bind_Ok {A B} (m : go A) (f : A → go B) b : (a ← m; f a) = Ok b → ∃ a, m = Ok a ∧ f a = Ok b.
Proof. destruct m as [a| |]; intros H; [by exists a|done|done]. Qed.

Lemma demand_Ok {A} c e (m : go A) b : (_ ← demand c e; m) = Ok b → c = true ∧ m = Ok b.
Proof. unfold demand. by destruct c. Qed.

Lemma Ok_inj {A} (a b : A) : Ok a = Ok b → a = b.
Proof. by intros [=]. Qed.

Lemma ends_Ok {A} (m : go A) Q a : ends m Q → m = Ok a → Q a.
Proof. by intros H ->. Qed.

(** [ends_step] goes over the next step of a computation. *)
Ltac ends_step :=
  cbv beta zeta;
  lazymatch goal with
  | |- ends (mbind _ (demand ?c _)) _ => apply (ends_bind _ _ (λ _, c = true)); [by apply ends_demand|let H := fresh "Hreq" in intros [] H; cbv beta]
  | |- ends (Err _) _ => exact I
  | |- ends (if ?b then _ else _) _ => destruct b eqn:?
  | |- ends (match ?o with Some _ => _ | None => _ end) _ => destruct o eqn:?
  end.

(** ** Numbers, samples, runs, fragments in range *)

Definition is_u32 (v : Z) : Prop := 0 <= v < 4294967296.
Definition is_u64 (v : Z) : Prop := 0 <= v < two64.

Record trex_ok (x : trexInfo) : Prop := {
  x_index_ok : is_u32 (x_descriptionIndex x); x_duration_ok : is_u32 (x_duration x);
  x_size_ok : is_u32 (x_size x); x_flags_ok : is_u32 (x_flags x) }.
Record track_ok (t : trackInfo) : Prop := {
  t_id_ok : is_u32 (tr_id t); t_timescale_ok : is_u32 (tr_timescale t); t_trex_ok : trex_ok (tr_trex t) }.
Record sample_ok (s : mp4Sample) : Prop := {
  s_duration_ok : is_u32 (sm_duration s); s_size_ok : is_u32 (sm_size s);
  s_flags_ok : is_u32 (sm_flags s); s_composition_ok : is_u32 (sm_compositionTimeOffsetRaw s) }.

Definition total (g : mp4Sample → Z) (samples : list mp4Sample) : Z := foldr (λ s n, g s + n) 0 samples.

Lemma total_cons g s l : total g (s :: l) = g s + total g l.
Proof. done. Qed.

Lemma total_app g a b : total g (a ++ b) = total g a + total g b.
Proof. unfold total. induction a as [|x a IH]; cbn; [done|]. rewrite IH. lia. Qed.

Record wf_run (run : mp4Run) : Prop := {
  wr_samples : 0 < len (ru_samples run) <= maxTrunSamples;
  wr_ok : Forall sample_ok (ru_samples run);
  wr_size : ru_dataSize run = total sm_size (ru_samples run);
  wr_duration : ru_duration run = total sm_duration (ru_samples run);
  wr_version : 0 <= ru_version run <= 1;
}.

Definition samples_of (f : mp4Fragment) : list mp4Sample := concat (ru_samples <$> f_runs f).

Record wf_fragment (f : mp4Fragment) : Prop := {
  wf_runs : Forall wf_run (f_runs f);
  wf_some : f_runs f ≠ [];
  wf_duration : f_duration f = u64 (total sm_duration (samples_of f));
  wf_time : is_u64 (f_decodeTime f);
  wf_id : is_u32 (f_trackID f);
  wf_timescale : 0 < f_timescale f < 4294967296;
  wf_index : is_u32 (f_sampleDescriptionIndex f);
  wf_tfhd : f_tfhd f = buildCanonicalTfhd (f_trackID f) (f_sampleDescriptionIndex f);
}.

Lemma sample_u32 l : Forall sample_ok l → 0 <= total sm_duration l <= len l * 4294967295 ∧ 0 <= total sm_size l <= len l * 4294967295.
Proof.
  induction 1 as [|s l [Hd Hs _ _] _ IH]; [done|]. rewrite !total_cons, len_cons. unfold is_u32 in *. lia.
Qed.

(** ** Accesses *)

Lemma slice_some {A} (l : list A) lo hi : 0 <= lo <= hi → hi <= len l → is_Some (slice l lo hi).
Proof. intros H1 H2. rewrite slice_in_range by lia. by eexists. Qed.

Lemma be_4 s : bytes_ok s → len s = 4 → is_u32 (be s).
Proof. intros Hb Hl. pose proof (be_bound s Hb). rewrite Hl in *. unfold is_u32. lia. Qed.

Lemma be_8 s : bytes_ok s → len s = 8 → is_u64 (be s).
Proof. intros Hb Hl. pose proof (be_bound s Hb). rewrite Hl in *. unfold is_u64, two64. lia. Qed.

Lemma Uint32_ends data lo : bytes_ok data → 0 <= lo → lo + 4 <= len data → ends (Uint32 data lo) is_u32.
Proof.
  intros Hb H1 H2. unfold Uint32. destruct (slice_Done data lo (lo + 4) Hb) as (s&->&Hl&Hs); [lia..|]. apply be_4; [done|lia].
Qed.

Lemma Uint64_ends data lo : bytes_ok data → 0 <= lo → lo + 8 <= len data → ends (Uint64 data lo) is_u64.
Proof.
  intros Hb H1 H2. unfold Uint64. destruct (slice_Done data lo (lo + 8) Hb) as (s&->&Hl&Hs); [lia..|]. apply be_8; [done|lia].
Qed.

Lemma readUint32_ends data pos : bytes_ok data →
  ends (readUint32 data pos) (λ r, match r with Some (v, p) => is_u32 v ∧ p = pos + 4 ∧ 0 <= pos ∧ p <= len data | None => True end).
Proof.
  intros Hb. unfold readUint32. ends_step; [done|]. reflect_bools. eapply ends_bind; [apply Uint32_ends; [done|lia..]|].
  intros v Hv. cbn. split_and!; [done|lia..].
Qed.

Lemma read_field_ends present data pos e : bytes_ok data → 0 <= pos <= len data →
  ends (read_field present data pos e) (λ r, r.2 = pos + (if present then 4 else 0) ∧ 0 <= r.2 <= len data ∧
    (∀ v, r.1 = Some v → is_u32 v)).
Proof.
  intros Hb Hp. unfold read_field. ends_step; [|cbn; split_and!; [lia..|done]].
  eapply ends_bind; [apply readUint32_ends, Hb|]. intros [[v p]|] Hr; [|done]. cbn. destruct Hr as (Hv&?&?&?).
  split_and!; [lia..|]. by intros ? [= <-].
Qed.

Lemma default_u32 d o : is_u32 d → (∀ v, o = Some v → is_u32 v) → is_u32 (default d o).
Proof. destruct o; cbn; auto. Qed.

Lemma u32_0 : is_u32 0.
Proof. done. Qed.

(** ** Boxes *)

(** A box lies in the data, behind the position. *)
Definition box_fits (data : bytes) (pos : Z) (b : box) : Prop :=
  0 <= pos ∧ 8 <= b_header b <= len (b_data b) ∧ b_next b = pos + len (b_data b) ∧ b_next b <= len data ∧
  slice data pos (b_next b) = Some (b_data b) ∧ bytes_ok (b_data b).

Lemma cut_box_ends data start t h size : bytes_ok data → 0 <= start <= len data → 8 <= h →
  ends (cut_box data start t h size) (λ r, ∀ b, r = Some b → box_fits data start b ∧ b_header b = h).
Proof.
  intros Hb Hs Hh. unfold cut_box. ends_step; [by intros ?|]. reflect_bools.
  assert (size <= len data - start).
  { unfold u64 in *. pose proof (Z.mod_le (len data - start) two64). unfold two64 in *. lia. }
  destruct (slice_Done data start (start + size) Hb) as (d&Hd&Hl&Hk); [lia..|]. rewrite Hd. cbn. intros b [= <-]. unfold box_fits. cbn.
  split_and!; try lia; [by rewrite Hd|done].
Qed.

Lemma tryReadBox_ends data pos : bytes_ok data → ends (tryReadBox data pos) (λ r, ∀ b, r = Some b → box_fits data pos b).
Proof.
  intros Hb. unfold tryReadBox. ends_step; [by intros ?|]. reflect_bools.
  eapply ends_bind; [apply Uint32_ends; [done|lia..]|]. intros size _. eapply ends_bind; [apply Uint32_ends; [done|lia..]|]. intros t _.
  assert (Hc : ∀ h z, 8 <= h → ends (cut_box data pos t h z) (λ r, ∀ b, r = Some b → box_fits data pos b)).
  { intros h z Hh. eapply ends_mono; [apply cut_box_ends; [done|lia..]|]. intros r Hr b ->. by apply Hr. }
  ends_step; [|ends_step; apply Hc; lia]. ends_step; [by intros ?|]. reflect_bools.
  eapply ends_bind; [apply Uint64_ends; [done|lia..]|]. intros z _. apply Hc. lia.
Qed.

Definition is_box (b : box) : Prop := 8 <= b_header b <= len (b_data b) ∧ bytes_ok (b_data b).

Lemma boxes_loop_ends fuel data pos : bytes_ok data → 0 <= pos → len data - pos < Z.of_nat fuel → (0 < fuel)%nat →
  ends (boxes_loop fuel data pos) (Forall is_box).
Proof.
  intros Hk. revert pos. induction fuel as [|fuel IH]; intros pos Hp Hf H0; [lia|]. cbn [boxes_loop].
  eapply ends_bind; [apply tryReadBox_ends, Hk|]. intros [b|] Hb; [|by constructor].
  destruct (Hb b eq_refl) as (_&Hh&Hn&Hl&_&Ho). eapply ends_bind; [apply (IH (b_next b)); lia|].
  intros bs Hbs. by constructor.
Qed.

Lemma boxes_in_ends data pos : bytes_ok data → 0 <= pos → ends (boxes_in data pos) (Forall is_box).
Proof. intros Hb Hp. apply boxes_loop_ends; [done|unfold len; lia..]. Qed.

Record tfhd_ok (h : tfhdInfo) : Prop := {
  h_id_ok : is_u32 (h_trackID h);
  h_index_ok : ∀ v, h_sampleDescriptionIndex h = Some v → is_u32 v;
  h_duration_ok : is_u32 (h_defaultDuration h); h_size_ok : is_u32 (h_defaultSize h);
  h_flags_ok : ∀ v, h_defaultFlags h = Some v → is_u32 v }.

Lemma parseTfhd_ends b h : bytes_ok b → 0 <= h → ends (parseTfhd b h) tfhd_ok.
Proof.
  intros Hb Hh. unfold parseTfhd. ends_step; [done|]. reflect_bools. eapply ends_bind; [apply Uint32_ends; [done|lia..]|]. intros vf _.
  repeat ends_step. eapply ends_bind; [apply Uint32_ends; [done|lia..]|]. intros id Hid. repeat ends_step.
  eapply ends_bind; [apply read_field_ends; [done|lia]|]. intros [i c1] (_&H1&V1). repeat ends_step.
  eapply ends_bind; [apply read_field_ends; [done|exact H1]|]. intros [d c2] (_&H2&V2).
  eapply ends_bind; [apply read_field_ends; [done|exact H2]|]. intros [s c3] (_&H3&V3).
  eapply ends_bind; [apply read_field_ends; [done|exact H3]|]. intros [f c4] (_&_&V4). repeat ends_step.
  constructor; cbn; [done|done|by apply default_u32|by apply default_u32|done].
Qed.

Lemma readTfdt_ends b h : bytes_ok b → 0 <= h → ends (readTfdt b h) (λ r, ∀ v, r = Some v → is_u64 v).
Proof.
  intros Hb Hh. unfold readTfdt. ends_step; [by intros ?|]. reflect_bools.
  eapply ends_bind; [apply (ends_checked _ (λ _, True)); [apply idx_in_range; lia|done]|]. intros v _.
  repeat ends_step; try (by intros ?); reflect_bools.
  - eapply ends_bind; [apply Uint64_ends; [done|lia..]|]. intros w Hw. by intros ? [= <-].
  - eapply ends_bind; [apply Uint32_ends; [done|lia..]|]. intros w Hw. intros ? [= <-]. unfold is_u32, is_u64, two64 in *. lia.
Qed.

(** ** Samples *)

Record layout_ok (l : trun_layout) : Prop := {
  l_duration_ok : is_u32 (l_defaultDuration l); l_size_ok : is_u32 (l_defaultSize l);
  l_flags_ok : is_u32 (l_defaultFlags l); l_first_ok : ∀ v, l_firstFlags l = Some v → is_u32 v }.

Lemma samples_loop_ends n first b l cursor d z : bytes_ok b → layout_ok l → 0 <= cursor <= len b →
  ends (samples_loop n first b l cursor d z) (λ r, let '(samples, _, duration, dataSize) := r in
    length samples = n ∧ Forall sample_ok samples ∧ duration = d + total sm_duration samples ∧ dataSize = z + total sm_size samples).
Proof.
  intros Hb [Ld Ls Lf Lo]. revert first cursor d z.
  induction n as [|n IH]; intros first cursor d z Hc; cbn [samples_loop]; [cbn; split_and!; [done|done|lia..]|].
  eapply ends_bind; [apply read_field_ends; [done|exact Hc]|]. intros [f1 c1] (_&H1&V1).
  eapply ends_bind; [apply read_field_ends; [done|exact H1]|]. intros [f2 c2] (_&H2&V2).
  eapply ends_bind; [apply read_field_ends; [done|exact H2]|]. intros [f3 c3] (_&H3&V3).
  eapply ends_bind; [apply read_field_ends; [done|exact H3]|]. intros [f4 c4] (_&H4&V4). repeat ends_step.
  eapply ends_bind; [apply IH; exact H4|]. intros [[[ss c'] d'] z'] (Hl&Ho&->&->).
  cbn [ends mret go_ret]. rewrite !total_cons. cbn [sm_duration sm_size]. split_and!; [by cbn; rewrite Hl| |lia..].
  constructor; [|done]. constructor; cbn; try (by apply default_u32).
  unfold flags_of. destruct f3 as [v|]; [by apply V3|]. destruct first; [by apply default_u32|done].
Qed.

Lemma u8_shift vf : is_u32 vf → 0 <= u8 (Z.shiftr vf 24).
Proof. intros _. unfold u8. pose proof (Z.mod_pos_bound (Z.shiftr vf 24) 256). lia. Qed.

Lemma normalizeTrun_ends b h d s f hint : bytes_ok b → is_u32 d → is_u32 s → is_u32 f → 0 <= h →
  ends (normalizeTrun b h d s f hint) wf_run.
Proof.
  intros Hb Hd Hs Hf Hh. unfold normalizeTrun. ends_step; [done|]. reflect_bools.
  eapply ends_bind; [apply Uint32_ends; [done|lia..]|]. intros vf Hvf.
  repeat ends_step. eapply ends_bind; [apply Uint32_ends; [done|lia..]|]. intros count Hn. repeat ends_step.
  eapply ends_bind; [apply read_field_ends; [done|lia]|]. intros [o c1] (_&H1&_). repeat ends_step.
  eapply ends_bind; [apply read_field_ends; [done|exact H1]|]. intros [ff c2] (_&H2&V2). repeat ends_step.
  eapply ends_bind; [apply samples_loop_ends; [done|by constructor|exact H2]|].
  intros [[[ss c'] d'] z'] (Hl&Ho&->&->). repeat ends_step. reflect_bools. pose proof (u8_shift vf Hvf). unfold is_u32 in Hn.
  constructor; cbn [ru_samples ru_dataSize ru_duration ru_version]; [unfold len; lia|done|lia|lia|lia].
Qed.

(** ** The fragment of one track *)

Lemma traf_heads_ends bs t d : Forall is_box bs → (∀ h, t = Some h → tfhd_ok h) → (∀ v, d = Some v → is_u64 v) →
  ends (traf_heads bs t d) (λ r, (∀ h, r.1 = Some h → tfhd_ok h) ∧ (∀ v, r.2 = Some v → is_u64 v)).
Proof.
  intros Hb. revert t d. induction Hb as [|b bs [Hh Hk] _ IH]; intros t d Ht Hd; cbn [traf_heads]; [done|].
  ends_step; [ends_step; [done|]; eapply ends_bind; [apply parseTfhd_ends; [done|lia]|]; intros v Hv; apply IH; [by intros ? [= <-]|done]|].
  ends_step; [ends_step; [done|]; eapply ends_bind; [apply readTfdt_ends; [done|lia]|]; intros [v|] Hv; [apply IH; [done|by intros ? [= <-]; apply Hv]|done]|].
  ends_step; [by apply IH|done].
Qed.

Lemma traf_runs_ends bs d s f hint z : Forall is_box bs → is_u32 d → is_u32 s → is_u32 f →
  ends (traf_runs bs d s f hint z) (λ r, Forall wf_run r.1 ∧ r.2 = z + total sm_duration (concat (ru_samples <$> r.1)) ∧ (z <= MaxUint64 → r.2 <= MaxUint64)).
Proof.
  intros Hb Hd Hs Hf. revert z. induction Hb as [|b bs [Hh Hk] _ IH]; intros z; cbn [traf_runs]; [cbn; split_and!; [done|lia|lia]|].
  ends_step; [apply IH|]. eapply ends_bind; [apply normalizeTrun_ends; [done..|lia]|]. intros run Hrun. ends_step.
  eapply ends_bind; [apply IH|]. intros [runs z'] (Hr&Hz&Hm). cbn [ends mret go_ret fst snd] in *. split_and!; [by constructor| |].
  - rewrite fmap_cons. cbn [concat]. rewrite total_app, Hz, (wr_duration _ Hrun). lia.
  - intros _. apply Hm. reflect_bools. lia.
Qed.

(** A fragment without payload yet. *)
Definition bare (f : mp4Fragment) : Prop := f_payloadLen f = 0 ∧ wf_fragment f.

Lemma total_nonneg l : Forall wf_run l → 0 <= total sm_duration (concat (ru_samples <$> l)).
Proof.
  induction 1 as [|run l Hr _ IH]; [done|]. rewrite fmap_cons. cbn [concat]. rewrite total_app.
  pose proof (sample_u32 _ (wr_ok _ Hr)). lia.
Qed.

Lemma parseTraf_ends t h v a vh ah : bytes_ok t → 0 <= h → track_ok v → track_ok a → is_u32 vh → is_u32 ah →
  ends (parseTraf t h v a vh ah) bare.
Proof.
  intros Hk Hh Hv Ha Hvh Hah. unfold parseTraf. eapply ends_bind; [by apply boxes_in_ends|]. intros bs Hbs.
  eapply ends_bind; [by apply traf_heads_ends|]. intros [[hd|] [dt|]] [Ht Hd]; try done. cbn [fst snd] in *.
  specialize (Ht hd eq_refl). specialize (Hd dt eq_refl).
  eapply (ends_bind _ _ (λ r, track_ok r.1 ∧ is_u32 r.2)); [by repeat ends_step|]. intros [track hint] [Htr Hhint]. cbn [fst snd] in *.
  ends_step. ends_step. eapply ends_bind; [by apply boxes_in_ends|]. intros bs' Hbs'. destruct Htr as [Hid Hts [X1 X2 X3 X4]], Ht as [T1 T2 T3 T4 T5].
  set (index := default _ _) in *.
  assert (Hix : is_u32 index) by (by apply default_u32).
  eapply ends_bind; [apply traf_runs_ends; [done| | |]|].
  { destruct (h_defaultDuration hd =? 0); [destruct (x_duration _ =? 0); done|]. destruct (h_defaultDuration hd =? 0); done. }
  { by destruct (h_defaultSize hd =? 0). }
  { by apply default_u32. }
  intros [[|run runs] z] (Hr&Hz&Hm); [done|]. ends_step. cbn [fst snd] in *. split; [done|]. reflect_bools.
  constructor; cbn [f_runs f_duration f_decodeTime f_trackID f_timescale f_sampleDescriptionIndex f_tfhd]; try done.
  - unfold samples_of. cbn [f_runs]. rewrite u64_id; [lia|]. unfold in_u64. pose proof (total_nonneg _ Hr).
    specialize (Hm ltac:(unfold MaxUint64, two64; lia)). unfold MaxUint64 in Hm. lia.
  - unfold is_u32 in Hts. lia.
Qed.

Lemma moof_loop_ends bs v a vh ah dst : Forall is_box bs → track_ok v → track_ok a → is_u32 vh → is_u32 ah →
  (∀ f, dst = Some f → bare f) → ends (moof_loop bs v a vh ah dst) (λ r, ∀ f, r = Some f → bare f).
Proof.
  intros Hb Hv Ha Hvh Hah. revert dst. induction Hb as [|b bs [Hh Hk] _ IH]; intros dst Hd; cbn [moof_loop]; [done|].
  ends_step; [by apply IH|]. ends_step; [done|]. eapply ends_bind; [apply parseTraf_ends; [done|lia|done..]|].
  intros f Hf. apply IH. by intros ? [= <-].
Qed.

Lemma parseSourceMoof_ends moof v a vh ah : bytes_ok moof → track_ok v → track_ok a → is_u32 vh → is_u32 ah →
  ends (parseSourceMoof moof v a vh ah) bare.
Proof.
  intros Hk Hv Ha Hvh Hah. unfold parseSourceMoof. eapply ends_bind; [by apply tryReadBox_ends|]. intros [b|] Hb; [|done].
  destruct (Hb b eq_refl) as (_&[Hh _]&_&_&_&Ho). ends_step. eapply ends_bind; [apply boxes_in_ends; [done|lia]|]. intros bs Hbs.
  eapply ends_bind; [by apply moof_loop_ends|]. intros [f|] Hf; [by apply Hf|done].
Qed.

(** ** The tracks of the header *)

Lemma after_times_ends b h : bytes_ok b → 0 <= h → ends (after_times b h) is_u32.
Proof.
  intros Hb Hh. unfold after_times. ends_step; [exact u32_0|]. reflect_bools.
  eapply ends_bind; [apply (ends_checked _ (λ _, True)); [apply idx_in_range; lia|done]|]. intros v _.
  repeat ends_step; try exact u32_0; reflect_bools; (apply Uint32_ends; [done|lia..]).
Qed.

Lemma readHandlerType_ends b h : bytes_ok b → 0 <= h → ends (readHandlerType b h) is_u32.
Proof. intros Hb Hh. unfold readHandlerType. ends_step; [|exact u32_0]. reflect_bools. apply Uint32_ends; [done|lia..]. Qed.

Lemma mdia_loop_ends bs t h : Forall is_box bs → is_u32 t → ends (mdia_loop bs t h) (λ r, is_u32 r.1).
Proof.
  intros Hb. revert t h. induction Hb as [|b bs [Hh Hk] _ IH]; intros t h Ht; cbn [mdia_loop]; [done|].
  ends_step; [eapply ends_bind; [apply after_times_ends; [done|lia]|auto]|].
  ends_step; [eapply ends_bind; [apply readHandlerType_ends; [done|lia]|auto]|]. by apply IH.
Qed.

Lemma trak_loop_ends bs i t h : Forall is_box bs → is_u32 i → is_u32 t → ends (trak_loop bs i t h) (λ r, is_u32 r.1.1 ∧ is_u32 r.1.2).
Proof.
  intros Hb. revert i t h. induction Hb as [|b bs [Hh Hk] _ IH]; intros i t h Hi Ht; cbn [trak_loop]; [done|].
  ends_step; [eapply ends_bind; [apply after_times_ends; [done|lia]|auto]|].
  ends_step; [by apply IH|]. eapply ends_bind; [apply boxes_in_ends; [done|lia]|]. intros cs Hcs.
  eapply ends_bind; [by apply mdia_loop_ends|]. intros [t' h'] Ht'. by apply IH.
Qed.

Lemma readTrex_ends b h : bytes_ok b → 0 <= h → ends (readTrex b h) (λ r, ∀ e, r = Some e → trex_ok e.2).
Proof.
  intros Hb Hh. unfold readTrex. ends_step; [by intros ?|]. reflect_bools.
  eapply ends_bind; [apply Uint32_ends; [done|lia..]|]. intros i _.
  eapply ends_bind; [apply Uint32_ends; [done|lia..]|]. intros x Hx. ends_step; [by intros ?|].
  eapply ends_bind; [apply Uint32_ends; [done|lia..]|]. intros d Hd.
  eapply ends_bind; [apply Uint32_ends; [done|lia..]|]. intros s Hs.
  eapply ends_bind; [apply Uint32_ends; [done|lia..]|]. intros f Hf. by intros ? [= <-].
Qed.

Definition trexs_ok (es : list (Z * trexInfo)) : Prop := Forall (λ e, trex_ok e.2) es.

Lemma mvex_loop_ends bs : Forall is_box bs → ends (mvex_loop bs) trexs_ok.
Proof.
  induction 1 as [|b bs [Hh Hk] _ IH]; cbn [mvex_loop]; [by constructor|]. ends_step; [apply IH|].
  eapply ends_bind; [apply readTrex_ends; [done|lia]|]. intros [e|] He; [|done]. eapply ends_bind; [apply IH|].
  intros es Hes. constructor; [by apply He|done].
Qed.

Record moov_ok (m : moov_state) : Prop := {
  m_video_ok : is_u32 (m_video m).1 ∧ is_u32 (m_video m).2;
  m_audio_ok : is_u32 (m_audio m).1 ∧ is_u32 (m_audio m).2;
  m_trex_ok : trexs_ok (m_trex m) }.

Lemma moov_loop_ends bs m : Forall is_box bs → moov_ok m → ends (moov_loop bs m) moov_ok.
Proof.
  intros Hb. revert m. induction Hb as [|b bs [Hh Hk] _ IH]; intros m [Mv Ma Mt]; cbn [moov_loop]; [done|]. ends_step.
  - eapply (ends_bind _ _ (λ r, is_u32 r.1.1 ∧ is_u32 r.1.2)).
    { unfold readTrack. eapply ends_bind; [apply boxes_in_ends; [done|lia]|]. intros cs Hcs. by apply trak_loop_ends. }
    intros [[i t] h] [Hi Ht]. repeat ends_step; by apply IH.
  - ends_step; [by apply IH|]. eapply ends_bind; [apply boxes_in_ends; [done|lia]|]. intros cs Hcs.
    eapply ends_bind; [apply mvex_loop_ends, Hcs|]. intros es Hes. apply IH. constructor; cbn; [done..|]. by apply Forall_app.
Qed.

Lemma findBox_loop_ends fuel data t pos : bytes_ok data → 0 <= pos → len data - pos < Z.of_nat fuel → (0 < fuel)%nat →
  ends (findBox_loop fuel data t pos) (λ r, ∀ d h, r = Some (d, h) → 0 <= h ∧ bytes_ok d).
Proof.
  intros Hk. revert pos. induction fuel as [|fuel IH]; intros pos Hp Hf H0; [lia|]. cbn [findBox_loop]. ends_step; [|by intros ?].
  eapply ends_bind; [by apply tryReadBox_ends|]. intros [b|] Hb; [|by intros ?].
  destruct (Hb b eq_refl) as (_&Hh&Hn&Hl&Hs&Ho). ends_step; [apply IH; lia|]. rewrite Hs. cbn. intros d h [= <- <-]. split; [lia|done].
Qed.

Lemma moov_nothing : moov_ok (mkMoov (0, 0) (0, 0) []).
Proof. constructor; [split; exact u32_0..|constructor]. Qed.

Lemma trex_nothing : trex_ok noTrex.
Proof. constructor; exact u32_0. Qed.

Lemma track_nothing : track_ok noTrack.
Proof. constructor; [exact u32_0..|exact trex_nothing]. Qed.

Lemma findTrex_ok es i : trexs_ok es → trex_ok (findTrex es i).
Proof.
  intros He. unfold findTrex. destruct (List.find _ es) as [e|] eqn:E; [|exact trex_nothing].
  apply find_some in E as [Hin _]. unfold trexs_ok in He. rewrite Forall_forall in He. by apply He, list_elem_of_In.
Qed.

Lemma parseInitTracks_ends init : bytes_ok init → ends (parseInitTracks init) (λ r, track_ok r.1 ∧ track_ok r.2).
Proof.
  intros Hb. unfold parseInitTracks. eapply ends_bind; [apply findBox_loop_ends; [done|unfold len; lia..]|].
  intros [[moov h]|] Hh; [|done]. destruct (Hh _ _ eq_refl) as [H0 Ho].
  eapply ends_bind; [by apply boxes_in_ends|]. intros bs Hbs. eapply ends_bind; [apply moov_loop_ends; [done|exact moov_nothing]|].
  intros m [[V1 V2] [A1 A2] Mt]. destruct (m_video m), (m_audio m). cbn in *.
  repeat ends_step; (split; [constructor; [done..|by apply findTrex_ok]|]);
    [constructor; [done..|by apply findTrex_ok]|exact track_nothing].
Qed.
