(* ===== verification/FragQueue.v ===== *)
(** * Fragments of a stream: what is done with queued fragments

    None of it panics, fragments stay well-formed, and no byte of a payload is lost:
    [media] is what a queue of fragments holds of the storage. *)

From Stdlib Require Import SpecFloat.
From S2P Require Import Prelude GoText Encoding GoFloat Segment FragBox FragTrack FragSafe.
#[local] Open Scope Z_scope.

(** ** Payloads *)

Definition payload_of (storage : bytes) (f : mp4Fragment) : bytes :=
  take (Z.to_nat (f_payloadLen f)) (drop (Z.to_nat (f_payloadStart f)) storage).
Definition media (storage : bytes) (fs : list mp4Fragment) : bytes := concat (payload_of storage <$> fs).

Lemma media_app st a b : media st (a ++ b) = media st a ++ media st b.
Proof. unfold media. by rewrite fmap_app, concat_app. Qed.

(** A queued fragment: well-formed, and its payload lies in the storage. *)
Record stored (storage : bytes) (f : mp4Fragment) : Prop := {
  st_wf : wf_fragment f;
  st_start : 0 <= f_payloadStart f;
  st_len : 0 <= f_payloadLen f;
  st_end : f_payloadLen f = 0 ∨ f_payloadStart f + f_payloadLen f <= len storage;
}.

Lemma stored_grow st w f : stored st f → stored (st ++ w) f ∧ payload_of (st ++ w) f = payload_of st f.
Proof.
  intros [Hw H1 H2 H3]. pose proof (len_nonneg w). unfold len in *. split.
  - constructor; [done..|]. unfold len. rewrite length_app. lia.
  - unfold payload_of. rewrite drop_app, take_app, length_drop.
    replace (Z.to_nat (f_payloadLen f) - _)%nat with 0%nat by lia. by rewrite take_0, app_nil_r.
Qed.

Lemma media_grow st w fs : Forall (stored st) fs → Forall (stored (st ++ w)) fs ∧ media (st ++ w) fs = media st fs.
Proof.
  intros Hs. split; [eapply Forall_impl; [exact Hs|intros f Hf; by apply stored_grow]|].
  unfold media. f_equal. induction Hs as [|f fs Hf _ IH]; [done|]. rewrite !fmap_cons. f_equal; [by apply stored_grow|exact IH].
Qed.

(** The range of a payload in the storage. *)
Definition range_of (f : mp4Fragment) : Z * Z := (f_payloadStart f, f_payloadLen f).

(** Changes that keep the payload. *)
Definition same_payload (f g : mp4Fragment) : Prop :=
  f_payloadStart g = f_payloadStart f ∧ f_payloadLen g = f_payloadLen f.

Lemma same_payload_stored st f g : same_payload f g → wf_fragment g → stored st f → stored st g ∧ payload_of st g = payload_of st f.
Proof. intros [H1 H2] Hw [_ ? ? ?]. split; [constructor; [done|lia..]|]. unfold payload_of. by rewrite H1, H2. Qed.

(** ** Sums over runs *)

Definition tot (g : mp4Sample → Z) (runs : list mp4Run) : Z := total g (concat (ru_samples <$> runs)).

Lemma tot_cons g run runs : tot g (run :: runs) = total g (ru_samples run) + tot g runs.
Proof. unfold tot. rewrite fmap_cons. cbn [concat]. apply total_app. Qed.

Lemma tot_app g a b : tot g (a ++ b) = tot g a + tot g b.
Proof. unfold tot. by rewrite fmap_app, concat_app, total_app. Qed.

Lemma tot_rev g runs : tot g (rev runs) = tot g runs.
Proof. induction runs as [|run runs IH]; [done|]. cbn [rev]. rewrite tot_app, IH, !tot_cons. change (tot g []) with 0. lia. Qed.

Lemma total_rev g l : total g (rev l) = total g l.
Proof. induction l as [|s l IH]; [done|]. cbn [rev]. rewrite total_app, IH, !total_cons. change (total g []) with 0. lia. Qed.

Lemma wf_fragment_duration f : wf_fragment f → f_duration f = u64 (tot sm_duration (f_runs f)).
Proof. apply wf_duration. Qed.

Lemma tot_map g (c : mp4Run → mp4Run) runs : (∀ run, ru_samples (c run) = ru_samples run) → tot g (c <$> runs) = tot g runs.
Proof. intros Hc. unfold tot. rewrite <- list_fmap_compose. do 2 f_equal. apply list_fmap_ext. intros i x _. apply Hc. Qed.

(** A change of the offsets and marks of a run. *)
Lemma wf_run_map (c : mp4Run → mp4Run) run : ru_samples (c run) = ru_samples run → ru_dataSize (c run) = ru_dataSize run →
  ru_duration (c run) = ru_duration run → ru_version (c run) = ru_version run → wf_run run → wf_run (c run).
Proof. intros E1 E2 E3 E4 []. constructor; rewrite ?E1, ?E2, ?E3, ?E4; done. Qed.

(** ** Guessed durations *)

Lemma set_duration_ok s d : sample_ok s → is_u32 d → sample_ok (set_duration s d).
Proof. intros [] ?. by constructor. Qed.

Lemma change_inferred_ends runs (f : Z → go Z) : Forall wf_run runs → (∀ d, ends (f d) is_u32) →
  ends (change_inferred runs f) (λ r, let '(runs', old, exact) := r in
    Forall wf_run runs' ∧ tot sm_duration runs' = tot sm_duration runs - old + exact ∧ tot sm_size runs' = tot sm_size runs ∧
    length runs' = length runs ∧ is_u32 exact).
Proof.
  intros Hr Hf. induction Hr as [|run runs Hrun Hr IH]; cbn [change_inferred]; [done|]. ends_step.
  - destruct (rev (ru_samples run)) as [|s before] eqn:E; [done|]. eapply ends_bind; [apply Hf|]. intros x Hx.
    assert (Es : ru_samples run = rev (s :: before)) by (by rewrite <- E, rev_involutive).
    destruct Hrun as [W1 W2 W3 W4 W5]. rewrite Es in *. pose proof (Forall_rev W2) as Ho.
    rewrite rev_involutive in Ho. apply Forall_cons in Ho as [Hs Hbefore]. pose proof (sample_u32 _ W2) as [Hd _].
    assert (Hlen : len (rev (set_duration s x :: before)) = len (rev (s :: before))) by (unfold len; by rewrite !length_rev).
    assert (Hnew : Forall sample_ok (rev (set_duration s x :: before))).
    { apply Forall_rev. constructor; [by apply set_duration_ok|done]. }
    pose proof (sample_u32 _ Hnew) as [Hd' _]. rewrite Hlen in Hd'.
    assert (Ed : total sm_duration (rev (set_duration s x :: before)) = total sm_duration (rev (s :: before)) - sm_duration s + x).
    { rewrite !total_rev, !total_cons. cbn. lia. }
    assert (Ez : total sm_size (rev (set_duration s x :: before)) = total sm_size (rev (s :: before))).
    { by rewrite !total_rev, !total_cons. }
    cbn beta iota. split_and!; [|rewrite !tot_cons; cbn [ru_samples set_samples]; rewrite Es, ?Ed, ?Ez; lia..|done|done].
    constructor; [|done]. constructor; cbn [ru_samples set_samples ru_dataSize ru_duration ru_version]; [by rewrite Hlen|done|by rewrite Ez| |done].
    rewrite u64_id; [lia|]. unfold in_u64, two64, maxTrunSamples in *. lia.
  - eapply ends_bind; [exact IH|]. intros [[runs' old] x] (H1&H2&H3&H4&H5). cbn beta iota. split_and!; [by constructor| | |by cbn; rewrite H4|done]; rewrite !tot_cons; lia.
Qed.

Lemma u64_sum a b : u64 (u64 a + b) = u64 (a + b).
Proof. unfold u64. apply Zplus_mod_idemp_l. Qed.

Lemma resolve_inferred_ends previous t : wf_fragment previous →
  ends (resolve_inferred previous t) (λ r, wf_fragment r.1 ∧ same_payload previous r.1 ∧ is_u32 r.2).
Proof.
  intros [W1 W2 W3 W4 W5 W6 W7 W8]. unfold resolve_inferred.
  eapply ends_bind; [apply change_inferred_ends; [by apply Forall_rev|]|].
  { intros d. repeat ends_step. reflect_bools. unfold MaxUint32 in *. cbn. unfold is_u32. lia. }
  intros [[runs old] x] (H1&H2&H3&H4&H5). cbn [ends mret go_ret fst snd]. split; [|split; [by split|done]].
  assert (Hs : ∀ run, ru_samples (clear_inferred run) = ru_samples run) by done.
  constructor; cbn [f_runs f_duration f_decodeTime f_trackID f_timescale f_sampleDescriptionIndex f_tfhd]; try done.
  - apply Forall_fmap, Forall_rev. eapply Forall_impl; [exact H1|]. intros run Hrun. by apply wf_run_map.
  - intros E. apply (f_equal length) in E. rewrite length_fmap, length_rev, H4, length_rev in E. by destruct (f_runs previous).
  - unfold samples_of. cbn [f_runs]. fold (tot sm_duration (clear_inferred <$> rev runs)).
    rewrite tot_map, tot_rev, H2, tot_rev by done. rewrite W3. fold (tot sm_duration (f_runs previous)).
    change (total sm_duration (samples_of previous)) with (tot sm_duration (f_runs previous)).
    replace (u64 (tot sm_duration (f_runs previous)) - old + x) with (u64 (tot sm_duration (f_runs previous)) + (x - old)) by lia.
    rewrite u64_sum. f_equal. lia.
Qed.

(** ** Payload of a fragment *)

Lemma place_runs_ends runs p e : Forall wf_run runs →
  ends (place_runs runs p e) (λ r, Forall wf_run r.1 ∧ ru_samples <$> r.1 = ru_samples <$> runs).
Proof.
  intros Hr. revert e. induction Hr as [|run runs Hrun _ IH]; intros e; cbn [place_runs]; [done|]. repeat ends_step.
  eapply ends_bind; [apply IH|]. intros [rs e'] [H1 H2]. cbn in *. split; [|by rewrite H2]. constructor; [by apply wf_run_map|done].
Qed.

Lemma wf_set_runs f runs : wf_fragment f → Forall wf_run runs → ru_samples <$> runs = ru_samples <$> f_runs f →
  ∀ start n inferred, wf_fragment (mkFragment (f_trackID f) (f_timescale f) (f_decodeTime f) (f_duration f) (f_startsWithSync f)
        (f_sampleDescriptionIndex f) (f_tfhd f) runs start n inferred).
Proof.
  intros [W1 W2 W3 W4 W5 W6 W7 W8] Hr E start n inferred.
  constructor; cbn [f_runs f_duration f_decodeTime f_trackID f_timescale f_sampleDescriptionIndex f_tfhd]; try done.
  - intros ->. by destruct (f_runs f).
  - rewrite W3. unfold samples_of. cbn [f_runs]. by rewrite E.
Qed.

Lemma attachPayload_ends f s n p : wf_fragment f →
  ends (attachPayload f s n p) (λ g, wf_fragment g ∧ f_payloadStart g = s ∧ f_payloadLen g = n ∧ 0 <= s ∧ 0 <= n ∧ f_trackID g = f_trackID f).
Proof.
  intros Hw. unfold attachPayload. ends_step. reflect_bools. eapply ends_bind; [apply place_runs_ends, (wf_runs _ Hw)|].
  intros [rs e] [H1 H2]. ends_step. cbn [fst] in *. cbn [ends mret go_ret]. split_and!; try done; [by apply wf_set_runs|lia..].
Qed.

(** ** Splitting *)

Lemma fragment_samples_ends runs n : ends (fragment_samples runs n) (λ m, m = n + len (concat (ru_samples <$> runs)) ∧ (runs ≠ [] → n < m)).
Proof.
  revert n. induction runs as [|run runs IH]; intros n; cbn [fragment_samples]; [split; [unfold len; cbn; lia|done]|].
  destruct (ru_samples run) as [|s ss] eqn:E; [done|]. eapply ends_mono; [apply IH|]. intros m [-> _].
  rewrite fmap_cons. cbn [concat]. rewrite E, len_app. rewrite !len_cons. pose proof (len_nonneg ss).
  pose proof (len_nonneg (concat (ru_samples <$> runs))). split; [lia|]. intros _. lia.
Qed.

Lemma fragmentSampleCount_ends f : ends (fragmentSampleCount f) (λ n, n = len (samples_of f)).
Proof.
  unfold fragmentSampleCount. eapply ends_bind; [apply fragment_samples_ends|]. intros n [-> _]. ends_step; [done|]. cbn. unfold samples_of. lia.
Qed.

Lemma explicit_sums_ends ss d z :
  ends (explicit_sums ss d z) (λ r, r = (d + total sm_duration ss, z + total sm_size ss)).
Proof.
  revert d z. induction ss as [|s ss IH]; intros d z; cbn [explicit_sums]; [cbn; f_equal; lia|]. repeat ends_step.
  eapply ends_mono; [apply IH|]. intros r ->. rewrite !total_cons. f_equal; lia.
Qed.

Lemma buildExplicitRun_ends t ss : wf_run t → Forall sample_ok ss → len ss <= maxTrunSamples →
  ends (buildExplicitRun t ss) (λ run, wf_run run ∧ ru_samples run = ss ∧ 0 < ru_dataSize run).
Proof.
  intros Ht Ho Hl. unfold buildExplicitRun. destruct ss as [|s ss]; [done|]. eapply ends_bind; [apply explicit_sums_ends|].
  intros r ->. ends_step. reflect_bools. pose proof (sample_u32 _ Ho). cbn [ends mret go_ret ru_samples ru_dataSize]. split_and!; [|done|lia].
  constructor; cbn [ru_samples ru_dataSize ru_duration ru_version]; try done. apply Ht.
Qed.

Record side_ok (d : side) : Prop := {
  sd_runs : Forall wf_run (d_runs d);
  sd_bytes : d_bytes d = tot sm_size (d_runs d);
  sd_duration : d_duration d = u64 (tot sm_duration (d_runs d));
  sd_fits : d_bytes d <= MaxInt64;
  sd_some : d_runs d ≠ [] → 0 < d_bytes d;
}.
Definition side_samples (d : side) : list mp4Sample := concat (ru_samples <$> d_runs d).

Lemma side_nothing : side_ok (mkSide [] 0 0).
Proof. constructor; [constructor|done..]. Qed.

Lemma set_offset_wf o run : wf_run run → wf_run (set_offset o run).
Proof. by apply wf_run_map. Qed.

Lemma add_run_ends t ss e d : wf_run t → Forall sample_ok ss → len ss <= maxTrunSamples → side_ok d →
  ends (add_run t ss e d) (λ d', side_ok d' ∧ side_samples d' = side_samples d ++ ss).
Proof.
  intros Ht Ho Hl [D1 D2 D3 D4 D5]. unfold add_run. eapply ends_bind; [by apply buildExplicitRun_ends|]. intros run (Hw&Hs&Hz).
  ends_step. reflect_bools. cbn [ends mret go_ret]. split.
  - constructor; cbn [d_runs d_bytes d_duration].
    + apply Forall_app. split; [done|]. constructor; [by apply set_offset_wf|done].
    + rewrite tot_app, tot_cons, D2, (wr_size _ Hw). change (tot sm_size []) with 0. cbn [ru_samples set_offset]. lia.
    + rewrite tot_app, tot_cons, D3, (wr_duration _ Hw). change (tot sm_duration []) with 0. cbn [ru_samples set_offset].
      rewrite u64_sum. f_equal. lia.
    + lia.
    + intros _. destruct (d_runs d) as [|x l] eqn:E; [|specialize (D5 ltac:(done)); lia]. rewrite D2. cbn. lia.
  - unfold side_samples. cbn [d_runs]. rewrite fmap_app, concat_app. cbn. by rewrite app_nil_r, Hs.
Qed.

(** The loop cuts the samples after the first [k]. *)
Lemma split_loop_ends runs k l r : Forall wf_run runs → side_ok l → side_ok r → 0 <= k →
  ends (split_loop runs k l r) (λ x, let '(rem, l', r') := x in side_ok l' ∧ side_ok r' ∧
    let all := concat (ru_samples <$> runs) in
    side_samples l' = side_samples l ++ take (Z.to_nat k) all ∧ side_samples r' = side_samples r ++ drop (Z.to_nat k) all).
Proof.
  intros Hr. revert k l r. induction Hr as [|run runs Hw _ IH]; intros k l r Hl Hrs Hk; cbn [split_loop].
  { cbn. rewrite take_nil, drop_nil, !app_nil_r. done. }
  ends_step. set (n := len (ru_samples run)) in *. set (t := if 0 <? k then Z.min k n else 0).
  assert (Ht : 0 <= t <= n ∧ t <= k ∧ (t < n → k - t = 0)).
  { pose proof (len_nonneg (ru_samples run)). unfold t. split_if; lia. }
  destruct Hw as [W1 W2 W3 W4 W5]. fold n in W1.
  assert (Hcut : ∀ lo hi, 0 <= lo <= hi → hi <= n → ∃ ss, slice (ru_samples run) lo hi = Some ss ∧ Forall sample_ok ss ∧ len ss <= maxTrunSamples ∧
    ss = take (Z.to_nat (hi - lo)) (drop (Z.to_nat lo) (ru_samples run))).
  { intros lo hi H1 H2. eexists. split; [apply slice_in_range; [lia|done]|]. split_and!; [by apply Forall_take, Forall_drop| |done].
    unfold len in *. rewrite length_take, length_drop. lia. }
  assert (Hwf : wf_run run) by (by constructor).
  eapply (ends_bind _ _ (λ x, x.1 = k - t ∧ side_ok x.2 ∧ side_samples x.2 = side_samples l ++ take (Z.to_nat t) (ru_samples run))).
  { ends_step; reflect_bools.
    - destruct (Hcut 0 t) as (ss&->&Ho&Hm&Hss); [lia..|]. cbn [checked mbind go_bind]. eapply ends_bind; [by apply add_run_ends|].
      intros d [Hd Ed]. cbn [ends mret go_ret fst snd]. split_and!; [done..|]. rewrite Ed, Hss, drop_0. do 2 f_equal. lia.
    - cbn [ends mret go_ret fst snd]. split_and!; [lia|done|]. replace (Z.to_nat t) with 0%nat by lia. by rewrite take_0, app_nil_r. }
  intros [rem l'] (Erem&Hl'&El). cbn [fst snd] in *. subst rem.
  eapply (ends_bind _ _ (λ x, side_ok x ∧ side_samples x = side_samples r ++ drop (Z.to_nat t) (ru_samples run))).
  { ends_step; reflect_bools.
    - destruct (Hcut t n) as (ss&Es&Ho&Hm&Hss); [lia..|]. unfold slice_from. fold n. rewrite Es. cbn [checked mbind go_bind].
      eapply ends_mono; [by apply add_run_ends|]. intros d [Hd Ed]. split; [done|]. rewrite Ed. f_equal. rewrite Hss. apply take_ge.
      rewrite length_drop. unfold n, len. lia.
    - cbn [ends mret go_ret]. split; [done|]. rewrite drop_ge by (unfold n, len in *; lia). by rewrite app_nil_r. }
  intros r' [Hr' Er]. eapply ends_mono; [apply IH; [done|done|lia]|]. intros [[rem' l''] r''] (H1&H2&H3&H4). split_and!; [done..| |].
  - rewrite H3, El, <- app_assoc. f_equal. rewrite fmap_cons. cbn [concat]. rewrite take_app. f_equal.
    + destruct (decide (t < n)) as [Hlt|Hge]; [f_equal; lia|]. rewrite !take_ge; [done|unfold n, len in *; lia..].
    + destruct (decide (t < n)) as [Hlt|Hge].
      * replace (Z.to_nat (k - t)) with 0%nat by lia. replace (Z.to_nat k - _)%nat with 0%nat by (unfold n, len in *; lia). by rewrite !take_0.
      * f_equal. unfold n, len in *. lia.
  - rewrite H4, Er, <- app_assoc. f_equal. rewrite fmap_cons. cbn [concat]. rewrite drop_app. f_equal.
    + destruct (decide (t < n)) as [Hlt|Hge]; [f_equal; lia|]. rewrite !drop_ge; [done|unfold n, len in *; lia..].
    + destruct (decide (t < n)) as [Hlt|Hge].
      * replace (Z.to_nat (k - t)) with 0%nat by lia. replace (Z.to_nat k - _)%nat with 0%nat by (unfold n, len in *; lia). by rewrite !drop_0.
      * f_equal. unfold n, len in *. lia.
Qed.

(** What a split makes of a fragment: its samples in two, in time and in the storage. *)
Record halves (f : mp4Fragment) (k : Z) (l r : mp4Fragment) : Prop := {
  hv_left : samples_of l = take (Z.to_nat k) (samples_of f);
  hv_right : samples_of r = drop (Z.to_nat k) (samples_of f);
  hv_start : f_payloadStart l = f_payloadStart f;
  hv_next : f_payloadStart r = f_payloadStart l + f_payloadLen l;
  hv_left_len : f_payloadLen l = total sm_size (samples_of l);
  hv_len : f_payloadLen l + f_payloadLen r = f_payloadLen f;
  hv_order : 0 <= f_payloadLen l <= f_payloadLen f;
  hv_time : f_decodeTime l = f_decodeTime f;
  hv_next_time : f_decodeTime r = f_decodeTime l + f_duration l;
  hv_duration : u64 (f_duration l + f_duration r) = f_duration f;
  hv_track : f_trackID l = f_trackID f ∧ f_trackID r = f_trackID f ∧ f_timescale l = f_timescale f ∧ f_timescale r = f_timescale f;
  hv_inside : 0 < k < len (samples_of f);
  hv_some : 0 < f_payloadLen l ∧ 0 < f_payloadLen r;
}.

Lemma tot_bounds l : Forall wf_run l → 0 <= tot sm_duration l ∧ 0 <= tot sm_size l.
Proof.
  induction 1 as [|run l Hr _ IH]; [done|]. rewrite !tot_cons. pose proof (sample_u32 _ (wr_ok _ Hr)). lia.
Qed.

Lemma split_ends f k : wf_fragment f → 0 <= f_payloadLen f →
  ends (splitFragmentAtSample f k) (λ x, wf_fragment x.1 ∧ wf_fragment x.2 ∧ halves f k x.1 x.2).
Proof.
  intros Hw Hn. unfold splitFragmentAtSample. eapply ends_bind; [apply fragmentSampleCount_ends|]. intros n ->. ends_step. reflect_bools.
  eapply ends_bind; [apply split_loop_ends; [apply Hw|exact side_nothing..|lia]|].
  intros [[rem l] r] (Hl&Hr&El&Er). destruct Hl as [L1 L2 L3 L4 L5], Hr as [R1 R2 R3 R4 R5]. repeat ends_step.
  cbn [ends mret go_ret fst snd]. destruct Hw as [W1 W2 W3 W4 W5 W6 W7 W8]. reflect_bools.
  pose proof (tot_bounds _ L1) as [_ Bl]. rewrite <- L2 in Bl.
  assert (Hu : u64 (f_payloadLen f) <= f_payloadLen f) by (apply Z.mod_le; [done|unfold two64; lia]).
  assert (Hi : i64 (d_bytes l) = d_bytes l) by (apply i64_id; unfold in_i64, MaxInt64, two63 in *; lia). rewrite Hi.
  assert (Hdl : 0 <= d_duration l) by (rewrite L3; apply u64_range).
  unfold is_u64, MaxUint64 in *.
  change (side_samples (mkSide [] 0 0)) with (@nil mp4Sample) in El, Er. cbn [app] in El, Er.
  split_and!.
  - constructor; cbn [f_runs f_duration f_decodeTime f_trackID f_timescale f_sampleDescriptionIndex f_tfhd]; try done.
    intros E. rewrite E in *. done.
  - constructor; cbn [f_runs f_duration f_decodeTime f_trackID f_timescale f_sampleDescriptionIndex f_tfhd]; try done.
    + intros E. rewrite E in *. done.
    + unfold is_u64. lia.
  - constructor; cbn [f_runs f_duration f_decodeTime f_trackID f_timescale f_sampleDescriptionIndex f_tfhd f_payloadStart f_payloadLen]; try done; try lia.
    assert (Sl : 0 < d_bytes l) by (apply L5; intros E; rewrite E in *; done).
    assert (Sr : 0 < d_bytes r) by (apply R5; intros E; rewrite E in *; done).
    assert (u64 (d_bytes l + d_bytes r) = d_bytes l + d_bytes r) by (apply u64_id; unfold in_u64, MaxInt64, two63, two64 in *; lia). lia.
Qed.

(** A split keeps the stored bytes. *)
Lemma halves_stored st f k l r : stored st f → wf_fragment l → wf_fragment r → halves f k l r →
  stored st l ∧ stored st r ∧ payload_of st l ++ payload_of st r = payload_of st f.
Proof.
  intros [Hw H1 H2 H3] Hl Hr [_ _ E1 E2 _ E3 E4 _ _ _ _ _ _]. split_and!; [constructor; [done|lia..]..|].
  unfold payload_of. rewrite E2, E1.
  replace (Z.to_nat (f_payloadStart f + f_payloadLen l)) with (Z.to_nat (f_payloadStart f) + Z.to_nat (f_payloadLen l))%nat by lia.
  rewrite <- drop_drop. replace (Z.to_nat (f_payloadLen f)) with (Z.to_nat (f_payloadLen l) + Z.to_nat (f_payloadLen r))%nat by lia.
  by rewrite take_take_drop.
Qed.

(** ** Choosing the sound of a segment *)

Lemma scaledGreaterOrEqual_spec l ls r rs : scaledGreaterOrEqual l ls r rs = (r * rs <=? l * ls).
Proof.
  unfold scaledGreaterOrEqual, Mul64.
  pose proof (Z.div_mod (l * ls) two64 ltac:(done)). pose proof (Z.div_mod (r * rs) two64 ltac:(done)).
  pose proof (Z.mod_pos_bound (l * ls) two64 ltac:(done)). pose proof (Z.mod_pos_bound (r * rs) two64 ltac:(done)).
  unfold two64 in *. split_if.
  - apply eq_true_iff_eq. rewrite Z.ltb_lt, Z.leb_le. lia.
  - apply eq_true_iff_eq. rewrite !Z.leb_le. lia.
Qed.

Section Reach.
Context (videoEnd timescale videoTimescale : Z).

(** The sound up to [e] reaches the end of the picture. *)
Definition reaches (e : Z) : Prop := videoEnd * timescale <= e * videoTimescale.

(** The samples after which the sound that starts at [base] first reaches it. *)
Definition first_reach (base : Z) (samples : list mp4Sample) (j : nat) : Prop :=
  (0 < j <= length samples)%nat ∧ reaches (base + total sm_duration (take j samples)) ∧
  ∀ i, (0 < i < j)%nat → ¬ reaches (base + total sm_duration (take i samples)).
Definition never_reach (base : Z) (samples : list mp4Sample) : Prop :=
  ∀ i, (0 < i <= length samples)%nat → ¬ reaches (base + total sm_duration (take i samples)).

Definition reach_post (base count : Z) (samples : list mp4Sample) (x : Z * Z * bool) : Prop :=
  let '(e, c, reached) := x in
  if (reached : bool) then ∃ j, c = count + Z.of_nat j ∧ first_reach base samples j
  else c = count + len samples ∧ e = base + total sm_duration samples ∧ never_reach base samples.

Lemma reach_post_app base count a b x : never_reach base a →
  reach_post (base + total sm_duration a) (count + len a) b x → reach_post base count (a ++ b) x.
Proof.
  intros Ha. destruct x as [[e c] []]; cbn.
  - intros (j&->&(Hj1&Hj2&Hj3)). exists (length a + j)%nat. split; [unfold len; lia|]. split_and!; [lia|rewrite length_app; lia| |].
    + rewrite take_app_add, total_app, Z.add_assoc. done.
    + intros i Hi. destruct (decide (i <= length a)%nat) as [Hle|Hgt].
      * rewrite take_app_le by done. apply Ha. lia.
      * replace i with (length a + (i - length a))%nat by lia. rewrite take_app_add, total_app, Z.add_assoc. apply Hj3. lia.
  - intros (->&->&Hb). split_and!; [rewrite len_app; lia|rewrite total_app; lia|].
    intros i Hi. rewrite length_app in Hi. destruct (decide (i <= length a)%nat) as [Hle|Hgt].
    + rewrite take_app_le by done. apply Ha. lia.
    + replace i with (length a + (i - length a))%nat by lia. rewrite take_app_add, total_app, Z.add_assoc. apply Hb. lia.
Qed.

Lemma reach_in_run_ends ss e c :
  ends (reach_in_run ss videoEnd timescale videoTimescale e c) (reach_post e c ss).
Proof.
  revert e c. induction ss as [|s ss IH]; intros e c; cbn [reach_in_run].
  { cbn. unfold len. cbn. split_and!; [lia..|]. intros i. cbn. lia. }
  ends_step. rewrite scaledGreaterOrEqual_spec. ends_step; reflect_bools.
  - cbn. exists 1%nat. split; [done|]. split_and!; [lia|cbn; lia| |lia]. unfold reaches. cbn. by rewrite Z.add_0_r.
  - eapply ends_mono; [apply IH|]. intros x Hx. apply (reach_post_app e c [s] ss); [|by rewrite total_cons, Z.add_0_r].
    intros i Hi. cbn in Hi. replace i with 1%nat by lia. unfold reaches. cbn. rewrite Z.add_0_r. lia.
Qed.

Lemma reach_in_runs_ends runs e c :
  ends (reach_in_runs runs videoEnd timescale videoTimescale e c) (reach_post e c (concat (ru_samples <$> runs))).
Proof.
  revert e c. induction runs as [|run runs IH]; intros e c; cbn [reach_in_runs].
  { cbn. unfold len. cbn. split_and!; [lia..|]. intros i. cbn. lia. }
  ends_step. rewrite fmap_cons. cbn [concat]. eapply ends_bind; [apply reach_in_run_ends|]. intros [[e' c'] reached] Hp.
  destruct reached; cbn in Hp.
  - cbn. destruct Hp as (j&->&(H1&H2&H3)). exists j. split; [done|]. split_and!; [lia|rewrite length_app; lia| |].
    + by rewrite take_app_le by lia.
    + intros i Hi. rewrite take_app_le by lia. by apply H3.
  - destruct Hp as (->&->&Hn). eapply ends_mono; [apply IH|]. intros x. by apply reach_post_app.
Qed.
End Reach.

Lemma findAudioSplit_ends f ve vt :
  ends (findAudioSplitSampleCount f ve vt) (λ x,
    if x.2 : bool then ∃ j, x.1 = Z.of_nat j ∧ first_reach ve (f_timescale f) vt (f_decodeTime f) (samples_of f) j
    else never_reach ve (f_timescale f) vt (f_decodeTime f) (samples_of f)).
Proof.
  unfold findAudioSplitSampleCount. ends_step. eapply ends_bind; [apply reach_in_runs_ends|].
  intros [[e c] reached] Hp. destruct reached; cbn in Hp; [exact Hp|]. ends_step. apply Hp.
Qed.

(** The last fragment taken ends with the first sample that reaches the end of the picture. *)
Definition ends_at (ve vt : Z) (f : mp4Fragment) : Prop :=
  first_reach ve (f_timescale f) vt (f_decodeTime f) (samples_of f) (length (samples_of f)).

Record selected (ve vt : Z) (audio audio' : list mp4Fragment) (n : Z) : Prop := {
  sl_range : 0 <= n <= len audio';
  sl_none : n = 0 → audio' = audio;
  sl_last : 0 < n → ∃ f, last (take (Z.to_nat n) audio') = Some f ∧ ends_at ve vt f;
  sl_before : Forall (λ f, never_reach ve (f_timescale f) vt (f_decodeTime f) (samples_of f)) (take (Z.to_nat (n - 1)) audio');
  sl_samples : concat (samples_of <$> audio') = concat (samples_of <$> audio);
  sl_some : Forall (λ f, 0 < f_payloadLen f) audio → Forall (λ f, 0 < f_payloadLen f) audio';
  sl_stored : ∀ st, Forall (stored st) audio → Forall (stored st) audio' ∧ media st audio' = media st audio;
}.

Lemma select_audio_ends audio ve vt i : 0 <= i → Forall (λ f, wf_fragment f ∧ 0 <= f_payloadLen f) audio →
  ends (select_audio audio ve vt i) (λ x, x.2 = 0 ∧ x.1 = audio ∨ i < x.2 ∧ selected ve vt audio x.1 (x.2 - i)).
Proof.
  intros Hi Ha. revert i Hi. induction Ha as [|f rest [Hw Hl] _ IH]; intros i Hi; cbn [select_audio]; [by left|].
  eapply ends_bind; [apply findAudioSplit_ends|]. intros [k reached] Hk. cbn [fst snd] in Hk. destruct reached; cbn [negb].
  - destruct Hk as (j&->&Hj). eapply ends_bind; [apply fragmentSampleCount_ends|]. intros n ->. ends_step.
    ends_step; reflect_bools.
    + eapply ends_bind; [by apply split_ends|]. intros [l r] (Hwl&Hwr&Hh). right. cbn [fst snd] in *. split; [lia|].
      replace (i + 1 - i) with 1 by lia. destruct (Hh) as [E1 E2 _ _ _ _ _ E3 _ _ E4 _ E5].
      constructor; [rewrite !len_cons; pose proof (len_nonneg rest); lia|done| |done| | |].
      * intros _. exists l. split; [done|]. unfold ends_at. destruct E4 as (_&_&Et&_). rewrite Et, E3, E1, Nat2Z.id.
        destruct Hj as (J1&J2&J3). rewrite length_take, Nat.min_l by lia. split_and!; [lia|rewrite length_take; lia| |].
        -- by rewrite take_take, Nat.min_id.
        -- intros i' Hi'. rewrite take_take, Nat.min_l by lia. by apply J3.
      * rewrite !fmap_cons. cbn [concat]. rewrite app_assoc. f_equal. rewrite E1, E2. apply take_drop.
      * intros Hsome. apply Forall_cons in Hsome as [_ ?]. destruct E5. by repeat constructor.
      * intros st Hst. apply Forall_cons in Hst as [Hf Hrest]. destruct (halves_stored st f _ l r Hf Hwl Hwr Hh) as (S1&S2&S3).
        split; [by apply Forall_cons; split; [|apply Forall_cons]|]. unfold media. rewrite !fmap_cons. cbn [concat]. by rewrite app_assoc, S3.
    + right. cbn [fst snd]. split; [lia|]. replace (i + 1 - i) with 1 by lia.
      constructor; [rewrite len_cons; pose proof (len_nonneg rest); lia|done| |done|done|done|done].
      intros _. exists f. split; [done|]. unfold ends_at. destruct Hj as (J1&J2&J3).
      assert (j = length (samples_of f)) as <- by (unfold len in *; lia). done.
  - eapply ends_bind; [apply IH; lia|]. intros [rest' n] [[E1 E2]|[Hn [S1 S2 S3 S4 S5 S7 S6]]]; cbn [fst snd] in *.
    + left. by subst.
    + right. cbn [ends mret go_ret fst snd]. split; [lia|].
      constructor.
      * rewrite len_cons. lia.
      * lia.
      * intros _. destruct (S3 ltac:(lia)) as (g&Hg&He). exists g. split; [|done].
        replace (Z.to_nat (n - i)) with (S (Z.to_nat (n - (i + 1)))) by lia. cbn [take]. rewrite last_cons, Hg. done.
      * replace (Z.to_nat (n - i - 1)) with (S (Z.to_nat (n - (i + 1) - 1))) by lia. cbn [take]. by constructor.
      * rewrite !fmap_cons. cbn [concat]. by rewrite S5.
      * intros Hsome. apply Forall_cons in Hsome as [? ?]. constructor; auto.
      * intros st Hst. apply Forall_cons in Hst as [Hf Hrest]. destruct (S6 st Hrest) as [T1 T2].
        split; [by constructor|]. unfold media in *. rewrite !fmap_cons. cbn [concat]. by rewrite T2.
Qed.

(** ** Time and counts *)

Lemma toUnits_ends s t : ends (toUnits s t) (λ _, True).
Proof. unfold toUnits. by repeat ends_step. Qed.

Lemma addTfdtOffset_ends v t s : ends (addTfdtOffset v t s) (λ _, True).
Proof. unfold addTfdtOffset. by repeat ends_step. Qed.

Lemma addTfdtOffset_range v t s : is_u64 v → ends (addTfdtOffset v t s) is_u64.
Proof.
  intros Hv. unfold addTfdtOffset. repeat ends_step; [done|]. reflect_bools. cbn. unfold is_u64, MaxUint64, two64, to_uint64, two63 in *.
  revert Heqb1. split_if; lia.
Qed.

(** Nanoseconds are rounded down, and refused when they do not fit. *)
Lemma timelineNanoseconds_ends v t : 0 <= v → 0 <= t < 4294967296 →
  ends (timelineNanoseconds v t) (λ ns, ns = v * 1000000000 / t ∧ is_u64 ns).
Proof.
  intros Hv Ht. unfold timelineNanoseconds. ends_step; [done|]. ends_step; [done|]. reflect_bools.
  assert (0 < t) by lia. pose proof (Z.mod_pos_bound v t ltac:(lia)). pose proof (Z.div_mod v t ltac:(lia)). assert (0 <= v / t) by (apply Z.div_pos; lia).
  unfold MaxUint64, two64 in *. change ((18446744073709551616 - 1) / 1000000000) with 18446744073 in *.
  assert (E : v * 1000000000 / t = v / t * 1000000000 + v mod t * 1000000000 / t).
  { rewrite <- Z.div_add_l by lia. f_equal. rewrite H1 at 1. ring. }
  rewrite E. clear E H1. revert H0 H2 Heqb0. generalize (v / t) (v mod t). intros q m Hm Hq Hb.
  rewrite !u64_id by (unfold in_u64, two64; lia). assert (0 <= m * 1000000000 / t) by (apply Z.div_pos; lia).
  ends_step; [done|]. reflect_bools. cbn. split; [done|]. unfold is_u64, two64. lia.
Qed.

Lemma video_loop_range tf target video i d s : 0 <= i → 0 <= s <= i →
  let n := video_loop tf target video i d s in n = 0 ∨ 0 < n < i + len video.
Proof.
  revert i d s. induction video as [|f rest IH]; intros i d s Hi Hs; [by left|]. cbv zeta.
  assert (Hrec : ∀ d' s', 0 <= s' <= i + 1 → let n := video_loop tf target rest (i + 1) d' s' in n = 0 ∨ 0 < n < i + len (f :: rest)).
  { intros d' s' Hs'. specialize (IH (i + 1) d' s' ltac:(lia) Hs'). cbv zeta in IH |- *. rewrite len_cons. lia. }
  clear IH. cbn [video_loop]. destruct rest as [|g rest]; [by left|]. rewrite !len_cons in *. pose proof (len_nonneg rest).
  repeat split_if; try (apply Hrec; lia); right; reflect_bools; lia.
Qed.

Lemma firstPresentationTime_ends f : ends (firstPresentationTime f) (λ _, True).
Proof. unfold firstPresentationTime. destruct (f_runs f) as [|[? [|? ?] ? ? ? ? ? ? ? ?] ?]; try done. by repeat ends_step. Qed.

Lemma timelineNanoseconds_safe v t : ends (timelineNanoseconds v t) (λ _, True).
Proof. unfold timelineNanoseconds. by repeat ends_step. Qed.

Lemma cue_loop_ends video p t target tol i : 0 < i →
  ends (cue_loop video p t target tol i) (λ n, n = 0 ∨ i <= n < i + len video).
Proof.
  revert i. induction video as [|f rest IH]; intros i Hi; cbn [cue_loop]; [by left|].
  pose proof (len_nonneg rest). rewrite len_cons.
  assert (Hrec : ends (cue_loop rest p t target tol (i + 1)) (λ n, n = 0 ∨ i <= n < i + (1 + len rest))).
  { eapply ends_mono; [apply IH; lia|]. intros n [H0|H0]; [by left|right; lia]. }
  ends_step; [done|]. eapply ends_bind; [apply firstPresentationTime_ends|]. intros q _. ends_step.
  eapply ends_bind; [apply timelineNanoseconds_safe|]. intros d _. ends_step; [done|]. right. lia.
Qed.

(** ** Writing a segment *)

Lemma validateTrack_ends fs n : ends (validateTrack fs n) (λ _, True).
Proof.
  unfold validateTrack. ends_step; [done|]. reflect_bools. destruct fs as [|f fs]; [unfold len in *; simpl in *; lia|].
  replace (Z.to_nat n) with (S (Z.to_nat (n - 1))) by lia. cbn [take]. by apply ends_demand.
Qed.

Lemma set_output_wf base run : wf_run run → wf_run (set_output base run).
Proof. by apply wf_run_map. Qed.

Lemma set_output_fragment base f : wf_fragment f →
  wf_fragment (set_runs (set_output base <$> f_runs f) f) ∧ same_payload f (set_runs (set_output base <$> f_runs f) f).
Proof.
  intros Hw. split; [|by split]. apply wf_set_runs; [done| |].
  - apply Forall_fmap. eapply Forall_impl; [apply Hw|]. intros run. apply set_output_wf.
  - rewrite <- list_fmap_compose. done.
Qed.

Lemma assignOffsets_spec fs n o : let fs' := (assignOffsets fs n o).1 in
  length fs' = length fs ∧ range_of <$> fs' = range_of <$> fs ∧ samples_of <$> fs' = samples_of <$> fs ∧ f_duration <$> fs' = f_duration <$> fs ∧ f_decodeTime <$> fs' = f_decodeTime <$> fs ∧
  ∀ st, Forall (stored st) fs → Forall (stored st) fs' ∧ payload_of st <$> fs' = payload_of st <$> fs.
Proof.
  revert n o. induction fs as [|f fs IH]; intros [|n] o; cbn; [split_and!; done..|].
  specialize (IH n (i64 (o + f_payloadLen f))). destruct (assignOffsets fs n _) as [fs' o'] eqn:E. cbn in *.
  destruct IH as (H1&H0&H2&H3&H4&H5). split_and!; [by rewrite H1|by rewrite H0| |by rewrite H3|by rewrite H4|].
  - rewrite H2. f_equal. unfold samples_of. cbn. rewrite <- list_fmap_compose. done.
  - intros st Hst. apply Forall_cons in Hst as [Hf Hfs]. destruct (H5 st Hfs) as [S1 S2].
    destruct (set_output_fragment o f (st_wf _ _ Hf)) as [Hw Hp]. destruct (same_payload_stored st _ _ Hp Hw Hf) as [T1 T2].
    split; [by constructor|]. by rewrite T2, S2.
Qed.

Lemma writeCanonicalTrun_ends run o : ends (writeCanonicalTrun run o) (λ _, True).
Proof. unfold writeCanonicalTrun. by repeat ends_step. Qed.

Lemma write_runs_ends runs m h : ends (write_runs runs m h) (λ _, True).
Proof.
  induction runs as [|run runs IH]; cbn [write_runs]; [done|]. ends_step. eapply ends_bind; [apply writeCanonicalTrun_ends|].
  intros b _. by eapply ends_bind.
Qed.

Lemma writeTraf_ends s fs m h : fs ≠ [] → ends (writeTraf s fs m h) (λ _, True).
Proof.
  intros Hf. unfold writeTraf. ends_step. destruct fs as [|f fs]; [done|]. eapply ends_bind; [apply addTfdtOffset_ends|].
  intros d _. eapply ends_bind; [apply write_runs_ends|done].
Qed.

(** The ranges are the payloads; a length in Go is less than 2^63. *)
Lemma payload_ranges_ends st fs : Forall (stored st) fs → ends (payload_ranges st fs) (λ ps, len st < two63 → concat ps = media st fs).
Proof.
  induction 1 as [|f fs [Hw H1 H2 H3] _ IH]; cbn [payload_ranges]; [done|].
  assert (Hm : media st (f :: fs) = payload_of st f ++ media st fs) by (unfold media; by rewrite fmap_cons).
  ends_step; reflect_bools.
  - eapply ends_mono; [exact IH|]. intros ps Hps Hst. rewrite (Hps Hst), Hm. unfold payload_of. by rewrite Heqb.
  - repeat ends_step. reflect_bools. rewrite slice_in_range by lia. cbn [checked mbind go_bind]. eapply ends_bind; [exact IH|].
    intros ps Hps. cbn [ends mret go_ret concat]. intros Hst. rewrite Hm, (Hps Hst). f_equal. unfold payload_of.
    rewrite i64_id by (unfold in_i64, two63 in *; lia). f_equal. lia.
Qed.
