(* ===== verification/FragState.v ===== *)
(** * Fragments of a stream: the reader's state ([server/gstreamer/mp4box.go])

    The state of an [mp4BoxReader], in parts; setting one of its fields; and computations
    on it, which return an error or not, keep what they did before an error, and may
    crash ([FragSafe] shows that they do not).  A [linearGrowthBuffer] and a
    [bytes.Buffer] are their contents; their capacities are left out.  The callbacks
    [onInit] and [onSegment] are events the reader has sent. *)

From S2P Require Import Prelude GoText GoFloat Segment FragBox.
#[local] Open Scope Z_scope.

(** [linearGrowthBuffer]: how much it takes for a content. *)
Definition roundedBufferCapacity (required : Z) : Z :=
  if required <=? 0 then 0
  else
    let quantum := if 1048576 <=? required then 1048576 else 65536 in
    let remainder := required mod quantum in
    if remainder =? 0 then required
    else
      let delta := quantum - remainder in
      if two63 - 1 - delta <? required then required else required + delta.

Inductive boxTarget := boxTargetNone | boxTargetInit | boxTargetMoof | boxTargetPayload | boxTargetStyp | boxTargetPrefix.

Inductive event := OnInit (init : bytes) | OnSegment (segment : Segment).

Record config := mkConfig { segmentSeconds : float64; segmentDiff : Z; cueMode : bool }.

(** The box under way: the bytes of its header so far, and what is left of its body. *)
Record boxState := mkBoxState {
  boxHeader : bytes;
  boxHeaderRequired : Z;
  currentBoxType : Z;
  currentBoxRemaining : Z;
  currentTarget : boxTarget;
}.

(** The buffers; [rd_deferred] holds input that waits until the segment is served. *)
Record buffers := mkBuffers {
  rd_init : bytes;
  sourceMoof : bytes;
  sourceStyp : bytes;
  sourcePayload : bytes;
  rd_prefix : bytes;
  prefixActive : bool;
  rd_styp : bytes;
  rd_deferred : bytes;
}.

(** How far the stream is. *)
Record seen := mkSeen {
  initDone : bool;
  moovCompleted : bool;
  sourceMfraDone : bool;
  sourceFinalMoovDone : bool;
}.

(** Fragments that wait, and the one whose [mdat] is awaited. *)
Record queues := mkQueues {
  rd_video : list mp4Fragment;
  rd_audio : list mp4Fragment;
  rd_pending : option mp4Fragment;
  sourcePayloadFromMoof : Z;
  currentPayloadStart : Z;
}.

(** The tracks, and the last durations of their samples with the time scale. *)
Record tracks := mkTracks {
  videoTrack : trackInfo;
  audioTrack : trackInfo;
  videoSampleDurationHint : Z * Z;
  audioSampleDurationHint : Z * Z;
}.

(** Where the stream is; the segment asked for as start, end and tolerance. *)
Record timeline := mkTimeline {
  tfdtOffsetSeconds : float64;
  rd_sequence : Z;
  lastVideoEndTime : Z;
  completedVideoSegments : Z;
  targetSegment : option (Z * Z * Z);
}.

Record mp4BoxReader := mkReader {
  rd_conf : config;
  rd_box : boxState;
  rd_buf : buffers;
  rd_seen : seen;
  rd_queues : queues;
  rd_tracks : tracks;
  rd_time : timeline;
  rd_out : list event;
}.

(** ** Setting a field *)

Definition set_box (x : boxState) (r : mp4BoxReader) : mp4BoxReader := mkReader (rd_conf r) x (rd_buf r) (rd_seen r) (rd_queues r) (rd_tracks r) (rd_time r) (rd_out r).
Definition set_buf (x : buffers) (r : mp4BoxReader) : mp4BoxReader := mkReader (rd_conf r) (rd_box r) x (rd_seen r) (rd_queues r) (rd_tracks r) (rd_time r) (rd_out r).
Definition set_seen (x : seen) (r : mp4BoxReader) : mp4BoxReader := mkReader (rd_conf r) (rd_box r) (rd_buf r) x (rd_queues r) (rd_tracks r) (rd_time r) (rd_out r).
Definition set_queues (x : queues) (r : mp4BoxReader) : mp4BoxReader := mkReader (rd_conf r) (rd_box r) (rd_buf r) (rd_seen r) x (rd_tracks r) (rd_time r) (rd_out r).
Definition set_tracks (x : tracks) (r : mp4BoxReader) : mp4BoxReader := mkReader (rd_conf r) (rd_box r) (rd_buf r) (rd_seen r) (rd_queues r) x (rd_time r) (rd_out r).
Definition set_time (x : timeline) (r : mp4BoxReader) : mp4BoxReader := mkReader (rd_conf r) (rd_box r) (rd_buf r) (rd_seen r) (rd_queues r) (rd_tracks r) x (rd_out r).
Definition set_out (x : list event) (r : mp4BoxReader) : mp4BoxReader := mkReader (rd_conf r) (rd_box r) (rd_buf r) (rd_seen r) (rd_queues r) (rd_tracks r) (rd_time r) x.

Definition set_boxHeader (x : bytes) (r : mp4BoxReader) : mp4BoxReader :=
  set_box (mkBoxState x (boxHeaderRequired (rd_box r)) (currentBoxType (rd_box r)) (currentBoxRemaining (rd_box r)) (currentTarget (rd_box r))) r.
Definition set_boxHeaderRequired (x : Z) (r : mp4BoxReader) : mp4BoxReader :=
  set_box (mkBoxState (boxHeader (rd_box r)) x (currentBoxType (rd_box r)) (currentBoxRemaining (rd_box r)) (currentTarget (rd_box r))) r.
Definition set_currentBoxType (x : Z) (r : mp4BoxReader) : mp4BoxReader :=
  set_box (mkBoxState (boxHeader (rd_box r)) (boxHeaderRequired (rd_box r)) x (currentBoxRemaining (rd_box r)) (currentTarget (rd_box r))) r.
Definition set_currentBoxRemaining (x : Z) (r : mp4BoxReader) : mp4BoxReader :=
  set_box (mkBoxState (boxHeader (rd_box r)) (boxHeaderRequired (rd_box r)) (currentBoxType (rd_box r)) x (currentTarget (rd_box r))) r.
Definition set_currentTarget (x : boxTarget) (r : mp4BoxReader) : mp4BoxReader :=
  set_box (mkBoxState (boxHeader (rd_box r)) (boxHeaderRequired (rd_box r)) (currentBoxType (rd_box r)) (currentBoxRemaining (rd_box r)) x) r.
Definition set_init (x : bytes) (r : mp4BoxReader) : mp4BoxReader :=
  set_buf (mkBuffers x (sourceMoof (rd_buf r)) (sourceStyp (rd_buf r)) (sourcePayload (rd_buf r)) (rd_prefix (rd_buf r)) (prefixActive (rd_buf r)) (rd_styp (rd_buf r)) (rd_deferred (rd_buf r))) r.
Definition set_sourceMoof (x : bytes) (r : mp4BoxReader) : mp4BoxReader :=
  set_buf (mkBuffers (rd_init (rd_buf r)) x (sourceStyp (rd_buf r)) (sourcePayload (rd_buf r)) (rd_prefix (rd_buf r)) (prefixActive (rd_buf r)) (rd_styp (rd_buf r)) (rd_deferred (rd_buf r))) r.
Definition set_sourceStyp (x : bytes) (r : mp4BoxReader) : mp4BoxReader :=
  set_buf (mkBuffers (rd_init (rd_buf r)) (sourceMoof (rd_buf r)) x (sourcePayload (rd_buf r)) (rd_prefix (rd_buf r)) (prefixActive (rd_buf r)) (rd_styp (rd_buf r)) (rd_deferred (rd_buf r))) r.
Definition set_sourcePayload (x : bytes) (r : mp4BoxReader) : mp4BoxReader :=
  set_buf (mkBuffers (rd_init (rd_buf r)) (sourceMoof (rd_buf r)) (sourceStyp (rd_buf r)) x (rd_prefix (rd_buf r)) (prefixActive (rd_buf r)) (rd_styp (rd_buf r)) (rd_deferred (rd_buf r))) r.
Definition set_prefix (x : bytes) (r : mp4BoxReader) : mp4BoxReader :=
  set_buf (mkBuffers (rd_init (rd_buf r)) (sourceMoof (rd_buf r)) (sourceStyp (rd_buf r)) (sourcePayload (rd_buf r)) x (prefixActive (rd_buf r)) (rd_styp (rd_buf r)) (rd_deferred (rd_buf r))) r.
Definition set_prefixActive (x : bool) (r : mp4BoxReader) : mp4BoxReader :=
  set_buf (mkBuffers (rd_init (rd_buf r)) (sourceMoof (rd_buf r)) (sourceStyp (rd_buf r)) (sourcePayload (rd_buf r)) (rd_prefix (rd_buf r)) x (rd_styp (rd_buf r)) (rd_deferred (rd_buf r))) r.
Definition set_styp (x : bytes) (r : mp4BoxReader) : mp4BoxReader :=
  set_buf (mkBuffers (rd_init (rd_buf r)) (sourceMoof (rd_buf r)) (sourceStyp (rd_buf r)) (sourcePayload (rd_buf r)) (rd_prefix (rd_buf r)) (prefixActive (rd_buf r)) x (rd_deferred (rd_buf r))) r.
Definition set_deferred (x : bytes) (r : mp4BoxReader) : mp4BoxReader :=
  set_buf (mkBuffers (rd_init (rd_buf r)) (sourceMoof (rd_buf r)) (sourceStyp (rd_buf r)) (sourcePayload (rd_buf r)) (rd_prefix (rd_buf r)) (prefixActive (rd_buf r)) (rd_styp (rd_buf r)) x) r.
Definition set_initDone (x : bool) (r : mp4BoxReader) : mp4BoxReader :=
  set_seen (mkSeen x (moovCompleted (rd_seen r)) (sourceMfraDone (rd_seen r)) (sourceFinalMoovDone (rd_seen r))) r.
Definition set_moovCompleted (x : bool) (r : mp4BoxReader) : mp4BoxReader :=
  set_seen (mkSeen (initDone (rd_seen r)) x (sourceMfraDone (rd_seen r)) (sourceFinalMoovDone (rd_seen r))) r.
Definition set_sourceMfraDone (x : bool) (r : mp4BoxReader) : mp4BoxReader :=
  set_seen (mkSeen (initDone (rd_seen r)) (moovCompleted (rd_seen r)) x (sourceFinalMoovDone (rd_seen r))) r.
Definition set_sourceFinalMoovDone (x : bool) (r : mp4BoxReader) : mp4BoxReader :=
  set_seen (mkSeen (initDone (rd_seen r)) (moovCompleted (rd_seen r)) (sourceMfraDone (rd_seen r)) x) r.
Definition set_video (x : list mp4Fragment) (r : mp4BoxReader) : mp4BoxReader :=
  set_queues (mkQueues x (rd_audio (rd_queues r)) (rd_pending (rd_queues r)) (sourcePayloadFromMoof (rd_queues r)) (currentPayloadStart (rd_queues r))) r.
Definition set_audio (x : list mp4Fragment) (r : mp4BoxReader) : mp4BoxReader :=
  set_queues (mkQueues (rd_video (rd_queues r)) x (rd_pending (rd_queues r)) (sourcePayloadFromMoof (rd_queues r)) (currentPayloadStart (rd_queues r))) r.
Definition set_pending (x : option mp4Fragment) (r : mp4BoxReader) : mp4BoxReader :=
  set_queues (mkQueues (rd_video (rd_queues r)) (rd_audio (rd_queues r)) x (sourcePayloadFromMoof (rd_queues r)) (currentPayloadStart (rd_queues r))) r.
Definition set_sourcePayloadFromMoof (x : Z) (r : mp4BoxReader) : mp4BoxReader :=
  set_queues (mkQueues (rd_video (rd_queues r)) (rd_audio (rd_queues r)) (rd_pending (rd_queues r)) x (currentPayloadStart (rd_queues r))) r.
Definition set_currentPayloadStart (x : Z) (r : mp4BoxReader) : mp4BoxReader :=
  set_queues (mkQueues (rd_video (rd_queues r)) (rd_audio (rd_queues r)) (rd_pending (rd_queues r)) (sourcePayloadFromMoof (rd_queues r)) x) r.
Definition set_videoTrack (x : trackInfo) (r : mp4BoxReader) : mp4BoxReader :=
  set_tracks (mkTracks x (audioTrack (rd_tracks r)) (videoSampleDurationHint (rd_tracks r)) (audioSampleDurationHint (rd_tracks r))) r.
Definition set_audioTrack (x : trackInfo) (r : mp4BoxReader) : mp4BoxReader :=
  set_tracks (mkTracks (videoTrack (rd_tracks r)) x (videoSampleDurationHint (rd_tracks r)) (audioSampleDurationHint (rd_tracks r))) r.
Definition set_videoSampleDurationHint (x : Z * Z) (r : mp4BoxReader) : mp4BoxReader :=
  set_tracks (mkTracks (videoTrack (rd_tracks r)) (audioTrack (rd_tracks r)) x (audioSampleDurationHint (rd_tracks r))) r.
Definition set_audioSampleDurationHint (x : Z * Z) (r : mp4BoxReader) : mp4BoxReader :=
  set_tracks (mkTracks (videoTrack (rd_tracks r)) (audioTrack (rd_tracks r)) (videoSampleDurationHint (rd_tracks r)) x) r.
Definition set_tfdtOffsetSeconds (x : float64) (r : mp4BoxReader) : mp4BoxReader :=
  set_time (mkTimeline x (rd_sequence (rd_time r)) (lastVideoEndTime (rd_time r)) (completedVideoSegments (rd_time r)) (targetSegment (rd_time r))) r.
Definition set_sequence (x : Z) (r : mp4BoxReader) : mp4BoxReader :=
  set_time (mkTimeline (tfdtOffsetSeconds (rd_time r)) x (lastVideoEndTime (rd_time r)) (completedVideoSegments (rd_time r)) (targetSegment (rd_time r))) r.
Definition set_lastVideoEndTime (x : Z) (r : mp4BoxReader) : mp4BoxReader :=
  set_time (mkTimeline (tfdtOffsetSeconds (rd_time r)) (rd_sequence (rd_time r)) x (completedVideoSegments (rd_time r)) (targetSegment (rd_time r))) r.
Definition set_completedVideoSegments (x : Z) (r : mp4BoxReader) : mp4BoxReader :=
  set_time (mkTimeline (tfdtOffsetSeconds (rd_time r)) (rd_sequence (rd_time r)) (lastVideoEndTime (rd_time r)) x (targetSegment (rd_time r))) r.
Definition set_targetSegment (x : option (Z * Z * Z)) (r : mp4BoxReader) : mp4BoxReader :=
  set_time (mkTimeline (tfdtOffsetSeconds (rd_time r)) (rd_sequence (rd_time r)) (lastVideoEndTime (rd_time r)) (completedVideoSegments (rd_time r)) x) r.

(** ** Computations *)

Inductive result (A : Type) : Type :=
| Returned (r : mp4BoxReader) (a : A)
| Failed (r : mp4BoxReader) (e : string)
| Crashed.
Arguments Returned {A} _ _.
Arguments Failed {A} _ _.
Arguments Crashed {A}.

Definition reading (A : Type) : Type := mp4BoxReader → result A.

#[export] Instance reading_ret : MRet reading := λ A a r, Returned r a.
#[export] Instance reading_bind : MBind reading := λ A B f m r,
  match m r with Returned r a => f a r | Failed r e => Failed r e | Crashed => Crashed end.

Definition done {A} (a : A) : reading A := λ r, Returned r a.
Definition fail {A} (e : string) : reading A := λ r, Failed r e.
Definition get : reading mp4BoxReader := λ r, Returned r r.
Definition change (f : mp4BoxReader → mp4BoxReader) : reading () := λ r, Returned (f r) ().
Definition lift {A} (m : go A) : reading A := λ r,
  match m with Ok a => Returned r a | Err e => Failed r e | Crash => Crashed end.
(** [if cond { return errors.New(e) }] *)
Definition refuse (cond : bool) (e : string) : reading () := if cond then fail e else done ().
