(* ===== verification/FragReader.v ===== *)
(** * Fragments of a stream: the reader ([server/gstreamer/mp4box.go])

    The pipeline pushes bytes as they come; the reader finds the boxes, queues the
    fragments, and sends a segment as soon as the queues hold one.  At most one segment is
    sent per call; what was pushed after it waits in [rd_deferred]. *)

From Stdlib Require Import SpecFloat.
From S2P Require Import Prelude GoText GoFloat Segment FragBox FragTrack FragState.
#[local] Open Scope Z_scope.

Definition Mp4BoxReader (seconds : float64) (diff : Z) (cue : bool) : mp4BoxReader :=
  let seconds := if negb (is_finite_float seconds) || SFleb seconds (of_int 0) then of_int 6 else seconds in
  mkReader (mkConfig seconds (Z.max diff 0) cue)
    (mkBoxState [] 8 0 0 boxTargetNone) (mkBuffers [] [] [] [] [] false [] []) (mkSeen false false false false)
    (mkQueues [] [] None 0 0) (mkTracks noTrack noTrack (0, 0) (0, 0)) (mkTimeline (S754_zero false) 1 0 0 None) [].

Definition resetBoxState : mp4BoxReader → mp4BoxReader := set_box (mkBoxState [] 8 0 0 boxTargetNone).
Definition resetPrefix (r : mp4BoxReader) : mp4BoxReader := set_prefix [] (set_prefixActive false r).
Definition clearFragments (r : mp4BoxReader) : mp4BoxReader := set_video [] (set_audio [] r).
Definition clearSource (r : mp4BoxReader) : mp4BoxReader :=
  set_pending None (set_sourcePayload [] (set_sourcePayloadFromMoof 0 (set_currentPayloadStart 0 (set_sourceMoof [] r)))).

Definition SeekReset (seconds : float64) (r : mp4BoxReader) : mp4BoxReader :=
  let offset := if is_finite_float seconds && flt (of_int 0) seconds then seconds else S754_zero false in
  let r := set_seen (mkSeen false false false false) r in
  let r := set_tracks (mkTracks noTrack noTrack (0, 0) (0, 0)) r in
  let r := set_time (mkTimeline offset 1 0 0 None) r in
  let r := set_init [] (set_sourceMoof [] (set_sourceStyp [] (set_deferred [] (set_styp [] r)))) in
  resetBoxState (resetPrefix (clearFragments (clearSource r))).

Definition SetTimelineOffsetNS (offsetNS : Z) : mp4BoxReader → mp4BoxReader :=
  set_tfdtOffsetSeconds (if offsetNS =? MaxUint64 then S754_zero false else fdiv (of_int offsetNS) (of_int 1000000000)).

Definition SetTargetSegment (startNS endNS toleranceNS : Z) : reading () :=
  r ← get;
  if negb (cueMode (rd_conf r)) then done ()
  else
    _ ← refuse (endNS <=? startNS) "invalid cue segment range";
    change (set_targetSegment (Some (startNS, endNS, Z.max toleranceNS 1))).

(** ** Segments *)

Definition selectCueVideoCount : reading Z :=
  r ← get;
  match targetSegment (rd_time r), rd_video (rd_queues r) with
  | Some (startNS, endNS, tolerance), first :: ((_ :: _) as rest) =>
      p ← lift (firstPresentationTime first);
      lift (cue_loop rest p (tr_timescale (videoTrack (rd_tracks r))) (u64 (endNS - startNS)) tolerance 1)
  | _, _ => done 0
  end.

Definition selectVideoCount : reading Z :=
  r ← get;
  match rd_video (rd_queues r) with
  | [] => done 0
  | first :: _ =>
      let timescale := tr_timescale (videoTrack (rd_tracks r)) in
      let seconds := segmentSeconds (rd_conf r) in
      let diff := segmentDiff (rd_conf r) in
      let completed := completedVideoSegments (rd_time r) in
      _ ← refuse (negb (f_startsWithSync first)) "video segment starts with a non-sync sample";
      if cueMode (rd_conf r) then selectCueVideoCount
      else
        target ← lift (toUnits seconds timescale);
        let takeFirstSyncBoundary :=
          (0 <? completed) && (0 <? diff) &&
          (let expectedEnd := u64 (u64 (completed * to_uint64 (Trunc seconds)) * timescale) in
           let d := u64 (to_uint64 (Trunc (fadd seconds (of_int diff))) * timescale) in
           (expectedEnd <? lastVideoEndTime (rd_time r)) && (d <=? lastVideoEndTime (rd_time r) - expectedEnd)) in
        done (video_loop takeFirstSyncBoundary target (rd_video (rd_queues r)) 0 0 0)
  end.

Definition selectAudioCount (videoEnd : Z) : reading Z :=
  r ← get;
  '(audio, n) ← lift (select_audio (rd_audio (rd_queues r)) videoEnd (tr_timescale (videoTrack (rd_tracks r))) 0);
  _ ← change (set_audio audio);
  done n.

(** [traf]s of the queues, where a side takes part. *)
Definition write_side (has : bool) (offset : float64) (fs : list mp4Fragment) (moofSize mdatHeaderSize : Z) : go bytes :=
  if has then writeTraf offset fs moofSize mdatHeaderSize else Ok [].

Definition removeFragments (fragments : list mp4Fragment) (count : Z) : go (list mp4Fragment) :=
  if count <=? 0 then Ok fragments else checked (slice_from fragments count).

Definition buildSegment (videoCount audioCount : Z) (allowSingleTrack : bool) : reading () :=
  r ← get;
  let video := rd_video (rd_queues r) in
  let audio := rd_audio (rd_queues r) in
  _ ← refuse ((videoCount <? 0) || (len video <? videoCount)) "invalid video fragment count";
  _ ← refuse ((audioCount <? 0) || (len audio <? audioCount)) "invalid audio fragment count";
  let hasVideo := 0 <? videoCount in
  let hasAudio := 0 <? audioCount in
  let sourceHasAudio := negb (tr_id (audioTrack (rd_tracks r)) =? 0) in
  _ ← refuse (negb hasVideo && negb hasAudio) "segment contains no fragments";
  _ ← refuse (hasAudio && negb sourceHasAudio) "video-only source unexpectedly contains audio fragments";
  _ ← refuse (negb allowSingleTrack && negb hasVideo) "regular segment must contain video";
  _ ← refuse (negb allowSingleTrack && sourceHasAudio && negb hasAudio) "regular segment must contain audio for an audio/video source";
  _ ← (if hasVideo then lift (validateTrack video videoCount) else done ());
  _ ← (if hasAudio then lift (validateTrack audio audioCount) else done ());
  let '(video, payloadLength) := if hasVideo then assignOffsets video (Z.to_nat videoCount) 0 else (video, 0) in
  let '(audio, payloadLength) := if hasAudio then assignOffsets audio (Z.to_nat audioCount) payloadLength else (audio, payloadLength) in
  _ ← change (λ r, set_audio audio (set_video video r));
  let v := take (Z.to_nat videoCount) video in
  let a := take (Z.to_nat audioCount) audio in
  let moofSize := 24 + (if hasVideo then getTrafSize v else 0) + (if hasAudio then getTrafSize a else 0) in
  _ ← refuse (MaxUint32 <? moofSize) "combined moof is too large";
  let mdatHeaderSize := if MaxUint32 <? u64 (u64 payloadLength + 8) then 16 else 8 in
  let offset := tfdtOffsetSeconds (rd_time r) in
  _ ← change (set_sequence (u32 (rd_sequence (rd_time r) + 1)));
  videoTraf ← lift (write_side hasVideo offset v moofSize mdatHeaderSize);
  audioTraf ← lift (write_side hasAudio offset a moofSize mdatHeaderSize);
  let header :=
    rd_styp (rd_buf r) ++ (if prefixActive (rd_buf r) then rd_prefix (rd_buf r) else []) ++
    writeHeader moofSize boxMoof ++ writeMfhd (rd_sequence (rd_time r)) ++ videoTraf ++ audioTraf ++
    writeMdatHeader (u64 payloadLength) mdatHeaderSize in
  let side := if hasVideo then v else a in
  first ← lift (checked (head side));
  last ← lift (checked (last side));
  _ ← refuse (f_timescale first =? 0) "segment first track has zero timescale";
  _ ← refuse (f_timescale last =? 0) "segment last track has zero timescale";
  startNS ← lift (timelineNanoseconds (f_decodeTime first) (f_timescale first));
  endNS ← lift (timelineNanoseconds (endTime last) (f_timescale last));
  let offsetNS := if flt (of_int 0) offset then to_uint64 (Round (fmul offset (of_int 1000000000))) else 0 in
  _ ← refuse ((MaxUint64 - startNS <? offsetNS) || (MaxUint64 - endNS <? offsetNS)) "segment timeline offset overflow";
  videoPayloads ← lift (payload_ranges (sourcePayload (rd_buf r)) v);
  audioPayloads ← lift (payload_ranges (sourcePayload (rd_buf r)) a);
  _ ← change (λ r, set_out (rd_out r ++ [OnSegment (mkSegment header (videoPayloads ++ audioPayloads) (startNS + offsetNS) (endNS + offsetNS))]) r);
  _ ← change (λ r, if cueMode (rd_conf r) then set_targetSegment None r else r);
  video ← lift (removeFragments video videoCount);
  audio ← lift (removeFragments audio audioCount);
  _ ← change (λ r, if hasVideo then set_lastVideoEndTime (endTime last) (set_completedVideoSegments (completedVideoSegments (rd_time r) + 1) r) else r);
  _ ← change (λ r, set_audio audio (set_video video r));
  change resetPrefix.

Definition tryBuildSegment : reading bool :=
  videoCount ← selectVideoCount;
  if videoCount =? 0 then done false
  else
    r ← get;
    if tr_id (audioTrack (rd_tracks r)) =? 0 then _ ← buildSegment videoCount 0 false; done true
    else
      last ← lift (checked (idx (rd_video (rd_queues r)) (videoCount - 1)));
      audioCount ← selectAudioCount (endTime last);
      if audioCount =? 0 then done false
      else _ ← buildSegment videoCount audioCount false; done true.

(** ** Boxes *)

Definition writeCurrentBoxData (data : bytes) (r : mp4BoxReader) : mp4BoxReader :=
  match currentTarget (rd_box r) with
  | boxTargetNone => r
  | boxTargetInit => set_init (rd_init (rd_buf r) ++ data) r
  | boxTargetMoof => set_sourceMoof (sourceMoof (rd_buf r) ++ data) r
  | boxTargetPayload => set_sourcePayload (sourcePayload (rd_buf r) ++ data) r
  | boxTargetStyp => set_sourceStyp (sourceStyp (rd_buf r) ++ data) r
  | boxTargetPrefix => set_prefix (rd_prefix (rd_buf r) ++ data) r
  end.

Definition completeInit : reading () :=
  r ← get;
  let init := rd_init (rd_buf r) in
  _ ← refuse (negb (moovCompleted (rd_seen r)) || (len init =? 0)) "incomplete mp4 initialization";
  '(video, audio) ← lift (parseInitTracks init);
  change (λ r, set_out (rd_out r ++ [OnInit init]) (set_initDone true (set_videoTrack video (set_audioTrack audio r)))).

(** The header of the box is kept, and its body will be, in [target]. *)
Definition keep_header (target : boxTarget) (headerSize : Z) : reading () :=
  _ ← change (set_currentTarget target);
  r ← get;
  header ← lift (checked (slice (boxHeader (rd_box r)) 0 headerSize));
  change (writeCurrentBoxData header).

Definition is_pending (r : mp4BoxReader) : bool := bool_decide (is_Some (rd_pending (rd_queues r))).
(** [if r.pending != nil { r.sourcePayloadFromMoof += int64(size) }] *)
Definition pass_over (size : Z) (r : mp4BoxReader) : mp4BoxReader :=
  if is_pending r then set_sourcePayloadFromMoof (i64 (sourcePayloadFromMoof (rd_queues r) + i64 size)) r else r.

Definition beginBox (size headerSize : Z) : reading () :=
  r ← get;
  let t := currentBoxType (rd_box r) in
  _ ← refuse (size <? headerSize) "invalid mp4 box size";
  _ ← refuse (((t =? boxMoof) || (t =? boxMdat)) && (MaxInt32 <? size)) "moof/mdat is too large";
  _ ← change (λ r, set_currentTarget boxTargetNone (set_currentBoxRemaining (size - headerSize) r));
  _ ← (if negb (initDone (rd_seen r)) && ((t =? boxStyp) || (t =? boxMoof)) then completeInit else done ());
  r ← get;
  if negb (initDone (rd_seen r)) then
    _ ← refuse (t =? boxMdat) "mdat appeared before init was completed";
    _ ← refuse (t =? boxMfra) "mfra appeared before init was completed";
    keep_header boxTargetInit headerSize
  else
    _ ← refuse (sourceFinalMoovDone (rd_seen r)) "unexpected top-level mp4 box after terminal moov";
    _ ← refuse (sourceMfraDone (rd_seen r) && negb (t =? boxMoov)) "only the rewritten terminal moov is allowed after mfra";
    if t =? boxMoof then
      _ ← refuse (is_pending r) "a new moof appeared before the previous mdat";
      _ ← change (λ r, set_sourcePayloadFromMoof 0 (set_sourceMoof [] r));
      keep_header boxTargetMoof headerSize
    else if t =? boxMdat then
      _ ← refuse (negb (is_pending r)) "mdat does not follow a supported moof";
      change (λ r, set_currentTarget boxTargetPayload
        (set_sourcePayloadFromMoof (i64 (sourcePayloadFromMoof (rd_queues r) + headerSize))
          (set_currentPayloadStart (len (sourcePayload (rd_buf r))) r)))
    else if t =? boxSidx then change (pass_over size)
    else if t =? boxStyp then
      _ ← refuse (is_pending r) "styp cannot appear between moof and mdat";
      _ ← change (set_sourceStyp []);
      keep_header boxTargetStyp headerSize
    else if (t =? boxEmsg) || (t =? boxFree) || (t =? boxPrft) then
      _ ← change (λ r, set_prefixActive true (pass_over size r));
      keep_header boxTargetPrefix headerSize
    else if t =? boxMfra then
      _ ← refuse (is_pending r) "mfra cannot appear between moof and mdat";
      refuse (sourceMfraDone (rd_seen r)) "duplicate terminal mfra"
    else if t =? boxMoov then
      _ ← refuse (negb (sourceMfraDone (rd_seen r))) "unexpected moov after mp4 initialization";
      _ ← refuse (sourceFinalMoovDone (rd_seen r)) "duplicate terminal moov";
      refuse (is_pending r) "final moov cannot appear between moof and mdat"
    else fail "unsupported top-level mp4 box after init".

(** [resolvePreviousInferredDuration] *)
Definition resolvePreviousInferredDuration (current : mp4Fragment) : reading () :=
  r ← get;
  let resolve fragments put hint :=
    match last fragments with
    | Some previous =>
        if negb (f_hasInferredDuration previous) then done ()
        else
          '(previous, exact) ← lift (resolve_inferred previous (f_decodeTime current));
          _ ← change (put (take (length fragments - 1) fragments ++ [previous]));
          if negb (exact =? 0) then change (hint (exact, f_timescale current)) else done ()
    | None => done ()
    end in
  if f_trackID current =? tr_id (videoTrack (rd_tracks r)) then
    resolve (rd_video (rd_queues r)) set_video set_videoSampleDurationHint
  else if f_trackID current =? tr_id (audioTrack (rd_tracks r)) then
    resolve (rd_audio (rd_queues r)) set_audio set_audioSampleDurationHint
  else done ().

(** A hint holds for the time scale it was taken in. *)
Definition usable_hint (hint : Z * Z) (track : trackInfo) : Z := if hint.2 =? tr_timescale track then hint.1 else 0.

Definition completeMoof : reading () :=
  r ← get;
  let tr := rd_tracks r in
  fragment ← lift (parseSourceMoof (sourceMoof (rd_buf r)) (videoTrack tr) (audioTrack tr)
    (usable_hint (videoSampleDurationHint tr) (videoTrack tr)) (usable_hint (audioSampleDurationHint tr) (audioTrack tr)));
  _ ← resolvePreviousInferredDuration fragment;
  _ ← (if negb (f_hasInferredDuration fragment) then
         let duration := lastSampleDuration fragment in
         if duration =? 0 then done ()
         else if f_trackID fragment =? tr_id (videoTrack tr) then change (set_videoSampleDurationHint (duration, f_timescale fragment))
         else if f_trackID fragment =? tr_id (audioTrack tr) then change (set_audioSampleDurationHint (duration, f_timescale fragment))
         else done ()
       else done ());
  change (λ r, set_sourcePayloadFromMoof (len (sourceMoof (rd_buf r))) (set_pending (Some fragment) r)).

Definition completeMdat : reading () :=
  r ← get;
  match rd_pending (rd_queues r) with
  | None => fail "completed mdat has no source moof"
  | Some pending =>
      let start := currentPayloadStart (rd_queues r) in
      f ← lift (attachPayload pending start (len (sourcePayload (rd_buf r)) - start) (sourcePayloadFromMoof (rd_queues r)));
      _ ← (if f_trackID f =? tr_id (videoTrack (rd_tracks r)) then change (set_video (rd_video (rd_queues r) ++ [f]))
           else if negb (tr_id (audioTrack (rd_tracks r)) =? 0) && (f_trackID f =? tr_id (audioTrack (rd_tracks r)))
           then change (set_audio (rd_audio (rd_queues r) ++ [f]))
           else fail "unsupported track_ID");
      change (λ r, set_pending None (set_sourcePayloadFromMoof 0 (set_currentPayloadStart 0 (set_sourceMoof [] r))))
  end.

Definition completeBox : reading bool :=
  r ← get;
  let t := currentBoxType (rd_box r) in
  if t =? boxStyp then
    _ ← change (λ r, set_sourceStyp []
      (if (len (rd_styp (rd_buf r)) =? 0) && (0 <? len (sourceStyp (rd_buf r))) then set_styp (sourceStyp (rd_buf r)) r else r));
    done false
  else if t =? boxMfra then _ ← change (set_sourceMfraDone true); done false
  else if t =? boxMoov then
    if initDone (rd_seen r) then
      _ ← refuse (negb (sourceMfraDone (rd_seen r)) || sourceFinalMoovDone (rd_seen r)) "unexpected moov after mp4 initialization";
      _ ← change (set_sourceFinalMoovDone true); done false
    else _ ← change (set_moovCompleted true); done false
  else if t =? boxMoof then _ ← completeMoof; done false
  else if t =? boxMdat then _ ← completeMdat; tryBuildSegment
  else done false.

(** ** Input *)

(** The header of a box is complete. *)
Definition headerRead : reading () :=
  r ← get;
  let header := boxHeader (rd_box r) in
  if boxHeaderRequired (rd_box r) =? 8 then
    size32 ← lift (Uint32 header 0);
    boxType ← lift (Uint32 header 4);
    _ ← change (set_currentBoxType boxType);
    if size32 =? 1 then change (set_boxHeaderRequired 16)
    else
      _ ← refuse (size32 =? 0) "top-level mp4 box size=0 is not supported";
      beginBox size32 8
  else
    size64 ← lift (Uint64 header 8);
    beginBox size64 16.

(** The body of a box is complete: whether a segment was sent. *)
Definition bodyRead : reading bool :=
  completed ← completeBox;
  _ ← change resetBoxState;
  done completed.

(** The header is complete, and a box without a body too; [continue] while a longer
    header is needed. *)
Definition headerDone : reading bool :=
  _ ← headerRead;
  r ← get;
  if (len (boxHeader (rd_box r)) <? boxHeaderRequired (rd_box r)) || negb (currentBoxRemaining (rd_box r) =? 0)
  then done false else bodyRead.

(** The loop of [processBytes] on the input that is left, and what is left after it. *)
Fixpoint process_loop (fuel : nat) (data : bytes) : reading (bytes * bool) :=
  match data, fuel with
  | [], _ => done ([], false)
  | _, O => λ _, Crashed
  | _, S fuel =>
      r ← get;
      let header := boxHeader (rd_box r) in
      let required := boxHeaderRequired (rd_box r) in
      if len header <? required then
        let copyLen := Z.min (required - len header) (len data) in
        _ ← change (set_boxHeader (header ++ take (Z.to_nat copyLen) data));
        let data := drop (Z.to_nat copyLen) data in
        if len header + copyLen <? required then done (data, false)
        else
          completed ← headerDone;
          if (completed : bool) then done (data, true) else process_loop fuel data
      else
        let bodySize := Z.min (len data) (Z.min (len data) (currentBoxRemaining (rd_box r))) in
        if bodySize <=? 0 then done (data, false)
        else
          _ ← change (writeCurrentBoxData (take (Z.to_nat bodySize) data));
          _ ← change (set_currentBoxRemaining (currentBoxRemaining (rd_box r) - bodySize));
          let data := drop (Z.to_nat bodySize) data in
          r ← get;
          if currentBoxRemaining (rd_box r) =? 0 then
            completed ← bodyRead;
            if (completed : bool) then done (data, true) else process_loop fuel data
          else process_loop fuel data
  end.

(** How many bytes were consumed, and whether a segment was sent. *)
Definition processBytes (data : bytes) : reading (Z * bool) :=
  '(rest, completed) ← process_loop (length data) data;
  done (len data - len rest, completed).

Definition keepDeferred (consumed : Z) : reading () :=
  r ← get;
  let count := len (rd_deferred (rd_buf r)) - consumed in
  if count <=? 0 then change (set_deferred [])
  else
    d ← lift (checked (slice_from (rd_deferred (rd_buf r)) consumed));
    change (set_deferred d).

Definition TryProcessDeferred : reading bool :=
  completed ← tryBuildSegment;
  if (completed : bool) then done true
  else
    r ← get;
    let data := rd_deferred (rd_buf r) in
    if len data =? 0 then done false
    else
      '(consumed, completed) ← processBytes data;
      if (completed : bool) then _ ← keepDeferred consumed; done true
      else
        _ ← refuse (negb (consumed =? len data)) "mp4 parser consumed too few deferred bytes";
        _ ← change (set_deferred []);
        done false.

Definition defer (data : bytes) (r : mp4BoxReader) : mp4BoxReader := set_deferred (rd_deferred (rd_buf r) ++ data) r.

Definition Push (data : bytes) : reading () :=
  if len data =? 0 then done ()
  else
    completed ← TryProcessDeferred;
    if (completed : bool) then change (defer data)
    else
      '(consumed, segmentCompleted) ← processBytes data;
      if negb segmentCompleted then done ()
      else if consumed <? len data then
        d ← lift (checked (slice_from data consumed));
        change (defer d)
      else done ().

(** ** The end of the stream *)

Definition TryBuildEndOfStreamRemainder : reading bool :=
  r ← get;
  let video := rd_video (rd_queues r) in
  let audio := rd_audio (rd_queues r) in
  if cueMode (rd_conf r) && bool_decide (targetSegment (rd_time r) = None) then done false
  else if (len video =? 0) && (len audio =? 0) then done false
  else if negb (match video with f :: _ => f_startsWithSync f | [] => true end) then done false
  else
    audioCount ←
      (if (0 <? len video) && (0 <? len audio) then
         lastVideo ← lift (checked (last video));
         selected ← selectAudioCount (endTime lastVideo);
         done (if 0 <? selected then selected else len audio)
       else done (len audio));
    _ ← buildSegment (len video) audioCount true;
    _ ← change (λ r, if (0 <? len video) && (len (rd_video (rd_queues r)) =? 0) then set_audio [] r else r);
    done true.

Definition EndOfStreamError (r : mp4BoxReader) : option string :=
  if negb (len (boxHeader (rd_box r)) =? 0) then Some "incomplete top-level box header"
  else if negb (currentBoxRemaining (rd_box r) =? 0) then Some "incomplete box"
  else if is_pending r then Some "moof has no complete mdat"
  else if negb (len (sourcePayload (rd_buf r)) =? 0) then Some "uncommitted mdat payload bytes"
  else if negb (len (sourceMoof (rd_buf r)) =? 0) then Some "uncommitted moof bytes"
  else if negb (len (rd_deferred (rd_buf r)) =? 0) then Some "unprocessed deferred bytes"
  else None.

(** ** Releasing payloads *)

Definition minPayloadStart (current value : Z) : Z := if (current <? 0) || (value <? current) then value else current.
Definition minFragmentPayloadStart (current : Z) (fs : list mp4Fragment) : Z :=
  foldl (λ current f, if f_payloadLen f <=? 0 then current else minPayloadStart current (f_payloadStart f)) current fs.

Definition minQueuedPayloadStart (r : mp4BoxReader) : Z :=
  let minStart := minFragmentPayloadStart (minFragmentPayloadStart (-1) (rd_video (rd_queues r))) (rd_audio (rd_queues r)) in
  match rd_pending (rd_queues r) with
  | Some p => if 0 <? f_payloadLen p then minPayloadStart minStart (f_payloadStart p) else minStart
  | None => minStart
  end.

Definition shift_start (delta : Z) (f : mp4Fragment) : mp4Fragment :=
  if 0 <? f_payloadLen f then
    mkFragment (f_trackID f) (f_timescale f) (f_decodeTime f) (f_duration f) (f_startsWithSync f) (f_sampleDescriptionIndex f)
      (f_tfhd f) (f_runs f) (f_payloadStart f - delta) (f_payloadLen f) (f_hasInferredDuration f)
  else f.
Definition shiftFragmentPayloadStarts (fs : list mp4Fragment) (delta : Z) : list mp4Fragment := shift_start delta <$> fs.

Definition ReclaimPayloads : reading () :=
  r ← get;
  let data := sourcePayload (rd_buf r) in
  if len data =? 0 then done ()
  else
    let minStart := minQueuedPayloadStart r in
    if minStart <? 0 then change (λ r, set_currentPayloadStart 0 (set_sourcePayload [] r))
    else if minStart =? 0 then done ()
    else
      d ← lift (checked (slice_from data minStart));
      change (λ r,
        let q := rd_queues r in
        set_queues (mkQueues (shiftFragmentPayloadStarts (rd_video q) minStart) (shiftFragmentPayloadStarts (rd_audio q) minStart)
            (shift_start minStart <$> rd_pending q) (sourcePayloadFromMoof q)
            (if minStart <=? currentPayloadStart q then currentPayloadStart q - minStart else 0))
          (set_sourcePayload d r)).

Definition ReleaseSegment : reading () := ReclaimPayloads.
