(* ===== verification/FragInv.v ===== *)
(** * Fragments of a stream: the reader never panics

    [wp m r Q F]: run from [r], the computation does not crash; what it returns satisfies
    [Q], and the state it leaves behind after an error satisfies [F].  The invariant [inv]
    holds after every call, errors included. *)

From Stdlib Require Import SpecFloat.
From S2P Require Import Prelude GoText Encoding GoFloat Segment FragBox FragTrack FragSafe FragQueue FragState FragReader.
#[local] Open Scope Z_scope.

(** ** Computations of the reader *)

Definition wp {A} (m : reading A) (r : mp4BoxReader) (Q : A → mp4BoxReader → Prop) (F : mp4BoxReader → Prop) : Prop :=
  match m r with Returned r a => Q a r | Failed r _ => F r | Crashed => False end.

Lemma wp_bind {A B} (m : reading A) (f : A → reading B) r P Q F :
  wp m r P F → (∀ a r', P a r' → wp (f a) r' Q F) → wp (a ← m; f a) r Q F.
Proof. intros Hm Hf. unfold wp, mbind, reading_bind in *. destruct (m r); [by apply Hf|done|done]. Qed.

Lemma wp_mono {A} (m : reading A) r (P Q : A → mp4BoxReader → Prop) (F G : mp4BoxReader → Prop) :
  wp m r P F → (∀ a r', P a r' → Q a r') → (∀ r', F r' → G r') → wp m r Q G.
Proof. unfold wp. destruct (m r); auto. Qed.

Lemma wp_done {A} (a : A) r Q F : Q a r → wp (done a) r Q F.
Proof. done. Qed.

Lemma wp_fail {A} e r (Q : A → mp4BoxReader → Prop) (F : mp4BoxReader → Prop) : F r → wp (fail e) r Q F.
Proof. done. Qed.

Lemma wp_change f r (Q : () → mp4BoxReader → Prop) F : Q tt (f r) → wp (change f) r Q F.
Proof. done. Qed.

Lemma wp_change_bind {A} f (k : () → reading A) r Q F : wp (k tt) (f r) Q F → wp (x ← change f; k x) r Q F.
Proof. done. Qed.

Lemma wp_get_bind {A} (k : mp4BoxReader → reading A) r Q F : wp (k r) r Q F → wp (x ← get; k x) r Q F.
Proof. done. Qed.

Lemma wp_lift {A} (m : go A) r (P : A → Prop) F : ends m P → F r → wp (lift m) r (λ a r', P a ∧ r' = r) F.
Proof. unfold wp, lift. destruct m; cbn; auto. Qed.

Lemma wp_lift_bind {A B} (m : go A) (k : A → reading B) r P Q F :
  ends m P → F r → (∀ a, P a → wp (k a) r Q F) → wp (x ← lift m; k x) r Q F.
Proof. intros Hm HF Hk. eapply wp_bind; [by apply wp_lift|]. intros a r' [Ha ->]. by apply Hk. Qed.

Lemma wp_lift_bind_eq {A B} (m : go A) (k : A → reading B) r P Q F :
  ends m P → F r → (∀ a, m = Ok a → P a → wp (k a) r Q F) → wp (x ← lift m; k x) r Q F.
Proof.
  intros Hm HF Hk. apply (wp_lift_bind _ _ _ (λ a, m = Ok a ∧ P a)); [by destruct m|done|]. intros a [? ?]. by apply Hk.
Qed.

Lemma wp_refuse_bind {A} c e (k : () → reading A) r Q (F : mp4BoxReader → Prop) :
  F r → (c = false → wp (k tt) r Q F) → wp (x ← refuse c e; k x) r Q F.
Proof. unfold refuse. intros HF Hk. destruct c; [done|]. by apply Hk. Qed.

Lemma wp_refuse c e r (Q : () → mp4BoxReader → Prop) (F : mp4BoxReader → Prop) : F r → (c = false → Q tt r) → wp (refuse c e) r Q F.
Proof. unfold refuse. intros HF Hk. destruct c; [done|]. by apply Hk. Qed.

(** [wp_step] goes over the next step; the state after an error must satisfy a known fact. *)
Ltac wp_step :=
  cbv beta zeta;
  lazymatch goal with
  | |- wp (mbind _ get) _ _ _ => apply wp_get_bind
  | |- wp (mbind _ (change _)) _ _ _ => apply wp_change_bind
  | |- wp (mbind _ (refuse ?c _)) _ _ _ => apply wp_refuse_bind; [try assumption|let H := fresh "Href" in intros H]
  | |- wp (refuse _ _) _ _ _ => apply wp_refuse; [try assumption|let H := fresh "Href" in intros H]
  | |- wp (fail _) _ _ _ => apply wp_fail
  | |- wp (done _) _ _ _ => apply wp_done
  | |- wp (change _) _ _ _ => apply wp_change
  | |- wp (if ?b then _ else _) _ _ _ => destruct b eqn:?
  end.

(** ** The invariant *)

Record tracks_ok (t : tracks) : Prop := {
  tk_video : track_ok (videoTrack t);
  tk_audio : track_ok (audioTrack t);
  tk_video_hint : is_u32 (videoSampleDurationHint t).1;
  tk_audio_hint : is_u32 (audioSampleDurationHint t).1;
}.

Record queues_ok (storage : bytes) (q : queues) : Prop := {
  qo_video : Forall (stored storage) (rd_video q);
  qo_audio : Forall (stored storage) (rd_audio q);
  qo_pending : ∀ f, rd_pending q = Some f → bare f;
  qo_start : 0 <= currentPayloadStart q <= len storage;
}.

Record box_ok (b : boxState) : Prop := {
  bo_header : bytes_ok (boxHeader b);
  bo_required : boxHeaderRequired b = 8 ∨ boxHeaderRequired b = 16;
  bo_length : len (boxHeader b) <= boxHeaderRequired b;
  bo_remaining : 0 <= currentBoxRemaining b;
}.

Record inv (r : mp4BoxReader) : Prop := {
  iv_box : box_ok (rd_box r);
  iv_init : bytes_ok (rd_init (rd_buf r));
  iv_moof : bytes_ok (sourceMoof (rd_buf r));
  iv_deferred : bytes_ok (rd_deferred (rd_buf r));
  iv_queues : queues_ok (sourcePayload (rd_buf r)) (rd_queues r);
  iv_tracks : tracks_ok (rd_tracks r);
}.

(** Changes that leave the parts the invariant is about. *)
Lemma inv_same r r' : rd_box r' = rd_box r → rd_init (rd_buf r') = rd_init (rd_buf r) → sourceMoof (rd_buf r') = sourceMoof (rd_buf r) →
  rd_deferred (rd_buf r') = rd_deferred (rd_buf r) → sourcePayload (rd_buf r') = sourcePayload (rd_buf r) →
  rd_queues r' = rd_queues r → rd_tracks r' = rd_tracks r → inv r → inv r'.
Proof. intros E1 E2 E3 E4 E5 E6 E7 []. constructor; congruence. Qed.

(** ** What segments carry *)

(** The bytes of the picture and of the sound in the segments that were sent: a segment
    carries its part of the picture and then its part of the sound. *)
Inductive carries : list event → bytes → bytes → Prop :=
| carries_nothing : carries [] [] []
| carries_init out i v a : carries out v a → carries (out ++ [OnInit i]) v a
| carries_segment out s v a v' a' : carries out v a → concat (Payloads s) = v' ++ a' →
    carries (out ++ [OnSegment s]) (v ++ v') (a ++ a').

(** Sent and queued, the picture is [V] and the sound is [A]. *)
Definition balance (r : mp4BoxReader) (V A : bytes) : Prop :=
  ∃ v a, carries (rd_out r) v a ∧
    v ++ media (sourcePayload (rd_buf r)) (rd_video (rd_queues r)) = V ∧
    a ++ media (sourcePayload (rd_buf r)) (rd_audio (rd_queues r)) = A.

(** No queued fragment is empty. *)
Definition solid (fs : list mp4Fragment) : Prop := Forall (λ f, 0 < f_payloadLen f) fs.
Definition solid_queues (r : mp4BoxReader) : Prop := solid (rd_video (rd_queues r)) ∧ solid (rd_audio (rd_queues r)).

(** The payloads start at [c] at the latest. *)
Definition below (c : Z) (fs : list mp4Fragment) : Prop := Forall (λ f, f_payloadStart f <= c) fs.

Lemma Forall_range (P : Z * Z → Prop) fs fs' : range_of <$> fs' = range_of <$> fs → Forall (λ f, P (range_of f)) fs → Forall (λ f, P (range_of f)) fs'.
Proof.
  intros E H. assert (Hz : Forall P (range_of <$> fs')) by (rewrite E; by apply Forall_fmap).
  exact (proj1 (Forall_fmap _ _ _) Hz).
Qed.

Lemma solid_range fs fs' : range_of <$> fs' = range_of <$> fs → solid fs → solid fs'.
Proof. apply (Forall_range (λ x, 0 < x.2)). Qed.

Lemma below_range c fs fs' : range_of <$> fs' = range_of <$> fs → below c fs → below c fs'.
Proof. apply (Forall_range (λ x, x.1 <= c)). Qed.

(** What building a segment leaves alone. *)
Record quiet (r r' : mp4BoxReader) : Prop := {
  qt_conf : rd_conf r' = rd_conf r;
  qt_box : rd_box r' = rd_box r;
  qt_seen : rd_seen r' = rd_seen r;
  qt_ids : videoTrack (rd_tracks r') = videoTrack (rd_tracks r) ∧ audioTrack (rd_tracks r') = audioTrack (rd_tracks r);
  qt_payload : sourcePayload (rd_buf r') = sourcePayload (rd_buf r);
  qt_moof : sourceMoof (rd_buf r') = sourceMoof (rd_buf r);
  qt_init : rd_init (rd_buf r') = rd_init (rd_buf r);
  qt_deferred : rd_deferred (rd_buf r') = rd_deferred (rd_buf r);
  qt_pending : rd_pending (rd_queues r') = rd_pending (rd_queues r);
  qt_from : sourcePayloadFromMoof (rd_queues r') = sourcePayloadFromMoof (rd_queues r);
  qt_start : currentPayloadStart (rd_queues r') = currentPayloadStart (rd_queues r);
}.

Lemma unmoved_refl r : quiet r r.
Proof. by constructor. Qed.

Lemma unmoved_trans r1 r2 r3 : quiet r1 r2 → quiet r2 r3 → quiet r1 r3.
Proof. intros [? ? ? [? ?]] [? ? ? [? ?]]. constructor; try congruence. split; congruence. Qed.

Lemma inv_fragments r v a : inv r → Forall (stored (sourcePayload (rd_buf r))) v → Forall (stored (sourcePayload (rd_buf r))) a →
  inv (set_audio a (set_video v r)).
Proof. intros [? ? ? ? [] ?] Hv Ha. by constructor; cbn. Qed.

Lemma offsets_kept st (b : bool) fs n o : Forall (stored st) fs →
  let fs' := (if b then assignOffsets fs n o else (fs, o)).1 in
  length fs' = length fs ∧ Forall (stored st) fs' ∧ payload_of st <$> fs' = payload_of st <$> fs ∧ range_of <$> fs' = range_of <$> fs.
Proof.
  intros Hs. destruct b; [|done]. destruct (assignOffsets_spec fs n o) as (H1&H0&_&_&_&H2). destruct (H2 st Hs). done.
Qed.

Lemma write_side_ends (b : bool) o fs m h : (b = true → fs ≠ []) → ends (write_side b o fs m h) (λ _, True).
Proof. intros Hf. unfold write_side. destruct b; [|done]. by apply writeTraf_ends, Hf. Qed.

Lemma removeFragments_ends fs n : 0 <= n <= len fs → ends (removeFragments fs n) (λ fs', fs' = drop (Z.to_nat n) fs).
Proof.
  intros Hn. unfold removeFragments. ends_step; reflect_bools.
  - cbn. by replace (Z.to_nat n) with 0%nat by lia.
  - unfold slice_from. rewrite slice_in_range by lia. cbn. rewrite take_ge; [done|]. unfold len. rewrite length_drop. lia.
Qed.

Lemma take_nonempty {A} n (l : list A) : 0 < n <= len l → take (Z.to_nat n) l ≠ [].
Proof. intros Hn E. apply (f_equal length) in E. rewrite length_take in E. unfold len in Hn. cbn in E. lia. Qed.

Lemma ends_head {A} (l : list A) : l ≠ [] → ends (checked (head l)) (λ _, True).
Proof. by destruct l. Qed.

Lemma ends_last {A} (l : list A) : l ≠ [] → ends (checked (last l)) (λ _, True).
Proof. intros Hl. destruct (last l) eqn:E; [done|]. by apply last_None in E. Qed.

(** Building a segment sends one, and takes its fragments from the queues. *)
Definition sends (r : mp4BoxReader) (n m : Z) (r' : mp4BoxReader) : Prop :=
  inv r' ∧ quiet r r' ∧ len (rd_video (rd_queues r')) = len (rd_video (rd_queues r)) - n ∧
  len (rd_audio (rd_queues r')) = len (rd_audio (rd_queues r)) - m ∧ (solid_queues r → solid_queues r') ∧
  (∀ c, below c (rd_video (rd_queues r)) → below c (rd_video (rd_queues r'))) ∧
  (len (sourcePayload (rd_buf r)) < two63 → ∀ V A, balance r V A → balance r' V A).

Lemma validate_wp (b : bool) fs n r (F : mp4BoxReader → Prop) : F r →
  wp (if b then lift (validateTrack fs n) else done ()) r (λ _ r', r' = r) F.
Proof.
  intros HF. destruct b; [|done]. eapply wp_mono; [by apply wp_lift; [apply validateTrack_ends|]|by intros ?? [_ ->]|done].
Qed.

(** The state after a segment, from what it changes. *)
Lemma sends_intro r r' n m v a s : let st := sourcePayload (rd_buf r) in
  rd_out r' = rd_out r ++ [OnSegment s] → inv r → 0 <= n → 0 <= m →
  length v = length (rd_video (rd_queues r)) → length a = length (rd_audio (rd_queues r)) →
  Forall (stored st) v → Forall (stored st) a →
  payload_of st <$> v = payload_of st <$> rd_video (rd_queues r) → payload_of st <$> a = payload_of st <$> rd_audio (rd_queues r) →
  range_of <$> v = range_of <$> rd_video (rd_queues r) → range_of <$> a = range_of <$> rd_audio (rd_queues r) →
  n <= len v → m <= len a →
  rd_video (rd_queues r') = drop (Z.to_nat n) v → rd_audio (rd_queues r') = drop (Z.to_nat m) a → quiet r r' → rd_tracks r' = rd_tracks r →
  (len st < two63 → concat (Payloads s) = media st (take (Z.to_nat n) v) ++ media st (take (Z.to_nat m) a)) → sends r n m r'.
Proof.
  intros st Ho Hi Hn Hm Lv La Hv Ha Mv Ma Zv Za Bn Bm Ev Ea Hq Ht Hs. destruct Hq. unfold sends. split_and!.
  - destruct Hi as [? ? ? ? [] ?]. constructor; try congruence. constructor; rewrite ?Ev, ?Ea, ?qt_payload0, ?qt_pending0, ?qt_start0; try done; by apply Forall_drop.
  - by constructor.
  - rewrite Ev. unfold len in *. rewrite length_drop. lia.
  - rewrite Ea. unfold len in *. rewrite length_drop. lia.
  - intros [Sv Sa]. unfold solid_queues. rewrite Ev, Ea. split; apply Forall_drop; by eapply solid_range.
  - intros c Hc. rewrite Ev. apply Forall_drop. by eapply below_range.
  - intros Hst V A (sv&sa&Hc&<-&<-). exists (sv ++ media st (take (Z.to_nat n) v)), (sa ++ media st (take (Z.to_nat m) a)).
    rewrite Ho, Ev, Ea, qt_payload0. split_and!; [by constructor; [|apply Hs]|..]; rewrite <- app_assoc; f_equal.
    + fold st. rewrite <- media_app, take_drop. unfold media. by rewrite Mv.
    + fold st. rewrite <- media_app, take_drop. unfold media. by rewrite Ma.
Qed.

Lemma buildSegment_wp n m single r : inv r → wp (buildSegment n m single) r (λ _, sends r n m) inv.
Proof.
  intros Hi. unfold buildSegment. repeat wp_step. reflect_bools.
  set (st := sourcePayload (rd_buf r)). set (v0 := rd_video (rd_queues r)) in *. set (a0 := rd_audio (rd_queues r)) in *.
  assert (Hv0 : Forall (stored st) v0) by apply Hi. assert (Ha0 : Forall (stored st) a0) by apply Hi.
  set (hv := 0 <? n) in *. set (ha := 0 <? m) in *.
  eapply wp_bind; [by apply validate_wp|]. intros _ ? ->. eapply wp_bind; [by apply validate_wp|]. intros _ ? ->.
  pose proof (offsets_kept st hv v0 (Z.to_nat n) 0 Hv0) as Hv.
  destruct (if hv then assignOffsets v0 (Z.to_nat n) 0 else (v0, 0)) as [v o] eqn:Ev. cbn [fst] in Hv. destruct Hv as (Lv&Hv&Mv&Zv).
  pose proof (offsets_kept st ha a0 (Z.to_nat m) o Ha0) as Ha.
  destruct (if ha then assignOffsets a0 (Z.to_nat m) o else (a0, o)) as [a o'] eqn:Ea. cbn [fst] in Ha. destruct Ha as (La&Ha&Ma&Za).
  pose proof (inv_fragments r v a Hi Hv Ha) as Hi1. wp_step. wp_step.
  assert (Pv : hv = true → take (Z.to_nat n) v ≠ []) by (intros; apply take_nonempty; unfold hv, len in *; reflect_bools; lia).
  assert (Pa : ha = true → take (Z.to_nat m) a ≠ []) by (intros; apply take_nonempty; unfold ha, len in *; reflect_bools; lia).
  wp_step. lazymatch goal with |- wp _ ?s _ _ => assert (Hi2 : inv s) by (by eapply inv_same, Hi1) end.
  eapply wp_lift_bind; [by apply write_side_ends|exact Hi2|]. intros tv _.
  eapply wp_lift_bind; [by apply write_side_ends|exact Hi2|]. intros ta _.
  assert (Ps : (if hv then take (Z.to_nat n) v else take (Z.to_nat m) a) ≠ []).
  { destruct hv eqn:Eh; [by apply Pv|]. destruct ha eqn:Eh'; [by apply Pa|done]. }
  eapply wp_lift_bind; [by apply ends_head|exact Hi2|]. intros first _.
  eapply wp_lift_bind; [by apply ends_last|exact Hi2|]. intros last _. do 2 wp_step.
  eapply wp_lift_bind; [apply timelineNanoseconds_safe|exact Hi2|]. intros t1 _.
  eapply wp_lift_bind; [apply timelineNanoseconds_safe|exact Hi2|]. intros t2 _. wp_step.
  eapply wp_lift_bind; [apply payload_ranges_ends, Forall_take, Hv|exact Hi2|]. intros pv Hpv.
  eapply wp_lift_bind; [apply payload_ranges_ends, Forall_take, Ha|exact Hi2|]. intros pa Hpa.
  wp_step. wp_step. lazymatch goal with |- wp _ ?s _ _ => assert (Hi3 : inv s) end.
  { eapply inv_same; [..|exact Hi2]; by destruct (cueMode _). }
  eapply wp_lift_bind; [apply removeFragments_ends|exact Hi3|]. { unfold len in *. lia. } intros v' ->.
  eapply wp_lift_bind; [apply removeFragments_ends|exact Hi3|]. { unfold len in *. lia. } intros a' ->.
  do 3 wp_step. clearbody hv ha.
  destruct hv; cbn [cueMode rd_conf set_out set_sequence set_audio set_video set_queues set_time]; destruct (cueMode _);
    (eapply (sends_intro r _ n m v a); [reflexivity|try done; try (unfold len in *; lia)..|]);
    intros Hst; cbn [Payloads]; by rewrite concat_app, (Hpv Hst), (Hpa Hst).
Qed.

(** ** Choosing the fragments of a segment *)

Lemma selectCue_wp r : inv r →
  wp selectCueVideoCount r (λ n r', r' = r ∧ (n = 0 ∨ 0 < n < len (rd_video (rd_queues r)))) inv.
Proof.
  intros Hi. unfold selectCueVideoCount. wp_step. destruct (targetSegment _) as [[[s e] tol]|]; [|apply wp_done; tauto].
  destruct (rd_video (rd_queues r)) as [|f [|g rest]] eqn:Ev; [apply wp_done; tauto..|].
  eapply wp_lift_bind; [apply firstPresentationTime_ends|exact Hi|]. intros p _.
  eapply wp_mono; [apply wp_lift; [apply cue_loop_ends; lia|exact Hi]| |done]. intros n r' [Hn ->]. rewrite (len_cons f). split; [done|lia].
Qed.

Lemma selectVideo_wp r : inv r →
  wp selectVideoCount r (λ n r', r' = r ∧ (n = 0 ∨ 0 < n < len (rd_video (rd_queues r)))) inv.
Proof.
  intros Hi. unfold selectVideoCount. wp_step. destruct (rd_video (rd_queues r)) as [|f rest] eqn:Ev; [apply wp_done; tauto|].
  rewrite <- Ev. wp_step. wp_step; [by apply selectCue_wp|].
  eapply wp_lift_bind; [apply toUnits_ends|exact Hi|]. intros t _. wp_step. split; [done|]. apply video_loop_range; lia.
Qed.

(** The queues may be regrouped, but their payloads stay. *)
Definition keeps (r r' : mp4BoxReader) : Prop :=
  inv r' ∧ quiet r r' ∧ (solid_queues r → solid_queues r') ∧ (∀ c, below c (rd_video (rd_queues r)) → below c (rd_video (rd_queues r'))) ∧
  (len (sourcePayload (rd_buf r)) < two63 → ∀ V A, balance r V A → balance r' V A).

Lemma keeps_refl r : inv r → keeps r r.
Proof. intros Hi. split_and!; [done|apply unmoved_refl|done|done|done]. Qed.

Lemma keeps_trans r1 r2 r3 : keeps r1 r2 → keeps r2 r3 → keeps r1 r3.
Proof.
  intros (_&Q1&S1&C1&B1) (I2&Q2&S2&C2&B2). split_and!; [done|by eapply unmoved_trans|by auto|by auto|]. intros Hl V A Hb.
  apply B2; [by rewrite (qt_payload _ _ Q1)|]. by apply B1.
Qed.

Lemma sends_keeps r n m r' : sends r n m r' → keeps r r'.
Proof. unfold sends, keeps. tauto. Qed.

Lemma selectAudio_wp r e : inv r →
  wp (selectAudioCount e) r (λ n r', keeps r r' ∧ rd_video (rd_queues r') = rd_video (rd_queues r) ∧ rd_out r' = rd_out r ∧ 0 <= n <= len (rd_audio (rd_queues r'))) inv.
Proof.
  intros Hi. unfold selectAudioCount. wp_step. set (st := sourcePayload (rd_buf r)).
  assert (Ha : Forall (stored st) (rd_audio (rd_queues r))) by apply Hi.
  eapply wp_lift_bind; [apply select_audio_ends; [done|]|exact Hi|].
  { eapply Forall_impl; [exact Ha|]. intros f []. done. }
  intros [audio n] Hs. do 2 wp_step. cbn [fst snd] in Hs.
  assert (Hsol : solid (rd_audio (rd_queues r)) → solid audio) by (destruct Hs as [[-> ->]|[_ [_ _ _ _ _ S7 _]]]; done).
  assert (Ht : Forall (stored st) audio ∧ media st audio = media st (rd_audio (rd_queues r)) ∧ 0 <= n <= len audio).
  { destruct Hs as [[-> ->]|[Hn [S1 _ _ _ _ _ S6]]]; [split_and!; [done..|apply len_nonneg]|]. rewrite Z.sub_0_r in S1. destruct (S6 st Ha). done. }
  destruct Ht as (T1&T2&T3). split_and!; [split_and!|done|done|apply T3..].
  - eapply inv_same; [..|apply (inv_fragments r (rd_video (rd_queues r)) audio Hi); [apply Hi|exact T1]]; done.
  - by constructor.
  - intros [? ?]. split; [done|by apply Hsol].
  - done.
  - intros _ V A (v&a&Hc&<-&<-). exists v, a. split_and!; [done|done|]. change (a ++ media st audio = a ++ media st (rd_audio (rd_queues r))). by rewrite T2.
Qed.

Definition builds (r : mp4BoxReader) (b : bool) (r' : mp4BoxReader) : Prop :=
  keeps r r' ∧ (b = true → 0 < len (rd_video (rd_queues r'))) ∧ (b = false → rd_video (rd_queues r') = rd_video (rd_queues r) ∧ rd_out r' = rd_out r).

Lemma tryBuild_wp r : inv r → wp tryBuildSegment r (builds r) inv.
Proof.
  intros Hi. unfold tryBuildSegment. eapply wp_bind; [by apply selectVideo_wp|]. intros n ? [-> Hn].
  wp_step; [wp_step; split_and!; [by apply keeps_refl|done|done]|]. reflect_bools. destruct Hn as [?|Hn]; [done|]. wp_step. wp_step.
  - eapply wp_bind; [by apply buildSegment_wp|]. intros [] r' Hs. wp_step. split_and!; [by eapply sends_keeps| |done].
    intros _. destruct Hs as (?&?&E&?). rewrite E. lia.
  - eapply wp_lift_bind; [apply (ends_checked _ (λ _, True)); [apply idx_in_range; lia|done]|exact Hi|]. intros last _.
    eapply wp_bind; [by apply selectAudio_wp|]. intros m r1 (K1&Ev&Eo&Hm). wp_step; [wp_step; split_and!; done|].
    eapply wp_bind; [apply buildSegment_wp, K1|]. intros [] r' Hs. wp_step. split_and!; [|intros _|done].
    + eapply keeps_trans; [exact K1|by eapply sends_keeps].
    + destruct Hs as (?&?&E&?). rewrite E, Ev. lia.
Qed.
