(* ===== verification/FragFlow.v ===== *)
(** * Fragments of a stream: where the bytes go

    What the reader has consumed of the stream is a sequence of complete boxes and a
    part of the next one ([follows]).  The bodies of the [mdat]s among them, sorted by
    the track of the [moof] before each, are what the segments carry and the queues hold
    ([flow]). *)

From Stdlib Require Import SpecFloat.
From S2P Require Import Prelude GoText Encoding GoFloat Segment FragBox FragTrack FragSafe FragQueue FragState FragReader FragInv.
#[local] Open Scope Z_scope.

(** ** The stream *)

(** A box of the stream: its type, the length of its header, and all its bytes. *)
Record topBox := mkTop { t_type : Z; t_header : Z; t_data : bytes }.

(** A header of [size] bytes states the length [n] of the box. *)
Definition states (header : bytes) (size n : Z) : Prop :=
  if size =? 8 then be (take 4 header) = n ∧ n ≠ 1
  else be (take 4 header) = 1 ∧ be (take 8 (drop 8 header)) = n.

Definition type_in (header : bytes) : Z := be (take 4 (drop 4 header)).

Record framed (b : topBox) : Prop := {
  fr_header : t_header b = 8 ∨ t_header b = 16;
  fr_length : t_header b <= len (t_data b);
  fr_states : states (take (Z.to_nat (t_header b)) (t_data b)) (t_header b) (len (t_data b));
  fr_type : t_type b = type_in (t_data b);
}.

Definition body_of (b : topBox) : bytes := drop (Z.to_nat (t_header b)) (t_data b).

(** The track a [moof] is about. *)
Definition trackOf (moof : bytes) : Z :=
  match
    (root ← tryReadBox moof 0;
     root ← checked root;
     bs ← boxes_in (b_data root) (b_header root);
     traf ← checked (List.find (λ b, b_type b =? boxTraf) bs);
     bs ← boxes_in (b_data traf) (b_header traf);
     '(tfhd, _) ← traf_heads bs None None;
     h ← checked tfhd;
     Ok (h_trackID h))
  with Ok id => id | _ => 0 end.

(** The track of the last [moof], and the bodies that have arrived with their tracks. *)
Definition arrive (s : Z * list (Z * bytes)) (b : topBox) : Z * list (Z * bytes) :=
  if t_type b =? boxMoof then (trackOf (t_data b), s.2)
  else if t_type b =? boxMdat then (s.1, s.2 ++ [(s.1, body_of b)])
  else s.
Definition arrived (bs : list topBox) : Z * list (Z * bytes) := foldl arrive (0, []) bs.

Fixpoint picture (videoID : Z) (bodies : list (Z * bytes)) : bytes :=
  match bodies with
  | [] => []
  | (id, body) :: bodies => (if id =? videoID then body else []) ++ picture videoID bodies
  end.
Fixpoint sound (videoID : Z) (bodies : list (Z * bytes)) : bytes :=
  match bodies with
  | [] => []
  | (id, body) :: bodies => (if id =? videoID then [] else body) ++ sound videoID bodies
  end.

(** No [mdat] is empty. *)
Definition full (bs : list topBox) : Prop := Forall (λ b, t_type b = boxMdat → body_of b ≠ []) bs.

Lemma picture_app v a b : picture v (a ++ b) = picture v a ++ picture v b.
Proof. induction a as [|[i x] a IH]; [done|]. cbn. by rewrite IH, app_assoc. Qed.

Lemma sound_app v a b : sound v (a ++ b) = sound v a ++ sound v b.
Proof. induction a as [|[i x] a IH]; [done|]. cbn. by rewrite IH, app_assoc. Qed.

Lemma arrived_snoc bs b : arrived (bs ++ [b]) = arrive (arrived bs) b.
Proof. unfold arrived. by rewrite foldl_app. Qed.

(** ** The track of a [moof] *)

Ltac go_inv := repeat lazymatch goal with
  | H : mbind _ (demand _ _) = Ok _ |- _ => apply demand_Ok in H as [? H]
  | H : mbind _ _ = Ok _ |- _ => let a := fresh "a" in let E := fresh "E" in apply go_bind_Ok in H as (a&E&H)
  end.

Lemma parseTraf_track t h v a vh ah f : parseTraf t h v a vh ah = Ok f →
  ∃ bs d tfhd, boxes_in t h = Ok bs ∧ traf_heads bs None None = Ok (Some tfhd, d) ∧ f_trackID f = h_trackID tfhd.
Proof.
  unfold parseTraf. intros H. apply go_bind_Ok in H as (bs&E1&H). apply go_bind_Ok in H as ([[hd|] [d|]]&E2&H); try done.
  exists bs, (Some d), hd. split_and!; [done..|]. apply go_bind_Ok in H as ([tr hint]&_&H). go_inv.
  destruct a1 as [[|run runs] z]; [done|]. apply demand_Ok in H as [_ [= <-]]. done.
Qed.

Lemma moof_loop_some bs v a vh ah f g : moof_loop bs v a vh ah (Some f) = Ok (Some g) → g = f.
Proof. induction bs as [|b bs IH]; cbn [moof_loop]; [congruence|]. split_if; [exact IH|done]. Qed.

Lemma moof_loop_track bs v a vh ah f : moof_loop bs v a vh ah None = Ok (Some f) →
  ∃ b, List.find (λ b, b_type b =? boxTraf) bs = Some b ∧ parseTraf (b_data b) (b_header b) v a vh ah = Ok f.
Proof.
  induction bs as [|b bs IH]; cbn [moof_loop List.find]; [done|]. destruct (b_type b =? boxTraf); cbn [negb]; [|exact IH].
  intros H. apply go_bind_Ok in H as (g&E&H). apply moof_loop_some in H. subst. by exists b.
Qed.

Lemma parse_track moof v a vh ah f : parseSourceMoof moof v a vh ah = Ok f → f_trackID f = trackOf moof.
Proof.
  unfold parseSourceMoof. intros H. apply go_bind_Ok in H as ([root|]&E1&H); [|done]. apply demand_Ok in H as [_ H].
  apply go_bind_Ok in H as (bs&E2&H). apply go_bind_Ok in H as ([g|]&E3&H); [|done]. injection H as <-.
  apply moof_loop_track in E3 as (b&E4&E5). apply parseTraf_track in E5 as (cs&d&hd&E6&E7&->).
  unfold trackOf. rewrite E1. cbn [mbind go_bind checked]. rewrite E2. cbn [mbind go_bind checked]. rewrite E4.
  cbn [mbind go_bind checked]. rewrite E6. cbn [mbind go_bind checked]. by rewrite E7.
Qed.

(** ** What the state says of the stream *)

Definition is_segment (e : event) : bool := match e with OnSegment _ => true | OnInit _ => false end.
Definition has_segment (out : list event) : bool := existsb is_segment out.

Definition videoID (r : mp4BoxReader) : Z := tr_id (videoTrack (rd_tracks r)).

(** The boxes [bs] were read. *)
Record flow (bs : list topBox) (r : mp4BoxReader) : Prop := {
  fl_balance : full bs → solid_queues r ∧ balance r (picture (videoID r) (arrived bs).2) (sound (videoID r) (arrived bs).2);
  fl_pending : ∀ f, rd_pending (rd_queues r) = Some f → f_trackID f = (arrived bs).1;
  fl_init : initDone (rd_seen r) = false → (arrived bs).2 = [];
  fl_sent : has_segment (rd_out r) = true → 0 < len (rd_video (rd_queues r));
}.

(** [part] of a box was read, and its header is complete. *)
Record in_body (bs : list topBox) (r : mp4BoxReader) (part body : bytes) : Prop := {
  ib_part : part = boxHeader (rd_box r) ++ body;
  ib_length : len (boxHeader (rd_box r)) = boxHeaderRequired (rd_box r);
  ib_states : states (boxHeader (rd_box r)) (boxHeaderRequired (rd_box r)) (len part + currentBoxRemaining (rd_box r));
  ib_type : currentBoxType (rd_box r) = type_in (boxHeader (rd_box r));
  ib_mdat : currentBoxType (rd_box r) = boxMdat → initDone (rd_seen r) = true ∧ currentTarget (rd_box r) = boxTargetPayload ∧
    (full bs → below (currentPayloadStart (rd_queues r)) (rd_video (rd_queues r)) ∧
      body = drop (Z.to_nat (currentPayloadStart (rd_queues r))) (sourcePayload (rd_buf r)));
  ib_moof : currentBoxType (rd_box r) = boxMoof → initDone (rd_seen r) = true ∧ currentTarget (rd_box r) = boxTargetMoof ∧
    sourceMoof (rd_buf r) = part;
}.

(** [part] of a header was read. *)
Record in_header (r : mp4BoxReader) (part : bytes) : Prop := {
  ih_part : part = boxHeader (rd_box r);
  ih_long : boxHeaderRequired (rd_box r) = 16 → 8 <= len part ∧ be (take 4 part) = 1 ∧ currentBoxType (rd_box r) = type_in part;
}.

Definition under_way (bs : list topBox) (r : mp4BoxReader) (part : bytes) : Prop :=
  in_header r part ∧ len part < boxHeaderRequired (rd_box r) ∨
  ∃ body, in_body bs r part body ∧ 0 < currentBoxRemaining (rd_box r).

(** [p] was consumed: it is the boxes [bs] and the part of a box under way. *)
Record follows (p : bytes) (bs : list topBox) (part : bytes) (r : mp4BoxReader) : Prop := {
  fo_stream : p = concat (t_data <$> bs) ++ part;
  fo_framed : Forall framed bs;
  fo_flow : flow bs r;
  fo_size : len (sourcePayload (rd_buf r)) <= len p;
}.

(** A call that has consumed [p], with no box half-read in an unknown state. *)
Definition at_rest (p : bytes) (r : mp4BoxReader) : Prop := ∃ bs part, follows p bs part r ∧ under_way bs r part.

Lemma flow_same bs r r' : rd_queues r' = rd_queues r → sourcePayload (rd_buf r') = sourcePayload (rd_buf r) →
  initDone (rd_seen r') = initDone (rd_seen r) → rd_tracks r' = rd_tracks r → rd_out r' = rd_out r → flow bs r → flow bs r'.
Proof.
  intros E1 E2 E3 E4 E5 [F1 F2 F3 F4]. unfold videoID, balance, solid_queues in *.
  constructor; unfold videoID, balance, solid_queues; rewrite ?E1, ?E2, ?E3, ?E4, ?E5; done.
Qed.

(** Changes of the queues that keep fragments and the one awaited. *)
Lemma flow_queues bs r q : rd_video q = rd_video (rd_queues r) → rd_audio q = rd_audio (rd_queues r) →
  rd_pending q = rd_pending (rd_queues r) → flow bs r → flow bs (set_queues q r).
Proof.
  intros E1 E2 E3 [F1 F2 F3 F4]. unfold videoID, balance, solid_queues in *.
  constructor; unfold videoID, balance, solid_queues; cbn; rewrite ?E1, ?E2, ?E3; done.
Qed.

(** More bytes in the storage. *)
Lemma flow_grow bs r w : inv r → flow bs r → flow bs (set_sourcePayload (sourcePayload (rd_buf r) ++ w) r).
Proof.
  intros Hi [F1 F2 F3 F4]. constructor; try done. intros Hb. destruct (F1 Hb) as [S (v&a&Hc&Ev&Ea)]. split; [done|].
  destruct (media_grow _ w _ (qo_video _ _ (iv_queues _ Hi))) as [_ Mv], (media_grow _ w _ (qo_audio _ _ (iv_queues _ Hi))) as [_ Ma].
  exists v, a. split_and!; [done|..].
  - change (v ++ media (sourcePayload (rd_buf r) ++ w) (rd_video (rd_queues r)) = picture (videoID r) (arrived bs).2). by rewrite Mv.
  - change (a ++ media (sourcePayload (rd_buf r) ++ w) (rd_audio (rd_queues r)) = sound (videoID r) (arrived bs).2). by rewrite Ma.
Qed.

Lemma flow_keeps bs r r' : keeps r r' → rd_out r' = rd_out r ∧ len (rd_video (rd_queues r')) = len (rd_video (rd_queues r)) ∨ 0 < len (rd_video (rd_queues r')) →
  len (sourcePayload (rd_buf r)) < two63 → flow bs r → flow bs r'.
Proof.
  intros (Hi&Hq&Hs&_&Hb) Hout Hl [F1 F2 F3 F4]. destruct (qt_ids _ _ Hq) as [E _]. constructor.
  - intros Hf. destruct (F1 Hf) as [S B]. unfold videoID. rewrite E. split; [by apply Hs|]. by apply Hb.
  - rewrite (qt_pending _ _ Hq). done.
  - rewrite (qt_seen _ _ Hq). done.
  - destruct Hout as [[-> ->]|Hv]; [done|by intros _].
Qed.

(** ** The beginning of a box *)

Lemma Uint32_is data lo : 0 <= lo → lo + 4 <= len data → Uint32 data lo = Ok (be (take 4 (drop (Z.to_nat lo) data))).
Proof. intros H1 H2. unfold Uint32. rewrite slice_in_range by lia. cbn. do 3 f_equal. lia. Qed.

Lemma Uint64_is data lo : 0 <= lo → lo + 8 <= len data → Uint64 data lo = Ok (be (take 8 (drop (Z.to_nat lo) data))).
Proof. intros H1 H2. unfold Uint64. rewrite slice_in_range by lia. cbn. do 3 f_equal. lia. Qed.

Lemma inv_write r w : inv r → bytes_ok w → inv (writeCurrentBoxData w r).
Proof.
  intros [B I M D Q T] Hw. unfold writeCurrentBoxData. destruct (currentTarget (rd_box r)); constructor; cbn; try done; try by apply Forall_app.
  destruct Q as [Qv Qa Qp Qs]. destruct (media_grow _ w _ Qv) as [Sv _], (media_grow _ w _ Qa) as [Sa _].
  constructor; try done. rewrite len_app. pose proof (len_nonneg w). lia.
Qed.

Lemma flow_write bs r w : inv r → flow bs r → flow bs (writeCurrentBoxData w r).
Proof.
  intros Hi Hf. unfold writeCurrentBoxData. destruct (currentTarget (rd_box r)); try (by eapply flow_same, Hf). by apply flow_grow.
Qed.

(** The box whose header is in [r] has begun, and is [size] bytes long. *)
Record began (size : Z) (r r' : mp4BoxReader) : Prop := {
  bg_inv : inv r';
  bg_header : boxHeader (rd_box r') = boxHeader (rd_box r);
  bg_required : boxHeaderRequired (rd_box r') = boxHeaderRequired (rd_box r);
  bg_type : currentBoxType (rd_box r') = currentBoxType (rd_box r);
  bg_remaining : currentBoxRemaining (rd_box r') = size - boxHeaderRequired (rd_box r);
  bg_payload : sourcePayload (rd_buf r') = sourcePayload (rd_buf r);
  bg_deferred : rd_deferred (rd_buf r') = rd_deferred (rd_buf r);
  bg_flow : ∀ bs, flow bs r → flow bs r';
  bg_mdat : currentBoxType (rd_box r) = boxMdat → initDone (rd_seen r') = true ∧ currentTarget (rd_box r') = boxTargetPayload ∧
    currentPayloadStart (rd_queues r') = len (sourcePayload (rd_buf r'));
  bg_moof : currentBoxType (rd_box r) = boxMoof → initDone (rd_seen r') = true ∧ currentTarget (rd_box r') = boxTargetMoof ∧
    sourceMoof (rd_buf r') = boxHeader (rd_box r);
}.

Lemma inv_box r b : inv r → box_ok b → inv (set_box b r).
Proof. intros [] Hb. by constructor. Qed.

Lemma completeInit_wp r : inv r →
  wp completeInit r (λ _ r', inv r' ∧ rd_box r' = rd_box r ∧ rd_buf r' = rd_buf r ∧ rd_queues r' = rd_queues r ∧ initDone (rd_seen r') = true ∧
    ∀ bs, initDone (rd_seen r) = false → flow bs r → flow bs r') inv.
Proof.
  intros Hi. unfold completeInit. wp_step. wp_step. eapply wp_lift_bind; [apply parseInitTracks_ends, Hi|exact Hi|].
  intros [video audio] [Hv Ha]. wp_step. cbn [fst snd] in *. destruct Hi as [B I M D Q [T1 T2 T3 T4]]. split_and!; try done.
  intros bs Hn [F1 F2 F3 F4]. specialize (F3 Hn). constructor; try done.
  - unfold videoID in *. rewrite F3 in *. intros Hf. destruct (F1 Hf) as [S (v&a&Hc&Ev&Ea)]. split; [done|].
    exists v, a. split_and!; [by constructor|done..].
  - intros Ho. apply F4. revert Ho. unfold has_segment. cbn [rd_out set_out]. rewrite existsb_app. cbn. by rewrite !orb_false_r.
Qed.

Lemma keep_header_wp r t h : inv r → len (boxHeader (rd_box r)) = h →
  wp (keep_header t h) r (λ _ r', r' = writeCurrentBoxData (boxHeader (rd_box r)) (set_currentTarget t r)) inv.
Proof.
  intros Hi Hh. unfold keep_header. wp_step. wp_step. cbn [rd_box set_currentTarget set_box boxHeader].
  pose proof (len_nonneg (boxHeader (rd_box r))). rewrite slice_in_range by lia. cbn. f_equal. apply take_ge. unfold len in *. lia.
Qed.

(** The box begins in a state that differs from [r] in what does not matter to it. *)
Lemma began_intro size r r' : inv r' → boxHeader (rd_box r') = boxHeader (rd_box r) →
  boxHeaderRequired (rd_box r') = boxHeaderRequired (rd_box r) → currentBoxType (rd_box r') = currentBoxType (rd_box r) →
  currentBoxRemaining (rd_box r') = size - boxHeaderRequired (rd_box r) →
  sourcePayload (rd_buf r') = sourcePayload (rd_buf r) → rd_deferred (rd_buf r') = rd_deferred (rd_buf r) → (∀ bs, flow bs r → flow bs r') →
  currentBoxType (rd_box r) ≠ boxMdat → currentBoxType (rd_box r) ≠ boxMoof → began size r r'.
Proof. intros. by constructor. Qed.

Lemma write_frame w r : let r' := writeCurrentBoxData w r in
  rd_box r' = rd_box r ∧ rd_deferred (rd_buf r') = rd_deferred (rd_buf r) ∧ rd_seen r' = rd_seen r ∧ rd_queues r' = rd_queues r ∧
  rd_tracks r' = rd_tracks r ∧ rd_out r' = rd_out r ∧ rd_conf r' = rd_conf r ∧
  sourcePayload (rd_buf r') = sourcePayload (rd_buf r) ++ (match currentTarget (rd_box r) with boxTargetPayload => w | _ => [] end) ∧
  sourceMoof (rd_buf r') = sourceMoof (rd_buf r) ++ (match currentTarget (rd_box r) with boxTargetMoof => w | _ => [] end).
Proof. unfold writeCurrentBoxData. destruct (currentTarget (rd_box r)); cbn; split_and!; try done; by rewrite app_nil_r. Qed.

(** The header is kept after a change [g] of the buffers. *)
Lemma keep_began size r r1 t : inv r1 → len (boxHeader (rd_box r)) = boxHeaderRequired (rd_box r) →
  boxHeader (rd_box r1) = boxHeader (rd_box r) → boxHeaderRequired (rd_box r1) = boxHeaderRequired (rd_box r) →
  currentBoxType (rd_box r1) = currentBoxType (rd_box r) → currentBoxRemaining (rd_box r1) = size - boxHeaderRequired (rd_box r) →
  sourcePayload (rd_buf r1) = sourcePayload (rd_buf r) → rd_deferred (rd_buf r1) = rd_deferred (rd_buf r) → (∀ bs, flow bs r → flow bs r1) →
  currentBoxType (rd_box r) ≠ boxMdat → t ≠ boxTargetPayload →
  (currentBoxType (rd_box r) = boxMoof → initDone (rd_seen r1) = true ∧ t = boxTargetMoof ∧ sourceMoof (rd_buf r1) = []) →
  wp (keep_header t (boxHeaderRequired (rd_box r))) r1 (λ _ r', began size r r') inv.
Proof.
  intros Hi Hl E1 E2 E3 E4 E5 E6 Hf Hm Ht Hmoof. eapply wp_mono; [apply keep_header_wp; [done|congruence]| |done]. intros [] r' ->.
  set (r2 := set_currentTarget t r1). assert (Hi2 : inv r2) by (apply inv_box; [done|destruct (iv_box _ Hi); by constructor]).
  destruct (write_frame (boxHeader (rd_box r1)) r2) as (B&D&Se&Q&T&O&_&P&M). change (currentTarget (rd_box r2)) with t in P, M.
  assert (Hp : sourcePayload (rd_buf (writeCurrentBoxData (boxHeader (rd_box r1)) r2)) = sourcePayload (rd_buf r)).
  { rewrite P, <- E5. destruct t; try done; by rewrite app_nil_r. }
  constructor; rewrite ?B, ?D; try done.
  - apply inv_write; [done|apply Hi].
  - intros bs Hb. apply flow_write; [done|]. by eapply flow_same, Hf.
  - intros Em. destruct (Hmoof Em) as (I&->&S). rewrite Se, M. split_and!; [done|done|].
    change (sourceMoof (rd_buf r2)) with (sourceMoof (rd_buf r1)). by rewrite S, E1.
Qed.

Lemma pass_over_same size r : let r' := pass_over size r in
  rd_box r' = rd_box r ∧ rd_buf r' = rd_buf r ∧ rd_seen r' = rd_seen r ∧ (inv r → inv r') ∧ ∀ bs, flow bs r → flow bs r'.
Proof.
  unfold pass_over. destruct (is_pending r); cbn; split_and!; try done.
  - intros [? ? ? ? [] ?]. by constructor.
  - intros bs Hf. by apply flow_queues.
Qed.

Lemma not_mdat r t : currentBoxType (rd_box r) = t → (t =? boxMdat) = false → currentBoxType (rd_box r) ≠ boxMdat.
Proof. intros -> H E. by rewrite E in H. Qed.

Lemma beginBox_wp size r : inv r → len (boxHeader (rd_box r)) = boxHeaderRequired (rd_box r) →
  wp (beginBox size (boxHeaderRequired (rd_box r))) r (λ _ r', began size r r') inv.
Proof.
  intros Hi Hl. unfold beginBox. do 4 wp_step. reflect_bools.
  set (t := currentBoxType (rd_box r)) in *. set (h := boxHeaderRequired (rd_box r)) in *.
  match goal with |- wp _ ?s _ _ => set (r1 := s) end.
  assert (Hi1 : inv r1) by (apply inv_box; [apply inv_box; [done|]|]; destruct (iv_box _ Hi); constructor; cbn; first [done|lia]).
  eapply wp_bind.
  { instantiate (1 := λ _ r2, inv r2 ∧ rd_box r2 = rd_box r1 ∧ rd_buf r2 = rd_buf r1 ∧ rd_queues r2 = rd_queues r1 ∧
      (t = boxMoof → initDone (rd_seen r2) = true) ∧ ∀ bs, flow bs r → flow bs r2).
    assert (Hf1 : ∀ bs, flow bs r → flow bs r1) by (intros bs; by apply flow_same).
    wp_step.
    - apply andb_true_iff in Heqb as [Hn%negb_true_iff _]. eapply wp_mono; [by apply completeInit_wp| |done]. intros [] r2 (?&?&?&?&?&Hf). split_and!; try done. intros bs Hb. by apply Hf, Hf1.
    - wp_step. split_and!; try done. intros Et. cbn. destruct (initDone (rd_seen r)); [done|]. rewrite Et in Heqb. done. }
  intros [] r2 (Hi2&B&Bf&Q&Hm&Hf). wp_step.
  assert (Hk : ∀ tg, t ≠ boxMdat → tg ≠ boxTargetPayload → (t = boxMoof → False) → wp (keep_header tg h) r2 (λ _ r', began size r r') inv).
  { intros tg H1 H2 H3. apply keep_began; try done; rewrite ?B, ?Bf; done. }
  wp_step; reflect_bools; [do 2 wp_step; reflect_bools; apply Hk; [done|done|]; intros Et; rewrite (Hm Et) in *; done|].
  do 2 wp_step. wp_step; reflect_bools.
  { (* moof *) do 2 wp_step. apply keep_began; rewrite ?B, ?Bf; try done.
    - destruct Hi2 as [? ? ? ? [] ?]. constructor; cbn; [done|done|by constructor|done|by constructor|done].
    - cbn. by rewrite B.
    - cbn. by rewrite B.
    - cbn. by rewrite B.
    - cbn. by rewrite B.
    - cbn. by rewrite Bf.
    - cbn. by rewrite Bf.
    - intros bs Hb. eapply (flow_queues _ (set_sourceMoof [] r2)); [done..|]. by eapply flow_same, Hf.
    - change (t ≠ boxMdat). intros E. match goal with H : t = boxMoof |- _ => by rewrite H in E end. }
  wp_step; reflect_bools.
  { (* mdat *) do 2 wp_step. destruct Hi2 as [I1 I2 I3 I4 [I5 I6 I7 I8] I9]. constructor; cbn; rewrite ?B, ?Bf; try done.
    - constructor; cbn; try done; [destruct I1; by constructor|]. constructor; cbn; try done. rewrite Bf. cbn.
      pose proof (len_nonneg (sourcePayload (rd_buf r))). lia.
    - intros bs Hb. eapply (flow_same bs (set_queues (mkQueues _ _ _ _ _) r2)); [done..|]. apply flow_queues; [done..|by apply Hf]. }
  destruct (pass_over_same size r2) as (P1&P2&P3&P4&P5).
  wp_step; reflect_bools; [wp_step; apply began_intro; rewrite ?P1, ?P2, ?B, ?Bf; auto|].
  wp_step; reflect_bools.
  { (* styp *) do 2 wp_step. apply keep_began; cbn; rewrite ?B, ?Bf; try done.
    - destruct Hi2 as [? ? ? ? [] ?]. by constructor.
    - intros bs Hb. by eapply flow_same, Hf. }
  wp_step; reflect_bools.
  { (* emsg, free, prft *) wp_step. apply keep_began; cbn; rewrite ?P1, ?P2, ?B, ?Bf; try done.
    - destruct (P4 Hi2) as [? ? ? ? [] ?]. by constructor.
    - intros bs Hb. eapply flow_same; [..|by apply P5, Hf]; done. }
  wp_step; reflect_bools.
  { (* mfra *) do 2 wp_step. apply began_intro; rewrite ?B, ?Bf; auto. }
  wp_step; reflect_bools; [|by wp_step].
  do 3 wp_step. apply began_intro; rewrite ?B, ?Bf; auto.
Qed.

(** A complete header: the box begins, or a longer header is needed. *)
Definition header_read (r r' : mp4BoxReader) : Prop :=
  sourcePayload (rd_buf r') = sourcePayload (rd_buf r) ∧ rd_deferred (rd_buf r') = rd_deferred (rd_buf r) ∧ inv r' ∧
  ∀ bs, flow bs r → in_header r (boxHeader (rd_box r)) → flow bs r' ∧
    (in_header r' (boxHeader (rd_box r)) ∧ len (boxHeader (rd_box r)) < boxHeaderRequired (rd_box r') ∨
     len (boxHeader (rd_box r')) = boxHeaderRequired (rd_box r') ∧ in_body bs r' (boxHeader (rd_box r)) []).

Lemma below_storage r : inv r → solid (rd_video (rd_queues r)) → below (len (sourcePayload (rd_buf r))) (rd_video (rd_queues r)).
Proof.
  intros Hi. pose proof (qo_video _ _ (iv_queues _ Hi)) as Hs. unfold solid, below. rewrite !Forall_forall in *.
  intros Hl f Hf. specialize (Hl f Hf). destruct (Hs f Hf). lia.
Qed.

Lemma began_body size r r' bs : flow bs r' → inv r → len (boxHeader (rd_box r)) = boxHeaderRequired (rd_box r) → began size r r' →
  states (boxHeader (rd_box r)) (boxHeaderRequired (rd_box r)) size → currentBoxType (rd_box r) = type_in (boxHeader (rd_box r)) →
  in_body bs r' (boxHeader (rd_box r)) [].
Proof.
  intros Hf Hi Hl [B1 B2 B3 B4 B5 B6 B7 B8 B9 B10] Hs Ht. constructor; rewrite ?B2, ?B3, ?B4, ?B5; try done.
  - by rewrite app_nil_r.
  - replace (len _ + _) with size by lia. done.
  - intros E. destruct (B9 E) as (?&?&E3). split_and!; [done|done|]. intros Hb. rewrite E3.
    split; [apply below_storage; [done|apply (fl_balance _ _ Hf Hb)]|]. rewrite drop_ge; [done|unfold len; lia].
Qed.

Lemma headerRead_wp r : inv r → len (boxHeader (rd_box r)) = boxHeaderRequired (rd_box r) →
  wp headerRead r (λ _ r', header_read r r') inv.
Proof.
  intros Hi Hl. unfold headerRead. wp_step. pose proof (bo_required _ (iv_box _ Hi)) as Hr.
  set (h := boxHeader (rd_box r)) in *. wp_step; reflect_bools.
  - rewrite !Uint32_is by lia. cbn [lift mbind reading_bind].
    match goal with |- wp ?m r _ _ => change (wp (_ ← change (set_currentBoxType (type_in h)); if be (take 4 h) =? 1 then change (set_boxHeaderRequired 16) else _ ← refuse (be (take 4 h) =? 0) "top-level mp4 box size=0 is not supported"; beginBox (be (take 4 h)) 8) r (λ _ r', header_read r r') inv) end.
    wp_step. set (r1 := set_currentBoxType (type_in h) r).
    assert (Hi1 : inv r1) by (apply inv_box; [done|destruct (iv_box _ Hi); by constructor]).
    wp_step; reflect_bools.
    + wp_step. unfold header_read. fold h. split_and!; [done|done|apply inv_box; [done|]|].
      { destruct (iv_box _ Hi1). constructor; cbn; try done; [by right|]. fold h. lia. }
      intros bs Hf Hh. split; [by eapply flow_same, Hf|]. left. cbn. split; [|fold h; lia]. constructor; [done|]. intros _. cbn. split_and!; [lia|done|done].
    + wp_step. reflect_bools.
      pose proof (beginBox_wp (be (take 4 h)) r1 Hi1) as Hw. change (boxHeaderRequired (rd_box r1)) with (boxHeaderRequired (rd_box r)) in Hw.
      rewrite Heqb in Hw. eapply wp_mono; [apply Hw; cbn; fold h; lia| |done]. intros [] r' Hb. unfold header_read. fold h. destruct (Hb).
      split_and!; [done|done|done|]. intros bs Hf Hh. assert (Hf' : flow bs r') by (apply bg_flow0; by eapply flow_same, Hf). split; [done|]. right.
      split; [by rewrite bg_header0, bg_required0|]. apply (began_body (be (take 4 h)) r1); try done.
      cbn. rewrite Heqb. by split.
  - assert (E16 : boxHeaderRequired (rd_box r) = 16) by (by destruct Hr).
    rewrite Uint64_is by lia. cbn [lift mbind reading_bind].
    match goal with |- wp ?m r _ _ => change (wp (beginBox (be (take 8 (drop 8 h))) 16) r (λ _ r', header_read r r') inv) end.
    pose proof (beginBox_wp (be (take 8 (drop 8 h))) r Hi Hl) as Hw. rewrite E16 in Hw. eapply wp_mono; [exact Hw| |done].
    intros [] r' Hb. unfold header_read. fold h. destruct (Hb). split_and!; [done|done|done|]. intros bs Hf [_ Hh]. destruct (Hh E16) as (_&H1&H2).
    assert (Hf' : flow bs r') by (by apply bg_flow0). split; [done|]. right. split; [by rewrite bg_header0, bg_required0|].
    apply (began_body (be (take 8 (drop 8 h))) r); try done. rewrite E16. by split.
Qed.

(** ** The end of a box *)

(** The last fragment of a queue is replaced by one with the same payload. *)
Lemma put_last st fs f g : last fs = Some f → same_payload f g → wf_fragment g → Forall (stored st) fs →
  let fs' := take (length fs - 1) fs ++ [g] in
  Forall (stored st) fs' ∧ media st fs' = media st fs ∧ range_of <$> fs' = range_of <$> fs ∧ len fs' = len fs.
Proof.
  intros Hl Hs Hw Hf fs'. apply last_Some in Hl as [before ->]. unfold fs'. rewrite length_app. cbn.
  replace (length before + 1 - 1)%nat with (length before) by lia. rewrite take_app_length. apply Forall_app in Hf as [Hb Hf].
  apply Forall_cons in Hf as [Hf _]. destruct (same_payload_stored st f g Hs Hw Hf) as [S P]. split_and!.
  - apply Forall_app. split; [done|]. by constructor.
  - rewrite !media_app. f_equal. unfold media. cbn. by rewrite P.
  - rewrite !fmap_app. f_equal. destruct Hs as [E1 E2]. unfold range_of. cbn. by rewrite E1, E2.
  - by rewrite !len_app.
Qed.

(** One queue is replaced. *)
Lemma put_video r v : inv r → Forall (stored (sourcePayload (rd_buf r))) v →
  media (sourcePayload (rd_buf r)) v = media (sourcePayload (rd_buf r)) (rd_video (rd_queues r)) →
  range_of <$> v = range_of <$> rd_video (rd_queues r) → keeps r (set_video v r).
Proof.
  intros [? ? ? ? [] ?] Hv Em Hs. split_and!; [by constructor|by constructor|by intros [? ?]; split; [by eapply solid_range|]|intros c; by apply below_range|].
  intros _ V A (sv&sa&Hc&<-&<-). exists sv, sa. split_and!; [done| |done].
  change (sv ++ media (sourcePayload (rd_buf r)) v = sv ++ media (sourcePayload (rd_buf r)) (rd_video (rd_queues r))). by rewrite Em.
Qed.

Lemma put_audio r v : inv r → Forall (stored (sourcePayload (rd_buf r))) v →
  media (sourcePayload (rd_buf r)) v = media (sourcePayload (rd_buf r)) (rd_audio (rd_queues r)) →
  range_of <$> v = range_of <$> rd_audio (rd_queues r) → keeps r (set_audio v r).
Proof.
  intros [? ? ? ? [] ?] Hv Em Hs. split_and!; [by constructor|by constructor|by intros [? ?]; split; [|by eapply solid_range]|done|].
  intros _ V A (sv&sa&Hc&<-&<-). exists sv, sa. split_and!; [done|done|].
  change (sa ++ media (sourcePayload (rd_buf r)) v = sa ++ media (sourcePayload (rd_buf r)) (rd_audio (rd_queues r))). by rewrite Em.
Qed.

Definition settles (r r' : mp4BoxReader) : Prop :=
  keeps r r' ∧ rd_out r' = rd_out r ∧ len (rd_video (rd_queues r')) = len (rd_video (rd_queues r)).

Lemma settles_refl r : inv r → settles r r.
Proof. intros Hi. split_and!; [by apply keeps_refl|done|done]. Qed.

(** The hints do not matter to the stream. *)
Lemma settles_hints r r' h : settles r r' → is_u32 h.1 →
  settles r (set_videoSampleDurationHint h r') ∧ settles r (set_audioSampleDurationHint h r').
Proof.
  intros ((Hi&Hq&Hs&Hc&Hb)&Ho&Hv) Hh. destruct Hi as [? ? ? ? ? [? ? ? ?]], Hq. split; (split; [|done]); (split; [by constructor|split; [by constructor|done]]).
Qed.

Lemma resolvePrevious_wp current r : inv r → wp (resolvePreviousInferredDuration current) r (λ _ r', settles r r') inv.
Proof.
  intros Hi. unfold resolvePreviousInferredDuration. wp_step. set (st := sourcePayload (rd_buf r)).
  assert (Hg : ∀ fs put hint, Forall (stored st) fs →
    (∀ v, Forall (stored st) v → media st v = media st fs → range_of <$> v = range_of <$> fs → len v = len fs → settles r (put v r)) →
    (∀ r' h, settles r r' → is_u32 h.1 → settles r (hint h r')) →
    wp (match last fs with
        | Some previous =>
            if negb (f_hasInferredDuration previous) then done ()
            else '(previous, exact) ← lift (resolve_inferred previous (f_decodeTime current));
              _ ← change (put (take (length fs - 1) fs ++ [previous]));
              if negb (exact =? 0) then change (hint (exact, f_timescale current)) else done ()
        | None => done () end) r (λ _ r', settles r r') inv).
  { intros fs put hint Hf Hput Hhint. destruct (last fs) as [f|] eqn:El; [|wp_step; by apply settles_refl].
    wp_step; [wp_step; by apply settles_refl|].
    assert (Hw : stored st f) by (rewrite Forall_forall in Hf; apply Hf; by apply last_Some_elem_of).
    eapply wp_lift_bind; [apply resolve_inferred_ends, Hw|exact Hi|]. intros [g x] (G1&G2&G3). cbn [fst snd] in *.
    destruct (put_last st fs f g El G2 G1 Hf) as (P1&P2&P3&P4). wp_step. specialize (Hput _ P1 P2 P3 P4). repeat wp_step; [by apply Hhint|done]. }
  assert (Hsv : ∀ v, Forall (stored st) v → media st v = media st (rd_video (rd_queues r)) → range_of <$> v = range_of <$> rd_video (rd_queues r) →
    len v = len (rd_video (rd_queues r)) → settles r (set_video v r)) by (intros; split_and!; [by apply put_video|done|done]).
  assert (Hsa : ∀ v, Forall (stored st) v → media st v = media st (rd_audio (rd_queues r)) → range_of <$> v = range_of <$> rd_audio (rd_queues r) →
    len v = len (rd_audio (rd_queues r)) → settles r (set_audio v r)) by (intros; split_and!; [by apply put_audio|done|done]).
  wp_step; [apply Hg; [apply Hi|done|intros ? ? H1 H2; by apply settles_hints]|].
  wp_step; [apply Hg; [apply Hi|done|intros ? ? H1 H2; by apply settles_hints]|]. wp_step. by apply settles_refl.
Qed.

(** What the end of a box does not touch, and what it adds to the boxes read. *)
Record ended (t : Z) (r r' : mp4BoxReader) : Prop := {
  en_inv : inv r';
  en_box : rd_box r' = rd_box r;
  en_payload : sourcePayload (rd_buf r') = sourcePayload (rd_buf r);
  en_deferred : rd_deferred (rd_buf r') = rd_deferred (rd_buf r);
  en_flow : len (sourcePayload (rd_buf r)) < two63 → ∀ bs b, flow bs r → t_type b = t →
    (t = boxMoof → t_data b = sourceMoof (rd_buf r)) →
    (t = boxMdat → initDone (rd_seen r) = true ∧ (full bs → body_of b = drop (Z.to_nat (currentPayloadStart (rd_queues r))) (sourcePayload (rd_buf r)))) →
    flow (bs ++ [b]) r';
}.

Lemma full_snoc bs b : full (bs ++ [b]) ↔ full bs ∧ (t_type b = boxMdat → body_of b ≠ []).
Proof. unfold full. by rewrite Forall_app, Forall_singleton. Qed.

(** A box that is neither a [moof] nor an [mdat] does not matter to the flow. *)
Lemma flow_other bs b r : t_type b ≠ boxMoof → t_type b ≠ boxMdat → flow bs r → flow (bs ++ [b]) r.
Proof.
  intros H1 H2 [F1 F2 F3 F4]. assert (E : arrived (bs ++ [b]) = arrived bs).
  { rewrite arrived_snoc. unfold arrive. rewrite (proj2 (Z.eqb_neq _ _) H1). by rewrite (proj2 (Z.eqb_neq _ _) H2). }
  constructor; rewrite ?E; try done. intros [Hf _]%full_snoc. by apply F1.
Qed.

(** After a [moof], its fragment is awaited. *)
Lemma flow_moof bs b r r' f from : settles r r' → len (sourcePayload (rd_buf r)) < two63 →
  f_trackID f = trackOf (t_data b) → t_type b = boxMoof → flow bs r →
  flow (bs ++ [b]) (set_sourcePayloadFromMoof from (set_pending (Some f) r')).
Proof.
  intros (Hk&Ho&Hv) Hl Ht Hb Hf. assert (Hf' : flow bs r') by (eapply flow_keeps; [exact Hk|by left|done|done]).
  destruct Hf' as [F1 F2 F3 F4].
  assert (E : arrived (bs ++ [b]) = (trackOf (t_data b), (arrived bs).2)) by (rewrite arrived_snoc; unfold arrive; by rewrite Hb).
  constructor; rewrite ?E; try done.
  - intros [Hb' _]%full_snoc. by apply F1.
  - cbn. by intros ? [= <-].
Qed.

Lemma last_of_runs_ok runs : Forall wf_run runs → is_u32 (last_of_runs runs).
Proof.
  induction 1 as [|run runs Hr _ IH]; [exact u32_0|]. cbn. unfold last_duration. destruct (List.find _ _) as [s|] eqn:E; cbn; [|exact IH].
  apply find_some in E as [Hin _]. pose proof (Forall_rev (wr_ok _ Hr)) as Hw. rewrite Forall_forall in Hw.
  by apply Hw, list_elem_of_In.
Qed.

Lemma lastSampleDuration_ok f : wf_fragment f → is_u32 (lastSampleDuration f).
Proof. intros Hw. apply last_of_runs_ok, Forall_rev, Hw. Qed.

Lemma completeMoof_wp r : inv r → wp completeMoof r (λ _ r', ended boxMoof r r') inv.
Proof.
  intros Hi. unfold completeMoof. wp_step. pose proof (iv_tracks _ Hi) as [T1 T2 T3 T4].
  assert (Hu : ∀ h t, is_u32 h.1 → is_u32 (usable_hint h t)) by (intros h t ?; unfold usable_hint; by split_if).
  eapply wp_lift_bind_eq; [apply parseSourceMoof_ends; [apply Hi|done|done|by apply Hu..]|exact Hi|]. intros f Ef Hb.
  eapply wp_bind; [by apply resolvePrevious_wp|]. intros [] r1 Hs.
  eapply (wp_bind _ _ _ (λ _ r2, settles r r2)).
  { wp_step; [|by wp_step]. assert (Hd : is_u32 (lastSampleDuration f)) by (apply lastSampleDuration_ok, Hb).
    repeat wp_step; try done; by apply settles_hints. }
  intros [] r2 Hs2. wp_step. destruct (Hs2) as ((Hi2&Hq&_&_)&_&_). constructor; cbn.
  - destruct Hi2 as [? ? ? ? [] ?]. constructor; try done. constructor; try done. by intros ? [= <-].
  - apply Hq.
  - apply Hq.
  - apply Hq.
  - intros Hl bs b Hf Ht Hd _. apply (flow_moof bs b r); try done. rewrite (Hd eq_refl). by eapply parse_track.
Qed.

(** The fragment whose payload is the end of the storage. *)
Lemma tail_payload st f start : wf_fragment f → f_payloadStart f = start → f_payloadLen f = len st - start → 0 <= start <= len st →
  stored st f ∧ payload_of st f = drop (Z.to_nat start) st.
Proof.
  intros Hw E1 E2 H. split; [constructor; [done|lia..]|]. unfold payload_of. rewrite E1, E2. apply take_ge. rewrite length_drop. unfold len in *. lia.
Qed.

Lemma balance_video r f V A : balance r V A → balance (set_video (rd_video (rd_queues r) ++ [f]) r) (V ++ payload_of (sourcePayload (rd_buf r)) f) A.
Proof.
  intros (v&a&Hc&<-&<-). exists v, a. split_and!; [done| |done]. change (v ++ media (sourcePayload (rd_buf r)) (rd_video (rd_queues r) ++ [f]) =
    (v ++ media (sourcePayload (rd_buf r)) (rd_video (rd_queues r))) ++ payload_of (sourcePayload (rd_buf r)) f).
  rewrite media_app, <- app_assoc. do 2 f_equal. apply app_nil_r.
Qed.

Lemma balance_audio r f V A : balance r V A → balance (set_audio (rd_audio (rd_queues r) ++ [f]) r) V (A ++ payload_of (sourcePayload (rd_buf r)) f).
Proof.
  intros (v&a&Hc&<-&<-). exists v, a. split_and!; [done|done|]. change (a ++ media (sourcePayload (rd_buf r)) (rd_audio (rd_queues r) ++ [f]) =
    (a ++ media (sourcePayload (rd_buf r)) (rd_audio (rd_queues r))) ++ payload_of (sourcePayload (rd_buf r)) f).
  rewrite media_app, <- app_assoc. do 2 f_equal. apply app_nil_r.
Qed.

(** An [mdat] adds its body to the track of the awaited fragment. *)
Lemma flow_mdat bs b r f (video : bool) : let st := sourcePayload (rd_buf r) in
  inv r → flow bs r → t_type b = boxMdat → initDone (rd_seen r) = true →
  (full bs → body_of b = payload_of st f) → stored st f → f_trackID f = (arrived bs).1 → (body_of b ≠ [] → payload_of st f ≠ [] → 0 < f_payloadLen f) →
  video = (f_trackID f =? videoID r) →
  flow (bs ++ [b]) (set_pending None (set_sourcePayloadFromMoof 0 (set_currentPayloadStart 0 (set_sourceMoof []
    (if video then set_video (rd_video (rd_queues r) ++ [f]) r else set_audio (rd_audio (rd_queues r) ++ [f]) r))))).
Proof.
  intros st Hi [F1 F2 F3 F4] Hb Hd Hbody Hst Ht Hlen Hv.
  assert (E : arrived (bs ++ [b]) = ((arrived bs).1, (arrived bs).2 ++ [((arrived bs).1, body_of b)])).
  { rewrite arrived_snoc. unfold arrive. rewrite Hb. done. }
  constructor; rewrite ?E.
  - intros [Hf Hn]%full_snoc. destruct (F1 Hf) as [[Sv Sa] (v&a&Hc&Ev&Ea)]. specialize (Hn Hb). specialize (Hbody Hf).
    assert (Hsome : 0 < f_payloadLen f) by (apply Hlen; [done|congruence]). cbn [snd]. rewrite picture_app, sound_app. cbn [picture sound].
    rewrite <- Ht, !app_nil_r, Hbody. assert (B : balance r (picture (videoID r) (arrived bs).2) (sound (videoID r) (arrived bs).2)) by (by exists v, a).
    destruct video.
    + replace (f_trackID f =? videoID _) with true by exact Hv. rewrite app_nil_r.
      split; [split; [apply Forall_app; split; [done|by constructor]|done]|exact (balance_video _ f _ _ B)].
    + replace (f_trackID f =? videoID _) with false by exact Hv. rewrite app_nil_r.
      split; [split; [done|apply Forall_app; split; [done|by constructor]]|exact (balance_audio _ f _ _ B)].
  - by destruct video.
  - replace (initDone _) with (initDone (rd_seen r)) by (by destruct video). congruence.
  - intros Ho. assert (0 < len (rd_video (rd_queues r))) by (apply F4; by destruct video). destruct video; cbn; [|done].
    rewrite len_app. pose proof (len_nonneg [f]). lia.
Qed.

Lemma inv_mdat r f (video : bool) : inv r → stored (sourcePayload (rd_buf r)) f →
  inv (set_pending None (set_sourcePayloadFromMoof 0 (set_currentPayloadStart 0 (set_sourceMoof []
    (if video then set_video (rd_video (rd_queues r) ++ [f]) r else set_audio (rd_audio (rd_queues r) ++ [f]) r))))).
Proof.
  intros [? ? ? ? [? ? ? ?] ?] Hf. pose proof (len_nonneg (sourcePayload (rd_buf r))).
  assert (Hnil : bytes_ok []) by apply Forall_nil_2.
  assert (Hq : ∀ v a, Forall (stored (sourcePayload (rd_buf r))) v → Forall (stored (sourcePayload (rd_buf r))) a →
    queues_ok (sourcePayload (rd_buf r)) (mkQueues v a None 0 0)) by (intros; by constructor).
  destruct video; (constructor; [done|done|done|done|apply Hq; [try done|try done]; apply Forall_app; split; [done|by constructor]|done]).
Qed.

Lemma completeMdat_wp r : inv r → wp completeMdat r (λ _ r', ended boxMdat r r') inv.
Proof.
  intros Hi. unfold completeMdat. wp_step. destruct (rd_pending (rd_queues r)) as [p|] eqn:Ep; [|by wp_step].
  set (st := sourcePayload (rd_buf r)). set (start := currentPayloadStart (rd_queues r)).
  destruct (qo_pending _ _ (iv_queues _ Hi) p Ep) as [_ Hp]. pose proof (qo_start _ _ (iv_queues _ Hi)) as Hs. fold start st in Hs. cbv zeta.
  eapply wp_lift_bind; [by apply attachPayload_ends|exact Hi|]. intros f (Hw&E1&E2&_&_&Et).
  destruct (tail_payload st f start Hw E1 E2 Hs) as [Hst Hpay].
  assert (Hfin : ∀ video, video = (f_trackID f =? videoID r) → ended boxMdat r (set_pending None (set_sourcePayloadFromMoof 0 (set_currentPayloadStart 0 (set_sourceMoof []
    (if video then set_video (rd_video (rd_queues r) ++ [f]) r else set_audio (rd_audio (rd_queues r) ++ [f]) r)))))).
  { intros video Hv. constructor; [by apply inv_mdat|by destruct video..|].
    intros Hl bs b Hf Hb _ Hd. destruct (Hd eq_refl) as [Hi' Hbody]. apply flow_mdat; try done.
    - fold st. by rewrite Hpay.
    - rewrite Et. by apply (fl_pending _ _ Hf).
    - fold st. rewrite Hpay, E2. intros _ Hn. destruct (decide (0 < len st - start)); [done|]. exfalso. apply Hn, drop_ge. unfold len in *. lia. }
  destruct (f_trackID f =? tr_id (videoTrack (rd_tracks r))) eqn:Ev.
  - cbv iota. do 2 wp_step. by apply (Hfin true).
  - cbv iota. destruct (negb _ && _) eqn:Ea; cbv iota; [|done]. do 2 wp_step. by apply (Hfin false).
Qed.

(** A box that is neither a [moof] nor an [mdat] leaves the flow as it is. *)
Lemma ended_other r r' : let t := currentBoxType (rd_box r) in inv r' → t ≠ boxMoof → t ≠ boxMdat →
  rd_box r' = rd_box r → sourcePayload (rd_buf r') = sourcePayload (rd_buf r) → rd_deferred (rd_buf r') = rd_deferred (rd_buf r) →
  rd_queues r' = rd_queues r → initDone (rd_seen r') = initDone (rd_seen r) → rd_tracks r' = rd_tracks r → rd_out r' = rd_out r →
  ended t r r'.
Proof. intros t Hi H1 H2 ? ? ? ? ? ? ?. constructor; try done. intros _ bs b Hf Ht _ _. apply flow_other; [congruence..|]. by eapply flow_same, Hf. Qed.

(** Another type than the one the box has. *)
Ltac differ := let E := fresh in intros E; match goal with H : _ = _ |- _ => rewrite E in H; discriminate H end.

Lemma completeBox_wp r : inv r → wp completeBox r (λ _ r', ended (currentBoxType (rd_box r)) r r') inv.
Proof.
  intros Hi. unfold completeBox. wp_step. set (t := currentBoxType (rd_box r)).
  assert (Hd : ∀ r', inv r' → t ≠ boxMoof → t ≠ boxMdat → rd_box r' = rd_box r → sourcePayload (rd_buf r') = sourcePayload (rd_buf r) →
    rd_deferred (rd_buf r') = rd_deferred (rd_buf r) → rd_queues r' = rd_queues r → initDone (rd_seen r') = initDone (rd_seen r) →
    rd_tracks r' = rd_tracks r → rd_out r' = rd_out r → ended t r r') by (intros; by apply ended_other).
  assert (Hi1 : inv (set_sourceStyp [] r)) by (destruct Hi; by constructor).
  assert (Hi2 : inv (set_sourceStyp [] (set_styp (sourceStyp (rd_buf r)) r))) by (destruct Hi; by constructor).
  assert (Hi3 : ∀ sn, inv (set_seen sn r)) by (intros; destruct Hi; by constructor).
  wp_step; reflect_bools; [do 2 wp_step; split_if; apply Hd; try differ; done|].
  wp_step; reflect_bools; [do 2 wp_step; apply Hd; try differ; try apply Hi3; done|].
  wp_step; reflect_bools; [repeat wp_step; apply Hd; try differ; try apply Hi3; done|].
  wp_step; reflect_bools.
  { eapply wp_bind; [by apply completeMoof_wp|]. intros [] r' He. wp_step. by rewrite Heqb2. }
  wp_step; reflect_bools.
  - eapply wp_bind; [by apply completeMdat_wp|]. intros [] r1 [E1 E2 E3 E4 E5].
    eapply wp_mono; [by apply tryBuild_wp| |done]. intros b r' ((Hi4&Hq&Hs&Hb)&Ht&Hn). constructor; [done|..].
    + by rewrite (qt_box _ _ Hq).
    + by rewrite (qt_payload _ _ Hq).
    + by rewrite (qt_deferred _ _ Hq).
    + intros Hl bs b' Hf Htb Hm Hdt. apply (flow_keeps _ r1); [done| |by rewrite E3|apply E5; [done|done|congruence|done|intros _; by apply Hdt]].
      destruct b; [by right; apply Ht|left]. destruct (Hn eq_refl) as [-> ->]. done.
  - wp_step. by apply Hd.
Qed.

(** ** Input *)

Lemma take_header (part body h : bytes) n : len h = n → part = h ++ body → take (Z.to_nat n) part = h.
Proof. intros Hl ->. apply take_app_length'. unfold len in Hl. lia. Qed.

(** A complete box joins the boxes that were read. *)
Lemma bodyRead_wp r : inv r → wp bodyRead r (λ _ r', inv r' ∧ rd_deferred (rd_buf r') = rd_deferred (rd_buf r) ∧
  ∀ p bs part body, len p < two63 → follows p bs part r → in_body bs r part body → currentBoxRemaining (rd_box r) = 0 → at_rest p r') inv.
Proof.
  intros Hi. unfold bodyRead. eapply wp_bind; [by apply completeBox_wp|]. intros b r1 [E1 E2 E3 E4 E5]. do 2 wp_step.
  set (r' := resetBoxState r1). assert (Hi' : inv r').
  { apply inv_box; [done|]. constructor; cbn; [constructor|by left|done|done]. }
  split_and!; [done|by rewrite <- E4|]. intros p bs part body Hp [F1 F2 F3 F4] [B1 B2 B3 B4 B5 B6] Hz.
  set (h := boxHeaderRequired (rd_box r)) in *. set (x := mkTop (currentBoxType (rd_box r)) h part).
  assert (Hh : h = 8 ∨ h = 16) by apply Hi.
  assert (Ht : take (Z.to_nat h) part = boxHeader (rd_box r)) by (by eapply take_header).
  assert (Hb : body_of x = body) by (unfold body_of; cbn; rewrite B1; apply drop_app_length'; unfold len in B2; lia).
  exists (bs ++ [x]), []. split.
  - constructor.
    + rewrite fmap_app, concat_app, F1. cbn. by rewrite !app_nil_r.
    + apply Forall_app. split; [done|]. constructor; [|constructor]. constructor; cbn; [done|rewrite B1, len_app; pose proof (len_nonneg body); lia| |].
      * rewrite Ht. rewrite Hz, Z.add_0_r in B3. done.
      * rewrite B4. unfold type_in. rewrite B1, drop_app_le, take_app_le by (rewrite ?length_drop; unfold len in B2; lia). done.
    + eapply (flow_same _ r1); [done..|]. apply E5; [lia|done|done| |].
      * intros Et. symmetry. by apply B6.
      * intros Et. destruct (B5 Et) as (?&_&Hbody). split; [done|]. rewrite Hb. intros Hfull. apply (Hbody Hfull).
    + change (sourcePayload (rd_buf r')) with (sourcePayload (rd_buf r1)). by rewrite E3.
  - left. split; [constructor; [done|done]|done].
Qed.

Lemma headerDone_wp r : inv r → len (boxHeader (rd_box r)) = boxHeaderRequired (rd_box r) →
  wp headerDone r (λ _ r', inv r' ∧ rd_deferred (rd_buf r') = rd_deferred (rd_buf r) ∧
    ∀ p bs, len p < two63 → follows p bs (boxHeader (rd_box r)) r → in_header r (boxHeader (rd_box r)) → at_rest p r') inv.
Proof.
  intros Hi Hl. unfold headerDone. eapply wp_bind; [by apply headerRead_wp|]. intros [] r1 (P1&P2&Hi1&Hr). wp_step.
  assert (Hfo : ∀ p bs, follows p bs (boxHeader (rd_box r)) r → in_header r (boxHeader (rd_box r)) → follows p bs (boxHeader (rd_box r)) r1).
  { intros p bs [F1 F2 F3 F4] Hh. destruct (Hr bs F3 Hh) as [Hf _]. constructor; [done..|]. by rewrite P1. }
  wp_step.
  - wp_step. split_and!; [done..|]. intros p bs Hp Hf Hh. exists bs, (boxHeader (rd_box r)). split; [by apply Hfo|].
    destruct (Hr bs (fo_flow _ _ _ _ Hf) Hh) as [_ [[H1 H2]|[H1 H2]]]; [by left|right]. exists []. split; [done|].
    pose proof (bo_remaining _ (iv_box _ Hi1)). apply orb_true_iff in Heqb as [Hb|Hb]; reflect_bools; lia.
  - apply orb_false_iff in Heqb as [Hlt Hz]. reflect_bools. eapply wp_mono; [by apply bodyRead_wp| |done]. intros b r' (Hi'&Hd&Hb).
    split_and!; [done|by rewrite Hd|]. intros p bs Hp Hf Hh.
    destruct (Hr bs (fo_flow _ _ _ _ Hf) Hh) as [_ [[[H0 _] H2]|[H1 H2]]]; [rewrite <- H0 in Hlt; lia|]. eapply Hb; [done|by apply Hfo|done|lia].
Qed.

(** More of a header. *)
Lemma more_header p bs part r w : follows p bs part r → in_header r part → len (boxHeader (rd_box r) ++ w) <= boxHeaderRequired (rd_box r) →
  let r' := set_boxHeader (boxHeader (rd_box r) ++ w) r in
  follows (p ++ w) bs (part ++ w) r' ∧ in_header r' (part ++ w) ∧ part ++ w = boxHeader (rd_box r').
Proof.
  intros [F1 F2 F3 F4] [-> Hl] Hb r'. split_and!; [| |done].
  - constructor; [by rewrite F1, app_assoc|done|by eapply flow_same, F3|]. cbn. rewrite len_app. pose proof (len_nonneg w). lia.
  - constructor; [done|]. intros H16. destruct (Hl H16) as (L1&L2&L3). split_and!; [rewrite len_app; pose proof (len_nonneg w); lia| |].
    + rewrite take_app_le; [done|unfold len in L1; lia].
    + change (currentBoxType (rd_box r')) with (currentBoxType (rd_box r)). rewrite L3. unfold type_in.
      rewrite drop_app_le, take_app_le by (rewrite ?length_drop; unfold len in L1; lia). done.
Qed.

Lemma inv_header r h : inv r → bytes_ok h → len h <= boxHeaderRequired (rd_box r) → inv (set_boxHeader h r).
Proof. intros Hi Hh Hl. apply inv_box; [done|]. destruct (iv_box _ Hi). by constructor. Qed.

(** More of a body. *)
Lemma more_body p bs part body r w : inv r → bytes_ok w → follows p bs part r → in_body bs r part body → len w <= currentBoxRemaining (rd_box r) →
  let r' := set_currentBoxRemaining (currentBoxRemaining (rd_box r) - len w) (writeCurrentBoxData w r) in
  follows (p ++ w) bs (part ++ w) r' ∧ in_body bs r' (part ++ w) (body ++ w).
Proof.
  intros Hi Hw [F1 F2 F3 F4] [B1 B2 B3 B4 B5 B6] Hl r'. destruct (write_frame w r) as (W1&W2&W3&W4&W5&W6&W7&W8&W9).
  assert (Eb : rd_box r' = mkBoxState (boxHeader (rd_box r)) (boxHeaderRequired (rd_box r)) (currentBoxType (rd_box r))
    (currentBoxRemaining (rd_box r) - len w) (currentTarget (rd_box r))) by (unfold r'; cbn; by rewrite W1).
  assert (Eq : rd_queues r' = rd_queues r ∧ rd_seen r' = rd_seen r) by (split; [exact W4|exact W3]). destruct Eq as [Eq En].
  assert (Es : sourcePayload (rd_buf r') = sourcePayload (rd_buf (writeCurrentBoxData w r))) by done.
  assert (Em : sourceMoof (rd_buf r') = sourceMoof (rd_buf (writeCurrentBoxData w r))) by done.
  split.
  - constructor; [by rewrite F1, app_assoc|done|eapply (flow_same _ (writeCurrentBoxData w r)); [done..|by apply flow_write]|].
    rewrite Es, W8, !len_app. destruct (currentTarget (rd_box r)); try change (len []) with 0; pose proof (len_nonneg w); lia.
  - constructor; rewrite ?Eb, ?Eq, ?En, ?Es, ?Em; cbn [boxHeader boxHeaderRequired currentBoxType currentBoxRemaining currentTarget]; try done.
    + by rewrite B1, app_assoc.
    + assert (E : len part + len w + (currentBoxRemaining (rd_box r) - len w) = len part + currentBoxRemaining (rd_box r)) by lia.
      by rewrite len_app, E.
    + intros Et. destruct (B5 Et) as (D1&D2&D3). rewrite W8, D2. split_and!; [done..|].
      intros Hf. destruct (D3 Hf) as [D4 ->]. split; [done|]. pose proof (qo_start _ _ (iv_queues _ Hi)). rewrite drop_app_le by (unfold len in *; lia). done.
    + intros Et. destruct (B6 Et) as (D1&D2&D3). by rewrite W9, D2, D3.
Qed.

(** What reading [data] from [r] does, when [rest] is left of it. *)
Definition reads (data : bytes) (r : mp4BoxReader) (x : bytes * bool) (r' : mp4BoxReader) : Prop :=
  inv r' ∧ rd_deferred (rd_buf r') = rd_deferred (rd_buf r) ∧ ∃ used, data = used ++ x.1 ∧
  ∀ p, len (p ++ used) < two63 → at_rest p r → at_rest (p ++ used) r' ∧ (x.2 = false → x.1 = []).

Lemma reads_more data used rest r r1 x r' : data = used ++ rest → rd_deferred (rd_buf r1) = rd_deferred (rd_buf r) →
  (∀ p, len (p ++ used) < two63 → at_rest p r → at_rest (p ++ used) r1) → reads rest r1 x r' → reads data r x r'.
Proof.
  intros -> Hd Hr (Hi&Hd'&u&->&Hu). split_and!; [done|by rewrite Hd'|]. exists (used ++ u). split; [by rewrite app_assoc|].
  intros p Hp Ha. rewrite !app_assoc in *. pose proof (len_nonneg u). apply Hu; [done|]. apply Hr; [rewrite !len_app in *; lia|done].
Qed.

Lemma reads_stop data used rest (b : bool) r r' : data = used ++ rest → rd_deferred (rd_buf r') = rd_deferred (rd_buf r) → inv r' →
  (∀ p, len (p ++ used) < two63 → at_rest p r → at_rest (p ++ used) r' ∧ (b = false → rest = [])) → reads data r (rest, b) r'.
Proof. intros ? ? ? ?. split_and!; [done..|]. by exists used. Qed.

(** At rest, the header is incomplete, or the body is and its length is known. *)
Lemma at_rest_header p r : at_rest p r → len (boxHeader (rd_box r)) < boxHeaderRequired (rd_box r) →
  ∃ bs part, follows p bs part r ∧ in_header r part.
Proof. intros (bs&part&Hf&[[Hh _]|(body&[_ Hl _ _ _ _]&_)]) Hlt; [by exists bs, part|lia]. Qed.

Lemma at_rest_body p r : at_rest p r → ¬ len (boxHeader (rd_box r)) < boxHeaderRequired (rd_box r) →
  ∃ bs part body, follows p bs part r ∧ in_body bs r part body ∧ 0 < currentBoxRemaining (rd_box r).
Proof. intros (bs&part&Hf&[[[-> _] Hl]|(body&Hb&Hz)]) Hn; [lia|by exists bs, part, body]. Qed.

(** A step of the loop in the header of a box. *)
Lemma header_step w r : let r1 := set_boxHeader (boxHeader (rd_box r) ++ w) r in
  inv r → bytes_ok w → len (boxHeader (rd_box r)) < boxHeaderRequired (rd_box r) →
  len (boxHeader (rd_box r) ++ w) <= boxHeaderRequired (rd_box r) →
  inv r1 ∧ ∀ p, at_rest p r → ∃ bs, follows (p ++ w) bs (boxHeader (rd_box r1)) r1 ∧ in_header r1 (boxHeader (rd_box r1)).
Proof.
  intros r1 Hi Hw Hlt Hle. split.
  - apply inv_header; [done|apply Forall_app; split; [apply (bo_header _ (iv_box _ Hi))|done]|done].
  - intros p Ha. destruct (at_rest_header p r Ha Hlt) as (bs&part&Hf&Hh). destruct (more_header p bs part r w Hf Hh Hle) as (H1&H2&H3).
    exists bs. rewrite H3 in *. done.
Qed.

(** A step of the loop in the body. *)
Lemma body_step w r : let r1 := set_currentBoxRemaining (currentBoxRemaining (rd_box r) - len w) (writeCurrentBoxData w r) in
  inv r → bytes_ok w → ¬ len (boxHeader (rd_box r)) < boxHeaderRequired (rd_box r) → len w <= currentBoxRemaining (rd_box r) →
  inv r1 ∧ rd_deferred (rd_buf r1) = rd_deferred (rd_buf r) ∧
  ∀ p, at_rest p r → ∃ bs part body, follows (p ++ w) bs part r1 ∧ in_body bs r1 part body.
Proof.
  intros r1 Hi Hw Hn Hle. split_and!.
  - pose proof (inv_write r w Hi Hw) as Hi'. apply inv_box; [done|]. destruct (iv_box _ Hi') as [? ? ? ?]. constructor; cbn; try done. lia.
  - apply (write_frame w r).
  - intros p Ha. destruct (at_rest_body p r Ha Hn) as (bs&part&body&Hf&Hb&_). destruct (more_body p bs part body r w Hi Hw Hf Hb Hle).
    by exists bs, (part ++ w), (body ++ w).
Qed.

Lemma process_loop_wp fuel data r : inv r → bytes_ok data → (length data <= fuel)%nat →
  wp (process_loop fuel data) r (reads data r) inv.
Proof.
  revert data r. induction fuel as [|fuel IH]; intros data r Hi Hd Hf; destruct data as [|x data].
  1, 3: by cbn; apply (reads_stop [] []); [..|intros p; rewrite app_nil_r].
  { cbn in Hf. lia. }
  set (all := x :: data) in *. assert (Hall : 0 < len all) by (unfold all; rewrite len_cons; pose proof (len_nonneg data); lia).
  change (wp (process_loop (S fuel) all) r (reads all r) inv). unfold all at 1. cbn [process_loop]. fold all. wp_step.
  set (n := Z.min (boxHeaderRequired (rd_box r) - len (boxHeader (rd_box r))) (len all)).
  assert (Hcut : ∀ n, 0 < n <= len all → all = take (Z.to_nat n) all ++ drop (Z.to_nat n) all ∧ len (take (Z.to_nat n) all) = n ∧
    bytes_ok (take (Z.to_nat n) all) ∧ bytes_ok (drop (Z.to_nat n) all) ∧ (length (drop (Z.to_nat n) all) <= fuel)%nat).
  { intros k Hk. split_and!; [by rewrite take_drop|unfold len in *; rewrite length_take; lia|by apply Forall_take|by apply Forall_drop|].
    rewrite length_drop. unfold len in Hk. lia. }
  wp_step; reflect_bools.
  - destruct (Hcut n) as (E&El&Hw&Hrest&Hfuel); [lia|]. wp_step. set (w := take (Z.to_nat n) all) in *. set (rest := drop (Z.to_nat n) all) in *.
    destruct (header_step w r Hi Hw Heqb) as [Hi1 Hr1]; [rewrite len_app; lia|]. set (r1 := set_boxHeader _ r) in *.
    assert (Eh : len (boxHeader (rd_box r1)) = len (boxHeader (rd_box r)) + n) by (cbn; rewrite len_app; lia).
    wp_step; reflect_bools.
    + wp_step. apply (reads_stop _ w); try done. intros p Hp Ha. destruct (Hr1 p Ha) as (bs&Hfo&Hin). split.
      * exists bs, (boxHeader (rd_box r1)). split; [done|]. left. split; [done|]. cbn in *. lia.
      * intros _. apply nil_length_inv. unfold rest. rewrite length_drop. unfold len in *. lia.
    + assert (Hfull : len (boxHeader (rd_box r1)) = boxHeaderRequired (rd_box r1)) by (cbn in *; lia).
      eapply wp_bind; [by apply headerDone_wp|]. intros b r2 (Hi2&Hd2&Hr2).
      assert (Hall2 : ∀ p, len (p ++ w) < two63 → at_rest p r → at_rest (p ++ w) r2).
      { intros p Hp Ha. destruct (Hr1 p Ha) as (bs&Hfo&Hin). by eapply Hr2. }
      destruct b; [wp_step; apply (reads_stop _ w); [done..|]; intros p Hp Ha; split; [by apply Hall2|done]|].
      eapply wp_mono; [by apply IH| |done]. intros y r' Hy. by eapply reads_more.
  - rewrite Z.min_r by lia. wp_step; reflect_bools.
    { wp_step. apply (reads_stop _ [] all); [done..|]. intros p _ Ha. exfalso.
      destruct (at_rest_body p r Ha) as (?&?&?&_&_&?); lia. }
    set (k := Z.min (len all) (currentBoxRemaining (rd_box r))) in *.
    destruct (Hcut k) as (E&El&Hw&Hrest&Hfuel); [lia|]. do 2 wp_step. set (w := take (Z.to_nat k) all) in *. set (rest := drop (Z.to_nat k) all) in *.
    destruct (body_step w r Hi Hw) as (Hi1&Hd1&Hr1); [lia|lia|]. rewrite El in *.
    match goal with |- wp _ ?s _ _ => set (r1 := s) in * end. wp_step. wp_step; reflect_bools.
    + eapply wp_bind; [by apply bodyRead_wp|]. intros b r2 (Hi2&Hd2&Hr2).
      assert (Hall2 : ∀ p, len (p ++ w) < two63 → at_rest p r → at_rest (p ++ w) r2).
      { intros p Hp Ha. destruct (Hr1 p Ha) as (bs&part&body&Hfo&Hin). by eapply Hr2. }
      destruct b; [wp_step; apply (reads_stop _ w); [done|by etrans|done|]; intros p Hp Ha; split; [by apply Hall2|done]|].
      eapply wp_mono; [by apply IH| |done]. intros y r' Hy. eapply reads_more; [exact E|by etrans|exact Hall2|exact Hy].
    + eapply wp_mono; [by apply IH| |done]. intros y r' Hy. eapply reads_more; [exact E|exact Hd1| |exact Hy].
      intros p Hp Ha. destruct (Hr1 p Ha) as (bs&part&body&Hfo&Hin). exists bs, part. split; [done|]. right. exists body. split; [done|].
      pose proof (bo_remaining _ (iv_box _ Hi1)). lia.
Qed.
