(* ===== verification/FragCalls.v ===== *)
(** * Fragments of a stream: whole calls

    Runs of the calls of the pipeline on one reader: no call panics, whatever happened
    before it, and no byte of the stream is lost, doubled or moved to another place. *)

From Stdlib Require Import SpecFloat.
From S2P Require Import Prelude GoText Encoding GoFloat Segment FragBox FragTrack FragSafe FragQueue FragState FragReader FragInv FragFlow.
#[local] Open Scope Z_scope.

(** ** Input that was pushed: consumed or deferred *)

Definition heard (s : bytes) (r : mp4BoxReader) : Prop := ∃ p, s = p ++ rd_deferred (rd_buf r) ∧ at_rest p r.

Lemma at_rest_same p r r' : rd_box r' = rd_box r → rd_queues r' = rd_queues r → sourcePayload (rd_buf r') = sourcePayload (rd_buf r) →
  sourceMoof (rd_buf r') = sourceMoof (rd_buf r) → rd_seen r' = rd_seen r → rd_tracks r' = rd_tracks r → rd_out r' = rd_out r →
  at_rest p r → at_rest p r'.
Proof.
  intros E1 E2 E3 E4 E5 E6 E7 (bs&part&[F1 F2 F3 F4]&Hu). exists bs, part. split.
  - constructor; [done|done|eapply flow_same, F3; congruence|by rewrite E3].
  - destruct Hu as [[[H1 H2] H3]|(body&[B1 B2 B3 B4 B5 B6]&Hz)].
    + left. split; [constructor|]; by rewrite E1.
    + right. exists body. split; [constructor|]; rewrite ?E1, ?E2, ?E3, ?E4, ?E5; done.
Qed.

Lemma at_rest_builds p r b r' : builds r b r' → len p < two63 → at_rest p r → at_rest p r'.
Proof.
  intros (Hk&Ht&Hn) Hp (bs&part&[F1 F2 F3 F4]&Hu). destruct (Hk) as (Hi&Hq&_&Hc&_). destruct Hq. exists bs, part. split.
  - constructor; [done|done| |by rewrite qt_payload]. eapply flow_keeps; [exact Hk| |lia|done].
    destruct b; [by right; apply Ht|left]. destruct (Hn eq_refl) as [-> ->]. done.
  - destruct Hu as [[[H1 H2] H3]|(body&[B1 B2 B3 B4 B5 B6]&Hz)].
    + left. split; [constructor|]; by rewrite qt_box.
    + right. exists body. split; [constructor|]; rewrite ?qt_box, ?qt_payload, ?qt_moof, ?qt_seen, ?qt_start; try done.
      intros Et. destruct (B5 Et) as (?&?&Hd). split_and!; [done..|]. intros Hf. destruct (Hd Hf). split; [by apply Hc|done].
Qed.

Lemma inv_deferred r d : inv r → bytes_ok d → inv (set_deferred d r).
Proof. intros [] Hd. by constructor. Qed.

Lemma processBytes_wp data r : inv r → bytes_ok data → wp (processBytes data) r (λ x r', inv r' ∧ rd_deferred (rd_buf r') = rd_deferred (rd_buf r) ∧
  0 <= x.1 <= len data ∧ ∀ p, len (p ++ data) < two63 → at_rest p r →
    at_rest (p ++ take (Z.to_nat x.1) data) r' ∧ (x.2 = false → x.1 = len data)) inv.
Proof.
  intros Hi Hd. unfold processBytes. eapply wp_bind; [by apply process_loop_wp|]. intros [rest b] r' (Hi'&Hd'&used&Hu&Hr). wp_step.
  cbn [fst snd] in *. assert (El : len data - len rest = len used) by (rewrite Hu, len_app; lia). rewrite El.
  pose proof (len_nonneg used). pose proof (len_nonneg rest). split_and!; [done..|lia|lia|]. intros p Hp Ha.
  rewrite Hu, take_app_length' by (unfold len; lia). destruct (Hr p) as [H1 H2]; [rewrite Hu, !len_app in *; lia|done|].
  split; [done|]. intros Hb. rewrite (H2 Hb) in *. rewrite len_app. change (len []) with 0. lia.
Qed.

Lemma TryProcessDeferred_wp r : inv r → wp TryProcessDeferred r (λ b r', inv r' ∧
  ∀ s, len s < two63 → heard s r → heard s r' ∧ (b = false → rd_deferred (rd_buf r') = [])) inv.
Proof.
  intros Hi. unfold TryProcessDeferred. eapply wp_bind; [by apply tryBuild_wp|]. intros b r1 Hb.
  assert (Hi1 : inv r1) by apply Hb. assert (Hd1 : rd_deferred (rd_buf r1) = rd_deferred (rd_buf r)) by apply Hb.
  assert (H1 : ∀ s, len s < two63 → heard s r → heard s r1).
  { intros s Hl (p&->&Ha). exists p. rewrite Hd1. split; [done|]. eapply at_rest_builds; [done| |done]. rewrite len_app in Hl.
    pose proof (len_nonneg (rd_deferred (rd_buf r))). lia. }
  destruct b; [wp_step; split; [done|]; intros s Hl Hs; split; [by apply H1|done]|]. wp_step.
  set (data := rd_deferred (rd_buf r1)) in *. wp_step; reflect_bools.
  - wp_step. split; [done|]. intros s Hl Hs. split; [by apply H1|]. intros _. by apply nil_length_inv; unfold len in *; fold data; lia.
  - eapply wp_bind; [apply processBytes_wp; [done|apply Hi1]|]. intros [n completed] r2 (Hi2&Hd2&Hn&Hr). cbn [fst snd] in *. fold data in Hd2.
    assert (Hh : ∀ s d, len s < two63 → heard s r → drop (Z.to_nat n) data = d → heard s (set_deferred d r2)).
    { intros s d Hl Hs <-. destruct (H1 s Hl Hs) as (p&->&Ha). fold data in Hl. destruct (Hr p Hl Ha) as [Ha' _].
      exists (p ++ take (Z.to_nat n) data). cbn. rewrite <- app_assoc, take_drop. split; [done|]. by eapply at_rest_same, Ha'. }
    assert (Hz : ∀ r3, r3 = set_deferred [] r2 → inv r3) by (intros ? ->; apply inv_deferred; [done|constructor]).
    wp_step.
    + eapply (wp_bind _ _ _ (λ _ r3, inv r3 ∧ ∀ s, len s < two63 → heard s r → heard s r3));
        [|intros [] r3 [Hi3 Hr3]; wp_step; split; [done|]; intros s Hl Hs; split; [by apply Hr3|done]]. unfold keepDeferred. wp_step. rewrite Hd2. wp_step; reflect_bools.
      * wp_step. split; [by apply Hz|]. intros s Hl Hs. apply Hh; [done..|]. apply drop_ge. unfold len in *. lia.
      * unfold slice_from. rewrite slice_in_range by lia. cbn [checked lift mbind reading_bind]. apply wp_change.
        split; [apply inv_deferred; [done|]; apply Forall_take, Forall_drop; rewrite <- Hd2; apply Hi2|].
        intros s Hl Hs. apply Hh; [done..|]. symmetry. apply take_ge. rewrite length_drop. unfold len. lia.
    + wp_step. reflect_bools. do 2 wp_step. split; [by apply Hz|]. intros s Hl Hs. split; [|done]. apply Hh; [done..|].
      apply drop_ge. unfold len in *. lia.
Qed.

Lemma Push_wp data r : inv r → bytes_ok data → wp (Push data) r (λ _ r', inv r' ∧
  ∀ s, len (s ++ data) < two63 → heard s r → heard (s ++ data) r') inv.
Proof.
  intros Hi Hd. unfold Push. wp_step; reflect_bools.
  { wp_step. split; [done|]. intros s _ Hs. destruct data; [by rewrite app_nil_r|done]. }
  assert (Hs1 : ∀ s : bytes, len (s ++ data) < two63 → len s < two63) by (intros s; rewrite len_app; pose proof (len_nonneg data); lia).
  eapply wp_bind; [by apply TryProcessDeferred_wp|]. intros b r1 (Hi1&Hr1).
  assert (Hdf : ∀ r2 d, inv r2 → bytes_ok d → inv (defer d r2)).
  { intros r2 d Hi2 Hdd. apply inv_deferred; [done|]. apply Forall_app. split; [apply Hi2|done]. }
  wp_step.
  - wp_step. split; [by apply Hdf|]. intros s Hl Hs. destruct (Hr1 s (Hs1 s Hl) Hs) as [(p&->&Ha) _]. exists p.
    cbn. rewrite app_assoc. split; [done|]. by eapply at_rest_same, Ha.
  - eapply wp_bind; [by apply processBytes_wp|]. intros [n completed] r2 (Hi2&Hd2&Hn&Hr). cbn [fst snd] in *.
    assert (Hh : ∀ s, len (s ++ data) < two63 → heard s r → at_rest (s ++ take (Z.to_nat n) data) r2 ∧ rd_deferred (rd_buf r2) = [] ∧ (completed = false → n = len data)).
    { intros s Hl Hs. destruct (Hr1 s (Hs1 s Hl) Hs) as [(p&->&Ha) He]. rewrite Hd2, (He eq_refl), app_nil_r in *. destruct (Hr p Hl Ha). done. }
    wp_step; reflect_bools; [wp_step; split; [done|]; intros s Hl Hs|wp_step; reflect_bools].
    + destruct (Hh s Hl Hs) as (Ha&He&En). exists (s ++ data). rewrite He, app_nil_r. split; [done|].
      rewrite take_ge in Ha; [done|]. rewrite (En ltac:(by destruct completed)). unfold len. lia.
    + unfold slice_from. rewrite slice_in_range by lia. cbn [checked lift mbind reading_bind]. apply wp_change.
      split; [apply Hdf; [done|by apply Forall_take, Forall_drop]|]. intros s Hl Hs. destruct (Hh s Hl Hs) as (Ha&He&_).
      exists (s ++ take (Z.to_nat n) data). cbn. rewrite He. cbn [app]. rewrite <- app_assoc. split; [|by eapply at_rest_same, Ha]. f_equal.
      rewrite (take_ge (drop _ _)) by (rewrite length_drop; unfold len; lia). by rewrite take_drop.
    + wp_step. split; [done|]. intros s Hl Hs. destruct (Hh s Hl Hs) as (Ha&He&_). exists (s ++ data). rewrite He, app_nil_r. split; [done|].
      rewrite take_ge in Ha; [done|]. unfold len in *. lia.
Qed.

(** ** Releasing payloads *)

(** The least start of a fragment with bytes, and [-1] when there is none. *)
Record least (current m : Z) (fs : list mp4Fragment) : Prop := {
  ls_below : Forall (λ f, 0 < f_payloadLen f → 0 <= m <= f_payloadStart f) fs;
  ls_current : 0 <= current → 0 <= m <= current;
  ls_attained : m = current ∨ ∃ f, f ∈ fs ∧ 0 < f_payloadLen f ∧ m = f_payloadStart f;
}.

Lemma least_spec st fs current : Forall (stored st) fs → least current (minFragmentPayloadStart current fs) fs.
Proof.
  intros Hs. revert current. induction Hs as [|f fs [_ Hf Hl _] _ IH]; intros current; [constructor; [by apply Forall_nil_2|done|by left]|].
  unfold minFragmentPayloadStart in *. cbn [foldl]. split_if.
  - destruct (IH current) as [I1 I2 I3]. constructor; [constructor; [lia|done]|done|]. destruct I3 as [?|(g&?&?&?)]; [by left|right].
    exists g. by split_and!; [right|..].
  - set (c := minPayloadStart current (f_payloadStart f)). destruct (IH c) as [I1 I2 I3].
    assert (Hc : 0 <= c <= f_payloadStart f ∧ (0 <= current → c <= current) ∧ (c = current ∨ c = f_payloadStart f)).
    { unfold c, minPayloadStart. split_if; lia. }
    specialize (I2 ltac:(lia)). constructor; [constructor; [lia|done]|lia|].
    destruct I3 as [->|(g&?&?&?)]; [|right; exists g; by split_and!; [right|..]].
    destruct Hc as (_&_&[->| ->]); [by left|right]. exists f. split_and!; [by left|lia|done].
Qed.

Lemma minQueued_spec r : inv r → let m := minQueuedPayloadStart r in let st := sourcePayload (rd_buf r) in
  (m = -1 ∨ 0 <= m <= len st) ∧
  Forall (λ f, 0 < f_payloadLen f → 0 <= m <= f_payloadStart f) (rd_video (rd_queues r)) ∧
  Forall (λ f, 0 < f_payloadLen f → 0 <= m <= f_payloadStart f) (rd_audio (rd_queues r)).
Proof.
  intros Hi m st. destruct (iv_queues _ Hi) as [Qv Qa Qp _]. fold st in Qv, Qa.
  set (mv := minFragmentPayloadStart (-1) (rd_video (rd_queues r))). set (ma := minFragmentPayloadStart mv (rd_audio (rd_queues r))).
  assert (E : m = ma).
  { unfold m, minQueuedPayloadStart. fold mv ma. destruct (rd_pending (rd_queues r)) as [p|] eqn:Ep; [|done]. destruct (Qp p eq_refl) as [E _].
    rewrite E. done. }
  destruct (least_spec st _ (-1) Qv) as [V1 _ V3]. fold mv in V1, V3. destruct (least_spec st _ mv Qa) as [A1 A2 A3]. fold ma in A1, A2, A3.
  rewrite E. split_and!; [|eapply Forall_impl; [exact V1|]; cbn; intros f Hf Hl; specialize (Hf Hl); lia|done].
  assert (Hst : ∀ fs f, Forall (stored st) fs → f ∈ fs → 0 < f_payloadLen f → 0 <= f_payloadStart f <= len st).
  { intros fs f Hs Hin Hl. rewrite Forall_forall in Hs. destruct (Hs f Hin). lia. }
  destruct A3 as [->|(f&Hf&Hl&->)]; [|right; eapply (Hst _ f Qa); done]. destruct V3 as [->|(f&Hf&Hl&->)]; [by left|right; eapply (Hst _ f Qv); done].
Qed.

(** The storage without its first [n] bytes. *)
Lemma shift_stored st n f : 0 <= n <= len st → (0 < f_payloadLen f → n <= f_payloadStart f) → stored st f →
  stored (drop (Z.to_nat n) st) (shift_start n f) ∧ payload_of (drop (Z.to_nat n) st) (shift_start n f) = payload_of st f ∧
  f_payloadLen (shift_start n f) = f_payloadLen f.
Proof.
  intros Hn Hf [Hw H1 H2 H3]. unfold shift_start. split_if.
  - split_and!; [|unfold payload_of; cbn; rewrite drop_drop; do 2 f_equal; lia|done].
    constructor; cbn; [by destruct Hw; constructor|lia|done|]. right. unfold len in *. rewrite length_drop. lia.
  - split_and!; [constructor; [done|done|done|left; lia]| |done]. unfold payload_of. by replace (Z.to_nat (f_payloadLen f)) with 0%nat by lia.
Qed.

Lemma shift_all st n fs : 0 <= n <= len st → Forall (λ f, 0 < f_payloadLen f → 0 <= n <= f_payloadStart f) fs → Forall (stored st) fs →
  let fs' := shiftFragmentPayloadStarts fs n in
  Forall (stored (drop (Z.to_nat n) st)) fs' ∧ media (drop (Z.to_nat n) st) fs' = media st fs ∧ f_payloadLen <$> fs' = f_payloadLen <$> fs.
Proof.
  intros Hn Hf Hs. unfold shiftFragmentPayloadStarts, media. induction Hs as [|f fs Hst _ IH]; [done|].
  apply Forall_cons in Hf as [Hf Hfs]. destruct (IH Hfs) as (I1&I2&I3). rewrite !fmap_cons. cbn [concat].
  destruct (shift_stored st n f Hn) as (S1&S2&S3); [lia|done|]. rewrite S2, S3, I2, I3. split_and!; [by constructor|done|done].
Qed.

Lemma shift_bare n f : bare f → shift_start n f = f.
Proof. intros [E _]. unfold shift_start. by rewrite E. Qed.

Lemma solid_shift n fs : solid fs → solid (shiftFragmentPayloadStarts fs n).
Proof.
  intros Hs. apply Forall_fmap. eapply Forall_impl; [exact Hs|]. intros f Hf. unfold compose, shift_start. by split_if.
Qed.

Lemma below_shift c n fs : solid fs → below c fs → below (c - n) (shiftFragmentPayloadStarts fs n).
Proof.
  unfold solid, below. intros Hs Hb. apply Forall_fmap. rewrite Forall_forall in *. intros f Hf. specialize (Hs f Hf). specialize (Hb f Hf).
  unfold compose, shift_start. cbn in *. split_if; cbn; lia.
Qed.

(** Shifting keeps the state of the stream: a picture is queued and has bytes. *)
Lemma at_rest_shift p r n d : let q := rd_queues r in let r' :=
    set_queues (mkQueues (shiftFragmentPayloadStarts (rd_video q) n) (shiftFragmentPayloadStarts (rd_audio q) n) (rd_pending q)
      (sourcePayloadFromMoof q) (if n <=? currentPayloadStart q then currentPayloadStart q - n else 0)) (set_sourcePayload d r) in
  inv r → 0 <= n <= len (sourcePayload (rd_buf r)) → d = drop (Z.to_nat n) (sourcePayload (rd_buf r)) →
  Forall (λ f, 0 < f_payloadLen f → 0 <= n <= f_payloadStart f) (rd_video q) →
  Forall (λ f, 0 < f_payloadLen f → 0 <= n <= f_payloadStart f) (rd_audio q) →
  inv r' ∧ (0 < len (rd_video q) → at_rest p r → at_rest p r').
Proof.
  intros q r' Hi Hn Hd Hv Ha. set (st := sourcePayload (rd_buf r)) in *. pose proof (iv_queues _ Hi) as [Qv Qa Qp Qs]. fold q st in Qv, Qa, Qp, Qs.
  destruct (shift_all st n _ Hn Hv Qv) as (V1&V2&V3), (shift_all st n _ Hn Ha Qa) as (A1&A2&A3).
  assert (Ed : len d = len st - n) by (rewrite Hd; unfold len in *; rewrite length_drop; lia). rewrite <- Hd in *.
  split.
  - destruct Hi. constructor; try done. constructor; cbn; [done|done|done|]. fold st. rewrite Ed. split_if; lia.
  - intros Hlen (bs&part&[F1 F2 [L1 L2 L3 L4] F4]&Hu). exists bs, part. split.
    + constructor; [done|done| |cbn; fold st in F4; lia]. constructor; [|done|done|cbn; intros _; unfold len, shiftFragmentPayloadStarts; rewrite length_fmap; exact Hlen].
      intros Hf. destruct (L1 Hf) as [[Sv Sa] (v&a&Hc&Ev&Ea)]. split; [split; by apply solid_shift|]. exists v, a. split_and!; [done|..].
      * change (v ++ media d (shiftFragmentPayloadStarts (rd_video q) n) = picture (videoID r) (arrived bs).2). by rewrite V2.
      * change (a ++ media d (shiftFragmentPayloadStarts (rd_audio q) n) = sound (videoID r) (arrived bs).2). by rewrite A2.
    + destruct Hu as [[[H1 H2] H3]|(body&[B1 B2 B3 B4 B5 B6]&Hz)]; [by left; split; [constructor|]|]. right. exists body. split; [|done].
      constructor; try done. intros Et. destruct (B5 Et) as (D1&D2&D3). split_and!; [done..|]. intros Hf. destruct (D3 Hf) as [D4 ->].
      destruct (L1 Hf) as [[Sv _] _]. fold q in Sv, D4.
      assert (Hle : n <= currentPayloadStart q).
      { clear -Hlen Sv D4 Hv. destruct (rd_video q) as [|f0 fs]; [done|]. apply Forall_cons in Sv as [Sv _], Hv as [Hv _], D4 as [D4 _]. specialize (Hv Sv). lia. }
      assert (Ec : currentPayloadStart (rd_queues r') = currentPayloadStart q - n) by (cbn; fold q; by rewrite (proj2 (Z.leb_le _ _) Hle)).
      rewrite Ec. split; [by apply below_shift|]. change (sourcePayload (rd_buf r')) with d. rewrite Hd, drop_drop. fold q. f_equal. lia.
Qed.

Lemma Reclaim_wp r : inv r → wp ReclaimPayloads r (λ _ r', inv r' ∧ rd_deferred (rd_buf r') = rd_deferred (rd_buf r) ∧
  (0 < len (rd_video (rd_queues r)) → ∀ p, at_rest p r → at_rest p r')) inv.
Proof.
  intros Hi. unfold ReclaimPayloads. wp_step. wp_step; [by wp_step|]. reflect_bools.
  destruct (minQueued_spec r Hi) as (Hm&Hv&Ha). set (m := minQueuedPayloadStart r) in *. wp_step; reflect_bools; [wp_step|wp_step; reflect_bools; [by wp_step|]].
  - assert (E : m = -1) by lia. assert (Hnone : ∀ fs, Forall (λ f, 0 < f_payloadLen f → 0 <= m <= f_payloadStart f) fs →
      Forall (stored (sourcePayload (rd_buf r))) fs → Forall (stored []) fs ∧ (solid fs → fs = [])).
    { intros fs H1 H2. split; [|destruct fs as [|f fs]; [done|]; intros Hs; apply Forall_cons in H1 as [H1 _], Hs as [Hs _]; specialize (H1 Hs); lia].
      rewrite Forall_forall in *. intros f Hf. destruct (H2 f Hf). specialize (H1 f Hf). constructor; try done. left. lia. }
    destruct (iv_queues _ Hi) as [Qv Qa Qp Qs]. destruct (Hnone _ Hv Qv) as [V1 V2], (Hnone _ Ha Qa) as [A1 A2]. split_and!; [|done|].
    + destruct Hi. by constructor.
    + intros Hl p (bs&part&[F1 F2 [L1 L2 L3 L4] F4]&Hu). exists bs, part.
      assert (Hno : full bs → False). { intros Hf. destruct (L1 Hf) as [[Sv _] _]. rewrite (V2 Sv) in Hl. done. }
      split; [constructor; [done|done|by constructor|]|].
      * cbn. unfold len in *. cbn. lia.
      * destruct Hu as [[[H1 H2] H3]|(body&[B1 B2 B3 B4 B5 B6]&Hz)]; [by left; split; [constructor|]|]. right. exists body. split; [|done].
        constructor; try done. intros Et. destruct (B5 Et) as (D1&D2&D3). split_and!; [done..|]. by intros ?%Hno.
  - unfold slice_from. rewrite slice_in_range by lia. cbn [checked lift mbind reading_bind].
    assert (Ep : shift_start m <$> rd_pending (rd_queues r) = rd_pending (rd_queues r)).
    { destruct (rd_pending (rd_queues r)) as [f|] eqn:Ep; [|done]. cbn. by rewrite (shift_bare m f (qo_pending _ _ (iv_queues _ Hi) f Ep)). }
    apply wp_change. cbv zeta. rewrite Ep. set (d := take _ _).
    assert (Ed : d = drop (Z.to_nat m) (sourcePayload (rd_buf r))) by (apply take_ge; rewrite length_drop; unfold len; lia).
    assert (Hr : 0 <= m <= len (sourcePayload (rd_buf r))) by lia.
    split; [by apply (at_rest_shift [] r m d)|]. split; [done|]. intros Hl p. by apply (at_rest_shift p r m d).
Qed.

(** ** Runs of calls *)

(** The calls of the pipeline.  A segment is released only after one was sent
    ([discardReadySegment] of [pipeline_gst.go]). *)
Inductive pipe_call :=
| Pushed (data : bytes)
| Drained
| Released
| Targeted (startNS endNS toleranceNS : Z)
| Offset (offsetNS : Z).

Definition perform (c : pipe_call) : reading () :=
  match c with
  | Pushed data => Push data
  | Drained => _ ← TryProcessDeferred; done ()
  | Released => r ← get; if has_segment (rd_out r) then ReleaseSegment else done ()
  | Targeted s e t => SetTargetSegment s e t
  | Offset ns => change (SetTimelineOffsetNS ns)
  end.

Fixpoint perform_all (cs : list pipe_call) : reading () :=
  match cs with
  | [] => done ()
  | c :: cs => _ ← perform c; perform_all cs
  end.

(** What is pushed are bytes. *)
Definition call_ok (c : pipe_call) : Prop := match c with Pushed data => bytes_ok data | _ => True end.
Definition pushed (c : pipe_call) : bytes := match c with Pushed data => data | _ => [] end.

Lemma inv_time r t : inv r → inv (set_time t r).
Proof. intros []. by constructor. Qed.

Lemma heard_time r t s : heard s r → heard s (set_time t r).
Proof. intros (p&->&Ha). exists p. split; [done|]. by eapply at_rest_same, Ha. Qed.

Lemma perform_wp c r : inv r → call_ok c → wp (perform c) r (λ _ r', inv r' ∧
  ∀ s, len (s ++ pushed c) < two63 → heard s r → heard (s ++ pushed c) r') inv.
Proof.
  intros Hi Hc. destruct c as [d| | |st e t|ns]; cbn [perform pushed] in *.
  - by apply Push_wp.
  - eapply wp_bind; [by apply TryProcessDeferred_wp|]. intros b r' [Hi' Hr]. wp_step. split; [done|].
    intros s. rewrite app_nil_r. intros Hl Hs. by apply Hr.
  - wp_step. wp_step; [|wp_step; split; [done|]; intros s; by rewrite app_nil_r]. eapply wp_mono; [by apply Reclaim_wp| |done].
    intros [] r' (Hi'&Hd&Ha). split; [done|]. intros s _ (p&->&Hp). rewrite app_nil_r. exists p. rewrite Hd. split; [done|].
    apply Ha; [|done]. destruct Hp as (bs&part&[_ _ Hf _]&_). by apply (fl_sent _ _ Hf).
  - unfold SetTargetSegment. repeat wp_step; (split; [try apply inv_time; done|]); intros s; rewrite app_nil_r; intros _ Hs; [done|by apply heard_time].
  - wp_step. split; [by apply inv_time|]. intros s. rewrite app_nil_r. intros _ Hs. by apply heard_time.
Qed.

Lemma perform_all_wp cs r : inv r → Forall call_ok cs → wp (perform_all cs) r (λ _ r', inv r' ∧
  ∀ s, len (s ++ concat (pushed <$> cs)) < two63 → heard s r → heard (s ++ concat (pushed <$> cs)) r') inv.
Proof.
  intros Hi Hc. revert r Hi. induction Hc as [|c cs Hc _ IH]; intros r Hi; cbn [perform_all].
  - wp_step. split; [done|]. intros s. by rewrite app_nil_r.
  - eapply wp_bind; [by apply perform_wp|]. intros [] r1 [Hi1 H1]. eapply wp_mono; [by apply IH| |done]. intros [] r' [Hi' H2].
    split; [done|]. intros s. rewrite fmap_cons. cbn [concat]. rewrite app_assoc. intros Hl Hs. apply H2; [done|]. apply H1; [|done].
    rewrite len_app in Hl. pose proof (len_nonneg (concat (pushed <$> cs))). lia.
Qed.

Lemma heard_fresh seconds diff cue : inv (Mp4BoxReader seconds diff cue) ∧ heard [] (Mp4BoxReader seconds diff cue).
Proof.
  assert (Hn : bytes_ok []) by apply Forall_nil_2. split.
  - constructor; try done; constructor; cbn; try done; try (by left); try exact track_nothing; try exact u32_0; by apply Forall_nil_2.
  - exists []. split; [done|]. exists [], []. split; [|by left; split; [constructor|]]. constructor; [done|by apply Forall_nil_2| |done].
    constructor; try done. intros _. split; [split; by apply Forall_nil_2|]. exists [], []. split_and!; [constructor|done|done].
Qed.

(** ** The end of the stream, and seeking *)

Lemma len_zero {A} (l : list A) : len l = 0 → l = [].
Proof. destruct l; [done|]. rewrite len_cons. pose proof (len_nonneg l). lia. Qed.

(** At the end, all of the picture was sent, and a part of the sound. *)
Definition finishes (r r' : mp4BoxReader) : Prop :=
  ∀ V A, balance r V A → ∃ a rest, carries (rd_out r') V a ∧ a ++ rest = A.

Lemma Remainder_wp r : inv r → wp TryBuildEndOfStreamRemainder r (λ b r', inv r' ∧
  (b = true → 0 < len (rd_video (rd_queues r)) → len (sourcePayload (rd_buf r)) < two63 → finishes r r')) inv.
Proof.
  intros Hi. unfold TryBuildEndOfStreamRemainder. wp_step. do 3 (wp_step; [by wp_step|]).
  eapply (wp_bind _ _ _ (λ n r1, keeps r r1 ∧ rd_video (rd_queues r1) = rd_video (rd_queues r))).
  { wp_step; [|wp_step; split; [by apply keeps_refl|done]]. apply andb_true_iff in Heqb2 as [Hv _]. reflect_bools.
    eapply wp_lift_bind; [apply ends_last; intros E; by rewrite E in Hv|exact Hi|]. intros last _.
    eapply wp_bind; [by apply selectAudio_wp|]. intros n r1 (Hk&Ev&_&_). by wp_step. }
  intros n r1 [Hk Ev]. eapply wp_bind; [apply buildSegment_wp, Hk|]. intros [] r2 (Hi2&Hq&Hl&_&_&_&Hb). wp_step. wp_step.
  set (r3 := if _ : bool then set_audio [] r2 else r2).
  assert (Hi3 : inv r3) by (unfold r3; split_if; [|done]; destruct Hi2 as [? ? ? ? [] ?]; by constructor).
  split; [done|]. intros _ Hv Hst V A HB. destruct Hk as (_&Hq1&_&_&HB1). apply HB1, Hb in HB; [|by rewrite (qt_payload _ _ Hq1)|done].
  destruct HB as (v&a&Hc&<-&<-). exists a, (media (sourcePayload (rd_buf r2)) (rd_audio (rd_queues r2))). split; [|done].
  rewrite Ev in Hl. rewrite (len_zero (rd_video (rd_queues r2))) by lia. replace (rd_out r3) with (rd_out r2) by (unfold r3; by split_if).
  change (media _ []) with (@nil Z). by rewrite app_nil_r.
Qed.

(** What a player may make the pipeline do with its reader; errors are reported and the
    reader is used on. *)
Inductive request := Called (c : pipe_call) | Sought (seconds : float64) | Ended.

Definition respond (q : request) : reading () :=
  match q with
  | Called c => perform c
  | Sought seconds => change (SeekReset seconds)
  | Ended => _ ← TryBuildEndOfStreamRemainder; done ()
  end.
Definition request_ok (q : request) : Prop := match q with Called c => call_ok c | _ => True end.

Fixpoint outlives (qs : list request) (r : mp4BoxReader) : bool :=
  match qs with
  | [] => true
  | q :: qs => match respond q r with Returned r _ | Failed r _ => outlives qs r | Crashed => false end
  end.

Lemma inv_seek seconds r : inv r → inv (SeekReset seconds r).
Proof.
  intros _. assert (Hn : bytes_ok []) by apply Forall_nil_2.
  constructor; try done; constructor; cbn; try done; try (by left); try exact track_nothing; try exact u32_0; by apply Forall_nil_2.
Qed.

Lemma respond_wp q r : inv r → request_ok q → wp (respond q) r (λ _ r', inv r') inv.
Proof.
  intros Hi Hq. destruct q as [c|s|]; cbn [respond].
  - eapply wp_mono; [by apply perform_wp|by intros ?? [? _]|done].
  - wp_step. by apply inv_seek.
  - eapply wp_bind; [by apply Remainder_wp|]. intros b r' [? _]. by wp_step.
Qed.

Lemma outlives_inv qs r : inv r → Forall request_ok qs → outlives qs r = true.
Proof.
  intros Hi Hq. revert r Hi. induction Hq as [|q qs Hq _ IH]; intros r Hi; cbn [outlives]; [done|].
  pose proof (respond_wp q r Hi Hq) as Hw. unfold wp in Hw. by destruct (respond q r); try apply IH.
Qed.
