(* ===== verification/FragRound.v ===== *)
(** * Fragments of a stream: what is written is read back

    The [traf] the reader writes for the fragments of a segment is one its own parser
    reads back as the same samples at the same time. *)

From Stdlib Require Import SpecFloat.
From S2P Require Import Prelude GoText Encoding GoFloat Segment FragBox FragTrack FragSafe FragQueue.
#[local] Open Scope Z_scope.

(** ** Numbers at a place *)

Lemma len_put4 v : len (PutUint32 v) = 4.
Proof. done. Qed.

Lemma len_put8 v : len (PutUint64 v) = 8.
Proof. done. Qed.

Lemma at_self enc : at_ enc 0 enc.
Proof. exists [], []. by rewrite app_nil_r. Qed.

Lemma at_place data off enc : at_ data off enc → slice data off (off + len enc) = Some enc.
Proof.
  intros H. pose proof (at_bounds _ _ _ H). pose proof (len_nonneg enc). rewrite slice_in_range by lia. f_equal.
  apply at_take; [done|]. unfold len. lia.
Qed.

Lemma Uint32_at data off v : at_ data off (PutUint32 v) → Uint32 data off = Ok (v mod 4294967296).
Proof. intros H. apply at_place in H. rewrite len_put4 in H. unfold Uint32. rewrite H. cbn [checked mbind go_bind]. f_equal. apply (be_be_bytes 4). Qed.

Lemma Uint32_put data off v : at_ data off (PutUint32 v) → is_u32 v → Uint32 data off = Ok v.
Proof. intros H Hv. rewrite (Uint32_at _ _ _ H). f_equal. by apply Z.mod_small. Qed.

Lemma Uint64_put data off v : at_ data off (PutUint64 v) → is_u64 v → Uint64 data off = Ok v.
Proof.
  intros H Hv. apply at_place in H. rewrite len_put8 in H. unfold Uint64. rewrite H. cbn [checked mbind go_bind]. f_equal.
  unfold PutUint64. rewrite (be_be_bytes 8). by apply Z.mod_small.
Qed.

Lemma read_field_at data off v e : at_ data off (PutUint32 v) → is_u32 v → read_field true data off e = Ok (Some v, off + 4).
Proof.
  intros H Hv. pose proof (at_bounds _ _ _ H) as Hb. rewrite len_put4 in Hb. unfold read_field, readUint32.
  replace ((off <? 0) || (len data - off <? 4)) with false by (symmetry; apply orb_false_iff; lia).
  by rewrite (Uint32_put _ _ _ H Hv).
Qed.

(** ** Boxes *)

Definition mkbox (t : Z) (body : bytes) : bytes := PutUint32 (8 + len body) ++ PutUint32 t ++ body.

Lemma len_mkbox t body : len (mkbox t body) = 8 + len body.
Proof. unfold mkbox. rewrite !len_app, !len_put4. lia. Qed.

Lemma mkbox_at data off t body : at_ data off (mkbox t body) →
  at_ data off (PutUint32 (8 + len body)) ∧ at_ data (off + 4) (PutUint32 t) ∧ at_ data (off + 8) body.
Proof.
  unfold mkbox. intros H. apply at_app in H as [H1 H]. apply at_app in H as [H2 H3]. rewrite !len_put4 in *.
  by replace (off + 4 + 4) with (off + 8) in H3 by lia.
Qed.

(** A type and a body that make a box the parser takes. *)
Definition boxable (x : Z * bytes) : Prop := is_u32 x.1 ∧ 8 + len x.2 <= MaxInt32.
Definition boxes (xs : list (Z * bytes)) : bytes := concat ((λ x, mkbox x.1 x.2) <$> xs).

Lemma tryReadBox_at data off t body : at_ data off (mkbox t body) → boxable (t, body) → len data < two64 →
  tryReadBox data off = Ok (Some (mkBox t 8 (mkbox t body) (off + len (mkbox t body)))).
Proof.
  intros H [Ht Hl] Hd. cbn [fst snd] in Ht, Hl. pose proof (at_bounds _ _ _ H) as Hb. destruct (mkbox_at _ _ _ _ H) as (H1&H2&_).
  pose proof (len_nonneg body). rewrite len_mkbox in Hb. unfold MaxInt32 in *. unfold tryReadBox.
  rewrite (Uint32_put _ _ _ H1), (Uint32_put _ _ _ H2) by (unfold is_u32 in *; lia). cbn [mbind go_bind].
  replace ((off <? 0) || (len data <? off) || (len data - off <? 8)) with false by (symmetry; rewrite !orb_false_iff; lia).
  replace (8 + len body =? 1) with false by lia. replace (8 + len body =? 0) with false by lia. unfold cut_box.
  rewrite u64_id by (unfold in_u64; lia).
  replace (_ || _) with false by (symmetry; rewrite !orb_false_iff; unfold MaxInt32; lia).
  rewrite <- (len_mkbox t), (at_place _ _ _ H). done.
Qed.

Definition boxed (b : box) (x : Z * bytes) : Prop := b_type b = x.1 ∧ b_header b = 8 ∧ b_data b = mkbox x.1 x.2.

Lemma boxes_loop_read fuel data off xs : at_ data off (boxes xs) → off + len (boxes xs) = len data → (length xs < fuel)%nat →
  Forall boxable xs → len data < two64 → ∃ bs, boxes_loop fuel data off = Ok bs ∧ Forall2 boxed bs xs.
Proof.
  revert off xs. induction fuel as [|fuel IH]; intros off xs H Hend Hf Hx Hd; [lia|]. cbn [boxes_loop].
  destruct Hx as [|[t body] xs Hb Hx].
  - assert (E : tryReadBox data off = Ok None).
    { unfold tryReadBox. replace (_ || _) with true; [done|]. symmetry. rewrite !orb_true_iff. unfold len in Hend at 1. cbn in Hend. lia. }
    rewrite E. exists []. by split; [|constructor].
  - unfold boxes in H, Hend. rewrite fmap_cons in H, Hend. cbn [concat fst snd] in H, Hend. apply at_app in H as [H1 H2].
    rewrite (tryReadBox_at _ _ _ _ H1 Hb Hd). cbn [mbind go_bind b_next]. rewrite len_app in Hend.
    destruct (IH (off + len (mkbox t body)) xs) as (bs&->&Hbs); [done|unfold boxes; lia|cbn in Hf; lia|done|done|].
    cbn [mbind go_bind]. eexists. split; [done|]. by constructor.
Qed.

Lemma len_boxes xs : Z.of_nat (length xs) <= len (boxes xs).
Proof.
  induction xs as [|[t body] xs IH]; [done|]. unfold boxes in *. rewrite fmap_cons. cbn [concat length fst snd]. rewrite len_app, len_mkbox.
  pose proof (len_nonneg body). lia.
Qed.

(** The boxes inside a box are read as they were written. *)
Lemma boxes_in_read t xs : Forall boxable xs → len (boxes xs) <= MaxUint32 →
  ∃ bs, boxes_in (mkbox t (boxes xs)) 8 = Ok bs ∧ Forall2 boxed bs xs.
Proof.
  intros Hx Hl. destruct (mkbox_at _ _ _ _ (at_self (mkbox t (boxes xs)))) as (_&_&H). pose proof (len_boxes xs) as Hn.
  pose proof (len_mkbox t (boxes xs)) as El. apply boxes_loop_read; [exact H|lia|unfold len in *; lia|done|unfold MaxUint32, two64 in *; lia].
Qed.

(** ** The header and the time of a fragment *)

Definition tfhd_body (id index : Z) : bytes := PutUint32 0x020002 ++ PutUint32 id ++ PutUint32 index.
Definition tfdt_body (time : Z) : bytes := PutUint32 0x01000000 ++ PutUint64 time.

Lemma tfhd_box id index : buildCanonicalTfhd id index = mkbox boxTfhd (tfhd_body id index).
Proof. done. Qed.

Lemma tfdt_box time : writeTfdt time = mkbox boxTfdt (tfdt_body time).
Proof. unfold writeTfdt, writeHeader, mkbox. by rewrite <- app_assoc. Qed.

(** The fields of a body, one after the other. *)
Lemma body_at t body : at_ (mkbox t body) 8 body.
Proof. destruct (mkbox_at _ _ _ _ (at_self (mkbox t body))) as (_&_&H). exact H. Qed.

Ltac fields H := repeat
  lazymatch type of H with
  | at_ _ _ (PutUint32 _ ++ _) =>
      let H1 := fresh "F" in apply at_app in H as [H1 H]; rewrite len_put4 in H; rewrite <- ?Z.add_assoc in H; cbn [Z.add Pos.add Pos.succ Pos.add_carry] in H
  end.

Lemma parseTfhd_read id index : is_u32 id → is_u32 index → id ≠ 0 → index ≠ 0 →
  parseTfhd (mkbox boxTfhd (tfhd_body id index)) 8 = Ok (mkTfhd id (Some index) 0 0 None).
Proof.
  intros Hid Hix H0 H1. pose proof (body_at boxTfhd (tfhd_body id index)) as H. set (data := mkbox _ _) in *.
  assert (Hl : len data = 20) by done. clearbody data. unfold tfhd_body in H. fields H. unfold parseTfhd. rewrite Hl.
  change (20 <? 8 + 8) with false. cbv iota. rewrite (Uint32_put _ _ _ F) by done. cbn [mbind go_bind].
  change (u8 (Z.shiftr 0x020002 24) =? 0) with true. change (Z.land 0x020002 0x00ffffff) with 0x020002.
  change (Z.ldiff 0x020002 knownTfhdFlags =? 0) with true. cbn [demand mbind go_bind].
  change (has_flag 0x020002 tfhdBaseDataOffsetPresent) with false. change (has_flag 0x020002 tfhdDurationIsEmpty) with false. cbn [negb demand mbind go_bind].
  rewrite (Uint32_put _ _ _ F0 Hid). cbn [mbind go_bind]. rewrite (proj2 (Z.eqb_neq _ _) H0). cbn [negb demand mbind go_bind].
  change (has_flag 0x020002 tfhdSampleDescriptionIndexPresent) with true. change (8 + 8) with 16. rewrite (read_field_at _ _ _ _ H Hix). cbn [mbind go_bind].
  rewrite bool_decide_eq_false_2 by congruence. cbn [negb demand mbind go_bind].
  change (has_flag 0x020002 tfhdDefaultSampleDurationPresent) with false. change (has_flag 0x020002 tfhdDefaultSampleSizePresent) with false.
  change (has_flag 0x020002 tfhdDefaultSampleFlagsPresent) with false. cbn [read_field mbind go_bind]. done.
Qed.

Lemma readTfdt_read time : is_u64 time → readTfdt (mkbox boxTfdt (tfdt_body time)) 8 = Ok (Some time).
Proof.
  intros Ht. pose proof (body_at boxTfdt (tfdt_body time)) as H. set (data := mkbox _ _) in *.
  assert (Hl : len data = 20) by done. assert (Hv : idx data 8 = Some 1) by done. clearbody data. unfold tfdt_body in H. fields H.
  unfold readTfdt. rewrite Hl, Hv. cbn [checked mbind go_bind]. change (20 <? 8 + 8) with false. change (1 =? 1) with true. change (20 <? 8 + 4 + 8) with false.
  cbv iota zeta. by rewrite (Uint64_put _ _ _ H Ht).
Qed.

(** ** Samples *)

(** A run without composition offsets has none in its samples. *)
Definition plain (composition : bool) (s : mp4Sample) : Prop := composition = false → sm_compositionTimeOffsetRaw s = 0.
Definition all_fields (composition : bool) (l : trun_layout) : Prop :=
  l_duration l = true ∧ l_size l = true ∧ l_flags l = true ∧ l_composition l = composition.

Lemma samples_read c l data samples : all_fields c l → Forall sample_ok samples → Forall (plain c) samples → ∀ first off d z,
  at_ data off (concat (write_sample c <$> samples)) → 0 <= d → 0 <= z → d + total sm_duration samples <= MaxUint64 → z + total sm_size samples <= MaxUint64 →
  samples_loop (length samples) first data l off d z =
    Ok (samples, off + len samples * (if c then 16 else 12), d + total sm_duration samples, z + total sm_size samples).
Proof.
  intros (L1&L2&L3&L4) Ho Hp. induction Ho as [|s samples Hs Ho IH]; intros first off d z H Hd Hz Hdm Hzm.
  { cbn. unfold len. cbn. do 2 f_equal; [do 2 f_equal|]; lia. }
  apply Forall_cons in Hp as [Hc Hp]. rewrite fmap_cons in H. cbn [concat] in H. rewrite !(total_cons sm_duration) in *. rewrite !(total_cons sm_size) in *. cbn [length samples_loop].
  apply at_app in H as [H1 H]. pose proof (sample_u32 _ Ho). destruct Hs as [S1 S2 S3 S4].
  assert (El : len (write_sample c s) = if c then 16 else 12) by (by destruct c). unfold write_sample in H1.
  apply at_app in H1 as [F1 H1]. apply at_app in H1 as [F2 H1]. apply at_app in H1 as [F3 F4]. rewrite !len_put4 in *.
  rewrite L1, (read_field_at _ _ _ _ F1 S1). cbn [mbind go_bind]. rewrite L2, (read_field_at _ _ _ _ F2 S2). cbn [mbind go_bind].
  rewrite L3, (read_field_at _ _ _ _ F3 S3). cbn [mbind go_bind]. rewrite L4.
  assert (E4 : read_field c data (off + 4 + 4 + 4) "invalid trun composition_time_offset" =
    Ok (if c then Some (sm_compositionTimeOffsetRaw s) else None, off + len (write_sample c s))).
  { rewrite El. destruct c; [rewrite (read_field_at _ _ _ _ F4 S4)|]; cbn; do 2 f_equal; lia. }
  rewrite E4. cbn [mbind go_bind]. cbn [from_option id].
  assert (Es : mkSample (sm_duration s) (sm_size s) (flags_of l first (Some (sm_flags s))) (default 0 (if c then Some (sm_compositionTimeOffsetRaw s) else None)) = s).
  { destruct s; cbn. f_equal. destruct c; [done|]. symmetry. by apply Hc. }
  rewrite Es. unfold is_u32 in *. replace (MaxUint64 - d <? sm_duration s) with false by lia. replace (MaxUint64 - z <? sm_size s) with false by lia.
  cbn [negb demand mbind go_bind]. rewrite IH by (done || lia). cbn [mbind go_bind]. rewrite El, len_cons. apply f_equal. repeat apply (f_equal2 pair); try done; destruct c; lia.
Qed.

(** ** Runs *)

(** A run that can be written and read: it takes time and bytes, and its samples have no
    composition offset it does not state. *)
Record writable (run : mp4Run) : Prop := {
  wb_wf : wf_run run;
  wb_plain : Forall (plain (ru_hasCompositionTimeOffsets run)) (ru_samples run);
  wb_duration : 0 < ru_duration run;
  wb_size : 0 < ru_dataSize run;
}.

Definition trun_body (run : mp4Run) (dataOffset : Z) : bytes :=
  PutUint32 (Z.lor (Z.shiftl (ru_version run) 24) (canonical_flags (ru_hasCompositionTimeOffsets run))) ++
  PutUint32 (len (ru_samples run)) ++ PutUint32 dataOffset ++
  concat (write_sample (ru_hasCompositionTimeOffsets run) <$> ru_samples run).

(** The run as it is read back. *)
Definition read_back (base : Z) (run : mp4Run) : mp4Run :=
  mkRun (Some (base + ru_outputOffset run)) (ru_samples run) (ru_version run) (ru_hasCompositionTimeOffsets run)
    (ru_duration run) (ru_dataSize run) 0 0
    (match ru_samples run with s :: _ => isSyncSample (sm_flags s) | [] => isSyncSample 0 end) false.

Lemma len_samples c samples : len (concat (write_sample c <$> samples)) = len samples * (if c then 16 else 12).
Proof.
  induction samples as [|s samples IH]; [by destruct c|]. rewrite fmap_cons. cbn [concat]. rewrite len_app, IH, len_cons.
  replace (len (write_sample c s)) with (if c then 16 else 12) by (by destruct c). destruct c; lia.
Qed.

Lemma len_trun run o : 8 + len (trun_body run o) = canonicalTrunSize run.
Proof.
  unfold trun_body, canonicalTrunSize, entry_size. rewrite !len_app, !len_put4, len_samples. destruct (ru_hasCompositionTimeOffsets run); lia.
Qed.

Lemma writeTrun_box run o b : writeCanonicalTrun run o = Ok b → b = mkbox boxTrun (trun_body run o).
Proof.
  unfold writeCanonicalTrun. intros H. repeat apply demand_Ok in H as [_ H]. apply Ok_inj in H as <-. unfold mkbox. by rewrite len_trun.
Qed.

(** The version and the flags of a written run. *)
Record head_flags (c : bool) (version vf : Z) : Prop := {
  hf_u32 : is_u32 vf;
  hf_version : u8 (Z.shiftr vf 24) = version;
  hf_flags : Z.land vf 0x00ffffff = canonical_flags c;
}.

Lemma trun_head c version : 0 <= version <= 1 → head_flags c version (Z.lor (Z.shiftl version 24) (canonical_flags c)).
Proof. intros Hv. assert (version = 0 ∨ version = 1) as [-> | ->] by lia; destruct c; by constructor. Qed.

Lemma i32_put v : - 2147483648 <= v <= MaxInt32 → i32 (v mod 4294967296) = v.
Proof.
  unfold MaxInt32, i32. intros Hv. rewrite Z.add_mod_idemp_l by done. rewrite Z.mod_small by lia. lia.
Qed.

Lemma Uint32_field data off v e : at_ data off (PutUint32 v) → read_field true data off e = Ok (Some (v mod 4294967296), off + 4).
Proof.
  intros H. pose proof (at_bounds _ _ _ H) as Hb. rewrite len_put4 in Hb. unfold read_field, readUint32.
  replace ((off <? 0) || (len data - off <? 4)) with false by (symmetry; apply orb_false_iff; lia).
  by rewrite (Uint32_at _ _ _ H).
Qed.

Lemma normalizeTrun_read base run d s fl hint : writable run → - 2147483648 <= base + ru_outputOffset run <= MaxInt32 →
  normalizeTrun (mkbox boxTrun (trun_body run (base + ru_outputOffset run))) 8 d s fl hint = Ok (read_back base run).
Proof.
  intros [[W1 W2 W3 W4 W5] Wp Wd Wz] Ho. set (c := ru_hasCompositionTimeOffsets run) in *.
  pose proof (body_at boxTrun (trun_body run (base + ru_outputOffset run))) as H. set (data := mkbox _ _) in *.
  assert (Hl : len data = 20 + len (ru_samples run) * (if c then 16 else 12)).
  { unfold data. rewrite len_mkbox, len_trun. done. }
  clearbody data. unfold trun_body in H. fold c in H. set (vf := Z.lor _ _) in H.
  destruct (trun_head c (ru_version run) W5) as [V1 V2 V3]. fold vf in V1, V2, V3. clearbody vf. fields H.
  assert (Hn : (len data <? 16) = false) by (destruct c; lia).
  unfold normalizeTrun. change (8 + 8) with 16. rewrite Hn, (Uint32_put _ _ _ F V1). cbn [mbind go_bind]. rewrite V2, V3.
  replace (ru_version run <=? 1) with true by lia. cbn [demand mbind go_bind].
  unfold maxTrunSamples in W1. rewrite (Uint32_put _ _ _ F0) by (unfold is_u32; lia).
  assert (Hfl : Z.ldiff (canonical_flags c) knownTrunFlags = 0 ∧ has_flag (canonical_flags c) trunDataOffsetPresent = true ∧
    has_flag (canonical_flags c) trunFirstSampleFlagsPresent = false ∧ has_flag (canonical_flags c) trunSampleFlagsPresent = true ∧
    has_flag (canonical_flags c) trunSampleDurationPresent = true ∧ has_flag (canonical_flags c) trunSampleSizePresent = true ∧
    has_flag (canonical_flags c) trunCompositionTimeOffsetPresent = c) by (by destruct c).
  destruct Hfl as (->&->&->&->&->&->&->). cbn [demand negb andb mbind go_bind]. replace (len (ru_samples run) =? 0) with false by lia.
  cbn [demand negb mbind go_bind]. rewrite (Uint32_field _ _ _ _ F1). cbn [mbind go_bind read_field demand negb andb].
  unfold maxTrunSamples. replace (len (ru_samples run) <=? 1000000) with true by lia. cbn [mbind go_bind demand].
  replace (_ =? len data) with true by (symmetry; rewrite Hl; destruct c; cbn; lia). cbn [mbind go_bind demand].
  replace (Z.to_nat (len (ru_samples run))) with (length (ru_samples run)) by (unfold len; lia).
  pose proof (sample_u32 _ W2) as Hb. rewrite (samples_read c) by (try done; unfold MaxUint64, two64; lia). cbn [mbind go_bind].
  replace (negb _ || _ || _) with false by (symmetry; rewrite Hl; destruct c; cbn; lia). cbn [negb mbind go_bind demand].
  unfold read_back. fold c. cbn [fmap option_fmap option_map]. rewrite i32_put by done. rewrite W3, W4. done.
Qed.

(** ** The fragment of one track *)

Definition trun_box (base : Z) (run : mp4Run) : Z * bytes := (boxTrun, trun_body run (base + ru_outputOffset run)).
Definition traf_boxes (id index time base : Z) (runs : list mp4Run) : list (Z * bytes) :=
  (boxTfhd, tfhd_body id index) :: (boxTfdt, tfdt_body time) :: (trun_box base <$> runs).

Lemma boxes_cons x xs : boxes (x :: xs) = mkbox x.1 x.2 ++ boxes xs.
Proof. done. Qed.

Lemma write_runs_boxes runs m h b : write_runs runs m h = Ok b →
  b = boxes (trun_box (m + h) <$> runs) ∧ Forall (λ run, - 2147483648 <= m + h + ru_outputOffset run <= MaxInt32) runs.
Proof.
  revert b. induction runs as [|run runs IH]; intros b H; cbn [write_runs] in H; [injection H as <-; by split; [|constructor]|].
  apply demand_Ok in H as [Hr H]. destruct (writeCanonicalTrun _ _) as [b1| |] eqn:E1; [|done..]. cbn [mbind go_bind] in H.
  destruct (write_runs runs m h) as [b2| |] eqn:E2; [|done..]. apply Ok_inj in H as <-. destruct (IH b2 eq_refl) as [-> Hf].
  apply writeTrun_box in E1 as ->. rewrite fmap_cons, boxes_cons. split; [done|]. constructor; [|done].
  apply negb_true_iff, orb_false_iff in Hr as [H1 H2]. lia.
Qed.

Lemma len_trun_boxes base runs : len (boxes (trun_box base <$> runs)) = runs_size runs.
Proof.
  induction runs as [|run runs IH]; [done|]. rewrite fmap_cons, boxes_cons, len_app, IH, len_mkbox. cbn [fst snd trun_box runs_size foldr].
  by rewrite len_trun.
Qed.

Lemma runs_size_app a b : runs_size (a ++ b) = runs_size a + runs_size b.
Proof. induction a as [|run a IH]; [done|]. unfold runs_size in *. cbn. rewrite IH. lia. Qed.

Lemma sizes_concat fs : foldr (λ f size, runs_size (f_runs f) + size) 0 fs = runs_size (concat (f_runs <$> fs)).
Proof. induction fs as [|f fs IH]; [done|]. rewrite fmap_cons. cbn [foldr concat]. by rewrite runs_size_app, IH. Qed.

(** What is written is a box of boxes. *)
Lemma writeTraf_boxes o f fs m h time b : wf_fragment f → addTfdtOffset (f_decodeTime f) (f_timescale f) o = Ok time →
  writeTraf o (f :: fs) m h = Ok b → let runs := concat (f_runs <$> f :: fs) in
  b = mkbox boxTraf (boxes (traf_boxes (f_trackID f) (f_sampleDescriptionIndex f) time (m + h) runs)) ∧ len b <= MaxUint32 ∧
  Forall (λ run, - 2147483648 <= m + h + ru_outputOffset run <= MaxInt32) runs.
Proof.
  intros Hw Ht H runs. unfold writeTraf in H. apply demand_Ok in H as [Hsz H]. rewrite Ht in H. cbn [mbind go_bind] in H.
  fold runs in H. destruct (write_runs runs m h) as [rb| |] eqn:Er; [|done..]. apply Ok_inj in H as <-. apply write_runs_boxes in Er as [-> Hf].
  assert (Es : getTrafSize (f :: fs) = 8 + len (boxes (traf_boxes (f_trackID f) (f_sampleDescriptionIndex f) time (m + h) runs))).
  { unfold getTrafSize. rewrite sizes_concat. fold runs. rewrite (wf_tfhd _ Hw). unfold traf_boxes. rewrite !boxes_cons, !len_app, len_trun_boxes.
    change (len (mkbox _ (snd (boxTfhd, _)))) with 20. change (len (mkbox _ (snd (boxTfdt, _)))) with 20. change (len (buildCanonicalTfhd _ _)) with 20. lia. }
  assert (Eb : writeHeader (getTrafSize (f :: fs)) boxTraf ++ f_tfhd f ++ writeTfdt time ++ boxes (trun_box (m + h) <$> runs) =
    mkbox boxTraf (boxes (traf_boxes (f_trackID f) (f_sampleDescriptionIndex f) time (m + h) runs))).
  { rewrite Es, (wf_tfhd _ Hw), tfhd_box, tfdt_box. unfold writeHeader. rewrite <- app_assoc. done. }
  rewrite Eb. split_and!; [done| |done]. rewrite len_mkbox. lia.
Qed.

Lemma boxed_truns bs base runs : Forall2 boxed bs (trun_box base <$> runs) →
  (∀ t d, traf_heads bs t d = Ok (t, d)) ∧ Forall2 (λ b run, b_type b = boxTrun ∧ b_header b = 8 ∧ b_data b = mkbox boxTrun (trun_body run (base + ru_outputOffset run))) bs runs.
Proof.
  revert bs. induction runs as [|run runs IH]; intros bs H; inversion H as [|b ? bs' ? Hb Hbs]; subst; [by split; [|constructor]|].
  destruct Hb as (E1&E2&E3). destruct (IH bs' Hbs) as [H1 H2]. split; [|by constructor]. intros t d. cbn [traf_heads]. rewrite E1. exact (H1 t d).
Qed.

Lemma traf_runs_read bs base runs d s fl hint z :
  Forall2 (λ b run, b_type b = boxTrun ∧ b_header b = 8 ∧ b_data b = mkbox boxTrun (trun_body run (base + ru_outputOffset run))) bs runs →
  Forall writable runs → Forall (λ run, - 2147483648 <= base + ru_outputOffset run <= MaxInt32) runs → 0 <= z → z + tot sm_duration runs <= MaxUint64 →
  traf_runs bs d s fl hint z = Ok (read_back base <$> runs, z + tot sm_duration runs).
Proof.
  intros H. revert z. induction H as [|b run bs runs (E1&E2&E3) _ IH]; intros z Hw Ho Hz Hm; cbn [traf_runs].
  { change (tot sm_duration []) with 0. by rewrite Z.add_0_r. }
  apply Forall_cons in Hw as [Hw Hws], Ho as [Ho Hos]. rewrite tot_cons in *. rewrite E1. change (negb (boxTrun =? boxTrun)) with false. cbv iota.
  rewrite E2, E3, normalizeTrun_read by done. cbn [mbind go_bind ru_duration read_back].
  pose proof (wr_duration _ (wb_wf _ Hw)) as Ed. assert (0 <= tot sm_duration runs).
  { apply tot_bounds. eapply Forall_impl; [exact Hws|]. by intros ? []. }
  replace (MaxUint64 - z <? ru_duration run) with false by lia. cbn [negb demand mbind go_bind].
  pose proof (wb_duration _ Hw). rewrite IH by (done || lia). cbn [mbind go_bind]. rewrite fmap_cons, Ed, Z.add_assoc. done.
Qed.

Lemma parseTraf_read base time f runs video audio vh ah : let track := if f_trackID f =? tr_id video then video else audio in
  wf_fragment f → is_u64 time → f_trackID f ≠ 0 → f_sampleDescriptionIndex f ≠ 0 →
  f_trackID f = tr_id track → tr_timescale track ≠ 0 → runs ≠ [] → Forall writable runs → tot sm_duration runs <= MaxUint64 →
  Forall (λ run, - 2147483648 <= base + ru_outputOffset run <= MaxInt32) runs →
  len (boxes (traf_boxes (f_trackID f) (f_sampleDescriptionIndex f) time base runs)) <= MaxUint32 →
  ∃ g, parseTraf (mkbox boxTraf (boxes (traf_boxes (f_trackID f) (f_sampleDescriptionIndex f) time base runs))) 8 video audio vh ah = Ok g ∧
    f_trackID g = f_trackID f ∧ f_decodeTime g = time ∧ f_sampleDescriptionIndex g = f_sampleDescriptionIndex f ∧
    f_runs g = read_back base <$> runs ∧ f_duration g = tot sm_duration runs ∧ f_hasInferredDuration g = false.
Proof.
  intros track Hw Ht Hid Hix Htr Hts Hne Hruns Htot Hoff Hlen. destruct Hw as [_ _ _ _ W5 _ W7 _].
  assert (Hbox : Forall boxable (traf_boxes (f_trackID f) (f_sampleDescriptionIndex f) time base runs)).
  { repeat constructor; try done. apply Forall_fmap. eapply Forall_impl; [exact Hruns|]. intros run [[[R1 R2] _ _ _ _] _ _ _]. split; [done|]. unfold trun_box.
    cbn [fst snd]. rewrite len_trun. unfold canonicalTrunSize, entry_size, MaxInt32, maxTrunSamples in *. split_if; lia. }
  destruct (boxes_in_read boxTraf _ Hbox Hlen) as (bs&Ebs&Hbs). unfold parseTraf. rewrite Ebs. cbn [mbind go_bind].
  inversion Hbs as [|b1 ? bs1 ? (B1&B2&B3) Hbs1]; subst. inversion Hbs1 as [|b2 ? bs2 ? (C1&C2&C3) Hbs2]; subst.
  destruct (boxed_truns bs2 base runs Hbs2) as [Hheads Htruns]. cbn [fst snd] in *.
  assert (Eh : traf_heads (b1 :: b2 :: bs2) None None = Ok (Some (mkTfhd (f_trackID f) (Some (f_sampleDescriptionIndex f)) 0 0 None), Some time)).
  { cbn [traf_heads]. rewrite B1, B2, B3, parseTfhd_read by done. change (boxTfhd =? boxTfhd) with true. cbn [mbind go_bind].
    rewrite C1, C2, C3, readTfdt_read by done. change (boxTfdt =? boxTfhd) with false. change (boxTfdt =? boxTfdt) with true. cbn [mbind go_bind]. apply Hheads. }
  rewrite Eh. cbn [mbind go_bind h_trackID h_sampleDescriptionIndex h_defaultDuration h_defaultSize h_defaultFlags].
  set (hint := if f_trackID f =? tr_id video then vh else ah).
  assert (Esel : (if f_trackID f =? tr_id video then Ok (video, vh)
      else if negb (tr_id audio =? 0) && (f_trackID f =? tr_id audio) then Ok (audio, ah) else Err "unsupported track_ID") = Ok (track, hint)).
  { unfold track, hint in *. destruct (f_trackID f =? tr_id video) eqn:E; [done|]. rewrite <- Htr, Z.eqb_refl, (proj2 (Z.eqb_neq _ _) Hid). done. }
  rewrite Esel. cbn [mbind go_bind]. rewrite (proj2 (Z.eqb_neq _ _) Hts). cbn [negb demand mbind go_bind from_option id].
  rewrite (proj2 (Z.eqb_neq _ _) Hix). cbn [negb demand mbind go_bind].
  assert (Er : ∀ d s fl hi, traf_runs (b1 :: b2 :: bs2) d s fl hi 0 = Ok (read_back base <$> runs, tot sm_duration runs)).
  { intros d s fl hi. cbn [traf_runs]. rewrite B1, C1. change (boxTfhd =? boxTrun) with false. change (boxTfdt =? boxTrun) with false. cbn [negb].
    rewrite (traf_runs_read _ base runs) by (done || lia). done. }
  rewrite Er. cbn [mbind go_bind]. destruct runs as [|run runs]; [done|]. rewrite fmap_cons.
  assert (0 < tot sm_duration (run :: runs)).
  { apply Forall_cons in Hruns as [Hr Hrs]. rewrite tot_cons, <- (wr_duration _ (wb_wf _ Hr)). pose proof (wb_duration _ Hr).
    assert (0 <= tot sm_duration runs) by (apply tot_bounds; eapply Forall_impl; [exact Hrs|]; by intros ? []). lia. }
  replace (tot sm_duration (run :: runs) =? 0) with false by lia. cbn [negb demand mbind go_bind]. eexists. split; [done|]. cbn [f_trackID f_decodeTime f_sampleDescriptionIndex f_runs f_duration f_hasInferredDuration].
  split_and!; try done. rewrite <- (fmap_cons (read_back base) run runs). clear. induction (run :: runs) as [|x l IH]; [done|]. rewrite fmap_cons. cbn. exact IH.
Qed.
