(* ===== verification/FragProps.v ===== *)
(** * Fragments of a stream: properties

    Safety, the flow of bytes, splitting, the sound of a segment, and the round trip of
    its header; on a small stream of one picture and one sound track. *)

From Stdlib Require Import SpecFloat.
From S2P Require Import Prelude GoText Encoding GoFloat Segment FragBox FragTrack FragSafe FragQueue FragState FragReader FragInv FragFlow FragCalls FragRound.
#[local] Open Scope Z_scope.

(** ** A stream *)

Definition words (ws : list Z) : bytes := concat (PutUint32 <$> ws).
Definition aTrak (id timescale handler : Z) : bytes :=
  mkbox boxTrak (mkbox boxTkhd (words [0; 0; 0; id]) ++
    mkbox boxMdia (mkbox boxMdhd (words [0; 0; 0; timescale]) ++ mkbox boxHdlr (words [0; 0; handler]))).
(** The header, where samples last [v] and [a] if they do not say. *)
Definition anInit (v a : Z) : bytes :=
  mkbox boxMoov (aTrak 1 1000 handlerVideo ++ aTrak 2 1000 handlerAudio ++
    mkbox boxMvex (mkbox boxTrex (words [0; 1; 1; v; 0; 0]) ++ mkbox boxTrex (words [0; 2; 1; a; 0; 0]))).

(** A fragment of one run: the durations and sizes of its samples, and the byte they are made of. *)
Definition aMoof (id time : Z) (samples : list (Z * Z)) : bytes :=
  mkbox boxMoof (mkbox boxTraf (mkbox boxTfhd (words [0x020000; id]) ++ mkbox boxTfdt (tfdt_body time) ++
    mkbox boxTrun (words ([0x300; len samples] ++ concat ((λ s, [s.1; s.2]) <$> samples))))).
Definition aFragment (id time : Z) (samples : list (Z * Z)) (byte : Z) : bytes :=
  aMoof id time samples ++ mkbox boxMdat (concat ((λ s, replicate (Z.to_nat s.2) byte) <$> samples)).

Definition aStream : bytes := anInit 0 0 ++
  aFragment 1 0 [(1000, 4)] 7 ++ aFragment 2 0 [(600, 3); (600, 3); (600, 3)] 9 ++ aFragment 1 1000 [(1000, 5)] 8 ++
  aFragment 2 1800 [(600, 2); (600, 2)] 5 ++ aFragment 1 2000 [(1000, 6)] 6.
Definition aReader : mp4BoxReader := Mp4BoxReader (of_int 1) 0 false.
Definition someCalls : list pipe_call :=
  [Pushed (take 100 aStream); Pushed (drop 100 aStream); Released; Drained; Released].

Definition final {A} (m : reading A) (r : mp4BoxReader) : mp4BoxReader := match m r with Returned r _ => r | _ => r end.
Definition aFinal : mp4BoxReader := final (perform_all someCalls) aReader.

Example somePayloads : (λ e, match e with OnSegment s => Payloads s | OnInit _ => [] end) <$> rd_out aFinal =
  [[]; [[7; 7; 7; 7]; [9; 9; 9; 9; 9; 9]]; [[8; 8; 8; 8; 8]; [9; 9; 9]; [5; 5]]].
Proof. vm_compute. reflexivity. Qed.

(** Calls on concrete data. *)
Ltac calls_ok :=
  repeat (apply Forall_cons_2; [cbn [request_ok call_ok]; first [exact I | apply bytes_okb_spec; vm_compute; reflexivity]|]);
  apply Forall_nil_2.

(** ** No panic *)

(** C6: whatever bytes the pipeline delivers, in whatever pieces, mixed with drains,
    releases, targets, seeks and the end of the stream, and used on after errors, no call
    on the reader panics or runs on for ever. *)
Theorem reader_never_panics seconds diff cue qs : Forall request_ok qs → outlives qs (Mp4BoxReader seconds diff cue) = true.
Proof. intros Hq. apply outlives_inv; [apply heard_fresh|done]. Qed.

Lemma reader_never_panics_witness :
  outlives [Called (Pushed (take 300 aStream)); Called (Pushed [0; 0; 0; 4]); Ended; Sought (of_int 3); Called (Pushed aStream); Ended]
    (Mp4BoxReader (of_int 1) 0 false) = true.
Proof.
  apply reader_never_panics. calls_ok.
Defined.

(** ** The flow of bytes *)

(** What is no whole box yet. *)
Definition incomplete (part : bytes) : Prop := ∀ b rest, framed b → part ≠ t_data b ++ rest.

Lemma framed_numbers b rest : framed b → take 4 (t_data b ++ rest) = take 4 (t_data b).
Proof. intros [H1 H2 _ _]. rewrite take_app_le; [done|]. unfold len in *. lia. Qed.

Lemma under_way_incomplete bs r part : box_ok (rd_box r) → under_way bs r part → incomplete part.
Proof.
  intros Hb Hu b rest Hf ->. pose proof (framed_numbers b rest Hf) as Hn.
  pose proof (bo_required _ Hb) as Hreq. destruct (Hf) as [F1 F2 F3 F4]. pose proof (len_nonneg rest). unfold states in F3.
  destruct Hu as [[[Hp Hl] Hlt]|(body&[B1 B2 B3 B4 _ _]&Hz)].
  - rewrite len_app in Hlt. destruct Hreq as [E|E]; [lia|]. destruct (Hl E) as (_&H1&_).
    assert (Hh : t_header b = 8) by lia. rewrite Hh in F3. change (8 =? 8) with true in F3. rewrite take_take in F3.
    change (4 `min` Z.to_nat 8)%nat with 4%nat in F3. destruct F3 as [F3 F5]. rewrite Hn in H1. congruence.
  - rewrite len_app in B3. unfold states in B3.
    set (h := boxHeader (rd_box r)) in *. assert (Hlen : 8 <= len h) by lia.
    assert (E4 : be (take 4 h) = be (take 4 (t_data b))).
    { rewrite <- Hn, B1, take_app_le by (unfold len in Hlen; lia). done. }
    assert (Et : take 4 (take (Z.to_nat (t_header b)) (t_data b)) = take 4 (t_data b)) by (rewrite take_take; f_equal; lia). rewrite Et in F3.
    destruct F1 as [F1|F1]; rewrite F1 in F3; [change (8 =? 8) with true in F3|change (16 =? 8) with false in F3].
    + destruct Hreq as [E|E]; rewrite E in B3; [change (8 =? 8) with true in B3|change (16 =? 8) with false in B3; destruct B3, F3; congruence]. destruct B3 as [B3 _], F3 as [F3 _]. lia.
    + destruct Hreq as [E|E]; rewrite E in B3; [change (8 =? 8) with true in B3; destruct B3, F3; congruence|change (16 =? 8) with false in B3]. destruct B3 as [_ B3], F3 as [_ F3].
      assert (E8 : take 8 (drop 8 h) = take 8 (drop 8 (take (Z.to_nat 16) (t_data b)))).
      { assert (Eh : take (Z.to_nat 16) (t_data b ++ rest) = h) by (rewrite B1; apply take_app_length'; unfold len in B2; lia).
        rewrite <- Eh, take_app_le by (unfold len in F2; lia). done. }
      rewrite E8, F3 in B3. lia.
Qed.

(** The state after calls, on the input that was pushed. *)
Lemma calls_rest seconds diff cue cs r : Forall call_ok cs → perform_all cs (Mp4BoxReader seconds diff cue) = Returned r tt →
  len (concat (pushed <$> cs)) < two63 → inv r ∧ heard (concat (pushed <$> cs)) r.
Proof.
  intros Hc E Hl. destruct (heard_fresh seconds diff cue) as [Hi Hh]. pose proof (perform_all_wp cs _ Hi Hc) as Hw. unfold wp in Hw.
  rewrite E in Hw. destruct Hw as [Hi' Hs]. split; [done|]. by apply (Hs []).
Qed.

(** C5: in a run of calls without an error, no byte is lost, doubled or moved.  The input
    is a sequence of boxes, an incomplete box and what is deferred; and what the segments
    carry of the picture, followed by what the queue holds, is the bodies of the [mdat]s
    of the picture in order, and so for the sound (when no [mdat] is empty). *)
Theorem stream_conserved seconds diff cue cs r : Forall call_ok cs →
  perform_all cs (Mp4BoxReader seconds diff cue) = Returned r tt → len (concat (pushed <$> cs)) < two63 →
  ∃ bs part, concat (pushed <$> cs) = concat (t_data <$> bs) ++ part ++ rd_deferred (rd_buf r) ∧
    Forall framed bs ∧ incomplete part ∧
    (full bs → balance r (picture (videoID r) (arrived bs).2) (sound (videoID r) (arrived bs).2)).
Proof.
  intros Hc E Hl. destruct (calls_rest _ _ _ _ _ Hc E Hl) as [Hi (p&->&bs&part&[-> F2 F3 F4]&Hu)].
  exists bs, part. rewrite <- app_assoc. split_and!; [done|done|by eapply under_way_incomplete; [apply Hi|]|]. intros Hf. by apply (fl_balance _ _ F3).
Qed.

Lemma someCalls_ok : Forall call_ok someCalls.
Proof. calls_ok. Qed.

Lemma stream_conserved_witness : perform_all someCalls aReader = Returned aFinal tt ∧
  ∃ bs part, concat (pushed <$> someCalls) = concat (t_data <$> bs) ++ part ++ rd_deferred (rd_buf aFinal) ∧
    Forall framed bs ∧ incomplete part ∧
    (full bs → balance aFinal (picture (videoID aFinal) (arrived bs).2) (sound (videoID aFinal) (arrived bs).2)).
Proof.
  split; [vm_compute; reflexivity|]. apply (stream_conserved (of_int 1) 0 false someCalls aFinal someCalls_ok).
  - vm_compute. reflexivity.
  - vm_compute. reflexivity.
Defined.

(** C7: when the stream ends with pictures in the queue, the remainder brings all of them:
    the segments carry all of the picture, and the sound up to some point. *)
Theorem stream_finished seconds diff cue cs r r' : Forall call_ok cs →
  perform_all cs (Mp4BoxReader seconds diff cue) = Returned r tt → len (concat (pushed <$> cs)) < two63 →
  rd_video (rd_queues r) ≠ [] → TryBuildEndOfStreamRemainder r = Returned r' true →
  ∃ bs part, concat (pushed <$> cs) = concat (t_data <$> bs) ++ part ++ rd_deferred (rd_buf r) ∧
    Forall framed bs ∧ incomplete part ∧
    (full bs → ∃ a rest, carries (rd_out r') (picture (videoID r) (arrived bs).2) a ∧ a ++ rest = sound (videoID r) (arrived bs).2).
Proof.
  intros Hc E Hl Hv Er. destruct (calls_rest _ _ _ _ _ Hc E Hl) as [Hi (p&Ep&bs&part&[-> F2 F3 F4]&Hu)].
  rewrite Ep, len_app in Hl. pose proof (len_nonneg (rd_deferred (rd_buf r))). rewrite Ep.
  exists bs, part. rewrite <- app_assoc. split_and!; [done|done|by eapply under_way_incomplete; [apply Hi|]|]. intros Hf.
  pose proof (Remainder_wp r Hi) as Hw. unfold wp in Hw. rewrite Er in Hw. destruct Hw as [_ Hw]. apply Hw; [done| |lia|by apply (fl_balance _ _ F3)].
  destruct (rd_video (rd_queues r)); [done|]. rewrite len_cons. match goal with |- 0 < 1 + len ?l => pose proof (len_nonneg l) end. lia.
Qed.

Definition aEnd : mp4BoxReader := final TryBuildEndOfStreamRemainder aFinal.

Lemma stream_finished_witness : TryBuildEndOfStreamRemainder aFinal = Returned aEnd true ∧
  ∃ bs part, concat (pushed <$> someCalls) = concat (t_data <$> bs) ++ part ++ rd_deferred (rd_buf aFinal) ∧
    Forall framed bs ∧ incomplete part ∧
    (full bs → ∃ a rest, carries (rd_out aEnd) (picture (videoID aFinal) (arrived bs).2) a ∧ a ++ rest = sound (videoID aFinal) (arrived bs).2).
Proof.
  split; [vm_compute; reflexivity|]. apply (stream_finished (of_int 1) 0 false someCalls aFinal aEnd someCalls_ok).
  - vm_compute. reflexivity.
  - vm_compute. reflexivity.
  - vm_compute. discriminate.
  - vm_compute. reflexivity.
Defined.

(** ** Splitting *)

(** Samples that take time and bytes. *)
Definition positive (s : mp4Sample) : Prop := 0 < sm_duration s ∧ 0 < sm_size s.

Lemma total_positive ss : Forall positive ss → 0 <= total sm_duration ss ∧ 0 <= total sm_size ss ∧ (ss ≠ [] → 0 < total sm_duration ss ∧ 0 < total sm_size ss).
Proof. induction 1 as [|s ss [? ?] _ (?&?&_)]; [done|]. rewrite !total_cons. split_and!; [lia|lia|]. intros _. lia. Qed.

Lemma explicit_sums_Ok ss d z : Forall positive ss → d + total sm_duration ss <= MaxUint64 → z + total sm_size ss <= MaxUint64 →
  explicit_sums ss d z = Ok (d + total sm_duration ss, z + total sm_size ss).
Proof.
  intros Hp. revert d z. induction Hp as [|s ss [? ?] Hp IH]; intros d z Hd Hz; cbn [explicit_sums]; [cbn; do 2 f_equal; lia|].
  rewrite !total_cons in *. destruct (total_positive ss Hp) as (?&?&_).
  replace (MaxUint64 - d <? sm_duration s) with false by lia. replace (MaxUint64 - z <? sm_size s) with false by lia. cbn [negb demand mbind go_bind].
  rewrite IH by lia. do 2 f_equal; lia.
Qed.

Lemma add_run_Ok run ss e d : Forall positive ss → ss ≠ [] → total sm_duration ss <= MaxUint64 →
  0 <= d_bytes d → d_bytes d + total sm_size ss <= MaxInt64 →
  ∃ d', add_run run ss e d = Ok d' ∧ d_bytes d' = d_bytes d + total sm_size ss ∧ d_runs d' ≠ [].
Proof.
  intros Hp Hn Hd Hb Hz. destruct (total_positive ss Hp) as (_&_&Hpos). specialize (Hpos Hn). unfold add_run, buildExplicitRun.
  destruct ss as [|s ss]; [done|]. rewrite explicit_sums_Ok by (done || unfold MaxUint64, MaxInt64, two64, two63 in *; lia). cbn [mbind go_bind].
  replace (_ || _) with false by lia. cbn [negb demand mbind go_bind ru_dataSize].
  replace (_ || _) with false by (unfold MaxInt64 in *; lia). cbn [negb demand mbind go_bind]. eexists. split; [done|]. cbn. split; [lia|].
  by destruct (d_runs d).
Qed.

Definition ample (run : mp4Run) : Prop := Forall positive (ru_samples run) ∧ ru_samples run ≠ [].

Lemma split_loop_Ok runs k l r : Forall ample runs → 0 <= k <= len (concat (ru_samples <$> runs)) →
  0 <= d_bytes l → 0 <= d_bytes r → tot sm_duration runs <= MaxUint64 →
  d_bytes l + tot sm_size runs <= MaxInt64 → d_bytes r + tot sm_size runs <= MaxInt64 →
  ∃ l' r', split_loop runs k l r = Ok (0, l', r') ∧
    (0 < k → d_runs l' ≠ []) ∧ (d_runs l ≠ [] → d_runs l' ≠ []) ∧
    (k < len (concat (ru_samples <$> runs)) → d_runs r' ≠ []) ∧ (d_runs r ≠ [] → d_runs r' ≠ []).
Proof.
  intros Ha. revert k l r. induction Ha as [|run runs [Hp Hne] Ha IH]; intros k l r Hk Hl Hr Hd Hlz Hrz; cbn [split_loop].
  { unfold len in Hk. cbn in Hk. exists l, r. unfold len. cbn. replace k with 0 by lia. split_and!; (done || lia). }
  rewrite !tot_cons in *. rewrite fmap_cons in *. cbn [concat] in *. rewrite len_app in *.
  set (n := len (ru_samples run)) in *. assert (Hn : 0 < n) by (unfold n; destruct (ru_samples run); [done|rewrite len_cons; pose proof (len_nonneg l0); lia]).
  pose proof (len_nonneg (concat (ru_samples <$> runs))).
  assert (Htot : 0 <= tot sm_duration runs ∧ 0 <= tot sm_size runs).
  { clear -Ha. induction Ha as [|x xs [Hx _] _ IHx]; [done|]. rewrite !tot_cons. destruct (total_positive _ Hx) as (?&?&_). lia. }
  replace (n =? 0) with false by lia. cbn [negb demand mbind go_bind]. set (t := if 0 <? k then Z.min k n else 0).
  assert (Ht : 0 <= t <= n ∧ t <= k ∧ (t < n → t = k) ∧ (0 < k → 0 < t)) by (unfold t; split_if; lia).
  assert (Hcut : total sm_duration (ru_samples run) = total sm_duration (take (Z.to_nat t) (ru_samples run)) + total sm_duration (drop (Z.to_nat t) (ru_samples run)) ∧
    total sm_size (ru_samples run) = total sm_size (take (Z.to_nat t) (ru_samples run)) + total sm_size (drop (Z.to_nat t) (ru_samples run))).
  { by rewrite <- !total_app, take_drop. }
  assert (Hpt : Forall positive (take (Z.to_nat t) (ru_samples run))) by (by apply Forall_take).
  assert (Hpd : Forall positive (drop (Z.to_nat t) (ru_samples run))) by (by apply Forall_drop).
  destruct (total_positive _ Hpt) as (?&?&_), (total_positive _ Hpd) as (?&?&_).
  assert (Hleft : ∃ l1, (if 0 <? t then s ← checked (slice (ru_samples run) 0 t); l ← add_run run s "left audio payload offset overflow" l; Ok (k - t, l)
      else Ok (k, l)) = Ok (k - t, l1) ∧ 0 <= d_bytes l1 ∧ d_bytes l1 <= d_bytes l + total sm_size (ru_samples run) ∧ (0 < t → d_runs l1 ≠ []) ∧ (d_runs l ≠ [] → d_runs l1 ≠ [])).
  { split_if; [|exists l; split_and!; [do 2 f_equal; lia|lia..|done]].
    rewrite slice_in_range by (unfold n in *; lia). cbn [checked mbind go_bind]. rewrite drop_0, Z.sub_0_r.
    destruct (add_run_Ok run (take (Z.to_nat t) (ru_samples run)) "left audio payload offset overflow" l) as (l1&->&E&Hr1);
      [done|apply take_nonempty; unfold n in *; lia|lia|done|lia|]. exists l1. cbn. split_and!; (done || lia). }
  destruct Hleft as (l1&->&L1&L2&L3&L4). cbn [mbind go_bind].
  assert (Hright : ∃ r1, (if t <? n then s ← checked (slice_from (ru_samples run) t); add_run run s "right audio payload offset overflow" r else Ok r) = Ok r1 ∧
      0 <= d_bytes r1 ∧ d_bytes r1 <= d_bytes r + total sm_size (ru_samples run) ∧ (t < n → d_runs r1 ≠ []) ∧ (d_runs r ≠ [] → d_runs r1 ≠ [])).
  { split_if; [|exists r; split_and!; [done|lia..|done]]. unfold slice_from. rewrite slice_in_range by (unfold n in *; lia). cbn [checked mbind go_bind].
    rewrite (take_ge (drop _ _)) by (rewrite length_drop; unfold n, len; lia).
    destruct (add_run_Ok run (drop (Z.to_nat t) (ru_samples run)) "right audio payload offset overflow" r) as (r1&->&E&Hr1);
      [done| |lia|done|lia|exists r1; split_and!; (done || lia)].
    intros E. apply (f_equal length) in E. rewrite length_drop in E. unfold n, len in *. cbn in E. lia. }
  destruct Hright as (r1&->&R1&R2&R3&R4). cbn [mbind go_bind].
  destruct (IH (k - t) l1 r1) as (l'&r'&->&I1&I2&I3&I4); [lia..|]. exists l', r'. split_and!; [done| |by auto| |by auto].
  - intros Hk0. apply I2, L3. lia.
  - intros Hlt. destruct (decide (t < n)); [by apply I4, R3|apply I3; lia].
Qed.

Lemma fragment_samples_Ok runs n : Forall ample runs → fragment_samples runs n = Ok (n + len (concat (ru_samples <$> runs))).
Proof.
  intros Ha. revert n. induction Ha as [|run runs [_ Hne] _ IH]; intros n; cbn [fragment_samples]; [unfold len; cbn; f_equal; lia|].
  rewrite fmap_cons. cbn [concat]. destruct (ru_samples run) as [|s ss] eqn:E; [done|]. rewrite IH, len_app. f_equal. lia.
Qed.

(** C9: a fragment whose samples take time and bytes splits behind any inner sample: the
    parts hold the samples before and behind it, are adjacent in time and in the storage,
    and both have bytes. *)
Theorem split_exact f k : wf_fragment f → Forall ample (f_runs f) → f_payloadLen f = total sm_size (samples_of f) →
  f_payloadLen f <= MaxInt64 → f_decodeTime f + total sm_duration (samples_of f) <= MaxUint64 → 0 < k < len (samples_of f) →
  ∃ l r, splitFragmentAtSample f k = Ok (l, r) ∧ wf_fragment l ∧ wf_fragment r ∧ halves f k l r.
Proof.
  intros Hw Ha Hlen Hmax Htime Hk. cut (∃ l r, splitFragmentAtSample f k = Ok (l, r)).
  { intros (l&r&E). exists l, r. split; [done|]. refine (ends_Ok _ _ _ (split_ends f k Hw _) E).
    rewrite Hlen. apply (sample_u32 (samples_of f)). unfold samples_of. apply Forall_concat, Forall_fmap.
    eapply Forall_impl; [apply Hw|]. by intros ? []. }
  destruct (Hw) as [W1 W2 W3 W4 _ _ _ _]. unfold is_u64 in W4. unfold samples_of in *. fold (tot sm_duration (f_runs f)) in *. fold (tot sm_size (f_runs f)) in *.
  pose proof (tot_bounds _ W1) as [Hd0 Hz0]. unfold MaxUint64, MaxInt64 in *.
  assert (Hdur : f_duration f = tot sm_duration (f_runs f)) by (rewrite W3; apply u64_id; unfold in_u64; lia).
  destruct (split_loop_Ok (f_runs f) k (mkSide [] 0 0) (mkSide [] 0 0)) as (l&r&E&Sl&_&Sr&_); [done|lia|done|done|unfold MaxUint64; lia|cbn; unfold MaxInt64; lia..|].
  pose proof (ends_Ok _ _ _ (split_loop_ends (f_runs f) k _ _ W1 side_nothing side_nothing ltac:(lia)) E) as ([L1 L2 L3 L4 _]&[R1 R2 R3 R4 _]&El&Er).
  change (side_samples (mkSide [] 0 0)) with (@nil mp4Sample) in El, Er. cbn [app] in El, Er.
  assert (Hsum : ∀ g, tot g (d_runs l) + tot g (d_runs r) = tot g (f_runs f)).
  { intros g. unfold tot. unfold side_samples in El, Er. rewrite El, Er, <- total_app, take_drop. done. }
  pose proof (Hsum sm_duration). pose proof (Hsum sm_size). pose proof (tot_bounds _ L1). pose proof (tot_bounds _ R1).
  rewrite u64_id in L3, R3 by (unfold in_u64; lia).
  specialize (Sl ltac:(lia)). specialize (Sr ltac:(lia)).
  unfold splitFragmentAtSample, fragmentSampleCount. rewrite fragment_samples_Ok by done. cbn [mbind go_bind].
  set (n := len (concat (ru_samples <$> f_runs f))) in *. rewrite !Z.add_0_l.
  replace (n =? 0) with false by lia. cbn [mbind go_bind]. replace ((k <=? 0) || (n <=? k)) with false by lia. cbn [mbind go_bind negb demand]. rewrite E. cbn [mbind go_bind].
  assert (Hnl : len (d_runs l) =? 0 = false) by (destruct (d_runs l); [done|rewrite len_cons; pose proof (len_nonneg l0); lia]).
  assert (Hnr : len (d_runs r) =? 0 = false) by (destruct (d_runs r); [done|rewrite len_cons; pose proof (len_nonneg l0); lia]).
  rewrite Hnl, Hnr. change (negb (0 =? 0)) with false. cbn [orb negb demand mbind go_bind].
  rewrite !u64_id by (unfold in_u64, two64, two63 in *; lia).
  replace (_ =? f_duration f) with true by lia. replace (_ =? f_payloadLen f) with true by lia. cbn [demand mbind go_bind].
  replace (_ <=? f_payloadLen f) with true by lia. replace (_ <? d_duration l) with false by (unfold MaxUint64; lia). cbn [negb demand mbind go_bind].
  by do 2 eexists.
Qed.

(** The sound of [aStream], as it is queued, and where its bytes are. *)
Definition aQueue : mp4BoxReader := final (Push (take 445 aStream)) aReader.
Definition aSound : mp4Fragment := Eval vm_compute in
  match rd_audio (rd_queues aQueue) with f :: _ => f | [] => mkFragment 0 0 0 0 false 0 [] [] 0 0 false end.
Definition aStorage : bytes := Eval vm_compute in sourcePayload (rd_buf aQueue).

Lemma aSound_stored : stored aStorage aSound ∧ Forall ample (f_runs aSound).
Proof.
  split; [|repeat constructor; done]. constructor; [|done|done|by right]. constructor; try done.
  repeat constructor; done.
Qed.

Lemma split_exact_witness : 0 < 2 < len (samples_of aSound) ∧
  ∃ l r, splitFragmentAtSample aSound 2 = Ok (l, r) ∧ wf_fragment l ∧ wf_fragment r ∧ halves aSound 2 l r.
Proof.
  split; [by vm_compute|]. apply split_exact; [apply aSound_stored|apply aSound_stored|by vm_compute|by vm_compute|by vm_compute|by vm_compute].
Defined.

(** ** The sound of a segment *)

(** C8: the fragments of sound that are taken for a segment end with the first sample that
    reaches the end of the picture, compared exactly across the time scales; no sample is
    lost, and the rest of a split fragment stays queued. *)
Theorem audio_selected st audio videoEnd videoTimescale audio' n : Forall (stored st) audio →
  select_audio audio videoEnd videoTimescale 0 = Ok (audio', n) → 0 < n → selected videoEnd videoTimescale audio audio' n.
Proof.
  intros Ha E Hn. assert (Hw : Forall (λ f, wf_fragment f ∧ 0 <= f_payloadLen f) audio) by (eapply Forall_impl; [exact Ha|by intros ? []]).
  destruct (ends_Ok _ _ _ (select_audio_ends audio videoEnd videoTimescale 0 ltac:(lia) Hw) E) as [[? _]|[_ H]]; cbn [fst snd] in *; [lia|].
  by rewrite Z.sub_0_r in H.
Qed.

Definition theSelected : list mp4Fragment * Z := Eval vm_compute in
  match select_audio [aSound] 1000 1000 0 with Ok x => x | _ => ([], 0) end.

Lemma audio_selected_witness : theSelected.2 = 1 ∧ selected 1000 1000 [aSound] theSelected.1 theSelected.2.
Proof.
  split; [done|]. apply (audio_selected aStorage); [|vm_compute; reflexivity|done]. apply Forall_cons_2; [apply aSound_stored|apply Forall_nil_2].
Defined.

(** ** The header of a segment *)

(** C10: the [traf] that is written for the fragments of a segment is read back, by the
    parser of the reader, as one fragment of the same track at the time that was written,
    with the samples of all runs, and offsets into the [mdat]. *)
Theorem traf_roundtrip o f fs moofSize mdatHeaderSize time b video audio videoHint audioHint :
  let track := if f_trackID f =? tr_id video then video else audio in let runs := concat (f_runs <$> f :: fs) in
  wf_fragment f → Forall writable runs → tot sm_duration runs <= MaxUint64 →
  f_trackID f ≠ 0 → f_sampleDescriptionIndex f ≠ 0 → f_trackID f = tr_id track → tr_timescale track ≠ 0 →
  addTfdtOffset (f_decodeTime f) (f_timescale f) o = Ok time → writeTraf o (f :: fs) moofSize mdatHeaderSize = Ok b →
  ∃ g, parseTraf b 8 video audio videoHint audioHint = Ok g ∧ f_trackID g = f_trackID f ∧ f_decodeTime g = time ∧
    f_sampleDescriptionIndex g = f_sampleDescriptionIndex f ∧ f_runs g = read_back (moofSize + mdatHeaderSize) <$> runs ∧
    f_duration g = tot sm_duration runs ∧ f_hasInferredDuration g = false.
Proof.
  intros track runs Hw Hr Ht Hid Hix Htr Hts Htime Hb. destruct (writeTraf_boxes _ _ _ _ _ _ _ Hw Htime Hb) as (->&Hl&Ho). fold runs in Hl, Ho |- *.
  rewrite len_mkbox in Hl. apply parseTraf_read; try done; [| |lia].
  - refine (ends_Ok _ _ _ (addTfdtOffset_range _ _ _ (wf_time _ Hw)) Htime).
  - unfold runs. rewrite fmap_cons. cbn [concat]. pose proof (wf_some _ Hw). by destruct (f_runs f).
Qed.

Definition aTraf : bytes := Eval vm_compute in match writeTraf (S754_zero false) [aSound] 100 8 with Ok b => b | _ => [] end.
Definition aTracks : trackInfo * trackInfo := Eval vm_compute in match parseInitTracks (anInit 0 0) with Ok x => x | _ => (noTrack, noTrack) end.

Lemma aSound_writable : Forall writable (concat (f_runs <$> [aSound])).
Proof. repeat constructor; done. Qed.

Lemma traf_roundtrip_witness : writeTraf (S754_zero false) [aSound] 100 8 = Ok aTraf ∧
  ∃ g, parseTraf aTraf 8 aTracks.1 aTracks.2 0 0 = Ok g ∧ f_trackID g = f_trackID aSound ∧ f_decodeTime g = 0 ∧
    f_sampleDescriptionIndex g = f_sampleDescriptionIndex aSound ∧ f_runs g = read_back (100 + 8) <$> concat (f_runs <$> [aSound]) ∧
    f_duration g = tot sm_duration (concat (f_runs <$> [aSound])) ∧ f_hasInferredDuration g = false.
Proof.
  split; [vm_compute; reflexivity|]. apply (traf_roundtrip (S754_zero false) aSound [] 100 8 0 aTraf aTracks.1 aTracks.2 0 0);
    [apply aSound_stored|apply aSound_writable|by vm_compute|done|done|done|done|by vm_compute|by vm_compute].
Defined.

(** ** A guess that is forgotten *)

(** A fragment that does not say how long its samples last. *)
Definition aSilentFragment (id time : Z) (sizes : list Z) (byte : Z) : bytes :=
  mkbox boxMoof (mkbox boxTraf (mkbox boxTfhd (words [0x020000; id]) ++ mkbox boxTfdt (tfdt_body time) ++
    mkbox boxTrun (words ([0x200; len sizes] ++ sizes)))) ++
  mkbox boxMdat (concat ((λ n, replicate (Z.to_nat n) byte) <$> sizes)).

(** The durations of the second fragment of sound are guessed from the first (600 each),
    and its last sample lasts 650 instead: the third fragment starts at 3050.  The picture
    ends after [first] and again a second later. *)
Definition guessed (first : Z) : bytes := anInit 0 0 ++
  aFragment 1 0 [(first, 4)] 7 ++ aFragment 2 0 [(600, 3); (600, 3)] 9 ++ aSilentFragment 2 1200 [3; 3; 3] 9 ++
  aFragment 1 first [(1000, 5)] 8 ++ aFragment 2 3050 [(600, 2); (600, 2)] 5 ++ aFragment 1 (first + 1000) [(1000, 6)] 6 ++
  aFragment 1 (first + 2000) [(1000, 6)] 6.

Definition sent_ends (r : mp4BoxReader) : list Z := omap (λ e, match e with OnSegment s => Some (EndNS s) | OnInit _ => None end) (rd_out r).

(** The next fragment of a track corrects the last duration of the one before, if it was
    guessed; but a fragment that was split for a segment before has lost the mark, and the
    stream fails at the next segment, although the same sound is fine when the picture ends
    elsewhere. *)
Theorem guess_forgotten :
  (∃ r, perform_all [Pushed (guessed 1000); Drained; Drained] aReader = Returned r tt ∧ sent_ends r = [1000000000; 2000000000; 3000000000]) ∧
  (∃ r, perform_all [Pushed (guessed 1250); Drained; Drained] aReader = Failed r "fragments cannot be merged into one traf").
Proof. split; eexists; [split|]; vm_compute; reflexivity. Qed.
