(* ===== verification/Service.v ===== *)
(** * The registry of transcoding tasks ([server/gstreamer/service.go], [config.go])

    The service keeps one task per torrent, builds tasks on demand, limits their number,
    freezes and removes the idle ones, and remembers what it learnt of sources for an
    hour.  Tasks are objects shared with the requests that use them: they live in a heap
    and the registry holds their addresses.

    A method is cut where it gives up its mutex.  Its sections are functions of the state;
    what it still has to do after a section is a [frame], and [World] runs any number of
    frames in any order.  The clock, the order of iteration over a map, and the outcome of
    probing and of building a pipeline are arguments. *)

From S2P Require Import Prelude GoFloat GoText Segment Matroska MP4Init Task.
From Stdlib Require Import SpecFloat.
#[local] Open Scope Z_scope.

(** ** Configuration *)

(** [strings.ToLower]; the texts it is used on here are ASCII. *)
Definition ToLower (s : bytes) : bytes := (λ c, if (65 <=? c) && (c <=? 90) then c + 32 else c) <$> s.

Module Conf.
Record Config := mkConfig {
  GSTVersion : float64;
  GSTPath : bytes;
  Source : bytes;
  MaxTasks : Z;
  InactiveMinutes : Z;
  AACBitrateKbps : Z; AACChannels : Z; AACSamplerate : Z;
  SegmentSeconds : Z;
  SegmentDiff : Z;
  Subtitles : bool;
  TranscodeH264 : bool; TranscodeH265 : bool; TranscodeAV1 : bool; TranscodeVP9 : bool; TranscodeVP8 : bool; TranscodeAVI : bool;
  HDRToSDR : bool;
  HardwareAcceleration : bool; UseGPU : bool; X264Ultrafast : bool;
  VideoBitrate : Z;
}.

(** The literal [1.22]. *)
Definition minGSTVersion : float64 := fdiv (of_int 122) (of_int 100).

Definition normalized (c : Config) : Config :=
  let source := ToLower (TrimSpace (Source c)) in
  mkConfig
    (if SFltb (GSTVersion c) minGSTVersion then minGSTVersion else GSTVersion c)
    (GSTPath c)
    (if bool_decide (source = str "play") then source else str "stream")
    (if MaxTasks c <? 0 then 0 else MaxTasks c)
    (if InactiveMinutes c <=? 0 then 5 else InactiveMinutes c)
    (if AACBitrateKbps c <=? 0 then 256 else AACBitrateKbps c)
    (if AACChannels c <? 0 then 0 else AACChannels c)
    (if AACSamplerate c <? 0 then 0 else AACSamplerate c)
    (if SegmentSeconds c <=? 0 then 6 else SegmentSeconds c)
    (if SegmentDiff c <? 0 then 0 else SegmentDiff c)
    (Subtitles c) (TranscodeH264 c) (TranscodeH265 c) (TranscodeAV1 c) (TranscodeVP9 c) (TranscodeVP8 c) (TranscodeAVI c)
    (HDRToSDR c) (HardwareAcceleration c) (UseGPU c) (X264Ultrafast c)
    (if VideoBitrate c <=? 0 then 10000 else VideoBitrate c).

(** Durations are 64-bit counts of nanoseconds. *)
Definition minute : Z := 60 * 1000000000.
Definition inactiveDuration (c : Config) : Z := i64 (InactiveMinutes (normalized c) * minute).
End Conf.
Notation Config := Conf.Config.
Notation normalized := Conf.normalized.

(** ** What is known of a source *)

(** The fields the registry and the tasks use. *)
Record TrackInfo := mkTrackInfo {
  ti_Type : bytes; ti_CapsName : bytes; ti_Width : Z; ti_Height : Z; ti_IsDolbyVision : bool; ti_VideoTransfer : bytes }.

Record ProbeInfo := mkProbeInfo {
  p_DurationNS : Z; p_FileSize : Z; p_Container : bytes; p_ContainerCapsName : bytes; p_Tracks : list TrackInfo }.

Definition video_caps : list bytes :=
  [str "video/x-h264"; str "video/x-h265"; str "video/x-av1"; str "video/x-vp9"; str "video/x-vp8"].

(** [ProbeInfo.Video] *)
Definition probe_Video (p : ProbeInfo) : option TrackInfo :=
  List.find (λ t, bool_decide (ti_Type t = str "video") || bool_decide (ti_CapsName t ∈ video_caps)) (p_Tracks p).

Definition VideoCapsName (p : ProbeInfo) : bytes := match probe_Video p with Some v => ti_CapsName v | None => [] end.

(** [TrackInfo.IsHDRVideo] *)
Definition track_IsHDRVideo (t : TrackInfo) : bool :=
  bool_decide (ti_Type t = str "video") &&
  (ti_IsDolbyVision t || bool_decide (ti_VideoTransfer t = str "pq") || bool_decide (ti_VideoTransfer t = str "hlg")).

Definition container_text (p : ProbeInfo) : bytes := ToLower (TrimSpace (p_Container p ++ str " " ++ p_ContainerCapsName p)).
Definition IsMatroskaContainer (p : ProbeInfo) : bool :=
  Contains (container_text p) (str "matroska") || Contains (container_text p) (str "webm").
Definition IsAVIContainer (p : ProbeInfo) : bool :=
  Contains (container_text p) (str "video/x-msvideo") || Contains (container_text p) (str "avi").

Inductive service_error :=
| ErrBadSource | ErrServiceClosed | ErrProbeUnavailable | ErrUnsupportedHDRTransfer | ErrUnsupportedContainer | ErrUnsupportedVideo
| ProbeFailed (n : Z) | PipelineFailed (n : Z).

(** [None] is a source that can be served. *)
Definition validateProbe (p : ProbeInfo) (conf : Config) : option service_error :=
  match p_Tracks p, probe_Video p with
  | [], _ | _, None => Some ErrProbeUnavailable
  | _, Some v =>
      if Conf.HDRToSDR conf && track_IsHDRVideo v && bool_decide (ti_VideoTransfer v ≠ str "pq") && bool_decide (ti_VideoTransfer v ≠ str "hlg")
      then Some ErrUnsupportedHDRTransfer
      else
        let transcodeAVI := IsAVIContainer p && Conf.TranscodeAVI conf in
        if negb (IsMatroskaContainer p) && negb transcodeAVI then Some ErrUnsupportedContainer
        else
          let caps := VideoCapsName p in
          let supported := bool_decide (caps = str "video/x-h264") || bool_decide (caps = str "video/x-h265") ||
            bool_decide (caps = str "video/x-av1") || bool_decide (caps = str "video/x-vp9") ||
            (bool_decide (caps = str "video/x-vp8") && Conf.TranscodeVP8 conf) || transcodeAVI in
          if negb supported then Some ErrUnsupportedVideo else None
  end.

Definition probeCacheTTL : Z := 60 * Conf.minute.
Definition probeCacheKey (hash fileID : bytes) : bytes := hash ++ [0] ++ fileID.

(** [refreshProbeFileSize]: [size] is what the torrent says. *)
Definition refreshProbeFileSize (size : Z) (p : ProbeInfo) : ProbeInfo :=
  if 0 <? size then mkProbeInfo (p_DurationNS p) size (p_Container p) (p_ContainerCapsName p) (p_Tracks p) else p.

(** ** State *)

(** A task with the fields that name it. *)
Record object (R : Type) := mkObject { o_ID : bytes; o_FileID : bytes; o_task : Task R }.
Arguments mkObject {R}. Arguments o_ID {R}. Arguments o_FileID {R}. Arguments o_task {R}.

Record probeCacheEntry := mkEntry { pe_probe : ProbeInfo; pe_expiresAt : Z }.

Record service (R : Type) := mkService {
  conf : Config;
  tasks : gmap bytes nat;
  heap : list (object R);
  probeCache : gmap bytes probeCacheEntry;
  cleanupRunning : bool;
  s_disposed : bool;
}.
Arguments mkService {R}. Arguments conf {R}. Arguments tasks {R}. Arguments heap {R}. Arguments probeCache {R}.
Arguments cleanupRunning {R}. Arguments s_disposed {R}.

(** An order in which [range] visits a map. *)
Record MapOrder := mkOrder { entries_in : gmap bytes nat → list (bytes * nat); entries_perm : ∀ m, entries_in m ≡ₚ map_to_list m }.

Section Service.
Context {R : Type} `{!Runner R}.
Implicit Types s : service R.

Definition set_conf (x : Config) s : service R := mkService x (tasks s) (heap s) (probeCache s) (cleanupRunning s) (s_disposed s).
Definition set_tasks (x : gmap bytes nat) s : service R := mkService (conf s) x (heap s) (probeCache s) (cleanupRunning s) (s_disposed s).
Definition set_heap (x : list (object R)) s : service R := mkService (conf s) (tasks s) x (probeCache s) (cleanupRunning s) (s_disposed s).
Definition set_probeCache (x : gmap bytes probeCacheEntry) s : service R := mkService (conf s) (tasks s) (heap s) x (cleanupRunning s) (s_disposed s).
Definition set_cleanupRunning (x : bool) s : service R := mkService (conf s) (tasks s) (heap s) (probeCache s) x (s_disposed s).
Definition set_s_disposed (x : bool) s : service R := mkService (conf s) (tasks s) (heap s) (probeCache s) (cleanupRunning s) x.

Definition NewService (c : Config) : service R := mkService (normalized c) ∅ [] ∅ false false.

(** A change of the task at an address. *)
Definition on_task (f : Task R → Task R) (r : nat) s : service R :=
  set_heap (alter (λ o, mkObject (o_ID o) (o_FileID o) (f (o_task o))) r (heap s)) s.

Definition task_disposed s (r : nat) : bool := match heap s !! r with Some o => disposed (o_task o) | None => true end.
Definition task_active s (r : nat) : Z := match heap s !! r with Some o => lastActive (o_task o) | None => 0 end.

(** ** Eviction *)

(** One turn of the loop of [oldestEvictableTask]; no task of the registry is [nil]. *)
Definition pick s (protectedID : bytes) (acc : bytes * option nat * Z * bool) (entry : bytes * nat) : bytes * option nat * Z * bool :=
  let '(oldestID, oldestTask, oldestActive, oldestDisposed) := acc in
  let '(id, task) := entry in
  if bool_decide (id = protectedID) then acc
  else
    let d := task_disposed s task in
    let a := task_active s task in
    if bool_decide (oldestID = []) || (d && negb oldestDisposed) || (Bool.eqb d oldestDisposed && (a <? oldestActive))
    then (id, Some task, a, d) else acc.

Definition oldestEvictableTask s (protectedID : bytes) (entries : list (bytes * nat)) : bytes * option nat :=
  let '(id, task, _, _) := foldl (pick s protectedID) ([], None, 0, false) entries in (id, task).

Fixpoint evict_loop (fuel : nat) (o : MapOrder) (limit : Z) (protectedID : bytes) (evicted : list nat) s : list nat * service R :=
  match fuel with
  | O => (evicted, s)
  | S fuel =>
      if Z.of_nat (size (tasks s)) <=? limit then (evicted, s)
      else
        let '(id, task) := oldestEvictableTask s protectedID (entries_in o (tasks s)) in
        if bool_decide (id = []) then (evicted, s)
        else evict_loop fuel o limit protectedID
               (match task with Some r => evicted ++ [r] | None => evicted end) (set_tasks (delete id (tasks s)) s)
  end.

(** [evictTasksForLimitLocked]: every turn takes a task out. *)
Definition evictTasksForLimitLocked (o : MapOrder) (protectedID : bytes) s : list nat * service R :=
  let limit := Conf.MaxTasks (normalized (conf s)) in
  if (limit <=? 0) || (Z.of_nat (size (tasks s)) <=? limit) then ([], s)
  else evict_loop (S (size (tasks s))) o limit protectedID [] s.

(** ** The sections of the operations *)

(** [getOrAdd], the reading section: the task that serves the request. *)
Definition lookup_task (hash fileID : bytes) (audio : Z) s : option nat :=
  match tasks s !! hash with
  | Some r =>
      match heap s !! r with
      | Some o => if bool_decide (o_FileID o = fileID) && (Audio (o_task o) =? audio) && negb (disposed (o_task o)) then Some r else None
      | None => None
      end
  | None => None
  end.

Definition getOrAdd_lookup (hash fileID : bytes) (audio now : Z) s : option nat * service R :=
  match lookup_task hash fileID audio s with
  | Some r => (Some r, on_task (UpdateLastActive now) r s)
  | None => (None, s)
  end.

(** [NewTask] for a probed source; [None] is a pipeline that could not be built. *)
Definition new_task (audio : Z) (p : ProbeInfo) (cue : option CueTimeline) (c : Config) (now : Z) (r : option R) : option (Task R) :=
  let video := (λ v, mkVideoInfo (ti_Width v) (ti_Height v) (ti_VideoTransfer v) (track_IsHDRVideo v)) <$> probe_Video p in
  NewTask audio video (p_DurationNS p) cue (Conf.SegmentSeconds (normalized c)) (Conf.HDRToSDR (normalized c)) now r.

(** A new object is held by the call that made it. *)
Definition allocate (hash fileID : bytes) (t : Task R) s : nat * service R :=
  (length (heap s), set_heap (heap s ++ [mkObject hash fileID t]) s).

(** [getOrAdd], the writing section: the answer and the tasks to dispose. *)
Definition getOrAdd_insert (o : MapOrder) (hash fileID : bytes) (audio now : Z) (r : nat) s : (service_error + nat) * list nat * service R :=
  if s_disposed s then (inl ErrServiceClosed, [r], s)
  else
    match lookup_task hash fileID audio s with
    | Some existing => (inr existing, [r], on_task (UpdateLastActive now) existing s)
    | None =>
        let replaced := tasks s !! hash in
        let '(evicted, s) := evictTasksForLimitLocked o hash (set_tasks (<[hash := r]> (tasks s)) s) in
        (inr r, match replaced with Some old => old :: evicted | None => evicted end, s)
    end.

Definition taskMatchesRequest (r : nat) (hash fileID : bytes) (audio : Z) s : bool :=
  match heap s !! r with
  | Some o => negb (disposed (o_task o)) && bool_decide (o_ID o = hash) && bool_decide (o_FileID o = fileID) && (Audio (o_task o) =? audio)
  | None => false
  end.

Definition Get (id : bytes) (now : Z) s : option nat * service R :=
  if bool_decide (id = []) || s_disposed s then (None, s)
  else
    match tasks s !! id with
    | Some r => if task_disposed s r then (None, s) else (Some r, on_task (UpdateLastActive now) r s)
    | None => (None, s)
    end.

Definition detachTask (id : bytes) (expected : option nat) s : option nat * service R :=
  if bool_decide (id = []) then (None, s)
  else
    match tasks s !! id with
    | Some r =>
        match expected with
        | Some e => if bool_decide (r ≠ e) then (None, s) else (Some r, set_tasks (delete id (tasks s)) s)
        | None => (Some r, set_tasks (delete id (tasks s)) s)
        end
    | None => (None, s)
    end.

(** The section of [tryRemoveExpectedInactive]. *)
Definition removeInactive (id : bytes) (expected : nat) (cutoff : Z) s : bool * service R :=
  if bool_decide (id = []) || bool_decide (tasks s !! id ≠ Some expected) || negb (task_active s expected <? cutoff) then (false, s)
  else (true, set_tasks (delete id (tasks s)) s).

Definition isCurrentTask (id : bytes) (expected : nat) s : bool := bool_decide (tasks s !! id = Some expected).

(** The section of [updateConfig]. *)
Definition updateConfig_section (o : MapOrder) (c : Config) s : list nat * service R :=
  evictTasksForLimitLocked o [] (set_conf (normalized c) s).

(** The sections of [Dispose]; the registry gives all of its tasks away. *)
Definition dispose_swap (o : MapOrder) s : list nat * service R := ((entries_in o (tasks s)).*2, set_tasks ∅ s).

(** ** The cache of probes *)

Definition getCachedProbe (hash fileID : bytes) (now : Z) s : option ProbeInfo * service R :=
  let key := probeCacheKey hash fileID in
  match probeCache s !! key with
  | None => (None, s)
  | Some e => if negb (now <? pe_expiresAt e) then (None, set_probeCache (delete key (probeCache s)) s) else (Some (pe_probe e), s)
  end.

(** [time.Now().UTC().Add] does not wrap around for the dates of this century. *)
Definition setCachedProbe (hash fileID : bytes) (p : ProbeInfo) (now : Z) s : service R :=
  if s_disposed s then s
  else set_probeCache (<[probeCacheKey hash fileID := mkEntry p (now + probeCacheTTL)]> (probeCache s)) s.

Definition cleanupProbeCache (now : Z) s : service R :=
  set_probeCache (filter (λ '(_, e), now < pe_expiresAt e) (probeCache s)) s.

(** [cachedProbe]: what is remembered, refreshed and checked again. *)
Definition cachedProbe (hash fileID : bytes) (size now : Z) s : option (service_error + ProbeInfo) * service R :=
  let '(p, s) := getCachedProbe hash fileID now s in
  match p with
  | None => (None, s)
  | Some p =>
      let p := refreshProbeFileSize size p in
      match validateProbe p (conf s) with
      | Some err => (Some (inl err), s)
      | None => (Some (inr p), setCachedProbe hash fileID p now s)
      end
  end.

(** [Probe] without interference: the second look at the cache, in the call shared by
    requests for the same source, sees what the first saw.  [source] is what the
    discoverer says, [size] what the torrent says. *)
Definition Probe (hash fileID : bytes) (source : service_error + ProbeInfo) (size now : Z) s : (service_error + ProbeInfo) * service R :=
  if bool_decide (hash = []) || bool_decide (fileID = []) then (inl ErrBadSource, s)
  else if s_disposed s then (inl ErrServiceClosed, s)
  else
    let '(cached, s) := cachedProbe hash fileID size now s in
    match cached with
    | Some res => (res, s)
    | None =>
        match source with
        | inl err => (inl err, s)
        | inr result =>
            let result := refreshProbeFileSize size result in
            match validateProbe result (conf s) with
            | Some err => (inl err, s)
            | None =>
                let s := setCachedProbe hash fileID result now s in
                let probe := refreshProbeFileSize size result in
                match validateProbe probe (conf s) with
                | Some err => (inl err, s)
                | None => (inr probe, setCachedProbe hash fileID probe now s)
                end
            end
        end
    end.
End Service.
