(* ===== verification/ServiceWorld.v ===== *)
(** * The registry with any number of calls under way

    A call is a [frame]: what it still has to do after its last section.  [step_frame]
    runs the next section of a frame; [wstep] lets a new call begin or a frame go on.
    The results of calls are recorded in [answers]. *)

From S2P Require Import Prelude GoText Segment Matroska Task Service.
#[local] Open Scope Z_scope.

(** ** Calls *)

(** What a request does with the task it got. *)
Inductive use :=
| UEnsureInit (audio startIndex : Z)
| UWithSegment (index audio : Z)
| UFrozen.

Inductive frame :=
| FGetOrAdd (hash fileID : bytes) (audio : Z) (* before a turn of the loop *)
| FLookup (hash fileID : bytes) (audio : Z)
| FBuild (hash fileID : bytes) (audio : Z) (* before probing and building *)
| FInsert (hash fileID : bytes) (audio : Z) (r : nat) (* a task is built *)
| FRelease (hash fileID : bytes) (audio : Z) (answer : service_error + nat) (rs : list nat) (* tasks to dispose before the answer *)
| FAnswer (hash fileID : bytes) (audio : Z) (r : nat) (* before the answer is checked *)
| FDispose (rs : list nat) (* tasks to dispose *)
| FUpdate (c : Config) (* a configuration to set *)
| FSwap (* the service is closed, its tasks are not yet taken *)
| FClear (rs : list nat) (* its tasks are taken, the probes not yet forgotten *)
| FClean (todo : list (bytes * nat)) (freezeCutoff removeCutoff now : Z) (* tidying: the tasks still to look at *)
| FCleanRemove (id : bytes) (r : nat) (todo : list (bytes * nat)) (freezeCutoff removeCutoff now : Z)
| FCleanDispose (r : nat) (todo : list (bytes * nat)) (freezeCutoff removeCutoff now : Z)
| FCleanCurrent (id : bytes) (r : nat) (todo : list (bytes * nat)) (freezeCutoff removeCutoff now : Z)
| FCleanFreeze (r : nat) (todo : list (bytes * nat)) (freezeCutoff removeCutoff now : Z).

(** What the world outside contributes to a section. *)
Record choice (R : Type) := mkChoice {
  ch_now : Z;
  ch_order : MapOrder;
  ch_source : service_error + ProbeInfo; (* the discoverer *)
  ch_size : Z; (* the file's size, according to the torrent *)
  ch_runner : Z + R; (* the pipeline *)
}.
Arguments mkChoice {R}. Arguments ch_now {R}. Arguments ch_order {R}. Arguments ch_source {R}. Arguments ch_size {R}. Arguments ch_runner {R}.

Notation answer := (bytes * bytes * Z * (service_error + nat))%type.

Record world (R : Type) := mkWorld { w_s : service R; frames : list frame; answers : list answer }.
Arguments mkWorld {R}. Arguments w_s {R}. Arguments frames {R}. Arguments answers {R}.

Section World.
Context {R : Type} `{!Runner R}.
Implicit Types (s : service R) (w : world R) (ch : choice R).

(** A request that is cancelled, or fails to write, leaves the task as one that does
    not. *)
Definition use_task (u : use) (t : Task R) : Task R :=
  match u with
  | UEnsureInit audio startIndex => (EnsureInit audio startIndex t).2
  | UWithSegment index audio => (WithSegment (λ _, false) index audio (λ _, None) t).2
  | UFrozen => Frozen t
  end.

(** [shouldUseCueTimeline] is constantly false. *)
Definition shouldUseCueTimeline : bool := false.

(** Probing and building, the part of [getOrAdd] between its sections. *)
Definition build (hash fileID : bytes) (audio : Z) ch s : (service_error + nat) * service R :=
  let c := conf s in
  let '(probe, s) := Probe hash fileID (ch_source ch) (ch_size ch) (ch_now ch) s in
  match probe with
  | inl err => (inl err, s)
  | inr p =>
      match ch_runner ch with
      | inl n => (inl (PipelineFailed n), s)
      | inr r =>
          match new_task audio p None c (ch_now ch) (Some r) with
          | Some t => let '(r, s) := allocate hash fileID t s in (inr r, s)
          | None => (inl (PipelineFailed 0), s)
          end
      end
  end.

(** Disposing tasks, one after the other: what is left to do after the first. *)
Definition dispose_first (rs : list nat) s : list nat * service R :=
  match rs with [] => ([], s) | r :: rs => (rs, on_task Dispose r s) end.

Definition step_frame (f : frame) ch s : list frame * list answer * service R :=
  match f with
  | FGetOrAdd hash fileID audio =>
      if s_disposed s then ([], [(hash, fileID, audio, inl ErrServiceClosed)], s) else ([FLookup hash fileID audio], [], s)
  | FLookup hash fileID audio =>
      let '(r, s) := getOrAdd_lookup hash fileID audio (ch_now ch) s in
      (match r with Some r => [FAnswer hash fileID audio r] | None => [FBuild hash fileID audio] end, [], s)
  | FBuild hash fileID audio =>
      let '(res, s) := build hash fileID audio ch s in
      match res with
      | inl err => ([], [(hash, fileID, audio, inl err)], s)
      | inr r => ([FInsert hash fileID audio r], [], s)
      end
  | FInsert hash fileID audio r =>
      let '(res, rs, s) := getOrAdd_insert (ch_order ch) hash fileID audio (ch_now ch) r s in
      ([FRelease hash fileID audio res rs], [], s)
  | FRelease hash fileID audio res [] =>
      match res with
      | inl err => ([], [(hash, fileID, audio, inl err)], s)
      | inr r => ([FAnswer hash fileID audio r], [], s)
      end
  | FRelease hash fileID audio res rs =>
      let '(rs, s) := dispose_first rs s in ([FRelease hash fileID audio res rs], [], s)
  | FAnswer hash fileID audio r =>
      if taskMatchesRequest r hash fileID audio s then ([], [(hash, fileID, audio, inr r)], s)
      else ([FGetOrAdd hash fileID audio], [], s)
  | FDispose [] => ([], [], s)
  | FDispose rs => let '(rs, s) := dispose_first rs s in ([FDispose rs], [], s)
  | FUpdate c => let '(rs, s) := updateConfig_section (ch_order ch) c s in ([FDispose rs], [], s)
  | FSwap => let '(rs, s) := dispose_swap (ch_order ch) s in ([FClear rs], [], s)
  | FClear rs => ([FDispose rs], [], set_probeCache ∅ s)
  | FClean [] fc rc now => ([], [], set_cleanupRunning false (cleanupProbeCache now s))
  | FClean ((id, r) :: todo) fc rc now =>
      let last := task_active s r in
      (if last <? rc then [FCleanRemove id r todo fc rc now]
       else if last <? fc then [FCleanCurrent id r todo fc rc now]
       else [FClean todo fc rc now], [], s)
  | FCleanRemove id r todo fc rc now =>
      let '(removed, s) := removeInactive id r rc s in
      (if removed then [FCleanDispose r todo fc rc now] else [FClean todo fc rc now], [], s)
  | FCleanDispose r todo fc rc now => ([FClean todo fc rc now], [], on_task Dispose r s)
  | FCleanCurrent id r todo fc rc now =>
      (if isCurrentTask id r s then [FCleanFreeze r todo fc rc now] else [FClean todo fc rc now], [], s)
  | FCleanFreeze r todo fc rc now => ([FClean todo fc rc now], [], on_task (λ t, (FreezeIfInactive fc t).2) r s)
  end.

(** ** Events *)

Inductive event :=
| EGetOrAdd (hash fileID : bytes) (audio : Z)
| EShared (hash fileID : bytes) (audio : Z) (r : nat) (* a caller gets the task another call of the same key was given *)
| EGet (id : bytes) (now : Z)
| ETryRemove (id : bytes)
| EUpdateConfig (c : Config)
| EDispose
| ECleanup (o : MapOrder) (now : Z)
| EProbe (hash fileID : bytes) (ch : choice R)
| EUse (r : nat) (u : use)
| EStep (i : nat) (ch : choice R).

Definition begin (fs : list frame) w : world R := mkWorld (w_s w) (fs ++ frames w) (answers w).
Definition on_service (f : service R → service R) w : world R := mkWorld (f (w_s w)) (frames w) (answers w).

Definition twenty_minutes : Z := 20 * Conf.minute.

(** [cleanupInactive] up to its loop. *)
Definition start_cleanup (o : MapOrder) (now : Z) w : world R :=
  let s := w_s w in
  if s_disposed s || cleanupRunning s then w
  else
    let inactive := Conf.inactiveDuration (conf s) in
    let removeAfter := i64 (inactive + twenty_minutes) in
    mkWorld (set_cleanupRunning true s) (FClean (entries_in o (tasks s)) (now - inactive) (now - removeAfter) now :: frames w) (answers w).

Definition wstep (e : event) w : world R :=
  let s := w_s w in
  match e with
  | EGetOrAdd hash fileID audio =>
      if bool_decide (hash = []) || bool_decide (fileID = []) then mkWorld s (frames w) (answers w ++ [(hash, fileID, audio, inl ErrBadSource)])
      else begin [FGetOrAdd hash fileID audio] w
  | EShared hash fileID audio r => if bool_decide (hash = []) || bool_decide (fileID = []) then w else begin [FAnswer hash fileID audio r] w
  | EGet id now => on_service (λ s, (Get id now s).2) w
  | ETryRemove id => let '(r, s) := detachTask id None s in
      mkWorld s (match r with Some r => FDispose [r] :: frames w | None => frames w end) (answers w)
  | EUpdateConfig c => if s_disposed s then w else begin [FUpdate (normalized c)] w
  | EDispose => if s_disposed s then w else mkWorld (set_s_disposed true s) (FSwap :: frames w) (answers w)
  | ECleanup o now => start_cleanup o now w
  | EProbe hash fileID ch => on_service (λ s, (Probe hash fileID (ch_source ch) (ch_size ch) (ch_now ch) s).2) w
  | EUse r u => on_service (on_task (use_task u) r) w
  | EStep i ch =>
      match frames w !! i with
      | Some f => let '(fs, ans, s) := step_frame f ch s in mkWorld s (fs ++ delete i (frames w)) (answers w ++ ans)
      | None => w
      end
  end.

Definition run (es : list event) w : world R := foldl (λ w e, wstep e w) w es.
Definition world_new (c : Config) : world R := mkWorld (NewService c) [] [].
End World.
Arguments event : clear implicits.
