(* ===== verification/ServiceProps.v ===== *)
(** * The registry of tasks never loses a task

    Every task that is not disposed is either in the registry, under its own name, or held
    by a call that will dispose it or register it: [Inv], kept by every event.  With it:
    the limit on the number of tasks, what closing the service leaves, and the calls that
    run alone. *)

From S2P Require Import Prelude GoText Segment Matroska MP4Init Task TaskProps Service ServiceWorld.
#[local] Open Scope Z_scope.

(** ** Operations of a task keep it open *)

Section Keeps.
Context {R : Type} `{!Runner R}.
Implicit Types (t : Task R) (s : service R).

Definition keeps (f : Task R → Task R) : Prop := ∀ t, disposed (f t) = disposed t.

Lemma keeps_changes cs : keeps (apply_changes cs).
Proof. intros t. revert t. induction cs as [|[d|] cs IH]; intros t; [done|exact (IH (setInitMP4 d t))|exact (IH (clearInitMP4 t))]. Qed.

Lemma keeps_freeze t : disposed (freezeLocked t).2 = disposed t.
Proof.
  unfold freezeLocked. destruct (runner t) as [r|]; [|done]. destruct (disposed t || run_IsFrozen r); [done|].
  destruct (run_Frozen r) as [cs r']. simpl. by rewrite keeps_changes.
Qed.

Lemma keeps_EnsureInit call_ctx audio i t err t' : call_EnsureInit audio i call_ctx t = (err, t') → disposed t' = disposed t.
Proof. unfold call_EnsureInit. destruct (run_EnsureInit audio i call_ctx) as [[e cs] r']. intros [= _ <-]. simpl. by rewrite keeps_changes. Qed.

Lemma keeps_get index audio t res t' : get_segment index audio t = (res, t') → disposed t' = disposed t.
Proof.
  unfold get_segment, call_GetSegment. destruct (runner t); [|by intros [= _ <-]].
  destruct (run_GetSegment _ _ _) as [[e cs] r']. intros [= _ <-]. simpl. by rewrite keeps_changes.
Qed.

Lemma keeps_seek index r t err t' : seekToSegmentLocked index r t = (err, t') → disposed t' = disposed t.
Proof.
  assert (H : ∀ x b t', call_Seek x r t = (b, t') → disposed t' = disposed t).
  { intros x b u. unfold call_Seek. destruct (run_Seek x r) as [[e cs] r']. intros [= _ <-]. simpl. by rewrite keeps_changes. }
  unfold seekToSegmentLocked. destruct (timeline_Segment (Cue t) index), (Cue t);
    try (by intros [= _ <-]); destruct (call_Seek _ r t) as [b u] eqn:E; intros [= _ <-]; by eapply H.
Qed.

Lemma keeps_catch_up ctx n i audio t err t' : catch_up ctx n i audio t = (err, t') → disposed t' = disposed t.
Proof.
  revert i t. induction n as [|n IH]; intros i t; cbn [catch_up]; [by intros [= _ <-]|].
  destruct (ctx i); [by intros [= _ <-]|]. destruct (get_segment _ _ _) as [res u] eqn:E. apply keeps_get in E. simpl in E.
  destruct res; [intros [= _ <-]; exact E|]. intros H. rewrite (IH _ _ H). exact E.
Qed.

Lemma keeps_position ctx index audio r t err t' : position_runner ctx index audio r t = (err, t') → disposed t' = disposed t.
Proof.
  unfold position_runner. destruct (negb _); [intros H; apply keeps_seek in H; exact H|]. destruct (run_IsFrozen r); [apply keeps_seek|].
  destruct (_ && _); [apply keeps_seek|]. destruct (_ && _); [|by intros [= _ <-]]. cbv zeta.
  destruct (Cue t); [apply keeps_seek|]. destruct (_ && _); [apply keeps_catch_up|apply keeps_seek].
Qed.

Lemma keeps_segment ctx index audio t : disposed (segmentLocked ctx index audio t).2 = disposed t.
Proof.
  unfold segmentLocked. destruct (runner t) as [r|]; [|done]. destruct (validateSegmentIndex index t); [done|].
  destruct (position_runner ctx index audio r t) as [err u] eqn:E. apply keeps_position in E. destruct err; [done|].
  destruct (get_segment index audio u) as [res v] eqn:E'. apply keeps_get in E'. destruct res; simpl; by rewrite E'.
Qed.

Lemma keeps_use u : keeps (use_task u).
Proof.
  intros t. destruct u as [audio i|index audio|]; cbn [use_task].
  - unfold EnsureInit. set (i' := if i <? 0 then 0 else i). destruct (validateSegmentIndex i' t); [done|].
    destruct (_ && _ && _); [done|]. set (t1 := if negb (Audio t =? audio) then _ else t).
    assert (H1 : disposed t1 = disposed t) by (unfold t1; destruct (negb _); [by rewrite keeps_freeze|done]).
    destruct (runner t1) as [r|]; [|done]. destruct (call_EnsureInit audio i' r t1) as [err t2] eqn:E. apply keeps_EnsureInit in E.
    destruct err; simpl; [congruence|]. destruct (_ && _); simpl; congruence.
  - unfold WithSegment. pose proof (keeps_segment (λ _, false) index audio t) as H. by destruct (segmentLocked _ _ _ t) as [[err|seg] t'].
  - apply keeps_freeze.
Qed.

Lemma Dispose_disposed t : disposed (Dispose t) = true.
Proof.
  unfold Dispose. destruct (disposed t) eqn:E; [done|]. destruct (runner (set_disposed true t)) as [r|]; [|done].
  destruct (run_Dispose r) as [cs r']. simpl. by rewrite keeps_changes.
Qed.
End Keeps.

(** ** Who holds a task *)

Section Own.
Context {R : Type} `{!Runner R}.
Implicit Types (t : Task R) (s : service R) (held : list nat).

(** The registry holds open tasks under their names; every open task is in the registry
    or [held]; nothing is held twice, or held and registered. *)
Record Own s held : Prop := {
  own_reg : ∀ id r, tasks s !! id = Some r → id ≠ [] ∧ ∃ o, heap s !! r = Some o ∧ o_ID o = id ∧ disposed (o_task o) = false;
  own_open : ∀ r o, heap s !! r = Some o → disposed (o_task o) = false → tasks s !! o_ID o = Some r ∨ r ∈ held;
  own_once : NoDup held;
  own_held : ∀ r, r ∈ held → (r < length (heap s))%nat ∧ ∀ id, tasks s !! id ≠ Some r;
}.

#[global] Instance Own_perm s : Proper ((≡ₚ) ==> iff) (Own s).
Proof.
  assert (H : ∀ h1 h2, h1 ≡ₚ h2 → Own s h1 → Own s h2).
  { intros h1 h2 Hp [H1 H2 H3 H4]. split; [done| |by rewrite <- Hp|].
    - intros r o Hr Ho. rewrite <- Hp. by apply H2.
    - intros r Hr. apply H4. by rewrite Hp. }
  intros h1 h2 Hp. split; apply H; [done|by symmetry].
Qed.

Lemma on_task_lookup f r s x : heap (on_task f r s) !! x =
  if decide (r = x) then (λ o, mkObject (o_ID o) (o_FileID o) (f (o_task o))) <$> heap s !! x else heap s !! x.
Proof. cbn [on_task set_heap heap]. case_decide as E; [subst; apply list_lookup_alter_eq|by apply list_lookup_alter_ne]. Qed.

Lemma on_task_object f r s x o : heap (on_task f r s) !! x = Some o →
  ∃ o', heap s !! x = Some o' ∧ o_ID o = o_ID o' ∧ o_FileID o = o_FileID o' ∧ o_task o = (if decide (r = x) then f (o_task o') else o_task o').
Proof.
  rewrite on_task_lookup. case_decide; [|intros ->; by eexists].
  destruct (heap s !! x) as [o'|]; [|done]. intros [= <-]. by eexists.
Qed.

Lemma own_on_task f r s held : keeps f → Own s held → Own (on_task f r s) held.
Proof.
  intros Hf [H1 H2 H3 H4]. split; [| |done|].
  - intros id x Hx. destruct (H1 id x Hx) as (Hid&o&Ho&HI&Hd). split; [done|]. rewrite on_task_lookup, Ho.
    case_decide; [|by eexists]. eexists. split; [done|]. simpl. by rewrite Hf.
  - intros x o Hx Hd. apply on_task_object in Hx as (o'&Ho'&HI&_&Ht). rewrite HI. apply H2; [done|].
    rewrite Ht in Hd. case_decide; [by rewrite Hf in Hd|done].
  - intros x Hx. cbn [on_task set_heap heap]. rewrite length_alter. by apply H4.
Qed.

Lemma own_dispose r s held : Own s (r :: held) → Own (on_task Dispose r s) held.
Proof.
  intros [H1 H2 H3 H4]. apply NoDup_cons in H3 as [Hr H3]. destruct (H4 r (list_elem_of_here _ _)) as [Hlt Hnr]. split; [| |done|].
  - intros id x Hx. destruct (H1 id x Hx) as (Hid&o&Ho&HI&Hd). split; [done|]. rewrite on_task_lookup, Ho.
    rewrite decide_False; [by eexists|]. intros ->. by eapply Hnr.
  - intros x o Hx Hd. apply on_task_object in Hx as (o'&Ho'&HI&_&Ht). rewrite HI. rewrite Ht in Hd.
    case_decide as E; [by rewrite Dispose_disposed in Hd|]. destruct (H2 x o' Ho' Hd) as [?|[->|?]%elem_of_cons]; [by left|done|by right].
  - intros x Hx. cbn [on_task set_heap heap]. rewrite length_alter. apply H4. by right.
Qed.

Lemma own_allocate hash fileID t s held : disposed t = false → Own s held →
  let '(r, s') := allocate hash fileID t s in Own s' (r :: held).
Proof.
  intros Ht [H1 H2 H3 H4]. cbn [allocate]. split; cbn [set_heap heap tasks].
  - intros id x Hx. destruct (H1 id x Hx) as (Hid&o&Ho&HI&Hd). split; [done|]. exists o. split; [|done]. by apply lookup_app_l_Some.
  - intros x o Hx Hd. apply lookup_app_Some in Hx as [Hx|[Hge Hx]].
    + destruct (H2 x o Hx Hd); [by left|right; by right].
    + right. apply list_lookup_singleton_Some in Hx as [Hx _]. replace x with (length (heap s)) by lia. by left.
  - apply NoDup_cons. split; [|done]. intros Hin. apply H4 in Hin as [Hlt _]. lia.
  - intros x [->|Hx]%elem_of_cons; rewrite length_app; simpl; split; [lia| | |].
    + intros id Hid. destruct (H1 id _ Hid) as (_&o&Ho&_). apply lookup_lt_Some in Ho. lia.
    + destruct (H4 x Hx). lia.
    + apply H4, Hx.
Qed.

Lemma own_insert hash r s held o : hash ≠ [] → heap s !! r = Some o → o_ID o = hash → disposed (o_task o) = false →
  Own s (r :: held) → Own (set_tasks (<[hash := r]> (tasks s)) s) (match tasks s !! hash with Some old => old :: held | None => held end).
Proof.
  intros Hne Hr HI Hd [H1 H2 H3 H4]. apply NoDup_cons in H3 as [Hrh H3]. destruct (H4 r (list_elem_of_here _ _)) as [Hlt Hnr].
  assert (Hold : ∀ old, tasks s !! hash = Some old → old ∉ held ∧ old ≠ r).
  { intros old Ho. split; [|by intros ->; eapply Hnr]. intros Hin. destruct (H4 old (list_elem_of_further _ _ _ Hin)) as [_ Hn]. by eapply Hn. }
  split; cbn [set_tasks tasks heap].
  - intros id x [[<- <-]|[Hn Hx]]%lookup_insert_Some; [by eauto|by apply H1].
  - intros x o' Hx Hd'. destruct (decide (o_ID o' = hash)) as [E|Hn].
    + rewrite E, lookup_insert_eq. destruct (H2 x o' Hx Hd') as [Hreg|[->|Hin]%elem_of_cons].
      * rewrite E in Hreg. rewrite Hreg. right. by left.
      * by left.
      * right. destruct (tasks s !! hash); [by right|done].
    + rewrite lookup_insert_ne by done. destruct (H2 x o' Hx Hd') as [Hreg|[->|Hin]%elem_of_cons]; [by left| |].
      * rewrite Hr in Hx. injection Hx as <-. done.
      * right. destruct (tasks s !! hash); [by right|done].
  - destruct (tasks s !! hash) as [old|] eqn:E; [|done]. apply NoDup_cons. split; [by apply Hold|done].
  - intros x Hx. assert (Hx' : x ∈ held ∨ tasks s !! hash = Some x).
    { destruct (tasks s !! hash); [apply elem_of_cons in Hx as [->|Hx]; [by right|by left]|by left]. }
    destruct Hx' as [Hx'|Hx'].
    + destruct (H4 x (list_elem_of_further _ _ _ Hx')) as [? Hn]. split; [done|]. intros id [[<- ->]|[_ Hid]]%lookup_insert_Some; [done|by eapply Hn].
    + destruct (H1 _ _ Hx') as (_&o'&Ho'&HI'&_). split; [by eapply lookup_lt_Some|].
      intros id [[<- ->]|[Hn Hid]]%lookup_insert_Some; [by eapply Hnr|]. destruct (H1 _ _ Hid) as (_&o''&Ho''&HI''&_). congruence.
Qed.

Lemma own_delete id r s held : tasks s !! id = Some r → Own s held → Own (set_tasks (delete id (tasks s)) s) (r :: held).
Proof.
  intros Hr [H1 H2 H3 H4]. destruct (H1 id r Hr) as (Hne&o&Ho&HI&Hd). split; cbn [set_tasks tasks heap].
  - intros id' x [_ Hx]%lookup_delete_Some. by apply H1.
  - intros x o' Hx Hd'. destruct (H2 x o' Hx Hd') as [Hreg|Hin]; [|right; by right].
    destruct (decide (o_ID o' = id)) as [E|Hn]; [|left; by rewrite lookup_delete_ne]. right. rewrite E in Hreg. replace x with r by congruence. by left.
  - apply NoDup_cons. split; [|done]. intros Hin. destruct (H4 r Hin) as [_ Hn]. by eapply Hn.
  - intros x [->|Hx]%elem_of_cons.
    + split; [by eapply lookup_lt_Some|]. intros id' [Hn Hid]%lookup_delete_Some. destruct (H1 _ _ Hid) as (_&o'&Ho'&HI'&_). congruence.
    + destruct (H4 x Hx) as [? Hn]. split; [done|]. intros id' [_ Hid]%lookup_delete_Some. by eapply Hn.
Qed.

Lemma own_fields s s' held : tasks s' = tasks s → heap s' = heap s → Own s held → Own s' held.
Proof. intros Ht Hh [H1 H2 H3 H4]. split; rewrite ?Ht, ?Hh; done. Qed.

Lemma own_swap o s held : Own s held → Own (set_tasks ∅ s) ((entries_in o (tasks s)).*2 ++ held).
Proof.
  intros HO. rewrite (fmap_Permutation snd _ _ (entries_perm o (tasks s))).
  assert (H : ∀ m s held, tasks s = m → Own s held → Own (set_tasks ∅ s) ((map_to_list m).*2 ++ held)); [|by apply H].
  clear. induction m as [|id r m Hm IH] using map_ind; intros s held Ht HO.
  - rewrite map_to_list_empty. eapply own_fields; [| |exact HO]; [by rewrite Ht|done].
  - rewrite map_to_list_insert by done. cbn [fmap list_fmap snd app].
    assert (HO' : Own (set_tasks m s) (r :: held)).
    { replace m with (delete id (tasks s)) by (rewrite Ht; by rewrite delete_insert_id). apply own_delete; [|done]. by rewrite Ht, lookup_insert_eq. }
    specialize (IH (set_tasks m s) (r :: held) eq_refl HO'). rewrite <- Permutation_middle in IH. exact IH.
Qed.
End Own.

(** ** Eviction *)

Section Evict.
Context {R : Type} `{!Runner R}.
Implicit Types (t : Task R) (s : service R) (held : list nat).

(** [r] may go before [r']. *)
Definition no_later s (r r' : nat) : Prop := task_active s r <= task_active s r'.

Lemma pick_oldest s p entries : Forall (λ e, e.1 ≠ [] ∧ task_disposed s e.2 = false) entries →
  match oldestEvictableTask s p entries with
  | (id, Some r) => id ≠ [] ∧ id ≠ p ∧ (id, r) ∈ entries ∧ ∀ e, e ∈ entries → e.1 ≠ p → no_later s r e.2
  | (id, None) => id = [] ∧ ∀ e, e ∈ entries → e.1 = p
  end.
Proof.
  unfold oldestEvictableTask. induction entries as [|[id r] entries IH] using rev_ind; intros Hf.
  { split; [done|]. intros e He. by apply elem_of_nil in He. }
  apply Forall_app in Hf as [Hf Hx]. specialize (IH Hf). apply Forall_singleton in Hx as [Hid Hd]. simpl in Hid, Hd.
  rewrite foldl_app. cbn [foldl].
  assert (Hacc : ∀ acc, acc = foldl (pick s p) ([], None, 0, false) entries →
    acc.2 = false ∧ match acc.1.1.2 with Some r => acc.1.2 = task_active s r | None => True end).
  { clear IH. intros acc ->. induction entries as [|[id' r'] entries IHe] using rev_ind; [done|]. apply Forall_app in Hf as [Hf Hx].
    apply Forall_singleton in Hx as [_ Hd']. simpl in Hd'. specialize (IHe Hf). rewrite foldl_app. cbn [foldl].
    destruct (foldl (pick s p) _ entries) as [[[a b] c] d]. unfold pick. case_bool_decide; [done|]. rewrite Hd'. by destruct (_ || _). }
  destruct (foldl (pick s p) _ entries) as [[[oid ot] oa] od] eqn:E. destruct (Hacc _ eq_refl) as [Hod Hoa]. simpl in Hod, Hoa. subst od.
  unfold pick. case_bool_decide as Ep.
  { destruct ot as [ro|].
    - destruct IH as (?&?&?&Hmin). split_and!; [done|done|set_solver|]. intros e [He| ->%list_elem_of_singleton]%elem_of_app Hne; [by apply Hmin|done].
    - destruct IH as [? Hall]. split; [done|]. intros e [He| ->%list_elem_of_singleton]%elem_of_app; [by apply Hall|done]. }
  rewrite Hd. cbn [andb orb negb Bool.eqb]. rewrite orb_false_r. case_bool_decide as Eo; cbn [orb].
  - destruct ot as [ro|]; [by destruct IH|]. destruct IH as [_ Hall]. split_and!; [done|done|set_solver|].
    intros e [He| ->%list_elem_of_singleton]%elem_of_app Hne; [by apply Hall in He|]. unfold no_later. simpl. lia.
  - destruct ot as [ro|]; [|by destruct IH]. destruct IH as (?&?&?&Hmin). destruct (task_active s r <? oa) eqn:Elt; reflect_bools.
    + split_and!; [done|done|set_solver|]. intros e [He| ->%list_elem_of_singleton]%elem_of_app Hne; [|unfold no_later; simpl; lia].
      specialize (Hmin e He Hne). unfold no_later in *. lia.
    + split_and!; [done|done|set_solver|]. intros e [He| ->%list_elem_of_singleton]%elem_of_app Hne; [by apply Hmin|]. unfold no_later. simpl. lia.
Qed.

Lemma own_task_disposed s held id r : Own s held → tasks s !! id = Some r → task_disposed s r = false.
Proof. intros HO Hr. destruct (own_reg _ _ HO id r Hr) as (_&o&Ho&_&Hd). unfold task_disposed. by rewrite Ho. Qed.

Lemma own_entries s held o : Own s held → Forall (λ e, e.1 ≠ [] ∧ task_disposed s e.2 = false) (entries_in o (tasks s)).
Proof.
  intros HO. apply Forall_forall. intros [id r] Hin. rewrite entries_perm in Hin. apply elem_of_map_to_list in Hin. simpl.
  split; [by destruct (own_reg _ _ HO id r Hin)|by eapply own_task_disposed].
Qed.

(** What an eviction leaves: the tasks given away were all used no later than those
    that stay. *)
Definition evicts (limit : Z) (p : bytes) s held (ev : list nat) s' : Prop :=
  Own s' (ev ++ held) ∧ s' = set_tasks (tasks s') s ∧ tasks s' ⊆ tasks s ∧
  (∀ r, r ∈ ev ↔ ∃ id, tasks s !! id = Some r ∧ tasks s' !! id = None) ∧
  (∀ r id r', r ∈ ev → tasks s' !! id = Some r' → id ≠ p → no_later s r r') ∧
  tasks s' !! p = tasks s !! p ∧
  (Z.of_nat (size (tasks s')) <= limit ∨ ∀ id, is_Some (tasks s' !! id) → id = p) ∧
  (Z.of_nat (size (tasks s)) <= limit → ev = []) ∧
  (ev ≠ [] → limit <= Z.of_nat (size (tasks s'))).

Lemma evict_loop_spec o limit p s held fuel acc : Own s held → (size (tasks s) < fuel)%nat →
  ∃ ev s', evict_loop fuel o limit p acc s = (acc ++ ev, s') ∧ evicts limit p s held ev s'.
Proof.
  revert s held acc. induction fuel as [|fuel IH]; intros s held acc HO Hf; [lia|]. cbn [evict_loop].
  assert (Hnone : ∀ P : Prop, P → (Z.of_nat (size (tasks s)) <= limit ∨ ∀ id, is_Some (tasks s !! id) → id = p) → evicts limit p s held [] s).
  { intros _ _ Hd. unfold evicts. split_and!; [done|by destruct s|done| |by intros r id r' Hin%elem_of_nil|done|done|done|done].
    intros r. split; [by intros ?%elem_of_nil|]. intros (id&H1&H2). congruence. }
  destruct (_ <=? limit) eqn:El; reflect_bools; [exists [], s; rewrite app_nil_r; split; [done|apply (Hnone True); [done|by left]]|].
  pose proof (pick_oldest s p _ (own_entries s held o HO)) as Hp. destruct (oldestEvictableTask s p _) as [id [r|]].
  - destruct Hp as (Hid&Hne&Hin&Hmin). rewrite bool_decide_false by done. rewrite entries_perm in Hin. apply elem_of_map_to_list in Hin.
    set (s1 := set_tasks (delete id (tasks s)) s). assert (HO1 : Own s1 (r :: held)) by by apply own_delete.
    assert (Hsz : size (tasks s) = S (size (tasks s1))).
    { cbn [s1 set_tasks tasks]. rewrite map_size_delete, Hin. assert (size (tasks s) ≠ 0)%nat; [|lia].
      intros Hz%map_size_empty_inv. rewrite Hz in Hin. by rewrite lookup_empty in Hin. }
    destruct (IH s1 (r :: held) (acc ++ [r]) HO1 ltac:(lia)) as (ev&s'&->&H1&H2&H3&H4&H5&H6&H7&H8&H9).
    exists (r :: ev), s'. rewrite <- app_assoc. split; [done|]. unfold evicts.
    assert (Hgone : tasks s' !! id = None).
    { destruct (tasks s' !! id) as [x|] eqn:E; [|done]. apply (lookup_weaken _ _ _ _ E) in H3. cbn [s1 set_tasks tasks] in H3. by rewrite lookup_delete_eq in H3. }
    split_and!.
    + rewrite <- Permutation_middle in H1. exact H1.
    + rewrite H2. by destruct s.
    + etrans; [exact H3|]. apply delete_subseteq.
    + intros x. split.
      * intros [->|Hx]%elem_of_cons; [by exists id|]. apply H4 in Hx as (id'&Hx&Hn). cbn [s1 set_tasks tasks] in Hx. apply lookup_delete_Some in Hx as [_ Hx]. by exists id'.
      * intros (id'&Hx&Hn). destruct (decide (id' = id)) as [->|Hd]; [rewrite Hx in Hin; injection Hin as ->; by left|].
        right. apply H4. exists id'. split; [|done]. cbn [s1 set_tasks tasks]. by rewrite lookup_delete_ne.
    + intros x id' r' [->|Hx]%elem_of_cons Hr' Hnp.
      * apply (Hmin (id', r')); [|done]. rewrite entries_perm. apply elem_of_map_to_list.
        apply (lookup_weaken _ _ _ _ Hr') in H3. cbn [s1 set_tasks tasks] in H3. by apply lookup_delete_Some in H3 as [_ ?].
      * by apply (H5 x id' r').
    + rewrite H6. cbn [s1 set_tasks tasks]. by rewrite lookup_delete_ne.
    + done.
    + lia.
    + intros _. destruct ev as [|? ?]; [|by apply H9].
      assert (tasks s' = tasks s1) as ->; [|lia]. apply map_eq. intros x. destruct (tasks s1 !! x) as [y|] eqn:Ey.
      * destruct (tasks s' !! x) as [y'|] eqn:Ey'; [apply (lookup_weaken _ _ _ _ Ey') in H3; congruence|].
        assert (y ∈ []) as ?%elem_of_nil by (apply H4; by exists x). done.
      * destruct (tasks s' !! x) as [y'|] eqn:Ey'; [apply (lookup_weaken _ _ _ _ Ey') in H3; congruence|done].
  - destruct Hp as [-> Hall]. rewrite bool_decide_true by done. exists [], s. rewrite app_nil_r. split; [done|]. apply (Hnone True); [done|]. right.
    intros id [r Hr]. apply (Hall (id, r)). rewrite entries_perm. by apply elem_of_map_to_list.
Qed.

Lemma evict_result o p s held : Own s held →
  let limit := Conf.MaxTasks (normalized (conf s)) in
  ∃ ev s', evictTasksForLimitLocked o p s = (ev, s') ∧
    if 0 <? limit then evicts limit p s held ev s' else ev = [] ∧ s' = s.
Proof.
  intros HO. cbv zeta. unfold evictTasksForLimitLocked. set (limit := Conf.MaxTasks _). destruct (0 <? limit) eqn:E; reflect_bools.
  - rewrite (proj2 (Z.leb_gt limit 0)) by lia. cbn [orb]. destruct (evict_loop_spec o limit p s held (S (size (tasks s))) [] HO ltac:(lia)) as (ev&s'&Eq&Hev).
    destruct (_ <=? limit) eqn:El; [|by exists ev, s']. exists [], s. split; [done|]. cbn [evict_loop] in Eq. rewrite El in Eq. by injection Eq as <- <-.
  - rewrite (proj2 (Z.leb_le limit 0)) by lia. by exists [], s.
Qed.
End Evict.

(** ** The invariant *)

Definition owned (f : frame) : list nat :=
  match f with
  | FInsert _ _ _ r | FCleanDispose r _ _ _ _ => [r]
  | FRelease _ _ _ _ rs | FDispose rs | FClear rs => rs
  | _ => []
  end.

Definition holds (fs : list frame) : list nat := concat (owned <$> fs).

Definition tidying (f : frame) : bool :=
  match f with FClean _ _ _ _ | FCleanRemove _ _ _ _ _ _ | FCleanDispose _ _ _ _ _ | FCleanCurrent _ _ _ _ _ _ | FCleanFreeze _ _ _ _ _ => true | _ => false end.

Definition closing (f : frame) : bool := match f with FSwap => true | _ => false end.
Definition forgetting (f : frame) : bool := match f with FSwap | FClear _ => true | _ => false end.

Section Inv.
Context {R : Type} `{!Runner R}.
Implicit Types (t : Task R) (s : service R) (w : world R) (ch : choice R).

(** A task that waits to be registered is open and carries its names. *)
Definition frame_ok s (f : frame) : Prop :=
  match f with
  | FGetOrAdd h _ _ | FLookup h _ _ | FBuild h _ _ | FRelease h _ _ _ _ | FAnswer h _ _ _ => h ≠ []
  | FInsert h fi _ r => h ≠ [] ∧ ∃ o, heap s !! r = Some o ∧ o_ID o = h ∧ o_FileID o = fi ∧ disposed (o_task o) = false
  | _ => True
  end.

Definition limit_of s : Z := Conf.MaxTasks (normalized (conf s)).

Record Inv s (fs : list frame) : Prop := {
  inv_own : Own s (holds fs);
  inv_frames : Forall (frame_ok s) fs;
  inv_limit : 0 < limit_of s → Z.of_nat (size (tasks s)) <= limit_of s;
  inv_closed : s_disposed s = true → tasks s = ∅ ∨ existsb closing fs = true;
  inv_forgot : s_disposed s = true → probeCache s = ∅ ∨ existsb forgetting fs = true;
  inv_tidy : length (List.filter tidying fs) = if cleanupRunning s then 1%nat else 0%nat;
}.

Lemma existsb_perm (P : frame → bool) fs1 fs2 : fs1 ≡ₚ fs2 → existsb P fs1 = existsb P fs2.
Proof.
  intros Hp. apply eq_true_iff_eq. rewrite !existsb_exists.
  split; intros (x&Hx&?); (exists x; split; [|done]); apply list_elem_of_In; apply list_elem_of_In in Hx; [by rewrite <- Hp|by rewrite Hp].
Qed.

Lemma holds_perm fs1 fs2 : fs1 ≡ₚ fs2 → holds fs1 ≡ₚ holds fs2.
Proof. intros Hp. unfold holds. by rewrite Hp. Qed.

Lemma inv_perm s fs1 fs2 : fs1 ≡ₚ fs2 → Inv s fs1 → Inv s fs2.
Proof.
  intros Hp [H1 H2 H3 H4 H5 H6]. split; [|by rewrite <- Hp|done| | |].
  - by rewrite <- (holds_perm _ _ Hp).
  - by rewrite <- (existsb_perm _ _ _ Hp).
  - by rewrite <- (existsb_perm _ _ _ Hp).
  - by rewrite <- (Permutation_length (filter_perm _ _ _ Hp)).
Qed.

(** What every section leaves alone in frames that do not take part. *)
Definition preserves s s' : Prop :=
  ∀ r o, heap s !! r = Some o → ∃ o', heap s' !! r = Some o' ∧ o_ID o' = o_ID o ∧ o_FileID o' = o_FileID o ∧ disposed (o_task o') = disposed (o_task o).

Lemma frame_ok_preserves s s' f : preserves s s' → frame_ok s f → frame_ok s' f.
Proof.
  intros Hp. destruct f; try done. cbn [frame_ok]. intros (?&o&Ho&?&?&?). split; [done|].
  destruct (Hp _ _ Ho) as (o'&?&?&?&?). exists o'. split_and!; congruence.
Qed.

Lemma frames_ok_preserves s s' fs : preserves s s' → Forall (frame_ok s) fs → Forall (frame_ok s') fs.
Proof. intros Hp Hf. eapply Forall_impl; [exact Hf|]. intros f. by apply frame_ok_preserves. Qed.

Lemma preserves_heap s s' : heap s' = heap s → preserves s s'.
Proof. intros E r o Ho. rewrite E. by exists o. Qed.

Lemma preserves_on_task f r s : keeps f → preserves s (on_task f r s).
Proof.
  intros Hf x o Ho. rewrite on_task_lookup, Ho. case_decide; [|by exists o]. eexists. split; [done|]. simpl. by rewrite Hf.
Qed.

(** Disposing a task that no frame waits to register. *)
Lemma frames_ok_dispose r s fs held : Own s (r :: holds fs ++ held) → Forall (frame_ok s) fs → Forall (frame_ok (on_task Dispose r s)) fs.
Proof.
  intros HO Hf. pose proof (own_once _ _ HO) as Hnd. apply NoDup_cons in Hnd as [Hr _].
  rewrite Forall_forall in *. intros f Hin. specialize (Hf f Hin). destruct f; try done. cbn [frame_ok] in *.
  destruct Hf as (?&o&Ho&?&?&?). split; [done|]. exists o. split; [|done]. rewrite on_task_lookup, decide_False; [done|].
  intros ->. apply Hr. apply elem_of_app. left. unfold holds. apply list_elem_of_In, in_concat.
  eexists. split; [apply list_elem_of_In, list_elem_of_fmap_2, Hin|by left].
Qed.

(** ** Sections keep the invariant *)

Lemma holds_app fs1 fs2 : holds (fs1 ++ fs2) = holds fs1 ++ holds fs2.
Proof. unfold holds. by rewrite fmap_app, concat_app. Qed.

(** A section that takes no part in closing the service. *)
Record quiet s s' : Prop := {
  q_disposed : s_disposed s' = s_disposed s;
  q_cleanup : cleanupRunning s' = cleanupRunning s;
  q_probes : s_disposed s = true → probeCache s = ∅ → probeCache s' = ∅;
  q_tasks : s_disposed s = true → tasks s = ∅ → tasks s' = ∅;
}.

Lemma quiet_refl s : quiet s s.
Proof. by split. Qed.

Lemma quiet_trans s1 s2 s3 : quiet s1 s2 → quiet s2 s3 → quiet s1 s3.
Proof. intros [] []. split; try congruence; intros Hd H; rewrite ?q_disposed1 in *; naive_solver congruence. Qed.

Definition count_tidy (fs : list frame) : nat := length (List.filter tidying fs).

Lemma inv_replace s s' f fs' fs : Inv s (f :: fs) → quiet s s' →
  Own s' (holds fs' ++ holds fs) → Forall (frame_ok s') (fs' ++ fs) →
  (0 < limit_of s' → Z.of_nat (size (tasks s')) <= limit_of s') →
  existsb closing fs' = closing f → existsb forgetting fs' = forgetting f → count_tidy fs' = (if tidying f then 1%nat else 0%nat) →
  Inv s' (fs' ++ fs).
Proof.
  intros [H1 H2 H3 H4 H5 H6] [] HO Hok Hl Hc Hf Ht. split.
  - by rewrite holds_app.
  - done.
  - done.
  - rewrite q_disposed0. intros Hd. rewrite existsb_app, Hc. destruct (H4 Hd) as [He|He]; [left; by apply q_tasks0|right; exact He].
  - rewrite q_disposed0. intros Hd. rewrite existsb_app, Hf. destruct (H5 Hd) as [He|He]; [left; by apply q_probes0|right; exact He].
  - rewrite q_cleanup0, <- H6. rewrite List.filter_app, length_app. fold (count_tidy fs'). rewrite Ht. simpl. by destruct (tidying f).
Qed.

(** The common cases: the state does not change, or only a task does. *)
Lemma inv_frame s f fs' fs : Inv s (f :: fs) → holds fs' ≡ₚ owned f → Forall (frame_ok s) fs' →
  existsb closing fs' = closing f → existsb forgetting fs' = forgetting f → count_tidy fs' = (if tidying f then 1%nat else 0%nat) →
  Inv s (fs' ++ fs).
Proof.
  intros HI Hh Hok Hc Hf Ht. pose proof (inv_frames _ _ HI) as Hfr. apply Forall_cons in Hfr as [_ Hfr].
  eapply inv_replace; [done|apply quiet_refl| | |by apply HI|done|done|done].
  - rewrite Hh. exact (inv_own _ _ HI).
  - by apply Forall_app.
Qed.

Lemma quiet_on_task f r s : quiet s (on_task f r s).
Proof. by split. Qed.

Lemma inv_on_task g r s fs : keeps g → Inv s fs → Inv (on_task g r s) fs.
Proof.
  intros Hg [H1 H2 H3 H4 H5 H6]. split; try done; [by apply own_on_task|].
  eapply frames_ok_preserves; [by apply preserves_on_task|done].
Qed.

Lemma inv_dispose r s f fs' fs : Inv s (f :: fs) → owned f ≡ₚ r :: holds fs' →
  Forall (λ f', match f' with FInsert _ _ _ _ => False | _ => frame_ok s f' end) fs' →
  existsb closing fs' = closing f → existsb forgetting fs' = forgetting f → count_tidy fs' = (if tidying f then 1%nat else 0%nat) →
  Inv (on_task Dispose r s) (fs' ++ fs).
Proof.
  intros HI Hh Hok Hc Hf Ht. pose proof (inv_frames _ _ HI) as Hfr. apply Forall_cons in Hfr as [_ Hfr].
  assert (HO : Own s (r :: holds fs' ++ holds fs)).
  { rewrite app_comm_cons, <- Hh. exact (inv_own _ _ HI). }
  eapply inv_replace; [done|apply quiet_on_task| | |by apply HI|done|done|done].
  - by apply own_dispose.
  - apply Forall_app. split.
    + eapply Forall_impl; [exact Hok|]. by intros [].
    + eapply frames_ok_dispose; [|done]. rewrite (Permutation_app_comm (holds fs)). exact HO.
Qed.
End Inv.

Section Steps.
Context {R : Type} `{!Runner R}.
Implicit Types (t : Task R) (s : service R) (w : world R) (ch : choice R).

(** Sections that only touch the cache of probes. *)
Definition probing s s' : Prop := quiet s s' ∧ conf s' = conf s ∧ tasks s' = tasks s ∧ heap s' = heap s.

Lemma probing_refl s : probing s s.
Proof. split_and!; [apply quiet_refl|done|done|done]. Qed.

Lemma probing_trans s1 s2 s3 : probing s1 s2 → probing s2 s3 → probing s1 s3.
Proof.
  intros (Q1&C1&T1&H1) (Q2&C2&T2&H2). destruct Q1 as [D1 L1 P1 K1], Q2 as [D2 L2 P2 K2].
  split_and!; [|congruence|congruence|congruence]. split; [congruence|congruence| |].
  - intros Hd He. apply P2; [congruence|by apply P1].
  - intros Hd He. apply K2; [congruence|by apply K1].
Qed.

Lemma setCachedProbe_probing hash fileID p now s : probing s (setCachedProbe hash fileID p now s).
Proof. unfold setCachedProbe. destruct (s_disposed s) eqn:E; [apply probing_refl|]. split_and!; [|done|done|done]. split; try done. cbn. congruence. Qed.

Lemma cachedProbe_probing hash fileID size now s : probing s (cachedProbe hash fileID size now s).2.
Proof.
  unfold cachedProbe, getCachedProbe. destruct (probeCache s !! _) as [e|] eqn:E; [|apply probing_refl].
  destruct (negb _).
  { split_and!; [|done|done|done]. split; try done. cbn. intros _ ->. apply delete_empty. }
  destruct (validateProbe _ _); [apply probing_refl|apply setCachedProbe_probing].
Qed.

Lemma Probe_probing hash fileID source size now s : probing s (Probe hash fileID source size now s).2.
Proof.
  unfold Probe. destruct (_ || _); [apply probing_refl|]. destruct (s_disposed s); [apply probing_refl|].
  pose proof (cachedProbe_probing hash fileID size now s) as Hc. destruct (cachedProbe _ _ _ _ s) as [[res|] s1]; [exact Hc|].
  simpl in Hc. destruct source as [err|p]; [exact Hc|]. destruct (validateProbe _ _); [exact Hc|].
  set (s2 := setCachedProbe hash fileID _ now s1). assert (Hs2 : probing s s2) by (eapply probing_trans; [exact Hc|apply setCachedProbe_probing]).
  destruct (validateProbe _ _); [exact Hs2|]. eapply probing_trans; [exact Hs2|apply setCachedProbe_probing].
Qed.

Lemma inv_probing s s' fs : probing s s' → Inv s fs → Inv s' fs.
Proof.
  intros ([D L P K]&C&T&H) [H1 H2 H3 H4 H5 H6]. split.
  - by eapply own_fields.
  - eapply frames_ok_preserves; [by apply preserves_heap|done].
  - unfold limit_of in *. by rewrite C, T.
  - rewrite D, T. done.
  - rewrite D. intros Hd. destruct (H5 Hd) as [He|He]; [left; by apply P|by right].
  - by rewrite L.
Qed.

Lemma inv_build hash fileID audio ch s fs : Inv s (FBuild hash fileID audio :: fs) →
  let '(res, s') := build hash fileID audio ch s in
  Inv s' (match res with inl _ => fs | inr r => FInsert hash fileID audio r :: fs end).
Proof.
  intros HI. pose proof (inv_frames _ _ HI) as Hfr. apply Forall_cons in Hfr as [Hne Hfr]. cbn [frame_ok] in Hne.
  unfold build. pose proof (Probe_probing hash fileID (ch_source ch) (ch_size ch) (ch_now ch) s) as Hp.
  destruct (Probe _ _ _ _ _ s) as [probe s1]. simpl in Hp. pose proof (inv_probing _ _ _ Hp HI) as HI1.
  assert (Hdrop : Inv s1 fs) by (apply (inv_frame s1 (FBuild hash fileID audio) []); [done|done|constructor|done|done|done]).
  destruct probe as [err|p]; [exact Hdrop|]. destruct (ch_runner ch) as [n|r]; [exact Hdrop|].
  destruct (new_task audio p None (conf s) (ch_now ch) (Some r)) as [t|] eqn:Et; [|exact Hdrop].
  assert (Ht : disposed t = false) by (unfold new_task, NewTask in Et; by injection Et as <-).
  cbn [allocate]. apply (inv_replace s1 _ (FBuild hash fileID audio) [FInsert hash fileID audio (length (heap s1))]); try done.
  - apply (own_allocate hash fileID t s1 (holds fs) Ht). exact (inv_own _ _ Hdrop).
  - apply Forall_cons. split.
    + cbn [frame_ok set_heap heap]. split; [done|]. eexists. split; [apply list_lookup_middle; done|done].
    + eapply frames_ok_preserves; [|exact (inv_frames _ _ Hdrop)]. intros x o Ho. exists o. split; [|done]. cbn [set_heap heap]. by apply lookup_app_l_Some.
  - exact (inv_limit _ _ Hdrop).
Qed.


(** The limit holds after an eviction that protects one task at most. *)
Lemma evicts_limit limit p s held ev s' : 0 < limit → evicts limit p s held ev s' → Z.of_nat (size (tasks s')) <= limit.
Proof.
  intros Hl (_&_&_&_&_&_&[H|H]&_); [done|]. assert (size (tasks s') ≤ 1)%nat; [|lia].
  destruct (tasks s' !! p) as [r|] eqn:E.
  - assert (tasks s' = {[p := r]}) as ->; [|by rewrite map_size_singleton]. apply map_eq. intros id. destruct (decide (id = p)) as [->|Hn].
    + by rewrite lookup_singleton_eq.
    + rewrite lookup_singleton_ne by done. destruct (tasks s' !! id) eqn:E'; [|done]. exfalso. apply Hn, H. by eexists.
  - assert (tasks s' = ∅) as ->; [|rewrite map_size_empty; lia]. apply map_eq. intros id. rewrite lookup_empty.
    destruct (tasks s' !! id) eqn:E'; [|done]. assert (id = p) as -> by (apply H; by eexists). congruence.
Qed.

Lemma evict_limit o p s held : Own s held →
  ∃ ev s', evictTasksForLimitLocked o p s = (ev, s') ∧ Own s' (ev ++ held) ∧ s' = set_tasks (tasks s') s ∧ tasks s' ⊆ tasks s ∧
    (0 < limit_of s → Z.of_nat (size (tasks s')) <= limit_of s).
Proof.
  intros HO. destruct (evict_result o p s held HO) as (ev&s'&Eq&Hs). fold (limit_of s) in Hs. exists ev, s'. split; [done|].
  destruct (0 <? limit_of s) eqn:E; reflect_bools.
  - pose proof (evicts_limit _ _ _ _ _ _ E Hs). by destruct Hs as (?&?&?&_).
  - destruct Hs as [-> ->]. split_and!; [done|by destruct s|done|lia].
Qed.

Lemma inv_insert o hash fileID audio now r s fs : Inv s (FInsert hash fileID audio r :: fs) →
  let '(res, rs, s') := getOrAdd_insert o hash fileID audio now r s in Inv s' (FRelease hash fileID audio res rs :: fs).
Proof.
  intros HI. pose proof (inv_frames _ _ HI) as Hfr. apply Forall_cons in Hfr as [(Hne&ob&Hob&HID&HF&Hd) Hfr].
  unfold getOrAdd_insert. destruct (s_disposed s) eqn:Ed.
  { apply (inv_frame s (FInsert hash fileID audio r) [FRelease hash fileID audio (inl ErrServiceClosed) [r]]); try done. by repeat constructor. }
  destruct (lookup_task hash fileID audio s) as [ex|] eqn:El.
  { apply inv_on_task; [done|].
    apply (inv_frame s (FInsert hash fileID audio r) [FRelease hash fileID audio (inr ex) [r]]); try done. by repeat constructor. }
  set (s1 := set_tasks (<[hash := r]> (tasks s)) s).
  assert (HO1 : Own s1 (match tasks s !! hash with Some old => old :: holds fs | None => holds fs end)).
  { eapply own_insert; [done|done|done|done|exact (inv_own _ _ HI)]. }
  destruct (evict_limit o hash s1 _ HO1) as (ev&s'&->&HO&Hs'&Hsub&Hlim).
  apply (inv_replace s s' (FInsert hash fileID audio r) [FRelease hash fileID audio (inr r) _]); try done.
  - rewrite Hs'. split; try done; cbn; congruence.
  - cbn [holds owned fmap list_fmap concat app]. rewrite app_nil_r. destruct (tasks s !! hash); [|exact HO].
    cbn [app]. by rewrite Permutation_middle.
  - apply Forall_cons. split; [done|]. eapply frames_ok_preserves; [apply preserves_heap|exact Hfr]. by rewrite Hs'.
  - replace (limit_of s') with (limit_of s1); [done|]. by rewrite Hs'.
Qed.

Lemma inv_remove id r s f fs' fs : Inv s (f :: fs) → tasks s !! id = Some r → owned f = [] → holds fs' = [r] →
  Forall (λ f', match f' with FInsert _ _ _ _ => False | _ => frame_ok s f' end) fs' →
  existsb closing fs' = closing f → existsb forgetting fs' = forgetting f → count_tidy fs' = (if tidying f then 1%nat else 0%nat) →
  Inv (set_tasks (delete id (tasks s)) s) (fs' ++ fs).
Proof.
  intros HI Hr Hof Hh Hok Hc Hf Ht. pose proof (inv_frames _ _ HI) as Hfr. apply Forall_cons in Hfr as [_ Hfr].
  eapply inv_replace; [exact HI| | | | |done|done|done].
  - split; try done. cbn. intros _ E. by rewrite E, lookup_empty in Hr.
  - rewrite Hh. apply own_delete; [done|]. pose proof (inv_own _ _ HI) as HO. unfold holds in HO. rewrite fmap_cons in HO. cbn [concat] in HO.
    by rewrite Hof in HO.
  - apply Forall_app. split; [|by eapply frames_ok_preserves; [by apply preserves_heap|]].
    eapply Forall_impl; [exact Hok|]. by intros [].
  - intros Hl. pose proof (inv_limit _ _ HI Hl) as Hs. cbn [set_tasks tasks]. rewrite map_size_delete, Hr. unfold limit_of in *. cbn [set_tasks conf] in *. lia.
Qed.

Lemma filter_empty {A} (P : bytes * A → Prop) `{∀ x, Decision (P x)} (m : gmap bytes A) : m = ∅ → filter P m = ∅.
Proof. intros ->. apply map_filter_empty. Qed.

Lemma inv_update o c s fs : Inv s (FUpdate c :: fs) →
  let '(rs, s') := updateConfig_section o c s in Inv s' (FDispose rs :: fs).
Proof.
  intros HI. pose proof (inv_frames _ _ HI) as Hfr. apply Forall_cons in Hfr as [_ Hfr]. unfold updateConfig_section.
  set (s1 := set_conf (normalized c) s). assert (HO1 : Own s1 (holds fs)) by (eapply own_fields; [| |exact (inv_own _ _ HI)]; done).
  destruct (evict_limit o [] s1 _ HO1) as (ev&s'&->&HO&Hs'&Hsub&Hlim).
  apply (inv_replace s s' (FUpdate c) [FDispose ev]); try done.
  - rewrite Hs'. split; try done. cbn. intros _ He. apply map_eq. intros x. rewrite lookup_empty.
    destruct (tasks s' !! x) eqn:E; [|done]. apply (lookup_weaken _ _ _ _ E) in Hsub. cbn in Hsub. by rewrite He, lookup_empty in Hsub.
  - cbn [holds owned fmap list_fmap concat app]. by rewrite app_nil_r.
  - apply Forall_cons. split; [done|]. eapply frames_ok_preserves; [apply preserves_heap|exact Hfr]. by rewrite Hs'.
  - replace (limit_of s') with (limit_of s1); [done|]. by rewrite Hs'.
Qed.

Lemma inv_swap o s fs : Inv s (FSwap :: fs) → let '(rs, s') := dispose_swap o s in Inv s' (FClear rs :: fs).
Proof.
  intros [H1 H2 H3 H4 H5 H6]. apply Forall_cons in H2 as [_ H2]. cbn [dispose_swap]. split; try done.
  - apply own_swap. exact H1.
  - by apply Forall_cons.
  - intros Hl. cbn [set_tasks tasks]. rewrite map_size_empty. lia.
  - intros _. by left.
Qed.

Lemma inv_forget rs s fs : Inv s (FClear rs :: fs) → Inv (set_probeCache ∅ s) (FDispose rs :: fs).
Proof.
  intros [H1 H2 H3 H4 H5 H6]. apply Forall_cons in H2 as [_ H2]. split; try done.
  - eapply own_fields; [| |exact H1]; done.
  - apply Forall_cons. split; [done|]. by eapply frames_ok_preserves; [by apply preserves_heap|].
  - intros _. by left.
Qed.

Lemma inv_tidied fc rc now now' s fs : Inv s (FClean [] fc rc now :: fs) → Inv (set_cleanupRunning false (cleanupProbeCache now' s)) fs.
Proof.
  intros [H1 H2 H3 H4 H5 H6]. apply Forall_cons in H2 as [_ H2]. split; try done.
  - eapply own_fields; [| |exact H1]; done.
  - cbn. intros Hd. destruct (H5 Hd) as [He|He]; [left; by apply filter_empty|by right].
  - cbn in *. destruct (cleanupRunning s); simpl in H6; lia.
Qed.

Lemma inv_step_frame f ch s fs : Inv s (f :: fs) →
  let '(fs', ans, s') := step_frame f ch s in Inv s' (fs' ++ fs).
Proof.
  intros HI. pose proof (inv_frames _ _ HI) as Hfr. apply Forall_cons in Hfr as [Hok _].
  destruct f as [h fi a|h fi a|h fi a|h fi a r|h fi a res [|r rs]|h fi a r|[|r rs]|c| |rs|[|[id r] todo] fc rc now|id r todo fc rc now|r todo fc rc now|id r todo fc rc now|r todo fc rc now];
    cbn [step_frame dispose_first].
  - destruct (s_disposed s); eapply inv_frame; try done; by repeat constructor.
  - unfold getOrAdd_lookup. destruct (lookup_task h fi a s) as [r|].
    + apply inv_on_task; [done|]. eapply (inv_frame s _ [FAnswer h fi a r]); try done. by repeat constructor.
    + eapply (inv_frame s _ [FBuild h fi a]); try done. by repeat constructor.
  - pose proof (inv_build h fi a ch s fs HI) as Hb. destruct (build h fi a ch s) as [[err|r] s']; exact Hb.
  - pose proof (inv_insert (ch_order ch) h fi a (ch_now ch) r s fs HI) as Hi. by destruct (getOrAdd_insert _ _ _ _ _ _ s) as [[res rs] s'].
  - destruct res as [err|r]; [by eapply (inv_frame s _ [])|]. eapply (inv_frame s _ [FAnswer h fi a r]); try done. by repeat constructor.
  - eapply (inv_dispose r s _ [FRelease h fi a res rs]); try done; [|by repeat constructor].
    cbn [holds owned fmap list_fmap concat]. by rewrite app_nil_r.
  - destruct (taskMatchesRequest r h fi a s); [by eapply (inv_frame s _ [])|]. eapply (inv_frame s _ [FGetOrAdd h fi a]); try done. by repeat constructor.
  - by eapply (inv_frame s _ []).
  - eapply (inv_dispose r s _ [FDispose rs]); try done; [|by repeat constructor].
    cbn [holds owned fmap list_fmap concat]. by rewrite app_nil_r.
  - pose proof (inv_update (ch_order ch) c s fs HI) as Hu. by destruct (updateConfig_section _ c s) as [rs s'].
  - pose proof (inv_swap (ch_order ch) s fs HI) as Hs. by destruct (dispose_swap _ s) as [rs s'].
  - by apply inv_forget.
  - by eapply inv_tidied.
  - destruct (_ <? rc); [|destruct (_ <? fc)]; eapply (inv_frame s _ [_]); try done; by repeat constructor.
  - unfold removeInactive. destruct (_ || _) eqn:E; [by eapply (inv_frame s _ [_]); try done; repeat constructor|].
    apply orb_false_iff in E as [E _]. apply orb_false_iff in E as [_ E]. apply bool_decide_eq_false in E. apply dec_stable in E.
    eapply (inv_remove id r s _ [_]); try done. by repeat constructor.
  - eapply (inv_dispose r s _ [_]); try done. by repeat constructor.
  - destruct (isCurrentTask id r s); eapply (inv_frame s _ [_]); try done; by repeat constructor.
  - apply inv_on_task.
    + intros t. unfold FreezeIfInactive. destruct (negb _); [done|]. apply keeps_freeze.
    + eapply (inv_frame s _ [_]); try done. by repeat constructor.
Qed.

Lemma inv_begin f s fs : owned f = [] → frame_ok s f → tidying f = false → Inv s fs → Inv s (f :: fs).
Proof.
  intros Ho Hok Ht [H1 H2 H3 H4 H5 H6]. split; try done.
  - unfold holds. rewrite fmap_cons. cbn [concat]. by rewrite Ho.
  - by apply Forall_cons.
  - intros Hd. destruct (H4 Hd) as [?|E]; [by left|right]. simpl. by rewrite E, orb_true_r.
  - intros Hd. destruct (H5 Hd) as [?|E]; [by left|right]. simpl. by rewrite E, orb_true_r.
  - simpl. by rewrite Ht.
Qed.

Lemma wstep_inv e w : Inv (w_s w) (frames w) → Inv (w_s (wstep e w)) (frames (wstep e w)).
Proof.
  intros HI. destruct e as [h fi a|h fi a r|id now|id|c| |o now|h fi ch|r u|i ch]; cbn [wstep].
  - destruct (_ || _) eqn:E; [done|]. apply orb_false_iff in E as [E _]. apply bool_decide_eq_false in E. by apply inv_begin.
  - destruct (_ || _) eqn:E; [done|]. apply orb_false_iff in E as [E _]. apply bool_decide_eq_false in E. by apply inv_begin.
  - cbn. unfold Get. destruct (_ || _); [done|]. destruct (tasks (w_s w) !! id) as [r|]; [|done]. destruct (task_disposed _ r); [done|]. by apply inv_on_task.
  - unfold detachTask. case_bool_decide; [done|]. destruct (tasks (w_s w) !! id) as [r|] eqn:E; [|done]. cbn.
    assert (HI' : Inv (w_s w) (FDispose [] :: frames w)) by by apply inv_begin.
    eapply (inv_remove id r _ _ [FDispose [r]]); try done. by repeat constructor.
  - destruct (s_disposed _); [done|]. by apply inv_begin.
  - destruct (s_disposed _) eqn:Ed; [done|]. cbn. destruct HI as [H1 H2 H3 H4 H5 H6]. split; try done.
    + eapply own_fields; [| |exact H1]; done.
    + apply Forall_cons. split; [done|]. by eapply frames_ok_preserves; [by apply preserves_heap|].
    + intros _. by right.
    + intros _. by right.
  - unfold start_cleanup. destruct (_ || _) eqn:E; [done|]. apply orb_false_iff in E as [_ Ec]. cbn. destruct HI as [H1 H2 H3 H4 H5 H6]. split; try done.
    + eapply own_fields; [| |exact H1]; done.
    + apply Forall_cons. split; [done|]. by eapply frames_ok_preserves; [by apply preserves_heap|].
    + rewrite Ec in H6. cbn. by rewrite H6.
  - cbn. eapply inv_probing; [apply Probe_probing|done].
  - cbn. apply inv_on_task; [apply keeps_use|done].
  - destruct (frames w !! i) as [f|] eqn:E; [|done]. assert (HI' : Inv (w_s w) (f :: delete i (frames w))) by (eapply inv_perm; [by apply delete_Permutation|done]).
    pose proof (inv_step_frame f ch _ _ HI') as Hs. by destruct (step_frame f ch (w_s w)) as [[fs' ans] s'].
Qed.

Lemma inv_new c : Inv (NewService c : service R) [].
Proof.
  split; try done.
  - split; [done|done|constructor|by intros r ?%elem_of_nil].
  - cbn. rewrite map_size_empty. intros. lia.
Qed.

Lemma calls_inv es w : Inv (w_s w) (frames w) → Inv (w_s (run es w)) (frames (run es w)).
Proof. revert w. induction es as [|e es IH]; intros w HI; [done|]. apply IH. by apply wstep_inv. Qed.
End Steps.
