(* ===== verification/ServiceCalls.v ===== *)
(** * What calls to the registry do

    [registry_invariant] holds whatever calls overlap; [getOrAdd_alone] and
    [cleanup_alone] say what a call does that runs alone. *)

From S2P Require Import Prelude GoFloat GoText Segment Matroska MP4Init Task TaskProps Service ServiceWorld ServiceProps.
#[local] Open Scope Z_scope.

Section Calls.
Context {R : Type} `{!Runner R}.
Implicit Types (t : Task R) (s : service R) (w : world R) (ch : choice R).

(** C22: whatever calls overlap, the registry holds open tasks under their own names and
    never more than the limit; every open task is registered or held by exactly one call
    that will register or dispose it; and once a closed service has no call under way, it
    has no task, no open task exists and no probe is remembered. *)
Theorem registry_invariant (c : Config) (es : list (event R)) :
  let w := run es (world_new c) in let s := w_s w in
  (∀ id r, tasks s !! id = Some r → ∃ o, heap s !! r = Some o ∧ o_ID o = id ∧ disposed (o_task o) = false) ∧
  (0 < Conf.MaxTasks (normalized (conf s)) → Z.of_nat (size (tasks s)) <= Conf.MaxTasks (normalized (conf s))) ∧
  (∀ r o, heap s !! r = Some o → disposed (o_task o) = false → tasks s !! o_ID o = Some r ∨ r ∈ holds (frames w)) ∧
  NoDup (holds (frames w)) ∧ (∀ r id, r ∈ holds (frames w) → tasks s !! id ≠ Some r) ∧
  (s_disposed s = true → frames w = [] → tasks s = ∅ ∧ probeCache s = ∅ ∧ ∀ r, task_disposed s r = true).
Proof.
  cbv zeta. destruct (calls_inv es (world_new c) (inv_new c)) as [[H1 H2 H3 H4] _ Hl Hc Hf _]. split_and!; [|done|done|done| |].
  - intros id r Hr. by destruct (H1 id r Hr).
  - intros r id Hr. by apply H4.
  - intros Hd Hfr. rewrite Hfr in *. destruct (Hc Hd) as [He|?]; [|done]. destruct (Hf Hd) as [Hp|?]; [|done]. split_and!; [done|done|].
    intros r. unfold task_disposed. destruct (heap _ !! r) as [o|] eqn:E; [|done]. apply not_false_is_true. intros Ho.
    destruct (H2 r o E Ho) as [Hreg|Hin%elem_of_nil]; [|done]. by rewrite He, lookup_empty in Hreg.
Qed.

(** ** A call alone *)

(** [n] sections of the call that began last. *)
Definition steps (n : nat) ch w : world R := run (replicate n (EStep 0 ch)) w.

Lemma steps_S n ch w : steps (S n) ch w = steps n ch (wstep (EStep 0 ch) w).
Proof. done. Qed.

Lemma steps_add n m ch w : steps (n + m) ch w = steps m ch (steps n ch w).
Proof. unfold steps. rewrite replicate_add. unfold run. by rewrite foldl_app. Qed.

Definition dispose_all (rs : list nat) s : service R := foldl (λ s r, on_task Dispose r s) s rs.

Lemma release_run h fi a res rs ch s ans :
  steps (length rs) ch (mkWorld s [FRelease h fi a res rs] ans) = mkWorld (dispose_all rs s) [FRelease h fi a res []] ans.
Proof.
  revert s. induction rs as [|r rs IH]; intros s; [done|]. cbn [length]. rewrite steps_S.
  cbn [wstep w_s frames answers lookup list_lookup step_frame dispose_first delete list_delete app]. rewrite app_nil_r. apply IH.
Qed.

Lemma dispose_all_lookup rs s r : heap (dispose_all rs s) !! r =
  if decide (r ∈ rs) then (λ o, mkObject (o_ID o) (o_FileID o) (Dispose (o_task o))) <$> heap s !! r else heap s !! r.
Proof.
  revert s. induction rs as [|x rs IH]; intros s.
  { rewrite decide_False by apply not_elem_of_nil. done. }
  cbn [dispose_all foldl]. fold (dispose_all rs (on_task Dispose x s)). rewrite IH, on_task_lookup.
  assert (Hidem : ∀ o : object R, mkObject (o_ID o) (o_FileID o) (Dispose (Dispose (o_task o))) = mkObject (o_ID o) (o_FileID o) (Dispose (o_task o))).
  { intros o. f_equal. unfold Dispose at 1. by rewrite Dispose_disposed. }
  destruct (decide (x = r)) as [->|Hn].
  - rewrite (decide_True (P := r ∈ r :: rs)) by by left. destruct (decide (r ∈ rs)); [|done]. rewrite <- option_fmap_compose. destruct (heap s !! r) as [o|]; [|done].
    simpl. by rewrite Hidem.
  - destruct (decide (r ∈ rs)); [by rewrite decide_True by by right|]. rewrite decide_False; [done|]. by intros [->|?]%elem_of_cons.
Qed.

Lemma dispose_all_tasks rs s : tasks (dispose_all rs s) = tasks s ∧ conf (dispose_all rs s) = conf s ∧ s_disposed (dispose_all rs s) = s_disposed s.
Proof. revert s. induction rs as [|r rs IH]; intros s; [done|]. apply (IH (on_task Dispose r s)). Qed.

(** What a request that had to build a task leaves: the new task serves it, of the others
    none changes but those it replaces or that had to go, and these are disposed. *)
Definition added (hash fileID : bytes) (audio : Z) s s' (r : nat) : Prop :=
  r = length (heap s) ∧ tasks s' !! hash = Some r ∧ taskMatchesRequest r hash fileID audio s' = true ∧
  (∀ id r', tasks s' !! id = Some r' → id = hash ∨ tasks s !! id = Some r' ∧ heap s' !! r' = heap s !! r') ∧
  (∀ id r', tasks s !! id = Some r' → tasks s' !! id = Some r' ∨
     task_disposed s' r' = true ∧
     (id = hash ∨ limit_of s <= Z.of_nat (size (tasks s')) ∧ ∀ id2 r2, tasks s' !! id2 = Some r2 → id2 ≠ hash → no_later s r' r2)).

Lemma new_task_fields audio p cue c now r t : new_task audio p cue c now (Some r) = Some t → Audio t = audio ∧ disposed t = false.
Proof. unfold new_task, NewTask. by intros [= <-]. Qed.

Lemma probing_fields s s' : probing s s' → tasks s' = tasks s ∧ heap s' = heap s ∧ conf s' = conf s ∧ s_disposed s' = s_disposed s.
Proof. intros ([Hd _ _ _]&?&?&?). by split_and!. Qed.

Lemma build_fields hash fileID audio ch s : let '(res, s') := build hash fileID audio ch s in
  tasks s' = tasks s ∧ conf s' = conf s ∧ s_disposed s' = s_disposed s ∧
  match res with
  | inl _ => heap s' = heap s
  | inr r => r = length (heap s) ∧ ∃ t, heap s' = heap s ++ [mkObject hash fileID t] ∧ Audio t = audio ∧ disposed t = false
  end.
Proof.
  unfold build. pose proof (probing_fields _ _ (Probe_probing hash fileID (ch_source ch) (ch_size ch) (ch_now ch) s)) as (Ht&Hh&Hc&Hd).
  destruct (Probe _ _ _ _ _ s) as [probe s1]. cbn [snd] in *. destruct probe as [err|p]; [done|]. destruct (ch_runner ch) as [n|r]; [done|].
  destruct (new_task audio p None (conf s) (ch_now ch) (Some r)) as [t|] eqn:Et; [|done]. apply new_task_fields in Et as [Ha Hdt].
  cbn [allocate set_heap tasks conf s_disposed heap]. rewrite Hh. split_and!; [done|done|done|done|]. by exists t.
Qed.

Lemma lookup_task_heap hash fileID audio s s' held : Own s held → tasks s' = tasks s → (∃ l, heap s' = heap s ++ l) →
  lookup_task hash fileID audio s' = lookup_task hash fileID audio s.
Proof.
  intros HO Ht [l Hl]. unfold lookup_task. rewrite Ht. destruct (tasks s !! hash) as [r|] eqn:E; [|done].
  destruct (own_reg _ _ HO _ _ E) as (_&o&Ho&_). rewrite Hl, Ho, (lookup_app_l_Some _ _ _ _ Ho). done.
Qed.

Lemma task_active_heap s s' r : (∃ l, heap s' = heap s ++ l) → (r < length (heap s))%nat → task_active s' r = task_active s r.
Proof. intros [l Hl] Hr. unfold task_active. by rewrite Hl, lookup_app_l. Qed.

Lemma insert_alone o hash fileID audio now s s1 t :
  Inv s [] → hash ≠ [] → s_disposed s = false → lookup_task hash fileID audio s = None →
  tasks s1 = tasks s → conf s1 = conf s → s_disposed s1 = s_disposed s → heap s1 = heap s ++ [mkObject hash fileID t] →
  Audio t = audio → disposed t = false →
  let r := length (heap s) in
  ∃ rs s2, getOrAdd_insert o hash fileID audio now r s1 = (inr r, rs, s2) ∧ added hash fileID audio s (dispose_all rs s2) r.
Proof.
  intros HI Hne Hd Hl Ht Hc Hd1 Hh Ha Hdt r. pose proof (inv_own _ _ HI) as HO. change (holds []) with (@nil nat) in HO.
  assert (Hr : heap s1 !! r = Some (mkObject hash fileID t)) by (rewrite Hh; by apply list_lookup_middle).
  assert (HO1 : Own s1 [r]).
  { eapply own_fields; [| |exact (own_allocate hash fileID t s [] Hdt HO)]; [done|exact Hh]. }
  unfold getOrAdd_insert. rewrite Hd1, Hd, (lookup_task_heap _ _ _ s s1 [] HO Ht ltac:(by eexists)), Hl.
  set (s1' := set_tasks (<[hash := r]> (tasks s1)) s1).
  assert (HO1' : Own s1' (match tasks s1 !! hash with Some old => [old] | None => [] end)) by (by eapply own_insert).
  destruct (evict_result o hash s1' _ HO1') as (ev&s2&->&Hev). fold (limit_of s1') in Hev.
  set (rs := match tasks s1 !! hash with Some old => old :: ev | None => ev end). exists rs, s2. split; [done|].
  assert (Hev' : Own s2 rs ∧ s2 = set_tasks (tasks s2) s1' ∧ tasks s2 ⊆ tasks s1' ∧ tasks s2 !! hash = Some r ∧
    (∀ x, x ∈ ev ↔ ∃ id, tasks s1' !! id = Some x ∧ tasks s2 !! id = None) ∧
    (∀ x id r', x ∈ ev → tasks s2 !! id = Some r' → id ≠ hash → no_later s1' x r') ∧ (ev ≠ [] → limit_of s1' <= Z.of_nat (size (tasks s2)))).
  { destruct (0 <? limit_of s1') eqn:E.
    - destruct Hev as (K1&K2&K3&K4&K5&K6&_&_&K9). split_and!; [|done|done| |done|done|done].
      + unfold rs. destruct (tasks s1 !! hash); [by rewrite Permutation_app_comm in K1|by rewrite app_nil_r in K1].
      + rewrite K6. apply lookup_insert_eq.
    - destruct Hev as [-> ->]. split_and!; [|by destruct s1'|done|apply lookup_insert_eq| |by intros x id r' ?%elem_of_nil|done].
      + unfold rs. destruct (tasks s1 !! hash); exact HO1'.
      + intros x. split; [by intros ?%elem_of_nil|]. intros (id&?&?). congruence. }
  clear Hev. destruct Hev' as (HO2&Hs2&Hsub&Hreg&Hin&Hlru&Hlim).
  assert (Hheap : heap s2 = heap s1) by by rewrite Hs2.
  assert (Hnot : ∀ x id, tasks s2 !! id = Some x → x ∉ rs).
  { intros x id Hx Hrs. destruct (own_held _ _ HO2 x Hrs) as [_ Hn]. by eapply Hn. }
  destruct (dispose_all_tasks rs s2) as (Ets&_&_).
  assert (Hold : ∀ id x, tasks s !! id = Some x → (x < length (heap s))%nat).
  { intros id x Hx. destruct (own_reg _ _ HO _ _ Hx) as (_&ob&Hob&_). by eapply lookup_lt_Some. }
  assert (Hback : ∀ id x, tasks s2 !! id = Some x → id ≠ hash → tasks s !! id = Some x).
  { intros id x Hx Hn. apply (lookup_weaken _ _ _ _ Hx) in Hsub. cbn [s1' set_tasks tasks] in Hsub. by rewrite lookup_insert_ne, Ht in Hsub. }
  unfold added. rewrite Ets. split_and!; [done|done| | |].
  - unfold taskMatchesRequest. rewrite dispose_all_lookup, decide_False, Hheap, Hr by (by eapply Hnot). cbn. rewrite Hdt, Ha, Z.eqb_refl.
    by rewrite !bool_decide_true.
  - intros id x Hx. destruct (decide (id = hash)) as [->|Hn]; [by left|right]. split; [by apply Hback|].
    rewrite dispose_all_lookup, decide_False, Hheap, Hh by (by eapply Hnot). apply lookup_app_l. eapply Hold. by apply Hback.
  - intros id x Hx. destruct (decide (x ∈ rs)) as [Hrs|Hrs].
    + right. split.
      { unfold task_disposed. rewrite dispose_all_lookup, decide_True by done. destruct (heap s2 !! x); [|done]. cbn. apply Dispose_disposed. }
      destruct (decide (id = hash)) as [->|Hn]; [by left|right].
      assert (Hx' : x ∈ ev).
      { unfold rs in Hrs. destruct (tasks s1 !! hash) as [old|] eqn:E; [|done]. apply elem_of_cons in Hrs as [->|?]; [|done].
        rewrite Ht in E. destruct (own_reg _ _ HO _ _ E) as (_&o1&Ho1&Hi1&_), (own_reg _ _ HO _ _ Hx) as (_&o2&Ho2&Hi2&_). congruence. }
      split; [replace (limit_of s) with (limit_of s1') by (unfold limit_of; cbn; by rewrite Hc); apply Hlim; intros ->; by apply elem_of_nil in Hx'|].
      intros id2 r2 Hr2 Hn2. pose proof (Hlru x id2 r2 Hx' Hr2 Hn2) as Hle. unfold no_later in *.
      pose proof (Hold _ _ Hx). pose proof (Hold _ _ (Hback _ _ Hr2 Hn2)).
      rewrite !(task_active_heap s s1') in Hle by (done || (exists [mkObject hash fileID t]; exact Hh)). exact Hle.
    + left. destruct (decide (id = hash)) as [->|Hn].
      { exfalso. apply Hrs. unfold rs. rewrite Ht, Hx. by left. }
      destruct (tasks s2 !! id) as [y|] eqn:Ey; [by rewrite (Hback _ _ Ey Hn) in Hx|]. exfalso. apply Hrs.
      assert (x ∈ ev) by (apply Hin; exists id; split; [cbn [s1' set_tasks tasks]; by rewrite lookup_insert_ne, Ht|done]).
      unfold rs. destruct (tasks s1 !! hash); [by right|done].
Qed.

(** The outcome of a request, by the state it finds. *)
Definition request_outcome (hash fileID : bytes) (audio : Z) ch s s' (res : service_error + nat) : Prop :=
  if s_disposed s then res = inl ErrServiceClosed ∧ s' = s
  else
    match lookup_task hash fileID audio s with
    | Some r => res = inr r ∧ s' = on_task (UpdateLastActive (ch_now ch)) r s
    | None =>
        match (build hash fileID audio ch s).1 with
        | inl err => res = inl err ∧ tasks s' = tasks s ∧ heap s' = heap s
        | inr r => res = inr r ∧ added hash fileID audio s s' r
        end
    end.

Lemma touched_matches hash fileID audio now r s : (∀ r, tasks s !! hash = Some r → ∃ o, heap s !! r = Some o ∧ o_ID o = hash) →
  lookup_task hash fileID audio s = Some r → taskMatchesRequest r hash fileID audio (on_task (UpdateLastActive now) r s) = true.
Proof.
  intros Hreg. unfold lookup_task. destruct (tasks s !! hash) as [x|] eqn:E; [|done]. destruct (Hreg x eq_refl) as (o&Ho&Hi). rewrite Ho.
  destruct (_ && _ && _) eqn:Em; [|done]. intros [= ->]. apply andb_true_iff in Em as [Em Hd]. apply andb_true_iff in Em as [Hf Ha].
  unfold taskMatchesRequest. rewrite on_task_lookup, decide_True, Ho by done. cbn [fmap option_fmap option_map o_task o_ID o_FileID].
  change (disposed (UpdateLastActive now (o_task o))) with (disposed (o_task o)). change (Audio (UpdateLastActive now (o_task o))) with (Audio (o_task o)).
  by rewrite Hd, Hf, Ha, bool_decide_true.
Qed.

(** C23: a request for a task that meets no other call ends with an answer: a closed
    service refuses it; a task that serves it already is used again; otherwise one is
    built, registered under the torrent's name and given, the tasks it replaces are
    disposed, and so are, when there are too many, the least recently used ones, down to
    the limit; when probing or building fails, the tasks stay as they are. *)
Theorem getOrAdd_alone (c : Config) (es : list (event R)) (hash fileID : bytes) (audio : Z) ch :
  let w := run es (world_new c) in frames w = [] → hash ≠ [] → fileID ≠ [] →
  ∃ n s' res, steps n ch (wstep (EGetOrAdd hash fileID audio) w) = mkWorld s' [] (answers w ++ [(hash, fileID, audio, res)]) ∧
    request_outcome hash fileID audio ch (w_s w) s' res.
Proof.
  intros w Hfr Hh Hf. pose proof (calls_inv es (world_new c) (inv_new c)) as HI. fold w in HI. rewrite Hfr in HI.
  pose proof (inv_own _ _ HI) as HO. change (holds []) with (@nil nat) in HO. destruct w as [s fs ans]. cbn [w_s frames answers] in *. subst fs.
  cbn [wstep w_s frames answers]. rewrite !bool_decide_false by done. cbn [orb]. unfold begin. cbn [w_s frames answers app].
  unfold request_outcome. destruct (s_disposed s) eqn:Ed.
  { exists 1%nat, s, (inl ErrServiceClosed). split; [|done]. rewrite steps_S. cbn [wstep w_s frames answers lookup list_lookup step_frame]. by rewrite Ed. }
  destruct (lookup_task hash fileID audio s) as [r|] eqn:El.
  - exists 3%nat, (on_task (UpdateLastActive (ch_now ch)) r s), (inr r). split; [|done].
    rewrite !steps_S. cbn [wstep w_s frames answers lookup list_lookup step_frame]. rewrite Ed. cbn [w_s frames answers lookup list_lookup step_frame app delete list_delete].
    unfold getOrAdd_lookup. rewrite El. cbn [w_s frames answers lookup list_lookup step_frame app delete list_delete].
    rewrite (touched_matches hash fileID audio (ch_now ch) r s); [by rewrite !app_nil_r| |done].
    intros x Hx. destruct (own_reg _ _ HO _ _ Hx) as (_&o&?&?&_). by exists o.
  - pose proof (build_fields hash fileID audio ch s) as Hb. destruct (build hash fileID audio ch s) as [[err|r] s1] eqn:Eb; destruct Hb as (Ht&Hc&Hd&Hres).
    + exists 3%nat, s1, (inl err). split; [|done]. rewrite !steps_S. cbn [wstep w_s frames answers lookup list_lookup step_frame]. rewrite Ed.
      cbn [w_s frames answers lookup list_lookup step_frame app delete list_delete]. unfold getOrAdd_lookup. rewrite El.
      cbn [w_s frames answers lookup list_lookup step_frame app delete list_delete]. rewrite Eb. by rewrite !app_nil_r.
    + destruct Hres as (->&t&Hheap&Ha&Hdt).
      destruct (insert_alone (ch_order ch) hash fileID audio (ch_now ch) s s1 t HI Hh Ed El Ht Hc Hd Hheap Ha Hdt) as (rs&s2&Ei&Hadd).
      exists (4 + (length rs + 2))%nat, (dispose_all rs s2), (inr (length (heap s))). split; [|done].
      rewrite steps_add. rewrite !steps_S. cbn [wstep w_s frames answers lookup list_lookup step_frame]. rewrite Ed.
      cbn [w_s frames answers lookup list_lookup step_frame app delete list_delete]. unfold getOrAdd_lookup. rewrite El.
      cbn [w_s frames answers lookup list_lookup step_frame app delete list_delete]. rewrite Eb.
      cbn [w_s frames answers lookup list_lookup step_frame app delete list_delete]. rewrite Ei.
      cbn [app]. change (steps 0 ch ?w) with w. rewrite !app_nil_r, steps_add, release_run, !steps_S.
      cbn [wstep w_s frames answers lookup list_lookup step_frame app delete list_delete]. destruct Hadd as (_&_&Hm&_). rewrite Hm. by rewrite !app_nil_r.
Qed.

(** ** Tidying up alone *)

Definition clean_one (fc rc : Z) s (e : bytes * nat) : service R :=
  let '(id, r) := e in
  if task_active s r <? rc then on_task Dispose r (set_tasks (delete id (tasks s)) s)
  else if task_active s r <? fc then on_task (λ t, (FreezeIfInactive fc t).2) r s
  else s.

Lemma task_active_on_task f x r s : x ≠ r → task_active (on_task f x s) r = task_active s r.
Proof. intros Hn. unfold task_active. by rewrite on_task_lookup, decide_False. Qed.

Lemma clean_one_other fc rc s id r id' r' : id ≠ id' → r ≠ r' →
  tasks (clean_one fc rc s (id, r)) !! id' = tasks s !! id' ∧ heap (clean_one fc rc s (id, r)) !! r' = heap s !! r'.
Proof.
  intros Hi Hr. unfold clean_one. destruct (_ <? rc); [|destruct (_ <? fc)]; (split; [|try rewrite on_task_lookup, decide_False by done; done]); try done.
  cbn. by rewrite lookup_delete_ne.
Qed.

Lemma pair_elem (l : list (bytes * nat)) id r : (id, r) ∈ l → id ∈ l.*1 ∧ r ∈ l.*2.
Proof. intros Hx. split; [by apply (list_elem_of_fmap_2 fst _ (id, r))|by apply (list_elem_of_fmap_2 snd _ (id, r))]. Qed.

Lemma clean_run fc rc now ch ans todo s : NoDup todo.*1 → NoDup todo.*2 → (∀ id r, (id, r) ∈ todo → id ≠ [] ∧ tasks s !! id = Some r) →
  ∃ n, steps n ch (mkWorld s [FClean todo fc rc now] ans) =
    mkWorld (set_cleanupRunning false (cleanupProbeCache now (foldl (clean_one fc rc) s todo))) [] ans.
Proof.
  revert s. induction todo as [|[id r] todo IH]; intros s Hn1 Hn2 Hin.
  { exists 1%nat. rewrite steps_S. cbn [wstep w_s frames answers lookup list_lookup step_frame app delete list_delete]. by rewrite app_nil_r. }
  rewrite fmap_cons in Hn1. rewrite fmap_cons in Hn2. apply NoDup_cons in Hn1 as [Hi Hn1], Hn2 as [Hr Hn2]. cbn [fst snd] in Hi, Hr.
  destruct (Hin id r (list_elem_of_here _ _)) as [Hid Hreg].
  destruct (IH (clean_one fc rc s (id, r)) Hn1 Hn2) as [n Hn].
  { intros id' r' Hx. destruct (Hin id' r' (list_elem_of_further _ _ _ Hx)) as [? <-]. split; [done|].
    apply (clean_one_other fc rc s id r id' r'); intros ->; [apply Hi|apply Hr]; by apply pair_elem in Hx as []. }
  assert (Hone : ∃ k, steps k ch (mkWorld s [FClean ((id, r) :: todo) fc rc now] ans) = mkWorld (clean_one fc rc s (id, r)) [FClean todo fc rc now] ans).
  { unfold clean_one. destruct (task_active s r <? rc) eqn:E1; [|destruct (task_active s r <? fc) eqn:E2].
    - exists 3%nat. rewrite !steps_S. cbn [wstep w_s frames answers lookup list_lookup step_frame]. rewrite E1.
      cbn [w_s frames answers lookup list_lookup step_frame app delete list_delete]. unfold removeInactive. rewrite E1, (bool_decide_false (id = [])), (bool_decide_false (tasks s !! id ≠ Some r)) by (done || (intros H; by apply H)).
       cbn [orb negb w_s frames answers lookup list_lookup step_frame app delete list_delete].
      by rewrite !app_nil_r.
    - exists 3%nat. rewrite !steps_S. cbn [wstep w_s frames answers lookup list_lookup step_frame]. rewrite E1, E2.
      cbn [w_s frames answers lookup list_lookup step_frame app delete list_delete]. unfold isCurrentTask. rewrite bool_decide_true by done.
      cbn [w_s frames answers lookup list_lookup step_frame app delete list_delete]. by rewrite !app_nil_r.
    - exists 1%nat. rewrite !steps_S. cbn [wstep w_s frames answers lookup list_lookup step_frame]. rewrite E1, E2.
      cbn [app delete list_delete]. rewrite app_nil_r. reflexivity. }
  destruct Hone as [k Hk]. exists (k + n)%nat. rewrite steps_add, Hk. exact Hn.
Qed.

(** The fate of a task, by when it was last used. *)
Definition tidied (fc rc : Z) (t : Task R) : Task R :=
  if lastActive t <? rc then Dispose t else if lastActive t <? fc then (FreezeIfInactive fc t).2 else t.

Lemma clean_all fc rc todo s id r o : NoDup todo.*1 → NoDup todo.*2 → heap s !! r = Some o →
  ((id, r) ∈ todo → tasks s !! id = Some r →
    tasks (foldl (clean_one fc rc) s todo) !! id = (if lastActive (o_task o) <? rc then None else Some r) ∧
    heap (foldl (clean_one fc rc) s todo) !! r = Some (mkObject (o_ID o) (o_FileID o) (tidied fc rc (o_task o)))) ∧
  (id ∉ todo.*1 → tasks (foldl (clean_one fc rc) s todo) !! id = tasks s !! id).
Proof.
  revert s. induction todo as [|[id' r'] todo IH]; intros s Hn1 Hn2 Ho; [by split; [intros ?%elem_of_nil|]|].
  rewrite !fmap_cons in *. apply NoDup_cons in Hn1 as [Hi Hn1], Hn2 as [Hr Hn2]. cbn [fst snd foldl] in *. split.
  - intros [[= <- <-]|Hin]%elem_of_cons Hreg.
    + assert (Hact : task_active s r = lastActive (o_task o)) by (unfold task_active; by rewrite Ho).
      assert (Hrest : ∀ s', heap (foldl (clean_one fc rc) s' todo) !! r = heap s' !! r ∧ tasks (foldl (clean_one fc rc) s' todo) !! id = tasks s' !! id).
      { clear - Hi Hr. induction todo as [|[id2 r2] todo IHt]; intros s'; [done|]. cbn [foldl fmap list_fmap fst snd] in *.
        apply not_elem_of_cons in Hi as [Hi1 Hi], Hr as [Hr1 Hr]. destruct (IHt Hi Hr (clean_one fc rc s' (id2, r2))) as [-> ->].
        destruct (clean_one_other fc rc s' id2 r2 id r); [done|done|]. done. }
      destruct (Hrest (clean_one fc rc s (id, r))) as [-> ->]. unfold clean_one, tidied. rewrite Hact.
      destruct (_ <? rc); [|destruct (_ <? fc)].
      * split; [apply lookup_delete_eq|]. rewrite on_task_lookup, decide_True by done. cbn [set_tasks heap]. by rewrite Ho.
      * split; [exact Hreg|]. rewrite on_task_lookup, decide_True by done. by rewrite Ho.
      * split; [exact Hreg|]. rewrite Ho. by destruct o.
    + assert (id' ≠ id ∧ r' ≠ r) as [Hni Hnr].
      { split; intros ->; [apply Hi|apply Hr]; by apply pair_elem in Hin as []. }
      destruct (clean_one_other fc rc s id' r' id r Hni Hnr) as [Et Eh].
      destruct (IH (clean_one fc rc s (id', r')) Hn1 Hn2 ltac:(by rewrite Eh)) as [H _]. apply H; [done|by rewrite Et].
  - intros [Hni Hnt]%not_elem_of_cons. assert (Hrest : ∀ s', tasks (foldl (clean_one fc rc) s' todo) !! id = tasks s' !! id).
    { clear - Hnt. induction todo as [|[id2 r2] todo IHt]; intros s'; [done|]. cbn [foldl fmap list_fmap fst] in *.
      apply not_elem_of_cons in Hnt as [Hi1 Hi]. rewrite (IHt Hi). unfold clean_one. destruct (_ <? rc); [|destruct (_ <? fc)]; try done.
      cbn. by rewrite lookup_delete_ne. }
    rewrite Hrest. unfold clean_one. destruct (task_active s r' <? rc); [|by destruct (task_active s r' <? fc)]. cbn. by rewrite lookup_delete_ne.
Qed.

(** Tidying up an open service, alone, ends; the tasks not used for twenty minutes
    more than the limit on idleness are disposed and leave the registry, those not used
    for the limit are frozen and stay, the others are untouched; probes whose hour is over
    are forgotten. *)
Theorem cleanup_alone (c : Config) (es : list (event R)) (o : MapOrder) (now : Z) ch :
  let w := run es (world_new c) in let s := w_s w in frames w = [] → s_disposed s = false →
  let inactive := Conf.inactiveDuration (conf s) in
  let fc := now - inactive in let rc := now - i64 (inactive + 1200000000000) in
  ∃ n s', steps n ch (wstep (ECleanup o now) w) = mkWorld s' [] (answers w) ∧
    cleanupRunning s' = false ∧
    (∀ id r ob, tasks s !! id = Some r → heap s !! r = Some ob →
       tasks s' !! id = (if lastActive (o_task ob) <? rc then None else Some r) ∧
       heap s' !! r = Some (mkObject (o_ID ob) (o_FileID ob) (tidied fc rc (o_task ob)))) ∧
    (∀ id, tasks s !! id = None → tasks s' !! id = None) ∧
    (∀ key e, probeCache s' !! key = Some e ↔ probeCache s !! key = Some e ∧ now < pe_expiresAt e).
Proof.
  intros w s Hfr Hd. pose proof (calls_inv es (world_new c) (inv_new c)) as HI. fold w in HI. rewrite Hfr in HI. fold s in HI.
  pose proof (inv_tidy _ _ HI) as Hrun. pose proof (inv_own _ _ HI) as HO. change (holds []) with (@nil nat) in HO.
  intros inactive fc rc. cbn [wstep]. unfold start_cleanup. fold s. rewrite Hd. destruct (cleanupRunning s) eqn:Ec; [by simpl in Hrun|]. cbn [orb].
  fold inactive. change twenty_minutes with 1200000000000. fold fc rc. rewrite Hfr. set (todo := entries_in o (tasks s)).
  assert (Hin : ∀ id r, (id, r) ∈ todo ↔ tasks s !! id = Some r) by (intros id r; unfold todo; rewrite entries_perm; apply elem_of_map_to_list).
  assert (Hn1 : NoDup todo.*1) by (unfold todo; rewrite (entries_perm o); apply NoDup_fst_map_to_list).
  assert (Hn2 : NoDup todo.*2).
  { apply NoDup_fmap_2_strong; [|unfold todo; rewrite (entries_perm o); apply NoDup_map_to_list].
    intros [i1 r1] [i2 r2] H1%Hin H2%Hin E. simpl in E. subst r2. destruct (own_reg _ _ HO _ _ H1) as (_&o1&Ho1&Hi1&_), (own_reg _ _ HO _ _ H2) as (_&o2&Ho2&Hi2&_). congruence. }
  set (s0 := set_cleanupRunning true s).
  destruct (clean_run fc rc now ch (answers w) todo s0 Hn1 Hn2) as [n Hn].
  { intros id r Hx%Hin. split; [|exact Hx]. by destruct (own_reg _ _ HO _ _ Hx). }
  exists n. eexists. split; [exact Hn|]. split; [done|]. split_and!.
  - intros id r ob Hr Hob. destruct (clean_all fc rc todo s0 id r ob Hn1 Hn2 Hob) as [H _]. apply H; [by apply Hin|exact Hr].
  - intros id Hid. change (tasks (foldl (clean_one fc rc) s0 todo) !! id = None).
    assert (E : tasks (foldl (clean_one fc rc) s0 todo) !! id = tasks s0 !! id); [|exact (eq_trans E Hid)].
    assert (Hnot : id ∉ todo.*1) by (intros ([i x]&->&Hx)%list_elem_of_fmap; apply Hin in Hx; simpl in Hid; congruence).
    generalize s0. clear - Hnot. induction todo as [|[id2 r2] todo IH]; intros s0; [done|]. cbn [foldl fmap list_fmap fst] in *.
    apply not_elem_of_cons in Hnot as [Hn Hnot]. rewrite (IH Hnot). unfold clean_one. destruct (_ <? rc); [|destruct (_ <? fc)]; try done.
    cbn. by rewrite lookup_delete_ne.
  - intros key e. change (filter (λ '(_, e), now < pe_expiresAt e) (probeCache (foldl (clean_one fc rc) s0 todo)) !! key = Some e ↔ probeCache s !! key = Some e ∧ now < pe_expiresAt e).
    assert (E : probeCache (foldl (clean_one fc rc) s0 todo) = probeCache s).
    { change (probeCache s) with (probeCache s0). generalize s0. clear. induction todo as [|[id2 r2] todo IH]; intros s0; [done|]. cbn [foldl]. rewrite IH.
      unfold clean_one. by destruct (_ <? rc); [|destruct (_ <? fc)]. }
    rewrite E. rewrite map_lookup_filter_Some. done.
Qed.
End Calls.

(** ** A registry of one task *)

Definition plain_order : MapOrder := mkOrder map_to_list (λ m, reflexivity (map_to_list m)).

Definition one_task : Config :=
  Conf.mkConfig (of_int 2) [] (str " Play ") 1 0 0 0 0 6 20 true false false false false false false false true true false 0.

Definition demo_probe : ProbeInfo :=
  mkProbeInfo 60000000000 1000 (str "Matroska") [] [mkTrackInfo (str "video") (str "video/x-h264") 1920 1080 false []].

Definition demo_choice (now : Z) : choice stream := mkChoice now plain_order (inr demo_probe) 0 (inr (mkStream 0 false)).

(** A request at second 1 builds a task for torrent a. *)
Definition demo_events : list (event stream) :=
  EGetOrAdd (str "a") (str "1") 0 :: replicate 6 (EStep 0 (demo_choice 1000000000)).

Lemma demo_world : let w := run demo_events (world_new one_task) in
  frames w = [] ∧ s_disposed (w_s w) = false ∧ answers w = [(str "a", str "1", 0, inr 0%nat)] ∧ tasks (w_s w) !! str "a" = Some 0%nat.
Proof. by vm_compute. Qed.

(** A request for torrent b gets task 1, and the task of torrent a has to go. *)
Lemma getOrAdd_alone_witness : let w := run demo_events (world_new one_task) in
  ∃ n s' res, steps n (demo_choice 2) (wstep (EGetOrAdd (str "b") (str "1") 0) w) =
      mkWorld s' [] (answers w ++ [(str "b", str "1", 0, res)]) ∧
    request_outcome (str "b") (str "1") 0 (demo_choice 2) (w_s w) s' res.
Proof. intros w. apply (getOrAdd_alone one_task demo_events (str "b") (str "1") 0 (demo_choice 2)); [vm_compute; reflexivity|done|done]. Defined.

Example demo_replaced :
  let w := steps 7 (demo_choice 2) (wstep (EGetOrAdd (str "b") (str "1") 0) (run demo_events (world_new one_task))) in
  frames w = [] ∧ map_to_list (tasks (w_s w)) = [(str "b", 1%nat)] ∧ task_disposed (w_s w) 0 = true ∧ task_disposed (w_s w) 1 = false.
Proof. vm_compute. by split_and!. Qed.

(** Half an hour later the task of torrent a is removed. *)
Lemma cleanup_alone_witness :
  let w := run demo_events (world_new one_task) in let s := w_s w in let now := 1801000000000 in
  let fc := now - Conf.inactiveDuration (conf s) in let rc := now - i64 (Conf.inactiveDuration (conf s) + 1200000000000) in
  ∃ n s', steps n (demo_choice now) (wstep (ECleanup plain_order now) w) = mkWorld s' [] (answers w) ∧
    cleanupRunning s' = false ∧
    (∀ id r ob, tasks s !! id = Some r → heap s !! r = Some ob →
       tasks s' !! id = (if lastActive (o_task ob) <? rc then None else Some r) ∧
       heap s' !! r = Some (mkObject (o_ID ob) (o_FileID ob) (tidied fc rc (o_task ob)))) ∧
    (∀ id, tasks s !! id = None → tasks s' !! id = None) ∧
    (∀ key e, probeCache s' !! key = Some e ↔ probeCache s !! key = Some e ∧ now < pe_expiresAt e).
Proof.
  cbv zeta. apply (cleanup_alone one_task demo_events plain_order 1801000000000 (demo_choice 1801000000000)); vm_compute; reflexivity.
Defined.
