(* ===== verification/GoNet.v ===== *)
(** * Addresses as Go reads them

    The functions of [net], [net/netip] and [bufio] the request filter uses: parsing of
    addresses and of blocks of addresses, splitting a host from a port, and the lines of
    a text.  An address ([net.IP]) is its bytes; [nil] is [None]. *)

From S2P Require Import Prelude GoText.
#[local] Open Scope Z_scope.

Notation IP := (list Z).

(** ** IPv4 *)

(** [parseIPv4Fields]: [prev] is the character before, [pos] the fields read, [val] and
    [digLen] the field under way. *)
Fixpoint ipv4_loop (s : bytes) (prev : Z) (fields : list Z) (val digLen : Z) : option (list Z) :=
  match s with
  | [] => if bool_decide (length fields < 3)%nat then None else Some (fields ++ [val])
  | c :: s' =>
      if is_digit c then
        if (digLen =? 1) && (val =? 0) then None
        else
          let val := val * 10 + (c - 48) in
          if 255 <? val then None else ipv4_loop s' c fields val (digLen + 1)
      else if c =? 46 then
        if bool_decide (s' = []) || (prev =? 46) then None
        else if bool_decide (length fields = 3)%nat then None
        else ipv4_loop s' c (fields ++ [val]) 0 0
      else None
  end.

(** At the start of the text a dot is refused as a dot after a dot is. *)
Definition parseIPv4Fields (s : bytes) : option (list Z) := ipv4_loop s 46 [] 0 0.

(** ** IPv6 *)

(** The hexadecimal number at the front of a text: its digits are read up to the fifth,
    which is an error ([None]); the rest of the text is returned. *)
Fixpoint hex_group (s : bytes) (off : nat) (acc : Z) : option (nat * Z * bytes) :=
  match s with
  | c :: s' =>
      match hex_val c with
      | Some v => if (3 <? Z.of_nat off) || (65535 <? acc * 16 + v) then None else hex_group s' (S off) (acc * 16 + v)
      | None => Some (off, acc, s)
      end
  | [] => Some (off, acc, s)
  end.

(** The loop of [parseIPv6]; [ip] holds the bytes read, [ellipsis] the place of the
    double colon among them.  A turn reads two bytes, so eight are enough. *)
Fixpoint ipv6_loop (fuel : nat) (s : bytes) (ip : list Z) (ellipsis : option nat) : option (bytes * list Z * option nat) :=
  match fuel with
  | O => Some (s, ip, ellipsis)
  | S fuel =>
      match hex_group s 0 0 with
      | None => None
      | Some (off, acc, rest) =>
          if bool_decide (off = 0%nat) then None
          else
            let ip2 := ip ++ [acc / 256; acc mod 256] in
            match rest with
            | [] => Some ([], ip2, ellipsis)
            | c :: rest =>
                if c =? 46 then
                  if (bool_decide (ellipsis = None) && negb (bool_decide (length ip = 12)%nat)) || (16 <? len ip + 4) then None
                  else match parseIPv4Fields s with Some v4 => Some ([], ip ++ v4, ellipsis) | None => None end
                else if negb (c =? 58) then None
                else
                  match rest with
                  | [] => None
                  | c2 :: rest2 =>
                      if negb (c2 =? 58) then ipv6_loop fuel rest ip2 ellipsis
                      else if bool_decide (ellipsis ≠ None) then None
                      else if bool_decide (rest2 = []) then Some ([], ip2, Some (length ip2))
                      else ipv6_loop fuel rest2 ip2 (Some (length ip2))
                  end
            end
      end
  end.

Definition has_zone (s : bytes) : bool := bool_decide (37 ∈ s).

(** An address with a zone is refused by all callers here, so the zone is not kept. *)
Definition parseIPv6 (s : bytes) : option IP :=
  if has_zone s then None
  else
    let '(s, start) := match s with 58 :: 58 :: s => (s, Some 0%nat) | _ => (s, None) end in
    if bool_decide (start ≠ None) && bool_decide (s = []) then Some (replicate 16 0)
    else
      match ipv6_loop 8 s [] start with
      | None => None
      | Some (rest, ip, ellipsis) =>
          if negb (bool_decide (rest = [])) then None
          else if len ip <? 16 then
            match ellipsis with
            | None => None
            | Some e => Some (take e ip ++ replicate (16 - length ip) 0 ++ drop e ip)
            end
          else if bool_decide (ellipsis ≠ None) then None else Some ip
      end.

(** ** Addresses *)

Inductive addr := V4 (b : list Z) | V6 (b : list Z).

(** [netip.ParseAddr]: the first dot, colon or per cent sign decides. *)
Fixpoint first_mark (s : bytes) : Z :=
  match s with
  | [] => 0
  | c :: s => if (c =? 46) || (c =? 58) || (c =? 37) then c else first_mark s
  end.

Definition ParseAddr (s : bytes) : option addr :=
  match first_mark s with
  | 46 => V4 <$> parseIPv4Fields s
  | 58 => V6 <$> parseIPv6 s
  | _ => None
  end.

Definition v4InV6Prefix : list Z := [0; 0; 0; 0; 0; 0; 0; 0; 0; 0; 255; 255].
Definition As16 (a : addr) : IP := match a with V4 b => v4InV6Prefix ++ b | V6 b => b end.
Definition BitLen (a : addr) : Z := match a with V4 _ => 32 | V6 _ => 128 end.

(** [net.ParseIP] *)
Definition ParseIP (s : bytes) : option IP := As16 <$> ParseAddr s.

(** [IP.To4], [IP.To16] *)
Definition To4 (ip : IP) : option IP :=
  if bool_decide (length ip = 4%nat) then Some ip
  else if bool_decide (length ip = 16%nat) && bool_decide (take 12 ip = v4InV6Prefix) then Some (drop 12 ip)
  else None.

Definition To16 (ip : IP) : option IP :=
  if bool_decide (length ip = 4%nat) then Some (v4InV6Prefix ++ ip)
  else if bool_decide (length ip = 16%nat) then Some ip else None.

(** ** Blocks of addresses *)

(** [dtoi]: the number at the front of a text, if it is below [big], and the rest. *)
Fixpoint dtoi (s : bytes) (n : Z) : option (Z * bytes) :=
  match s with
  | c :: s' => if is_digit c then let n := n * 10 + (c - 48) in if 16777215 <=? n then None else dtoi s' n else Some (n, s)
  | [] => Some (n, [])
  end.

(** [CIDRMask(ones, 8 * n)] *)
Definition mask_byte (ones : Z) : Z := if ones <=? 0 then 0 else if 8 <=? ones then 255 else 256 - 2 ^ (8 - ones).
Definition CIDRMask (ones : Z) (n : nat) : list Z := (λ i, mask_byte (ones - 8 * Z.of_nat i)) <$> seq 0 n.

(** [IP.Mask] of a 16-byte address: a mask of four bytes is for an IPv4 address, and
    nothing comes of it for another. *)
Definition Mask (mask : list Z) (ip : IP) : option IP :=
  let ip := if bool_decide (length mask = 4%nat) && bool_decide (take 12 ip = v4InV6Prefix) then drop 12 ip else ip in
  if bool_decide (length ip = length mask) then Some (zip_with Z.land ip mask) else None.

Definition slash : Z := 47.

(** [strings.Cut] at a character *)
Fixpoint cut_at (c : Z) (s : bytes) : option (bytes * bytes) :=
  match s with
  | [] => None
  | x :: s => if x =? c then Some ([], s) else '(a, b) ← cut_at c s; Some (x :: a, b)
  end.

(** [net.ParseCIDR]: the network and its mask. *)
Definition ParseCIDR (s : bytes) : option (IP * list Z) :=
  match cut_at slash s with
  | None => None
  | Some (addr, mask) =>
      match ParseAddr addr, mask with
      | None, _ | _, [] => None
      | Some a, c :: _ =>
          match dtoi mask 0 with
          | Some (n, []) =>
              if negb (is_digit c) || (BitLen a <? n) then None
              else
                let m := CIDRMask n (Z.to_nat (BitLen a / 8)) in
                (λ ip, (ip, m)) <$> Mask m (As16 a)
          | _ => None
          end
      end
  end.

(** ** Hosts and ports *)

Definition first_index (c : Z) (s : bytes) : option nat := fst <$> list_find (λ x, x = c) s.
Definition last_index (c : Z) (s : bytes) : option nat := (λ k, length s - 1 - k)%nat <$> first_index c (rev s).

(** [net.SplitHostPort], the host. *)
Definition SplitHost (hostport : bytes) : option bytes :=
  match last_index 58 hostport with
  | None => None
  | Some i =>
      match hostport with
      | 91 :: _ =>
          match first_index 93 hostport with
          | None => None
          | Some e =>
              if bool_decide (S e = i) then
                if bool_decide (91 ∈ drop 1 hostport) || bool_decide (93 ∈ drop (S e) hostport) then None
                else Some (take (e - 1) (drop 1 hostport))
              else None
          end
      | _ =>
          let host := take i hostport in
          if bool_decide (58 ∈ host) || bool_decide (91 ∈ hostport) || bool_decide (93 ∈ hostport) then None else Some host
      end
  end.

(** ** Lines *)

(** [bufio.Scanner] with [ScanLines] on a text: the lines, without the line feed and one
    carriage return before it, and whether a line was too long for the buffer of [max]
    bytes, after which nothing is read. *)
Definition drop_cr (l : bytes) : bytes := match last l with Some 13 => removelast l | _ => l end.

Fixpoint split_lines (s : bytes) (line : bytes) : list bytes :=
  match s with
  | [] => match line with [] => [] | _ => [line] end
  | c :: s => if c =? 10 then line :: split_lines s [] else split_lines s (line ++ [c])
  end.

Fixpoint fitting (max : Z) (lines : list bytes) : list bytes * bool :=
  match lines with
  | [] => ([], false)
  | l :: lines => if max <=? len l then ([], true) else let '(ls, err) := fitting max lines in (drop_cr l :: ls, err)
  end.

Definition scan_lines (max : Z) (s : bytes) : list bytes * bool := fitting max (split_lines s []).

Example parse_v4 : ParseIP (str "10.0.255.1") = Some (v4InV6Prefix ++ [10; 0; 255; 1]). Proof. reflexivity. Qed.
Example parse_v4_zero : ParseIP (str "10.0.255.01") = None. Proof. reflexivity. Qed.
Example parse_v6 : ParseIP (str "2001:db8::ff") = Some ([32; 1; 13; 184] ++ replicate 11 0 ++ [255]). Proof. reflexivity. Qed.
Example parse_v6_v4 : ParseIP (str "::ffff:1.2.3.4") = Some (v4InV6Prefix ++ [1; 2; 3; 4]). Proof. reflexivity. Qed.
Example parse_v6_full : ParseIP (str "1:2:3:4:5:6:7::8") = None ∧ is_Some (ParseIP (str "1:2:3:4:5:6:7:8")). Proof. split; [reflexivity|by eexists]. Qed.
Example parse_zone : ParseIP (str "fe80::1%eth0") = None. Proof. reflexivity. Qed.
Example parse_cidr : ParseCIDR (str "10.1.2.3/12") = Some ([10; 0; 0; 0], [255; 240; 0; 0]). Proof. reflexivity. Qed.
Example split_v6 : SplitHost (str "[2001:db8::1]:9999") = Some (str "2001:db8::1") ∧ SplitHost (str "1.2.3.4:80") = Some (str "1.2.3.4") ∧ SplitHost (str "[::1]") = None.
Proof. by split_and!. Qed.
Example lines_of : scan_lines 10 (str "ab" ++ [13; 10; 10] ++ str "c") = ([str "ab"; []; str "c"], false). Proof. reflexivity. Qed.
