(* ===== verification/Waf.v ===== *)
(** * The request filter ([server/web/waf])

    Requests are refused by the site that sends them, and by their address: a white list
    and a black list of ranges, and a list of hosts to which hosts built into the program
    are added.  The lists are texts kept in the settings; [store] holds what was last read
    of them. *)

From S2P Require Import Prelude GoText GoNet.
#[local] Open Scope Z_scope.

(** The parser of URLs and the tables of Unicode. *)
Record url := mkUrl { Scheme : bytes; User : bool; Path : bytes; RawQuery : bytes; Fragment : bytes; Hostname : bytes }.

Class WebText := {
  url_Parse : bytes → option url;
  ToLower : bytes → bytes;
  IsLetter : Z → bool;
  IsDigit : Z → bool;
}.

(** ** Ranges of addresses ([iplist.go]) *)

(** [bytes.Compare] *)
Fixpoint Compare (a b : bytes) : comparison :=
  match a, b with
  | [], [] => Eq
  | [], _ => Lt
  | _, [] => Gt
  | x :: a, y :: b => match x ?= y with Eq => Compare a b | c => c end
  end.
Definition less (a b : bytes) : bool := match Compare a b with Lt => true | _ => false end.
Definition at_most (a b : bytes) : bool := match Compare a b with Gt => false | _ => true end.

Record Range := mkRange { First : IP; Last : IP; Description : bytes }.

Definition range_before (a b : Range) : bool :=
  match Compare (First a) (First b) with Lt => true | Eq => less (Last a) (Last b) | Gt => false end.

(** [New]: the sort is stable. *)
Definition New (ranges : list Range) : list Range := insertion_sort range_before ranges.
Definition NumRanges (ipl : list Range) : Z := len ipl.

Definition in_range (ip : IP) (r : Range) : bool :=
  bool_decide (length (First r) = length ip) && bool_decide (length (Last r) = length ip) &&
  at_most (First r) ip && at_most ip (Last r).

(** [Lookup] and [lookup] *)
Definition lookup_ip (ipl : list Range) (ip : IP) : option Range := List.find (in_range ip) ipl.

Definition Lookup (ipl : list Range) (ip : option IP) : option Range :=
  match ip with
  | None => None
  | Some ip =>
      match To4 ip with
      | Some v4 => lookup_ip ipl v4
      | None => match To16 ip with Some v6 => lookup_ip ipl v6 | None => None end
      end
  end.

Definition minifyIP (ip : option IP) : option IP :=
  match ip with Some b => match To4 b with Some v4 => Some v4 | None => Some b end | None => None end.

(** ** Lines of the lists ([parse.go]) *)

Definition maxScannerTokenSize : Z := 1024 * 1024.

(** [lastIP] *)
Definition lastIP (network : IP) (mask : list Z) : IP := zip_with (λ b m, Z.lor b (255 - m)) network mask.

(** The first hyphen with an address on either side; [i] is the place of the next
    character. *)
Fixpoint hyphen_from (spec : bytes) (n i : nat) : option nat :=
  match n with
  | O => None
  | S n =>
      if bool_decide (spec !! i = Some 45) &&
         bool_decide (is_Some (ParseIP (TrimSpace (take i spec)))) && bool_decide (is_Some (ParseIP (TrimSpace (drop (S i) spec))))
      then Some i else hyphen_from spec n (S i)
  end.
Definition findRangeHyphen (spec : bytes) : option nat := hyphen_from spec (length spec - 2) 1.

Definition same_family (first last : option IP) : option (IP * IP) :=
  match first, last with
  | Some f, Some l => if bool_decide (length f = length l) then Some (f, l) else None
  | _, _ => None
  end.

(** [None] is an error. *)
Definition parseIPSpec (spec : bytes) : option (IP * IP) :=
  let spec := TrimSpace spec in
  if bool_decide (spec = []) then None
  else if bool_decide (47 ∈ spec) then
    match ParseCIDR spec with
    | None => None
    | Some (network, mask) => same_family (minifyIP (Some network)) (minifyIP (Some (lastIP network mask)))
    end
  else
    match findRangeHyphen spec with
    | Some hyphen =>
        '(f, l) ← same_family (minifyIP (ParseIP (TrimSpace (take hyphen spec)))) (minifyIP (ParseIP (TrimSpace (drop (S hyphen) spec))));
        if negb (at_most f l) then None else Some (f, l)
    | None => f ← minifyIP (ParseIP spec); Some (f, f)
    end.

(** A comment or a blank line, a range, or an error. *)
Inductive parsed := Skip | Ranged (r : Range) | Bad.

Definition parseLine (l : bytes) : parsed :=
  let line := TrimSpace l in
  match line with
  | [] | 35 :: _ => Skip
  | _ =>
      match parseIPSpec line with
      | Some (f, l) => Ranged (mkRange f l [])
      | None =>
          match cut_at 58 line with
          | None | Some ([], _) => Bad
          | Some (desc, spec) =>
              let desc := TrimSpace desc in let spec := TrimSpace spec in
              if bool_decide (desc = []) || bool_decide (spec = []) then Bad
              else match parseIPSpec spec with Some (f, l) => Ranged (mkRange f l desc) | None => Bad end
          end
      end
  end.

Inductive code := invalid_ip_range | line_too_long | invalid_referer | read_failed.
Record ParseWarning := mkWarning { Line : Z; Code : code }.

(** The loop over the lines; [lineNo] is the number of the line before. *)
Fixpoint scan_ranges (lines : list bytes) (lineNo : Z) : list Range * list ParseWarning * Z :=
  match lines with
  | [] => ([], [], lineNo)
  | l :: lines =>
      let lineNo := lineNo + 1 in
      let '(rs, ws, n) := scan_ranges lines lineNo in
      match parseLine l with
      | Skip => (rs, ws, n)
      | Ranged r => (r :: rs, ws, n)
      | Bad => (rs, mkWarning lineNo invalid_ip_range :: ws, n)
      end
  end.

Definition scanBuf (buf : bytes) : list Range * list ParseWarning :=
  if bool_decide (buf = []) then (New [], [])
  else
    let '(lines, err) := scan_lines maxScannerTokenSize buf in
    let '(rs, ws, n) := scan_ranges lines 0 in
    (New rs, ws ++ if err then [mkWarning (n + 1) line_too_long] else []).

(** ** Hosts ([referer.go]) *)

Section Waf.
Context `{!WebText}.

Definition defaultBlockedReferers : list bytes :=
  str <$> ["abhq.ru"; "abmsx.tech"; "akter.black"; "bylampa.online"; "lampa.click"; "lampa.land"; "lampa1.ru"; "line.pm";
           "nnmtv.pw"; "stull.xyz"; "tvigl.info"; "uspeh.sbs"; "usph.xyz"; "xabb.ru"]%string.

(** One of the loops of [mergeReferers]; what is in [blocked] has been seen. *)
Fixpoint merge_hosts (hosts blocked : list bytes) : list bytes :=
  match hosts with
  | [] => blocked
  | h :: hosts =>
      let h := ToLower (TrimSpace h) in
      if bool_decide (h = []) || bool_decide (h ∈ blocked) then merge_hosts hosts blocked else merge_hosts hosts (blocked ++ [h])
  end.
Definition mergeReferers (defaults fileHosts : list bytes) : list bytes := merge_hosts fileHosts (merge_hosts defaults []).

(** [strings.TrimSuffix], [strings.Trim(s, "[]")] *)
Definition TrimSuffix (s suffix : bytes) : bytes := match strip_prefix (rev suffix) (rev s) with Some r => rev r | None => s end.
Definition is_bracket (c : Z) : bool := (c =? 91) || (c =? 93).
Fixpoint drop_while (p : Z → bool) (s : bytes) : bytes := match s with c :: s' => if p c then drop_while p s' else s | [] => [] end.
Definition TrimBrackets (s : bytes) : bytes := rev (drop_while is_bracket (rev (drop_while is_bracket s))).

(** [strings.Split] at a character *)
Fixpoint split_at (c : Z) (s cur : bytes) : list bytes :=
  match s with
  | [] => [cur]
  | x :: s => if x =? c then cur :: split_at c s [] else split_at c s (cur ++ [x])
  end.

Definition label_ok (label : bytes) : bool :=
  negb (bool_decide (label = [])) && (len label <=? 63) && negb (bool_decide (head label = Some 45)) && negb (bool_decide (last label = Some 45)) &&
  forallb (λ r, IsLetter r || IsDigit r || (r =? 45)) (runes label).

Definition contains_any (s cs : bytes) : bool := existsb (λ c, bool_decide (c ∈ cs)) s.

Definition rule_host (value : bytes) : option bytes :=
  if bool_decide (is_Some (list_find (λ i, is_Some (strip_prefix (str "://") (drop i value))) (seq 0 (length value)))) then
    match url_Parse value with
    | None => None
    | Some u =>
        if negb (bool_decide (Scheme u = str "http") || bool_decide (Scheme u = str "https")) || User u ||
           negb (bool_decide (Path u = []) || bool_decide (Path u = str "/")) || negb (bool_decide (RawQuery u = [])) || negb (bool_decide (Fragment u = []))
        then None else Some (Hostname u)
    end
  else if contains_any value (str "/?#@") then None
  else match SplitHost value with Some h => Some h | None => Some value end.

Definition normalizeRefererRule (value : bytes) : option bytes :=
  let value := TrimSpace value in
  if bool_decide (value = []) || bool_decide (42 ∈ value) then None
  else
    host ← rule_host value;
    let host := TrimBrackets (ToLower (TrimSuffix (TrimSpace host) (str "."))) in
    if bool_decide (host = []) then None
    else if bool_decide (is_Some (ParseIP host)) then Some host
    else if 253 <? len host then None
    else if forallb label_ok (split_at 46 host []) then Some host else None.

Fixpoint scan_hosts (lines : list bytes) (lineNo : Z) : list bytes * list ParseWarning * Z :=
  match lines with
  | [] => ([], [], lineNo)
  | l :: lines =>
      let lineNo := lineNo + 1 in
      let '(hs, ws, n) := scan_hosts lines lineNo in
      match TrimSpace l with
      | [] | 35 :: _ => (hs, ws, n)
      | line => match normalizeRefererRule line with
                | Some h => (h :: hs, ws, n)
                | None => (hs, mkWarning lineNo invalid_referer :: ws, n)
                end
      end
  end.

Definition scanRefererBufValidated (buf : bytes) : list bytes * list ParseWarning :=
  if bool_decide (buf = []) then ([], [])
  else
    let '(lines, err) := scan_lines maxScannerTokenSize buf in
    let '(hs, ws, n) := scan_hosts lines 0 in
    (hs, ws ++ if err then [mkWarning (n + 1) line_too_long] else []).

Definition hostFromHeader (value : bytes) : bytes :=
  let value := TrimSpace value in
  if bool_decide (value = []) then []
  else match url_Parse value with Some u => ToLower (TrimSuffix (Hostname u) (str ".")) | None => [] end.

(** [strings.HasSuffix] *)
Definition HasSuffix (s suffix : bytes) : bool := starts_with (rev suffix) (rev s).

Definition hostMatchesBlocked (host : bytes) (blocked : list bytes) : bool :=
  let host := ToLower (TrimSpace host) in
  negb (bool_decide (host = [])) &&
  existsb (λ b, negb (bool_decide (b = [])) && (bool_decide (host = b) || HasSuffix host (46 :: b))) blocked.

Definition isBlockedReferer (referer origin : bytes) (blocked : list bytes) : option bytes :=
  let by_header value := let host := hostFromHeader value in if negb (bool_decide (host = [])) && hostMatchesBlocked host blocked then Some host else None in
  match by_header referer with Some h => Some h | None => by_header origin end.

(** ** The store ([store.go]) *)

Record Snapshot := mkSnapshot {
  WhiteIP : list Range; BlackIP : list Range; Referers : list bytes;
  WhitelistText : bytes; BlacklistText : bytes; ReferersText : bytes;
  Warnings : list (string * ParseWarning); IPEnabled : bool; RefererEnabled : bool }.

(** The lists as the settings keep them: [WAFConfig], without its version. *)
Record WAFConfig := mkWAFConfig { Whitelist : list bytes; Blacklist : list bytes; c_Referers : list bytes }.

Definition lf : Z := 10.
Fixpoint drop_crlf (s : bytes) : bytes :=
  match s with
  | 13 :: 10 :: s => 10 :: drop_crlf s
  | c :: s => c :: drop_crlf s
  | [] => []
  end.

Definition textToList (text : bytes) : list bytes :=
  List.filter (λ line, negb (bool_decide (TrimSpace line = []))) (split_at lf (drop_crlf text) []).

Fixpoint listToText (lines : list bytes) : bytes :=
  match lines with [] => [] | [l] => l | l :: lines => l ++ lf :: listToText lines end.

(** [loadLists] for what [GetWAFConfig] gives; on an error the lists are empty. *)
Definition loadLists (cfg : option WAFConfig) : Snapshot :=
  let c := default (mkWAFConfig [] [] []) cfg in
  let storageWarnings := match cfg with Some _ => [] | None => [("storage"%string, mkWarning 0 read_failed)] end in
  let whiteBuf := listToText (Whitelist c) in let blackBuf := listToText (Blacklist c) in let referBuf := listToText (c_Referers c) in
  let '(white, wWarn) := scanBuf whiteBuf in
  let '(black, bWarn) := scanBuf blackBuf in
  let '(userReferers, rWarn) := scanRefererBufValidated referBuf in
  let referers := mergeReferers defaultBlockedReferers userReferers in
  mkSnapshot white black referers whiteBuf blackBuf referBuf
    (storageWarnings ++ (pair "whitelist"%string <$> wWarn) ++ (pair "blacklist"%string <$> bWarn) ++ (pair "referers"%string <$> rWarn))
    ((0 <? NumRanges white) || (0 <? NumRanges black)) (0 <? len referers).

(** What is in the settings ([None]: not readable) and what was last read. *)
Record store := mkStore { settings : option WAFConfig; snap : Snapshot }.

Definition reload (s : store) : store := mkStore (settings s) (loadLists (settings s)).

(** [update]; [saved] says whether the settings could be written.  The two mutexes make it
    atomic for the other updates, and readers see the old or the new snapshot. *)
Definition update (whitelist blacklist referers : bytes) (saved : bool) (s : store) : bool * store :=
  if negb saved then (false, s)
  else (true, reload (mkStore (Some (mkWAFConfig (textToList whitelist) (textToList blacklist) (textToList referers))) (snap s))).

(** ** The filter ([waf.go]) *)

Record request := mkRequest { Referer : bytes; Origin : bytes; RemoteAddr : bytes }.
Inductive verdict := Next | Banned.

Definition clientIP (remoteAddr : bytes) : option IP :=
  ParseIP (match SplitHost remoteAddr with Some h => h | None => TrimBrackets remoteAddr end).

Definition WAF (s : Snapshot) (c : request) : verdict :=
  match isBlockedReferer (Referer c) (Origin c) (Referers s) with
  | Some _ => Banned
  | None =>
      if negb (IPEnabled s) then Next
      else
        match minifyIP (clientIP (RemoteAddr c)) with
        | None => Banned
        | Some ip =>
            if (0 <? NumRanges (WhiteIP s)) && bool_decide (Lookup (WhiteIP s) (Some ip) = None) then Banned
            else if (0 <? NumRanges (BlackIP s)) && negb (bool_decide (Lookup (BlackIP s) (Some ip) = None)) then Banned
            else Next
        end
  end.
End Waf.
