(* ===== verification/WafProps.v ===== *)
(** * What the request filter lets through

    [waf_decides] says which requests pass, by the texts of the lists; [cidr_covers] what
    a block of addresses covers; [defaults_enforced] that the hosts built in are refused
    whatever the lists say. *)

From S2P Require Import Prelude GoText GoNet Waf.
#[local] Open Scope Z_scope.

(** ** Ranges *)

Lemma New_perm rs : New rs ≡ₚ rs.
Proof. apply insertion_sort_perm. Qed.

Lemma lookup_ip_None rs ip : lookup_ip (New rs) ip = None ↔ ∀ r, r ∈ rs → in_range ip r = false.
Proof.
  unfold lookup_ip. split.
  - intros Hn r Hr. rewrite <- New_perm in Hr. apply list_elem_of_In in Hr. by apply (List.find_none _ _ Hn).
  - intros Hall. destruct (List.find _ _) as [r|] eqn:E; [|done]. apply List.find_some in E as [Hin Hr]. apply list_elem_of_In in Hin.
    rewrite New_perm in Hin. by rewrite (Hall r Hin) in Hr.
Qed.

Lemma To4_length ip v : To4 ip = Some v → length v = 4%nat.
Proof.
  unfold To4. case_bool_decide as E4; [by intros [= <-]|]. case_bool_decide as E16; [|done]. destruct (bool_decide _); [|done].
  intros [= <-]. rewrite length_drop, E16. done.
Qed.

Lemma To4_short v : length v = 4%nat → To4 v = Some v.
Proof. intros H. unfold To4. by rewrite bool_decide_true. Qed.

(** A client's address in the form it is looked up. *)
Lemma Lookup_minified rs ip m : minifyIP (Some ip) = Some m → length ip = 16%nat →
  (Lookup (New rs) (Some m) = None ↔ ∀ r, r ∈ rs → in_range m r = false).
Proof.
  intros Hm Hl. unfold Lookup. unfold minifyIP in Hm. destruct (To4 ip) as [v|] eqn:E.
  - injection Hm as <-. rewrite (To4_short v) by by eapply To4_length. apply lookup_ip_None.
  - injection Hm as <-. rewrite E. unfold To16. rewrite bool_decide_false, bool_decide_true by (done || congruence). apply lookup_ip_None.
Qed.

(** ** Addresses have sixteen bytes *)

Lemma ipv4_loop_length s prev fields val d v : ipv4_loop s prev fields val d = Some v → (length fields ≤ 3)%nat → length v = 4%nat.
Proof.
  revert prev fields val d. induction s as [|c s IH]; intros prev fields val d; cbn [ipv4_loop].
  - case_bool_decide; [done|]. intros [= <-] Hl. rewrite length_app. simpl. lia.
  - destruct (is_digit c); [destruct (_ && _); [done|destruct (255 <? _); [done|apply IH]]|]. destruct (c =? 46); [|done].
    destruct (_ || _); [done|]. case_bool_decide as E3; [done|]. intros H Hl. apply (IH _ _ _ _ H). rewrite length_app. simpl. lia.
Qed.

Lemma ipv6_loop_length fuel s ip e rest ip' e' : ipv6_loop fuel s ip e = Some (rest, ip', e') →
  (length ip + 2 * fuel ≤ 16)%nat → (∀ k, e = Some k → (k ≤ length ip)%nat) →
  (length ip' ≤ 16)%nat ∧ ∀ k, e' = Some k → (k ≤ length ip')%nat.
Proof.
  revert s ip e. induction fuel as [|fuel IH]; intros s ip e; cbn [ipv6_loop].
  { intros [= <- <- <-] Hl He. split; [lia|done]. }
  destruct (hex_group s 0 0) as [[[off acc] r]|]; [|done]. destruct (bool_decide (off = 0%nat)); [done|].
  set (ip2 := ip ++ [acc / 256; acc mod 256]). assert (Hl2 : length ip2 = (length ip + 2)%nat) by (unfold ip2; rewrite length_app; done).
  assert (Hend : ∀ r' e2, (length ip + 2 * S fuel ≤ 16)%nat → (∀ k, e2 = Some k → (k ≤ length ip2)%nat) →
    Some (r', ip2, e2) = Some (rest, ip', e') → (length ip' ≤ 16)%nat ∧ ∀ k, e' = Some k → (k ≤ length ip')%nat).
  { intros r' e2 Hl He [= <- <- <-]. split; [lia|done]. }
  intros H Hl He. assert (He2 : ∀ k, e = Some k → (k ≤ length ip2)%nat) by (intros k Hk; specialize (He k Hk); lia).
  destruct r as [|c r]; [by eapply (Hend [] e)|]. destruct (c =? 46).
  - destruct (_ && _); [done|]. cbn [orb] in H. destruct (16 <? len ip + 4) eqn:Er; [done|]. destruct (parseIPv4Fields s) as [v4|] eqn:Ev; [|done].
    injection H as <- <- <-. unfold parseIPv4Fields in Ev. apply ipv4_loop_length in Ev; [|simpl; lia].
    rewrite length_app, Ev. unfold len in Er. reflect_bools. split; [lia|]. intros k Hk. specialize (He k Hk). lia.
  - destruct (negb (c =? 58)); [done|]. destruct r as [|c2 r]; [done|]. destruct (negb (c2 =? 58)); [eapply IH; [exact H|lia|done]|].
    destruct (bool_decide (e ≠ None)); [done|]. destruct (bool_decide (r = [])).
    + eapply (Hend [] (Some (length ip2))); [done|by intros k [= <-]|exact H].
    + eapply IH; [exact H|lia|by intros k [= <-]].
Qed.

Lemma parseIPv6_length s ip : parseIPv6 s = Some ip → length ip = 16%nat.
Proof.
  unfold parseIPv6. destruct (has_zone s); [done|].
  set (p := match s with 58 :: 58 :: s => (s, Some 0%nat) | _ => (s, None) end).
  assert (Hp : ∀ k, p.2 = Some k → k = 0%nat).
  { unfold p. clear. intros k. repeat case_match; simpl; congruence. }
  clearbody p. destruct p as [s' start]. cbn [snd] in Hp. destruct (_ && _); [by intros [= <-]|].
  destruct (ipv6_loop 8 s' [] start) as [[[rest ip'] e]|] eqn:E; [|done].
  apply ipv6_loop_length in E as [Hl He]; [|simpl; lia|intros k Hk; rewrite (Hp k Hk); simpl; lia].
  destruct (negb _); [done|]. destruct (len ip' <? 16) eqn:E16; reflect_bools; unfold len in *.
  - destruct e as [k|]; [|done]. intros [= <-]. specialize (He k eq_refl). rewrite !length_app, length_replicate, length_take, length_drop. lia.
  - destruct (bool_decide _); [done|]. intros [= <-]. lia.
Qed.

Lemma ParseIP_length s ip : ParseIP s = Some ip → length ip = 16%nat.
Proof.
  unfold ParseIP, ParseAddr. intros H.
  assert (Ha : ∃ a, As16 a = ip ∧ (V4 <$> parseIPv4Fields s = Some a ∨ V6 <$> parseIPv6 s = Some a)).
  { repeat case_match; try done; apply fmap_Some in H as (a&?&->); exists a; eauto. }
  destruct Ha as (a&<-&[Ha|Ha]); apply fmap_Some in Ha as (v&Hv&->); cbn [As16].
  - unfold parseIPv4Fields in Hv. apply ipv4_loop_length in Hv; [|simpl; lia]. rewrite length_app, Hv. done.
  - by eapply parseIPv6_length.
Qed.

(** ** Texts and their lines *)

Definition short (text : bytes) : Prop := Forall (λ l, len l < maxScannerTokenSize) (textToList text).

(** The ranges of a text: those of its lines that are one. *)
Definition ranged (l : bytes) : option Range := match parseLine l with Ranged r => Some r | _ => None end.
Definition line_ranges (text : bytes) : list Range := omap (λ l, ranged (drop_cr l)) (textToList text).

Lemma split_at_no c s cur : c ∉ cur → Forall (λ l, c ∉ l) (split_at c s cur).
Proof.
  revert cur. induction s as [|x s IH]; intros cur Hc; cbn [split_at]; [by repeat constructor|]. destruct (x =? c) eqn:E; reflect_bools.
  - constructor; [done|]. apply IH. apply not_elem_of_nil.
  - apply IH. intros [?| ->%list_elem_of_singleton]%elem_of_app; done.
Qed.

Lemma textToList_lines text : Forall (λ l, 10 ∉ l ∧ l ≠ []) (textToList text).
Proof.
  unfold textToList. pose proof (split_at_no lf (drop_crlf text) [] (not_elem_of_nil _)) as Hs. rewrite Forall_forall in *.
  intros l Hl%list_elem_of_In. apply List.filter_In in Hl as [Hin Hb]. split; [by apply Hs, list_elem_of_In|]. by intros ->.
Qed.

Lemma split_lines_line l cur s : 10 ∉ l → split_lines (l ++ 10 :: s) cur = (cur ++ l) :: split_lines s [].
Proof.
  revert cur. induction l as [|x l IH]; intros cur Hl; cbn [app split_lines]; [by rewrite app_nil_r|].
  apply not_elem_of_cons in Hl as [Hx Hl]. rewrite (proj2 (Z.eqb_neq x 10)) by done. rewrite IH by done. by rewrite <- app_assoc.
Qed.

Lemma split_lines_last l cur : 10 ∉ l → cur ++ l ≠ [] → split_lines l cur = [cur ++ l].
Proof.
  revert cur. induction l as [|x l IH]; intros cur Hl Hne; cbn [split_lines].
  - rewrite app_nil_r in *. by destruct cur.
  - apply not_elem_of_cons in Hl as [Hx Hl]. rewrite (proj2 (Z.eqb_neq x 10)) by done. rewrite IH; [by rewrite <- app_assoc|done|by destruct cur].
Qed.

Lemma split_lines_text ls : Forall (λ l, 10 ∉ l ∧ l ≠ []) ls → split_lines (listToText ls) [] = ls.
Proof.
  induction 1 as [|l ls [Hl Hne] Hf IH]; [done|]. destruct ls as [|l' ls]; cbn [listToText].
  - by apply split_lines_last.
  - rewrite split_lines_line by done. cbn [app]. by f_equal.
Qed.

Lemma fitting_all max ls : Forall (λ l, len l < max) ls → fitting max ls = (drop_cr <$> ls, false).
Proof. induction 1 as [|l ls Hl _ IH]; [done|]. cbn [fitting fmap list_fmap]. rewrite (proj2 (Z.leb_gt _ _)) by lia. by rewrite IH. Qed.

Lemma scan_ranges_omap ls n : (scan_ranges ls n).1.1 = omap ranged ls.
Proof.
  revert n. induction ls as [|l ls IH]; intros n; [done|]. cbn [scan_ranges omap list_omap]. specialize (IH (n + 1)).
  destruct (scan_ranges ls (n + 1)) as [[rs ws] m]. cbn [fst] in IH. rewrite <- IH. unfold ranged. by destruct (parseLine l).
Qed.

Lemma listToText_nil ls : Forall (λ l, 10 ∉ l ∧ l ≠ []) ls → listToText ls = [] → ls = [].
Proof. destruct 1 as [|l [|l' ls] [_ Hl]]; [done| |]; cbn [listToText]; [done|by destruct l]. Qed.

Lemma omap_fmap' {A B C} (f : A → B) (g : B → option C) (l : list A) : omap g (f <$> l) = omap (λ x, g (f x)) l.
Proof. induction l as [|x l IH]; [done|]. cbn. rewrite <- IH. done. Qed.

Lemma scanBuf_stored text : short text → (scanBuf (listToText (textToList text))).1 = New (line_ranges text).
Proof.
  intros Hs. pose proof (textToList_lines text) as Hl. unfold scanBuf, line_ranges. case_bool_decide as E.
  - apply listToText_nil in E; [|done]. by rewrite E.
  - unfold scan_lines. rewrite split_lines_text, fitting_all by done.
    pose proof (scan_ranges_omap (drop_cr <$> textToList text) 0) as Ho. destruct (scan_ranges _ 0) as [[rs ws] m]. cbn [fst] in *.
    by rewrite Ho, omap_fmap'.
Qed.

Lemma NumRanges_New rs : (0 <? NumRanges (New rs)) = negb (bool_decide (rs = [])).
Proof.
  unfold NumRanges, len. rewrite (Permutation_length (New_perm rs)). destruct rs; [done|]. rewrite bool_decide_false by done. apply Z.ltb_lt. simpl. lia.
Qed.

(** ** What passes *)

Section Decides.
Context `{!WebText}.

Lemma loadLists_fields w b r :
  let s := loadLists (Some (mkWAFConfig (textToList w) (textToList b) r)) in
  short w → short b →
  WhiteIP s = New (line_ranges w) ∧ BlackIP s = New (line_ranges b) ∧
  IPEnabled s = negb (bool_decide (line_ranges w = [])) || negb (bool_decide (line_ranges b = [])).
Proof.
  intros s Hw Hb. unfold s, loadLists. cbn [default from_option id Whitelist Blacklist c_Referers].
  pose proof (scanBuf_stored w Hw) as Ew. pose proof (scanBuf_stored b Hb) as Eb.
  destruct (scanBuf (listToText (textToList w))) as [rw ww], (scanBuf (listToText (textToList b))) as [rb wb]. cbn [fst] in *. subst.
  destruct (scanRefererBufValidated _) as [hs ws]. cbn [WhiteIP BlackIP IPEnabled]. by rewrite !NumRanges_New.
Qed.

(** The two lists against an address. *)
Lemma lists_verdict (white black : list Range) (m ip : IP) : minifyIP (Some ip) = Some m → length ip = 16%nat →
  (if (0 <? NumRanges (New white)) && bool_decide (Lookup (New white) (Some m) = None) then Banned
   else if (0 <? NumRanges (New black)) && negb (bool_decide (Lookup (New black) (Some m) = None)) then Banned else Next) = Next ↔
  (white = [] ∨ ∃ r, r ∈ white ∧ in_range m r = true) ∧ ∀ r, r ∈ black → in_range m r = false.
Proof.
  intros Hm Hl. pose proof (Lookup_minified white ip m Hm Hl) as LW. pose proof (Lookup_minified black ip m Hm Hl) as LB. rewrite !NumRanges_New.
  assert (EB : negb (bool_decide (black = [])) && negb (bool_decide (Lookup (New black) (Some m) = None)) = negb (bool_decide (Lookup (New black) (Some m) = None))).
  { case_bool_decide as Eb; [|done]. rewrite bool_decide_true; [done|]. apply LB. rewrite Eb. by intros r ?%elem_of_nil. }
  rewrite EB. clear EB. rewrite <- LB. destruct (decide (white = [])) as [Ew|Ew].
  - rewrite (bool_decide_true (white = [])) by done. cbn [negb andb]. case_bool_decide; cbn [negb]; split; [split; [by left|done]|done|done|by intros [_ ?]].
  - rewrite (bool_decide_false (white = [])) by done. cbn [negb andb]. case_bool_decide as E.
    + split; [done|]. intros [[?|(r&Hr&Hin)] _]; [done|]. by rewrite (proj1 LW E r Hr) in Hin.
    + assert (Hex : ∃ r, r ∈ white ∧ in_range m r = true).
      { destruct (List.find (in_range m) white) as [r|] eqn:Ef; [apply List.find_some in Ef as [Hin Hr]; exists r; by rewrite list_elem_of_In|].
        exfalso. apply E, LW. intros r Hr. apply (List.find_none _ _ Ef). by apply list_elem_of_In. }
      case_bool_decide; cbn [negb]; split; [split; [by right|done]|done|done|by intros [_ ?]].
Qed.

(** C24: after an update, a request passes exactly when neither of its headers names a
    blocked host and, if any line of the lists is a range, its address can be read, lies
    in a range of the white list, unless no line of that is one, and in no range of the
    black list. *)
Theorem waf_decides (whitelist blacklist referers : bytes) (s : store) (c : request) :
  short whitelist → short blacklist →
  let now := snap (update whitelist blacklist referers true s).2 in
  let white := line_ranges whitelist in let black := line_ranges blacklist in
  WAF now c = Next ↔
  isBlockedReferer (Referer c) (Origin c) (Referers now) = None ∧
  (white = [] ∧ black = [] ∨
   ∃ ip, minifyIP (clientIP (RemoteAddr c)) = Some ip ∧
     (white = [] ∨ ∃ r, r ∈ white ∧ in_range ip r = true) ∧ ∀ r, r ∈ black → in_range ip r = false).
Proof.
  intros Hw Hb now white black. unfold now, update. cbn [negb snd snap reload settings].
  destruct (loadLists_fields whitelist blacklist (textToList referers) Hw Hb) as (EW&EB&EI). fold white in EW, EI. fold black in EB, EI.
  set (sn := loadLists _) in *. unfold WAF. destruct (isBlockedReferer _ _ _) as [h|]; [by split; [|intros [? _]]|].
  rewrite EI, EW, EB. destruct (decide (white = [] ∧ black = [])) as [[E1 E2]|Hne].
  { rewrite !bool_decide_true by done. cbn. split; [|done]. intros _. split; [done|by left]. }
  assert (negb (negb (bool_decide (white = [])) || negb (bool_decide (black = []))) = false) as ->.
  { case_bool_decide as E1; [|done]. case_bool_decide as E2; [|done]. by destruct Hne. }
  destruct (clientIP (RemoteAddr c)) as [ip|] eqn:Eip.
  - assert (Hl : length ip = 16%nat) by by eapply ParseIP_length.
    destruct (minifyIP (Some ip)) as [m|] eqn:Em; [|unfold minifyIP in Em; by destruct (To4 ip)].
    rewrite (lists_verdict white black m ip Em Hl). split; [intros ?; split; [done|]; right; by exists m|].
    by intros (_&[?|(m'&[= <-]&?)]).
  - split; [done|]. by intros (_&[?|(m&?&_)]).
Qed.
End Decides.

(** ** Blocks *)

Definition mask_bytes : list Z := [0; 128; 192; 224; 240; 248; 252; 254; 255].

(** A byte against a byte of a network, under a byte of a mask. *)
Lemma byte_covered m n x : m ∈ mask_bytes → 0 <= n < 256 → 0 <= x < 256 → Z.land n m = n →
  (n <= x ∧ x <= Z.lor n (255 - m)) ↔ Z.land x m = n.
Proof.
  intros Hm Hn Hx Hl.
  assert (Hall : forallb (λ m, forallb (λ n, negb (Z.land n m =? n) ||
    forallb (λ x, Bool.eqb ((n <=? x) && (x <=? Z.lor n (255 - m))) (Z.land x m =? n)) (seqZ 0 256)) (seqZ 0 256)) mask_bytes = true) by (vm_compute; reflexivity).
  rewrite forallb_forall in Hall. specialize (Hall m (proj1 (list_elem_of_In _ _) Hm)). rewrite forallb_forall in Hall.
  specialize (Hall n ltac:(apply list_elem_of_In, elem_of_seqZ; lia)). rewrite (proj2 (Z.eqb_eq _ _) Hl) in Hall. cbn [negb orb] in Hall.
  rewrite forallb_forall in Hall. specialize (Hall x ltac:(apply list_elem_of_In, elem_of_seqZ; lia)). apply eqb_prop in Hall.
  rewrite <- Z.eqb_eq, <- Hall, andb_true_iff, !Z.leb_le. done.
Qed.

Lemma land_prefix a m : m ∈ mask_bytes → 0 <= Z.land a m < 256 ∧ Z.land (Z.land a m) m = Z.land a m.
Proof.
  intros Hm. rewrite <- Z.land_assoc, Z.land_diag. split; [|done].
  assert (Z.land a m = Z.land (Z.land a 255) m) as ->.
  { rewrite <- Z.land_assoc. f_equal. unfold mask_bytes in Hm. rewrite !elem_of_cons in Hm. repeat destruct Hm as [->|Hm]; try done. by apply elem_of_nil in Hm. }
  change 255 with (Z.ones 8). rewrite Z.land_ones by lia. pose proof (Z.mod_pos_bound a (2 ^ 8) ltac:(lia)) as Hb. set (b := a mod 2 ^ 8) in *.
  assert (Hall : forallb (λ m, forallb (λ n, (0 <=? Z.land n m) && (Z.land n m <? 256)) (seqZ 0 256)) mask_bytes = true) by (vm_compute; reflexivity).
  rewrite forallb_forall in Hall. specialize (Hall m (proj1 (list_elem_of_In _ _) Hm)). rewrite forallb_forall in Hall.
  specialize (Hall b ltac:(apply list_elem_of_In, elem_of_seqZ; lia)). zlia.
Qed.

(** The bytes of a mask: ones, then zeros. *)
Fixpoint contiguous (mask : list Z) : Prop :=
  match mask with [] => True | m :: ms => m = 255 ∧ contiguous ms ∨ m ∈ mask_bytes ∧ Forall (λ x, x = 0) ms end.

Lemma mask_byte_in n : mask_byte n ∈ mask_bytes.
Proof.
  unfold mask_byte. destruct (n <=? 0) eqn:E; [by left|]. destruct (8 <=? n) eqn:E8; reflect_bools; [by do 8 right; left|].
  assert (n ∈ [1; 2; 3; 4; 5; 6; 7]) as Hn by (assert (n ∈ seqZ 1 7) as H by (apply elem_of_seqZ; lia); exact H).
  rewrite !elem_of_cons in Hn. repeat destruct Hn as [->|Hn]; try (by apply (bool_decide_eq_true_1 (_ ∈ mask_bytes))). by apply elem_of_nil in Hn.
Qed.

Lemma CIDRMask_contiguous n k : contiguous (CIDRMask n k).
Proof.
  unfold CIDRMask. generalize 0%nat as i. induction k as [|k IH]; intros i; [done|]. cbn [seq fmap list_fmap contiguous].
  destruct (decide (8 <= n - 8 * Z.of_nat i)) as [Hge|Hlt].
  - left. split; [|apply IH]. unfold mask_byte. by rewrite (proj2 (Z.leb_gt _ 0)), (proj2 (Z.leb_le 8 _)) by lia.
  - right. split; [apply mask_byte_in|]. apply Forall_fmap, Forall_forall. intros j Hj%elem_of_seq. cbn. unfold mask_byte. by rewrite (proj2 (Z.leb_le _ 0)) by lia.
Qed.

Lemma Compare_refl a : Compare a a = Eq.
Proof. induction a as [|x a IH]; [done|]. simpl. by rewrite Z.compare_refl. Qed.

Lemma Compare_prefix p a b : Compare (p ++ a) (p ++ b) = Compare a b.
Proof. induction p as [|x p IH]; [done|]. simpl. by rewrite Z.compare_refl. Qed.

Lemma at_most_cons x a y b : at_most (x :: a) (y :: b) = true ↔ x < y ∨ x = y ∧ at_most a b = true.
Proof. unfold at_most. simpl. destruct (Z.compare_spec x y); [subst|by split; [left|]|]; split; [by right|by intros [?|[_ ?]]; [lia|]|done|intros [?|[? _]]; lia]. Qed.

Lemma at_most_zeros k a : length a = k → bytes_ok a → at_most (replicate k 0) a = true ∧ at_most a (replicate k 255) = true.
Proof.
  intros <- Ha. induction Ha as [|x a Hx _ IH]; [done|]. cbn [length replicate]. rewrite !at_most_cons. unfold is_byte in Hx.
  split; [destruct (decide (0 = x))|destruct (decide (x = 255))]; (by right; split; [|apply IH]) || (left; lia).
Qed.

Lemma block_covered mask a x : contiguous mask → length a = length mask → length x = length mask → bytes_ok x →
  let network := zip_with Z.land a mask in
  at_most network x && at_most x (lastIP network mask) = true ↔ zip_with Z.land x mask = network.
Proof.
  revert a x. induction mask as [|m mask IH]; intros [|a0 a] [|x0 x] Hc Ha Hx Hb; try done.
  apply Forall_cons in Hb as [Hb0 Hb]. injection Ha as Ha. injection Hx as Hx. unfold is_byte in Hb0.
  unfold lastIP. cbn [zip_with]. fold (lastIP (zip_with Z.land a mask) mask). rewrite andb_true_iff, !at_most_cons.
  assert (Hm : m ∈ mask_bytes) by (destruct Hc as [[-> _]|[? _]]; [by apply (bool_decide_eq_true_1 (_ ∈ _))|done]).
  destruct (land_prefix a0 m Hm) as [Hn Hnn]. set (n := Z.land a0 m) in *. pose proof (byte_covered m n x0 Hm Hn Hb0 Hnn) as Hbyte.
  destruct Hc as [[-> Hc]|[_ Hz]].
  - specialize (IH a x Hc Ha Hx Hb). cbv zeta in IH. rewrite andb_true_iff in IH.
    assert (Hl : Z.lor n (255 - 255) = n) by apply Z.lor_0_r. rewrite Hl in *. split.
    + intros [H1 H2]. assert (x0 = n) as -> by lia. f_equal; [by apply Hbyte|]. apply IH.
      destruct H1 as [?|[_ H1]], H2 as [?|[_ H2]]; try lia. done.
    + intros [= H1 H2]. apply Hbyte in H1. assert (x0 = n) as -> by lia. apply IH in H2 as [H2 H3]. by split; right.
  - assert (zip_with Z.land a mask = replicate (length x) 0 ∧ zip_with Z.land x mask = replicate (length x) 0 ∧
            lastIP (zip_with Z.land a mask) mask = replicate (length x) 255) as (E1&E2&E3).
    { clear -Hz Ha Hx. revert a x Ha Hx. induction Hz as [|m mask -> _ IH]; intros [|a0 a] [|x0 x] Ha Hx; try done.
      injection Ha as Ha. injection Hx as Hx. destruct (IH a x Ha Hx) as (E1&E2&E3). cbn [zip_with length replicate]. rewrite !Z.land_0_r.
      unfold lastIP in *. cbn [zip_with]. by rewrite E1, E2 in *; rewrite E3. }
    rewrite E1, E2, E3 in *. destruct (at_most_zeros (length x) x eq_refl Hb) as [Hz1 Hz2]. rewrite Hz1, Hz2. split.
    + intros [H1 H2]. f_equal. apply Hbyte. lia.
    + intros [= H]. apply Hbyte in H. lia.
Qed.

Lemma ParseAddr_length s a : ParseAddr s = Some a → length (As16 a) = 16%nat ∧ (∀ b, a = V4 b → length b = 4%nat).
Proof.
  intros H. split; [apply (ParseIP_length s); unfold ParseIP; by rewrite H|]. intros b ->. unfold ParseAddr in H.
  assert (H4 : parseIPv4Fields s = Some b) by (repeat case_match; try done; apply fmap_Some in H as (?&?&?); congruence).
  unfold parseIPv4Fields in H4. by apply ipv4_loop_length in H4; [|simpl; lia].
Qed.

(** The bytes a block is made of: of an IPv4 address the four, otherwise all sixteen. *)
Definition block_bytes (a : addr) : IP := match a with V4 b => b | V6 b => b end.

Lemma ParseCIDR_block s network mask : ParseCIDR s = Some (network, mask) →
  ∃ addr_text n_text a n, cut_at slash s = Some (addr_text, n_text) ∧ ParseAddr addr_text = Some a ∧ dtoi n_text 0 = Some (n, []) ∧ n <= BitLen a ∧
    mask = CIDRMask n (length (block_bytes a)) ∧ network = zip_with Z.land (block_bytes a) mask.
Proof.
  unfold ParseCIDR. destruct (cut_at slash s) as [[at_ nt]|] eqn:Ec; [|done]. destruct (ParseAddr at_) as [a|] eqn:Ea; [|done].
  destruct nt as [|c nt]; [done|]. destruct (dtoi (c :: nt) 0) as [[n [|]]|] eqn:Ed; try done.
  destruct (negb (is_digit c) || (BitLen a <? n)) eqn:El; [done|]. apply orb_false_iff in El as [_ El]. reflect_bools.
  intros H. apply fmap_Some in H as (net&Hm&[= -> ->]). exists at_, (c :: nt), a, n. split_and!; try done.
  - destruct (ParseAddr_length at_ a Ea) as [H16 H4]. destruct a as [b|b]; cbn [block_bytes BitLen As16] in *; [by rewrite (H4 b eq_refl)|by rewrite H16].
  - destruct (ParseAddr_length at_ a Ea) as [H16 H4]. unfold Mask in Hm. destruct a as [b|b]; cbn [As16 block_bytes BitLen] in *.
    + specialize (H4 b eq_refl). change (length (CIDRMask n (Z.to_nat (32 / 8)))) with 4%nat in Hm. rewrite (bool_decide_true (4%nat = 4%nat)) in Hm by done.
      rewrite (bool_decide_true (take 12 _ = _)) in Hm by done. cbn [andb] in Hm. change (drop 12 (v4InV6Prefix ++ b)) with b in Hm.
      rewrite bool_decide_true in Hm by done. by injection Hm as <-.
    + change (length (CIDRMask n (Z.to_nat (128 / 8)))) with 16%nat in Hm. rewrite (bool_decide_false (16%nat = 4%nat)) in Hm by done. cbn [andb] in Hm.
      rewrite bool_decide_true in Hm by done. by injection Hm as <-.
Qed.

(** A line that is a block of addresses covers exactly the addresses that agree with
    it in the bits its number counts; an address is held against it in the form the
    block has, of four or of sixteen bytes. *)
Theorem cidr_covers (spec : bytes) (f l ip : IP) :
  47 ∈ TrimSpace spec → parseIPSpec spec = Some (f, l) → bytes_ok ip → length ip = length f →
  ∃ addr_text n_text a n, cut_at slash (TrimSpace spec) = Some (addr_text, n_text) ∧ ParseAddr addr_text = Some a ∧ dtoi n_text 0 = Some (n, []) ∧
    let mask := CIDRMask n (length (block_bytes a)) in
    let whole := if bool_decide (length ip = length mask) then ip else v4InV6Prefix ++ ip in
    (in_range ip (mkRange f l []) = true ↔ zip_with Z.land whole mask = zip_with Z.land (block_bytes a) mask).
Proof.
  intros Hs Hp Hb Hlen. unfold parseIPSpec in Hp. case_bool_decide; [done|]. rewrite bool_decide_true in Hp by done.
  destruct (ParseCIDR (TrimSpace spec)) as [[network mask]|] eqn:Ec; [|done].
  apply ParseCIDR_block in Ec as (at_&nt&a&n&Hcut&Ha&Hd&_&Hmask&Hnet). exists at_, nt, a, n. split_and!; [done..|]. cbv zeta. rewrite <- Hmask.
  assert (Hlm : length mask = length (block_bytes a)) by (subst mask; unfold CIDRMask; by rewrite length_fmap, length_seq).
  assert (Hc : contiguous mask) by (subst mask; apply CIDRMask_contiguous).
  assert (Hln : length network = length mask) by (subst network; rewrite length_zip_with; lia).
  assert (Hll : length (lastIP network mask) = length mask) by (unfold lastIP; rewrite length_zip_with; lia).
  rewrite <- Hnet. unfold in_range. cbn [First Last].
  assert (Hcase : (f = network ∧ l = lastIP network mask ∧ length ip = length mask) ∨
                  (length ip = 4%nat ∧ length mask = 16%nat ∧ network = v4InV6Prefix ++ f ∧ lastIP network mask = v4InV6Prefix ++ l)).
  { destruct (ParseAddr_length at_ a Ha) as [H16 H4]. unfold same_family, minifyIP in Hp.
    assert (Hsixteen : ∀ x v, length x = length mask → length mask = 16%nat → To4 x = Some v → x = v4InV6Prefix ++ v).
    { intros x v Hx Hm. unfold To4. rewrite bool_decide_false, (bool_decide_true (length x = 16%nat)) by lia. cbn [andb]. case_bool_decide as E; [|done]. intros [= <-]. rewrite <- E. symmetry. apply take_drop. }
    destruct (decide (length mask = 4%nat)) as [E4|E4].
    - left. rewrite !To4_short in Hp by congruence. rewrite bool_decide_true in Hp by congruence. injection Hp as <- <-. split_and!; congruence.
    - assert (Hm16 : length mask = 16%nat) by (destruct a as [b|b]; cbn [block_bytes As16] in *; [by rewrite (H4 b eq_refl) in Hlm|lia]).
      destruct (To4 network) as [v|] eqn:Ev, (To4 (lastIP network mask)) as [w|] eqn:Ew; case_bool_decide as El; try done; injection Hp as <- <-.
      + right. rewrite Hlen. split_and!; [by eapply To4_length|done|by apply Hsixteen|by apply Hsixteen].
      + apply To4_length in Ev. lia.
      + apply To4_length in Ew. lia.
      + left. split_and!; [done|done|lia]. }
  destruct Hcase as [(->&->&Hl)|(Hl4&Hl16&En&El)].
  - rewrite (bool_decide_true (length network = length ip)), (bool_decide_true (length (lastIP network mask) = length ip)), (bool_decide_true (length ip = length mask)) by lia.
    cbn [andb]. rewrite Hnet. apply block_covered; [done|lia|lia|done].
  - assert (Hlf : length f = 4%nat ∧ length l = 4%nat).
    { apply (f_equal length) in En, El. rewrite length_app in En, El. change (length v4InV6Prefix) with 12%nat in *. lia. }
    rewrite (bool_decide_true (length f = length ip)), (bool_decide_true (length l = length ip)), (bool_decide_false (length ip = length mask)) by lia. cbn [andb].
    assert (Hat : ∀ p x y, at_most (p ++ x) (p ++ y) = at_most x y) by (intros p x y; unfold at_most; by rewrite Compare_prefix).
    rewrite <- (Hat v4InV6Prefix f ip), <- (Hat v4InV6Prefix ip l), <- En, <- El. rewrite Hnet.
    apply block_covered; [done|lia|rewrite length_app; change (length v4InV6Prefix) with 12%nat; lia|].
    apply Forall_app. split; [|done]. repeat constructor; unfold is_byte; lia.
Qed.

Lemma cidr_covers_witness :
  let spec := str "10.1.0.0/12" in
  parseIPSpec spec = Some ([10; 0; 0; 0], [10; 15; 255; 255]) ∧
  ∃ addr_text n_text a n, cut_at slash (TrimSpace spec) = Some (addr_text, n_text) ∧ ParseAddr addr_text = Some a ∧ dtoi n_text 0 = Some (n, []) ∧
    let mask := CIDRMask n (length (block_bytes a)) in
    let whole := if bool_decide (length [10; 15; 0; 1] = length mask) then [10; 15; 0; 1] else v4InV6Prefix ++ [10; 15; 0; 1] in
    (in_range [10; 15; 0; 1] (mkRange [10; 0; 0; 0] [10; 15; 255; 255] []) = true ↔ zip_with Z.land whole mask = zip_with Z.land (block_bytes a) mask).
Proof.
  intros spec. assert (E : parseIPSpec spec = Some ([10; 0; 0; 0], [10; 15; 255; 255])) by (vm_compute; reflexivity). split; [exact E|].
  apply (cidr_covers spec _ _ [10; 15; 0; 1]); [by apply (bool_decide_eq_true_1 (47 ∈ _))|exact E|by apply bytes_okb_spec|done].
Defined.

(** ** Whatever the lists say *)

(** Updates, reloads, and changes of the settings by others. *)
Inductive store_event :=
| SUpdate (whitelist blacklist referers : bytes) (saved : bool)
| SReload
| SSettings (c : option WAFConfig).

Definition lower_ascii (c : Z) : Z := if (65 <=? c) && (c <=? 90) then c + 32 else c.

Section Enforced.
Context `{!WebText}.
(** [strings.ToLower] on ASCII. *)
Context (ToLower_ascii : ∀ s, Forall (λ c, 0 <= c < 128) s → ToLower s = lower_ascii <$> s).

Definition store_step (s : store) (e : store_event) : store :=
  match e with
  | SUpdate w b r saved => (update w b r saved s).2
  | SReload => reload s
  | SSettings c => mkStore c (snap s)
  end.

Lemma store_loaded es s : ∃ c, snap (foldl store_step (reload s) es) = loadLists c.
Proof.
  assert (Hrun : ∀ es s, (∃ c, snap s = loadLists c) → ∃ c, snap (foldl store_step s es) = loadLists c); [|apply Hrun; by eexists].
  clear. intros es. induction es as [|e es IH]; intros s Hs; [done|]. apply IH. destruct e as [w b r [] | |c]; cbn; [by eexists|done|by eexists|done].
Qed.

Lemma merge_hosts_keep hosts blocked h : h ∈ blocked → h ∈ merge_hosts hosts blocked.
Proof.
  revert blocked. induction hosts as [|x hosts IH]; intros blocked Hin; [done|]. cbn [merge_hosts]. destruct (_ || _); apply IH; [done|].
  apply elem_of_app. by left.
Qed.

Lemma merge_hosts_add hosts blocked h : h ∈ hosts → ToLower (TrimSpace h) ≠ [] → ToLower (TrimSpace h) ∈ merge_hosts hosts blocked.
Proof.
  revert blocked. induction hosts as [|x hosts IH]; intros blocked Hin Hne; [by apply elem_of_nil in Hin|]. cbn [merge_hosts].
  apply elem_of_cons in Hin as [->|Hin]; [|by destruct (_ || _); apply IH]. rewrite (bool_decide_false (_ = [])) by done. cbn [orb].
  case_bool_decide as E; apply merge_hosts_keep; [done|]. apply elem_of_app. right. by apply list_elem_of_singleton.
Qed.

Lemma default_listed d c : d ∈ defaultBlockedReferers → d ∈ Referers (loadLists c) ∧ d ≠ [].
Proof.
  intros Hd. assert (Hall : forallb (λ d, bool_decide (TrimSpace d = d) && forallb (λ c, (0 <=? c) && (c <? 128)) d && bool_decide (lower_ascii <$> d = d) &&
    negb (bool_decide (d = []))) defaultBlockedReferers = true) by (vm_compute; reflexivity).
  rewrite forallb_forall in Hall. specialize (Hall d (proj1 (list_elem_of_In _ _) Hd)). rewrite !andb_true_iff, !bool_decide_eq_true, negb_true_iff, bool_decide_eq_false in Hall.
  destruct Hall as [[[Ht Ha] Hl] Hne]. split; [|done].
  assert (E : ToLower (TrimSpace d) = d).
  { rewrite Ht, ToLower_ascii; [done|]. rewrite forallb_forall in Ha. apply Forall_forall. intros x Hx%list_elem_of_In%Ha. zlia. }
  unfold loadLists. destruct (scanBuf _), (scanBuf _), (scanRefererBufValidated _) as [hs ws]. cbn [Waf.Referers].
  unfold mergeReferers. apply merge_hosts_keep. rewrite <- E at 1. apply merge_hosts_add; [done|]. by rewrite E.
Qed.

Lemma HasSuffix_app pre s : HasSuffix (pre ++ s) s = true.
Proof. unfold HasSuffix. rewrite rev_app_distr. unfold starts_with. rewrite strip_prefix_app. apply bool_decide_eq_true. by eexists. Qed.

Lemma matches h d blocked : ToLower (TrimSpace h) = h → d ∈ blocked → d ≠ [] → h = d ∨ (∃ pre, h = pre ++ 46 :: d) → hostMatchesBlocked h blocked = true ∧ h ≠ [].
Proof.
  intros Hh Hd Hne Hcase. assert (Hn : h ≠ []) by (destruct Hcase as [->|[pre ->]]; [done|by destruct pre]). split; [|done].
  unfold hostMatchesBlocked. rewrite Hh, bool_decide_false by done. cbn [negb andb]. apply existsb_exists. exists d.
  split; [by apply list_elem_of_In|]. rewrite bool_decide_false by done. cbn [negb andb]. apply orb_true_iff.
  destruct Hcase as [->|[pre ->]]; [left; by apply bool_decide_eq_true|right; apply HasSuffix_app].
Qed.

(** C25: A host built into the program, and every host under it, is refused in either
    header, whatever updates, reloads and changes of the settings there were, readable
    or not, and whatever the address. *)
Theorem defaults_enforced (es : list store_event) (s : store) (c : request) (d h : bytes) :
  let now := foldl store_step (reload s) es in
  d ∈ defaultBlockedReferers → (h = d ∨ ∃ pre, h = pre ++ 46 :: d) → ToLower (TrimSpace h) = h →
  hostFromHeader (Referer c) = h ∨ hostFromHeader (Origin c) = h → WAF (snap now) c = Banned.
Proof.
  intros now Hd Hcase Hh Hhead. destruct (store_loaded es s) as [cfg Ecfg]. fold now in Ecfg. destruct (default_listed d cfg Hd) as [Hin Hne].
  rewrite <- Ecfg in Hin. destruct (matches h d _ Hh Hin Hne Hcase) as [Hm Hn]. unfold WAF.
  assert (Hb : isBlockedReferer (Referer c) (Origin c) (Referers (snap now)) ≠ None); [|by destruct (isBlockedReferer _ _ _)].
  unfold isBlockedReferer. destruct Hhead as [E|E]; rewrite E.
  - rewrite bool_decide_false by done. by rewrite Hm.
  - destruct (negb _ && _); [done|]. rewrite bool_decide_false by done. by rewrite Hm.
Qed.

(** An address with a zone, as clients on the local link have, cannot be read: when any
    range is listed, the request is refused even where the black list is all there is. *)
Lemma ParseIP_zone s : 37 ∈ s → ParseIP s = None.
Proof.
  intros Hz. unfold ParseIP, ParseAddr.
  assert (H4 : ∀ prev f v d, ipv4_loop s prev f v d = None).
  { clear -Hz. induction s as [|x s IH]; intros prev f v d; [by apply elem_of_nil in Hz|]. cbn [ipv4_loop].
    apply elem_of_cons in Hz as [<-|Hz]; [done|]. specialize (IH Hz). repeat case_match; try done; apply IH. }
  assert (H6 : parseIPv6 s = None) by (unfold parseIPv6, has_zone; by rewrite bool_decide_true).
  unfold parseIPv4Fields. rewrite H4, H6. by repeat case_match.
Qed.

Lemma zone_refused (s : Snapshot) (c : request) host : IPEnabled s = true → SplitHost (RemoteAddr c) = Some host → 37 ∈ host → WAF s c = Banned.
Proof.
  intros He Hs Hz. unfold WAF. destruct (isBlockedReferer _ _ _); [done|]. rewrite He. cbn [negb]. unfold clientIP. by rewrite Hs, ParseIP_zone.
Qed.
End Enforced.

(** ** Instances *)

(** A description of hexadecimal digits is read as the front of the address. *)
Lemma hex_description : ∃ f, parseLine (str "cafe:2001:db8::1") = Ranged (mkRange f f []) ∧ ParseIP (str "cafe:2001:db8::1") = Some f ∧
  ∃ g, parseLine (str "home:2001:db8::1") = Ranged (mkRange g g (str "home")) ∧ ParseIP (str "2001:db8::1") = Some g.
Proof. eexists. split; [vm_compute; reflexivity|]. split; [vm_compute; reflexivity|]. eexists. by split; vm_compute. Qed.

(** A parser for URLs of the form [http://host/...]. *)
Definition demo_Parse (s : bytes) : option url :=
  match strip_prefix (str "http://") s with
  | Some r => let h := match cut_at 47 r with Some (a, _) => a | None => r end in Some (mkUrl (str "http") false [] [] [] h)
  | None => None
  end.

#[local] Instance demo_text : WebText := {|
  url_Parse := demo_Parse; ToLower s := lower_ascii <$> s; IsLetter c := (97 <=? c) && (c <=? 122); IsDigit := is_digit |}.

Definition empty_store : store := reload (mkStore (Some (mkWAFConfig [] [] [])) (loadLists None)).

(** A white list with a comment, a block and a typing error, and a black list. *)
Definition demo_white : bytes := str "# office" ++ [13; 10] ++ str "lan: 10.0.0.0/8" ++ [10] ++ str "10.0.0.300" ++ [10].
Definition demo_black : bytes := str "10.1.0.1-10.1.0.9".
Definition from_addr (a : bytes) : request := mkRequest [] [] a.

Lemma waf_decides_witness :
  let now := snap (update demo_white demo_black [] true empty_store).2 in
  let white := line_ranges demo_white in let black := line_ranges demo_black in let c := from_addr (str "10.1.0.10:5000") in
  WAF now c = Next ∧
  (WAF now c = Next ↔
   isBlockedReferer (Referer c) (Origin c) (Referers now) = None ∧
   (white = [] ∧ black = [] ∨
    ∃ ip, minifyIP (clientIP (RemoteAddr c)) = Some ip ∧
      (white = [] ∨ ∃ r, r ∈ white ∧ in_range ip r = true) ∧ ∀ r, r ∈ black → in_range ip r = false)).
Proof.
  cbv zeta. split; [vm_compute; reflexivity|]. apply (waf_decides demo_white demo_black [] empty_store (from_addr (str "10.1.0.10:5000")));
    unfold short; apply (bool_decide_eq_true_1 (Forall _ _)); vm_compute; reflexivity.
Defined.

Lemma defaults_enforced_witness :
  let s := foldl store_step (reload empty_store) [SUpdate (str "127.0.0.1") [] [] true; SSettings None; SReload] in
  WAF (snap s) (mkRequest (str "http://www.Lampa.click/x") [] (str "127.0.0.1:1")) = Banned.
Proof.
  cbv zeta. apply (defaults_enforced ltac:(done) [SUpdate (str "127.0.0.1") [] [] true; SSettings None; SReload] empty_store _ (str "lampa.click") (str "www.lampa.click")).
  - by apply (bool_decide_eq_true_1 (_ ∈ _)).
  - right. by exists (str "www").
  - vm_compute. reflexivity.
  - left. vm_compute. reflexivity.
Defined.

Example zone_demo : let s := snap (update [] demo_black [] true empty_store).2 in
  WAF s (from_addr (str "[fe80::1]:80")) = Next ∧ WAF s (from_addr (str "[fe80::1%eth0]:80")) = Banned.
Proof. by split; vm_compute. Qed.
