(* ===== verification/Upload.v ===== *)
(** * The queue of uploads ([server/tgbot/upload/manager.go], [ParseRange] of [tgbot/bot.go])

    Requests to send files of a torrent wait in a queue; one worker takes them in turn and
    sends the files one after the other.  The sections under the queue's lock and the steps
    of the worker are functions of the state; [run] applies them in any order.  Whether a
    message or a file could be sent and whether the torrent is known are answers from
    outside; the number of files of a torrent is an argument, since it does not change. *)

From S2P Require Import Prelude GoText.
#[local] Open Scope Z_scope.

(** ** Requests *)

(** [strings.Split(s, "-")] *)
Fixpoint split_hyphen (s : bytes) : list bytes :=
  match s with
  | [] => [[]]
  | c :: s =>
      if c =? 45 then [] :: split_hyphen s
      else match split_hyphen s with w :: ws => (c :: w) :: ws | [] => [[c]] end
  end.

(** [None] is an error. *)
Definition ParseRange (rng : bytes) : option (Z * Z) :=
  match split_hyphen rng with
  | [a; b] =>
      match ParseInt (TrimSpace a), ParseInt (TrimSpace b) with
      | Some num1, Some num2 => if (num1 <? 1) || (num2 <? 1) || (num2 <? num1) then None else Some (num1, num2)
      | _, _ => None
      end
  | _ => None
  end.

(** The files asked for, within the [n] files there are. *)
Definition clip_range (from to n : Z) : Z * Z :=
  let to := if (from =? 1) && (to =? -1) then n else to in
  let from := if from <? 1 then 1 else from in
  let to := if n <? to then n else to in
  let '(from, to) := if to <? from then (to, from) else (from, to) in
  let to := if n <? to then n else to in
  (from, to).

(** ** The manager *)

(** The chat, its message and the status of the torrent are left out. *)
Record Worker := mkWorker { w_id : Z; w_torrentHash : bytes; w_isCancelled : bool; w_from : Z; w_to : Z }.

Record Manager := mkManager { m_queue : list Worker; m_working : gmap Z Worker; m_ids : Z }.

Inductive add_reply := SendFailed | NotFound | Ready.

Section Queue.
Context (files : bytes → Z).

(** [m.ids > math.MaxInt] never holds. *)
Definition AddRange (hash : bytes) (from to : Z) (r : add_reply) (m : Manager) : Manager :=
  if 50 <? len (m_queue m) then m
  else
    let ids := i64 (m_ids m + 1) in
    match r with
    | SendFailed | NotFound => mkManager (m_queue m) (m_working m) ids
    | Ready =>
        let '(from, to) := clip_range from to (files hash) in
        mkManager (m_queue m ++ [mkWorker ids hash false from to]) (m_working m) ids
    end.

Definition cancel_worker (w : Worker) : Worker := mkWorker (w_id w) (w_torrentHash w) true (w_from w) (w_to w).

(** The queue without the first worker with this number. *)
Fixpoint remove_id (id : Z) (q : list Worker) : option (list Worker) :=
  match q with
  | [] => None
  | w :: q => if w_id w =? id then Some q else match remove_id id q with Some q => Some (w :: q) | None => None end
  end.

Definition Cancel (id : Z) (m : Manager) : Manager :=
  match remove_id id (m_queue m) with
  | Some q => mkManager q (m_working m) (m_ids m)
  | None => mkManager (m_queue m) (alter cancel_worker id (m_working m)) (m_ids m)
  end.

(** ** The worker *)

(** Where [work] and [loading] stand.  The worker they hold is the object in
    [m_working], which only they remove. *)
Inductive phase := Idle | Loading (id : Z) | Uploading (id i : Z) | Finishing (id : Z) | Panicked.

(** [s_sent]: the files handed to [uploadFile], with the worker's number. *)
Record sys := mkSys { s_man : Manager; s_phase : phase; s_sent : list (Z * Z) }.

Definition take (s : sys) : sys :=
  let m := s_man s in
  if negb (bool_decide (m_working m = ∅)) then s
  else
    match m_queue m with
    | [] => s
    | wrk :: q => mkSys (mkManager q (<[w_id wrk := wrk]> (m_working m)) (m_ids m)) (Loading (w_id wrk)) (s_sent s)
    end.

(** A turn of the loop of [loading]; [ok]: the file could be sent, or sending it was
    stopped by a cancellation. *)
Definition upload_turn (ok : bool) (id i : Z) (wrk : Worker) (s : sys) : sys :=
  if w_to wrk - 1 <? i then mkSys (s_man s) (Finishing id) (s_sent s)
  else if (i <? 0) || (files (w_torrentHash wrk) <=? i) then mkSys (s_man s) Panicked (s_sent s)
  else if w_isCancelled wrk then mkSys (s_man s) (Finishing id) (s_sent s)
  else mkSys (s_man s) (if ok then Uploading id (i + 1) else Finishing id) (s_sent s ++ [(id, i + 1)]).

(** A step of the worker; [ok]: the torrent is found and has got to work, or the upload
    succeeded. *)
Definition work (ok : bool) (s : sys) : sys :=
  match s_phase s with
  | Idle => take s
  | Loading id =>
      match m_working (s_man s) !! id with
      | Some wrk => mkSys (s_man s) (if ok then Uploading id (w_from wrk - 1) else Finishing id) (s_sent s)
      | None => s
      end
  | Uploading id i => match m_working (s_man s) !! id with Some wrk => upload_turn ok id i wrk s | None => s end
  | Finishing id => mkSys (mkManager (m_queue (s_man s)) (delete id (m_working (s_man s))) (m_ids (s_man s))) Idle (s_sent s)
  | Panicked => s
  end.

Inductive event := EAdd (hash : bytes) (from to : Z) (r : add_reply) | ECancel (id : Z) | EWork (ok : bool).

(** A panic ends the process. *)
Definition step (s : sys) (e : event) : sys :=
  match s_phase s with
  | Panicked => s
  | _ =>
      match e with
      | EAdd hash from to r => mkSys (AddRange hash from to r (s_man s)) (s_phase s) (s_sent s)
      | ECancel id => mkSys (Cancel id (s_man s)) (s_phase s) (s_sent s)
      | EWork ok => work ok s
      end
  end.

Definition start : sys := mkSys (mkManager [] ∅ 0) Idle [].
Definition run (es : list event) : sys := foldl step start es.
End Queue.

Example asked : ParseRange (str " 2 - 5") = Some (2, 5). Proof. vm_compute. reflexivity. Qed.
Example backwards : ParseRange (str "5-2") = None. Proof. vm_compute. reflexivity. Qed.
Example all_files : clip_range 1 (-1) 12 = (1, 12). Proof. reflexivity. Qed.
