(* ===== verification/UploadProps.v ===== *)
(** * Uploads are served in turn

    [uploads_in_order]: the queue is bounded, one request is worked on at a time, and the
    files sent are, request after request, the first ones of the ranges accepted.  [queue_drains]: left
    alone, the worker sends every file of every request that waits.  Requests the chat
    accepts lead to no panic; one for file 0 does. *)

From S2P Require Import Prelude GoText Upload.
#[local] Open Scope Z_scope.

(** ** Ranges *)

(** What is made of a range stays a range, and ends within the files. *)
Lemma clip_range_bounds from to n : let '(a, b) := clip_range from to n in a <= b <= n.
Proof. unfold clip_range. repeat case_match; simplify_eq; reflect_bools; lia. Qed.

Definition good_range (from to : Z) : Prop := 1 <= from ∧ (1 <= to ∨ from = 1 ∧ to = -1).

Lemma clip_range_good from to n : 1 <= n → good_range from to → 1 <= (clip_range from to n).1.
Proof. intros Hn [Hf Ht]. unfold clip_range. repeat case_match; simplify_eq; cbn; reflect_bools; lia. Qed.

(** A range of files that exist is kept. *)
Lemma clip_range_id from to n : 1 <= from → from <= to <= n → clip_range from to n = (from, to).
Proof. intros. unfold clip_range. repeat case_match; simplify_eq; reflect_bools; f_equal; lia. Qed.

Lemma ParseRange_good rng from to : ParseRange rng = Some (from, to) → 1 <= from <= to.
Proof. unfold ParseRange. intros H. repeat case_match; simplify_eq; reflect_bools; lia. Qed.

Section Queue.
Context (files : bytes → Z).

Definition job_files (j : Worker * nat) : list (Z * Z) := (λ k, (w_id j.1, w_from j.1 + Z.of_nat k)) <$> seq 0 j.2.

(** A request, and how many of its files have been sent. *)
Definition job_ok (j : Worker * nat) : Prop :=
  w_from j.1 <= w_to j.1 <= files (w_torrentHash j.1) ∧ w_from j.1 + Z.of_nat j.2 <= w_to j.1 + 1.

Definition same (w w' : Worker) : Prop := w_id w = w_id w' ∧ w_torrentHash w = w_torrentHash w' ∧ w_from w = w_from w' ∧ w_to w = w_to w'.

Definition current (p : phase) : option Z :=
  match p with Loading id | Uploading id _ | Finishing id => Some id | Idle | Panicked => None end.

(** The worker's progress, next to the requests it has taken. *)
Definition progress (s : sys) (jobs : list (Worker * nat)) : Prop :=
  match s_phase s with
  | Idle => m_working (s_man s) = ∅
  | Panicked => ∃ id w, m_working (s_man s) = {[id := w]}
  | Finishing id => ∃ w, m_working (s_man s) = {[id := w]}
  | Loading id => ∃ w w' js, m_working (s_man s) = {[id := w]} ∧ jobs = js ++ [(w', O)] ∧ same w w' ∧ w_id w = id
  | Uploading id i => ∃ w w' k js, m_working (s_man s) = {[id := w]} ∧ jobs = js ++ [(w', k)] ∧ same w w' ∧ w_id w = id ∧ i = w_from w - 1 + Z.of_nat k
  end.

(** The request accepted in a step, if one is: there is room in the queue, the message
    could be sent and the torrent is known.  It is given the next number. *)
Definition newly (hash : bytes) (from to : Z) (r : add_reply) (s : sys) : list Worker :=
  match r with
  | Ready =>
      if 50 <? len (m_queue (s_man s)) then []
      else [mkWorker (m_ids (s_man s) + 1) hash false (clip_range from to (files hash)).1 (clip_range from to (files hash)).2]
  | SendFailed | NotFound => []
  end.

Definition joins (e : event) (s : sys) : list Worker :=
  match e with EAdd hash from to r => newly hash from to r s | _ => [] end.

Fixpoint accepted_from (s : sys) (es : list event) : list Worker :=
  match es with
  | [] => []
  | e :: es => match s_phase s with Panicked => [] | _ => joins e s end ++ accepted_from (step files s e) es
  end.

(** The requests accepted along a run, in order. *)
Definition accepted (es : list event) : list Worker := accepted_from start es.

(** The requests taken and those that wait. *)
Definition requests (jobs : list (Worker * nat)) (q : list Worker) : list Worker := (fst <$> jobs) ++ q.

(** Their numbers. *)
Definition numbers (jobs : list (Worker * nat)) (q : list Worker) : list Z := (w_id ∘ fst <$> jobs) ++ (w_id <$> q).

Lemma numbers_requests jobs q : numbers jobs q = w_id <$> requests jobs q.
Proof. unfold numbers, requests. by rewrite fmap_app, list_fmap_compose. Qed.

Record Inv (acc : list Worker) (s : sys) (jobs : list (Worker * nat)) : Prop := {
  i_sent : s_sent s = mjoin (job_files <$> jobs);
  i_jobs : Forall job_ok jobs;
  i_queue : Forall (λ w, job_ok (w, O) ∧ w_isCancelled w = false) (m_queue (s_man s));
  i_len : len (m_queue (s_man s)) <= 51;
  i_numbers : StronglySorted Z.lt (numbers jobs (m_queue (s_man s)));
  i_ids : Forall (λ n, n <= m_ids (s_man s)) (numbers jobs (m_queue (s_man s)));
  i_accepted : sublist (requests jobs (m_queue (s_man s))) acc;
  i_progress : progress s jobs;
}.

Lemma Forall_sub {A} (P : A → Prop) (l1 l2 : list A) : sublist l1 l2 → Forall P l2 → Forall P l1.
Proof. rewrite !Forall_forall. intros Hs H x Hx. apply H. by eapply elem_of_submseteq, sublist_submseteq. Qed.

Lemma StronglySorted_sub {A} (R : relation A) (l1 l2 : list A) : sublist l1 l2 → StronglySorted R l2 → StronglySorted R l1.
Proof.
  induction 1 as [|x l1 l2 Hs IH|x l1 l2 Hs IH]; [done|..]; intros [H Hx]%StronglySorted_inv; [|by apply IH].
  constructor; [by apply IH|by eapply Forall_sub].
Qed.

Lemma remove_id_sub id q q' : remove_id id q = Some q' → sublist q' q.
Proof.
  revert q'. induction q as [|w q IH]; intros q'; cbn; [done|]. destruct (w_id w =? id); [intros [= <-]; by constructor|].
  destruct (remove_id id q) as [q0|]; [|done]. intros [= <-]. constructor. by apply IH.
Qed.

(** Jobs and waiting requests may lose some of the latter, and the ids may grow. *)
Lemma Inv_shrink acc s s' jobs : Inv acc s jobs → s_sent s' = s_sent s → sublist (m_queue (s_man s')) (m_queue (s_man s)) →
  m_ids (s_man s) <= m_ids (s_man s') → progress s' jobs → Inv acc s' jobs.
Proof.
  intros [H1 H2 H3 H4 H5 H6 Ha _] Hs Hq Hi Hp.
  assert (Hn : sublist (numbers jobs (m_queue (s_man s'))) (numbers jobs (m_queue (s_man s)))).
  { unfold numbers. apply sublist_app; [done|]. by apply fmap_sublist. }
  constructor; [by rewrite Hs|done|by eapply Forall_sub| |by eapply StronglySorted_sub| | |done].
  - apply sublist_length in Hq. unfold len in *. lia.
  - eapply Forall_sub; [exact Hn|]. eapply Forall_impl; [exact H6|]. cbn. lia.
  - etransitivity; [|exact Ha]. by apply sublist_app.
Qed.

(** More may have been accepted than is worked on. *)
Lemma Inv_more acc new s jobs : Inv acc s jobs → Inv (acc ++ new) s jobs.
Proof. intros [H1 H2 H3 H4 H5 H6 Ha H7]. constructor; try done. etransitivity; [exact Ha|by apply sublist_inserts_r]. Qed.

Lemma Inv_add acc hash from to r s jobs : Inv acc s jobs → 0 <= m_ids (s_man s) < two63 - 1 →
  Inv (acc ++ newly hash from to r s) (mkSys (AddRange files hash from to r (s_man s)) (s_phase s) (s_sent s)) jobs.
Proof.
  intros Hinv Hids. assert (Hi : i64 (m_ids (s_man s) + 1) = m_ids (s_man s) + 1) by (apply i64_id; unfold in_i64, two63 in *; lia).
  unfold AddRange, newly. destruct (50 <? len (m_queue (s_man s))) eqn:E;
    [destruct r; rewrite app_nil_r; apply (Inv_shrink acc s); try done; by destruct Hinv|]. rewrite Hi.
  destruct r; try (rewrite app_nil_r; apply (Inv_shrink acc s); try done; cbn; [lia|by destruct Hinv]).
  pose proof (clip_range_bounds from to (files hash)) as Hc. destruct (clip_range from to (files hash)) as [a b].
  destruct Hinv as [H1 H2 H3 H4 H5 H6 Ha H7]. set (w := mkWorker _ _ _ _ _).
  assert (Hn : numbers jobs (m_queue (s_man s) ++ [w]) = numbers jobs (m_queue (s_man s)) ++ [m_ids (s_man s) + 1]).
  { unfold numbers. by rewrite fmap_app, app_assoc. }
  constructor; cbn [s_sent s_man m_queue m_ids]; try done.
  - apply Forall_app. split; [done|]. repeat constructor; cbn; lia.
  - unfold len in *. rewrite length_app. cbn. reflect_bools. lia.
  - rewrite Hn. rewrite Forall_forall in H6. apply StronglySorted_app_2; [|done|by repeat constructor].
    intros x y Hx ->%list_elem_of_singleton. specialize (H6 x Hx). cbn in H6. lia.
  - rewrite Hn. apply Forall_app. split; [|repeat constructor; lia]. eapply Forall_impl; [exact H6|]. cbn. lia.
  - unfold requests. rewrite app_assoc. by apply sublist_app.
Qed.

Lemma Inv_cancel acc id s jobs : Inv acc s jobs → Inv acc (mkSys (Cancel id (s_man s)) (s_phase s) (s_sent s)) jobs.
Proof.
  intros Hinv. unfold Cancel. destruct (remove_id id (m_queue (s_man s))) as [q|] eqn:E.
  - apply remove_id_sub in E. apply (Inv_shrink acc s); try done. by destruct Hinv.
  - apply (Inv_shrink acc s); try done.
    assert (Ha : ∀ id' w, m_working (s_man s) = {[id' := w]} → ∃ w', alter cancel_worker id (m_working (s_man s)) = {[id' := w']} ∧ same w w').
    { intros id' w ->. destruct (decide (id' = id)) as [->|Hne]; [exists (cancel_worker w); split; [by rewrite alter_singleton_eq|by repeat split]|].
      exists w. split; [by rewrite alter_singleton_ne by done|by repeat split]. }
    pose proof (i_progress acc s jobs Hinv) as Hp. unfold progress in *. cbn [s_phase s_man m_working].
    destruct (s_phase s).
    + rewrite Hp. apply map_eq. intros i. rewrite lookup_alter. case_decide; by rewrite ?lookup_empty.
    + destruct Hp as (w&w'&js&Hw&->&Hs&<-). destruct (Ha _ _ Hw) as (w2&->&Hs2). exists w2, w', js. unfold same in *. by destruct Hs as (?&?&?&?), Hs2 as (?&?&?&?); split_and!; congruence.
    + destruct Hp as (w&w'&k&js&Hw&->&Hs&<-&->). destruct (Ha _ _ Hw) as (w2&->&Hs2). exists w2, w', k, js. unfold same in *. destruct Hs as (?&?&?&?), Hs2 as (?&?&?&?); split_and!; congruence.
    + destruct Hp as (w&Hw). destruct (Ha _ _ Hw) as (w2&->&_). by exists w2.
    + destruct Hp as (i&w&Hw). destruct (Ha _ _ Hw) as (w2&->&_). by exists i, w2.
Qed.

Lemma job_files_S w k : job_files (w, S k) = job_files (w, k) ++ [(w_id w, w_from w + Z.of_nat k)].
Proof. unfold job_files. cbn [fst snd]. by rewrite seq_S, fmap_app. Qed.

Lemma sent_snoc js j : mjoin (job_files <$> (js ++ [j])) = mjoin (job_files <$> js) ++ job_files j.
Proof. rewrite fmap_app, join_app. f_equal. apply app_nil_r. Qed.

Lemma Inv_phase acc s s' jobs : Inv acc s jobs → s_sent s' = s_sent s → m_queue (s_man s') = m_queue (s_man s) → m_ids (s_man s') = m_ids (s_man s) →
  progress s' jobs → Inv acc s' jobs.
Proof. intros Hinv Hs Hq Hi Hp. apply (Inv_shrink acc s); [done|done|by rewrite Hq|by rewrite Hi|done]. Qed.

Lemma Inv_take acc s jobs : Inv acc s jobs → s_phase s = Idle → ∃ jobs', Inv acc (take s) jobs'.
Proof.
  intros Hinv Hi. pose proof (i_progress acc s jobs Hinv) as Hp. unfold progress in Hp. rewrite Hi in Hp.
  unfold take. rewrite bool_decide_true by done. cbn [negb]. destruct (m_queue (s_man s)) as [|w q] eqn:Eq; [by exists jobs|].
  exists (jobs ++ [(w, O)]). destruct Hinv as [H1 H2 H3 H4 H5 H6 Ha _]. rewrite Eq in *. apply Forall_cons in H3 as [[Hw Hc] H3].
  assert (Hn : numbers (jobs ++ [(w, O)]) q = numbers jobs (w :: q)) by (unfold numbers; by rewrite fmap_app, <- app_assoc).
  constructor; cbn [s_sent s_man m_queue m_ids].
  - by rewrite sent_snoc, H1, app_nil_r.
  - apply Forall_app. split; [done|]. by apply Forall_singleton.
  - done.
  - unfold len in *. cbn in H4. lia.
  - by rewrite Hn.
  - by rewrite Hn.
  - unfold requests in *. by rewrite fmap_app, <- app_assoc.
  - unfold progress. cbn [s_phase s_man m_working]. exists w, w, jobs. rewrite Hp. split_and!; [done|done|by repeat split|done].
Qed.

Lemma Inv_turn acc ok id i w s jobs : Inv acc s jobs → s_phase s = Uploading id i → m_working (s_man s) !! id = Some w → ∃ jobs', Inv acc (upload_turn files ok id i w s) jobs'.
Proof.
  intros Hinv Hph Hw. pose proof (i_progress acc s jobs Hinv) as Hp. unfold progress in Hp. rewrite Hph in Hp.
  destruct Hp as (w0&w'&k&js&Hm&->&Hs&Hid&Hk). rewrite Hm, lookup_singleton_eq in Hw. injection Hw as ->.
  assert (Hend : ∀ p, p = Finishing id ∨ p = Panicked → Inv acc (mkSys (s_man s) p (s_sent s)) (js ++ [(w', k)])).
  { intros p Hpp. apply (Inv_phase acc s); try done. unfold progress. cbn [s_phase s_man]. destruct Hpp as [->| ->]; [by exists w|by exists id, w]. }
  unfold upload_turn. destruct (w_to w - 1 <? i) eqn:E1; [eauto|]. destruct (_ || _); [eauto|]. destruct (w_isCancelled w); [eauto|].
  clear Hend. exists (js ++ [(w', S k)]). destruct Hinv as [H1 H2 H3 H4 H5 H6 Ha _]. destruct Hs as (Hs1&Hs2&Hs3&Hs4).
  assert (Hn : ∀ q, numbers (js ++ [(w', S k)]) q = numbers (js ++ [(w', k)]) q) by (intros; unfold numbers; by rewrite !fmap_app).
  constructor; cbn [s_sent s_man m_queue m_ids]; rewrite ?Hn; try done.
  - rewrite H1, !sent_snoc, job_files_S, app_assoc. f_equal. replace (i + 1) with (w_from w' + Z.of_nat k) by lia. by rewrite <- Hs1, Hid.
  - apply Forall_app in H2 as [H2 [Hj _]%Forall_cons]. apply Forall_app. split; [done|]. apply Forall_singleton. destruct Hj as [Hj _]. split; [done|]. cbn in *. reflect_bools. lia.
  - unfold requests in *. by rewrite fmap_app in *.
  - unfold progress. destruct ok; cbn [s_phase s_man]; [|by exists w]. exists w, w', (S k), js. split_and!; try done; lia.
Qed.

Lemma Inv_work acc ok s jobs : Inv acc s jobs → ∃ jobs', Inv acc (work files ok s) jobs'.
Proof.
  intros Hinv. pose proof (i_progress acc s jobs Hinv) as Hp. unfold work. unfold progress in Hp. destruct (s_phase s) as [|id|id i|id|] eqn:Eph.
  - by eapply Inv_take.
  - destruct Hp as (w&w'&js&Hm&->&Hs&Hid). rewrite Hm, lookup_singleton_eq. exists (js ++ [(w', O)]). apply (Inv_phase acc s); try done.
    unfold progress. destruct ok; cbn [s_phase s_man]; [|by exists w]. exists w, w', O, js. split_and!; try done. lia.
  - destruct (m_working (s_man s) !! id) as [w|] eqn:Ew; [by eapply Inv_turn|by exists jobs].
  - destruct Hp as (w&Hm). exists jobs. apply (Inv_phase acc s); try done. unfold progress. cbn [s_phase s_man m_working]. rewrite Hm. apply delete_singleton_eq.
  - by exists jobs.
Qed.

Lemma run_snoc es e : run files (es ++ [e]) = step files (run files es) e.
Proof. unfold run. by rewrite foldl_app. Qed.

Lemma ids_add hash from to r m : 0 <= m_ids m < two63 - 1 → m_ids m <= m_ids (AddRange files hash from to r m) <= m_ids m + 1.
Proof.
  intros Hi. assert (He : i64 (m_ids m + 1) = m_ids m + 1) by (apply i64_id; unfold in_i64, two63 in *; lia).
  unfold AddRange. destruct (50 <? _); [lia|]. rewrite He. destruct r; cbn; [lia..|]. destruct (clip_range _ _ _). cbn. lia.
Qed.

Lemma ids_work ok s : m_ids (s_man (work files ok s)) = m_ids (s_man s).
Proof. unfold work, take, upload_turn. repeat (case_match; try done). Qed.

Lemma ids_cancel id m : m_ids (Cancel id m) = m_ids m.
Proof. unfold Cancel. by destruct (remove_id id (m_queue m)). Qed.

Lemma accepted_snoc es e : accepted (es ++ [e]) = accepted es ++ match s_phase (run files es) with Panicked => [] | _ => joins e (run files es) end.
Proof.
  unfold accepted, run. generalize start. induction es as [|e0 es IH]; intros s; cbn [accepted_from app foldl].
  - by rewrite app_nil_r.
  - by rewrite IH, app_assoc.
Qed.

Lemma uploads_inv es : len es < two63 →
  (∃ jobs, Inv (accepted es) (run files es) jobs) ∧ 0 <= m_ids (s_man (run files es)) <= len es.
Proof.
  induction es as [|e es IH] using rev_ind; intros Hl.
  { split; [|unfold len; cbn; lia]. exists []. constructor; cbn; try done; by constructor. }
  unfold len in *. rewrite length_app in *. cbn [length] in *. destruct IH as [[jobs Hinv] Hids]; [lia|].
  rewrite run_snoc, accepted_snoc. set (s := run files es) in *.
  assert (Hstep : s_phase s ≠ Panicked →
    (∃ jobs, Inv (accepted es ++ joins e s) (step files s e) jobs) ∧ 0 <= m_ids (s_man (step files s e)) <= m_ids (s_man s) + 1).
  { intros Hnp.
    assert (Hst : step files s e = match e with EAdd hash from to r => mkSys (AddRange files hash from to r (s_man s)) (s_phase s) (s_sent s)
      | ECancel id => mkSys (Cancel id (s_man s)) (s_phase s) (s_sent s) | EWork ok => work files ok s end)
      by (unfold step; by destruct (s_phase s)).
    rewrite Hst. clear Hst Hnp. destruct e as [hash from to r|id|ok]; cbn [joins];
      (split; [first [exists jobs; by apply Inv_add; [|lia]|exists jobs; rewrite app_nil_r; by apply Inv_cancel|rewrite app_nil_r; by eapply Inv_work]|]);
      cbn [s_man]; rewrite ?ids_cancel, ?ids_work; try lia;
      pose proof (ids_add hash from to r (s_man s)); lia. }
  destruct (s_phase s) eqn:Eph; try (destruct Hstep as [? ?]; [done|]; split; [done|lia]).
  unfold step. rewrite Eph, app_nil_r. split; [by exists jobs|lia].
Qed.

Lemma one_working acc s jobs : Inv acc s jobs → m_working (s_man s) = ∅ ∨ ∃ id w, m_working (s_man s) = {[id := w]}.
Proof. intros Hinv. pose proof (i_progress _ _ _ Hinv) as Hp. unfold progress in Hp. destruct (s_phase s); [by left|right; naive_solver..]. Qed.

(** C27: the queue of uploads is served in order.  Whatever is asked for, cancelled and
    answered, at most 51 requests wait and one is worked on.  The requests taken up and
    those that wait are, in this order, among those accepted, with the torrent and the
    range of each as accepted; what was sent is, request after request, the first files
    of its range, none left out and none beyond its end.  Of the files there are, the
    range asked for is accepted as it is, and so is the request for all files. *)
Theorem uploads_in_order es : len es < two63 → let s := run files es in
  len (m_queue (s_man s)) <= 51 ∧ (size (m_working (s_man s)) <= 1)%nat ∧
  (∃ jobs, sublist ((fst <$> jobs) ++ m_queue (s_man s)) (accepted es) ∧
     s_sent s = mjoin (job_files <$> jobs) ∧ Forall job_ok jobs ∧
     StronglySorted Z.lt (w_id <$> ((fst <$> jobs) ++ m_queue (s_man s)))) ∧
  (∀ hash from to, (1 <= from <= to ∧ to <= files hash) → clip_range from to (files hash) = (from, to)) ∧
  (∀ hash, 1 <= files hash → clip_range 1 (-1) (files hash) = (1, files hash)).
Proof.
  intros Hl. cbv zeta. destruct (uploads_inv es Hl) as [[jobs Hinv] _]. split_and!; [apply Hinv| | | |].
  - destruct (one_working _ _ _ Hinv) as [->|(id&w&->)]; [by rewrite map_size_empty; lia|by rewrite map_size_singleton].
  - exists jobs. destruct Hinv as [H1 H2 H3 H4 H5 H6 Ha H7]. rewrite numbers_requests in H5. by split_and!.
  - intros hash from to [? ?]. apply clip_range_id; lia.
  - intros hash Hn. unfold clip_range. repeat case_match; simplify_eq; reflect_bools; try lia; done.
Qed.

(** ** No panic *)

Definition good_event (e : event) : Prop := match e with EAdd _ from to _ => good_range from to | _ => True end.

Definition from_one (w : Worker) : Prop := 1 <= w_from w.

Record Safe (s : sys) : Prop := {
  sf_queue : Forall from_one (m_queue (s_man s));
  sf_working : map_Forall (λ _ w, from_one w) (m_working (s_man s));
  sf_sent : Forall (λ e, 1 <= e.2) (s_sent s);
  sf_phase : match s_phase s with Uploading _ i => 0 <= i | Panicked => False | _ => True end;
}.

Lemma Safe_add hash from to r s : 1 <= files hash → good_range from to → Safe s →
  Safe (mkSys (AddRange files hash from to r (s_man s)) (s_phase s) (s_sent s)).
Proof.
  intros Hf Hg [H1 H2 H2' H3]. unfold AddRange. destruct (50 <? _); [by constructor|]. destruct r; try by constructor.
  pose proof (clip_range_good from to (files hash) Hf Hg). destruct (clip_range _ _ _) as [a b]. constructor; try done.
  cbn [s_man m_queue]. apply Forall_app. split; [done|by apply Forall_singleton].
Qed.

Lemma Safe_cancel id s : Safe s → Safe (mkSys (Cancel id (s_man s)) (s_phase s) (s_sent s)).
Proof.
  intros [H1 H2 H2' H3]. unfold Cancel. destruct (remove_id id _) as [q|] eqn:Er; constructor; try done; cbn [s_man m_queue m_working].
  - by eapply Forall_sub; [eapply remove_id_sub|].
  - intros i w Hw. rewrite lookup_alter in Hw. case_decide; [|by eapply H2]. apply fmap_Some in Hw as (w'&Hw&->). exact (H2 _ _ Hw).
Qed.

Lemma Safe_work acc ok s jobs : Inv acc s jobs → Safe s → Safe (work files ok s).
Proof.
  intros Hinv [H1 H2 H2' H3]. pose proof (i_progress _ _ _ Hinv) as Hp. unfold progress in Hp. unfold work. destruct (s_phase s) as [|id|id i|id|] eqn:Eph; try done.
  - unfold take. destruct (negb _); [by constructor; rewrite ?Eph|]. destruct (m_queue (s_man s)) as [|w q] eqn:Eq; [by constructor; rewrite ?Eph, ?Eq|].
    apply Forall_cons in H1 as [Hw H1]. constructor; try done. cbn [s_man m_working]. by apply map_Forall_insert_2.
  - destruct (m_working (s_man s) !! id) as [w|] eqn:Ew; [|by constructor; rewrite ?Eph]. constructor; try done. cbn [s_phase].
    destruct ok; [|done]. specialize (H2 _ _ Ew). unfold from_one in H2. lia.
  - destruct (m_working (s_man s) !! id) as [w|] eqn:Ew; [|by constructor; rewrite ?Eph].
    destruct Hp as (w0&w'&k&js&Hm&->&Hs&_&_). rewrite Hm, lookup_singleton_eq in Ew. injection Ew as ->.
    pose proof (i_jobs _ _ _ Hinv) as Hj. apply Forall_app in Hj as [_ [[[Hj1 Hj2] _] _]%Forall_cons]. cbn [fst] in Hj2. destruct Hs as (_&Hs2&_&Hs4).
    unfold upload_turn. destruct (w_to w - 1 <? i) eqn:E1; [by constructor|]. destruct (_ || _) eqn:E2; [rewrite <- Hs2, <- Hs4 in Hj2; reflect_bools; lia|].
    destruct (w_isCancelled w); [by constructor|]. constructor; try done; cbn [s_phase s_sent]; [apply Forall_app; split; [done|apply Forall_singleton; cbn; lia]|destruct ok; [lia|done]].
  - constructor; try done. cbn [s_man m_working]. by apply map_Forall_delete.
Qed.

Lemma Safe_run es : (∀ h, 1 <= files h) → Forall good_event es → len es < two63 → Safe (run files es).
Proof.
  intros Hf. induction es as [|e es IH] using rev_ind; intros He Hl; [by constructor|]. apply Forall_app in He as [He [Hge _]%Forall_cons].
  unfold len in *. rewrite length_app in Hl. cbn in Hl. destruct (uploads_inv es) as [[jobs Hinv] _]; [unfold len; lia|].
  specialize (IH He ltac:(lia)). rewrite run_snoc. set (s := run files es) in *.
  assert (Hstep : Safe (match e with EAdd hash from to r => mkSys (AddRange files hash from to r (s_man s)) (s_phase s) (s_sent s)
      | ECancel id => mkSys (Cancel id (s_man s)) (s_phase s) (s_sent s) | EWork ok => work files ok s end)).
  { destruct e; [by apply Safe_add|by apply Safe_cancel|by eapply Safe_work]. }
  unfold step. by destruct (s_phase s).
Qed.

(** As long as the chat asks for ranges it has checked, single files from 1 on or
    all files, no upload reaches for a file that does not exist, which would end the
    process: the files sent are files of the torrent. *)
Theorem uploads_exist es : (∀ h, 1 <= files h) → Forall good_event es → len es < two63 →
  s_phase (run files es) ≠ Panicked ∧ ∃ jobs, s_sent (run files es) = mjoin (job_files <$> jobs) ∧
    Forall (λ j, ∀ e, e ∈ job_files j → 1 <= e.2 <= files (w_torrentHash j.1)) jobs.
Proof.
  intros Hf He Hl. destruct (Safe_run es Hf He Hl) as [_ _ Hs H3]. split; [intros E; by rewrite E in H3|].
  destruct (uploads_inv es Hl) as [[jobs Hinv] _]. exists jobs. split; [apply Hinv|]. rewrite (i_sent _ _ _ Hinv) in Hs.
  rewrite Forall_forall in Hs. apply Forall_forall. intros j Hj e Hej. split.
  - apply Hs, list_elem_of_join. exists (job_files j). split; [done|]. apply list_elem_of_fmap. by exists j.
  - pose proof (i_jobs _ _ _ Hinv) as Ho. rewrite Forall_forall in Ho. destruct (Ho j Hj) as [? ?].
    apply list_elem_of_fmap in Hej as (k&->&Hk%elem_of_seq). cbn. lia.
Qed.

(** ** Every request is served *)

Definition all_files (w : Worker) : list (Z * Z) := job_files (w, Z.to_nat (w_to w + 1 - w_from w)).

Notation works n s := (foldl (step files) s (replicate n (EWork true))).

Lemma works_app n m s : works (n + m) s = works m (works n s).
Proof. by rewrite replicate_add, foldl_app. Qed.

Lemma works_upload k id w m sent i : m_working m = {[id := w]} → w_isCancelled w = false → w_to w <= files (w_torrentHash w) → 0 <= i → i + Z.of_nat k = w_to w →
  works k (mkSys m (Uploading id i) sent) = mkSys m (Uploading id (w_to w)) (sent ++ ((λ j, (id, i + 1 + Z.of_nat j)) <$> seq 0 k)).
Proof.
  intros Hm Hc Hf. revert i sent. induction k as [|k IH]; intros i sent Hi Hk; [cbn; rewrite app_nil_r; do 2 f_equal; lia|].
  cbn [replicate foldl]. unfold step at 2. cbn [s_phase work]. unfold work. cbn [s_phase s_man]. rewrite Hm, lookup_singleton_eq.
  unfold upload_turn. rewrite Hc. rewrite (proj2 (Z.ltb_ge _ _)), (proj2 (Z.ltb_ge i 0)), (proj2 (Z.leb_gt _ _)) by lia. cbn [orb s_man s_sent].
  rewrite IH by lia. rewrite <- app_assoc. f_equal. f_equal. cbn [seq fmap list_fmap app]. f_equal; [f_equal; lia|].
  rewrite <- seq_shift. rewrite <- list_fmap_compose. apply list_fmap_ext. intros _ j _. cbn. f_equal. lia.
Qed.

Lemma works_one w q ids sent : 1 <= w_from w → job_ok (w, O) → w_isCancelled w = false →
  ∃ n, works n (mkSys (mkManager (w :: q) ∅ ids) Idle sent) = mkSys (mkManager q ∅ ids) Idle (sent ++ all_files w).
Proof.
  intros Hf [[Hj1 Hj2] _] Hc. cbn [fst] in *. set (k := Z.to_nat (w_to w + 1 - w_from w)). exists (2 + (k + 2))%nat. rewrite works_app, works_app.
  set (m := mkManager q {[w_id w := w]} ids).
  assert (H2 : works 2 (mkSys (mkManager (w :: q) ∅ ids) Idle sent) = mkSys m (Uploading (w_id w) (w_from w - 1)) sent).
  { cbn [replicate foldl]. unfold step, work, take. cbn [s_phase s_man m_working m_queue]. rewrite bool_decide_true by done.
    cbn [negb s_phase s_man m_working s_sent m_ids m_queue]. by rewrite insert_empty, lookup_singleton_eq. }
  rewrite H2, (works_upload k _ w) by (done || lia). cbn [replicate foldl]. unfold step at 2, work. cbn [s_phase s_man]. unfold m at 1. cbn [m_working].
  rewrite lookup_singleton_eq. unfold upload_turn. rewrite (proj2 (Z.ltb_lt _ _)) by lia. unfold step, work. cbn [s_phase s_man s_sent m_queue m_ids].
  unfold m. cbn [m_working m_queue m_ids]. rewrite delete_singleton_eq. f_equal. f_equal. unfold all_files, job_files. cbn [fst snd]. fold k.
  apply list_fmap_ext. intros _ j _. f_equal. lia.
Qed.

(** C28: no request is left waiting.  Whenever the worker is free, it gets through the
    whole queue if every upload succeeds: each file of each range accepted is sent, once
    and in order. *)
Theorem queue_drains es : (∀ h, 1 <= files h) → Forall good_event es → len es < two63 → let s := run files es in s_phase s = Idle →
  ∃ n, works n s = mkSys (mkManager [] ∅ (m_ids (s_man s))) Idle (s_sent s ++ mjoin (all_files <$> m_queue (s_man s))).
Proof.
  intros Hf He Hl. cbv zeta. intros Hi. destruct (uploads_inv es Hl) as [[jobs Hinv] _]. pose proof (Safe_run es Hf He Hl) as [H1 _ _ _].
  pose proof (i_progress _ _ _ Hinv) as Hp. unfold progress in Hp. rewrite Hi in Hp. pose proof (i_queue _ _ _ Hinv) as Hq.
  destruct (run files es) as [[q wk ids] p sent]. cbn [s_phase s_man m_working m_queue m_ids s_sent] in *. subst p wk. clear Hinv.
  revert sent. induction q as [|w q IH]; intros sent; [exists O; cbn; by rewrite app_nil_r|].
  apply Forall_cons in H1 as [Hw H1]. apply Forall_cons in Hq as [[Hj Hc] Hq]. destruct (works_one w q ids sent Hw Hj Hc) as [n Hn].
  destruct (IH H1 Hq (sent ++ all_files w)) as [n' Hn']. exists (n + n')%nat. rewrite works_app, Hn, Hn'. by rewrite <- app_assoc.
Qed.
End Queue.

(** ** A session *)

(** Two files of one torrent, all files of another; the third request is taken back. *)
Definition session : list event :=
  [EAdd (str "a") 2 3 Ready; EAdd (str "b") 1 (-1) Ready; EWork true; EAdd (str "a") 7 9 Ready; ECancel 3; EWork true; EWork true].
Definition five : bytes → Z := λ _, 5.

Lemma session_good : (∀ h, 1 <= five h) ∧ Forall good_event session ∧ len session < two63.
Proof. split_and!; [done| |done]. repeat constructor; cbn; unfold good_range; lia. Qed.

Lemma uploads_in_order_witness :
  accepted five session = [mkWorker 1 (str "a") false 2 3; mkWorker 2 (str "b") false 1 5; mkWorker 3 (str "a") false 5 5] ∧
  ∃ jobs, sublist ((fst <$> jobs) ++ m_queue (s_man (run five session))) (accepted five session) ∧
    s_sent (run five session) = mjoin (job_files <$> jobs).
Proof.
  split; [vm_compute; reflexivity|]. destruct session_good as (_&_&Hl).
  destruct (uploads_in_order five session Hl) as (_&_&(jobs&Hs&Hj&_)&_). exists jobs. split; [exact Hs|exact Hj].
Defined.

Lemma uploads_exist_witness : s_sent (run five session) = [(1, 2)] ∧ s_phase (run five session) ≠ Panicked.
Proof. split; [vm_compute; reflexivity|]. destruct session_good as (Hf&Hg&Hl). exact (proj1 (uploads_exist five session Hf Hg Hl)). Defined.

Lemma queue_drains_witness : let es := session ++ [EWork true; EWork true; EWork true] in s_phase (run five es) = Idle ∧
  ∃ n, s_sent (foldl (step five) (run five es) (replicate n (EWork true))) = [(1, 2); (1, 3); (2, 1); (2, 2); (2, 3); (2, 4); (2, 5)].
Proof.
  cbv zeta. set (es := session ++ _). assert (Hi : s_phase (run five es) = Idle) by (vm_compute; reflexivity). split; [exact Hi|].
  destruct session_good as (Hf&Hg&Hl). assert (Hg' : Forall good_event es) by (apply Forall_app; split; [exact Hg|by repeat constructor]).
  destruct (queue_drains five es Hf Hg' ltac:(done) Hi) as [n Hn]. exists n. rewrite Hn. vm_compute. reflexivity.
Defined.

(** A file number from a button is not checked: the bounds are swapped after the lower
    one has been raised to 1, and file 0 ends the process. *)
Lemma file_zero_panics : clip_range 0 0 5 = (0, 1) ∧ s_phase (run five [EAdd (str "a") 0 0 Ready; EWork true; EWork true; EWork true]) = Panicked.
Proof. by vm_compute. Qed.
