(* ===== verification/Torrent.v ===== *)
(** * Torrents of the server ([server/torr/torrent.go], [btserver.go], [apihelper.go])

    The server wraps each torrent of the BitTorrent client in an object that requests
    share: objects live in a heap, [bt.torrents] holds their addresses.  A call is cut
    where it gives up a lock or waits; what it still has to do is a [frame].  The clock,
    the readers of a cache, the outcome of waiting and errors of the client come from
    outside with each section.

    Of the client ([anacrolix-torrent/client.go], [t.go]) the model has its table of
    torrents, what is known of each, and that a torrent that is not in the table cannot be
    dropped. *)

From S2P Require Import Prelude GoText.
#[local] Open Scope Z_scope.

(** ** Data *)

Inductive TorrentStat := TorrentAdded | TorrentGettingInfo | TorrentPreload | TorrentWorking | TorrentClosed | TorrentInDB.
#[export] Instance TorrentStat_dec : EqDecision TorrentStat. Proof. solve_decision. Defined.

Record Info := mkInfo { i_Name : bytes; i_Length : Z }.

(** [InfoBytes] of a specification stand as the info they hold. *)
Record TorrentSpec := mkSpec { InfoHash : bytes; Trackers : list (list bytes); SpecInfo : option Info }.

(** A torrent of the client. *)
Record go_torrent := mkGo { g_hash : bytes; g_info : option Info; g_closed : bool }.

(** The fields set by the user or the database. *)
Record fields := mkFields { f_Title : bytes; f_Category : bytes; f_Poster : bytes; f_Data : bytes; f_Timestamp : Z; f_Size : Z }.

(** A torrent of the server; [t_go] is the embedded [*torrent.Torrent], [t_closed] the
    channel of that torrent, [t_bt] whether the server is known. *)
Record Torrent := mkTorrent {
  t_fields : fields; t_spec : option TorrentSpec; t_Stat : TorrentStat; t_go : option nat; t_bt : bool; t_cache : bool;
  t_expiredTime : Z; t_IsPriority : bool; t_closed : option nat; t_PreloadSize : Z }.

Record TorrentDB := mkTorrentDB { db_Spec : TorrentSpec; db_fields : fields }.

(** [bt_caches]: the hashes the storage has a cache for. *)
Record server := mkServer {
  bt_connected : bool; bt_torrents : gmap bytes nat; bt_objs : gmap nat Torrent; bt_gos : gmap nat go_torrent;
  bt_client : gmap bytes nat; bt_caches : gset bytes; bt_db : gmap bytes TorrentDB }.

Class Settings := {
  TorrentDisconnectTimeout : Z; (* seconds *)
  RetrackersMode : Z;
  ReadOnly : bool;
  DefTrackers : list bytes;
  FileTrackers : list bytes;
}.

(** ** The server's state *)

Definition set_torrents m s := mkServer (bt_connected s) m (bt_objs s) (bt_gos s) (bt_client s) (bt_caches s) (bt_db s).
Definition set_objs m s := mkServer (bt_connected s) (bt_torrents s) m (bt_gos s) (bt_client s) (bt_caches s) (bt_db s).
Definition set_client gos client caches s := mkServer (bt_connected s) (bt_torrents s) (bt_objs s) gos client caches (bt_db s).
Definition set_db m s := mkServer (bt_connected s) (bt_torrents s) (bt_objs s) (bt_gos s) (bt_client s) (bt_caches s) m.

Definition on_torrent (f : Torrent → Torrent) (l : nat) (s : server) : server := set_objs (alter f l (bt_objs s)) s.

Definition set_fields f t := mkTorrent f (t_spec t) (t_Stat t) (t_go t) (t_bt t) (t_cache t) (t_expiredTime t) (t_IsPriority t) (t_closed t) (t_PreloadSize t).
Definition set_Stat st t := mkTorrent (t_fields t) (t_spec t) st (t_go t) (t_bt t) (t_cache t) (t_expiredTime t) (t_IsPriority t) (t_closed t) (t_PreloadSize t).
Definition set_go g t := mkTorrent (t_fields t) (t_spec t) (t_Stat t) g (t_bt t) (t_cache t) (t_expiredTime t) (t_IsPriority t) (t_closed t) (t_PreloadSize t).
Definition set_cache c t := mkTorrent (t_fields t) (t_spec t) (t_Stat t) (t_go t) (t_bt t) c (t_expiredTime t) (t_IsPriority t) (t_closed t) (t_PreloadSize t).
Definition set_expiredTime e t := mkTorrent (t_fields t) (t_spec t) (t_Stat t) (t_go t) (t_bt t) (t_cache t) e (t_IsPriority t) (t_closed t) (t_PreloadSize t).
Definition set_PreloadSize n t := mkTorrent (t_fields t) (t_spec t) (t_Stat t) (t_go t) (t_bt t) (t_cache t) (t_expiredTime t) (t_IsPriority t) (t_closed t) n.

Definition info_of (s : server) (g : option nat) : option Info :=
  match g with Some g => match bt_gos s !! g with Some gt => g_info gt | None => None end | None => None end.

(** [Torrent.Hash] *)
Definition Hash (s : server) (t : Torrent) : bytes :=
  match t_go t ≫= λ g, bt_gos s !! g with
  | Some gt => g_hash gt
  | None => match t_spec t with Some sp => InfoHash sp | None => replicate 20 0 end
  end.

(** ** The client *)

(** [Client.AddTorrentOpt] *)
Definition AddTorrentOpt (hash : bytes) (s : server) : nat * bool * server :=
  match bt_client s !! hash with
  | Some g => (g, false, s)
  | None =>
      let g := fresh (dom (bt_gos s)) in
      (g, true, set_client (<[g := mkGo hash None false]> (bt_gos s)) (<[hash := g]> (bt_client s)) (bt_caches s) s)
  end.

(** The info of a torrent becomes known: its storage is opened. *)
Definition set_info (g : nat) (info : Info) (s : server) : server :=
  match bt_gos s !! g with
  | Some gt =>
      if bool_decide (g_info gt = None) then
        set_client (<[g := mkGo (g_hash gt) (Some info) (g_closed gt)]> (bt_gos s)) (bt_client s) ({[g_hash gt]} ∪ bt_caches s) s
      else s
  | None => s
  end.

(** [Client.dropTorrent]: by its hash; [None] is an error. *)
Definition dropTorrent (hash : bytes) (s : server) : option server :=
  match bt_client s !! hash with
  | Some g => Some (set_client (alter (λ gt, mkGo (g_hash gt) (g_info gt) true) g (bt_gos s)) (delete hash (bt_client s)) (bt_caches s) s)
  | None => None
  end.

(** [Torrent.Drop] panics on an error. *)
Definition Drop (g : nat) (s : server) : option server :=
  match bt_gos s !! g with Some gt => dropTorrent (g_hash gt) s | None => None end.

(** [Client.AddTorrentSpec]; [bad]: the info in the specification is refused. *)
Definition AddTorrentSpec (sp : TorrentSpec) (bad : bool) (s : server) : option (option nat * server) :=
  let '(g, new, s) := AddTorrentOpt (InfoHash sp) s in
  match SpecInfo sp with
  | None => Some (Some g, s)
  | Some info =>
      if bad then (if new then match Drop g s with Some s => Some (None, s) | None => None end else Some (None, s))
      else Some (Some g, set_info g info s)
  end.

(** ** Torrents of the server *)

(** What comes from outside with a section: the time in nanoseconds, whether the client
    refuses the info of a specification, [Cache.Readers] and [Cache.GetUseReaders] of the
    torrent's cache, and how waiting ends. *)
Inductive waited := WInfo | WClosed | WTimer.
Record choice := mkChoice { ch_now : Z; ch_bad : bool; ch_readers : Z; ch_use : Z; ch_wait : waited }.

Section Server.
Context `{!Settings}.

Definition second : Z := 1000000000.
Definition disconnect_timeout : Z := i64 (second * TorrentDisconnectTimeout).
Definition short_timeout : Z := if 60 * second <? disconnect_timeout then 60 * second else disconnect_timeout.

Definition AddExpiredTime (now duration : Z) (t : Torrent) : Torrent :=
  if t_expiredTime t <? now + duration then set_expiredTime (now + duration) t else t.

(** [Torrent.expired]; [readers]: of its cache. *)
Definition expired (now readers : Z) (t : Torrent) : bool :=
  if negb (t_cache t) then false
  else if t_IsPriority t then false
  else (readers =? 0) && (t_expiredTime t <? now) && (bool_decide (t_Stat t = TorrentWorking) || bool_decide (t_Stat t = TorrentClosed)).

(** The trackers [NewTorrent] asks for. *)
Definition retrack (sp : TorrentSpec) : TorrentSpec :=
  let trackers :=
    if RetrackersMode =? 1 then Trackers sp ++ [DefTrackers]
    else if RetrackersMode =? 2 then []
    else if RetrackersMode =? 3 then [DefTrackers]
    else Trackers sp in
  let trackers := if bool_decide (FileTrackers = []) then trackers else trackers ++ [FileTrackers] in
  mkSpec (InfoHash sp) trackers (SpecInfo sp).

Definition new_torrent (sp : TorrentSpec) (g : nat) (now : Z) : Torrent :=
  AddExpiredTime now short_timeout
    (mkTorrent (mkFields [] [] [] [] (now / second) 0) (Some sp) TorrentAdded (Some g) true false 0 false (Some g) 0).

(** The last section of [NewTorrent], under the server's lock. *)
Definition register (sp : TorrentSpec) (g : nat) (now : Z) (s : server) : nat * server :=
  match bt_torrents s !! InfoHash sp with
  | Some l => (l, s)
  | None =>
      let l := fresh (dom (bt_objs s)) in
      (l, set_torrents (<[InfoHash sp := l]> (bt_torrents s)) (set_objs (<[l := new_torrent sp g now]> (bt_objs s)) s))
  end.

(** The first text that is not empty. *)
Fixpoint first_text (l : list bytes) : bytes := match l with [] => [] | x :: l => if bool_decide (x = []) then first_text l else x end.

(** The fields [AddTorrent] gives a torrent: what it has, else what was asked for, else
    what the database has, else, for the title, the name in the info. *)
Definition fill_fields (f : fields) (title category poster data : bytes) (db : option fields) (name : bytes) : fields :=
  let of_db (p : fields → bytes) := match db with Some d => p d | None => [] end in
  mkFields (first_text [f_Title f; title; of_db f_Title; name]) (first_text [f_Category f; category; of_db f_Category])
    (first_text [f_Poster f; poster; of_db f_Poster]) (first_text [f_Data f; data; of_db f_Data]) (f_Timestamp f) (f_Size f).

Definition info_name (s : server) (t : Torrent) : bytes := match info_of s (t_go t) with Some i => i_Name i | None => [] end.

(** ** Calls *)

(** What a caller of [NewTorrent] does with the torrent: [AddTorrent], and the goroutine
    of [GetTorrent]. *)
Inductive caller := KAdd (title category poster data : bytes) | KLoad (f : fields).

Inductive frame :=
| FNew (sp : TorrentSpec) (k : caller)
| FRegister (sp : TorrentSpec) (g : nat) (k : caller)
| FAfter (l : nat) (k : caller)
| FGet (hash : bytes) (* [GetTorrent] *)
| FGotInfo (l : nat)
| FWait (l g : nat) (* waiting for the info *)
| FRemove (hash : bytes) (* [RemoveTorrent] *)
| FClose (l : nat)
| FUnregister (l : nat) (* marked as closed *)
| FDrop (l : nat) (* taken from the server's table *)
| FUpdateStats (l : nat)
| FPreload (l : nat) (size : Z)
| FPreloadWait (l g : nat)
| FPreloadStart (l : nat)
| FPreloadEnd (l : nat).

Inductive result := Goes (f : option frame) (s : server) | Waits | Panics.

(** [WaitInfo] ends; [None]: with a panic, the storage having no cache. *)
Inductive wait_result := WaitDone (info : bool) (s : server) | WaitMore | WaitPanics.
Definition wait_info (l g : nat) (t : Torrent) (ch : choice) (s : server) : wait_result :=
  match ch_wait ch with
  | WTimer => WaitDone false s
  | WClosed =>
      match t_closed t ≫= λ g, bt_gos s !! g with
      | Some gt => if g_closed gt then WaitDone false s else WaitMore
      | None => WaitMore
      end
  | WInfo =>
      match info_of s (Some g) with
      | None => WaitMore
      | Some _ =>
          if negb (t_bt t) then WaitDone true s
          else if bool_decide (Hash s t ∈ bt_caches s) then WaitDone true (on_torrent (set_cache true) l s)
          else WaitPanics
      end
  end.

Definition with_torrent (l : nat) (s : server) (k : Torrent → result) : result :=
  match bt_objs s !! l with Some t => k t | None => Goes None s end.

(** [NewTorrent] up to the server's lock. *)
Definition NewTorrent_add (sp : TorrentSpec) (k : caller) (ch : choice) (s : server) : result :=
  if negb (bt_connected s) then Goes None s
  else
    let sp := retrack sp in
    match AddTorrentSpec sp (ch_bad ch) s with
    | None => Panics
    | Some (None, s) => Goes None s
    | Some (Some g, s) => Goes (Some (FRegister sp g k)) s
    end.

(** The rest of [NewTorrent]. *)
Definition NewTorrent_register (sp : TorrentSpec) (g : nat) (k : caller) (ch : choice) (s : server) : result :=
  let '(l, s) := register sp g (ch_now ch) s in Goes (Some (FAfter l k)) s.

(** The caller of [NewTorrent] goes on. *)
Definition after_new (l : nat) (k : caller) (s : server) : result :=
  with_torrent l s (λ t,
    match k with
    | KAdd title category poster data =>
        let db := match t_spec t with Some sp => db_fields <$> bt_db s !! InfoHash sp | None => None end in
        Goes None (on_torrent (set_fields (fill_fields (t_fields t) title category poster data db (info_name s t))) l s)
    | KLoad f => Goes (Some (FGotInfo l)) (on_torrent (set_fields f) l s)
    end).

(** [GetTorrent], up to the goroutine it starts. *)
Definition GetTorrent_section (hash : bytes) (ch : choice) (s : server) : result :=
  match bt_torrents s !! hash with
  | Some l => Goes None (on_torrent (AddExpiredTime (ch_now ch) short_timeout) l s)
  | None =>
      match bt_db s !! hash with
      | Some d => Goes (Some (FNew (db_Spec d) (KLoad (db_fields d)))) s
      | None => Goes None s
      end
  end.

(** [GotInfo] up to the wait. *)
Definition GotInfo_section (l : nat) (s : server) : result :=
  with_torrent l s (λ t,
    if bool_decide (t_Stat t = TorrentClosed) then Goes None s
    else if bool_decide (t_Stat t = TorrentPreload) then Goes None s
    else Goes (Some (match t_go t with Some g => FWait l g | None => FClose l end)) (on_torrent (set_Stat TorrentGettingInfo) l s)).

(** [GotInfo] after the wait. *)
Definition GotInfo_wake (l g : nat) (ch : choice) (s : server) : result :=
  with_torrent l s (λ t,
    match wait_info l g t ch s with
    | WaitDone true s => Goes None (on_torrent (λ t, AddExpiredTime (ch_now ch) disconnect_timeout (set_Stat TorrentWorking t)) l s)
    | WaitDone false s => Goes (Some (FClose l)) s
    | WaitMore => Waits
    | WaitPanics => Panics
    end).

(** [RemoveTorrent] up to [Close]. *)
Definition RemoveTorrent_section (hash : bytes) (s : server) : result :=
  match bt_torrents s !! hash with Some l => Goes (Some (FClose l)) s | None => Goes None s end.

(** [Close] up to the server's lock. *)
Definition Close_mark (l : nat) (ch : choice) (s : server) : result :=
  with_torrent l s (λ t,
    if bool_decide (t_Stat t = TorrentClosed) then Goes None s
    else if ReadOnly && t_cache t && (0 <? ch_use ch) then Goes None s
    else Goes (Some (if t_bt t then FUnregister l else FDrop l)) (on_torrent (set_Stat TorrentClosed) l s)).

(** [Close] under the server's lock. *)
Definition Close_unregister (l : nat) (s : server) : result :=
  with_torrent l s (λ t, Goes (Some (FDrop l)) (set_torrents (delete (Hash s t) (bt_torrents s)) s)).

(** [drop]. *)
Definition drop_section (l : nat) (s : server) : result :=
  with_torrent l s (λ t,
    match t_go t with
    | None => Goes None s
    | Some g => match Drop g s with Some s => Goes None (on_torrent (set_go None) l s) | None => Panics end
    end).

(** [UpdateStats], as far as it closes torrents; speeds are left out. *)
Definition UpdateStats_section (l : nat) (ch : choice) (s : server) : result :=
  with_torrent l s (λ t, if expired (ch_now ch) (ch_readers ch) t then Goes (Some (FRemove (Hash s t))) s else Goes None s).

(** [Preload] up to the wait. *)
Definition Preload_section (l : nat) (size : Z) (s : server) : result :=
  with_torrent l s (λ t,
    if size <=? 0 then Goes None s
    else
      let s := on_torrent (set_PreloadSize size) l s in
      if bool_decide (t_Stat t = TorrentGettingInfo) then Goes (match t_go t with Some g => Some (FPreloadWait l g) | None => None end) s
      else Goes (Some (FPreloadStart l)) s).

(** [Preload] after the wait. *)
Definition Preload_wake (l g : nat) (ch : choice) (s : server) : result :=
  with_torrent l s (λ t,
    match wait_info l g t ch s with
    | WaitDone true s => Goes (Some (FPreloadStart l)) s
    | WaitDone false s => Goes None s
    | WaitMore => Waits
    | WaitPanics => Panics
    end).

(** [Preload] under the torrent's lock; the reading that follows is left out. *)
Definition Preload_start (l : nat) (s : server) : result :=
  with_torrent l s (λ t,
    if bool_decide (t_Stat t = TorrentWorking) then Goes (Some (FPreloadEnd l)) (on_torrent (set_Stat TorrentPreload) l s) else Goes None s).

(** The end of [Preload]. *)
Definition Preload_end (l : nat) (s : server) : result :=
  with_torrent l s (λ t,
    if bool_decide (t_Stat t = TorrentPreload) then Goes None (on_torrent (set_Stat TorrentWorking) l s) else Goes None s).

Definition step_frame (f : frame) (ch : choice) (s : server) : result :=
  match f with
  | FNew sp k => NewTorrent_add sp k ch s
  | FRegister sp g k => NewTorrent_register sp g k ch s
  | FAfter l k => after_new l k s
  | FGet hash => GetTorrent_section hash ch s
  | FGotInfo l => GotInfo_section l s
  | FWait l g => GotInfo_wake l g ch s
  | FRemove hash => RemoveTorrent_section hash s
  | FClose l => Close_mark l ch s
  | FUnregister l => Close_unregister l s
  | FDrop l => drop_section l s
  | FUpdateStats l => UpdateStats_section l ch s
  | FPreload l size => Preload_section l size s
  | FPreloadWait l g => Preload_wake l g ch s
  | FPreloadStart l => Preload_start l s
  | FPreloadEnd l => Preload_end l s
  end.

(** ** Calls one at a time *)

(** What happens while a single call runs: its sections, and infos the client gets from
    its peers. *)
Inductive act := AStep (ch : choice) | AInfo (g : nat) (info : Info).

(** The client gets an info only for a torrent it has. *)
Definition info_arrives (g : nat) (info : Info) (s : server) : server :=
  match bt_gos s !! g with Some gt => if g_closed gt then s else set_info g info s | None => s end.

Inductive ended := Ended (s : server) | Unfinished | Panicked.

Fixpoint alone (f : frame) (acts : list act) (s : server) : ended :=
  match acts with
  | [] => Unfinished
  | AInfo g info :: acts => alone f acts (info_arrives g info s)
  | AStep ch :: acts =>
      match step_frame f ch s with
      | Goes None s => Ended s
      | Goes (Some f) s => alone f acts s
      | Waits => alone f acts s
      | Panics => Panicked
      end
  end.

(** [GetTorrentDB] *)
Definition db_torrent (d : TorrentDB) : Torrent := mkTorrent (db_fields d) (Some (db_Spec d)) TorrentInDB None false false 0 false None 0.
Definition GetTorrentDB (hash : bytes) (s : server) : option Torrent := db_torrent <$> bt_db s !! hash.

Definition set_user_fields (title category poster data : bytes) (f : fields) : fields :=
  mkFields title category poster (if bool_decide (data = []) then f_Data f else data) (f_Timestamp f) (f_Size f).

(** [AddTorrentDB] of a torrent of the database; [img_ok] is [CheckImgUrl], [no_files] the
    data written for a torrent without files. *)
Definition AddTorrentDB (img_ok : bytes → bool) (no_files : bytes) (hash : bytes) (d : TorrentDB) (s : server) : server :=
  let f := db_fields d in
  let f := mkFields (f_Title f) (f_Category f) (if img_ok (f_Poster f) then f_Poster f else []) (if bool_decide (f_Data f = []) then no_files else f_Data f)
    (f_Timestamp f) (f_Size f) in
  set_db (<[hash := mkTorrentDB (db_Spec d) f]> (bt_db s)) s.

(** [SetTorrent], with the call it leaves running.  For a torrent that is only in the
    database it asks [GetTorrent], gets the copy made from the database, and asks that
    copy for its info. *)
Definition SetTorrent (img_ok : bytes → bool) (no_files : bytes) (ch : choice) (hash title poster category data : bytes) (s : server) : ended * option frame :=
  let torr := bt_torrents s !! hash in
  let torrDb := bt_db s !! hash in
  let '(torr, pending, r) :=
    match title, torr, torrDb with
    | [], None, Some d =>
        let l := fresh (dom (bt_objs s)) in
        let s := set_objs (<[l := db_torrent d]> (bt_objs s)) s in
        (Some l, Some (FNew (db_Spec d) (KLoad (db_fields d))), alone (FGotInfo l) [AStep ch; AStep ch; AStep ch] s)
    | _, _, _ => (torr, None, Ended s)
    end in
  match r with
  | Ended s =>
      let title :=
        match title, torr ≫= λ l, bt_objs s !! l with
        | [], Some t => info_name s t
        | _, _ => title
        end in
      let s := match torr with
               | Some l => on_torrent (λ t, set_fields (set_user_fields title category poster data (t_fields t)) t) l s
               | None => s
               end in
      let s := match torrDb with
               | Some d => AddTorrentDB img_ok no_files hash (mkTorrentDB (db_Spec d) (set_user_fields title category poster data (db_fields d))) s
               | None => s
               end in
      (Ended s, pending)
  | r => (r, pending)
  end.

(** [RemTorrent], without the files on disk: for a torrent that is in memory the database
    is changed once it has been closed, or could not be. *)
Definition RemTorrent (hash : bytes) (acts : list act) (s : server) : ended :=
  if ReadOnly then Ended s
  else
    let remove s := set_db (delete hash (bt_db s)) s in
    match bt_torrents s !! hash with
    | None => Ended (remove s)
    | Some _ => match alone (FRemove hash) acts s with Ended s => Ended (remove s) | r => r end
    end.

(** The order of [ListTorrent]: the newest first, then by title. *)
Definition listed_before (a b : Torrent) : bool :=
  if negb (f_Timestamp (t_fields a) =? f_Timestamp (t_fields b)) then f_Timestamp (t_fields b) <? f_Timestamp (t_fields a)
  else 0 <? compare_text (f_Title (t_fields a)) (f_Title (t_fields b)).

(** The torrents in memory, and those of the database that are not. *)
Definition known_torrents (s : server) : gmap bytes Torrent :=
  omap (λ l, bt_objs s !! l) (bt_torrents s) ∪ (db_torrent <$> bt_db s).

Definition ListTorrent `{!SliceSort listed_before} (s : server) : list Torrent := sort_slice listed_before (snd <$> map_to_list (known_torrents s)).

(** ** Calls in any order *)

Record world := mkWorld { w_server : server; w_frames : list frame; w_panicked : bool }.

(** Where calls begin. *)
Definition entry (s : server) (f : frame) : bool :=
  match f with
  | FNew _ _ | FGet _ | FRemove _ => true
  | FGotInfo l | FUpdateStats l | FPreload l _ => bool_decide (is_Some (bt_objs s !! l))
  | _ => false
  end.

Inductive wevent := ECall (f : frame) | EStep (n : nat) (ch : choice) | EInfo (g : nat) (info : Info).

Definition wstep (w : world) (e : wevent) : world :=
  let '(mkWorld s fs p) := w in
  if p then w
  else
    match e with
    | ECall f => if entry s f then mkWorld s (fs ++ [f]) false else w
    | EStep n ch =>
        match fs !! n with
        | None => w
        | Some f =>
            match step_frame f ch s with
            | Goes o s => mkWorld s (take n fs ++ option_list o ++ drop (S n) fs) false
            | Waits => w
            | Panics => mkWorld s fs true
            end
        end
    | EInfo g info => mkWorld (info_arrives g info s) fs false
    end.

(** A connected server: no torrents, whatever is in the database. *)
Definition connected (db : gmap bytes TorrentDB) : server := mkServer true ∅ ∅ ∅ ∅ ∅ db.
Definition wrun (db : gmap bytes TorrentDB) (es : list wevent) : world := foldl wstep (mkWorld (connected db) [] false) es.
End Server.
