(* ===== verification/TorrentProps.v ===== *)
(** * Torrents that requests share

    [table_invariant]: however calls overlap, a torrent in the server's table is the
    one of its hash and still wraps a torrent of the client, though perhaps one that was
    dropped since.  [serial_calls]: when calls do not overlap, the table and the client's
    table agree and nothing panics; [add_during_drop] shows calls that do overlap and
    panic. *)

From S2P Require Import Prelude GoText Torrent.
#[local] Open Scope Z_scope.

(** ** What operations keep *)

Definition obj_ok (s : server) (t : Torrent) : Prop :=
  ∀ g, t_go t = Some g → ∃ gt sp, bt_gos s !! g = Some gt ∧ t_spec t = Some sp ∧ g_hash gt = InfoHash sp.

(** The torrent at [l] is one of the server's for [h]. *)
Definition holds (s : server) (h : bytes) (l : nat) : Prop :=
  ∃ t g gt, bt_objs s !! l = Some t ∧ t_go t = Some g ∧ bt_gos s !! g = Some gt ∧ g_hash gt = h ∧ t_bt t = true.

Record Base (s : server) : Prop := {
  b_obj : ∀ l t, bt_objs s !! l = Some t → obj_ok s t;
  b_reg : ∀ h l, bt_torrents s !! h = Some l → holds s h l;
  b_client : ∀ h g, bt_client s !! h = Some g → ∃ gt, bt_gos s !! g = Some gt ∧ g_hash gt = h ∧ g_closed gt = false;
}.

Definition unregistered (s : server) (l : nat) : Prop := ∀ h, bt_torrents s !! h ≠ Some l.

(** What other calls may rely on after a section. *)
Record extends (s s' : server) : Prop := {
  e_objs : ∀ l, is_Some (bt_objs s !! l) → is_Some (bt_objs s' !! l);
  e_gos : ∀ g gt, bt_gos s !! g = Some gt → ∃ gt', bt_gos s' !! g = Some gt' ∧ g_hash gt' = g_hash gt;
  e_unreg : ∀ l, is_Some (bt_objs s !! l) → unregistered s l → unregistered s' l;
}.

Lemma extends_refl s : extends s s.
Proof. constructor; eauto. Qed.

Lemma extends_trans s1 s2 s3 : extends s1 s2 → extends s2 s3 → extends s1 s3.
Proof.
  intros [A1 B1 C1] [A2 B2 C2]. constructor; [eauto| |eauto].
  intros g gt (gt'&Hg&<-)%B1. destruct (B2 _ _ Hg) as (gt''&?&?). eauto.
Qed.

(** The torrents of the client change, no hash and none of the server's objects do. *)
Lemma Base_gos gos client caches s :
  (∀ g gt, bt_gos s !! g = Some gt → ∃ gt', gos !! g = Some gt' ∧ g_hash gt' = g_hash gt) →
  (∀ h g, client !! h = Some g → ∃ gt, gos !! g = Some gt ∧ g_hash gt = h ∧ g_closed gt = false) →
  Base s → Base (set_client gos client caches s) ∧ extends s (set_client gos client caches s).
Proof.
  intros Hg Hc [B1 B2 B3]. split; constructor; cbn; eauto.
  - intros l t Hl g Hgo. destruct (B1 l t Hl g Hgo) as (gt&sp&Hgt&Hsp&He). destruct (Hg _ _ Hgt) as (gt'&Hgt'&He'). exists gt', sp. by rewrite He'.
  - intros h l (t&g&gt&Hl&Hgo&Hgt&Hh&Hb)%B2. destruct (Hg _ _ Hgt) as (gt'&Hgt'&He'). exists t, g, gt'. by rewrite He'.
Qed.

Lemma Base_AddTorrentOpt h s g new s' : Base s → AddTorrentOpt h s = (g, new, s') →
  Base s' ∧ extends s s' ∧ bt_client s' !! h = Some g ∧ bt_torrents s' = bt_torrents s.
Proof.
  intros HB. unfold AddTorrentOpt. destruct (bt_client s !! h) as [g0|] eqn:E.
  - intros [= <- <- <-]. split_and!; [done|apply extends_refl|done|done].
  - intros [= <- <- <-]. set (g := fresh _). assert (Hf : bt_gos s !! g = None) by (apply not_elem_of_dom, is_fresh).
    destruct (Base_gos (<[g := mkGo h None false]> (bt_gos s)) (<[h := g]> (bt_client s)) (bt_caches s) s) as [HB' He]; [..|done|].
    + intros g' gt Hg'. exists gt. rewrite lookup_insert_ne by congruence. done.
    + intros h' g'. rewrite lookup_insert. case_decide as Eh; [intros [= <-]; exists (mkGo h None false); by rewrite lookup_insert_eq, Eh|].
      intros Hc. destruct (b_client _ HB _ _ Hc) as (gt&Hgt&?&?). exists gt. rewrite lookup_insert_ne by congruence. done.
    + split_and!; [done|done|cbn; by rewrite lookup_insert_eq|done].
Qed.

Lemma Base_set_info g info s : Base s → Base (set_info g info s) ∧ extends s (set_info g info s).
Proof.
  intros HB. unfold set_info. destruct (bt_gos s !! g) as [gt|] eqn:E; [|by split; [|apply extends_refl]].
  case_bool_decide; [|by split; [|apply extends_refl]].
  assert (Hi : ∀ g' gt', bt_gos s !! g' = Some gt' → ∃ gt'', <[g:=mkGo (g_hash gt) (Some info) (g_closed gt)]> (bt_gos s) !! g' = Some gt'' ∧ g_hash gt'' = g_hash gt' ∧ g_closed gt'' = g_closed gt').
  { intros g' gt' Hg'. destruct (decide (g = g')) as [<-|Hne]; [rewrite lookup_insert_eq; eexists; split; [done|]; by rewrite Hg' in E; simplify_eq|].
    rewrite lookup_insert_ne by done. eauto. }
  apply Base_gos; [| |done].
  - intros g' gt' Hg'. destruct (Hi _ _ Hg') as (gt''&?&?&_). eauto.
  - intros h g' Hc. destruct (b_client _ HB _ _ Hc) as (gt'&Hgt'&?&?). destruct (Hi _ _ Hgt') as (gt''&?&?&?). exists gt''. split_and!; [done|congruence|congruence].
Qed.

Lemma Base_dropTorrent h s s' : Base s → dropTorrent h s = Some s' → Base s' ∧ extends s s' ∧ bt_torrents s' = bt_torrents s ∧ bt_objs s' = bt_objs s.
Proof.
  intros HB. unfold dropTorrent. destruct (bt_client s !! h) as [g|] eqn:E; [|done]. intros [= <-].
  destruct (b_client _ HB _ _ E) as (gt0&Hgt0&Hh0&_).
  destruct (Base_gos (alter (λ gt, mkGo (g_hash gt) (g_info gt) true) g (bt_gos s)) (delete h (bt_client s)) (bt_caches s) s) as [HB' He]; [..|done|by split_and!].
  - intros g' gt' Hg'. rewrite lookup_alter. case_decide as Eg; [subst; rewrite Hg'; cbn; eauto|eauto].
  - intros h' g' [Hne Hc]%lookup_delete_Some. destruct (b_client _ HB _ _ Hc) as (gt'&Hgt'&Hh'&Hcl). exists gt'. split_and!; [|done|done].
    rewrite lookup_alter. case_decide as Eg; [|done]. subst. congruence.
Qed.

(** Changes of a torrent that leave what it wraps. *)
Definition quiet (f : Torrent → Torrent) : Prop := ∀ t, t_go (f t) = t_go t ∧ t_spec (f t) = t_spec t ∧ t_bt (f t) = t_bt t.

Lemma lookup_on_torrent f l s l' : bt_objs (on_torrent f l s) !! l' = (if decide (l = l') then f <$> bt_objs s !! l' else bt_objs s !! l').
Proof. unfold on_torrent. cbn. rewrite lookup_alter. by destruct (decide (l = l')) as [->|]. Qed.

Lemma on_torrent_some f l s l' : is_Some (bt_objs s !! l') → is_Some (bt_objs (on_torrent f l s) !! l').
Proof. intros [t Ht]. rewrite lookup_on_torrent, Ht. destruct (decide _); by eexists. Qed.

Lemma Base_on_torrent f l s : quiet f → Base s → Base (on_torrent f l s) ∧ extends s (on_torrent f l s).
Proof.
  intros Hq [B1 B2 B3]. split; constructor; try done; [| |by apply on_torrent_some|by intros g gt Hg; exists gt].
  - intros l' t. rewrite lookup_on_torrent. destruct (decide _) as [->|]; [|apply B1].
    intros (t0&Ht0&->)%fmap_Some. destruct (Hq t0) as (H1&H2&_). intros g. rewrite H1, H2. by eapply B1.
  - intros h l' (t&g&gt&Hl&Hgo&Hgt&Hh&Hb)%B2. unfold holds. rewrite lookup_on_torrent. destruct (decide _) as [->|]; [|by exists t, g, gt].
    destruct (Hq t) as (H1&_&H3). exists (f t), g, gt. rewrite Hl. split_and!; [done|by rewrite H1|done|done|by rewrite H3].
Qed.

Lemma AddExpiredTime_quiet now d : quiet (AddExpiredTime now d).
Proof. intros t. unfold AddExpiredTime. by destruct (_ <? _). Qed.

Lemma Hash_go s t g gt : t_go t = Some g → bt_gos s !! g = Some gt → Hash s t = g_hash gt.
Proof. intros H1 H2. unfold Hash. rewrite H1. cbn. by rewrite H2. Qed.

(** The next section of a call. *)
Ltac run_section :=
  cbn [step_frame];
  first [progress unfold NewTorrent_add | progress unfold NewTorrent_register | progress unfold after_new | progress unfold GetTorrent_section | progress unfold GotInfo_section | progress unfold GotInfo_wake | progress unfold RemoveTorrent_section | progress unfold Close_mark | progress unfold Close_unregister | progress unfold drop_section | progress unfold UpdateStats_section | progress unfold Preload_section | progress unfold Preload_wake | progress unfold Preload_start | progress unfold Preload_end];
  try unfold with_torrent.

Section Steps.
Context `{!Settings}.

Lemma Base_register sp g now s l s' : Base s → (∃ gt, bt_gos s !! g = Some gt ∧ g_hash gt = InfoHash sp) → register sp g now s = (l, s') →
  Base s' ∧ extends s s' ∧ is_Some (bt_objs s' !! l).
Proof.
  intros HB (gt&Hgt&Hh). unfold register. destruct (bt_torrents s !! InfoHash sp) as [l0|] eqn:E.
  - intros [= <- <-]. destruct (b_reg _ HB _ _ E) as (t&_&_&Ht&_). split_and!; [done|apply extends_refl|by eexists].
  - intros [= <- <-]. set (l := fresh _). assert (Hf : bt_objs s !! l = None) by (apply not_elem_of_dom, is_fresh).
    set (t := new_torrent sp g now). assert (Ht : t_go t = Some g ∧ t_spec t = Some sp ∧ t_bt t = true) by apply AddExpiredTime_quiet.
    destruct Ht as (Ht1&Ht2&Ht3). destruct HB as [B1 B2 B3]. split_and!; [constructor; cbn|constructor; cbn|cbn; by rewrite lookup_insert_eq]; try done;
      [..|intros l' [t' Hl']; rewrite lookup_insert_ne by congruence; by eexists| |].
    + intros l' t'. rewrite lookup_insert. case_decide; [intros [= <-] g'; rewrite Ht1; intros [= <-]; exists gt, sp; by split_and!|apply B1].
    + intros h l'. rewrite lookup_insert. case_decide as Eh; [intros [= <-]; exists t, g, gt; cbn; rewrite lookup_insert_eq; split_and!; congruence|].
      intros (t'&g'&gt'&Hl&Hr)%B2. exists t', g', gt'. cbn. rewrite lookup_insert_ne by congruence. done.
    + intros g' gt' Hg'. eauto.
    + intros l' [t' Hl'] Hu h. cbn. rewrite lookup_insert. case_decide; [congruence|apply Hu].
Qed.

Lemma Base_unregister l t s : Base s → bt_objs s !! l = Some t → let s' := set_torrents (delete (Hash s t) (bt_torrents s)) s in
  Base s' ∧ extends s s' ∧ unregistered s' l.
Proof.
  intros HB Ht. cbv zeta. split_and!.
  - destruct HB as [B1 B2 B3]. constructor; try done. cbn. intros h l' [_ Hl]%lookup_delete_Some. by apply B2.
  - constructor; [done|eauto|]. intros l' _ Hu h. cbn. intros [_ Hl]%lookup_delete_Some. by apply (Hu h).
  - intros h. cbn. intros [Hne Hl]%lookup_delete_Some. destruct (b_reg _ HB _ _ Hl) as (t'&g&gt&Hl'&Hgo&Hgt&Hh&_). apply Hne.
    rewrite Ht in Hl'. injection Hl' as <-. by rewrite (Hash_go _ _ _ _ Hgo Hgt).
Qed.

(** What a call may rely on when it goes on. *)
Definition frame_ok (s : server) (f : frame) : Prop :=
  match f with
  | FNew _ _ | FGet _ | FRemove _ => True
  | FRegister sp g _ => ∃ gt, bt_gos s !! g = Some gt ∧ g_hash gt = InfoHash sp
  | FAfter l _ | FGotInfo l | FWait l _ | FClose l | FUnregister l | FUpdateStats l | FPreload l _ | FPreloadWait l _ | FPreloadStart l | FPreloadEnd l =>
      is_Some (bt_objs s !! l)
  | FDrop l => is_Some (bt_objs s !! l) ∧ unregistered s l
  end.

Lemma frame_ok_extends s s' f : extends s s' → frame_ok s f → frame_ok s' f.
Proof.
  intros [E1 E2 E3]. destruct f; cbn; try done; try apply E1.
  - intros (gt&Hg&<-). destruct (E2 _ _ Hg) as (gt'&?&?). eauto.
  - intros [? ?]. eauto.
Qed.

Definition kept (s s' : server) (o : option frame) : Prop := Base s' ∧ extends s s' ∧ ∀ f, o = Some f → frame_ok s' f.

Lemma kept_quiet f l s o : quiet f → Base s → (∀ f', o = Some f' → frame_ok (on_torrent f l s) f') → kept s (on_torrent f l s) o.
Proof. intros Hq HB Ho. destruct (Base_on_torrent f l s Hq HB). by split_and!. Qed.

Lemma kept_same s o : Base s → (∀ f', o = Some f' → frame_ok s f') → kept s s o.
Proof. intros HB Ho. split_and!; [done|apply extends_refl|done]. Qed.

Lemma kept_after s s1 s2 o : extends s s1 → kept s1 s2 o → kept s s2 o.
Proof. intros He (HB&He'&Ho). split_and!; [done|by eapply extends_trans|done]. Qed.

Lemma wait_keeps l g t ch s b s' : Base s → wait_info l g t ch s = WaitDone b s' → Base s' ∧ extends s s'.
Proof.
  intros HB. unfold wait_info. assert (Hr : Base s ∧ extends s s) by (split; [done|apply extends_refl]).
  destruct (ch_wait ch).
  - destruct (info_of s (Some g)); [|done]. destruct (negb _); [by intros [= <- <-]|]. case_bool_decide; [|done]. intros [= <- <-].
    by apply Base_on_torrent.
  - destruct (t_closed t ≫= _); [|done]. by destruct (g_closed _); [intros [= <- <-]|].
  - by intros [= <- <-].
Qed.

Ltac no_frame := intros ? [=].
Ltac next_frame := intros ? [= <-]; cbn [frame_ok].

Lemma keeps_New sp k ch s o s' : Base s → step_frame (FNew sp k) ch s = Goes o s' → kept s s' o.
Proof.
  intros HB. run_section. destruct (negb _); [intros [= <- <-]; apply kept_same; [done|no_frame]|].
  unfold AddTorrentSpec. change (InfoHash (retrack sp)) with (InfoHash sp). change (SpecInfo (retrack sp)) with (SpecInfo sp).
  destruct (AddTorrentOpt (InfoHash sp) s) as [[g new] s1] eqn:E. destruct (Base_AddTorrentOpt _ _ _ _ _ HB E) as (HB1&He1&Hc1&_).
  assert (Hok : ∀ s2, extends s1 s2 → frame_ok s2 (FRegister (retrack sp) g k)).
  { intros s2 He2. apply (frame_ok_extends _ _ _ He2). destruct (b_client _ HB1 _ _ Hc1) as (gt&?&?&_). by exists gt. }
  destruct (SpecInfo sp) as [info|].
  - destruct (ch_bad ch).
    + destruct new; [|intros [= <- <-]; split_and!; [done|done|no_frame]]. destruct (Drop g s1) as [s2|] eqn:Ed; [|done]. intros [= <- <-].
      unfold Drop in Ed. destruct (bt_gos s1 !! g) as [gt|]; [|done]. destruct (Base_dropTorrent _ _ _ HB1 Ed) as (?&?&_).
      split_and!; [done|by eapply extends_trans|no_frame].
    + intros [= <- <-]. destruct (Base_set_info g info s1 HB1). split_and!; [done|by eapply extends_trans|]. intros ? [= <-]. by apply Hok.
  - intros [= <- <-]. split_and!; [done|done|]. intros ? [= <-]. apply Hok, extends_refl.
Qed.

Lemma keeps_wait f l g ch s o s' : f = FWait l g ∨ f = FPreloadWait l g → Base s → is_Some (bt_objs s !! l) → step_frame f ch s = Goes o s' → kept s s' o.
Proof.
  intros Hf HB [t Ht]. assert (Hw : ∀ b s1, wait_info l g t ch s = WaitDone b s1 → Base s1 ∧ extends s s1 ∧ is_Some (bt_objs s1 !! l)).
  { intros b s1 Hw. destruct (wait_keeps _ _ _ _ _ _ _ HB Hw) as [? He]. split_and!; [done|done|]. apply (e_objs _ _ He). by eexists. }
  destruct Hf as [->| ->]; run_section; rewrite Ht; destruct (wait_info l g t ch s) as [b s1| |] eqn:E; try done;
    destruct (Hw _ _ eq_refl) as (HB1&He1&Hl1); destruct b; intros [= <- <-]; apply (kept_after _ s1 _ _ He1).
  - apply kept_quiet; [|done|no_frame]. intros t0. apply (AddExpiredTime_quiet _ _ (set_Stat TorrentWorking t0)).
  - apply kept_same; [done|]. by next_frame.
  - apply kept_same; [done|]. by next_frame.
  - apply kept_same; [done|no_frame].
Qed.

Lemma keeps_Drop l ch s o s' : Base s → frame_ok s (FDrop l) → step_frame (FDrop l) ch s = Goes o s' → kept s s' o.
Proof.
  intros HB [[t Ht] Hu]. run_section. rewrite Ht. destruct (t_go t) as [g|]; [|intros [= <- <-]; apply kept_same; [done|no_frame]].
  unfold Drop. destruct (bt_gos s !! g) as [gt|]; [|done]. destruct (dropTorrent _ s) as [s1|] eqn:E; [|done]. intros [= <- <-].
  destruct (Base_dropTorrent _ _ _ HB E) as (HB1&He1&Ht1&Ho1). apply (kept_after _ s1); [done|].
  assert (Hu1 : unregistered s1 l) by (apply (e_unreg _ _ He1); [by eexists|done]). destruct HB1 as [B1 B2 B3].
  split_and!; [constructor|constructor|no_frame]; try done.
  - intros l' t'. rewrite lookup_on_torrent. destruct (decide _) as [->|]; [|apply B1]. intros (t0&_&->)%fmap_Some g'. done.
  - intros h l' Hl'. pose proof (B2 _ _ Hl') as (t'&g'&gt'&Hr). exists t', g', gt'. rewrite lookup_on_torrent. destruct (decide _) as [->|]; [by destruct (Hu1 h)|done].
  - apply on_torrent_some.
  - eauto.
Qed.

Lemma step_keeps f ch s o s' : Base s → frame_ok s f → step_frame f ch s = Goes o s' → kept s s' o.
Proof.
  intros HB Hf. destruct f as [sp k|sp g k|l k|hash|l|l g|hash|l|l|l|l|l size|l g|l|l];
    try (by apply keeps_New); try (apply (keeps_wait _ l g); by auto); try (by apply keeps_Drop);
    try (destruct Hf as [t Ht]; run_section; rewrite Ht); try run_section.
  - destruct (register sp g (ch_now ch) s) as [l s1] eqn:E. intros [= <- <-]. destruct (Base_register _ _ _ _ _ _ HB Hf E) as (HB1&He1&Hl).
    split_and!; [done|done|by next_frame].
  - destruct k; intros [= <- <-]; (apply kept_quiet; [done|done|]); [no_frame|next_frame; apply on_torrent_some; by eexists].
  - destruct (bt_torrents s !! hash) as [l|]; [intros [= <- <-]; apply kept_quiet; [apply AddExpiredTime_quiet|done|no_frame]|].
    destruct (bt_db s !! hash); intros [= <- <-]; (apply kept_same; [done|]); [by next_frame|no_frame].
  - case_bool_decide; [intros [= <- <-]; apply kept_same; [done|no_frame]|]. case_bool_decide; [intros [= <- <-]; apply kept_same; [done|no_frame]|].
    intros [= <- <-]. apply kept_quiet; [done|done|]. intros f' [= <-]. destruct (t_go t); apply on_torrent_some; by eexists.
  - destruct (bt_torrents s !! hash) as [l|] eqn:El; intros [= <- <-]; (apply kept_same; [done|]); [|no_frame]. next_frame.
    destruct (b_reg _ HB _ _ El) as (t&_&_&Ht&_). by eexists.
  - case_bool_decide; [intros [= <- <-]; apply kept_same; [done|no_frame]|]. destruct (_ && _); [intros [= <- <-]; apply kept_same; [done|no_frame]|].
    intros [= <- <-]. apply kept_quiet; [done|done|]. intros f' [= <-]. assert (Hs : is_Some (bt_objs (on_torrent (set_Stat TorrentClosed) l s) !! l)) by (apply on_torrent_some; by eexists).
    destruct (t_bt t) eqn:Eb; cbn; [done|]. split; [done|]. intros h Hl. cbn in Hl. destruct (b_reg _ HB _ _ Hl) as (t'&_&_&Ht'&_&_&_&Hb). congruence.
  - intros [= <- <-]. destruct (Base_unregister l t s HB Ht) as (HB1&He1&Hu). split_and!; [done|done|]. next_frame. split; [by eexists|done].
  - destruct (expired _ _ t); intros [= <- <-]; (apply kept_same; [done|]); [by next_frame|no_frame].
  - destruct (size <=? 0); [intros [= <- <-]; apply kept_same; [done|no_frame]|].
    case_bool_decide; intros [= <- <-]; (apply kept_quiet; [done|done|]); [|next_frame; apply on_torrent_some; by eexists].
    intros f'. destruct (t_go t); [intros [= <-]|done]. apply on_torrent_some. by eexists.
  - case_bool_decide; intros [= <- <-]; [|apply kept_same; [done|no_frame]]. apply kept_quiet; [done|done|]. next_frame. apply on_torrent_some. by eexists.
  - case_bool_decide; intros [= <- <-]; [|apply kept_same; [done|no_frame]]. apply kept_quiet; [done|done|no_frame].
Qed.

(** ** Calls in any order *)

Definition WInv (w : world) : Prop := Base (w_server w) ∧ Forall (frame_ok (w_server w)) (w_frames w).

Lemma WInv_step w e : WInv w → WInv (wstep w e).
Proof.
  destruct w as [s fs p]. intros [HB Hfs]. cbn [w_server w_frames] in *. unfold wstep. destruct p; [done|]. destruct e as [f|n ch|g info].
  - destruct (entry s f) eqn:E; [|done]. split; [done|]. apply Forall_app. split; [done|]. apply Forall_singleton.
    destruct f; try done; cbn in E |- *; by apply bool_decide_eq_true in E.
  - destruct (fs !! n) as [f|] eqn:En; [|done]. pose proof (Forall_lookup_1 _ _ _ _ Hfs En) as Hf.
    destruct (step_frame f ch s) as [o s'| |] eqn:E; [|done|done]. destruct (step_keeps _ _ _ _ _ HB Hf E) as (HB'&He&Ho). split; [done|].
    assert (Hold : Forall (frame_ok s') fs) by (eapply Forall_impl; [exact Hfs|]; intros; by eapply frame_ok_extends).
    cbn [w_frames w_server]. rewrite !Forall_app. split_and!; [by apply Forall_take| |by apply Forall_drop].
    destruct o as [f'|]; [|constructor]. apply Forall_singleton. by apply Ho.
  - unfold info_arrives. destruct (bt_gos s !! g) as [gt|]; [|done]. destruct (g_closed gt); [done|].
    destruct (Base_set_info g info s HB) as [HB' He]. split; [done|]. eapply Forall_impl; [exact Hfs|]. intros. by eapply frame_ok_extends.
Qed.

Lemma wrun_inv db es : WInv (wrun db es).
Proof.
  unfold wrun. apply (foldl_inv WInv); [intros; by apply WInv_step|]. split; [|done]. by constructor.
Qed.

(** However the calls of requests, of the timer and of deletions overlap, a torrent in the
    server's table still belongs to the server, holds a handle of a torrent of the client,
    and is found under the hash of that handle.  The handle may be of a torrent
    that the client has dropped since ([add_during_drop]). *)
Theorem table_invariant db es h l : bt_torrents (w_server (wrun db es)) !! h = Some l →
  ∃ t g, bt_objs (w_server (wrun db es)) !! l = Some t ∧ t_go t = Some g ∧ t_bt t = true ∧ Hash (w_server (wrun db es)) t = h.
Proof.
  intros Hl. destruct (wrun_inv db es) as [HB _]. destruct (b_reg _ HB _ _ Hl) as (t&g&gt&Ht&Hg&Hgt&Hh&Hb).
  exists t, g. split_and!; try done. by rewrite (Hash_go _ _ _ _ Hg Hgt).
Qed.
End Steps.
