(* ===== verification/TorrentSerial.v ===== *)
(** * Calls that do not overlap

    Run one after the other, calls keep the server's table of torrents and the client's
    equal, torrent by torrent, and none panics: [serial_calls].  Where a call stands
    between two of its sections, [SInv] says which torrent is on its way in or out. *)

From S2P Require Import Prelude GoText Torrent TorrentProps.
#[local] Open Scope Z_scope.

(** What a call is in the middle of: a torrent of the client that is not wrapped yet, one
    that is marked as closed, one that has left the server's table. *)
Inductive mode := Settled | Fresh (h : bytes) (g : nat) | Marked (l : nat) | Out (l : nat).

Record SInv (m : mode) (s : server) : Prop := {
  s_base : Base s;
  s_obj : ∀ l t g gt, bt_objs s !! l = Some t → t_go t = Some g → bt_gos s !! g = Some gt →
    (m = Out l ∨ bt_torrents s !! g_hash gt = Some l) ∧ bt_client s !! g_hash gt = Some g ∧ (m = Marked l ∨ m = Out l ∨ t_Stat t ≠ TorrentClosed);
  s_client : ∀ h g, bt_client s !! h = Some g → m = Fresh h g ∨ ∃ l t, bt_objs s !! l = Some t ∧ t_go t = Some g;
  s_inj : ∀ l l' t t' g, bt_objs s !! l = Some t → bt_objs s !! l' = Some t' → t_go t = Some g → t_go t' = Some g → l = l';
  s_dropped : ∀ l t, bt_objs s !! l = Some t → t_bt t = true → t_go t = None → t_Stat t = TorrentClosed;
  s_cache : ∀ g gt, bt_gos s !! g = Some gt → g_info gt ≠ None → g_hash gt ∈ bt_caches s;
}.

Lemma SInv_weaken m s : SInv Settled s → SInv m s.
Proof.
  intros [H1 H2 H3 H4 H5 H6]. constructor; try done.
  - intros l t g gt Ht Hg Hgt. destruct (H2 l t g gt Ht Hg Hgt) as ([?|?]&?&[?|[?|?]]); try done. by split_and!; auto.
  - intros h g Hc. destruct (H3 h g Hc); [done|by right].
Qed.

(** A torrent marked, or gone, is what it is again once nothing wraps it. *)
Lemma SInv_out l s t : SInv (Out l) s → bt_objs s !! l = Some t → t_go t = None → SInv Settled s.
Proof.
  intros [H1 H2 H3 H4 H5 H6] Ht Hn. constructor; try done.
  - intros l' t' g gt Ht' Hg Hgt. destruct (H2 l' t' g gt Ht' Hg Hgt) as (A&B&C). assert (l' ≠ l) by congruence.
    split_and!; [right; destruct A as [[=]|]; congruence|done|right; right; destruct C as [[=]|[[=]|]]; congruence].
  - intros h g Hc. destruct (H3 h g Hc); [done|by right].
Qed.

Lemma S_add h s g new s' : SInv Settled s → AddTorrentOpt h s = (g, new, s') → SInv (Fresh h g) s' ∧ bt_client s' !! h = Some g.
Proof.
  intros HS E. destruct (Base_AddTorrentOpt _ _ _ _ _ (s_base _ _ HS) E) as (HB&_&Hc&_). split; [|done]. revert E. unfold AddTorrentOpt.
  destruct (bt_client s !! h) as [g0|] eqn:Eh; [intros [= <- <- <-]; by apply SInv_weaken|].
  intros [= <- <- <-]. set (g0 := fresh _) in *. assert (Hf : bt_gos s !! g0 = None) by (apply not_elem_of_dom, is_fresh).
  destruct HS as [B1 H2 H3 H4 H5 H6]. constructor; cbn; try done.
  - intros l t g gt Ht Hg Hgt. assert (Hne : g0 ≠ g) by (intros <-; destruct (b_obj _ B1 _ _ Ht _ Hg) as (?&?&?&_); congruence).
    rewrite lookup_insert_ne in Hgt by done. destruct (H2 l t g gt Ht Hg Hgt) as ([?|?]&Hcl&[?|[?|?]]); try done.
    assert (Hh : h ≠ g_hash gt) by congruence. rewrite lookup_insert_ne by done. by split_and!; auto.
  - intros h' g. rewrite lookup_insert. case_decide; [intros [= <-]; subst; by left|]. intros Hg. destruct (H3 h' g Hg); [done|by right].
  - intros g gt. rewrite lookup_insert. case_decide; [by intros [= <-]|]. apply H6.
Qed.

(** A torrent the client has never known is refused. *)
Lemma S_refused h s g s' : SInv Settled s → AddTorrentOpt h s = (g, true, s') → ∃ s'', Drop g s' = Some s'' ∧ SInv Settled s''.
Proof.
  intros HS. unfold AddTorrentOpt. destruct (bt_client s !! h) as [g1|] eqn:Eh; [done|]. intros [= <- <-].
  set (g0 := fresh _) in *. assert (Hf : bt_gos s !! g0 = None) by (apply not_elem_of_dom, is_fresh).
  unfold Drop. cbn. rewrite lookup_insert_eq. cbn. unfold dropTorrent. cbn. rewrite lookup_insert_eq. eexists. split; [done|].
  rewrite delete_insert_id by done. assert (Hg : ∀ g gt, bt_gos s !! g = Some gt → alter (λ gt, mkGo (g_hash gt) (g_info gt) true) g0 (<[g0:=mkGo h None false]> (bt_gos s)) !! g = Some gt).
  { intros g gt Hg. rewrite lookup_alter_ne, lookup_insert_ne by congruence. done. }
  destruct HS as [B1 H2 H3 H4 H5 H6]. unfold set_client. cbn.
  assert (Hback : ∀ g gt, alter (λ gt, mkGo (g_hash gt) (g_info gt) true) g0 (<[g0:=mkGo h None false]> (bt_gos s)) !! g = Some gt → bt_gos s !! g = Some gt ∨ (g = g0 ∧ g_info gt = None)).
  { intros g gt. rewrite lookup_alter. case_decide; subst; [rewrite lookup_insert_eq; intros [= <-]; by right|]. rewrite lookup_insert_ne by done. by left. }
  constructor; cbn; try done.
  - destruct (Base_gos (alter (λ gt, mkGo (g_hash gt) (g_info gt) true) g0 (<[g0:=mkGo h None false]> (bt_gos s))) (bt_client s) (bt_caches s) s) as [HB _]; [..|done|exact HB].
    + intros g gt Hgt. exists gt. split; [by apply Hg|done].
    + intros h' g Hc. destruct (b_client _ B1 _ _ Hc) as (gt&Hgt&?&?). exists gt. by split_and!; [apply Hg|..].
  - intros l t g gt Ht Hgo Hgt. apply (H2 l t g gt Ht Hgo). destruct (Hback _ _ Hgt) as [?|[-> _]]; [done|].
    destruct (b_obj _ B1 _ _ Ht _ Hgo) as (?&?&?&_). congruence.
  - intros g gt Hgt Hi. destruct (Hback _ _ Hgt) as [?|[_ ?]]; [by eapply H6|done].
Qed.

Lemma S_set_info m g info s : SInv m s → SInv m (set_info g info s).
Proof.
  intros HS. destruct (Base_set_info g info s (s_base _ _ HS)) as [HB _]. revert HB. unfold set_info.
  destruct (bt_gos s !! g) as [gt|] eqn:E; [|done]. case_bool_decide; [|done]. intros HB. destruct HS as [_ H2 H3 H4 H5 H6].
  assert (Hback : ∀ g' gt', <[g:=mkGo (g_hash gt) (Some info) (g_closed gt)]> (bt_gos s) !! g' = Some gt' → ∃ gt0, bt_gos s !! g' = Some gt0 ∧ g_hash gt0 = g_hash gt').
  { intros g' gt'. rewrite lookup_insert. case_decide; [intros [= <-]; subst; by exists gt|eauto]. }
  constructor; cbn; try done.
  - intros l t g' gt' Ht Hg Hgt. destruct (Hback _ _ Hgt) as (gt0&Hgt0&<-). by eapply H2.
  - intros g' gt'. rewrite lookup_insert. case_decide; [intros [= <-] _; cbn; set_solver|]. intros Hgt Hi. specialize (H6 _ _ Hgt Hi). set_solver.
Qed.

Lemma info_arrives_id m g info s : SInv m s → SInv m (info_arrives g info s).
Proof. intros HS. unfold info_arrives. destruct (bt_gos s !! g) as [gt|]; [|done]. destruct (g_closed gt); [done|by apply S_set_info]. Qed.

(** Changes of a torrent that do not mark it, or mark the one that is on its way out. *)
Lemma S_on m m' f l s : quiet f → (m' = m ∨ m = Settled) →
  (∀ t, bt_objs s !! l = Some t → (t_go t = None → t_bt t = true → t_Stat (f t) = TorrentClosed) ∧ (m' = Marked l ∨ m' = Out l ∨ (t_Stat t ≠ TorrentClosed → t_Stat (f t) ≠ TorrentClosed))) →
  SInv m s → SInv m' (on_torrent f l s).
Proof.
  intros Hq Hm Hl HS. assert (HS' : SInv m' s) by (destruct Hm as [->| ->]; [done|by apply SInv_weaken]). clear HS Hm.
  destruct (Base_on_torrent f l s Hq (s_base _ _ HS')) as [HB _]. destruct HS' as [_ H2 H3 H4 H5 H6].
  assert (Hback : ∀ l' t', bt_objs (on_torrent f l s) !! l' = Some t' → ∃ t, bt_objs s !! l' = Some t ∧ t_go t = t_go t' ∧ t_bt t = t_bt t' ∧ (l' = l ∧ t' = f t ∨ l' ≠ l ∧ t' = t)).
  { intros l' t'. rewrite lookup_on_torrent. destruct (decide _) as [->|]; [|eauto 10]. intros (t&Ht&->)%fmap_Some. destruct (Hq t) as (?&_&?). eauto 10. }
  constructor; try done.
  - intros l' t' g gt (t&Ht&Hg&_&Hc)%Hback Hgo Hgt. rewrite <- Hg in Hgo. destruct (H2 l' t g gt Ht Hgo Hgt) as (A&B&C). split_and!; [done|done|].
    destruct Hc as [[-> ->]|[_ ->]]; [|done]. destruct (Hl t Ht) as [_ [?|[?|Hs]]]; auto. destruct C as [?|[?|?]]; auto.
  - intros h g Hc. destruct (H3 h g Hc) as [?|(l'&t&Ht&Hg)]; [by left|right]. destruct (decide (l = l')) as [<-|Hne].
    + exists l, (f t). rewrite lookup_on_torrent, decide_True, Ht by done. destruct (Hq t) as (?&_). split; [done|congruence].
    + exists l', t. by rewrite lookup_on_torrent, decide_False.
  - intros l1 l2 t1 t2 g (t1'&?&?&_)%Hback (t2'&?&?&_)%Hback ??. eapply (H4 l1 l2 _ _ g); [done|done|congruence|congruence].
  - intros l' t' (t&Ht&Hg&Hb&Hc)%Hback Hbt Hn. destruct Hc as [[-> ->]|[_ ->]]; [|by eapply H5; eauto]. apply (Hl t Ht); congruence.
Qed.

Lemma S_set_Stat st l s : st ≠ TorrentClosed → SInv Settled s → (∀ t, bt_objs s !! l = Some t → t_Stat t ≠ TorrentClosed ∨ is_Some (t_go t)) → SInv Settled (on_torrent (set_Stat st) l s).
Proof.
  intros Hst HS Hl. apply (S_on Settled); [done|by left| |done]. intros t Ht. split; [|by auto]. intros Hn Hb.
  destruct (Hl t Ht) as [Hc|[g Hg]]; [|congruence]. by destruct Hc, (s_dropped _ _ HS l t).
Qed.

(** Changes that leave the state of a torrent. *)
Lemma S_calm f l s : quiet f → (∀ t, t_Stat (f t) = t_Stat t) → SInv Settled s → SInv Settled (on_torrent f l s).
Proof.
  intros Hq Hs HS. apply (S_on Settled); [done|by left| |done]. intros t Ht. rewrite Hs. split; [|by auto]. intros. by eapply s_dropped.
Qed.

Section Serial.
Context `{!Settings}.

Lemma S_register sp g now s l s' : SInv (Fresh (InfoHash sp) g) s → bt_client s !! InfoHash sp = Some g → register sp g now s = (l, s') → SInv Settled s' ∧ is_Some (bt_objs s' !! l).
Proof.
  intros HS Hc E. destruct (b_client _ (s_base _ _ HS) _ _ Hc) as (gt&Hgt&Hh&Hcl).
  destruct (Base_register sp g now s l s' (s_base _ _ HS)) as (HB&_&Hl); [by exists gt|done|]. split; [|done]. revert E. unfold register.
  destruct (bt_torrents s !! InfoHash sp) as [l0|] eqn:Er; intros [= <- <-]; destruct HS as [B1 H2 H3 H4 H5 H6].
  - destruct (b_reg _ B1 _ _ Er) as (t0&g0&gt0&Ht0&Hg0&Hgt0&Hh0&_). destruct (H2 _ _ _ _ Ht0 Hg0 Hgt0) as (_&Hc0&_). rewrite Hh0 in Hc0.
    constructor; try done.
    + intros l1 t g1 gt1 Ht Hg Hgt1. destruct (H2 _ _ _ _ Ht Hg Hgt1) as ([?|?]&?&[?|[?|?]]); try done. by split_and!; auto.
    + intros h g1 Hc1. right. destruct (H3 h g1 Hc1) as [[= <- <-]|?]; [|done]. exists l0, t0. split; [done|congruence].
  - set (l := fresh _) in *. assert (Hf : bt_objs s !! l = None) by (apply not_elem_of_dom, is_fresh).
    set (t := new_torrent sp g now). assert (Ht : t_go t = Some g ∧ t_spec t = Some sp ∧ t_bt t = true) by apply AddExpiredTime_quiet.
    assert (Hst : t_Stat t = TorrentAdded) by (unfold t, new_torrent, AddExpiredTime; by destruct (_ <? _)). destruct Ht as (Ht1&Ht2&Ht3).
    assert (Hno : ∀ l' t', bt_objs s !! l' = Some t' → t_go t' ≠ Some g).
    { intros l' t' Ht' Hg. destruct (H2 _ _ _ _ Ht' Hg Hgt) as ([?|Hr]&_); [done|]. congruence. }
    constructor; cbn; try done.
    + intros l' t' g' gt'. rewrite lookup_insert. case_decide as El.
      * intros [= <-]. rewrite Ht1. intros [= <-]. rewrite Hgt. intros [= <-]. rewrite Hh, lookup_insert_eq, Hst. subst. by split_and!; auto.
      * intros Ht' Hg' Hgt'. destruct (H2 _ _ _ _ Ht' Hg' Hgt') as ([?|?]&?&[?|[?|?]]); try done. rewrite lookup_insert_ne by congruence. by split_and!; auto.
    + intros h g' Hc'. right. destruct (H3 h g' Hc') as [[= <- <-]|(l'&t'&Ht'&Hg')]; [exists l, t; by rewrite lookup_insert_eq|].
      exists l', t'. rewrite lookup_insert_ne by congruence. done.
    + intros l1 l2 t1 t2 g'. rewrite !lookup_insert. do 2 case_decide; [congruence|..]; intros; simplify_eq; [| |by eapply H4].
      * by destruct (Hno l2 t2); congruence.
      * by destruct (Hno l1 t1); congruence.
    + intros l' t'. rewrite lookup_insert. case_decide; [intros [= <-] _; congruence|apply H5].
Qed.

Lemma S_unregister l t g s : SInv (Marked l) s → bt_objs s !! l = Some t → t_go t = Some g → SInv (Out l) (set_torrents (delete (Hash s t) (bt_torrents s)) s).
Proof.
  intros HS Ht Hg. destruct (Base_unregister l t s (s_base _ _ HS) Ht) as (HB&_). destruct HS as [B1 H2 H3 H4 H5 H6].
  destruct (b_obj _ B1 _ _ Ht _ Hg) as (gt&sp&Hgt&_). rewrite (Hash_go _ _ _ _ Hg Hgt) in *. destruct (H2 _ _ _ _ Ht Hg Hgt) as ([?|Hr]&_); [done|].
  constructor; cbn; try done.
  - intros l' t' g' gt' Ht' Hg' Hgt'. destruct (H2 _ _ _ _ Ht' Hg' Hgt') as ([?|Hr']&Hc&Hs); [done|]. destruct (decide (l' = l)) as [->|Hne]; [by auto|].
    split_and!; [|done|destruct Hs as [[=]|[?|?]]; auto; congruence]. right. rewrite lookup_delete_ne; [done|]. intros Heq. rewrite Heq in Hr. congruence.
  - intros h g' Hc. destruct (H3 h g' Hc); [done|by right].
Qed.

Lemma S_drop l t g s : SInv (Out l) s → unregistered s l → bt_objs s !! l = Some t → t_Stat t = TorrentClosed → t_go t = Some g →
  ∃ s', Drop g s = Some s' ∧ SInv Settled (on_torrent (set_go None) l s').
Proof.
  intros HS Hu Ht Hst Hg. pose proof (keeps_Drop l (mkChoice 0 false 0 0 WTimer) s None) as Hk. cbn [step_frame] in Hk. unfold drop_section, with_torrent in Hk. rewrite Ht, Hg in Hk.
  destruct HS as [B1 H2 H3 H4 H5 H6]. destruct (b_obj _ B1 _ _ Ht _ Hg) as (gt&sp&Hgt&_). destruct (H2 _ _ _ _ Ht Hg Hgt) as (_&Hc&_).
  unfold Drop in *. rewrite Hgt in *. unfold dropTorrent in *. rewrite Hc in *. eexists. split; [done|].
  destruct (Hk _ B1 (conj (ex_intro _ t Ht) Hu) eq_refl) as (HB&_&_). clear Hk.
  set (gos := alter _ g (bt_gos s)) in *. set (s1 := set_client gos _ _ s) in *.
  assert (Hgos : ∀ g' gt', gos !! g' = Some gt' → ∃ gt0, bt_gos s !! g' = Some gt0 ∧ g_hash gt' = g_hash gt0 ∧ g_info gt' = g_info gt0).
  { intros g' gt'. unfold gos. rewrite lookup_alter. case_decide; [subst|eauto]. intros (gt0&?&->)%fmap_Some. by exists gt0. }
  assert (Hobj : ∀ l' t' g', bt_objs (on_torrent (set_go None) l s1) !! l' = Some t' → t_go t' = Some g' → l' ≠ l ∧ bt_objs s !! l' = Some t').
  { intros l' t' g'. rewrite lookup_on_torrent. destruct (decide (l = l')) as [->|]; [by intros (t0&_&->)%fmap_Some|]. intros Hl' _. by split; [congruence|]. }
  constructor; [exact HB|..].
  - intros l' t' g' gt' Hl' Hg' Hgt'. destruct (Hobj _ _ _ Hl' Hg') as [Hne Ht']. destruct (Hgos _ _ Hgt') as (gt0&Hgt0&->&_).
    destruct (H2 _ _ _ _ Ht' Hg' Hgt0) as (A&B&C). destruct A as [[=]|A]; [congruence|]. split_and!; [by right| |destruct C as [[=]|[[=]|?]]; auto; congruence].
    cbn. rewrite lookup_delete_ne; [done|]. intros Heq. apply Hne. apply (H4 _ _ _ _ g' Ht' Ht Hg'). congruence.
  - intros h g' Hc'. cbn in Hc'. apply lookup_delete_Some in Hc' as [Hne Hc']. right. destruct (H3 _ _ Hc') as [?|(l'&t'&Ht'&Hg')]; [done|].
    exists l', t'. rewrite lookup_on_torrent, decide_False; [done|]. intros <-. destruct (b_client _ B1 _ _ Hc') as (gt'&Hgt'&?&_). congruence.
  - intros l1 l2 t1 t2 g' Ht1 Ht2 Hg1 Hg2. destruct (Hobj _ _ _ Ht1 Hg1), (Hobj _ _ _ Ht2 Hg2). by eapply (H4 l1 l2 _ _ g').
  - intros l' t'. rewrite lookup_on_torrent. destruct (decide _) as [<-|]; [|apply H5]. cbn. rewrite Ht. by intros [= <-].
  - intros g' gt' Hgt' Hi. destruct (Hgos _ _ Hgt') as (gt0&Hgt0&->&Hi'). rewrite Hi' in Hi. by eapply H6.
Qed.

(** ** A call *)

Definition mode_of (f : frame) : mode :=
  match f with FRegister sp g _ => Fresh (InfoHash sp) g | FUnregister l => Marked l | FDrop l => Out l | _ => Settled end.

(** Where a call stands, no other being under way. *)
Definition stands (s : server) (f : frame) : Prop :=
  match f with
  | FRegister sp g _ => bt_client s !! InfoHash sp = Some g
  | FWait l g | FPreloadWait l g => ∃ t, bt_objs s !! l = Some t ∧ t_go t = Some g
  | FUnregister l => ∃ t g, bt_objs s !! l = Some t ∧ t_go t = Some g ∧ t_Stat t = TorrentClosed
  | FDrop l => ∃ t, bt_objs s !! l = Some t ∧ t_Stat t = TorrentClosed
  | _ => True
  end.

Definition serial (s : server) (f : frame) : Prop := SInv (mode_of f) s ∧ frame_ok s f ∧ stands s f.

Definition fine (r : result) : Prop :=
  match r with Goes (Some f) s => serial s f | Goes None s => SInv Settled s | Waits => True | Panics => False end.

Lemma serial_info f g info s : serial s f → serial (info_arrives g info s) f.
Proof.
  intros (HS&Hf&Hst). assert (He : extends s (info_arrives g info s)).
  { unfold info_arrives. destruct (bt_gos s !! g) as [gt|]; [|apply extends_refl]. destruct (g_closed gt); [apply extends_refl|]. by apply Base_set_info, HS. }
  split_and!; [by apply info_arrives_id|by eapply frame_ok_extends|].
  assert (Ho : bt_objs (info_arrives g info s) = bt_objs s ∧ bt_client (info_arrives g info s) = bt_client s).
  { unfold info_arrives, set_info. destruct (bt_gos s !! g) as [gt|]; [|done]. destruct (g_closed gt); [done|]. by case_bool_decide. }
  destruct Ho as [Ho Hc]. destruct f; cbn; rewrite ?Ho, ?Hc; exact Hst.
Qed.

Lemma fine_next f ch s f' s' : serial s f → step_frame f ch s = Goes (Some f') s' → SInv (mode_of f') s' → stands s' f' → serial s' f'.
Proof. intros (HS&Hf&_) E HS' Hst. destruct (step_keeps _ _ _ _ _ (s_base _ _ HS) Hf E) as (_&_&Ho). split_and!; [done|by apply Ho|done]. Qed.

Lemma S_wait l g t ch s : SInv Settled s → bt_objs s !! l = Some t → t_go t = Some g →
  match wait_info l g t ch s with
  | WaitDone _ s' => SInv Settled s' ∧ ∃ t', bt_objs s' !! l = Some t' ∧ t_go t' = Some g
  | WaitMore => True
  | WaitPanics => False
  end.
Proof.
  intros HS Ht Hg. destruct (b_obj _ (s_base _ _ HS) _ _ Ht _ Hg) as (gt&sp&Hgt&_). unfold wait_info. destruct (ch_wait ch).
  - unfold info_of. rewrite Hgt. destruct (g_info gt) as [info|] eqn:Ei; [|done]. destruct (negb _); [eauto|]. rewrite (Hash_go _ _ _ _ Hg Hgt).
    rewrite bool_decide_true by (eapply s_cache; [done|done|congruence]). split; [by apply S_calm|].
    exists (set_cache true t). by rewrite lookup_on_torrent, decide_True, Ht.
  - destruct (t_closed t ≫= _) as [gt'|]; [|done]. destruct (g_closed gt'); eauto.
  - eauto.
Qed.

Definition goes_on (r : result) : Prop :=
  match r with
  | Goes (Some f) s => SInv (mode_of f) s ∧ stands s f
  | Goes None s => SInv Settled s
  | Waits => True
  | Panics => False
  end.

Lemma on_New sp k ch s : SInv Settled s → goes_on (step_frame (FNew sp k) ch s).
Proof.
  intros HS. run_section. destruct (negb _); [done|].
  unfold AddTorrentSpec. change (InfoHash (retrack sp)) with (InfoHash sp). change (SpecInfo (retrack sp)) with (SpecInfo sp).
  destruct (AddTorrentOpt (InfoHash sp) s) as [[g new] s1] eqn:E. destruct (S_add _ _ _ _ _ HS E) as [HS1 Hc1].
  destruct (SpecInfo sp) as [info|]; [|by split]. destruct (ch_bad ch).
  - destruct new.
    + destruct (S_refused _ _ _ _ HS E) as (s2&Hd&HS2). by rewrite Hd.
    + revert E. unfold AddTorrentOpt. destruct (bt_client s !! InfoHash sp); [|done]. intros [= _ <-]. exact HS.
  - split; [by apply S_set_info|]. cbn [stands]. change (InfoHash (retrack sp)) with (InfoHash sp).
    unfold set_info. destruct (bt_gos s1 !! g); [|done]. by case_bool_decide.
Qed.

Lemma on_Close l ch s : SInv Settled s → goes_on (step_frame (FClose l) ch s).
Proof.
  intros HS. run_section. destruct (bt_objs s !! l) as [t|] eqn:Ht; [|done]. case_bool_decide as Hst; [done|]. destruct (_ && _); [done|].
  assert (Hl : bt_objs (on_torrent (set_Stat TorrentClosed) l s) !! l = Some (set_Stat TorrentClosed t)) by (by rewrite lookup_on_torrent, decide_True, Ht).
  destruct (t_bt t) eqn:Eb; cbn [goes_on mode_of stands].
  - destruct (t_go t) as [g|] eqn:Eg; [|by destruct Hst; eapply s_dropped]. split; [|by exists (set_Stat TorrentClosed t), g].
    apply (S_on Settled); [done|by right| |done]. intros t' Ht'. split; [done|by left].
  - split; [|by exists (set_Stat TorrentClosed t)]. apply (S_on Settled); [done|by right| |done]. intros t' Ht'. split; [done|by right; left].
Qed.

Lemma on_Drop l ch s : SInv (Out l) s → frame_ok s (FDrop l) → stands s (FDrop l) → goes_on (step_frame (FDrop l) ch s).
Proof.
  intros HS [_ Hu] (t&Ht&Hst). run_section. rewrite Ht. destruct (t_go t) as [g|] eqn:Eg; [|by eapply SInv_out].
  destruct (S_drop l t g s HS Hu Ht Hst Eg) as (s1&Hd&HS1). by rewrite Hd.
Qed.

Lemma on_wait f l g ch s : f = FWait l g ∨ f = FPreloadWait l g → SInv Settled s → (∃ t, bt_objs s !! l = Some t ∧ t_go t = Some g) → goes_on (step_frame f ch s).
Proof.
  intros Hf HS (t&Ht&Hg). pose proof (S_wait l g t ch s HS Ht Hg) as Hw.
  destruct Hf as [->| ->]; run_section; rewrite Ht; destruct (wait_info l g t ch s) as [b s1| |]; try done; destruct Hw as [HS1 (t1&Ht1&Hg1)]; destruct b; try done.
  apply (S_on Settled); [|by left| |done].
  - intros t0. apply (AddExpiredTime_quiet _ _ (set_Stat TorrentWorking t0)).
  - intros t0 Ht0. split; [congruence|]. right. right. intros _. unfold AddExpiredTime. by destruct (_ <? _).
Qed.

Lemma step_goes_on f ch s : serial s f → goes_on (step_frame f ch s).
Proof.
  intros (HS&Hf&Hst). destruct f as [sp k|sp g k|l k|hash|l|l g|hash|l|l|l|l|l size|l g|l|l];
    try (by apply on_New); try (by apply on_Close); try (by apply on_Drop); try (apply (on_wait _ l g); by auto); cbn [mode_of stands frame_ok] in *;
    try (destruct Hf as [t Ht]; run_section; rewrite Ht); try run_section.
  - destruct (register sp g (ch_now ch) s) as [l s1] eqn:E. destruct (S_register _ _ _ _ _ _ HS Hst E). by split.
  - destruct k; [by apply S_calm|split; [by apply S_calm|done]].
  - destruct (bt_torrents s !! hash) as [l|].
    + apply S_calm; [apply AddExpiredTime_quiet|by intros t; unfold AddExpiredTime; destruct (_ <? _)|done].
    + by destruct (bt_db s !! hash).
  - case_bool_decide as Hc; [done|]. case_bool_decide; [done|]. 
    assert (HS1 : SInv Settled (on_torrent (set_Stat TorrentGettingInfo) l s)) by (apply S_set_Stat; [done|done|]; intros t' Ht'; left; congruence).
    destruct (t_go t) as [g|] eqn:Eg; [|by split]. split; [done|]. exists (set_Stat TorrentGettingInfo t). by rewrite lookup_on_torrent, decide_True, Ht.
  - by destruct (bt_torrents s !! hash).
  - destruct Hst as (t'&g&Ht'&Hg&Hc). rewrite Ht in Ht'. injection Ht' as <-. split; [by eapply S_unregister|by exists t].
  - by destruct (expired _ _ t).
  - destruct (size <=? 0); [done|]. assert (HS1 : SInv Settled (on_torrent (set_PreloadSize size) l s)) by by apply S_calm.
    case_bool_decide; [|by split]. destruct (t_go t) as [g|] eqn:Eg; [|done]. split; [done|]. exists (set_PreloadSize size t). by rewrite lookup_on_torrent, decide_True, Ht.
  - case_bool_decide as Hc; [|done]. split; [|done]. apply S_set_Stat; [done|done|]. intros t' Ht'. left. congruence.
  - case_bool_decide as Hc; [|done]. apply S_set_Stat; [done|done|]. intros t' Ht'. left. congruence.
Qed.

Lemma serial_step f ch s : serial s f → fine (step_frame f ch s).
Proof.
  intros Hs. pose proof (step_goes_on f ch s Hs) as Hg. destruct (step_frame f ch s) as [[f'|] s'| |] eqn:E; try done.
  destruct Hg. by eapply fine_next.
Qed.

Lemma serial_alone f acts s : serial s f → match alone f acts s with Ended s' => SInv Settled s' | Unfinished => True | Panicked => False end.
Proof.
  revert f s. induction acts as [|[ch|g info] acts IH]; intros f s Hs; cbn [alone]; [done| |by apply IH, serial_info].
  pose proof (serial_step f ch s Hs) as Hf. destruct (step_frame f ch s) as [[f'|] s'| |]; [by apply IH|done|by apply IH|done].
Qed.

Lemma serial_entry s f : SInv Settled s → entry s f = true → serial s f.
Proof. intros HS He. destruct f; try done; by split_and!; [..|apply bool_decide_eq_true in He|]. Qed.

(** Servers reached by calls that run one at a time, infos coming in at any time. *)
Inductive reached (db : gmap bytes TorrentDB) : server → Prop :=
| reached_connected : reached db (connected db)
| reached_info s g info : reached db s → reached db (info_arrives g info s)
| reached_call s f acts s' : reached db s → entry s f = true → alone f acts s = Ended s' → reached db s'.

Lemma reached_inv db s : reached db s → SInv Settled s.
Proof.
  induction 1 as [|s g info _ IH|s f acts s' _ IH He E].
  - by constructor.
  - by apply info_arrives_id.
  - pose proof (serial_alone f acts s (serial_entry _ _ IH He)) as Ha. by rewrite E in Ha.
Qed.

(** The server's and the client's table, torrent by torrent. *)
Definition tables_agree (s : server) : Prop :=
  (∀ h l, bt_torrents s !! h = Some l → ∃ t g, bt_objs s !! l = Some t ∧ t_go t = Some g ∧ bt_client s !! h = Some g ∧ t_Stat t ≠ TorrentClosed) ∧
  (∀ h g, bt_client s !! h = Some g → ∃ l t, bt_torrents s !! h = Some l ∧ bt_objs s !! l = Some t ∧ t_go t = Some g).

(** C19: when calls do not overlap, the server has exactly the torrents of the client, none
    of them closed, whatever order they are added, looked up, waited for, preloaded, timed
    out and removed in; and no call panics. *)
Theorem serial_calls db s f acts : reached db s → entry s f = true →
  tables_agree s ∧ match alone f acts s with Ended s' => tables_agree s' | Unfinished => True | Panicked => False end.
Proof.
  intros Hr He. assert (Ht : ∀ s, SInv Settled s → tables_agree s).
  { clear. intros s HS. split.
    - intros h l Hl. destruct (b_reg _ (s_base _ _ HS) _ _ Hl) as (t&g&gt&Ht&Hg&Hgt&<-&_). destruct (s_obj _ _ HS _ _ _ _ Ht Hg Hgt) as (_&Hc&[?|[?|?]]); [done..|].
      by exists t, g.
    - intros h g Hc. destruct (s_client _ _ HS _ _ Hc) as [?|(l&t&Ht&Hg)]; [done|]. destruct (b_client _ (s_base _ _ HS) _ _ Hc) as (gt&Hgt&<-&_).
      destruct (s_obj _ _ HS _ _ _ _ Ht Hg Hgt) as ([?|?]&_); [done|]. by exists l, t. }
  pose proof (reached_inv _ _ Hr) as HS. split; [by apply Ht|]. pose proof (serial_alone f acts s (serial_entry _ _ HS He)) as Ha.
  destruct (alone f acts s); [by apply Ht|done|done].
Qed.
End Serial.
