(* ===== verification/TorrentCalls.v ===== *)
(** * What calls on torrents do

    [removal_complete]: a torrent that is removed is gone from the server, the client and
    the database.  [list_complete]: the list of torrents.  The rest are runs: two calls
    that overlap and panic, a torrent at work again after it was closed, and a title lost
    to a call that meant to keep it. *)

From S2P Require Import Prelude GoText Torrent TorrentProps TorrentSerial.
#[local] Open Scope Z_scope.

Section Calls.
Context `{!Settings}.

(** No reader in the way. *)
Definition removal : list act := replicate 4 (AStep (mkChoice 0 false 0 0 WTimer)).

(** C20: [RemTorrent] leaves nothing of a torrent.  With no reader in the way, a torrent in
    memory is closed and dropped, and neither the server, nor the client, nor the database
    has its hash any more; other torrents stay what they were. *)
Theorem removal_complete db s hash : reached db s → ReadOnly = false →
  ∃ s', RemTorrent hash removal s = Ended s' ∧
    bt_torrents s' = delete hash (bt_torrents s) ∧ bt_client s' = delete hash (bt_client s) ∧ bt_db s' = delete hash (bt_db s) ∧
    (∀ l, bt_torrents s !! hash = Some l → ∃ t, bt_objs s' !! l = Some t ∧ t_Stat t = TorrentClosed ∧ t_go t = None) ∧
    (∀ l, bt_torrents s !! hash ≠ Some l → bt_objs s' !! l = bt_objs s !! l).
Proof.
  intros Hr Hro. pose proof (reached_inv _ _ Hr) as HS. unfold RemTorrent. rewrite Hro.
  destruct (bt_torrents s !! hash) as [l|] eqn:El.
  - destruct (b_reg _ (s_base _ _ HS) _ _ El) as (t&g&gt&Ht&Hg&Hgt&Hh&Hb). destruct (s_obj _ _ HS _ _ _ _ Ht Hg Hgt) as (_&Hc&[?|[?|Hst]]); [done..|].
    rewrite Hh in Hc. unfold removal. cbn [replicate alone]. run_section. rewrite El. run_section. rewrite Ht.
    rewrite bool_decide_false by done. rewrite Hro, Hb. cbn [andb].
    set (s1 := on_torrent (set_Stat TorrentClosed) l s).
    assert (Ht1 : bt_objs s1 !! l = Some (set_Stat TorrentClosed t)) by (by unfold s1; rewrite lookup_on_torrent, decide_True, Ht).
    run_section. rewrite Ht1.
    assert (Hh1 : Hash s1 (set_Stat TorrentClosed t) = hash) by (rewrite (Hash_go s1 _ g gt); done). rewrite Hh1.
    set (s2 := set_torrents (delete hash (bt_torrents s1)) s1).
    assert (Ht2 : bt_objs s2 !! l = Some (set_Stat TorrentClosed t)) by done. run_section. rewrite Ht2. cbn [t_go set_Stat]. rewrite Hg.
    unfold Drop. assert (Hgt2 : bt_gos s2 !! g = Some gt) by done. rewrite Hgt2, Hh. unfold dropTorrent.
    assert (Hc2 : bt_client s2 !! hash = Some g) by done. rewrite Hc2. eexists. split; [done|]. cbn. split_and!; try done.
    + intros l' [= <-]. exists (set_go None (set_Stat TorrentClosed t)). by rewrite !lookup_alter_eq, Ht.
    + intros l' Hl'. by rewrite !lookup_alter_ne by congruence.
  - exists (set_db (delete hash (bt_db s)) s). assert (Hcl : bt_client s !! hash = None).
    { destruct (bt_client s !! hash) as [g|] eqn:Ec; [|done]. exfalso. destruct (s_client _ _ HS _ _ Ec) as [?|(l&t&Ht&Hg)]; [done|].
      destruct (b_client _ (s_base _ _ HS) _ _ Ec) as (gt&Hgt&Hh&_). destruct (s_obj _ _ HS _ _ _ _ Ht Hg Hgt) as ([?|?]&_); [done|congruence]. }
    split_and!; cbn; [done|by rewrite delete_id|by rewrite delete_id|done|done|done].
Qed.

(** ** The list *)

Lemma listed_before_asym a b : listed_before a b = true → listed_before b a = false.
Proof.
  unfold listed_before. rewrite (Z.eqb_sym (f_Timestamp (t_fields b))), (compare_text_flip (f_Title (t_fields a)) (f_Title (t_fields b))).
  destruct (negb _); intros; reflect_bools; lia.
Qed.

(** [ListTorrent] gives each torrent the server knows once, the one in memory where
    there is one, and the copy made from the database where there is not; the newest come
    first, and torrents of the same time in the reverse order of their titles. *)
Theorem list_complete `{!SliceSort listed_before} db s : reached db s →
  Sorted (λ a b, listed_before b a = false) (ListTorrent s) ∧
  ∃ hashes, NoDup hashes ∧ Forall2 (λ h t, match bt_torrents s !! h with Some l => bt_objs s !! l = Some t | None => GetTorrentDB h s = Some t end) hashes (ListTorrent s) ∧
    ∀ h, h ∈ hashes ↔ is_Some (bt_torrents s !! h) ∨ is_Some (bt_db s !! h).
Proof.
  intros Hr. pose proof (reached_inv _ _ Hr) as HS. split; [apply sort_slice_sorted|].
  pose proof (sort_slice_perm listed_before ((map_to_list (known_torrents s)).*2)) as Hp. unfold ListTorrent.
  assert (Hk : ∀ h t, known_torrents s !! h = Some t ↔ match bt_torrents s !! h with Some l => bt_objs s !! l = Some t | None => GetTorrentDB h s = Some t end).
  { intros h t. unfold known_torrents, GetTorrentDB. rewrite lookup_union, lookup_omap, lookup_fmap.
    destruct (bt_torrents s !! h) as [l|] eqn:El; cbn.
    - destruct (b_reg _ (s_base _ _ HS) _ _ El) as (t'&_&_&Ht'&_). rewrite Ht'. by destruct (bt_db s !! h).
    - by destruct (bt_db s !! h). }
  destruct (Permutation_map_inv _ _ Hp) as (ps&->&Hps). exists (fst <$> ps). split_and!.
  - rewrite <- Hps. apply NoDup_fst_map_to_list.
  - apply Forall2_fmap, Forall_Forall2_diag, Forall_forall. intros [h t] Hin. cbn. apply Hk, elem_of_map_to_list. by rewrite Hps.
  - intros h. rewrite <- Hps, list_elem_of_fmap. split.
    + intros ([h' t]&->&Hin%elem_of_map_to_list%Hk). cbn. destruct (bt_torrents s !! h') as [l|]; [left; by eexists|right].
      unfold GetTorrentDB in Hin. destruct (bt_db s !! h'); [by eexists|done].
    + intros Hh. assert (∃ t, known_torrents s !! h = Some t) as [t Ht].
      { destruct (bt_torrents s !! h) as [l|] eqn:El.
        - destruct (b_reg _ (s_base _ _ HS) _ _ El) as (t&_&_&Ht&_). exists t. apply Hk. by rewrite El.
        - destruct Hh as [[? [=]]|[d Hd]]. exists (db_torrent d). apply Hk. rewrite El. unfold GetTorrentDB. by rewrite Hd. }
      exists (h, t). split; [done|]. by apply elem_of_map_to_list.
Qed.
End Calls.

(** ** Runs *)

#[local] Instance test_settings : Settings := {| TorrentDisconnectTimeout := 30; RetrackersMode := 1; ReadOnly := false; DefTrackers := [str "udp://t"]; FileTrackers := [] |}.

Definition sp : TorrentSpec := mkSpec (str "hash") [] None.
Definition at_time (now : Z) : choice := mkChoice (now * second) false 0 0 WTimer.
Definition waits (w : waited) (now : Z) : choice := mkChoice (now * second) false 0 0 w.
Definition add : frame := FNew sp (KAdd (str "title") [] [] []).

(** A torrent is added, its info arrives, it gets to work; later it is removed. *)
Definition added : list act := [AStep (at_time 100); AStep (at_time 100); AStep (at_time 100)].
Definition gets_info : list act := [AStep (at_time 101); AInfo 0 (mkInfo (str "name") 1000); AStep (waits WInfo 105)].

(** The server a call ends in; the one it began in when it does not end. *)
Definition after (f : frame) (acts : list act) (s : server) : server := match alone f acts s with Ended s' => s' | _ => s end.
Definition s_added : server := after add added (connected ∅).
Definition s_working : server := after (FGotInfo 0) gets_info s_added.

Lemma working_reached : reached ∅ s_working.
Proof.
  apply (reached_call _ s_added (FGotInfo 0) gets_info); [|by vm_compute|vm_compute; reflexivity].
  apply (reached_call _ (connected ∅) add added); [constructor|done|vm_compute; reflexivity].
Qed.

Lemma serial_calls_witness : tables_agree s_working ∧ match alone (FRemove (str "hash")) removal s_working with Ended s' => tables_agree s' | Unfinished => True | Panicked => False end.
Proof. apply (serial_calls ∅ s_working (FRemove (str "hash")) removal working_reached). reflexivity. Defined.

Lemma removal_complete_witness : (t_Stat <$> bt_objs s_working !! 0%nat) = Some TorrentWorking ∧
  ∃ s', RemTorrent (str "hash") removal s_working = Ended s' ∧ bt_torrents s' = ∅.
Proof.
  split; [vm_compute; reflexivity|]. destruct (removal_complete ∅ s_working (str "hash") working_reached eq_refl) as (s'&He&Ht&_).
  exists s'. split; [exact He|]. rewrite Ht. vm_compute. reflexivity.
Defined.

#[local] Instance listing : SliceSort listed_before := insertion_slice_sort listed_before listed_before_asym.

Lemma list_complete_witness : (f_Title ∘ t_fields <$> ListTorrent s_working) = [str "title"] ∧ Sorted (λ a b, listed_before b a = false) (ListTorrent s_working).
Proof. split; [vm_compute; reflexivity|]. exact (proj1 (list_complete ∅ s_working working_reached)). Defined.

Lemma table_invariant_witness : let es := [ECall add; EStep 0 (at_time 100); EStep 0 (at_time 100)] in
  ∃ t g, bt_objs (w_server (wrun ∅ es)) !! 0%nat = Some t ∧ t_go t = Some g ∧ t_bt t = true ∧ Hash (w_server (wrun ∅ es)) t = str "hash".
Proof. cbv zeta. apply (table_invariant ∅ _ (str "hash") 0). vm_compute. reflexivity. Defined.

(** A torrent is added while it is being removed: the client's torrent is found before it
    is dropped and wrapped again after; when the new torrent is removed, it cannot be
    dropped a second time, and the server panics. *)
Lemma add_during_drop :
  let es := [ECall add; EStep 0 (at_time 100); EStep 0 (at_time 100); EStep 0 (at_time 100);
             ECall (FRemove (str "hash")); ECall add; EStep 1 (at_time 200);
             EStep 0 (at_time 200); EStep 0 (at_time 200); EStep 0 (at_time 200); EStep 0 (at_time 200);
             EStep 0 (at_time 200); EStep 0 (at_time 200);
             ECall (FRemove (str "hash")); EStep 0 (at_time 300); EStep 0 (at_time 300); EStep 0 (at_time 300); EStep 0 (at_time 300)] in
  w_panicked (wrun ∅ es) = true.
Proof. vm_compute. reflexivity. Qed.

(** A torrent that waits for its info is removed; the info has arrived as well, and the
    waiting call takes it: the torrent is closed and dropped, and at work. *)
Lemma closed_at_work :
  let es := [ECall add; EStep 0 (at_time 100); EStep 0 (at_time 100); EStep 0 (at_time 100);
             ECall (FGotInfo 0); EStep 0 (at_time 101); EInfo 0 (mkInfo (str "name") 1000);
             ECall (FRemove (str "hash")); EStep 1 (at_time 102); EStep 1 (at_time 102); EStep 1 (at_time 102); EStep 1 (at_time 102);
             EStep 0 (waits WInfo 103)] in
  (λ t, (t_Stat t, t_go t)) <$> bt_objs (w_server (wrun ∅ es)) !! 0%nat = Some (TorrentWorking, None) ∧ bt_torrents (w_server (wrun ∅ es)) = ∅.
Proof. vm_compute. by split. Qed.

(** [SetTorrent] without a title, for a torrent that is only in the database: the copy
    made from the database has no info to take a name from, and the title kept in the
    database is erased. *)
Lemma title_erased :
  let f := mkFields (str "kept") [] [] [] 1 2 in
  let s := connected {[ str "hash" := mkTorrentDB sp f ]} in
  match (SetTorrent (λ _, true) (str "{}") (at_time 100) (str "hash") [] [] [] [] s).1 with
  | Ended s' => (λ d, f_Title (db_fields d)) <$> bt_db s' !! str "hash" = Some []
  | _ => False
  end.
Proof. vm_compute. reflexivity. Qed.
