(* ===== verification/Regex.v ===== *)
(** * Regular expressions as Go's [regexp] matches them

    A matcher for the part of the syntax the program uses.  [regexp] prefers the
    leftmost match and, among those, the one a backtracking search finds first; the
    matcher is that search.  Texts are lists of bytes, where a class that accepts every
    byte outside of ASCII accepts the encodings of the other characters byte by byte, or
    lists of characters. *)

From S2P Require Import Prelude GoText.
#[local] Open Scope Z_scope.

(** ** Expressions *)

Inductive re :=
| Empty
| Char (ok : Z → bool)
| LineStart
| TextStart
| TextEnd
| Seq (a b : re)
| Alt (a b : re)
| Star (greedy : bool) (a : re)
| Group (n : nat) (a : re).

Definition Opt (a : re) : re := Alt a Empty.
Definition Plus (a : re) : re := Seq a (Star true a).
Fixpoint Seqs (l : list re) : re := match l with [] => Empty | [a] => a | a :: l => Seq a (Seqs l) end.
Definition Times (n : nat) (a : re) : re := Seqs (replicate n a).
(** [a{1,n}] *)
Fixpoint UpTo (n : nat) (a : re) : re := match n with O => Empty | 1%nat => a | S n => Seq a (Opt (UpTo n a)) end.
Definition Lit (s : bytes) : re := Seqs ((λ c, Char (Z.eqb c)) <$> s).

(** ** Matching *)

(** The ends of the groups matched so far, latest first. *)
Notation groups := (list (nat * (Z * Z))).

(** A search at position [i] of [text] with [s] left of it, going on with [k]: the first
    way to match for which [k] succeeds.  A turn of a star that matches nothing ends
    the star. *)
Section Match.
Context (text : bytes).

Definition at_line_start (i : Z) : bool :=
  (i =? 0) || match idx text (i - 1) with Some c => c =? 10 | None => false end.

Definition cont : Type := Z → bytes → groups → option (Z * groups).

(** The turns of a star. *)
Fixpoint star_loop (greedy : bool) (body : Z → bytes → groups → cont → option (Z * groups)) (k : cont) (fuel : nat)
    (i : Z) (s : bytes) (g : groups) : option (Z * groups) :=
  match fuel with
  | O => k i s g
  | S fuel =>
      let more (_ : unit) := body i s g (λ i' s' g', if i' =? i then None else star_loop greedy body k fuel i' s' g') in
      if greedy then match more tt with Some r => Some r | None => k i s g end
      else match k i s g with Some r => Some r | None => more tt end
  end.

Fixpoint matches (r : re) (i : Z) (s : bytes) (g : groups) (k : cont) {struct r} : option (Z * groups) :=
  match r with
  | Empty => k i s g
  | Char ok => match s with c :: s => if ok c then k (i + 1) s g else None | [] => None end
  | LineStart => if at_line_start i then k i s g else None
  | TextStart => if i =? 0 then k i s g else None
  | TextEnd => match s with [] => k i s g | _ => None end
  | Seq a b => matches a i s g (λ i s g, matches b i s g k)
  | Alt a b => match matches a i s g k with Some r => Some r | None => matches b i s g k end
  | Star greedy a => star_loop greedy (matches a) k (S (length s)) i s g
  | Group n a => matches a i s g (λ j s g, k j s ((n, (i, j)) :: g))
  end.

Record found := mkFound { f_start : Z; f_end : Z; f_groups : groups }.

(** The leftmost match from position [i] on. *)
Fixpoint find_from (r : re) (i : Z) (s : bytes) : option found :=
  match matches r i s [] (λ j _ g, Some (j, g)) with
  | Some (j, g) => Some (mkFound i j g)
  | None => match s with [] => None | _ :: s => find_from r (i + 1) s end
  end.

(** [FindAllStringSubmatchIndex] for an expression that matches no empty text: the next
    search starts at the end of the last match. *)
Fixpoint find_all (fuel : nat) (r : re) (i : Z) : list found :=
  match fuel with
  | O => []
  | S fuel =>
      match find_from r i (drop (Z.to_nat i) text) with
      | None => []
      | Some m => m :: (if i <? f_end m then find_all fuel r (f_end m) else [])
      end
  end.

Definition FindAll (r : re) : list found := find_all (S (length text)) r 0.

(** The text of a group of a match; the latest turn counts. *)
Definition group (m : found) (n : nat) : bytes :=
  match filter (λ g, g.1 = n) (f_groups m) with
  | (_, (i, j)) :: _ => default [] (slice text i j)
  | [] => []
  end.
End Match.
