(* ===== verification/Subtitles.v ===== *)
(** * Subtitles of a stream ([server/gstreamer/subtitles.go])

    The pipeline delivers subtitles as chunks of WebVTT text.  A store per track keeps
    the cues found so far ([appendVTT]) and how far the video has been read; a player
    asks for the cues of one segment at a time ([renderVTT]).  The mutex of the store
    makes its operations atomic; the channel that wakes waiting readers is a counter
    of notifications. *)

From Stdlib Require Import SpecFloat.
From S2P Require Import Prelude GoFloat GoText Regex Matroska Task.
#[local] Open Scope Z_scope.

Definition maxPendingVTTChars : Z := 64 * 1024.

(** ** The cue pattern *)

Definition digit : re := Char is_digit.
Definition notNewline : re := Char (λ c, negb (c =? 10)).
Definition blank : re := Char (λ c, (c =? 32) || (c =? 9)).
Definition newline : re := Char (λ c, c =? 10).

(** [\d{2,}:\d{2}:\d{2}[.,]\d{3}] *)
Definition clock : re :=
  Seqs [Times 2 digit; Star true digit; Lit (str ":"); Times 2 digit; Lit (str ":"); Times 2 digit;
        Char (λ c, (c =? 46) || (c =? 44)); Times 3 digit].

(** [(?ms)(?:^|\n)(?:[^\n]*\n)?(clock)[ \t]+-->[ \t]+(clock)[^\n]*\n(.*?)(?:\n[ \t]*\n)] *)
Definition vttCuePattern : re :=
  Seqs [Alt LineStart newline; Opt (Seq (Star true notNewline) newline); Group 1 clock; Plus blank; Lit (str "-->"); Plus blank;
        Group 2 clock; Star true notNewline; newline; Group 3 (Star false (Char (λ _, true)));
        Seqs [newline; Star true blank; newline]].

(** ** Times *)

Definition saturatingAdd (left right : Z) : Z := if two64 - 1 - left <? right then two64 - 1 else u64 (left + right).

(** [strings.Split] at one byte *)
Fixpoint Split (s : bytes) (sep : Z) : list bytes :=
  match s with
  | [] => [[]]
  | c :: s =>
      if c =? sep then [] :: Split s sep
      else match Split s sep with p :: ps => (c :: p) :: ps | [] => [[c]] end
  end.

(** [strings.Replace(s, old, new, 1)] for single bytes *)
Fixpoint replace_first (old new : Z) (s : bytes) : bytes :=
  match s with [] => [] | c :: s => if c =? old then new :: s else c :: replace_first old new s end.

(** [strconv.ParseUint(s, 10, 64)] *)
Definition ParseUint (s : bytes) : option Z :=
  if (len s =? 0) || negb (forallb is_digit s) then None
  else let v := from_base 10 ((λ c, c - 48) <$> s) in if two64 <=? v then None else Some v.

Definition parseVTTClock (value : bytes) : option Z :=
  let value := TrimSpace (replace_first 44 46 value) in
  match Split value 58 with
  | [h; m; rest] =>
      match ParseUint h, ParseUint m, Split rest 46 with
      | Some hours, Some minutes, [s; ms] =>
          if 59 <? minutes then None
          else
            match ParseUint s with
            | None => None
            | Some seconds =>
                if 59 <? seconds then None
                else
                  let ms := take 3 ms in
                  match ParseUint (ms ++ replicate (3 - length ms) 48) with
                  | None => None
                  | Some milliseconds =>
                      Some (u64 (u64 (u64 (u64 (hours * 3600) + u64 (minutes * 60) + seconds) * billion) + u64 (milliseconds * 1000000)))
                  end
            end
      | _, _, _ => None
      end
  | _ => None
  end.

(** [%0nd] of a number that is not negative *)
Definition fmt_0d (n : nat) (z : Z) : bytes := let d := FormatInt z in replicate (n - length d) 48 ++ d.

Definition formatVTTClock (valueNS : Z) : bytes :=
  let totalMilliseconds := valueNS / 1000000 in
  let milliseconds := totalMilliseconds mod 1000 in
  let totalSeconds := totalMilliseconds / 1000 in
  let seconds := totalSeconds mod 60 in
  let minutes := totalSeconds / 60 mod 60 in
  let hours := totalSeconds / 3600 in
  fmt_0d 2 hours ++ [58] ++ fmt_0d 2 minutes ++ [58] ++ fmt_0d 2 seconds ++ [46] ++ fmt_0d 3 milliseconds.

Definition clockTimeToMPEGTS (valueNS : Z) : Z :=
  u64 (u64 (valueNS / billion * 90000) + u64 (valueNS mod billion * 90000) / billion).

(** [uint64(x)] for a number that is not negative; out of range values are left to the
    platform (amd64 gives 2^63). *)
Definition to_uint64 (x : float64) : Z :=
  match x with
  | S754_finite false m e => let v := if 0 <=? e then Zpos m * 2 ^ e else Zpos m / 2 ^ (- e) in if v <? two64 then v else two63
  | S754_zero _ => 0
  | _ => two63
  end.

(** ** The store *)

Record subtitleCue := mkSubtitleCue { StartNS : Z; EndNS : Z; Text : bytes }.

#[export] Instance subtitleCue_eq_dec : EqDecision subtitleCue.
Proof. solve_decision. Defined.

(** [seen] holds what [cues] holds, so it has no component of its own: the map of keys
    is tested through the list of cues. *)
Record subtitleStore := mkStore { pending : bytes; videoReadTo : Z; cues : list subtitleCue; updated : Z }.

Definition newSubtitleStore : subtitleStore := mkStore [] 0 [] 0.

Definition notifyLocked (s : subtitleStore) : subtitleStore := mkStore (pending s) (videoReadTo s) (cues s) (updated s + 1).

Definition setVideoReadTo (value : Z) (s : subtitleStore) : subtitleStore :=
  if videoReadTo s =? value then s else notifyLocked (mkStore (pending s) value (cues s) (updated s)).

Definition advanceVideoReadTo (value : Z) (s : subtitleStore) : subtitleStore :=
  if value =? 0 then s
  else if videoReadTo s <? value then notifyLocked (mkStore (pending s) value (cues s) (updated s)) else s.

(** [ReplaceAll(ReplaceAll(chunk, CRLF, LF), CR, LF)] *)
Fixpoint unix_lines (s : bytes) : bytes :=
  match s with
  | [] => []
  | 13 :: ((10 :: _) as s) => unix_lines s
  | 13 :: s => 10 :: unix_lines s
  | c :: s => c :: unix_lines s
  end.

(** One match: the cue, moved to where the pipeline was sought, unless it is malformed
    or known. *)
Definition take_cue (seekSeconds : float64) (maxBackDiffNS : Z) (cs : list subtitleCue) (start end_ text : bytes) : list subtitleCue :=
  match parseVTTClock start, parseVTTClock end_ with
  | Some startNS, Some endNS =>
      let text := TrimSpace text in
      if (endNS <=? startNS) || (len text =? 0) then cs
      else
        let seekNS := match SFcompare seekSeconds (of_int 0) with
                      | Some Gt => to_uint64 (fmul seekSeconds (of_int billion))
                      | _ => 0
                      end in
        let minimumExpected := if maxBackDiffNS <? seekNS then seekNS - maxBackDiffNS else 0 in
        let '(startNS, endNS) :=
          if (0 <? seekNS) && (startNS <? minimumExpected)
          then (saturatingAdd startNS seekNS, saturatingAdd endNS seekNS) else (startNS, endNS) in
        let cue := mkSubtitleCue startNS endNS text in
        if bool_decide (cue ∈ cs) then cs else cs ++ [cue]
  | _, _ => cs
  end.

(** The cut of a long rest: at the first line that starts in its last 64 KiB. *)
Definition cut_pending (p : bytes) : bytes :=
  if maxPendingVTTChars <? len p then
    let tail := drop (Z.to_nat (len p - maxPendingVTTChars)) p in
    match list_find (λ c, c = 10) tail with
    | Some (n, _) => drop (S n) tail
    | None => tail
    end
  else p.

Definition appendVTT (chunk : bytes) (seekSeconds : float64) (maxBackDiffNS : Z) (s : subtitleStore) : subtitleStore :=
  if len (TrimSpace chunk) =? 0 then s
  else
    let vtt := pending s ++ unix_lines chunk in
    let ms := FindAll vtt vttCuePattern in
    let cs := foldl (λ cs m, take_cue seekSeconds maxBackDiffNS cs (group vtt m 1) (group vtt m 2) (group vtt m 3)) (cues s) ms in
    let consumed := match last ms with Some m => f_end m | None => 0 end in
    let rest := if 0 <? consumed then drop (Z.to_nat consumed) vtt else vtt in
    notifyLocked (mkStore (cut_pending rest) (videoReadTo s) cs (updated s)).

(** ** The text of a segment *)

Definition writeVTTHeader (startNS : Z) : bytes :=
  str "WEBVTT" ++ [10] ++ str "X-TIMESTAMP-MAP=LOCAL:00:00:00.000,MPEGTS:" ++ FormatInt (clockTimeToMPEGTS startNS) ++ [10; 10].

Definition emptyVTT (startNS : Z) : bytes := writeVTTHeader startNS.

(** The part of a cue shown in a segment, from the start of the segment. *)
Definition shown (fromNS toNS : Z) (cue : subtitleCue) : option (Z * Z) :=
  if (EndNS cue <=? fromNS) || (toNS <=? StartNS cue) then None
  else
    let startNS := if fromNS <? StartNS cue then StartNS cue - fromNS else 0 in
    let endNS := if EndNS cue <? toNS then u64 (EndNS cue - fromNS) else u64 (toNS - fromNS) in
    if endNS <=? startNS then None else Some (startNS, endNS).

Definition print_cue (cue : subtitleCue) (times : Z * Z) : bytes :=
  formatVTTClock times.1 ++ str " --> " ++ formatVTTClock times.2 ++ [10] ++ Text cue ++ [10; 10].

Definition renderVTT (fromNS toNS : Z) (s : subtitleStore) : bytes * bool :=
  (writeVTTHeader fromNS ++ concat (omap (λ cue, print_cue cue <$> shown fromNS toNS cue) (cues s)),
   (toNS <=? fromNS) || (toNS <=? videoReadTo s)).

Section Range.
Context {R : Type}.

(** [Task.subtitleRange] *)
Definition subtitleRange (segmentIndex : Z) (t : Task R) : Z * Z :=
  match timeline_Segment (Cue t) segmentIndex with
  | Some cue => (cs_StartNS cue, cs_EndNS cue)
  | None =>
      let fromNS := segmentStartNS segmentIndex t in
      let durationNS := u64 (u64 (Z.max (ConfigSegmentSeconds t) 1) * billion) in
      let toNS := saturatingAdd fromNS durationNS in
      let toNS := if 0 <? DurationNS t then
                    let mediaEndNS := DurationNS t in
                    if mediaEndNS <=? fromNS then fromNS else if mediaEndNS <? toNS then mediaEndNS else toNS
                  else toNS in
      (fromNS, toNS)
  end.

(** [subtitleVTTSnapshot] with the store of the track, if there is one. *)
Definition subtitleVTTSnapshot (store : option subtitleStore) (segmentIndex : Z) (t : Task R) : bytes * bool :=
  let '(fromNS, toNS) := subtitleRange segmentIndex t in
  if disposed t then (emptyVTT fromNS, true)
  else match store with None => (emptyVTT fromNS, true) | Some s => renderVTT fromNS toNS s end.
End Range.
