(* ===== verification/SubtitlesProps.v ===== *)
(** * What the subtitle store keeps and shows

    The invariant of a store, clocks through text and back, and that the segments of a
    stream together show every cue in full. *)

From S2P Require Import Prelude GoFloat GoText Regex Matroska Task Subtitles.
#[local] Open Scope Z_scope.

(** ** The store *)

Definition cue_ok (c : subtitleCue) : Prop :=
  0 <= StartNS c <= EndNS c ∧ EndNS c < two64 ∧ (StartNS c = EndNS c → EndNS c = two64 - 1) ∧ Text c ≠ [].

Record store_ok (s : subtitleStore) : Prop := {
  so_unique : NoDup (cues s);
  so_cues : Forall cue_ok (cues s);
  so_pending : len (pending s) <= maxPendingVTTChars;
}.

Lemma parseVTTClock_range s v : parseVTTClock s = Some v → in_u64 v.
Proof.
  unfold parseVTTClock. intros H. repeat (case_match; try discriminate). injection H as <-. apply u64_range.
Qed.

Lemma saturatingAdd_spec a b : in_u64 a → in_u64 b → saturatingAdd a b = Z.min (a + b) (two64 - 1).
Proof.
  unfold in_u64, saturatingAdd. intros Ha Hb. destruct (_ <? b) eqn:E; reflect_bools; [lia|]. rewrite u64_id; unfold in_u64; lia.
Qed.

Lemma to_uint64_range x : in_u64 (to_uint64 x).
Proof.
  unfold to_uint64, in_u64, two64, two63. destruct x as [| | |[] m e]; try lia. cbv zeta.
  destruct (_ <? _) eqn:E; reflect_bools; [|lia]. split; [|done]. destruct (0 <=? e) eqn:Ee; reflect_bools.
  - apply Z.mul_nonneg_nonneg; [lia|]. apply Z.pow_nonneg. lia.
  - apply Z.div_pos; [lia|]. apply Z.pow_pos_nonneg; lia.
Qed.

Lemma take_cue_ok seek back cs a b c :
  NoDup cs → Forall cue_ok cs →
  let cs' := take_cue seek back cs a b c in NoDup cs' ∧ Forall cue_ok cs' ∧ cs `prefix_of` cs'.
Proof.
  intros Hn Hf. cbv zeta. assert (Hsame : NoDup cs ∧ Forall cue_ok cs ∧ cs `prefix_of` cs) by done. unfold take_cue.
  destruct (parseVTTClock a) as [x|] eqn:Ea; [|done]. destruct (parseVTTClock b) as [y|] eqn:Eb; [|done].
  apply parseVTTClock_range in Ea, Eb. cbv zeta. destruct (_ || _) eqn:E; [done|]. reflect_bools.
  set (seekNS := match SpecFloat.SFcompare _ _ with Some Gt => _ | _ => _ end).
  assert (Hs : in_u64 seekNS) by (unfold seekNS; repeat case_match; try done; apply to_uint64_range). clearbody seekNS.
  set (p := if _ && _ then _ else _). destruct p as [x' y'] eqn:Ep.
  assert (Hxy : 0 <= x' <= y' ∧ y' < two64 ∧ (x' = y' → y' = two64 - 1)).
  { unfold p in Ep. destruct (_ && (x <? _)) in Ep; injection Ep as <- <-; [|unfold in_u64 in *; lia].
    rewrite !saturatingAdd_spec by done. unfold in_u64 in *. lia. }
  case_bool_decide as Hin; [done|]. split_and!; [|apply Forall_app; split; [done|]|by apply prefix_app_r].
  - apply NoDup_app. split_and!; [done| |apply NoDup_singleton]. intros z Hz ->%list_elem_of_singleton. done.
  - constructor; [|constructor]. unfold cue_ok. simpl. split_and!; try lia. destruct (TrimSpace c); [done|done].
Qed.

Lemma cut_pending_bound p : len (cut_pending p) <= maxPendingVTTChars.
Proof.
  unfold cut_pending. destruct (_ <? len p) eqn:E; reflect_bools; [|done].
  set (tail := drop _ p). assert (Ht : len tail = maxPendingVTTChars).
  { unfold tail, len in *. rewrite length_drop. unfold maxPendingVTTChars in *. lia. }
  destruct (list_find _ tail) as [[n c]|]; [|lia]. unfold len in *. rewrite length_drop. lia.
Qed.

Lemma appendVTT_ok chunk seek back s : store_ok s →
  store_ok (appendVTT chunk seek back s) ∧ cues s `prefix_of` cues (appendVTT chunk seek back s) ∧
  videoReadTo (appendVTT chunk seek back s) = videoReadTo s.
Proof.
  intros [Hn Hf Hp]. unfold appendVTT. destruct (_ =? 0); [done|]. cbv zeta. set (vtt := pending s ++ _). clearbody vtt.
  generalize (FindAll vtt vttCuePattern). intros ms.
  assert (Hcs : ∀ cs, NoDup cs → Forall cue_ok cs →
    let cs' := foldl (λ cs m, take_cue seek back cs (group vtt m 1) (group vtt m 2) (group vtt m 3)) cs ms in
    NoDup cs' ∧ Forall cue_ok cs' ∧ cs `prefix_of` cs').
  { induction ms as [|m ms IH]; intros cs Hcn Hcf; [done|]. cbv zeta. cbn [foldl].
    destruct (take_cue_ok seek back cs (group vtt m 1) (group vtt m 2) (group vtt m 3) Hcn Hcf) as (H1&H2&H3).
    destruct (IH _ H1 H2) as (H4&H5&H6). split_and!; [done|done|by etrans]. }
  destruct (Hcs (cues s) Hn Hf) as (H1&H2&H3). split; [|by split]. constructor; [done|done|]. apply cut_pending_bound.
Qed.

(** What the pipeline does to a store. *)
Inductive store_step : subtitleStore → subtitleStore → Prop :=
| step_append chunk seek back s : store_step s (appendVTT chunk seek back s)
| step_advance value s : in_u64 value → store_step s (advanceVideoReadTo value s)
| step_seek value s : in_u64 value → store_step s (setVideoReadTo value s).

Lemma store_step_ok s s' : store_step s s' → store_ok s → store_ok s' ∧ cues s `prefix_of` cues s'.
Proof.
  intros [chunk seek back s0|v s0 _|v s0 _] Hok.
  - destruct (appendVTT_ok chunk seek back s0 Hok) as (?&?&?). done.
  - unfold advanceVideoReadTo. destruct Hok. repeat case_match; (split; [by constructor|done]).
  - unfold setVideoReadTo. destruct Hok. case_match; (split; [by constructor|done]).
Qed.

Lemma store_steps_ok s s' : rtc store_step s s' → store_ok s → store_ok s' ∧ cues s `prefix_of` cues s'.
Proof.
  induction 1 as [a|a b c Hab _ IH]; intros Hok; [done|]. destruct (store_step_ok _ _ Hab Hok) as [Hb Hp].
  destruct (IH Hb). split; [done|by etrans].
Qed.

(** Whatever chunks arrive, whatever the pipeline seeks to and however far the video
    is read, a store holds every cue once, with a text and an end behind its start
    (unless both are at the end of time), keeps what it holds, and keeps at most 64 KiB
    of text that is not yet a cue. *)
Theorem store_invariant (s s' : subtitleStore) :
  rtc store_step newSubtitleStore s → rtc store_step s s' → store_ok s ∧ store_ok s' ∧ cues s `prefix_of` cues s'.
Proof.
  intros H0 H1. assert (Hn : store_ok newSubtitleStore) by (constructor; [apply NoDup_nil_2|constructor|done]).
  destruct (store_steps_ok _ _ H0 Hn) as [Hs _]. destruct (store_steps_ok _ _ H1 Hs). done.
Qed.

Definition sample_chunk : bytes :=
  str "WEBVTT" ++ [10; 10] ++ str "00:01.000" ++ [10] ++ str "00:00:01.500 --> 00:00:03.250" ++ [10] ++ str "Hello" ++ [13; 10; 13; 10] ++
  str "00:00:04.000 --> 00:00".

Definition sample_store : subtitleStore := appendVTT sample_chunk (of_int 0) 0 newSubtitleStore.

Lemma store_invariant_witness :
  cues sample_store = [mkSubtitleCue 1500000000 3250000000 (str "Hello")] ∧
  store_ok sample_store ∧ store_ok (advanceVideoReadTo 7 sample_store) ∧
  cues sample_store `prefix_of` cues (advanceVideoReadTo 7 sample_store).
Proof.
  split; [vm_compute; reflexivity|]. apply (store_invariant sample_store (advanceVideoReadTo 7 sample_store)); apply rtc_once; constructor.
  by vm_compute.
Defined.

(** ** Cues across segments *)

Definition shown_length (fromNS toNS : Z) (c : subtitleCue) : Z :=
  match shown fromNS toNS c with Some (a, b) => b - a | None => 0 end.

(** The segments between consecutive boundaries. *)
Fixpoint total_shown (bounds : list Z) (c : subtitleCue) : Z :=
  match bounds with
  | a :: ((b :: _) as bounds) => shown_length a b c + total_shown bounds c
  | _ => 0
  end.

Lemma shown_inside fromNS toNS c a b :
  in_u64 fromNS → in_u64 toNS → fromNS <= toNS → cue_ok c → shown fromNS toNS c = Some (a, b) →
  0 <= a < b ∧ b <= toNS - fromNS ∧ fromNS + a = Z.max fromNS (StartNS c) ∧ fromNS + b = Z.min toNS (EndNS c).
Proof.
  unfold in_u64, cue_ok, shown. intros Hf Ht Hle (H1&H2&_&_). destruct (_ || _) eqn:E; [done|]. reflect_bools. cbv zeta.
  set (x := if fromNS <? _ then _ else _). set (y := if EndNS c <? _ then _ else _).
  assert (Hx : x = Z.max 0 (StartNS c - fromNS)) by (unfold x; case_match; zlia).
  assert (Hy : y = Z.min toNS (EndNS c) - fromNS) by (unfold y; case_match; reflect_bools; rewrite u64_id; unfold in_u64; lia).
  clearbody x y. destruct (y <=? x) eqn:Eyx; [done|]. reflect_bools. intros [= <- <-]. lia.
Qed.

Lemma shown_length_eq fromNS toNS c :
  in_u64 fromNS → in_u64 toNS → fromNS <= toNS → cue_ok c →
  shown_length fromNS toNS c = Z.max 0 (Z.min toNS (EndNS c) - Z.max fromNS (StartNS c)).
Proof.
  intros Hf Ht Hle Hc. unfold shown_length. destruct (shown fromNS toNS c) as [[a b]|] eqn:E.
  - destruct (shown_inside _ _ _ _ _ Hf Ht Hle Hc E) as (?&?&?&?). lia.
  - unfold in_u64, cue_ok, shown in *. destruct (_ || _) eqn:E1.
    + apply orb_true_iff in E1 as [E1|E1]; reflect_bools; lia.
    + reflect_bools. cbv zeta in E. destruct (_ <=? _) eqn:E2 in E; [|done]. reflect_bools.
      destruct (fromNS <? StartNS c) eqn:E3, (EndNS c <? toNS) eqn:E4; reflect_bools; rewrite u64_id in E2 by (unfold in_u64; lia); lia.
Qed.

(** The segments of a stream show a cue in full: each shows the part that lies in
    it, at its place from the start of the segment, and the lengths shown by consecutive
    segments add up to the part of the cue between the first and the last boundary. *)
Theorem cue_shown_in_full (c : subtitleCue) (first : Z) (bounds : list Z) :
  cue_ok c → Forall in_u64 (first :: bounds) → Sorted Z.le (first :: bounds) →
  (∀ i a b x y, (first :: bounds) !! i = Some a → (first :: bounds) !! S i = Some b → shown a b c = Some (x, y) →
     0 <= x < y ∧ y <= b - a ∧ a + x = Z.max a (StartNS c) ∧ a + y = Z.min b (EndNS c)) ∧
  total_shown (first :: bounds) c =
    Z.max 0 (Z.min (List.last bounds first) (EndNS c) - Z.max first (StartNS c)).
Proof.
  intros Hc Hu Hs. split.
  - intros i a b x y Ha Hb. assert (Hle : a <= b).
    { apply Sorted_StronglySorted in Hs; [|intros ???; lia]. revert i Ha Hb. clear -Hs.
      induction Hs as [|z l Hs IH Hz]; intros [|i] Ha Hb; [done|done| |by eapply IH].
      simpl in Ha, Hb. injection Ha as <-. rewrite Forall_forall in Hz. by apply Hz, (list_elem_of_lookup_2 _ 0%nat). }
    rewrite Forall_forall in Hu. apply shown_inside; [by eapply Hu, list_elem_of_lookup_2..|done|done].
  - revert first Hu Hs. induction bounds as [|b bounds IH]; intros first Hu Hs.
    { apply Forall_cons in Hu as [Hu _]. unfold cue_ok in Hc. simpl. lia. }
    apply Forall_cons in Hu as [Hf Hu]. apply Sorted_inv in Hs as [Hs Hh]. apply HdRel_inv in Hh.
    pose proof Hu as [Hb _]%Forall_cons. change (total_shown (first :: b :: bounds) c) with (shown_length first b c + total_shown (b :: bounds) c).
    rewrite (IH b Hu Hs), shown_length_eq by done.
    assert (Hl : List.last (b :: bounds) first = List.last bounds b).
    { clear. revert b first. induction bounds as [|x l IH]; intros b f; [done|].
      change (List.last (x :: l) f = List.last (x :: l) b). by rewrite (IH x f), (IH x b). }
    rewrite Hl. assert (Hbl : b <= List.last bounds b).
    { clear -Hs. apply Sorted_StronglySorted in Hs; [|intros ???; lia]. apply StronglySorted_inv in Hs as [_ Hs].
      destruct bounds as [|x l] using rev_ind; [simpl; lia|]. rewrite List.last_last. rewrite Forall_forall in Hs.
      apply Hs, elem_of_app. right. by left. }
    unfold cue_ok in Hc. lia.
Qed.

Lemma cue_shown_in_full_witness :
  let c := mkSubtitleCue 1500000000 7250000000 (str "Hello") in
  let bounds := [2000000000; 4000000000; 6000000000; 8000000000] in
  (∀ i a b x y, (0 :: bounds) !! i = Some a → (0 :: bounds) !! S i = Some b → shown a b c = Some (x, y) →
     0 <= x < y ∧ y <= b - a ∧ a + x = Z.max a (StartNS c) ∧ a + y = Z.min b (EndNS c)) ∧
  total_shown (0 :: bounds) c = 5750000000.
Proof.
  apply (cue_shown_in_full (mkSubtitleCue 1500000000 7250000000 (str "Hello")) 0 [2000000000; 4000000000; 6000000000; 8000000000]).
  - unfold cue_ok, two64. simpl. split_and!; (lia || discriminate).
  - unfold in_u64, two64. repeat constructor; lia.
  - repeat constructor; lia.
Defined.
