(* ===== verification/Episode.v ===== *)
(** * Episodes and what to watch next ([server/mcp/episode.go])

    Season and episode are read off the path of a file; among the files of the torrents
    that match a query, the next one not yet watched is chosen. *)

From S2P Require Import Prelude GoText Regex FileTypes.
From Stdlib Require Import Ascii.
#[local] Open Scope Z_scope.

(** Folding of letters by Unicode, as [strings] does it. *)
Class Folding := {
  ToLower : bytes → bytes;
  EqualFold : bytes → bytes → bool;
}.

(** ** Patterns *)

(** The patterns are searched in the characters of a path.  Without regard to case, a
    letter also stands for the other members of its class under folding: for s, the long
    s; for two Cyrillic letters, a form of their own. *)
Definition folded (c : Z) : list Z :=
  if (97 <=? c) && (c <=? 122) then
    c :: c - 32 :: (if c =? 115 then [383] else if c =? 107 then [8490] else [])
  else if (1072 <=? c) && (c <=? 1103) then
    c :: c - 32 :: (if c =? 1086 then [7298] else if c =? 1089 then [7299] else [])
  else [c].
Definition fold_char (c : Z) : re := Char (λ x, bool_decide (x ∈ folded c)).
Definition fold_word (w : list Z) : re := Seqs (fold_char <$> w).

Definition digit : re := Char is_digit.
(** [[0-9A-Za-z]] without regard to case *)
Definition alnum (x : Z) : bool := is_alnum x || (x =? 383) || (x =? 8490).
Definition one_of (s : bytes) : re := Char (λ x, bool_decide (x ∈ s)).
Definition before : re := Alt TextStart (Char (λ x, negb (alnum x))).
Definition after : re := Alt (Char (λ x, negb (alnum x))) TextEnd.

Definition reSxxExx : re :=
  Seqs [before; fold_char 115; Group 1 (UpTo 3 digit); Star true (one_of (str ".-_ ")); fold_char 101; Group 2 (UpTo 4 digit); after].
Definition reNxNN : re := Seqs [before; Group 1 (UpTo 2 digit); fold_char 120; Group 2 (UpTo 3 digit); after].

Definition sezon_cyrillic : list Z := [1089; 1077; 1079; 1086; 1085].
Definition season_word : re := Alt (fold_word (str "season")) (Alt (fold_word (str "sezon")) (fold_word sezon_cyrillic)).
Definition joiner : re := Star true (one_of (str "- .")).
Definition reSeason : re := Alt (Seqs [season_word; joiner; Group 1 (UpTo 3 digit)]) (Seqs [Group 2 (UpTo 3 digit); joiner; season_word]).

Definition seriya : list Z := [1089; 1077; 1088; 1080; 1103].
Definition serii : list Z := [1089; 1077; 1088; 1080; 1080].
Definition episode_word : re :=
  Alt (fold_word (str "episode")) (Alt (Seq (fold_word (str "ep")) (Opt (fold_word (str "isode")))) (Alt (fold_word seriya) (fold_word serii))).
Definition reEpWord : re := Seqs [episode_word; joiner; Group 1 (UpTo 4 digit)].
Definition reEOnly : re := Seqs [before; fold_char 101; Group 1 (UpTo 4 digit); after].

(** [\s] is white space in ASCII. *)
Definition mark (extra : bytes) : re := one_of (str "._- " ++ [9; 10; 12; 13] ++ extra).
Definition reSample : re :=
  Seqs [Alt TextStart (mark (str "[(")); Alt (fold_word (str "sample")) (Alt (fold_word (str "trailer")) (fold_word (str "preview")));
        Alt (mark (str "])")) TextEnd].

(** ** Parsing *)

(** [atoi] on the digits a group holds: at most four. *)
Definition atoi (s : bytes) : Z := match ParseInt s with Some n => n | None => 0 end.

Definition submatch (r : re) (text : list Z) (n : nat) : option (list bytes) :=
  match find_from text r 0 text with Some m => Some (group text m <$> seq 1 n) | None => None end.

Definition firstSubint (m : option (list bytes)) : Z :=
  match m with
  | Some gs => match List.find (λ g, negb (bool_decide (g = []))) gs with Some g => atoi g | None => 0 end
  | None => 0
  end.

(** [strings.ReplaceAll(path, "\\", "/")] *)
Definition slashes (path : bytes) : bytes := (λ c, if c =? 92 then 47 else c) <$> path.

(** Season, episode, and whether either was found. *)
Definition ParseEpisode (path : bytes) : Z * Z * bool :=
  if bool_decide (path = []) then (0, 0, false)
  else
    let norm := runes (slashes path) in
    match submatch reSxxExx norm 2 with
    | Some [s; e] => (atoi s, atoi e, true)
    | _ =>
        match submatch reNxNN norm 2 with
        | Some [s; e] => (atoi s, atoi e, true)
        | _ =>
            let season := firstSubint (submatch reSeason norm 2) in
            let episode := firstSubint (submatch reEpWord norm 1) in
            let episode := if (episode =? 0) && (0 <? season) then firstSubint (submatch reEOnly norm 1) else episode in
            if 0 <? episode then (season, episode, true)
            else if 0 <? season then (season, 0, true)
            else (0, 0, false)
        end
    end.

(** [filepath.Base] *)
Fixpoint drop_slashes (rev_path : bytes) : bytes := match rev_path with c :: s => if c =? 47 then drop_slashes s else rev_path | [] => [] end.
Fixpoint until_slash (rev_path : bytes) : bytes := match rev_path with c :: s => if c =? 47 then [] else c :: until_slash s | [] => [] end.
Definition Base (path : bytes) : bytes :=
  match path with
  | [] => str "."
  | _ => match drop_slashes (rev path) with [] => str "/" | r => rev (until_slash r) end
  end.

Definition isSampleFile (path : bytes) : bool :=
  let base := runes (Base path) in match find_from base reSample 0 base with Some _ => true | None => false end.

(** The bytes of a path as the characters of [FileTypes]. *)
Definition name_of (path : bytes) : name := (λ c, ascii_of_nat (Z.to_nat c)) <$> path.
Definition isVideoFile (path : bytes) : bool := bool_decide (GetMimeType (name_of path) = Video).

(** ** Torrents *)

Record file_stat := mkFileStat { fs_Id : Z; fs_Path : bytes }.

(** A [nil] among the files is [None]. *)
Record TorrentSnapshot := mkTorrentSnapshot { Title : bytes; Category : bytes; Hash : bytes; Files : list (option file_stat) }.

(** Hash, then index of a file; the time code is not looked at here. *)
Notation ViewedMap := (gmap bytes (gmap Z Z)).

Record EpisodeRef := mkRef { r_Season : Z; r_Episode : Z; r_Parsed : bool }.

Inductive message := MNone | MNoTorrents | MAllViewed | MNoVideo | MNextEpisode | MNextFile.

Record NextUnwatched := mkNext {
  CaughtUp : bool; ShowTitle : bytes; n_Hash : bytes; n_Season : Z; n_Episode : Z; Code : bytes; FileIndex : Z; FilePath : bytes;
  RemainingUnwatched : Z; LastWatched : option EpisodeRef; LastWatchedTitle : bytes; LastWatchedPath : bytes; MatchedTorrents : Z; Message : message }.

Record episodeCandidate := mkCandidate { snap : TorrentSnapshot; file : file_stat; season : Z; episode : Z; parsed : bool; viewed : bool }.

Section Select.
Context `{!Folding}.

(** [strings.Contains] *)
Fixpoint Contains (s sub : bytes) : bool :=
  starts_with sub s || match s with [] => false | _ :: s => Contains s sub end.

(** The test of [filterSnapshots] on a snapshot; a [nil] file would be a panic, which
    snapshots do not hold. *)
Definition keep_snapshot (query category hash : bytes) (s : TorrentSnapshot) : bool :=
  let by_hash := bool_decide (hash = []) || EqualFold (Hash s) hash in
  let by_category :=
    if bool_decide (hash = []) && negb (bool_decide (category = [])) && negb (bool_decide (category = str "all")) then
      let cat := ToLower (TrimSpace (Category s)) in
      if bool_decide (category = str "uncategorized") then bool_decide (cat = [])
      else if negb (bool_decide (cat = category)) then bool_decide (cat = []) && negb (bool_decide (query = []))
      else true
    else true in
  let by_query :=
    bool_decide (query = []) || Contains (ToLower (Title s)) query || Contains (ToLower (Hash s)) query ||
    existsb (λ f, match f with Some f => Contains (ToLower (fs_Path f)) query | None => false end) (Files s) in
  by_hash && by_category && by_query.

Definition filterSnapshots (all : list TorrentSnapshot) (query category hash : bytes) : list TorrentSnapshot :=
  let norm s := ToLower (TrimSpace s) in
  List.filter (keep_snapshot (norm query) (norm category) (norm hash)) all.

(** The numbers a candidate is ordered by. *)
Definition season_key (c : episodeCandidate) : Z := if parsed c then season c else 2 ^ 30.
Definition episode_key (c : episodeCandidate) : Z := if parsed c then episode c else fs_Id (file c).

Definition cmpCandidate (a b : episodeCandidate) : Z :=
  if negb (season_key a =? season_key b) then i64 (season_key a - season_key b)
  else if negb (episode_key a =? episode_key b) then i64 (episode_key a - episode_key b)
  else if negb (fs_Id (file a) =? fs_Id (file b)) then i64 (fs_Id (file a) - fs_Id (file b))
  else compare_text (ToLower (Title (snap a))) (ToLower (Title (snap b))).

Definition candidate_less (a b : episodeCandidate) : bool := cmpCandidate a b <? 0.

(** What has been viewed of a torrent: under its hash in lower case, or as it is. *)
Definition viewed_of (v : ViewedMap) (s : TorrentSnapshot) : option (gmap Z Z) :=
  match v !! ToLower (Hash s) with Some m => Some m | None => v !! Hash s end.

Definition candidates_of (v : ViewedMap) (s : TorrentSnapshot) : list episodeCandidate :=
  omap (λ f, match f with
             | None => None
             | Some f =>
                 if negb (isVideoFile (fs_Path f)) || isSampleFile (fs_Path f) then None
                 else
                   let '(se, ep, ok) := ParseEpisode (fs_Path f) in
                   let seen := match viewed_of v s with Some m => bool_decide (is_Some (m !! fs_Id f)) | None => false end in
                   Some (mkCandidate s f se ep ok seen)
             end) (Files s).

(** The viewed candidate that comes last; of equal ones, the first. *)
Definition last_step (last : option episodeCandidate) (c : episodeCandidate) : option episodeCandidate :=
  if viewed c then match last with None => Some c | Some l => if 0 <? cmpCandidate c l then Some c else last end else last.

(** [%02d] *)
Definition pad2 (n : Z) : bytes := (if (0 <=? n) && (n <? 10) then [48] else []) ++ FormatInt n.

Definition formatEpisodeCode (s e : Z) : bytes :=
  if (s <=? 0) && (e <=? 0) then []
  else if s <=? 0 then str "E" ++ pad2 e
  else if e <=? 0 then str "S" ++ pad2 s
  else str "S" ++ pad2 s ++ str "E" ++ pad2 e.

(** The result for a candidate. *)
Definition chosen (c : episodeCandidate) (caughtUp : bool) (msg : message) (unwatched matched : Z) (last : option episodeCandidate) : NextUnwatched :=
  mkNext caughtUp (Title (snap c)) (Hash (snap c)) (season c) (episode c) (formatEpisodeCode (season c) (episode c)) (fs_Id (file c)) (fs_Path (file c))
    unwatched ((λ l, mkRef (season l) (episode l) (parsed l)) <$> last)
    (match last with Some l => Title (snap l) | None => [] end) (match last with Some l => fs_Path (file l) | None => [] end) matched msg.

Definition SelectNextUnwatched (all : list TorrentSnapshot) (v : ViewedMap) (query category hash : bytes) : NextUnwatched :=
  let snaps := filterSnapshots all query category hash in
  if bool_decide (snaps = []) then mkNext true [] [] 0 0 [] 0 [] 0 None [] [] 0 MNoTorrents
  else
    let cands := mjoin (candidates_of v <$> snaps) in
    let last := foldl last_step None cands in
    let unwatched := len (List.filter (λ c, negb (viewed c)) cands) in
    let matched := len snaps in
    match List.find (λ c, negb (viewed c)) (insertion_sort candidate_less cands) with
    | None =>
        match last with
        | Some l => chosen l true MAllViewed unwatched matched last
        | None => mkNext true [] [] 0 0 [] 0 [] unwatched None [] [] matched MNoVideo
        end
    | Some c => chosen c false (if parsed c && (0 <? season c) then MNextEpisode else MNextFile) unwatched matched last
    end.
End Select.

Example sxxexx : ParseEpisode (str "Show.Name.S01E05.1080p.mkv") = (1, 5, true). Proof. vm_compute. reflexivity. Qed.
Example nxnn : ParseEpisode (str "Show Name - 1x05.mkv") = (1, 5, true). Proof. vm_compute. reflexivity. Qed.
Example words : ParseEpisode (str "Show/Season 02/Show - Episode 03.mp4") = (2, 3, true). Proof. vm_compute. reflexivity. Qed.
Example split_marks : ParseEpisode (str "Show.S01.E05.mkv") = (1, 5, true). Proof. vm_compute. reflexivity. Qed.
Example resolution : ParseEpisode (str "Movie.1920x1080.mkv") = (0, 0, false). Proof. vm_compute. reflexivity. Qed.
Example backslashes : ParseEpisode (str "Show\Season 3\E12.mkv") = (3, 12, true). Proof. vm_compute. reflexivity. Qed.
