(* ===== verification/EpisodeProps.v ===== *)
(** * What is watched next

    [next_unwatched] says which file is chosen; [episode_roundtrip] that the code printed
    for an episode is read as that episode wherever it stands behind text without
    digits. *)

From S2P Require Import Prelude GoText Regex FileTypes Episode.
#[local] Open Scope Z_scope.

(** ** Groups of a match *)

Section Groups.
Context (text : list Z).

(** Expressions made of accepted characters only. *)
Fixpoint made_of (ok : Z → bool) (r : re) : Prop :=
  match r with
  | Empty => True
  | Char f => ∀ c, f c = true → ok c = true
  | Seq a b | Alt a b => made_of ok a ∧ made_of ok b
  | Star _ a => made_of ok a
  | LineStart | TextStart | TextEnd => True
  | Group _ _ => False
  end.

(** Every group holds accepted characters only, and no group is within another. *)
Fixpoint groups_of (ok : Z → bool) (r : re) : Prop :=
  match r with
  | Seq a b | Alt a b => groups_of ok a ∧ groups_of ok b
  | Star _ a => groups_of ok a
  | Group _ a => made_of ok a
  | _ => True
  end.

Definition at_pos (i : Z) (s : list Z) : Prop := 0 <= i ∧ i <= len text ∧ s = drop (Z.to_nat i) text.

Definition span (ok : Z → bool) (i j : Z) : Prop := 0 <= i <= j ∧ j <= len text ∧ ∀ x, x ∈ take (Z.to_nat (j - i)) (drop (Z.to_nat i) text) → ok x = true.

Lemma at_pos_cons i c s : at_pos i (c :: s) → at_pos (i + 1) s.
Proof.
  intros (H0&H1&Hs). assert (Hlt : (Z.to_nat i < length text)%nat).
  { apply (f_equal length) in Hs. rewrite length_drop in Hs. simpl in Hs. lia. }
  unfold at_pos, len in *. split_and!; [lia..|]. replace (Z.to_nat (i + 1)) with (Z.to_nat i + 1)%nat by lia. rewrite <- drop_drop, <- Hs. done.
Qed.

Lemma span_refl ok i : 0 <= i <= len text → span ok i i.
Proof. intros H. split_and!; [lia|lia|lia|]. rewrite Z.sub_diag. intros x ?%elem_of_nil. done. Qed.

Lemma span_snoc ok i j c s : span ok i j → at_pos j (c :: s) → ok c = true → span ok i (j + 1).
Proof.
  intros (H0&H1&Hx) Ha Hc. destruct (at_pos_cons _ _ _ Ha) as (_&H2&_). destruct Ha as (_&_&Hs). split_and!; [lia..|].
  intros x. replace (Z.to_nat (j + 1 - i)) with (S (Z.to_nat (j - i))) by lia.
  assert (Hat : drop (Z.to_nat i) text !! Z.to_nat (j - i) = Some c).
  { rewrite lookup_drop. replace (Z.to_nat i + Z.to_nat (j - i))%nat with (Z.to_nat j + 0)%nat by lia. rewrite <- lookup_drop, <- Hs. done. }
  rewrite (take_S_r _ _ _ Hat). intros [?| ->%list_elem_of_singleton]%elem_of_app; [by apply Hx|done].
Qed.

(** A search within accepted characters goes on where these end. *)
Lemma matches_made_of ok r i0 (P : option (Z * groups) → Prop) : made_of ok r → P None → ∀ i s g k,
  at_pos i s → span ok i0 i → (∀ j s' , at_pos j s' → span ok i0 j → P (k j s' g)) → P (matches text r i s g k).
Proof.
  intros Hm HN. induction r as [|f| | | |a IHa b IHb|a IHa b IHb|greedy a IHa|n a IHa]; intros i s g k Hat Hsp Hk; cbn [matches made_of] in *.
  - by apply Hk.
  - destruct s as [|c s]; [done|]. destruct (f c) eqn:E; [|done]. apply Hk; [by eapply at_pos_cons|by eapply span_snoc; eauto].
  - destruct (at_line_start text i); [by apply Hk|done].
  - destruct (i =? 0); [by apply Hk|done].
  - destruct s; [by apply Hk|done].
  - destruct Hm. apply IHa; [done|done|done|]. intros j s' Hj Hs'. by apply IHb.
  - destruct Hm as [Ha Hb]. specialize (IHa Ha i s g k Hat Hsp Hk). destruct (matches text a i s g k); [done|by apply IHb].
  - generalize (S (length s)) as fuel. intros fuel.
    revert i s Hat Hsp. induction fuel as [|fuel IH]; intros i s Hat Hsp; [by apply Hk|]. cbn [star_loop].
    assert (Hmore : P (matches text a i s g (λ i' s' g', if i' =? i then None else star_loop greedy (matches text a) k fuel i' s' g'))).
    { apply IHa; [done|done|done|]. intros j s' Hj Hs'. destruct (j =? i); [done|]. by apply IH. }
    pose proof (Hk i s Hat Hsp) as Hki. destruct greedy.
    + destruct (matches text a i s g _); [done|by apply Hk].
    + destruct (k i s g); [done|exact Hmore].
  - done.
Qed.

Definition good_groups (ok : Z → bool) (g : groups) : Prop := Forall (λ e, span ok e.2.1 e.2.2) g.

Lemma matches_groups ok r : groups_of ok r → ∀ i s g k (P : option (Z * groups) → Prop), P None →
  at_pos i s → good_groups ok g → (∀ j s' g', at_pos j s' → good_groups ok g' → P (k j s' g')) → P (matches text r i s g k).
Proof.
  intros Hm. induction r as [|f| | | |a IHa b IHb|a IHa b IHb|greedy a IHa|n a _]; intros i s g k P HN Hat Hg Hk; cbn [matches groups_of] in *.
  - by apply Hk.
  - destruct s as [|c s]; [done|]. destruct (f c); [|done]. apply Hk; [by eapply at_pos_cons|done].
  - destruct (at_line_start text i); [by apply Hk|done].
  - destruct (i =? 0); [by apply Hk|done].
  - destruct s; [by apply Hk|done].
  - destruct Hm. apply IHa; [done|done|done|done|]. intros j s' g' Hj Hg'. by apply IHb.
  - destruct Hm as [Ha Hb]. specialize (IHa Ha i s g k P HN Hat Hg Hk). destruct (matches text a i s g k); [done|by apply IHb].
  - generalize (S (length s)) as fuel. intros fuel.
    revert i s g Hat Hg. induction fuel as [|fuel IH]; intros i s g Hat Hg; [by apply Hk|]. cbn [star_loop].
    assert (Hmore : P (matches text a i s g (λ i' s' g', if i' =? i then None else star_loop greedy (matches text a) k fuel i' s' g'))).
    { apply IHa; [done|done|done|done|]. intros j s' g' Hj Hg'. destruct (j =? i); [done|]. by apply IH. }
    pose proof (Hk i s g Hat Hg) as Hki. destruct greedy.
    + destruct (matches text a i s g _); [done|by apply Hk].
    + destruct (k i s g); [done|exact Hmore].
  - apply (matches_made_of ok a i P Hm HN); [done|apply span_refl; destruct Hat as (?&?&_); lia|].
    intros j s' Hj Hs'. apply Hk; [done|]. by constructor.
Qed.

Lemma find_groups ok r i s m : groups_of ok r → at_pos i s → find_from text r i s = Some m → good_groups ok (f_groups m).
Proof.
  intros Hr. revert i. induction s as [|c s IH]; intros i Hat; cbn [find_from];
    pose proof (matches_groups ok r Hr i _ [] (λ j _ g, Some (j, g)) (λ o, match o with Some (_, g) => good_groups ok g | None => True end)
      I Hat (Forall_nil_2 _) (λ j s' g' _ Hg, Hg)) as Hm; destruct (matches text r i _ [] _) as [[j g]|]; try (intros [= <-]; exact Hm).
  apply IH. by eapply at_pos_cons.
Qed.

Lemma group_chars ok m n x : good_groups ok (f_groups m) → x ∈ group text m n → ok x = true.
Proof.
  intros Hg. unfold group. destruct (filter _ (f_groups m)) as [|[n' [i j]] l] eqn:E; [by intros ?%elem_of_nil|].
  assert (Hin : (n', (i, j)) ∈ f_groups m) by (apply (list_elem_of_filter (λ g, g.1 = n)); rewrite E; by left).
  unfold good_groups in Hg. rewrite Forall_forall in Hg. destruct (Hg _ Hin) as (H0&H1&Hx). cbn in *.
  unfold slice. destruct (_ && _); [|by intros ?%elem_of_nil]. cbn. apply Hx.
Qed.
End Groups.

(** ** The numbers of an episode *)

Definition in_number (n : Z) : Prop := 0 <= n < two63.

Lemma in_number_0 : in_number 0.
Proof. unfold in_number, two63. lia. Qed.
#[local] Hint Resolve in_number_0 : core.

Lemma atoi_number s : (∀ x, x ∈ s → is_digit x = true) → in_number (atoi s).
Proof.
  intros Hs. unfold atoi. destruct (ParseInt s) as [n|] eqn:E; [|done]. pose proof (ParseInt_range s n E) as Hr.
  revert E. unfold ParseInt. set (p := match s with 43 :: ds => _ | _ => _ end). assert (p = (false, s)) as ->.
  { unfold p. destruct s as [|c s]; [done|]. specialize (Hs c ltac:(by left)). unfold is_digit in Hs.
    destruct (Z.eq_dec c 43) as [->|H1]; [discriminate Hs|]. destruct (Z.eq_dec c 45) as [->|H2]; [discriminate Hs|]. by repeat case_match. }
  destruct (_ || _) eqn:E; [done|]. apply orb_false_elim in E as [_ E]. apply negb_false_iff in E. cbv zeta.
  pose proof (from_base_digits_nonneg s E). cbn [negb andb]. destruct (two63 <=? _); [done|]. intros [= <-]. unfold in_number, in_i64 in *. lia.
Qed.

(** The groups of the patterns are runs of digits. *)
Ltac digits_only := repeat split; by intros ? ?.

Lemma submatch_number r text n gs : groups_of is_digit r → submatch r text n = Some gs → Forall (λ g, in_number (atoi g)) gs.
Proof.
  intros Hr. unfold submatch. destruct (find_from text r 0 text) as [m|] eqn:E; [|done]. intros [= <-].
  assert (Hat : at_pos text 0 text) by (split_and!; [done|unfold len; lia|done]).
  pose proof (find_groups text is_digit r 0 text m Hr Hat E) as Hg. apply Forall_forall. intros g (k&->&_)%list_elem_of_fmap.
  apply atoi_number. intros x. by apply group_chars.
Qed.

Lemma firstSubint_number r text n : groups_of is_digit r → in_number (firstSubint (submatch r text n)).
Proof.
  intros Hr. destruct (submatch r text n) as [gs|] eqn:E; [|done]. apply submatch_number in E; [|done].
  cbn. destruct (List.find _ gs) as [g|] eqn:Ef; [|done]. apply find_some in Ef as [Hin _].
  rewrite Forall_forall in E. by apply E, list_elem_of_In.
Qed.

(** What is read is never negative, and nothing is read where nothing is found. *)
Lemma ParseEpisode_range path s e ok : ParseEpisode path = (s, e, ok) → in_number s ∧ in_number e ∧ (ok = false → s = 0 ∧ e = 0).
Proof.
  unfold ParseEpisode. destruct (bool_decide (path = [])); [intros [= <- <- <-]; by split_and!|]. cbv zeta. generalize (runes (slashes path)). intros norm.
  assert (Hrest : ∀ x y, in_number x → in_number y →
    (if 0 <? y then (x, y, true) else if 0 <? x then (x, 0, true) else (0, 0, false)) = (s, e, ok) →
    in_number s ∧ in_number e ∧ (ok = false → s = 0 ∧ e = 0)).
  { intros x y Hx Hy. destruct (0 <? y); [intros [= <- <- <-]; by split_and!|]. destruct (0 <? x); intros [= <- <- <-]; by split_and!. }
  assert (Hwords : (let season := firstSubint (submatch reSeason norm 2) in
    let episode := firstSubint (submatch reEpWord norm 1) in
    let episode := if (episode =? 0) && (0 <? season) then firstSubint (submatch reEOnly norm 1) else episode in
    if 0 <? episode then (season, episode, true) else if 0 <? season then (season, 0, true) else (0, 0, false)) = (s, e, ok) →
    in_number s ∧ in_number e ∧ (ok = false → s = 0 ∧ e = 0)).
  { cbv zeta. apply Hrest; [apply firstSubint_number; digits_only|]. destruct (_ && _); apply firstSubint_number; digits_only. }
  assert (Hx : ∀ l, Forall (λ g, in_number (atoi g)) l → ∀ a b, l = [a; b] → (atoi a, atoi b, true) = (s, e, ok) →
    in_number s ∧ in_number e ∧ (ok = false → s = 0 ∧ e = 0)).
  { intros l Hl a b -> [= <- <- <-]. apply Forall_cons in Hl as [? [? _]%Forall_cons]. by split_and!. }
  destruct (submatch reSxxExx norm 2) as [[|a [|b [|]]]|] eqn:E1; try (eapply Hx; [eapply submatch_number; [|exact E1]; digits_only|done]);
  destruct (submatch reNxNN norm 2) as [[|a' [|b' [|]]]|] eqn:E2; try (eapply Hx; [eapply submatch_number; [|exact E2]; digits_only|done]); exact Hwords.
Qed.

(** ** The order of candidates *)

Definition lex (x y rest : Z) : Z := if negb (x =? y) then x - y else rest.

Lemma lex_flip x y r : lex y x (- r) = - lex x y r.
Proof. unfold lex. rewrite (Z.eqb_sym y). destruct (x =? y); cbn [negb]; lia. Qed.

Lemma lex_trans x y z r1 r2 r3 : (r1 <= 0 → r2 <= 0 → r3 <= 0) → lex x y r1 <= 0 → lex y z r2 <= 0 → lex x z r3 <= 0.
Proof. unfold lex. destruct (Z.eqb_spec x y), (Z.eqb_spec y z), (Z.eqb_spec x z); cbn [negb]; lia. Qed.

Section Order.
Context `{!Folding}.

(** The comparison without machine integers. *)
Definition order (a b : episodeCandidate) : Z :=
  lex (season_key a) (season_key b) (lex (episode_key a) (episode_key b)
    (lex (fs_Id (file a)) (fs_Id (file b)) (compare_text (ToLower (Title (snap a))) (ToLower (Title (snap b)))))).

Lemma order_flip a b : order b a = - order a b.
Proof. unfold order. by rewrite compare_text_flip, !lex_flip. Qed.

Lemma order_trans a b c : order a b <= 0 → order b c <= 0 → order a c <= 0.
Proof. unfold order. do 3 apply lex_trans. apply compare_text_trans. Qed.

Definition candidate_ok (c : episodeCandidate) : Prop := in_number (season c) ∧ in_number (episode c) ∧ in_number (fs_Id (file c)).

Lemma cmp_order a b : candidate_ok a → candidate_ok b → cmpCandidate a b = order a b.
Proof.
  intros (Ha1&Ha2&Ha3) (Hb1&Hb2&Hb3). assert (Hi : ∀ x y, in_number x → in_number y → i64 (x - y) = x - y).
  { intros x y Hx Hy. apply i64_id. unfold in_number, in_i64 in *. lia. }
  assert (Hk : ∀ c, candidate_ok c → in_number (season_key c) ∧ in_number (episode_key c)).
  { intros c (?&?&?). unfold season_key, episode_key. destruct (parsed c); [done|]. split; [unfold in_number, two63; lia|done]. }
  destruct (Hk a), (Hk b); try done. unfold cmpCandidate, order, lex. by rewrite !Hi.
Qed.
End Order.

(** ** The first of the best *)

Section Best.
Context {A : Type} (P : A → bool) (better : A → A → bool).

(** [c] is chosen from [l]: no other is better, and it comes before its equals. *)
Definition first_best (l : list A) (c : A) : Prop :=
  ∃ l1 l2, l = l1 ++ c :: l2 ∧ P c = true ∧ (∀ d, d ∈ l1 → P d = true → better c d = true) ∧ (∀ d, d ∈ l2 → P d = true → better d c = false).

Definition chosen_from (l : list A) (o : option A) : Prop :=
  match o with Some c => first_best l c | None => ∀ c, c ∈ l → P c = false end.

Context (asym : ∀ a b, better a b = true → better b a = false).
Context (trans : ∀ a b c, better b a = false → better c b = false → better c a = false).

Lemma chosen_cons x l o : chosen_from l o →
  chosen_from (x :: l) (if P x then match o with Some d => if better d x then Some d else Some x | None => Some x end else o).
Proof.
  intros Ho. destruct (P x) eqn:Ex, o as [d|]; cbn in Ho |- *.
  - destruct Ho as (l1&l2&->&Hd&H1&H2). destruct (better d x) eqn:E.
    + exists (x :: l1), l2. split_and!; [done|done| |done]. intros e [->|He]%elem_of_cons; [done|by apply H1].
    + exists [], (l1 ++ d :: l2). split_and!; [done|done|by intros e ?%elem_of_nil|].
      intros e [He|[->|He]%elem_of_cons]%elem_of_app HP; [apply (trans _ d); [done|by apply asym, H1]|done|apply (trans _ d); [done|by apply H2]].
  - exists [], l. split_and!; [done|done|by intros e ?%elem_of_nil|]. intros e He HP. by rewrite Ho in HP.
  - destruct Ho as (l1&l2&->&Hd&H1&H2). exists (x :: l1), l2. split_and!; [done|done| |done].
    intros e [->|He]%elem_of_cons; [by rewrite Ex|by apply H1].
  - intros e [->|He]%elem_of_cons; [done|by apply Ho].
Qed.

Lemma chosen_snoc x l o : chosen_from l o →
  chosen_from (l ++ [x]) (if P x then match o with Some d => if better x d then Some x else Some d | None => Some x end else o).
Proof.
  intros Ho. destruct (P x) eqn:Ex, o as [d|]; cbn in Ho |- *.
  - destruct Ho as (l1&l2&->&Hd&H1&H2). destruct (better x d) eqn:E.
    + exists (l1 ++ d :: l2), []. split_and!; [done|done| |by intros e ?%elem_of_nil].
      intros e He HP. apply not_false_iff_true. intros Hx.
      apply elem_of_app in He as [He|[->|He]%elem_of_cons]; [|congruence|]; rewrite (trans d e x) in E; try done; [by apply asym, H1|by apply H2].
    + exists l1, (l2 ++ [x]). split_and!; [by rewrite <- app_assoc|done|done|].
      intros e [He| ->%list_elem_of_singleton]%elem_of_app; [by apply H2|done].
  - exists l, []. split_and!; [done|done| |by intros e ?%elem_of_nil]. intros e He HP. by rewrite Ho in HP.
  - destruct Ho as (l1&l2&->&Hd&H1&H2). exists l1, (l2 ++ [x]). split_and!; [by rewrite <- app_assoc|done|done|].
    intros e [He| ->%list_elem_of_singleton]%elem_of_app; [by apply H2|by rewrite Ex].
  - intros e [He| ->%list_elem_of_singleton]%elem_of_app; [by apply Ho|done].
Qed.

Lemma find_insert x s : StronglySorted (λ a b, better b a = false) s →
  List.find P (insert_sorted better x s) =
    if P x then match List.find P s with Some d => if better d x then Some d else Some x | None => Some x end else List.find P s.
Proof.
  induction s as [|y s IH]; intros Hs; cbn; [done|]. apply StronglySorted_inv in Hs as [Hs Hy].
  destruct (better y x) eqn:E; cbn; [destruct (P y) eqn:Ey|].
  - rewrite E. by destruct (P x).
  - by apply IH.
  - destruct (P x) eqn:Ex; [|done]. destruct (P y) eqn:Ey; [by rewrite E|]. destruct (List.find P s) as [d|] eqn:Ef; [|done].
    apply find_some in Ef as [Hd _]. rewrite Forall_forall in Hy. by rewrite (trans x y d) by (done || apply Hy, list_elem_of_In, Hd).
Qed.

Lemma find_sorted l : chosen_from l (List.find P (insertion_sort better l)).
Proof.
  induction l as [|x l IH]; [by intros c ?%elem_of_nil|]. cbn [insertion_sort foldr]. rewrite find_insert; [by apply chosen_cons|].
  apply Sorted_StronglySorted; [intros a b c H1 H2; by apply (trans a b c)|]. apply insertion_sort_sorted, asym.
Qed.

Lemma foldl_chosen (step : option A → A → option A) l :
  (∀ o x, (∀ d, o = Some d → d ∈ l) → x ∈ l →
     step o x = if P x then match o with Some d => if better x d then Some x else Some d | None => Some x end else o) →
  chosen_from l (foldl step None l).
Proof.
  induction l as [|x l IH] using rev_ind; intros Hs; [by intros c ?%elem_of_nil|]. rewrite foldl_app. cbn [foldl].
  assert (Hl : chosen_from l (foldl step None l)).
  { apply IH. intros o y Ho Hy. apply Hs; [intros d Hd|]; apply elem_of_app; left; [by apply Ho|done]. }
  rewrite Hs; [by apply chosen_snoc| |apply elem_of_app; right; by left].
  intros d Hd. rewrite Hd in Hl. destruct Hl as (l1&l2&->&_). rewrite !elem_of_app, elem_of_cons. tauto.
Qed.
End Best.

Lemma insertion_sort_ext {A} (f g : A → A → bool) l : (∀ x y, x ∈ l → y ∈ l → f x y = g x y) → insertion_sort f l = insertion_sort g l.
Proof.
  intros H. assert (Hi : ∀ x s, (∀ y, y ∈ s → f y x = g y x) → insert_sorted f x s = insert_sorted g x s).
  { intros x s. induction s as [|y s IH]; intros Hs; cbn; [done|]. rewrite Hs by left. by rewrite IH by (intros; apply Hs; by right). }
  induction l as [|x l IH]; [done|]. unfold insertion_sort in *. cbn [foldr]. rewrite IH by (intros; apply H; by right).
  apply Hi. intros y Hy%(elem_of_Permutation_proper _ _ _ (insertion_sort_perm g l)). apply H; [by right|by left].
Qed.

Lemma chosen_from_ext {A} P (f g : A → A → bool) l o : (∀ x y, x ∈ l → y ∈ l → f x y = g x y) → chosen_from P f l o → chosen_from P g l o.
Proof.
  intros H. destruct o as [c|]; [|done]. intros (l1&l2&->&Hc&H1&H2).
  exists l1, l2. split_and!; [done|done| |]; intros d Hd HP; rewrite <- H by (rewrite ?elem_of_app, ?elem_of_cons; tauto); [by apply H1|by apply H2].
Qed.

(** ** The choice *)

Section Select.
Context `{!Folding}.

Definition unwatched (c : episodeCandidate) : bool := negb (viewed c).
Definition later (a b : episodeCandidate) : bool := 0 <? cmpCandidate a b.

(** Every video file of the torrents that match, with what its path says. *)
Definition candidates (all : list TorrentSnapshot) (v : ViewedMap) (query category hash : bytes) : list episodeCandidate :=
  mjoin (candidates_of v <$> filterSnapshots all query category hash).

Definition files_ok (all : list TorrentSnapshot) : Prop := ∀ s f, s ∈ all → Some f ∈ Files s → in_number (fs_Id f).

Lemma candidates_are_ok all v query category hash : files_ok all → Forall candidate_ok (candidates all v query category hash).
Proof.
  intros Hok. apply Forall_forall. intros c (l&Hc&(s&->&Hs)%list_elem_of_fmap)%list_elem_of_join.
  apply list_elem_of_In, filter_In in Hs as [Hs%list_elem_of_In _].
  apply list_elem_of_omap in Hc as ([f|]&Hf&Hc); [|done]. destruct (_ || _); [done|].
  destruct (ParseEpisode (fs_Path f)) as [[se ep] ok] eqn:E. injection Hc as <-. apply ParseEpisode_range in E as (?&?&_).
  split_and!; [done|done|]. by eapply Hok.
Qed.

Lemma next_chosen l : Forall candidate_ok l → chosen_from unwatched candidate_less l (List.find unwatched (insertion_sort candidate_less l)).
Proof.
  rewrite Forall_forall. intros Hl. set (less a b := order a b <? 0).
  assert (Heq : ∀ x y, x ∈ l → y ∈ l → less x y = candidate_less x y) by (intros; unfold candidate_less; by rewrite cmp_order by auto).
  rewrite <- (insertion_sort_ext less) by done. apply (chosen_from_ext _ less); [done|].
  apply find_sorted; unfold less.
  - intros a b Hab. rewrite (order_flip a b). reflect_bools. lia.
  - intros a b c. pose proof (order_trans a b c) as Ht. rewrite (order_flip a b), (order_flip b c), (order_flip a c). intros. reflect_bools. lia.
Qed.

Lemma last_chosen l : Forall candidate_ok l → chosen_from viewed later l (foldl last_step None l).
Proof.
  rewrite Forall_forall. intros Hl. apply (chosen_from_ext _ (λ a b, 0 <? order a b)); [intros; unfold later; by rewrite cmp_order by auto|].
  apply foldl_chosen.
  - intros a b Hab. rewrite (order_flip a b). reflect_bools. lia.
  - intros a b c. pose proof (order_trans c b a) as Ht. intros. reflect_bools. lia.
  - intros [d|] x Hd Hx; unfold last_step; [|done]. by rewrite cmp_order by auto.
Qed.

(** The result is about a candidate. *)
Definition names (r : NextUnwatched) (c : episodeCandidate) : Prop :=
  ShowTitle r = Title (snap c) ∧ n_Hash r = Hash (snap c) ∧ FileIndex r = fs_Id (file c) ∧ FilePath r = fs_Path (file c) ∧
  n_Season r = season c ∧ n_Episode r = episode c ∧ Code r = formatEpisodeCode (season c) (episode c).

Definition tells_last (r : NextUnwatched) (last : option episodeCandidate) : Prop :=
  match last with
  | Some l => LastWatched r = Some (mkRef (season l) (episode l) (parsed l)) ∧ LastWatchedTitle r = Title (snap l) ∧ LastWatchedPath r = fs_Path (file l)
  | None => LastWatched r = None
  end.

(** C26: of the video files of the torrents that match a query, [SelectNextUnwatched]
    counts those not yet watched; when there are any it names the one that comes first
    by season, episode, file number and title, and otherwise it says that all is
    watched and names the watched file that comes last, which it also tells apart. *)
Theorem next_unwatched all v query category hash : files_ok all →
  let r := SelectNextUnwatched all v query category hash in
  let cands := candidates all v query category hash in
  RemainingUnwatched r = len (List.filter unwatched cands) ∧ MatchedTorrents r = len (filterSnapshots all query category hash) ∧
  ∃ next last, chosen_from unwatched candidate_less cands next ∧ chosen_from viewed later cands last ∧ tells_last r last ∧
    match next with
    | Some c => CaughtUp r = false ∧ names r c
    | None => CaughtUp r = true ∧ match last with Some l => names r l | None => n_Hash r = [] ∧ cands = [] end
    end.
Proof.
  intros Hok. cbv zeta. pose proof (candidates_are_ok all v query category hash Hok) as Hc.
  pose proof (next_chosen _ Hc) as Hn. pose proof (last_chosen _ Hc) as Hl. unfold SelectNextUnwatched. cbv zeta.
  change (mjoin (candidates_of v <$> filterSnapshots all query category hash)) with (candidates all v query category hash).
  case_bool_decide as E.
  { assert (candidates all v query category hash = []) as -> by (unfold candidates; by rewrite E). rewrite E.
    split_and!; [done|done|]. exists None, None. by split_and!; try intros c ?%elem_of_nil. }
  change (List.find (λ c, negb (viewed c))) with (List.find unwatched). change (List.filter (λ c, negb (viewed c))) with (List.filter unwatched).
  set (next := List.find unwatched _) in *. set (last := foldl last_step None _) in *. clearbody next last.
  destruct next as [c|]; [|destruct last as [l|]].
  - split_and!; [done|done|]. exists (Some c), last. by destruct last.
  - split_and!; [done|done|]. by exists None, (Some l).
  - split_and!; [done|done|]. exists None, None. split_and!; [done|done|done|done|done|]. apply elem_of_nil_inv. intros c Hin.
    specialize (Hn c Hin). specialize (Hl c Hin). unfold unwatched in Hn. by rewrite Hl in Hn.
Qed.
End Select.

#[local] Instance ascii_folding : Folding :=
  let low c := if (65 <=? c) && (c <=? 90) then c + 32 else c in
  {| ToLower := fmap low; EqualFold a b := bool_decide (low <$> a = low <$> b) |}.

(** Two seasons, of which the first has been watched, and the second up to a sample. *)
Definition show : list TorrentSnapshot :=
  [mkTorrentSnapshot (str "Show 2") [] (str "BB") [Some (mkFileStat 1 (str "Show.S02E01.mkv")); Some (mkFileStat 2 (str "Show.S02E02.sample.mkv"))];
   mkTorrentSnapshot (str "Show 1") [] (str "AA") [Some (mkFileStat 1 (str "Show.S01E02.mkv")); None; Some (mkFileStat 2 (str "Show.S01E01.mkv"))]].
Definition watched : ViewedMap := {[ str "aa" := {[ 1 := 0; 2 := 0 ]} ]}.

Lemma next_unwatched_witness : let r := SelectNextUnwatched show watched (str " SHOW") [] [] in
  (CaughtUp r, n_Hash r, FileIndex r, Code r, LastWatched r) = (false, str "BB", 1, str "S02E01", Some (mkRef 1 2 true)) ∧
  RemainingUnwatched r = len (List.filter unwatched (candidates show watched (str " SHOW") [] [])).
Proof.
  split; [vm_compute; reflexivity|]. apply (next_unwatched show watched (str " SHOW") [] []).
  intros s f Hs Hf. assert (Hall : forallb (λ s, forallb (λ f, match f with Some f => (0 <=? fs_Id f) && (fs_Id f <? two63) | None => true end) (Files s)) show = true)
    by (vm_compute; reflexivity).
  rewrite forallb_forall in Hall. specialize (Hall s (proj1 (list_elem_of_In _ _) Hs)). rewrite forallb_forall in Hall.
  specialize (Hall _ (proj1 (list_elem_of_In _ _) Hf)). cbv beta iota in Hall. unfold in_number. zlia.
Defined.

(** ** The printed code is read back *)

Section Roundtrip.
Context (text : list Z).

Lemma UpTo_greedy n ds rest i g k r : (length ds ≤ n)%nat → ds ≠ [] → Forall (λ c, is_digit c = true) ds →
  match rest with c :: _ => is_digit c = false | [] => True end →
  k (i + len ds) rest g = Some r → matches text (UpTo n digit) i (ds ++ rest) g k = Some r.
Proof.
  revert n i. induction ds as [|d ds IH]; intros n i Hn Hne Hd Hr Hk; [done|]. apply Forall_cons in Hd as [Hd Hds].
  destruct n as [|n]; [cbn in Hn; lia|]. assert (Hk' : k (i + 1 + len ds) rest g = Some r).
  { rewrite <- Hk. f_equal. unfold len. cbn [length]. lia. }
  destruct ds as [|d' ds'].
  - replace (i + 1 + len []) with (i + 1) in Hk' by (unfold len; cbn; lia). destruct n as [|n]; cbn [UpTo matches app digit Opt]; rewrite Hd; [done|].
    destruct n as [|n]; cbn [UpTo matches digit Opt]; (destruct rest as [|c rest]; [done|]); by rewrite Hr.
  - destruct n as [|n]; [cbn in Hn; lia|]. specialize (IH (S n) (i + 1) ltac:(cbn in *; lia) ltac:(done) Hds Hr Hk').
    change (UpTo (S (S n)) digit) with (Seq digit (Opt (UpTo (S n) digit))). revert IH. generalize (UpTo (S n) digit). intros rest' IH.
    change ((d :: d' :: ds') ++ rest) with (d :: ((d' :: ds') ++ rest)). cbn [matches digit Opt]. by rewrite Hd, IH.
Qed.

Lemma joiner_stops a c rest i g k : (∀ x, matches text a i (c :: rest) g x = None) → matches text (Star true a) i (c :: rest) g k = k i (c :: rest) g.
Proof. intros H. cbn [matches length star_loop]. by rewrite H. Qed.

(** A match needs a digit as its second or third character. *)
Lemma no_match_here f R i s g k : is_digit (s !!! 1%nat) = false → is_digit (s !!! 2%nat) = false →
  matches text (Seq before (Seq (Char f) (Seq (Group 1 (UpTo 3 digit)) R))) i s g k = None.
Proof.
  assert (Hd : ∀ f i s g k, is_digit (s !!! 1%nat) = false → matches text (Seq (Char f) (Seq (Group 1 (UpTo 3 digit)) R)) i s g k = None).
  { clear. intros f i s g k. destruct s as [|a [|b s]]; cbn -[is_digit]; intros H; [done|by destruct (f a)|]. rewrite H. by destruct (f a). }
  intros H1 H2. specialize (Hd f). revert Hd. generalize (Seq (Char f) (Seq (Group 1 (UpTo 3 digit)) R)). intros b Hd.
  cbn [matches before]. rewrite Hd by done. destruct s as [|c s]; [by destruct (i =? 0)|]. rewrite Hd by done. by destruct (i =? 0), (negb _).
Qed.

Lemma find_skip r i pre rest : (∀ k, (k < length pre)%nat → matches text r (i + Z.of_nat k) (drop k pre ++ rest) [] (λ j _ g, Some (j, g)) = None) →
  find_from text r i (pre ++ rest) = find_from text r (i + len pre) rest.
Proof.
  revert i. induction pre as [|c pre IH]; intros i H; [cbn; by rewrite Z.add_0_r|]. pose proof (H 0%nat ltac:(cbn; lia)) as H0.
  rewrite Z.add_0_r in H0. cbn [drop app] in H0. cbn [find_from app]. rewrite H0, IH; [f_equal; unfold len; cbn [length]; lia|].
  intros k Hk. specialize (H (S k) ltac:(cbn; lia)). rewrite <- H. f_equal. lia.
Qed.
End Roundtrip.

Lemma runes_ascii s t : Forall (λ c, c < 128) s → runes (s ++ t) = s ++ runes t.
Proof. induction 1 as [|c s Hc _ IH]; [done|]. cbn [app runes]. rewrite (proj2 (Z.ltb_lt _ _)) by done. by rewrite IH. Qed.

(** The numbers as they are printed. *)
Lemma pad2_reads n : 1 <= n <= 9999 → atoi (pad2 n) = n ∧ pad2 n ≠ [] ∧ forallb is_digit (pad2 n) = true ∧ (length (pad2 n) ≤ if (n <=? 999)%Z then 3 else 4)%nat.
Proof.
  intros Hn. assert (Hall : forallb (λ k, let n := Z.of_nat k in (atoi (pad2 n) =? n) && negb (bool_decide (pad2 n = [])) && forallb is_digit (pad2 n)
    && (length (pad2 n) <=? if (n <=? 999)%Z then 3 else 4)%nat) (seq 1 (Z.to_nat 9999)) = true) by (vm_compute; reflexivity).
  rewrite forallb_forall in Hall. specialize (Hall (Z.to_nat n)). rewrite in_seq in Hall. specialize (Hall ltac:(lia)). cbv zeta in Hall.
  rewrite Z2Nat.id in Hall by lia. apply andb_true_iff in Hall as [[[H1%Z.eqb_eq H2%negb_true_iff%bool_decide_eq_false_1]%andb_true_iff H3]%andb_true_iff H4%Nat.leb_le].
  by split_and!.
Qed.

Lemma slice_middle {A} (a b c : list A) i j : i = len a → j = len a + len b → slice (a ++ b ++ c) i j = Some b.
Proof.
  intros -> ->. unfold slice, len. rewrite !length_app. replace (_ && _) with true by (symmetry; rewrite !andb_true_iff, !Z.leb_le; lia).
  rewrite Nat2Z.id, drop_app_length. replace (Z.to_nat (_ - _)) with (length b) by lia. by rewrite take_app_length.
Qed.

Lemma no_digits_at (l rest : list Z) n : Forall (λ c, is_digit c = false) l → (n < length l)%nat → is_digit ((l ++ rest) !!! n) = false.
Proof. intros Hl Hn. rewrite lookup_total_app_l by done. rewrite Forall_forall in Hl. apply Hl. by apply list_elem_of_lookup_total_2. Qed.

(** The code of an episode between two dots, behind text without digits. *)
Lemma code_found pre ds de post : Forall (λ c, is_digit c = false) pre →
  Forall (λ c, is_digit c = true) ds → (1 <= length ds <= 3)%nat → Forall (λ c, is_digit c = true) de → (1 <= length de <= 4)%nat →
  submatch reSxxExx (pre ++ 46 :: 83 :: ds ++ 69 :: de ++ 46 :: post) 2 = Some [ds; de].
Proof.
  intros Hpre Hds Hls Hde Hle. set (rest := 46 :: 83 :: ds ++ 69 :: de ++ 46 :: post). unfold submatch.
  rewrite find_skip.
  2:{ intros k Hk. assert (Hno : Forall (λ c, is_digit c = false) (drop k pre ++ [46; 83])) by (apply Forall_app; split; [by apply Forall_drop|by repeat constructor]).
      replace (drop k pre ++ rest) with ((drop k pre ++ [46; 83]) ++ ds ++ 69 :: de ++ 46 :: post) by (rewrite <- app_assoc; done).
      apply no_match_here; apply no_digits_at; try done; rewrite length_app, length_drop; cbn; lia. }
  set (text := pre ++ rest). set (i := 0 + len pre).
  set (p := i + 1 + 1). set (q := p + len ds). set (q' := q + 1). set (u := q' + len de).
  assert (Hm : matches text reSxxExx i rest [] (λ j _ g, Some (j, g)) = Some (u + 1, [(2%nat, (q', u)); (1%nat, (p, q))])).
  { unfold reSxxExx, before. cbn [matches Seqs]. replace (if i =? 0 then _ else None) with (@None (Z * groups)) by by destruct (i =? 0).
    unfold rest at 1. change (negb (alnum 46)) with true. cbv iota beta. unfold fold_char at 1. cbn [matches].
    change (bool_decide (83 ∈ folded 115)) with true. cbv iota beta. fold p.
    apply UpTo_greedy; [lia|by destruct ds; [cbn in Hls; lia|]|done|done|]. fold q.
    cbn [length star_loop one_of matches]. change (bool_decide (69 ∈ str ".-_ ")) with false. cbv iota beta.
    unfold fold_char at 1. cbn [matches]. change (bool_decide (69 ∈ folded 101)) with true. cbv iota beta. fold q'.
    apply UpTo_greedy; [lia|by destruct de; [cbn in Hle; lia|]|done|done|]. done. }
  assert (Hf : find_from text reSxxExx i rest = Some (mkFound i (u + 1) [(2%nat, (q', u)); (1%nat, (p, q))])) by (revert Hm; unfold rest; cbn [find_from]; by intros ->).
  rewrite Hf. change (Some [default [] (slice text p q); default [] (slice text q' u)] = Some [ds; de]). clear Hm Hf.
  replace text with ((pre ++ [46; 83]) ++ ds ++ 69 :: de ++ 46 :: post) by (unfold text, rest; by rewrite <- app_assoc).
  rewrite slice_middle by (unfold q, p, i, len; rewrite ?length_app; cbn [length]; lia).
  replace ((pre ++ [46; 83]) ++ ds ++ 69 :: de ++ 46 :: post) with ((pre ++ [46; 83] ++ ds ++ [69]) ++ de ++ 46 :: post) by (by rewrite <- !app_assoc).
  by rewrite slice_middle by (unfold u, q', q, p, i, len; rewrite ?length_app; cbn [length]; rewrite ?length_app; cbn [length]; lia).
Qed.

Lemma slashes_digits ds : Forall (λ c, is_digit c = true) ds → slashes ds = ds.
Proof.
  induction 1 as [|c ds Hc _ IH]; [done|]. unfold slashes in *. rewrite fmap_cons, IH. f_equal. unfold is_digit in Hc.
  destruct (c =? 92) eqn:E; [zlia|done].
Qed.

(** The characters searched in a path with a code. *)
Lemma code_runes pre ds de post : Forall (λ c, c < 128) pre → Forall (λ c, is_digit c = true) ds → Forall (λ c, is_digit c = true) de →
  runes (slashes (pre ++ 46 :: 83 :: ds ++ 69 :: de ++ 46 :: post)) = slashes pre ++ 46 :: 83 :: ds ++ 69 :: de ++ 46 :: runes (slashes post).
Proof.
  intros Hpre Hds Hde. assert (Hd : ∀ l, Forall (λ c, is_digit c = true) l → Forall (λ c, c < 128) l).
  { intros l Hl. eapply Forall_impl; [exact Hl|]. intros c Hc. unfold is_digit in Hc. zlia. }
  assert (Hp : Forall (λ c, c < 128) (slashes pre)).
  { apply Forall_fmap. eapply Forall_impl; [exact Hpre|]. intros c Hc. cbn. destruct (c =? 92); [lia|done]. }
  replace (slashes (pre ++ 46 :: 83 :: ds ++ 69 :: de ++ 46 :: post)) with ((slashes pre ++ [46; 83] ++ ds ++ [69] ++ de ++ [46]) ++ slashes post).
  - rewrite runes_ascii; [by rewrite <- !app_assoc|]. rewrite !Forall_app. split_and!; auto; by repeat constructor.
  - rewrite <- !app_assoc. unfold slashes. rewrite !fmap_app. cbn [fmap list_fmap]. rewrite !fmap_app. cbn [fmap list_fmap]. rewrite !fmap_app. cbn [fmap list_fmap].
    pose proof (slashes_digits ds Hds) as H1. pose proof (slashes_digits de Hde) as H2. unfold slashes in H1, H2. by rewrite H1, H2.
Qed.

(** The code the tools print for an episode is read as that season and episode from
    a path in which it stands between dots behind text without digits. *)
Theorem episode_roundtrip pre post s e : Forall (λ c, c < 128 ∧ is_digit c = false) pre → 1 <= s <= 999 → 1 <= e <= 9999 →
  ParseEpisode (pre ++ str "." ++ formatEpisodeCode s e ++ str "." ++ post) = (s, e, true).
Proof.
  intros Hpre Hs He. destruct (pad2_reads s) as (Hs1&Hs2&Hs3&Hs4); [lia|]. destruct (pad2_reads e) as (He1&He2&He3&He4); [lia|].
  rewrite (proj2 (Z.leb_le s 999)) in Hs4 by lia. unfold formatEpisodeCode. rewrite !(proj2 (Z.leb_gt _ 0)) by lia. cbn [andb].
  unfold ParseEpisode. rewrite bool_decide_false by (by destruct pre). cbv zeta.
  assert (Hd : ∀ l, forallb is_digit l = true → Forall (λ c, is_digit c = true) l).
  { intros l Hl. rewrite forallb_forall in Hl. apply Forall_forall. intros c Hc. by apply Hl, list_elem_of_In. }
  replace (pre ++ str "." ++ (str "S" ++ pad2 s ++ str "E" ++ pad2 e) ++ str "." ++ post)
    with (pre ++ 46 :: 83 :: pad2 s ++ 69 :: pad2 e ++ 46 :: post) by (rewrite <- !app_assoc; done).
  rewrite code_runes; [|eapply Forall_impl; [exact Hpre|]; by intros ? [? _]|by apply Hd|by apply Hd].
  assert (Hne : ∀ l : list Z, l ≠ [] → (1 <= length l)%nat) by (intros [|]; cbn; [done|lia]).
  rewrite code_found; [by rewrite Hs1, He1| |by apply Hd| |by apply Hd|].
  - apply Forall_fmap. eapply Forall_impl; [exact Hpre|]. intros c [_ Hc]. cbn. by destruct (c =? 92).
  - by split; [apply Hne|].
  - split; [by apply Hne|]. destruct (e <=? 999); lia.
Qed.

Lemma episode_roundtrip_witness : Forall (λ c, c < 128 ∧ is_digit c = false) (str "Shows\Some Show") ∧
  ParseEpisode (str "Shows\Some Show" ++ str "." ++ formatEpisodeCode 2 117 ++ str "." ++ str "1920x1080.mkv") = (2, 117, true).
Proof.
  assert (Hpre : Forall (λ c, c < 128 ∧ is_digit c = false) (str "Shows\Some Show")) by (by apply (bool_decide_eq_true_1 (Forall _ _))).
  split; [exact Hpre|]. by apply (episode_roundtrip _ _ 2 117).
Defined.

(** A word that ends in "ep" counts as the mark of an episode, so that the year of a film
    is taken for its number. *)
Lemma ep_within_word : ParseEpisode (str "Sleep.2014.1080p.mkv") = (0, 2014, true).
Proof. vm_compute. reflexivity. Qed.
