(* ===== verification/Database.v ===== *)
(** * The database of the settings and its cache
      ([server/settings/torrserverdb.go], [dbreadcache.go])

    What the server remembers is kept in databases, all behind one interface, [TorrServerDB]:
    entries, a text each, by path and name.  The class [LawfulDB] states what an
    implementation promises of them.  In front of the databases stands a cache of what was
    read, [DBReadCache]; over any lawful database it is a map from paths and names to
    entries ([spec_call]), as long as one call follows the other
    ([cache_is_map]); calls that overlap can leave an old text, or an old list, behind
    ([stale_text], [stale_list]). *)

From S2P Require Import Prelude GoText.
#[local] Open Scope Z_scope.

(** ** The interface

    An absent entry is a nil slice in the program and [None] here.  A call may panic: a
    closed database is a nil pointer. *)
Class TorrServerDB (D : Type) := {
  CloseDB : D → outcome D;
  Get : bytes → bytes → D → outcome (option bytes);
  Put : bytes → bytes → bytes → D → outcome D;
  Names : bytes → D → outcome (list bytes);
  Rem : bytes → bytes → D → outcome D;
  Clear : bytes → D → outcome D;
}.

(** What a path holds: its entries by name. *)
Notation entries := (gmap (list Z) (list Z)).

Definition names (m : entries) : list bytes := (map_to_list m).*1.

(** The promise, for the paths the database tells apart ([known]), the entries it can hold
    ([fits]) and texts it may write differently ([alike]), while it is open and its storage
    works ([ready]). *)
Class LawfulDB (D : Type) {O : TorrServerDB D} := {
  ready : D → Prop;
  known : bytes → Prop;
  fits : bytes → bytes → Prop;
  alike : bytes → bytes → Prop;
  contents : D → bytes → entries;
  alike_equiv : Equivalence alike;
  Get_spec d x n : ready d → known x → Get x n d = Done (contents d x !! n);
  Names_spec d x : ready d → known x → ∃ l, Names x d = Done l ∧ l ≡ₚ names (contents d x);
  Put_spec d x n v : ready d → known x → fits n v →
    ∃ d' w, Put x n v d = Done d' ∧ ready d' ∧ alike v w ∧ contents d' x = <[n:=w]> (contents d x) ∧
            ∀ y, known y → y ≠ x → contents d' y = contents d y;
  Rem_spec d x n : ready d → known x →
    ∃ d', Rem x n d = Done d' ∧ ready d' ∧ contents d' x = delete n (contents d x) ∧
          ∀ y, known y → y ≠ x → contents d' y = contents d y;
  Clear_spec d x : ready d → known x →
    ∃ d', Clear x d = Done d' ∧ ready d' ∧ contents d' x = ∅ ∧
          ∀ y, known y → y ≠ x → contents d' y = contents d y;
  CloseDB_spec d : ready d → ∃ d', CloseDB d = Done d';
}.
#[export] Existing Instance alike_equiv.

(** ** The cache *)

Section DBReadCache.
Context {D : Type} `{!TorrServerDB D}.

(** Nil maps are [None], as is the nil interface of a closed cache.  A cached text may be
    nil: it says that there is no entry. *)
Record DBReadCache := mkDBReadCache {
  db : option D;
  listCache : option (gmap bytes (list bytes));
  dataCache : option (gmap (bytes * bytes) (option bytes));
}.

Definition NewDBReadCache (d : D) : DBReadCache := mkDBReadCache (Some d) (Some ∅) (Some ∅).

(** The sections between locks. *)
Definition fill_data (x n : bytes) (data : option bytes) (c : DBReadCache) : DBReadCache :=
  mkDBReadCache (db c) (listCache c) (insert (x, n) data <$> dataCache c).
Definition drop_data (x n : bytes) (c : DBReadCache) : DBReadCache :=
  mkDBReadCache (db c) (listCache c) (delete (x, n) <$> dataCache c).
Definition fill_list (x : bytes) (l : list bytes) (c : DBReadCache) : DBReadCache :=
  mkDBReadCache (db c) (insert x l <$> listCache c) (dataCache c).
Definition drop_list (x : bytes) (c : DBReadCache) : DBReadCache :=
  mkDBReadCache (db c) (delete x <$> listCache c) (dataCache c).
Definition drop_path (x : bytes) (c : DBReadCache) : DBReadCache :=
  mkDBReadCache (db c) (listCache c) (filter (λ kv, kv.1.1 ≠ x) <$> dataCache c).
Definition on_db (f : D → outcome D) (c : DBReadCache) : outcome DBReadCache :=
  match db c with
  | Some d => d' ← f d; Done (mkDBReadCache (Some d') (listCache c) (dataCache c))
  | None => Panic
  end.

Definition cached_data (x n : bytes) (c : DBReadCache) : option (option bytes) :=
  m ← dataCache c; m !! (x, n).
Definition cached_list (x : bytes) (c : DBReadCache) : option (list bytes) :=
  m ← listCache c; m !! x.

Definition cache_CloseDB (c : DBReadCache) : outcome DBReadCache :=
  match db c with
  | Some d => _ ← CloseDB d; Done (mkDBReadCache None None None)
  | None => Panic
  end.

Definition cache_Get (x n : bytes) (c : DBReadCache) : outcome (option bytes * DBReadCache) :=
  match dataCache c with
  | None => Done (None, c)
  | Some _ =>
      match cached_data x n c, db c with
      | Some data, _ => Done (data, c)
      | None, None => Done (None, c)
      | None, Some d => data ← Get x n d; Done (data, fill_data x n data c)
      end
  end.

Definition cache_List (x : bytes) (c : DBReadCache) : outcome (list bytes * DBReadCache) :=
  match listCache c with
  | None => Done ([], c)
  | Some _ =>
      match cached_list x c, db c with
      | Some l, _ => Done (l, c)
      | None, None => Done ([], c)
      | None, Some d => l ← Names x d; Done (l, fill_list x l c)
      end
  end.

(** A cache that is closed has neither map nor database. *)
Definition open (c : DBReadCache) : bool :=
  match dataCache c, db c with Some _, Some _ => true | _, _ => false end.

Context (ReadOnly : bool).

Definition cache_Set (x n v : bytes) (c : DBReadCache) : outcome DBReadCache :=
  if ReadOnly then Done c else if negb (open c) then Done c else
  on_db (Put x n v) (drop_list x (fill_data x n (Some v) c)).

Definition cache_Rem (x n : bytes) (c : DBReadCache) : outcome DBReadCache :=
  if ReadOnly then Done c else if negb (open c) then Done c else
  on_db (Rem x n) (drop_list x (drop_data x n c)).

Definition cache_Clear (x : bytes) (c : DBReadCache) : outcome DBReadCache :=
  if ReadOnly then Done c else
  c' ← (if db c then on_db (Clear x) c else Done c);
  Done (drop_path x (drop_list x c')).

(** ** Calls *)

Inductive call :=
| CGet (x n : bytes) | CSet (x n v : bytes) | CList (x : bytes)
| CRem (x n : bytes) | CClear (x : bytes) | CClose.

Inductive db_answer := Data (o : option bytes) | Listed (l : list bytes) | Nothing.

Definition db_perform (k : call) (c : DBReadCache) : outcome (db_answer * DBReadCache) :=
  match k with
  | CGet x n => '(o, c') ← cache_Get x n c; Done (Data o, c')
  | CSet x n v => c' ← cache_Set x n v c; Done (Nothing, c')
  | CList x => '(l, c') ← cache_List x c; Done (Listed l, c')
  | CRem x n => c' ← cache_Rem x n c; Done (Nothing, c')
  | CClear x => c' ← cache_Clear x c; Done (Nothing, c')
  | CClose => c' ← cache_CloseDB c; Done (Nothing, c')
  end.

Fixpoint db_perform_all (ks : list call) (c : DBReadCache) : outcome (list db_answer * DBReadCache) :=
  match ks with
  | [] => Done ([], c)
  | k :: ks => '(a, c1) ← db_perform k c; '(l, c2) ← db_perform_all ks c1; Done (a :: l, c2)
  end.

(** ** The specification: a map, gone once it is closed

    Closing twice panics, since the first closing leaves a nil interface. *)
Notation book := (option (bytes → entries)).

Definition revise (x : bytes) (f : entries → entries) (m : bytes → entries) : bytes → entries :=
  λ y, if decide (y = x) then f (m x) else m y.
Definition edit (f : (bytes → entries) → (bytes → entries)) (b : book) : book :=
  if ReadOnly then b else f <$> b.

Definition spec_call (k : call) (b : book) : outcome (db_answer * book) :=
  match k with
  | CGet x n => Done (Data (m ← b; m x !! n), b)
  | CSet x n v => Done (Nothing, edit (revise x <[n:=v]>) b)
  | CList x => Done (Listed (default [] (m ← b; Some (names (m x)))), b)
  | CRem x n => Done (Nothing, edit (revise x (delete n)) b)
  | CClear x => Done (Nothing, edit (revise x (λ _, ∅)) b)
  | CClose => match b with Some _ => Done (Nothing, None) | None => Panic end
  end.

Fixpoint spec_calls (ks : list call) (b : book) : outcome (list db_answer * book) :=
  match ks with
  | [] => Done ([], b)
  | k :: ks => '(a, b1) ← spec_call k b; '(l, b2) ← spec_calls ks b1; Done (a :: l, b2)
  end.
End DBReadCache.
Arguments DBReadCache : clear implicits.
Arguments mkDBReadCache {D} _ _ _.

(** ** A database in memory

    The least lawful database: the entries by path and name, and whether it is closed. *)
Record memory := mkMemory { held : gmap bytes entries; closed : bool }.
#[export] Instance memory_DB : TorrServerDB memory := {
  CloseDB d := Done (mkMemory (held d) true);
  Get x n d := if closed d then Panic else Done (default ∅ (held d !! x) !! n);
  Put x n v d := if closed d then Panic else Done (mkMemory (<[x:=<[n:=v]> (default ∅ (held d !! x))]> (held d)) false);
  Names x d := if closed d then Panic else Done (names (default ∅ (held d !! x)));
  Rem x n d := if closed d then Panic else Done (mkMemory (<[x:=delete n (default ∅ (held d !! x))]> (held d)) false);
  Clear x d := if closed d then Panic else Done (mkMemory (<[x:=∅]> (held d)) false);
}.

Definition blank : memory := mkMemory ∅ false.

(** ** Entries up to the way they are written *)

Lemma names_perm (m k : entries) : (∀ n, is_Some (m !! n) ↔ is_Some (k !! n)) → names m ≡ₚ names k.
Proof.
  intros H. apply NoDup_Permutation; try apply NoDup_fst_map_to_list.
  intros n. unfold names. rewrite !list_elem_of_fmap. split; intros ([n' v]&->&Hv); simpl in *;
    apply elem_of_map_to_list in Hv; edestruct (H n') as [H1 H2].
  - destruct H1 as [w Hw]; [by eauto|]. exists (n', w). split; [done|]. by apply elem_of_map_to_list.
  - destruct H2 as [w Hw]; [by eauto|]. exists (n', w). split; [done|]. by apply elem_of_map_to_list.
Qed.

Lemma names_elem (m : entries) n : n ∈ names m ↔ is_Some (m !! n).
Proof.
  unfold names. rewrite list_elem_of_fmap. split.
  - intros ([n' v]&->&Hv). apply elem_of_map_to_list in Hv. by eexists.
  - intros [v Hv]. exists (n, v). split; [done|]. by apply elem_of_map_to_list.
Qed.

(** Two outcomes that end alike. *)
Definition both {A B} (R : A → B → Prop) (o : outcome A) (p : outcome B) : Prop :=
  match o, p with Done a, Done b => R a b | Panic, Panic => True | _, _ => False end.

Lemma both_bind {A B A' B'} (R : A → B → Prop) (S : A' → B' → Prop) o p f g :
  both R o p → (∀ a b, R a b → both S (f a) (g b)) → both S (a ← o; f a) (b ← p; g b).
Proof. destruct o, p; simpl; naive_solver. Qed.

(** ** The database in memory is lawful *)

#[export, refine] Instance memory_lawful : LawfulDB memory := {
  ready d := closed d = false;
  known _ := True;
  fits _ _ := True;
  alike := eq;
  contents d x := default ∅ (held d !! x);
}.
Proof.
  all: intros; simpl in *; try match goal with H : closed _ = false |- _ => rewrite H end; simplify_eq; eauto.
  - eexists _, v. repeat split; simpl; [by rewrite lookup_insert_eq|]. intros y _ Hy. by rewrite lookup_insert_ne by done.
  - eexists. repeat split; simpl; [by rewrite lookup_insert_eq|]. intros y _ Hy. by rewrite lookup_insert_ne by done.
  - eexists. repeat split; simpl; [by rewrite lookup_insert_eq|]. intros y _ Hy. by rewrite lookup_insert_ne by done.
Defined.

(** ** The cache is a map *)

Section Refinement.
Context {D : Type} {O : TorrServerDB D} {L : LawfulDB D}.

Definition like : option bytes → option bytes → Prop := option_Forall2 alike.
Definition same (m k : entries) : Prop := ∀ n, like (m !! n) (k !! n).

#[local] Instance like_equiv : Equivalence like.
Proof. unfold like. split; apply _. Qed.

Lemma same_names m k : same m k → names m ≡ₚ names k.
Proof. intros H. apply names_perm. intros n. destruct (H n); split; intros []; eauto; done. Qed.

Lemma same_insert m k n v w : alike v w → same m k → same (<[n:=v]> m) (<[n:=w]> k).
Proof. intros Hv H i. destruct (decide (i = n)) as [->|Hn]; simplify_map_eq; [by constructor|apply H]. Qed.

Lemma same_delete m k n : same m k → same (delete n m) (delete n k).
Proof. intros H i. destruct (decide (i = n)) as [->|Hn]; simplify_map_eq; [by constructor|apply H]. Qed.

Definition call_ok (k : call) : Prop :=
  match k with
  | CGet x _ | CList x | CRem x _ | CClear x => known x
  | CSet x n v => known x ∧ fits n v
  | CClose => True
  end.

Definition answers (a b : db_answer) : Prop :=
  match a, b with
  | Data o, Data p => like o p
  | Listed l, Listed k => l ≡ₚ k
  | Nothing, Nothing => True
  | _, _ => False
  end.

(** A cache and the map it stands for. *)
Definition cached_ok (m : bytes → entries) (dc : gmap (bytes * bytes) (option bytes)) (lc : gmap bytes (list bytes)) : Prop :=
  (∀ x n o, known x → dc !! (x, n) = Some o → like o (m x !! n)) ∧
  (∀ x l, known x → lc !! x = Some l → l ≡ₚ names (m x)).
Definition stands (m : bytes → entries) (d : D) : Prop := ready d ∧ ∀ x, known x → same (contents d x) (m x).
Definition agrees (c : DBReadCache D) (b : option (bytes → entries)) : Prop :=
  match b with
  | None => c = mkDBReadCache None None None
  | Some m => ∃ d lc dc, c = mkDBReadCache (Some d) (Some lc) (Some dc) ∧ stands m d ∧ cached_ok m dc lc
  end.

Lemma stands_revise m d d' x f e :
  stands m d → ready d' → contents d' x = e → same e (f (m x)) →
  (∀ y, known y → y ≠ x → contents d' y = contents d y) → stands (revise x f m) d'.
Proof.
  intros [_ Hm] Hr He Hs Hd. split; [done|]. intros y Hy. unfold revise. case_decide as E; simplify_eq; [done|].
  rewrite Hd by done. by apply Hm.
Qed.

(** What the cache keeps after the entries of a path changed by [f]. *)
Lemma cached_revise m dc lc dc' x f :
  cached_ok m dc lc →
  (∀ n o, dc' !! (x, n) = Some o → like o (f (m x) !! n)) →
  (∀ y n, y ≠ x → dc' !! (y, n) = dc !! (y, n) ∨ dc' !! (y, n) = None) →
  cached_ok (revise x f m) dc' (delete x lc).
Proof.
  intros [Hd Hl] Hx Hy. split.
  - intros y n o Hk Ho. unfold revise. case_decide as E; simplify_eq; [by apply Hx|].
    destruct (Hy y n E) as [Hn|Hn]; rewrite Hn in Ho; [by eapply Hd|done].
  - intros y l Hk H. unfold revise. apply lookup_delete_Some in H as [Hne H]. rewrite decide_False by done. by apply Hl.
Qed.

Context (ReadOnly : bool).

Definition step_ok (p : db_answer * DBReadCache D) (q : db_answer * option (bytes → entries)) : Prop :=
  answers p.1 q.1 ∧ agrees p.2 q.2.

Lemma get_ok x n c b : known x → agrees c b → both step_ok (db_perform ReadOnly (CGet x n) c) (spec_call ReadOnly (CGet x n) b).
Proof.
  intros Hx Hc. destruct b as [m|]; simpl in Hc; [|subst c; by (split; [try constructor|])].
  destruct Hc as (d&lc&dc&->&[Hr Hm]&[Hd Hl]). simpl. unfold cache_Get, cached_data. simpl.
  destruct (dc !! (x, n)) as [o|] eqn:E; simpl.
  - split; simpl; [by eapply Hd|]. eexists _, _, _. repeat split; eauto.
  - rewrite (Get_spec d x n) by done. simpl. split; simpl; [by apply Hm|]. eexists _, _, _. repeat split; eauto.
    intros y k o Hy Ho. destruct (decide ((x, n) = (y, k))) as [[= <- <-]|Hne]; simplify_map_eq; [by apply Hm|by eapply Hd].
Qed.

Lemma list_ok x c b : known x → agrees c b → both step_ok (db_perform ReadOnly (CList x) c) (spec_call ReadOnly (CList x) b).
Proof.
  intros Hx Hc. destruct b as [m|]; simpl in Hc; [|subst c; by (split; [try constructor|])].
  destruct Hc as (d&lc&dc&->&[Hr Hm]&[Hd Hl]). simpl. unfold cache_List, cached_list. simpl.
  destruct (lc !! x) as [l|] eqn:E; simpl.
  - split; simpl; [by apply Hl|]. eexists _, _, _. repeat split; eauto.
  - destruct (Names_spec d x Hr Hx) as (l&Hn&Hp). rewrite Hn. simpl.
    assert (l ≡ₚ names (m x)) as Hl' by (rewrite Hp; apply same_names, Hm, Hx).
    split; simpl; [done|]. eexists _, _, _. repeat split; eauto.
    intros y k Hy Ho. destruct (decide (x = y)) as [<-|Hne]; simplify_map_eq; [done|by eapply Hl].
Qed.

Lemma set_ok x n v c b : known x ∧ fits n v → agrees c b →
  both step_ok (db_perform ReadOnly (CSet x n v) c) (spec_call ReadOnly (CSet x n v) b).
Proof.
  intros [Hx Hv] Hc. simpl. unfold cache_Set, edit. destruct ReadOnly; [by split|].
  destruct b as [m|]; simpl in Hc; [|subst c; by (split; [try constructor|])].
  destruct Hc as (d&lc&dc&->&Hm&Hk). simpl.
  destruct (Put_spec d x n v (proj1 Hm) Hx Hv) as (d'&w&Hp&Hr&Hw&He&Ho).
  unfold on_db. simpl. rewrite Hp. simpl. split; [done|]. simpl. eexists _, _, _. split; [done|]. split.
  - eapply stands_revise; eauto. apply same_insert; [by symmetry|]. by apply Hm.
  - apply (cached_revise m dc); [done| |].
    + intros k o Ho'. destruct (decide (n = k)) as [<-|Hne]; simplify_map_eq; [reflexivity|].
      rewrite lookup_insert_ne in Ho' by congruence. by apply (proj1 Hk).
    + intros y k Hy. left. by rewrite lookup_insert_ne by congruence.
Qed.

Lemma rem_ok x n c b : known x → agrees c b →
  both step_ok (db_perform ReadOnly (CRem x n) c) (spec_call ReadOnly (CRem x n) b).
Proof.
  intros Hx Hc. simpl. unfold cache_Rem, edit. destruct ReadOnly; [by split|].
  destruct b as [m|]; simpl in Hc; [|subst c; by (split; [try constructor|])].
  destruct Hc as (d&lc&dc&->&Hm&Hk). simpl.
  destruct (Rem_spec d x n (proj1 Hm) Hx) as (d'&Hp&Hr&He&Ho).
  unfold on_db. simpl. rewrite Hp. simpl. split; [done|]. simpl. eexists _, _, _. split; [done|]. split.
  - eapply stands_revise; eauto. apply same_delete. by apply Hm.
  - apply (cached_revise m dc); [done| |].
    + intros k o Ho'. apply lookup_delete_Some in Ho' as [Hne Ho']. rewrite lookup_delete_ne by congruence. by apply (proj1 Hk).
    + intros y k Hy. left. by rewrite lookup_delete_ne by congruence.
Qed.

Lemma clear_ok x c b : known x → agrees c b →
  both step_ok (db_perform ReadOnly (CClear x) c) (spec_call ReadOnly (CClear x) b).
Proof.
  intros Hx Hc. simpl. unfold cache_Clear, edit. destruct ReadOnly; [by split|].
  destruct b as [m|]; simpl in Hc; [|subst c; by (split; [try constructor|])].
  destruct Hc as (d&lc&dc&->&Hm&Hk). simpl.
  destruct (Clear_spec d x (proj1 Hm) Hx) as (d'&Hp&Hr&He&Ho).
  unfold on_db. simpl. rewrite Hp. simpl. split; [done|]. simpl. eexists _, _, _. split; [done|]. split.
  - eapply stands_revise; eauto. intros k. reflexivity.
  - apply (cached_revise m dc); [done| |].
    + intros k o Ho'. by apply map_lookup_filter_Some in Ho' as [_ ?].
    + intros y k Hy. destruct (dc !! (y, k)) as [o|] eqn:E.
      * left. apply map_lookup_filter_Some. by split.
      * right. apply map_lookup_filter_None. by left.
Qed.

Lemma call_spec k c b : call_ok k → agrees c b → both step_ok (db_perform ReadOnly k c) (spec_call ReadOnly k b).
Proof.
  destruct k; intros Hk Hc.
  - by apply get_ok.
  - by apply set_ok.
  - by apply list_ok.
  - by apply rem_ok.
  - by apply clear_ok.
  - destruct b as [m|]; simpl in Hc; [|by subst c].
    destruct Hc as (d&lc&dc&->&[Hr _]&_). simpl. unfold cache_CloseDB. simpl.
    destruct (CloseDB_spec d Hr) as [d' ->]. by split.
Qed.

Lemma calls_spec ks c b : Forall call_ok ks → agrees c b →
  both (λ p q, Forall2 answers p.1 q.1 ∧ agrees p.2 q.2) (db_perform_all ReadOnly ks c) (spec_calls ReadOnly ks b).
Proof.
  intros Hks. revert c b. induction Hks as [|k ks Hk _ IH]; intros c b Hc; simpl; [by split|].
  eapply both_bind; [by apply call_spec|]. intros [a c1] [a' b1] [Ha H1].
  eapply both_bind; [by apply IH|]. intros [l c2] [l' b2] [Hl H2]. split; [by constructor|done].
Qed.

Lemma new_agrees d : ready d → agrees (NewDBReadCache d) (Some (contents d)).
Proof. intros Hd. eexists _, _, _. split; [done|]. repeat split; [done| |done|done]. intros x _ n. reflexivity. Qed.
End Refinement.

(** C11: Over any lawful database, the read cache is a map: whatever calls follow each other,
    on paths the database tells apart and with entries it can hold, each is answered as the map
    from paths and names to entries answers it, an entry up to the way the database writes
    it and a list up to its order; a read-only cache changes nothing, a closed one answers
    that there is nothing, and only closing it twice panics. *)
Theorem cache_is_map {D} {O : TorrServerDB D} {L : LawfulDB D} ReadOnly (d : D) (calls : list call) :
  ready d → Forall call_ok calls →
  match spec_calls ReadOnly calls (Some (contents d)) with
  | Done (expected, _) =>
      ∃ given c, db_perform_all ReadOnly calls (NewDBReadCache d) = Done (given, c) ∧ Forall2 answers given expected
  | _ => db_perform_all ReadOnly calls (NewDBReadCache d) = Panic
  end.
Proof.
  intros Hd Hc. pose proof (calls_spec ReadOnly calls _ _ Hc (new_agrees d Hd)) as H.
  destruct (db_perform_all _ _ _) as [[given c]| |], (spec_calls _ _ _) as [[expected b]| |]; try done.
  simpl in H. exists given, c. split; [done|]. apply H.
Qed.

Definition demo_calls : list call :=
  [CGet (str "Viewed") (str "a"); CSet (str "Viewed") (str "a") (str "{}"); CList (str "Viewed");
   CGet (str "Viewed") (str "a"); CRem (str "Viewed") (str "a"); CList (str "Viewed"); CClear (str "Torrents"); CClose;
   CGet (str "Viewed") (str "a")].

Definition demo_answers : list db_answer :=
  [Data None; Nothing; Listed [str "a"]; Data (Some (str "{}")); Nothing; Listed []; Nothing; Nothing; Data None].

Lemma cache_is_map_witness :
  ∃ given c, db_perform_all false demo_calls (NewDBReadCache blank) = Done (given, c) ∧ Forall2 answers given demo_answers.
Proof.
  assert (spec_calls false demo_calls (Some (contents blank)) = Done (demo_answers, None)) as E by (vm_compute; reflexivity).
  pose proof (cache_is_map false blank demo_calls eq_refl) as H. rewrite E in H. apply H. by repeat constructor.
Defined.

(** ** Calls that overlap

    A call reads the database between its two locked sections.  What it read may be written
    to the cache after another call changed it. *)

Definition viewed : bytes := str "Viewed".

(** Reading an entry overlaps writing it: the cache answers with the old text as long as
    nothing writes the entry again. *)
Lemma stale_text (x n v w : bytes) :
  let before := mkMemory {[x := {[n := v]}]} false in
  let reading := NewDBReadCache before in
  ∃ written, cache_Set false x n w reading = Done written ∧
  ∃ data, Get x n before = Done data ∧
  (* the reader, which found nothing in the cache and read the database before *)
  let after := fill_data x n data written in
  cache_Get x n after = Done (Some v, after) ∧
  ∃ d, db after = Some d ∧ Get x n d = Done (Some w).
Proof.
  simpl. eexists. split; [reflexivity|]. eexists. split; [reflexivity|]. simpl.
  unfold cache_Get, cached_data. simpl. rewrite !lookup_insert_eq. simpl. rewrite ?lookup_singleton_eq. simpl.
  rewrite ?lookup_insert_eq. simpl. rewrite lookup_singleton_eq.
  split; [done|]. eexists. split; [done|]. simpl. rewrite lookup_insert_eq. simpl. by rewrite lookup_insert_eq.
Qed.

(** Listing a path overlaps adding an entry, whose section on lists comes before the
    database is written: the entry stays out of the list. *)
Lemma stale_list (x n v : bytes) :
  let adding := drop_list x (fill_data x n (Some v) (NewDBReadCache blank)) in
  ∃ l listed, cache_List x adding = Done (l, listed) ∧
  ∃ after, on_db (Put x n v) listed = Done after ∧
  cache_List x after = Done ([], after) ∧ cache_Get x n after = Done (Some v, after).
Proof.
  simpl. unfold cache_List, cached_list, cache_Get, cached_data. simpl.
  eexists _, _. split; [reflexivity|]. eexists. split; [reflexivity|]. simpl.
  unfold fill_data, NewDBReadCache. simpl. rewrite !lookup_insert_eq. simpl. rewrite lookup_empty. done.
Qed.
