(* ===== verification/DatabaseRoute.v ===== *)
(** * Which database holds a path ([server/settings/xpathdbrouter.go])

    The router is a database made of others: routes, which are beginnings of paths, lead to
    them.  The longest route that a path begins with decides ([longest_route]); the first
    database registered takes what no other route asks for.  A router over lawful databases
    is lawful ([routed_lawful]), so the cache works over it as over any other. *)

From S2P Require Import Prelude GoText Episode Database.
#[local] Open Scope Z_scope.

(** Two kinds of databases stand behind the router: a call goes to whichever it is. *)
#[export] Instance sum_DB {A B} `{!TorrServerDB A, !TorrServerDB B} : TorrServerDB (A + B) := {
  CloseDB d := match d with inl a => inl <$> CloseDB a | inr b => inr <$> CloseDB b end;
  Get x n d := match d with inl a => Get x n a | inr b => Get x n b end;
  Put x n v d := match d with inl a => inl <$> Put x n v a | inr b => inr <$> Put x n v b end;
  Names x d := match d with inl a => Names x a | inr b => Names x b end;
  Rem x n d := match d with inl a => inl <$> Rem x n a | inr b => inr <$> Rem x n b end;
  Clear x d := match d with inl a => inl <$> Clear x a | inr b => inr <$> Clear x b end;
}.

Definition longer (a b : bytes) : bool := len b <? len a.

Section XPathDBRouter.
Context {FD : Folding} {SS : SliceSort longer}.

(** Databases are known by an address: registering one again is found out by it. *)
Record XPathDBRouter := mkRouter { dbs : list nat; routes : list bytes; route2db : gmap bytes nat }.

Definition NewXPathDBRouter : XPathDBRouter := mkRouter [] [] ∅.

Definition xPathToRoute (xPath : bytes) : bytes := ToLower (TrimSpace xPath).

Definition add_route (db : nat) (newRoute : bytes) (r : XPathDBRouter) : XPathDBRouter :=
  mkRouter (if bool_decide (db ∈ dbs r) then dbs r else dbs r ++ [db])
           (sort_slice longer (routes r ++ [newRoute]))
           (<[newRoute := db]> (route2db r)).

Definition register (again : nat → bytes → XPathDBRouter → bool * XPathDBRouter)
    (db : nat) (xPath : bytes) (r : XPathDBRouter) : bool * XPathDBRouter :=
  let newRoute := xPathToRoute xPath in
  if bool_decide (newRoute ∈ routes r) then (false, r) else
  let r := if bool_decide (dbs r = []) && bool_decide (newRoute ≠ []) then (again db [] r).2 else r in
  (true, add_route db newRoute r).

(** The function calls itself for the default route, which calls no further. *)
Definition RegisterRoute : nat → bytes → XPathDBRouter → bool * XPathDBRouter :=
  register (register (λ _ _ r, (false, r))).

Definition getDBForXPath (xPath : bytes) (r : XPathDBRouter) : option nat :=
  if bool_decide (dbs r = []) then None else
  let lookup_route := xPathToRoute xPath in
  route_prefix ← List.find (λ route_prefix, starts_with route_prefix lookup_route) (routes r);
  route2db r !! route_prefix.

(** The router with the databases it leads to. *)
Context {D : Type} `{!TorrServerDB D}.
Record routed := mkRouted { router : XPathDBRouter; stores : gmap nat D }.

Definition routed_db (xPath : bytes) (r : routed) : outcome (nat * D) :=
  i ← of_option (getDBForXPath xPath (router r));
  d ← of_option (stores r !! i);
  Done (i, d).

Definition on_route (xPath : bytes) (f : D → outcome D) (r : routed) : outcome routed :=
  '(i, d) ← routed_db xPath r; d' ← f d; Done (mkRouted (router r) (<[i := d']> (stores r))).

Fixpoint close_all (addrs : list nat) (st : gmap nat D) : outcome (gmap nat D) :=
  match addrs with
  | [] => Done st
  | i :: addrs => d ← of_option (st !! i); d' ← CloseDB d; close_all addrs (<[i := d']> st)
  end.

#[export] Instance routed_DB : TorrServerDB routed := {
  CloseDB r := st ← close_all (dbs (router r)) (stores r); Done (mkRouted NewXPathDBRouter st);
  Get x n r := '(_, d) ← routed_db x r; Get x n d;
  Put x n v := on_route x (Put x n v);
  Names x r := '(_, d) ← routed_db x r; Names x d;
  Rem x n := on_route x (Rem x n);
  Clear x := on_route x (Clear x);
}.
End XPathDBRouter.
Arguments routed : clear implicits.
Arguments mkRouted {D} _ _.

(** ** Routes *)

Section Routes.
Context {FD : Folding} {SS : SliceSort longer}.

Definition registered (regs : list (nat * bytes)) : XPathDBRouter :=
  foldl (λ r p, (RegisterRoute p.1 p.2 r).2) NewXPathDBRouter regs.

(** The routes in the order they are asked for, with the default route of the first
    database; of two that are equal the first counts. *)
Definition table (regs : list (nat * bytes)) : list (bytes * nat) :=
  match regs with
  | [] => []
  | p :: _ => (if bool_decide (xPathToRoute p.2 = []) then [] else [([], p.1)]) ++ ((λ p, (xPathToRoute p.2, p.1)) <$> regs)
  end.

Fixpoint first_of (rt : bytes) (t : list (bytes * nat)) : option nat :=
  match t with [] => None | (p, i) :: t => if bool_decide (p = rt) then Some i else first_of rt t end.

(** What the router holds once the routes of a table are in it. *)
Record holds (r : XPathDBRouter) (t : list (bytes * nat)) : Prop := {
  holds_dbs : dbs r = [] ↔ t = [];
  holds_routes : ∀ rt, rt ∈ routes r ↔ is_Some (first_of rt t);
  holds_map : ∀ rt, route2db r !! rt = first_of rt t;
  holds_sorted : StronglySorted (λ a b, longer b a = false) (routes r);
  holds_stores : ∀ rt i, route2db r !! rt = Some i → i ∈ dbs r;
  holds_once : NoDup (dbs r);
  holds_from : ∀ i, i ∈ dbs r → i ∈ t.*2;
}.

Lemma first_of_app rt t k : first_of rt (t ++ k) = match first_of rt t with Some i => Some i | None => first_of rt k end.
Proof. induction t as [|[p i] t IH]; simpl; [done|]. by case_bool_decide. Qed.

Lemma first_of_elem rt t : is_Some (first_of rt t) ↔ rt ∈ t.*1.
Proof.
  induction t as [|[p i] t IH]; simpl.
  - split; [intros []; done|]. intros Hrt. by apply elem_of_nil in Hrt.
  - rewrite elem_of_cons. case_bool_decide as E; subst; [split; eauto|]. rewrite IH. split; [by right|intros [->|?]; done].
Qed.

Lemma starts_with_prefix p s : starts_with p s = true ↔ p `prefix_of` s.
Proof.
  unfold starts_with. rewrite bool_decide_eq_true. revert s.
  induction p as [|c p IH]; intros s; simpl.
  - split; [intros _; apply prefix_nil|eauto].
  - destruct s as [|e s]; [split; [by intros []|by intros ?%prefix_nil_inv]|].
    destruct (c =? e) eqn:E; reflect_bools.
    + subst e. rewrite IH. split; [apply prefix_cons|apply prefix_cons_inv_2].
    + split; [by intros []|intros Hp]. by apply prefix_cons_inv_1 in Hp.
Qed.

Lemma sorted_longer l : StronglySorted (λ a b, longer b a = false) (sort_slice longer l).
Proof.
  apply Sorted_StronglySorted; [|apply (sort_slice_sorted longer)]. unfold longer. intros a b c Hab Hbc. zlia.
Qed.

Lemma new_holds : holds NewXPathDBRouter [].
Proof. split; try done; try constructor. - by intros ?%elem_of_nil. - by intros []. Qed.

Lemma add_route_holds db rt r t : holds r t → first_of rt t = None → holds (add_route db rt r) (t ++ [(rt, db)]).
Proof.
  intros [Hd Hr Hm Hs Hi Ho Hf] Ht. split; simpl.
  - split; [|by destruct t]. case_bool_decide as E; [|by destruct (dbs r)]. intros Hn. rewrite Hn in E. by apply elem_of_nil in E.
  - intros p. rewrite (sort_slice_perm longer), elem_of_app, Hr, first_of_app, list_elem_of_singleton.
    destruct (first_of p t) eqn:E; [naive_solver|]. simpl. case_bool_decide as Ep; subst; [split; eauto|].
    split; [intros [[]|]; done|by intros []].
  - intros p. rewrite first_of_app. simpl. destruct (decide (p = rt)) as [->|Hne].
    + by rewrite lookup_insert_eq, Ht, bool_decide_eq_true_2.
    + rewrite lookup_insert_ne, Hm, bool_decide_eq_false_2 by done. by destruct (first_of p t).
  - apply sorted_longer.
  - intros p i Hp. destruct (decide (p = rt)) as [->|Hne]; simplify_map_eq.
    + case_bool_decide; [done|]. apply elem_of_app. right. by apply list_elem_of_singleton.
    + case_bool_decide; [by eapply Hi|]. apply elem_of_app. left. by eapply Hi.
  - case_bool_decide; [done|]. apply NoDup_app. repeat split; [done| |apply NoDup_singleton].
    intros i Hin ->%list_elem_of_singleton. done.
  - intros i. rewrite fmap_app, elem_of_app. case_bool_decide; [naive_solver|].
    intros [Hin|Hin]%elem_of_app; [left; by apply Hf|by right].
Qed.

Lemma dup_holds db rt r t : holds r t → is_Some (first_of rt t) → holds r (t ++ [(rt, db)]).
Proof.
  intros [Hd Hr Hm Hs Hi Ho Hf] Ht.
  assert (∀ p, first_of p (t ++ [(rt, db)]) = first_of p t) as E.
  { intros p. rewrite first_of_app. simpl. case_bool_decide; subst; [by destruct Ht as [i ->]|]. by destruct (first_of p t). }
  split; try done.
  - rewrite Hd. split; [intros ->; by destruct Ht|by destruct t].
  - intros p. by rewrite E.
  - intros p. by rewrite E.
  - intros i Hin. rewrite fmap_app, elem_of_app. left. by apply Hf.
Qed.

Hypothesis ToLower_nil : ToLower [] = [].

Lemma route_nil : xPathToRoute [] = [].
Proof. exact ToLower_nil. Qed.

(** A registration adds its route, and the default route to a router that has none. *)
Lemma RegisterRoute_holds db x r t : holds r t →
  holds (RegisterRoute db x r).2
    (t ++ (if bool_decide (t = []) && negb (bool_decide (xPathToRoute x = [])) then [([], db)] else []) ++ [(xPathToRoute x, db)]).
Proof.
  intros Ht. pose proof Ht as [Hd Hr _ _ _ _ _]. unfold RegisterRoute. set (again := register (λ _ _ r, (false, r))). unfold register at 1. cbv zeta.
  rewrite (bool_decide_ext _ _ (Hr _)). case_bool_decide as E; simpl.
  - destruct t as [|p t]; [by destruct E|]. by apply dup_holds.
  - rewrite (bool_decide_ext _ _ Hd), bool_decide_not. destruct (_ && _) eqn:B; simpl.
    + apply andb_true_iff in B as [->%bool_decide_eq_true Bx]. apply negb_true_iff, bool_decide_eq_false in Bx.
      subst again. unfold register. cbv zeta. rewrite route_nil, (bool_decide_ext _ _ (Hr [])), bool_decide_eq_false_2 by by intros [].
      rewrite bool_decide_not, (bool_decide_eq_true_2 (@nil Z = [])) by done. rewrite andb_false_r. simpl.
      apply (add_route_holds _ _ _ [([], db)]); [by apply (add_route_holds _ _ _ [])|]. simpl. by rewrite bool_decide_eq_false_2 by done.
    + apply add_route_holds; [done|]. destruct (first_of (xPathToRoute x) t); [by destruct E|done].
Qed.

Lemma registered_holds regs : holds (registered regs) (table regs).
Proof.
  destruct regs as [|[db x] regs]; [apply new_holds|]. unfold registered. simpl.
  assert (∀ r t, holds r t → t ≠ [] →
    holds (foldl (λ r p, (RegisterRoute p.1 p.2 r).2) r regs) (t ++ ((λ p, (xPathToRoute p.2, p.1)) <$> regs))) as Hall.
  { induction regs as [|[i y] regs IH]; intros r t Ht Hn; simpl; [by rewrite app_nil_r|].
    rewrite cons_middle, app_assoc. apply IH; [|by destruct t].
    pose proof (RegisterRoute_holds i y r t Ht) as Hs. by rewrite (bool_decide_eq_false_2 (t = [])) in Hs by done. }
  pose proof (RegisterRoute_holds db x _ _ new_holds) as H1. simpl in H1.
  rewrite cons_middle, app_assoc. destruct (bool_decide (xPathToRoute x = [])); apply Hall; done.
Qed.
Lemma find_longest (f : bytes → bool) l q : StronglySorted (λ a b, longer b a = false) l → q ∈ l → f q = true →
  ∃ p, List.find f l = Some p ∧ f p = true ∧ p ∈ l ∧ ∀ k, k ∈ l → f k = true → len k <= len p.
Proof.
  induction 1 as [|a l Hs IH Ha]; intros Hq Hf; [by apply elem_of_nil in Hq|]. simpl. destruct (f a) eqn:E.
  - exists a. repeat split; [done|by left|]. rewrite Forall_forall in Ha. unfold longer in Ha.
    intros k [->|Hk]%elem_of_cons _; [lia|]. specialize (Ha k Hk). zlia.
  - apply elem_of_cons in Hq as [->|Hq]; [congruence|]. destruct (IH Hq Hf) as (p&Hp&Hfp&Hin&Hmax).
    exists p. repeat split; [done|done|by right|]. intros k [->|Hk]%elem_of_cons Hfk; [congruence|by apply Hmax].
Qed.

Lemma table_default regs : regs ≠ [] → [] ∈ (table regs).*1.
Proof.
  destruct regs as [|[i x] regs]; [done|]. intros _. simpl. case_bool_decide as E; simpl; [rewrite E|]; left.
Qed.

Lemma getDB_spec x r t : holds r t → [] ∈ t.*1 →
  ∃ p i, getDBForXPath x r = Some i ∧ i ∈ dbs r ∧ p `prefix_of` xPathToRoute x ∧ first_of p t = Some i ∧
    ∀ q, q ∈ t.*1 → q `prefix_of` xPathToRoute x → len q <= len p.
Proof.
  intros [Hd Hr Hm Hs Hi _ _] Hn.
  assert (∀ q, q ∈ routes r ↔ q ∈ t.*1) as Hq by (intros q; by rewrite Hr, first_of_elem).
  destruct (find_longest (λ p, starts_with p (xPathToRoute x)) (routes r) [] Hs) as (p&Hp&Hfp&Hin&Hmax);
    [by apply Hq|by apply starts_with_prefix, prefix_nil|].
  unfold getDBForXPath. rewrite bool_decide_eq_false_2, Hp; [|rewrite Hd; intros ->; by apply elem_of_nil in Hn]. simpl.
  pose proof (proj1 (Hr p) Hin) as [i Hpi]. exists p, i. rewrite Hm, Hpi. apply starts_with_prefix in Hfp. split_and!; [done| |done|done|].
  - eapply Hi. by rewrite Hm.
  - intros q Hqt Hqx. apply Hmax; [by apply Hq|by apply starts_with_prefix].
Qed.

(** Once a database is registered, every path is led to one: that of the longest
    registered route the path begins with, as far as letters and surrounding blanks do not
    matter.  A route registered again keeps its database, and the first database also holds
    the default route. *)
Theorem longest_route (regs : list (nat * bytes)) (xPath : bytes) :
  regs ≠ [] →
  ∃ route i, getDBForXPath xPath (registered regs) = Some i ∧
    route `prefix_of` xPathToRoute xPath ∧ first_of route (table regs) = Some i ∧
    ∀ other, other ∈ (table regs).*1 → other `prefix_of` xPathToRoute xPath → len other <= len route.
Proof.
  intros Hn. destruct (getDB_spec xPath _ _ (registered_holds regs) (table_default regs Hn)) as (p&i&Hg&_&H).
  by exists p, i.
Qed.
End Routes.

(** ** A router over lawful databases is lawful *)

Section Lawful.
Context {FD : Folding} {SS : SliceSort longer}.
Context {D : Type} {O : TorrServerDB D} {L : LawfulDB D}.

Definition led (x : bytes) (r : routed D) : option D := i ← getDBForXPath x (router r); stores r !! i.

Record routed_ready (r : routed D) : Prop := {
  rr_led : ∀ x, is_Some (led x r);
  rr_ready : ∀ i d, stores r !! i = Some d → ready d;
  rr_there : ∀ i, i ∈ dbs (router r) → is_Some (stores r !! i);
  rr_once : NoDup (dbs (router r));
}.

Definition routed_contents (r : routed D) (x : bytes) : entries :=
  match led x r with Some d => contents d x | None => ∅ end.

Lemma routed_dbE x r : routed_ready r →
  ∃ i d, routed_db x r = Done (i, d) ∧ getDBForXPath x (router r) = Some i ∧ stores r !! i = Some d ∧
    ready d ∧ routed_contents r x = contents d x.
Proof.
  intros [Hl Hr _ _]. destruct (Hl x) as [d Hd]. unfold routed_contents. rewrite Hd. unfold led in Hd.
  destruct (getDBForXPath x (router r)) as [i|] eqn:E; [|done]. simpl in Hd. exists i, d.
  unfold routed_db. rewrite E. simpl. rewrite Hd. repeat split; try done. by eapply Hr.
Qed.

Lemma on_route_spec (x : bytes) (f : D → outcome D) (r : routed D) (P : entries → entries → Prop) : routed_ready r →
  (∀ d, ready d → ∃ d', f d = Done d' ∧ ready d' ∧ P (contents d x) (contents d' x) ∧
                  ∀ y, known y → y ≠ x → contents d' y = contents d y) →
  ∃ r', on_route x f r = Done r' ∧ routed_ready r' ∧ P (routed_contents r x) (routed_contents r' x) ∧
    ∀ y, known y → y ≠ x → routed_contents r' y = routed_contents r y.
Proof.
  intros Hrr Hf. destruct (routed_dbE x r Hrr) as (i&d&Hdb&Hi&Hd&Hrd&Hc).
  destruct (Hf d Hrd) as (d'&Hfd&Hd'&HP&Hy). unfold on_route. rewrite Hdb. simpl. rewrite Hfd. simpl.
  eexists. split; [done|]. pose proof Hrr as [Hl Hr Ht Ho].
  assert (∀ y j, getDBForXPath y (router r) = Some j → led y (mkRouted (router r) (<[i:=d']> (stores r))) = if decide (i = j) then Some d' else stores r !! j) as Hled.
  { intros y j Hj. unfold led. simpl. rewrite Hj. simpl. case_decide; subst; simplify_map_eq; done. }
  split; [split; simpl; [|intros j e|intros j Hj|done]|split].
  - intros y. destruct (Hl y) as [e He]. unfold led in He. destruct (getDBForXPath y (router r)) as [j|] eqn:E; [|done].
    rewrite (Hled y j E). case_decide; eauto.
  - intros He. destruct (decide (i = j)); simplify_map_eq; [done|by eapply Hr].
  - destruct (decide (i = j)); simplify_map_eq; eauto.
  - rewrite Hc. unfold routed_contents. rewrite (Hled x i Hi). by rewrite decide_True.
  - intros y Hk Hne. unfold routed_contents. destruct (Hl y) as [e He]. rewrite He. unfold led in He.
    destruct (getDBForXPath y (router r)) as [j|] eqn:E; [|done]. simpl in He. rewrite (Hled y j E).
    case_decide; simplify_eq; [by apply Hy|by rewrite He].
Qed.

Lemma close_all_spec addrs (st : gmap nat D) : NoDup addrs → (∀ i, i ∈ addrs → ∃ d, st !! i = Some d ∧ ready d) →
  ∃ st', close_all addrs st = Done st'.
Proof.
  intros Hn. revert st. induction Hn as [|i addrs Hi _ IH]; intros st Hs; simpl; [by eexists|].
  destruct (Hs i) as (d&Hd&Hr); [by left|]. rewrite Hd. simpl. destruct (CloseDB_spec d Hr) as [d' Hc]. rewrite Hc. simpl.
  apply IH. intros j Hj. rewrite lookup_insert_ne by (intros ->; done). apply Hs. by right.
Qed.

#[export, refine] Instance routed_lawful : LawfulDB (routed D) := {
  ready := routed_ready;
  known := known;
  fits := fits;
  alike := alike;
  contents := routed_contents;
}.
Proof.
  - intros r x n Hr Hk. destruct (routed_dbE x r Hr) as (i&d&Hdb&_&_&Hd&->). simpl. rewrite Hdb. simpl. by apply Get_spec.
  - intros r x Hr Hk. destruct (routed_dbE x r Hr) as (i&d&Hdb&_&_&Hd&->). simpl. rewrite Hdb. simpl. by apply Names_spec.
  - intros r x n v Hr Hk Hv. simpl.
    destruct (on_route_spec x (Put x n v) r (λ m m', ∃ w, alike v w ∧ m' = <[n:=w]> m) Hr) as (r'&?&?&(w&?&?)&?); [|eauto 10].
    intros d Hd. destruct (Put_spec d x n v Hd Hk Hv) as (d'&w&?&?&?&?&?). eauto 10.
  - intros r x n Hr Hk. simpl.
    apply (on_route_spec x (Rem x n) r (λ m m', m' = delete n m) Hr). intros d Hd. by apply Rem_spec.
  - intros r x Hr Hk. simpl.
    apply (on_route_spec x (Clear x) r (λ m m', m' = ∅) Hr). intros d Hd. by apply Clear_spec.
  - intros r [_ Hr Ht Ho]. simpl. destruct (close_all_spec (dbs (router r)) (stores r) Ho) as [st Hst].
    { intros i Hi. destruct (Ht i Hi) as [d Hd]. eauto. }
    rewrite Hst. simpl. by eexists.
Defined.

Lemma table_from regs i : i ∈ (table regs).*2 → i ∈ regs.*1.
Proof.
  rewrite !list_elem_of_fmap. intros ([rt j]&->&Hj). destruct regs as [|p regs]; [by apply elem_of_nil in Hj|].
  unfold table in Hj. apply elem_of_app in Hj as [Hj|Hj].
  - exists p. split; [|by left]. case_bool_decide; [by apply elem_of_nil in Hj|]. apply list_elem_of_singleton in Hj. by simplify_eq.
  - apply list_elem_of_fmap in Hj as (q&[= -> ->]&Hq). by exists q.
Qed.

(** A router the registered databases of which are there and ready. *)
Lemma registered_ready regs (st : gmap nat D) : ToLower [] = [] → regs ≠ [] →
  (∀ i d, st !! i = Some d → ready d) → (∀ i, i ∈ regs.*1 → is_Some (st !! i)) →
  routed_ready (mkRouted (registered regs) st).
Proof.
  intros Hl Hn Hr Hs. pose proof (registered_holds Hl regs) as Hh.
  assert (∀ i, i ∈ dbs (registered regs) → is_Some (st !! i)) as Hthere.
  { intros i Hi. by apply Hs, table_from, (holds_from _ _ Hh). }
  split; simpl; [|done|done|apply Hh].
  intros x. destruct (getDB_spec x _ _ Hh (table_default regs Hn)) as (p&i&Hg&Hi&_).
  unfold led. simpl. rewrite Hg. simpl. by apply Hthere.
Qed.
End Lawful.

(** Either of two lawful databases is lawful on the paths and texts that suit both. *)
#[export, refine] Instance sum_lawful {A B} `{LA : LawfulDB A} `{LB : LawfulDB B} : LawfulDB (A + B) := {
  ready d := match d with inl a => ready a | inr b => ready b end;
  known x := known (D := A) x ∧ known (D := B) x;
  fits n v := fits (D := A) n v ∧ fits (D := B) n v;
  alike := rtsc (λ v w, alike (D := A) v w ∨ alike (D := B) v w);
  contents d := match d with inl a => contents a | inr b => contents b end;
}.
Proof.
  - intros [a|b] x n Hr [Ha Hb]; simpl; by apply Get_spec.
  - intros [a|b] x Hr [Ha Hb]; simpl; by apply Names_spec.
  - intros [a|b] x n v Hr [Ha Hb] [Va Vb]; simpl.
    + destruct (Put_spec a x n v Hr Ha Va) as (d'&w&->&?&?&?&Ho). exists (inl d'), w.
      split_and!; try done; [apply rtc_once; left; by left|]. intros y [Hy _]. by apply Ho.
    + destruct (Put_spec b x n v Hr Hb Vb) as (d'&w&->&?&?&?&Ho). exists (inr d'), w.
      split_and!; try done; [apply rtc_once; left; by right|]. intros y [_ Hy]. by apply Ho.
  - intros [a|b] x n Hr [Ha Hb]; simpl.
    + destruct (Rem_spec a x n Hr Ha) as (d'&->&?&?&Ho). exists (inl d'). split_and!; try done. intros y [Hy _]. by apply Ho.
    + destruct (Rem_spec b x n Hr Hb) as (d'&->&?&?&Ho). exists (inr d'). split_and!; try done. intros y [_ Hy]. by apply Ho.
  - intros [a|b] x Hr [Ha Hb]; simpl.
    + destruct (Clear_spec a x Hr Ha) as (d'&->&?&?&Ho). exists (inl d'). split_and!; try done. intros y [Hy _]. by apply Ho.
    + destruct (Clear_spec b x Hr Hb) as (d'&->&?&?&Ho). exists (inr d'). split_and!; try done. intros y [_ Hy]. by apply Ho.
  - intros [a|b] Hr; simpl.
    + destruct (CloseDB_spec a Hr) as [d' ->]. by eexists.
    + destruct (CloseDB_spec b Hr) as [d' ->]. by eexists.
Defined.

(** ** The routes of the server *)

#[local] Instance ascii_fold : Folding :=
  let lower (c : Z) := if (65 <=? c) && (c <=? 90) then c + 32 else c in
  Build_Folding (fmap lower) (λ a b, bool_decide (lower <$> a = lower <$> b)).
#[local] Instance longer_sort : SliceSort longer.
Proof. apply insertion_slice_sort. unfold longer. intros a b Hab. zlia. Defined.

Definition demo_routes : list (nat * bytes) := [(1%nat, str "Settings"); (0%nat, str "Viewed"); (0%nat, str "Torrents")].

Lemma longest_route_witness :
  getDBForXPath (str "settings/More") (registered demo_routes) = Some 1%nat ∧
  getDBForXPath (str "Other") (registered demo_routes) = Some 1%nat ∧
  ∃ route i, getDBForXPath (str " Viewed ") (registered demo_routes) = Some i ∧
    route `prefix_of` xPathToRoute (str " Viewed ") ∧ first_of route (table demo_routes) = Some i ∧
    ∀ other, other ∈ (table demo_routes).*1 → other `prefix_of` xPathToRoute (str " Viewed ") → len other <= len route.
Proof. split; [by vm_compute|split; [by vm_compute|]]. by apply longest_route. Defined.
