(* ===== verification/JsonStore.v ===== *)
(** * Settings in files ([server/settings/jsondb.go])

    One database keeps each path in a file of its own, a JSON object with a member per
    entry, so that settings can be edited by hand.  What is written is read back as the same
    JSON ([json_roundtrip]); a file that is not an object is read as an empty one, and what it
    held is gone when an entry is written ([broken_file_lost]). *)

From S2P Require Import Prelude GoText Episode Database DatabaseRoute.
#[local] Open Scope Z_scope.

(** ** JSON as [encoding/json] reads and writes it

    A value is what a text decodes to without a type given: [Unmarshal] says whether a text
    is JSON, and which; two printers write a value, one on a line and one with
    indentation.  An object is its members by name. *)
Class JSON := {
  value : Type;
  value_eq :: EqDecision value;
  Unmarshal : bytes → option value;
  Marshal : value → bytes;
  MarshalIndent : value → bytes;
  Null : value;
  Object : gmap bytes value → value;
  members : value → option (gmap bytes value);
}.

(** What is documented: printing a value and reading it gives the value; the members of an
    object are those it was made of, and null is no object. *)
Class JSONLaws `{JSON} := {
  Unmarshal_Marshal v : Unmarshal (Marshal v) = Some v;
  Unmarshal_MarshalIndent v : Unmarshal (MarshalIndent v) = Some v;
  members_Object m : members (Object m) = Some m;
  members_Null : members Null = None;
}.

Section JsonDB.
Context `{!Folding} `{!JSON}.

(** Decoding into a map.  Null gives the nil map, which is [None]. *)
Definition unmarshal_map (text : bytes) : option (option (gmap bytes value)) :=
  v ← Unmarshal text;
  match members v with
  | Some m => Some (Some m)
  | None => if decide (v = Null) then Some None else None
  end.
Definition object_of (m : option (gmap bytes value)) : value := match m with Some m => Object m | None => Null end.

(** The files, by name, and which of them the system lets the server read and write. *)
Record JsonDB := mkJsonDB { files : gmap bytes bytes; readable : bytes → bool; writable : bytes → bool }.

Fixpoint SplitPath (sep : Z) (s : bytes) : list bytes :=
  match s with
  | [] => [[]]
  | c :: s =>
      if c =? sep then [] :: SplitPath sep s else
      match SplitPath sep s with p :: ps => (c :: p) :: ps | [] => [[c]] end
  end.
Fixpoint JoinPath (ps : list bytes) (sep : bytes) : bytes :=
  match ps with [] => [] | [p] => p | p :: ps => p ++ sep ++ JoinPath ps sep end.

Definition xPathToFilename (xPath : bytes) : bytes :=
  ToLower (JoinPath (SplitPath 47 xPath) (str ".") ++ str ".json").

(** No error is ever returned: the one of the file, or of its text, ends with the [if] that
    declares it, and the map is the one that was empty to start with. *)
Definition readJsonFileAsMap (filename : bytes) (d : JsonDB) : option (gmap bytes value) :=
  if negb (readable d filename) then Some ∅ else
  match files d !! filename with
  | None => Some ∅
  | Some fileData => default (Some ∅) (unmarshal_map fileData)
  end.

Definition write_file (filename fileData : bytes) (d : JsonDB) : JsonDB :=
  if writable d filename then mkJsonDB (<[filename := fileData]> (files d)) (readable d) (writable d) else d.
Definition writeMapAsJsonFile (filename : bytes) (o : option (gmap bytes value)) (d : JsonDB) : JsonDB :=
  write_file filename (MarshalIndent (object_of o)) d.

(** Assigning to the nil map panics; deleting from it does not. *)
Definition json_Set (xPath name text : bytes) (d : JsonDB) : outcome JsonDB :=
  match unmarshal_map text with
  | None => Done d
  | Some jsonObj =>
      let filename := xPathToFilename xPath in
      root ← of_option (readJsonFileAsMap filename d);
      Done (writeMapAsJsonFile filename (Some (<[name := object_of jsonObj]> root)) d)
  end.

Definition json_Get (xPath name : bytes) (d : JsonDB) : option bytes :=
  root ← readJsonFileAsMap (xPathToFilename xPath) d; Marshal <$> root !! name.

(** In the order of a walk over the map; theorems hold for any. *)
Definition json_List (xPath : bytes) (d : JsonDB) : list bytes :=
  match readJsonFileAsMap (xPathToFilename xPath) d with Some root => (map_to_list root).*1 | None => [] end.

Definition json_Rem (xPath name : bytes) (d : JsonDB) : JsonDB :=
  let filename := xPathToFilename xPath in
  writeMapAsJsonFile filename (delete name <$> readJsonFileAsMap filename d) d.

Definition json_Clear (xPath : bytes) (d : JsonDB) : JsonDB :=
  write_file (xPathToFilename xPath) (str "{}") d.

#[export] Instance json_DB : TorrServerDB JsonDB := {
  CloseDB d := Done d;
  Get x n d := Done (json_Get x n d);
  Put := json_Set;
  Names x d := Done (json_List x d);
  Rem x n d := Done (json_Rem x n d);
  Clear x d := Done (json_Clear x d);
}.
End JsonDB.

(** ** The files are a lawful database *)

Section Lawful.
Context `{!Folding} `{!JSON} `{!JSONLaws}.
Context (brace_law : Unmarshal (str "{}") = Some (Object ∅)).
(** Paths kept in files of their own. *)
Context (paths : list bytes).
Context (paths_apart : ∀ x y, x ∈ paths → y ∈ paths → xPathToFilename x = xPathToFilename y → x = y).

(** The members a file holds, if it is one the server reads as such. *)
Definition file_members (x : bytes) (d : JsonDB) : option (gmap bytes value) :=
  match files d !! xPathToFilename x with
  | None => Some ∅
  | Some text => v ← Unmarshal text; members v
  end.
Definition file_ok (x : bytes) (d : JsonDB) : Prop :=
  readable d (xPathToFilename x) = true ∧ writable d (xPathToFilename x) = true ∧ is_Some (file_members x d).
Definition json_contents (d : JsonDB) (x : bytes) : entries := Marshal <$> default ∅ (file_members x d).

Lemma read_file_ok x d : file_ok x d → readJsonFileAsMap (xPathToFilename x) d = file_members x d.
Proof.
  intros (Hr&_&[m Hm]). unfold readJsonFileAsMap, file_members, unmarshal_map in *. rewrite Hr. simpl.
  destruct (files d !! _) as [text|]; [|done]. destruct (Unmarshal text) as [v|]; simpl in *; [|done]. by rewrite Hm.
Qed.

(** Writing a map: its file holds it, the others what they held. *)
Lemma write_file_ok x text m d : file_ok x d → Unmarshal text = Some (Object m) →
  let d' := write_file (xPathToFilename x) text d in
  file_members x d' = Some m ∧ file_ok x d' ∧
  ∀ y, y ∈ paths → x ∈ paths → y ≠ x → file_members y d' = file_members y d ∧ (file_ok y d → file_ok y d').
Proof.
  intros (Hr&Hw&_) Ht. unfold write_file. rewrite Hw. simpl.
  assert (file_members x (mkJsonDB (<[xPathToFilename x:=text]> (files d)) (readable d) (writable d)) = Some m) as E.
  { unfold file_members. simpl. rewrite lookup_insert_eq, Ht. simpl. apply members_Object. }
  split; [done|]. split; [by split_and!; [..|eexists]|]. intros y Hy Hx Hne.
  assert (xPathToFilename x ≠ xPathToFilename y) as Hf by (intros Hf; apply Hne; by apply paths_apart).
  assert (file_members y (mkJsonDB (<[xPathToFilename x:=text]> (files d)) (readable d) (writable d)) = file_members y d) as Ey.
  { unfold file_members. simpl. by rewrite lookup_insert_ne. }
  split; [done|]. intros (?&?&?). split_and!; [done|done|]. by rewrite Ey.
Qed.

Definition json_ready (d : JsonDB) : Prop := ∀ x, x ∈ paths → file_ok x d.

Lemma write_ready x text m d : json_ready d → x ∈ paths → Unmarshal text = Some (Object m) →
  let d' := write_file (xPathToFilename x) text d in
  json_ready d' ∧ json_contents d' x = Marshal <$> m ∧
  ∀ y, y ∈ paths → y ≠ x → json_contents d' y = json_contents d y.
Proof.
  intros Hd Hx Ht d'. destruct (write_file_ok x text m d (Hd x Hx) Ht) as (Hm&Hok&Hy). split; [|split].
  - intros y Hin. destruct (decide (y = x)) as [->|Hne]; [done|]. by apply Hy, Hd.
  - unfold json_contents. subst d'. by rewrite Hm.
  - intros y Hin Hne. unfold json_contents. subst d'. by destruct (Hy y Hin Hx Hne) as [-> _].
Qed.

Lemma contents_names (m : gmap bytes value) : (map_to_list m).*1 ≡ₚ names (Marshal <$> m).
Proof.
  apply NoDup_Permutation; try apply NoDup_fst_map_to_list. intros n. rewrite names_elem, lookup_fmap.
  rewrite list_elem_of_fmap. split.
  - intros ([k v]&->&Hv). apply elem_of_map_to_list in Hv. simpl. rewrite Hv. by eexists.
  - intros [w Hw]. destruct (m !! n) as [v|] eqn:E; [|done]. exists (n, v). split; [done|]. by apply elem_of_map_to_list.
Qed.

Lemma object_text text o v : unmarshal_map text = Some o → Unmarshal text = Some v → object_of o = v ∨ ∃ m, o = Some m ∧ members v = Some m.
Proof.
  unfold unmarshal_map. intros Ho Hv. rewrite Hv in Ho. simpl in Ho. destruct (members v) as [m|] eqn:E.
  - right. exists m. by simplify_eq.
  - left. case_decide; simplify_eq; done.
Qed.

(** Texts that hold an object are kept: read back, they hold the same. *)
Definition holds_object (text : bytes) : Prop := ∃ m, Unmarshal text = Some (Object m).

#[refine] Definition json_lawful : LawfulDB JsonDB := {|
  ready := json_ready;
  known x := x ∈ paths;
  fits _ := holds_object;
  alike v w := Unmarshal v = Unmarshal w;
  contents := json_contents;
|}.
Proof.
  - split; [by intros v|by intros v w|by intros u v w -> ].
  - intros d x n Hd Hx. simpl. unfold json_Get, json_contents. rewrite read_file_ok by by apply Hd.
    destruct (Hd x Hx) as (_&_&[m ->]). simpl. by rewrite lookup_fmap.
  - intros d x Hd Hx. simpl. eexists. split; [done|]. unfold json_List, json_contents. rewrite read_file_ok by by apply Hd.
    destruct (Hd x Hx) as (_&_&[m ->]). simpl. apply contents_names.
  - intros d x n v Hd Hx [o Ho]. simpl. unfold json_Set, unmarshal_map. rewrite Ho. simpl. rewrite members_Object. simpl.
    rewrite read_file_ok by by apply Hd. destruct (Hd x Hx) as (_&_&[m Hm]). rewrite Hm. simpl.
    destruct (write_ready x _ _ d Hd Hx (Unmarshal_MarshalIndent (Object (<[n := Object o]> m)))) as (Hnew&Hhas&Helse).
    eexists _, (Marshal (Object o)). split_and!; [done|done| |  |done].
    + by rewrite Unmarshal_Marshal.
    + unfold writeMapAsJsonFile. simpl. rewrite Hhas, fmap_insert. f_equal. unfold json_contents. by rewrite Hm.
  - intros d x n Hd Hx. simpl. unfold json_Rem. rewrite read_file_ok by by apply Hd. destruct (Hd x Hx) as (_&_&[m Hm]).
    rewrite Hm. simpl.
    destruct (write_ready x _ _ d Hd Hx (Unmarshal_MarshalIndent (Object (delete n m)))) as (Hnew&Hhas&Helse).
    eexists. split_and!; [done|done| |done]. unfold writeMapAsJsonFile. simpl. rewrite Hhas, fmap_delete. f_equal.
    unfold json_contents. by rewrite Hm.
  - intros d x Hd Hx. simpl. destruct (write_ready x _ _ d Hd Hx brace_law) as (Hnew&Hhas&Helse).
    eexists. split_and!; [done|done| |done]. unfold json_Clear. by rewrite Hhas, fmap_empty.
  - intros d Hd. by eexists.
Defined.
End Lawful.

(** ** Reading back what is written *)

Section RoundTrip.
Context `{!Folding} `{!JSON} `{!JSONLaws}.

Lemma read_written filename m d : readable d filename = true → writable d filename = true →
  readJsonFileAsMap filename (writeMapAsJsonFile filename (Some m) d) = Some m.
Proof.
  intros Hr Hw. unfold readJsonFileAsMap, writeMapAsJsonFile, write_file, unmarshal_map. rewrite Hw. simpl. rewrite Hr.
  simpl. rewrite lookup_insert_eq. simpl. rewrite Unmarshal_MarshalIndent. simpl. by rewrite members_Object.
Qed.

Lemma written_elsewhere filename m d f : f ≠ filename → files (writeMapAsJsonFile filename m d) !! f = files d !! f.
Proof. intros Hf. unfold writeMapAsJsonFile, write_file. destruct (writable d filename); [|done]. by apply lookup_insert_ne. Qed.

(** C16: Setting an entry to the text of an object, in a file that can be read and written and
    does not say null: the entry is then the same object, written on a line; the other entries
    of the path are what they were, no other file changes, and the list of the path has
    exactly the new name added. *)
Theorem json_roundtrip (xPath name text : bytes) (obj : gmap bytes value) (d : JsonDB) :
  let filename := xPathToFilename xPath in
  Unmarshal text = Some (Object obj) →
  readable d filename = true → writable d filename = true → readJsonFileAsMap filename d ≠ None →
  ∃ d', json_Set xPath name text d = Done d' ∧
    json_Get xPath name d' = Some (Marshal (Object obj)) ∧
    Unmarshal (Marshal (Object obj)) = Unmarshal text ∧
    (∀ other, other ≠ name → json_Get xPath other d' = json_Get xPath other d) ∧
    (∀ n, n ∈ json_List xPath d' ↔ n = name ∨ n ∈ json_List xPath d) ∧
    (∀ f, f ≠ filename → files d' !! f = files d !! f).
Proof.
  intros filename Ht Hr Hw Hn. destruct (readJsonFileAsMap filename d) as [root|] eqn:E; [|done].
  unfold json_Set, unmarshal_map. rewrite Ht. simpl. rewrite members_Object. simpl. fold filename. rewrite E. simpl.
  pose proof (read_written filename (<[name := Object obj]> root) d Hr Hw) as E'.
  eexists. split; [done|]. unfold json_Get, json_List. fold filename. rewrite E, E'. simpl. split_and!.
  - by rewrite lookup_insert_eq.
  - by rewrite Unmarshal_Marshal.
  - intros other Ho. by rewrite lookup_insert_ne.
  - intros n. rewrite !list_elem_of_fmap. split.
    + intros ([k v]&->&Hv). apply elem_of_map_to_list in Hv. simpl. apply lookup_insert_Some in Hv as [[-> _]|[_ Hv]]; [by left|].
      right. exists (k, v). split; [done|]. by apply elem_of_map_to_list.
    + intros Hor. destruct (decide (n = name)) as [->|Hne].
      * exists (name, Object obj). split; [done|]. apply elem_of_map_to_list. by rewrite lookup_insert_eq.
      * destruct Hor as [->|([k v]&->&Hv)]; [done|]. exists (k, v). split; [done|]. apply elem_of_map_to_list in Hv.
        apply elem_of_map_to_list. simpl in Hne. by rewrite lookup_insert_ne.
  - intros f Hf. by apply written_elsewhere.
Qed.

(** A file that is not JSON, say for a comma too many, is replaced by one with the new
    entry alone, and nothing reports it. *)
Lemma broken_file_lost (xPath name text : bytes) (obj : gmap bytes value) (broken : bytes) (d : JsonDB) :
  let filename := xPathToFilename xPath in
  Unmarshal text = Some (Object obj) → writable d filename = true →
  files d !! filename = Some broken → Unmarshal broken = None →
  ∃ d', json_Set xPath name text d = Done d' ∧
    files d' !! filename = Some (MarshalIndent (Object {[name := Object obj]})).
Proof.
  intros filename Ht Hw Hf Hb. unfold json_Set, unmarshal_map. rewrite Ht. simpl. rewrite members_Object. simpl. fold filename.
  unfold readJsonFileAsMap, unmarshal_map. rewrite Hf, Hb. simpl.
  assert ((if negb (readable d filename) then Some ∅ else Some ∅) = Some (∅ : gmap bytes value)) as -> by by destruct (readable d filename).
  simpl. eexists. split; [done|]. unfold writeMapAsJsonFile, write_file. rewrite Hw. simpl. by rewrite lookup_insert_eq.
Qed.
End RoundTrip.

(** ** A notation for values

    The laws can be kept: a notation in which every piece of text is preceded by its
    length. *)
Inductive tree := TNull | TText (b : bytes) | TObject (l : list (bytes * tree)).

Fixpoint tree_text (t : tree) : bytes :=
  match t with
  | TNull => [0]
  | TText b => 1 :: len b :: b
  | TObject l => 2 :: len l :: concat (map (λ kt, len kt.1 :: kt.1 ++ tree_text kt.2) l)
  end.

Fixpoint read_members (read : bytes → option (tree * bytes)) (n : nat) (s : bytes) : option (list (bytes * tree) * bytes) :=
  match n with
  | O => Some ([], s)
  | S n =>
      match s with
      | k :: s =>
          '(t, s1) ← read (drop (Z.to_nat k) s);
          '(l, s2) ← read_members read n s1;
          Some ((take (Z.to_nat k) s, t) :: l, s2)
      | [] => None
      end
  end.

Fixpoint read_tree (fuel : nat) (s : bytes) : option (tree * bytes) :=
  match fuel, s with
  | S fuel, 0 :: s => Some (TNull, s)
  | S fuel, 1 :: k :: s => Some (TText (take (Z.to_nat k) s), drop (Z.to_nat k) s)
  | S fuel, 2 :: k :: s => '(l, s1) ← read_members (read_tree fuel) (Z.to_nat k) s; Some (TObject l, s1)
  | _, _ => None
  end.

Lemma tree_text_nonempty t : (0 < length (tree_text t))%nat.
Proof. destruct t; simpl; lia. Qed.

Lemma read_members_text fuel l s :
  (∀ t r, (length (tree_text t) ≤ fuel)%nat → read_tree fuel (tree_text t ++ r) = Some (t, r)) →
  (length (concat (map (λ kt, len kt.1 :: kt.1 ++ tree_text kt.2) l)) ≤ fuel)%nat →
  read_members (read_tree fuel) (length l) (concat (map (λ kt, len kt.1 :: kt.1 ++ tree_text kt.2) l) ++ s) = Some (l, s).
Proof.
  intros Hread. induction l as [|[k t] l IH]; intros Hl; simpl; [done|].
  simpl in Hl. rewrite !length_app in Hl.
  unfold len in *. rewrite Nat2Z.id, <- !app_assoc. rewrite drop_app_length, take_app_length.
  rewrite Hread by lia. simpl. by rewrite IH by lia.
Qed.

Lemma read_tree_text fuel t s : (length (tree_text t) ≤ fuel)%nat → read_tree fuel (tree_text t ++ s) = Some (t, s).
Proof.
  revert t s. induction fuel as [|fuel IH]; intros t s Ht; [pose proof (tree_text_nonempty t); lia|].
  destruct t as [|b|l]; simpl in *.
  - done.
  - unfold len. by rewrite Nat2Z.id, drop_app_length, take_app_length.
  - unfold len at 1. rewrite Nat2Z.id. rewrite read_members_text; [done|done|]. lia.
Qed.

Definition read_all (s : bytes) : option tree :=
  if bool_decide (s = str "{}") then Some (TObject []) else
  match read_tree (length s) s with Some (t, []) => Some t | _ => None end.

Lemma read_all_text t : read_all (tree_text t) = Some t.
Proof.
  unfold read_all. rewrite bool_decide_eq_false_2 by by destruct t.
  pose proof (read_tree_text (length (tree_text t)) t []) as E. rewrite app_nil_r in E. by rewrite E.
Qed.

#[export] Instance tree_eq : EqDecision tree.
Proof.
  intros t u. destruct (decide (tree_text t = tree_text u)) as [E|E]; [left|right; by intros ->].
  apply (inj Some). by rewrite <- !read_all_text, E.
Defined.

Definition tree_JSON : JSON := {|
  value := tree;
  Unmarshal := read_all;
  Marshal := tree_text;
  MarshalIndent := tree_text;
  Null := TNull;
  Object m := TObject (map_to_list m);
  members t := match t with TObject l => Some (list_to_map l) | _ => None end;
|}.
#[local] Existing Instance tree_JSON.

Lemma tree_laws : JSONLaws.
Proof. split; simpl; intros; [apply read_all_text|apply read_all_text|by rewrite list_to_map_to_list|done]. Qed.
#[local] Existing Instance tree_laws.

#[local] Existing Instance ascii_fold.

(** The paths of the server, which have files of their own. *)
Definition server_paths : list bytes := [str "Settings"; str "Viewed"; str "Torrents"].
Lemma server_paths_apart x y : x ∈ server_paths → y ∈ server_paths → xPathToFilename x = xPathToFilename y → x = y.
Proof.
  unfold server_paths. rewrite !elem_of_cons. intros Hx Hy.
  destruct Hx as [->|[->|[->|[]%elem_of_nil]]], Hy as [->|[->|[->|[]%elem_of_nil]]]; vm_compute; congruence.
Qed.
Lemma tree_brace : Unmarshal (str "{}") = Some (Object ∅).
Proof. vm_compute. reflexivity. Qed.

Definition a_filename : bytes := xPathToFilename (str "Viewed").
Definition a_store : JsonDB :=
  mkJsonDB {[a_filename := tree_text (TObject [(str "old", TObject [])])]} (λ _, true) (λ _, true).
Definition an_entry : gmap bytes value := {[str "1" := TText (str "12.5")]}.

Lemma json_roundtrip_witness :
  ∃ d', json_Set (str "Viewed") (str "new") (tree_text (Object an_entry)) a_store = Done d' ∧
    json_Get (str "Viewed") (str "new") d' = Some (Marshal (Object an_entry)) ∧
    json_Get (str "Viewed") (str "old") d' = json_Get (str "Viewed") (str "old") a_store ∧
    json_Get (str "Viewed") (str "old") a_store = Some (tree_text (TObject [])).
Proof.
  destruct (json_roundtrip (str "Viewed") (str "new") (tree_text (Object an_entry)) an_entry a_store)
    as (d'&H1&H2&_&H3&_); [by vm_compute|done|done|by vm_compute|].
  exists d'. split; [done|]. split; [done|]. split; [by apply H3|]. by vm_compute.
Defined.
