(* ===== verification/Migrate.v ===== *)
(** * Moving entries from one database to another
      ([server/settings/migrate.go], [safeMigrate] and [safeMigrateAll] of [settings.go])

    Entries are copied, compared with what the target holds and read back.  A copy loses
    nothing where entries of equal length are equal ([switch_keeps_entries]); the comparison
    takes texts of equal length to be equal whatever they say ([equal_length_is_equal]), so
    that otherwise entries are lost ([entry_lost]). *)

From S2P Require Import Prelude GoText Database DatabaseRoute JsonStore.
#[local] Open Scope Z_scope.

Section Compare.
Context {JS : JSON}.

(** The loop over the bytes of two texts of equal length leaves itself where they differ and
    has no other effect: the function then says that they are equal. *)
Definition isByteArraysEqualJson (a b : bytes) : option bool :=
  if (len a =? 0) && (len b =? 0) then Some true else
  if (len a =? 0) || (len b =? 0) then Some false else
  if len a =? len b then Some true else
  objectA ← Unmarshal a;
  objectB ← Unmarshal b;
  Some (bool_decide (objectA = objectB)).

Definition isByteArraysEqualJsonOptimized (a b : option bytes) : option bool :=
  match a, b with
  | None, None => Some true
  | _, _ =>
      let a := default [] a in
      let b := default [] b in
      if negb (len a =? len b) then Some false else
      if len a =? 0 then Some true else
      if bool_decide (a = b) then Some true else
      isByteArraysEqualJson a b
  end.
End Compare.

Inductive error := NoDataAfter | Unreadable | Mismatch.

Section Migrate.
Context {JS : JSON} {A B : Type} `{!TorrServerDB A, !TorrServerDB B}.

Definition verifyMigration (target : B) (xpath name originalData : bytes) : outcome (option error) :=
  migratedData ← Get xpath name target;
  Done (match migratedData with
        | None => Some NoDataAfter
        | Some _ =>
            match isByteArraysEqualJsonOptimized (Some originalData) migratedData with
            | None => Some Unreadable
            | Some false => Some Mismatch
            | Some true => None
            end
        end).

(** Whether the target is taken to hold the entry already. *)
Definition already (sourceData : bytes) (targetData : option bytes) : bool :=
  match targetData with
  | Some t => match isByteArraysEqualJson sourceData t with Some true => true | _ => false end
  | None => false
  end.

Definition MigrateSingle (source : A) (target : B) (xpath name : bytes) : outcome (bool * option error * B) :=
  sourceData ← Get xpath name source;
  match sourceData with
  | None => Done (false, None, target)
  | Some data =>
      targetData ← Get xpath name target;
      if already data targetData then Done (false, None, target) else
      target ← Put xpath name data target;
      err ← verifyMigration target xpath name data;
      Done (bool_decide (err = None), err, target)
  end.

Record tally := mkTally { migratedCount : Z; skippedCount : Z; firstError : option error }.
Definition count_skipped (t : tally) : tally := mkTally (migratedCount t) (skippedCount t + 1) (firstError t).
Definition count_verified (err : option error) (t : tally) : tally :=
  match err with
  | Some e => mkTally (migratedCount t) (skippedCount t) (match firstError t with None => Some e | f => f end)
  | None => mkTally (migratedCount t + 1) (skippedCount t) (firstError t)
  end.

Definition migrate_entry (source : A) (xpath name : bytes) (t : tally) (target : B) : outcome (tally * B) :=
  sourceData ← Get xpath name source;
  match sourceData with
  | None => Done (count_skipped t, target)
  | Some data =>
      targetData ← Get xpath name target;
      if already data targetData then Done (count_skipped t, target) else
      target ← Put xpath name data target;
      err ← verifyMigration target xpath name data;
      Done (count_verified err t, target)
  end.

Fixpoint migrate_loop (source : A) (xpath : bytes) (names : list bytes) (t : tally) (target : B) : outcome (tally * B) :=
  match names with
  | [] => Done (t, target)
  | name :: names => '(t, target) ← migrate_entry source xpath name t target; migrate_loop source xpath names t target
  end.

Definition MigrateAll (source : A) (target : B) (xpath : bytes) : outcome (tally * B) :=
  names ← Names xpath source;
  migrate_loop source xpath names (mkTally 0 0 None) target.

Definition safeMigrate (source : A) (target : B) (xpath name : bytes) (clearSource : bool) : outcome (A * B) :=
  '(migrated, err, target) ← MigrateSingle source target xpath name;
  if bool_decide (err = None) && migrated && clearSource
  then source ← Rem xpath name source; Done (source, target)
  else Done (source, target).

Definition safeMigrateAll (source : A) (target : B) (xpath : bytes) (clearSource : bool) : outcome (A * B) :=
  '(t, target) ← MigrateAll source target xpath;
  if clearSource && (0 <? migratedCount t) then
    names ← Names xpath source;
    if len names <=? migratedCount t
    then source ← Clear xpath source; Done (source, target)
    else Done (source, target)
  else Done (source, target).

(** The part of [SwitchViewedStorage] that moves: all entries, and then nothing is left of
    them at the source, unless there was an error. *)
Definition move_all (source : A) (target : B) (xpath : bytes) : outcome (option error * A * B) :=
  '(t, target) ← MigrateAll source target xpath;
  match firstError t with
  | Some e => Done (Some e, source, target)
  | None => source ← Clear xpath source; Done (None, source, target)
  end.
End Migrate.

(** ** Copying both ways *)

Section Sync.
Context {JS : JSON} {A B : Type} `{!TorrServerDB A, !TorrServerDB B}.

Definition migrateMissing (db1 : A) (db2 : B) (xpath name : bytes) : outcome (A * B) :=
  there ← Get xpath name db2;
  data1 ← Get xpath name db1;
  db2 ← match there, data1 with None, Some data => Put xpath name data db2 | _, _ => Done db2 end;
  there ← Get xpath name db1;
  data2 ← Get xpath name db2;
  db1 ← match there, data2 with None, Some data => Put xpath name data db1 | _, _ => Done db1 end;
  Done (db1, db2).

(** Texts of marks with and without times.  Decoding into the keys alone takes the keys of
    either. *)
Context (index_set : Type) (keys_of : bytes → index_set) (join_keys : index_set → index_set → index_set)
        (keys_text : index_set → bytes).

Definition mergeViewedDataSimple (data1 data2 : option bytes) : option bytes :=
  match data1, data2 with
  | None, _ => data2
  | _, None => data1
  | Some d1, Some d2 => Some (keys_text (join_keys (keys_of d1) (keys_of d2)))
  end.

Fixpoint sync_loop (hashes : list bytes) (bbolt : A) (json : B) : outcome (A * B) :=
  match hashes with
  | [] => Done (bbolt, json)
  | h :: hashes =>
      bboltData ← Get (str "Viewed") h bbolt;
      jsonData ← Get (str "Viewed") h json;
      match mergeViewedDataSimple bboltData jsonData with
      | Some merged =>
          bbolt ← Put (str "Viewed") h merged bbolt;
          json ← Put (str "Viewed") h merged json;
          sync_loop hashes bbolt json
      | None => sync_loop hashes bbolt json
      end
  end.

(** [walk] is the order in which the set of names is gone through. *)
Definition syncViewedSimple (walk : list bytes → list bytes) (bbolt : A) (json : B) : outcome (A * B) :=
  bboltHashes ← Names (str "Viewed") bbolt;
  jsonHashes ← Names (str "Viewed") json;
  sync_loop (walk (remove_dups (bboltHashes ++ jsonHashes))) bbolt json.
End Sync.

(** ** What the comparison says *)

Section Comparing.
Context {JS : JSON}.

(** The comparison of texts that are not empty looks at their lengths first, and no further
    when they are the same. *)
Lemma equal_length_is_equal (a b : bytes) : len a = len b → isByteArraysEqualJson a b = Some true.
Proof. unfold isByteArraysEqualJson. intros ->. destruct (len b =? 0); simpl; [done|]. by rewrite Z.eqb_refl. Qed.

Lemma optimized_spec (a b : bytes) :
  isByteArraysEqualJsonOptimized (Some a) (Some b) = Some (bool_decide (len a = len b)).
Proof.
  unfold isByteArraysEqualJsonOptimized. simpl. destruct (len a =? len b) eqn:E; reflect_bools; simpl.
  - rewrite (bool_decide_eq_true_2 (len a = len b)) by done.
    destruct (len a =? 0); [done|]. case_bool_decide; [done|]. by apply equal_length_is_equal.
  - by rewrite bool_decide_eq_false_2.
Qed.

Definition same_json (v w : bytes) : Prop := Unmarshal v = Unmarshal w.

Lemma isEqual_json a b : isByteArraysEqualJson a b = Some true → len a = len b ∨ same_json a b.
Proof.
  unfold isByteArraysEqualJson, same_json. destruct (len a =? len b) eqn:E; reflect_bools; [by left|].
  destruct (_ && _) eqn:E1; reflect_bools; [lia|]. destruct (_ || _); [done|]. intros H. right.
  destruct (Unmarshal a) as [va|], (Unmarshal b) as [vb|]; simpl in H; try done.
  case_bool_decide; [by subst|done].
Qed.
End Comparing.

(** ** What a migration does *)

Section Migration.
Context {JS : JSON} {A B : Type} {OA : TorrServerDB A} {LA : LawfulDB A} {OB : TorrServerDB B} {LB : LawfulDB B}.
Context (xpath : bytes) (knownA : known (D := A) xpath) (knownB : known (D := B) xpath).

(** An entry of the target after the migration: what it was, if that is taken for the same,
    and the source's otherwise. *)
Definition migrated_entry (data : bytes) (old new : option bytes) : Prop :=
  if already data old then new = old else ∃ w, new = Some w ∧ alike (D := B) data w.

Lemma migrate_entry_spec (source : A) (target : B) name t :
  ready source → ready target → (∀ data, contents source xpath !! name = Some data → fits (D := B) name data) →
  ∃ t' target', migrate_entry source xpath name t target = Done (t', target') ∧ ready target' ∧
    (∀ y, known y → y ≠ xpath → contents target' y = contents target y) ∧
    (∀ n, n ≠ name → contents target' xpath !! n = contents target xpath !! n) ∧
    match contents source xpath !! name with
    | Some data => migrated_entry data (contents target xpath !! name) (contents target' xpath !! name)
    | None => contents target' xpath !! name = contents target xpath !! name
    end.
Proof.
  intros Hs Ht Hfit. unfold migrate_entry, migrated_entry. rewrite (Get_spec source) by done. simpl.
  destruct (contents source xpath !! name) as [data|] eqn:E; [|by eexists _, _].
  rewrite (Get_spec target) by done. simpl. destruct (already data _) eqn:Eq; [by eexists _, _|].
  destruct (Put_spec target xpath name data Ht knownB (Hfit _ eq_refl)) as (target'&w&Hp&Hr&Hw&Hc&Hy).
  rewrite Hp. simpl. unfold verifyMigration. rewrite (Get_spec target') by done. simpl.
  eexists _, target'. split; [done|]. split_and!; [done|done| |].
  - intros n Hn. by rewrite Hc, lookup_insert_ne.
  - exists w. by rewrite Hc, lookup_insert_eq.
Qed.

Lemma migrate_loop_spec (source : A) names : NoDup names → ready source → ∀ t (target : B), ready target →
  (∀ n data, n ∈ names → contents source xpath !! n = Some data → fits (D := B) n data) →
  ∃ t' target', migrate_loop source xpath names t target = Done (t', target') ∧ ready target' ∧
    (∀ y, known y → y ≠ xpath → contents target' y = contents target y) ∧
    (∀ n, n ∉ names → contents target' xpath !! n = contents target xpath !! n) ∧
    (∀ n data, n ∈ names → contents source xpath !! n = Some data →
      migrated_entry data (contents target xpath !! n) (contents target' xpath !! n)).
Proof.
  intros Hnd Hs. induction Hnd as [|name names Hn _ IH]; intros t target Ht Hfit; simpl.
  - eexists _, _. split_and!; try done. intros n data Hin. by apply elem_of_nil in Hin.
  - destruct (migrate_entry_spec source target name t Hs Ht) as (t1&target1&E1&Hr1&Hy1&Ho1&H1).
    { intros data. apply Hfit. by left. }
    rewrite E1. simpl. destruct (IH t1 target1 Hr1) as (t2&target2&E2&Hr2&Hy2&Ho2&H2).
    { intros n data Hin. apply Hfit. by right. }
    exists t2, target2. split_and!; [done|done| | |].
    + intros y Hk Hne. by rewrite Hy2, Hy1.
    + intros n Hnin. rewrite not_elem_of_cons in Hnin. by rewrite Ho2, Ho1 by naive_solver.
    + intros n data [->|Hin]%elem_of_cons Hd.
      * rewrite Hd in H1. by rewrite Ho2.
      * rewrite <- (Ho1 n); [by apply H2|]. by intros ->.
Qed.

Lemma MigrateAll_spec (source : A) (target : B) : ready source → ready target →
  (∀ n data, contents source xpath !! n = Some data → fits (D := B) n data) →
  ∃ t target', MigrateAll source target xpath = Done (t, target') ∧ ready target' ∧
    (∀ y, known y → y ≠ xpath → contents target' y = contents target y) ∧
    (∀ n, contents source xpath !! n = None → contents target' xpath !! n = contents target xpath !! n) ∧
    (∀ n data, contents source xpath !! n = Some data →
      migrated_entry data (contents target xpath !! n) (contents target' xpath !! n)).
Proof.
  intros Hs Ht Hfit. unfold MigrateAll. destruct (Names_spec source xpath Hs knownA) as (l&Hl&Hp). rewrite Hl. simpl.
  assert (∀ n, n ∈ l ↔ is_Some (contents source xpath !! n)) as Hin by (intros n; by rewrite Hp, names_elem).
  destruct (migrate_loop_spec source l) with (t := mkTally 0 0 None) (target := target) as (t&target'&E&Hr&Hy&Ho&H); try done.
  { rewrite Hp. apply NoDup_fst_map_to_list. }
  { intros n data _. apply Hfit. }
  exists t, target'. split_and!; try done.
  - intros n Hn. apply Ho. rewrite Hin, Hn. by intros [].
  - intros n data Hd. apply H; [|done]. rewrite Hin, Hd. by eexists.
Qed.

Context (alike_json : ∀ v w, alike (D := B) v w → same_json v w).

(** C13: Moving all entries of a path from one database to another, as switching the storage of
    watched files does: it never stops half way, and touches no other path.  If it reports an
    error the source is as it was; otherwise nothing of the path is left there, and every
    entry it had is in the target with the same JSON, provided that no entry the target had
    already differs from the source's at the same length.  Entries only the target had stay. *)
Theorem switch_keeps_entries (source : A) (target : B) :
  ready source → ready target →
  (∀ n data, contents source xpath !! n = Some data → fits (D := B) n data) →
  (∀ n data old, contents source xpath !! n = Some data → contents target xpath !! n = Some old →
     len data = len old → same_json data old) →
  ∃ err source' target', move_all source target xpath = Done (err, source', target') ∧
    (err ≠ None → source' = source) ∧
    (err = None → contents source' xpath = ∅) ∧
    (∀ n data, contents source xpath !! n = Some data →
       ∃ w, contents target' xpath !! n = Some w ∧ same_json data w) ∧
    (∀ n, contents source xpath !! n = None → contents target' xpath !! n = contents target xpath !! n) ∧
    (∀ y, known (D := A) y → y ≠ xpath → contents source' y = contents source y) ∧
    (∀ y, known (D := B) y → y ≠ xpath → contents target' y = contents target y).
Proof.
  intros Hs Ht Hfit Hlen. unfold move_all.
  destruct (MigrateAll_spec source target Hs Ht Hfit) as (t&target'&E&Hr&Hy&Ho&H). rewrite E. simpl.
  assert (∀ n data, contents source xpath !! n = Some data →
    ∃ w, contents target' xpath !! n = Some w ∧ same_json data w) as Hkept.
  { intros n data Hd. specialize (H n data Hd). unfold migrated_entry, already in H.
    destruct (contents target xpath !! n) as [old|] eqn:Eo; [|naive_solver].
    destruct (isByteArraysEqualJson data old) as [[]|] eqn:Eq; [|naive_solver..].
    exists old. split; [done|]. apply isEqual_json in Eq as [Eq|Eq]; [by eapply Hlen|done]. }
  destruct (firstError t) as [e|].
  - eexists _, _, _. split; [done|]. by split_and!.
  - destruct (Clear_spec source xpath Hs knownA) as (source'&Hc&_&He&Hoth). rewrite Hc. simpl.
    eexists _, _, _. split; [done|]. by split_and!.
Qed.
End Migration.

(** ** Entries lost

    Two entries of the same name and length: the one at the source is not copied, and then
    cleared. *)
Lemma entry_lost `{JSON} (xpath name data old : bytes) :
  len data = len old →
  let source := mkMemory {[xpath := {[name := data]}]} false in
  let target := mkMemory {[xpath := {[name := old]}]} false in
  ∃ source', move_all source target xpath = Done (None, source', target) ∧ contents source' xpath = ∅.
Proof.
  intros Hl. unfold move_all, MigrateAll. simpl. rewrite !lookup_singleton_eq. simpl.
  unfold names. rewrite map_to_list_singleton. simpl. unfold migrate_entry. simpl.
  rewrite !lookup_singleton_eq. simpl. rewrite !lookup_singleton_eq. simpl.
  rewrite (equal_length_is_equal data old Hl). simpl. eexists. split; [done|]. simpl. by rewrite lookup_insert_eq.
Qed.

(** ** A switch

    Marks of one torrent in the one database, those of another in the files. *)
#[local] Existing Instance tree_JSON.
#[local] Existing Instance tree_laws.
#[local] Existing Instance ascii_fold.
Definition files_lawful : LawfulDB JsonDB := json_lawful tree_brace server_paths server_paths_apart.
#[local] Existing Instance files_lawful.

Definition mark (n : string) : tree := TObject [(str n, TText (str "0"))].
Definition marked : memory := mkMemory {[str "Viewed" := {[str "a" := tree_text (mark "1")]}]} false.
Definition some_files : JsonDB :=
  mkJsonDB {[xPathToFilename (str "Viewed") := tree_text (TObject [(str "b", mark "2")])]} (λ _, true) (λ _, true).

Lemma marked_entry n data : contents marked (str "Viewed") !! n = Some data → str "a" = n ∧ tree_text (mark "1") = data.
Proof.
  unfold contents. cbn [memory_lawful marked held]. rewrite lookup_singleton_eq. cbn [default id]. intros Hd.
  by apply lookup_singleton_Some in Hd.
Qed.

Lemma some_files_ready : ready some_files.
Proof.
  intros x Hx. unfold file_ok. split_and!; [done|done|]. unfold file_members, server_paths in *.
  rewrite !elem_of_cons in Hx. destruct Hx as [->|[->|[->|[]%elem_of_nil]]]; eexists; vm_compute; reflexivity.
Qed.

Lemma switch_keeps_entries_witness :
  ∃ err source' target', move_all marked some_files (str "Viewed") = Done (err, source', target') ∧
    (err = None → contents source' (str "Viewed") = ∅) ∧
    ∃ w, contents target' (str "Viewed") !! str "a" = Some w ∧ same_json (tree_text (mark "1")) w.
Proof.
  assert (known (D := JsonDB) (str "Viewed")) as Hk by (right; left).
  assert (known (D := memory) (str "Viewed")) as Hm by exact I.
  destruct (switch_keeps_entries (A := memory) (B := JsonDB) (str "Viewed") Hm Hk
              (λ v w H, H) marked some_files eq_refl some_files_ready)
    as (err&s'&t'&H1&_&H2&H3&_).
  - intros n data Hd. apply marked_entry in Hd as [<- <-]. exists ({[str "1" := TText (str "0")]} : gmap bytes tree). vm_compute. reflexivity.
  - intros n data old Hd Ho. apply marked_entry in Hd as [<- <-]. vm_compute in Ho. discriminate.
  - exists err, s', t'. split; [done|]. split; [done|]. apply H3. vm_compute. reflexivity.
Defined.
