(* ===== verification/Viewed.v ===== *)
(** * Files watched ([server/settings/viewed.go])

    For each torrent the database holds a text: the files watched, and how far.  Whatever
    calls follow each other, what is listed is what was marked ([viewed_marks]).  The merge of
    two databases ([mergeViewedDataSimple] of [migrate.go]) forgets how far
    ([merge_forgets_times]). *)

From Stdlib Require Import Floats.SpecFloat.
From S2P Require Import Prelude GoText Database Migrate.
#[local] Open Scope Z_scope.

Notation marks := (gmap Z spec_float).
(** The marks of every torrent that has been marked. *)
Notation marked_state := (gmap (list Z) (gmap Z spec_float)).

(** ** Texts

    Decoding into a map from numbers to [float64], and into one from numbers to nothing, as
    marks were kept before.  Each gives the map as far as it got, nil for null, and whether
    there was no error; printing fails for numbers that JSON does not have. *)
Class MarkTexts := {
  Unmarshal_times : bytes → option marks * bool;
  Unmarshal_keys : bytes → option (gset Z) * bool;
  Marshal_times : option marks → option bytes;
  Marshal_keys : gset Z → bytes;
}.

(** [float64] values that JSON has a text for. *)
Definition finite (f : spec_float) : Prop := match f with S754_zero _ | S754_finite _ _ _ => True | _ => False end.

#[export] Instance finite_dec f : Decision (finite f).
Proof. destruct f; solve_decision. Defined.
Definition finite_marks (m : marks) : Prop := map_Forall (λ _, finite) m.
#[export] Instance finite_marks_dec m : Decision (finite_marks m).
Proof. unfold finite_marks. apply _. Defined.
Definition all_finite (s : marked_state) : Prop := map_Forall (λ _, finite_marks) s.

(** What is documented.  An entry that does not suit the type is left at its zero value. *)
Class MarkLaws `{MarkTexts} := {
  times_printed m : finite_marks m → ∃ t, Marshal_times (Some m) = Some t ∧ Unmarshal_times t = (Some m, true);
  times_finite t m b : Unmarshal_times t = (Some m, b) → finite_marks m;
  times_empty : Unmarshal_times [] = (Some ∅, false);
  keys_empty : Unmarshal_keys [] = (None, false);
  keys_of_times m t : Marshal_times (Some m) = Some t → (Unmarshal_keys t).1 = Some (dom m);
  keys_printed s : s ≠ ∅ → ∃ m, Unmarshal_times (Marshal_keys s) = (Some m, false) ∧ dom m ⊆ s;
  keys_printed_empty : Unmarshal_times (Marshal_keys ∅) = (Some ∅, true);
  keys_roundtrip s : Unmarshal_keys (Marshal_keys s) = (Some s, true);
}.

Section Viewed.
Context {MT : MarkTexts} {D : Type} {O : TorrServerDB D}.
Context (ReadOnly : bool).

Record Viewed := mkViewed { Hash : bytes; FileIndex : Z; TimeCode : spec_float }.

Definition zero : spec_float := S754_zero false.

(** Null gives the nil map, [None]. *)
Definition readIndexes (buf : bytes) : option marks :=
  match Unmarshal_times buf with
  | (m, true) => m
  | (m, false) =>
      match Unmarshal_keys buf with
      | (old, true) => (λ m, gset_to_gmap zero (default ∅ old) ∪ m) <$> m
      | (_, false) => m
      end
  end.

Definition path : bytes := str "Viewed".

(** Assigning to the nil map panics.  [TrackTimecode] is that of the settings, if there are
    any. *)
Definition SetViewed (TrackTimecode : bool) (vv : Viewed) (tdb : DBReadCache D) : outcome (DBReadCache D) :=
  let val := if TrackTimecode then TimeCode vv else zero in
  '(buf, tdb) ← cache_Get path (Hash vv) tdb;
  m ← of_option (readIndexes (default [] buf));
  match Marshal_times (Some (<[FileIndex vv := val]> m)) with
  | Some buf => cache_Set ReadOnly path (Hash vv) buf tdb
  | None => Done tdb
  end.

Definition RemViewed (vv : Viewed) (tdb : DBReadCache D) : outcome (DBReadCache D) :=
  '(buf, tdb) ← cache_Get path (Hash vv) tdb;
  let m := readIndexes (default [] buf) in
  if negb (FileIndex vv =? -1) then
    match Marshal_times (delete (FileIndex vv) <$> m) with
    | Some buf => cache_Set ReadOnly path (Hash vv) buf tdb
    | None => Done tdb
    end
  else cache_Rem ReadOnly path (Hash vv) tdb.

(** The marks of one torrent, in the order of a walk over the map; theorems hold for any. *)
Definition marks_of (hash : bytes) (m : option marks) : list Viewed :=
  (λ it, mkViewed hash it.1 it.2) <$> map_to_list (default ∅ m).

Fixpoint list_all (keys : list bytes) (tdb : DBReadCache D) : outcome (list Viewed * DBReadCache D) :=
  match keys with
  | [] => Done ([], tdb)
  | key :: keys =>
      '(buf, tdb) ← cache_Get path key tdb;
      '(rest, tdb) ← list_all keys tdb;
      Done ((if bool_decide (default [] buf = []) then [] else marks_of key (readIndexes (default [] buf))) ++ rest, tdb)
  end.

Definition ListViewed (hash : bytes) (tdb : DBReadCache D) : outcome (list Viewed * DBReadCache D) :=
  if bool_decide (hash ≠ []) then
    '(buf, tdb) ← cache_Get path hash tdb;
    Done (if bool_decide (default [] buf = []) then [] else marks_of hash (readIndexes (default [] buf)), tdb)
  else
    '(keys, tdb) ← cache_List path tdb;
    list_all keys tdb.

(** ** Calls, and what they mean *)

Inductive viewed_call := VSet (TrackTimecode : bool) (vv : Viewed) | VRem (vv : Viewed) | VList (hash : bytes).

Definition viewed_call_run (k : viewed_call) (tdb : DBReadCache D) : outcome (list Viewed * DBReadCache D) :=
  match k with
  | VSet track vv => tdb ← SetViewed track vv tdb; Done ([], tdb)
  | VRem vv => tdb ← RemViewed vv tdb; Done ([], tdb)
  | VList hash => ListViewed hash tdb
  end.

Fixpoint viewed_calls (ks : list viewed_call) (tdb : DBReadCache D) : outcome (list (list Viewed) * DBReadCache D) :=
  match ks with
  | [] => Done ([], tdb)
  | k :: ks => '(a, tdb) ← viewed_call_run k tdb; '(l, tdb) ← viewed_calls ks tdb; Done (a :: l, tdb)
  end.

Definition mark_step (k : viewed_call) (s : marked_state) : marked_state :=
  match k with
  | VSet track vv => <[Hash vv := <[FileIndex vv := if track then TimeCode vv else zero]> (default ∅ (s !! Hash vv))]> s
  | VRem vv => if FileIndex vv =? -1 then delete (Hash vv) s else <[Hash vv := delete (FileIndex vv) (default ∅ (s !! Hash vv))]> s
  | VList _ => s
  end.

Definition marks_shown (k : viewed_call) (s : marked_state) : list Viewed :=
  match k with
  | VList [] => '(h, m) ← map_to_list s; marks_of h (Some m)
  | VList h => marks_of h (s !! h)
  | _ => []
  end.

Fixpoint expected (ks : list viewed_call) (s : marked_state) : list (list Viewed) :=
  match ks with [] => [] | k :: ks => marks_shown k s :: expected ks (mark_step k s) end.
End Viewed.

(** ** The marks are what was marked *)

#[local] Arguments cache_Get : simpl never.
#[local] Arguments cache_Set : simpl never.
#[local] Arguments cache_Rem : simpl never.
#[local] Arguments cache_List : simpl never.

Section Marks.
Context {MT : MarkTexts} {ML : MarkLaws} {D : Type} {O : TorrServerDB D} {L : LawfulDB D}.
Context (path_known : known (D := D) path).
(** The database takes what is printed under the hash of a torrent, and writes it so that it
    reads as the same marks. *)
Context (named : bytes → Prop).
Context (fits_marks : ∀ h m t, named h → Marshal_times m = Some t → fits (D := D) h t).
Context (alike_marks : ∀ v w, alike (D := D) v w → readIndexes v = readIndexes w).

Definition call_named (k : viewed_call) : Prop :=
  match k with
  | VSet _ vv => named (Hash vv) ∧ finite (TimeCode vv)
  | VRem vv => named (Hash vv)
  | VList _ => True
  end.

(** The texts of a path mean the marks. *)
Definition means (text : option bytes) (m : option marks) : Prop :=
  match text, m with
  | Some t, Some m => readIndexes t = Some m
  | None, None => True
  | _, _ => False
  end.
Definition reads_as (c : DBReadCache D) (s : marked_state) : Prop :=
  ∃ b, agrees c (Some b) ∧ (∀ h, means (b path !! h) (s !! h)) ∧ all_finite s.

Lemma read_nil : readIndexes [] = Some ∅.
Proof. unfold readIndexes. by rewrite times_empty, keys_empty. Qed.

Lemma means_read text m : means text m → readIndexes (default [] text) = Some (default ∅ m).
Proof. destruct text, m; simpl; try done. intros _. apply read_nil. Qed.

Lemma like_means (o text : option bytes) m : like o text → means text m → means o m.
Proof. intros [v w Hv|]; [|done]. destruct m; simpl; [|done]. by rewrite (alike_marks _ _ Hv). Qed.

(** Reading an entry. *)
Lemma get_marks h c s : reads_as c s →
  ∃ o c', cache_Get path h c = Done (o, c') ∧ reads_as c' s ∧ means o (s !! h).
Proof.
  intros (b&Hc&Hm&Hf). pose proof (get_ok false path h c (Some b) path_known Hc) as Hg. simpl in Hg.
  destruct (cache_Get path h c) as [[o c']| |]; simpl in Hg; [|done..]. destruct Hg as [Ho Hc'].
  exists o, c'. split; [done|]. split; [by exists b|]. eapply like_means; [exact Ho|apply Hm].
Qed.

(** Writing one. *)
Lemma set_marks h m t c s : named h → finite_marks m →
  Marshal_times (Some m) = Some t → Unmarshal_times t = (Some m, true) → reads_as c s →
  ∃ c', cache_Set false path h t c = Done c' ∧ reads_as c' (<[h := m]> s).
Proof.
  intros Hn Hfin Ht Hu (b&Hc&Hm&Hf).
  pose proof (set_ok false path h t c (Some b) (conj path_known (fits_marks _ _ _ Hn Ht)) Hc) as Hs. simpl in Hs.
  destruct (cache_Set false path h t c) as [c'| |]; simpl in Hs; [|done..]. destruct Hs as [_ Hc'].
  exists c'. split; [done|]. eexists. split; [exact Hc'|]. split; [|by apply map_Forall_insert_2].
  intros k. unfold revise. rewrite decide_True by done. destruct (decide (k = h)) as [->|Hne].
  - rewrite lookup_insert_eq, lookup_insert_eq. simpl. unfold readIndexes. by rewrite Hu.
  - by rewrite lookup_insert_ne, lookup_insert_ne.
Qed.

Lemma set_text h m c s : named h → finite_marks m → reads_as c s →
  ∃ t c', Marshal_times (Some m) = Some t ∧ cache_Set false path h t c = Done c' ∧ reads_as c' (<[h := m]> s).
Proof.
  intros Hn Hf Hc. destruct (times_printed m Hf) as (t&Ht&Hu).
  destruct (set_marks h m t c s Hn Hf Ht Hu Hc) as (c'&Hs&Hc'). by exists t, c'.
Qed.

Lemma finite_default (s : marked_state) (h : bytes) : all_finite s → finite_marks (default ∅ (s !! h)).
Proof. intros Hs. destruct (s !! h) eqn:E; simpl; [by eapply Hs|]. apply map_Forall_empty. Qed.

Lemma set_viewed_ok track vv c s : call_named (VSet track vv) → reads_as c s →
  ∃ c', SetViewed false track vv c = Done c' ∧ reads_as c' (mark_step (VSet track vv) s).
Proof.
  intros [Hn Hf] Hc. unfold SetViewed. destruct (get_marks (Hash vv) c s Hc) as (o&c1&Hg&Hc1&Ho). rewrite Hg. simpl.
  rewrite (means_read _ _ Ho). simpl.
  destruct (set_text (Hash vv) (<[FileIndex vv := if track then TimeCode vv else zero]> (default ∅ (s !! Hash vv))) c1 s Hn)
    as (t&c2&->&Hs&Hc2); [|done|by exists c2].
  apply map_Forall_insert_2; [by destruct track|]. apply finite_default. by destruct Hc1 as (_&_&_&?).
Qed.

Lemma rem_viewed_ok vv c s : call_named (VRem vv) → reads_as c s →
  ∃ c', RemViewed false vv c = Done c' ∧ reads_as c' (mark_step (VRem vv) s).
Proof.
  intros Hn Hc. unfold RemViewed. cbn [mark_step]. destruct (get_marks (Hash vv) c s Hc) as (o&c1&Hg&Hc1&Ho). rewrite Hg. simpl.
  destruct (FileIndex vv =? -1) eqn:E; simpl.
  - destruct Hc1 as (b&Hb&Hm&Hf). pose proof (rem_ok false path (Hash vv) c1 (Some b) path_known Hb) as Hs. simpl in Hs.
    destruct (cache_Rem false path (Hash vv) c1) as [c2| |]; simpl in Hs; [|done..]. destruct Hs as [_ Hc2].
    exists c2. split; [done|]. eexists. split; [exact Hc2|]. split; [|by apply map_Forall_delete].
    intros k. unfold revise. rewrite decide_True by done. destruct (decide (k = Hash vv)) as [->|Hne].
    + by rewrite lookup_delete_eq, lookup_delete_eq.
    + by rewrite lookup_delete_ne, lookup_delete_ne.
  - rewrite (means_read _ _ Ho). simpl.
    destruct (set_text (Hash vv) (delete (FileIndex vv) (default ∅ (s !! Hash vv))) c1 s Hn) as (t&c2&->&Hs&Hc2);
      [|done|by exists c2].
    apply map_Forall_delete, finite_default. by destruct Hc1 as (_&_&_&?).
Qed.

(** The marks listed under one hash. *)
Lemma means_listed h text m : means text m →
  (if bool_decide (default [] text = []) then [] else marks_of h (readIndexes (default [] text))) = marks_of h m.
Proof.
  intros Hm. rewrite (means_read _ _ Hm). case_bool_decide as E; [|by destruct m].
  destruct text as [t|], m as [m|]; simpl in *; try done. subst t. rewrite read_nil in Hm. by injection Hm as <-.
Qed.

Lemma list_all_ok keys c s : reads_as c s →
  ∃ c', list_all keys c = Done (h ← keys; marks_of h (s !! h), c') ∧ reads_as c' s.
Proof.
  revert c. induction keys as [|h keys IH]; intros c Hc; simpl; [by exists c|].
  destruct (get_marks h c s Hc) as (o&c1&Hg&Hc1&Ho). rewrite Hg. simpl.
  destruct (IH c1 Hc1) as (c2&Hl&Hc2). rewrite Hl. simpl. exists c2. by rewrite (means_listed h _ _ Ho).
Qed.

Lemma listed_all (s : marked_state) : (h ← (map_to_list s).*1; marks_of h (s !! h)) = ('(h, m) ← map_to_list s; marks_of h (Some m)).
Proof.
  assert (∀ l, (∀ p, p ∈ l → s !! p.1 = Some p.2) → (h ← l.*1; marks_of h (s !! h)) = ('(h, m) ← l; marks_of h (Some m))) as Hl.
  { induction l as [|[h m] l IH]; intros Hin; simpl; [done|]. pose proof (Hin (h, m) ltac:(left)) as Hh. simpl in Hh. rewrite Hh. f_equal.
    apply IH. intros p Hp. apply Hin. by right. }
  apply Hl. intros [h m]. apply elem_of_map_to_list.
Qed.

Lemma list_viewed_ok hash c s : reads_as c s →
  ∃ l c', ListViewed hash c = Done (l, c') ∧ reads_as c' s ∧ l ≡ₚ marks_shown (VList hash) s.
Proof.
  intros Hc. unfold ListViewed. destruct hash as [|x hash].
  - rewrite bool_decide_eq_false_2 by (intros Hn; by apply Hn). destruct Hc as (b&Hb&Hm&Hf).
    pose proof (list_ok false path c (Some b) path_known Hb) as Hl. simpl in Hl.
    destruct (cache_List path c) as [[keys c1]| |]; simpl in Hl; [|done..]. destruct Hl as [Hp Hc1]. simpl in Hp, Hc1. simpl.
    destruct (list_all_ok keys c1 s) as (c2&->&Hc2); [by exists b|]. eexists _, c2. split; [done|]. split; [done|].
    simpl. rewrite <- listed_all. apply bind_Permutation. rewrite Hp. apply NoDup_Permutation; try apply NoDup_fst_map_to_list.
    intros h. rewrite names_elem, list_elem_of_fmap. specialize (Hm h). split.
    + intros [t Ht]. rewrite Ht in Hm. destruct (s !! h) as [m|] eqn:E; [|done]. exists (h, m). split; [done|]. by apply elem_of_map_to_list.
    + intros ([h' m]&->&Hin). apply elem_of_map_to_list in Hin. simpl in *. rewrite Hin in Hm. by destruct (b path !! h').
  - rewrite bool_decide_eq_true_2 by done. destruct (get_marks (x :: hash) c s Hc) as (o&c1&Hg&Hc1&Ho). rewrite Hg. simpl.
    eexists _, c1. split; [done|]. split; [done|]. simpl. by rewrite (means_listed (x :: hash) _ _ Ho).
Qed.

Lemma viewed_calls_ok ks c s : Forall call_named ks → reads_as c s →
  ∃ given c', viewed_calls false ks c = Done (given, c') ∧ Forall2 (≡ₚ) given (expected ks s).
Proof.
  intros Hks. revert c s. induction Hks as [|k ks Hk _ IH]; intros c s Hc; simpl; [by exists [], c|].
  assert (∃ a c1, viewed_call_run false k c = Done (a, c1) ∧ reads_as c1 (mark_step k s) ∧ a ≡ₚ marks_shown k s) as (a&c1&->&Hc1&Ha).
  { destruct k as [track vv|vv|hash]; simpl.
    - destruct (set_viewed_ok track vv c s Hk Hc) as (c1&->&Hc1). by exists [], c1.
    - destruct (rem_viewed_ok vv c s Hk Hc) as (c1&->&Hc1). by exists [], c1.
    - by apply list_viewed_ok. }
  simpl. destruct (IH c1 _ Hc1) as (given&c2&->&Hg). simpl. exists (a :: given), c2. split; [done|]. by constructor.
Qed.

(** C14: Marking files as watched, taking marks back and listing them, through the read cache
    of any lawful database in which the marks of [s] are kept: calls that follow each other
    end, and each list is exactly what was marked last and not taken back, per file and with
    the time at which it was left if times are tracked; the list of all torrents has the marks
    of each. *)
Theorem viewed_marks (calls : list viewed_call) (d : D) (s : marked_state) :
  ready d → (∀ h, means (contents d path !! h) (s !! h)) → all_finite s →
  Forall call_named calls →
  ∃ given tdb, viewed_calls false calls (NewDBReadCache d) = Done (given, tdb) ∧ Forall2 (≡ₚ) given (expected calls s).
Proof.
  intros Hd Hm Hf Hc. apply viewed_calls_ok; [done|]. exists (contents d). split; [by apply new_agrees|done].
Qed.
End Marks.

(** ** Merging two databases

    The merge decodes into the keys alone, so that marks that are in both databases lose the
    times at which the files were left, in both. *)
Section Merge.
Context {MT : MarkTexts} {ML : MarkLaws}.

Definition merge_marks : option bytes → option bytes → option bytes :=
  mergeViewedDataSimple (gset Z) (λ t, default ∅ (Unmarshal_keys t).1) (∪) Marshal_keys.

Lemma zeros_union (m : marks) (s : gset Z) : dom m ⊆ s → gset_to_gmap zero s ∪ m = gset_to_gmap zero s.
Proof.
  intros Hd. apply map_eq. intros k. rewrite lookup_union, lookup_gset_to_gmap. unfold guard.
  destruct (decide (k ∈ s)); simpl; [by destruct (m !! k)|]. assert (m !! k = None) as -> by (apply not_elem_of_dom; set_solver). done.
Qed.

Lemma merge_forgets_times (m1 m2 : marks) d1 d2 :
  Marshal_times (Some m1) = Some d1 → Marshal_times (Some m2) = Some d2 →
  ∃ t, merge_marks (Some d1) (Some d2) = Some t ∧ readIndexes t = Some (gset_to_gmap zero (dom m1 ∪ dom m2)).
Proof.
  intros H1 H2. unfold merge_marks, mergeViewedDataSimple. eexists. split; [done|]. rewrite (keys_of_times _ _ H1), (keys_of_times _ _ H2). simpl.
  unfold readIndexes. set (s := dom m1 ∪ dom m2). destruct (decide (s = ∅)) as [->|Hs].
  - rewrite keys_printed_empty. by rewrite gset_to_gmap_empty.
  - destruct (keys_printed s Hs) as (m&Hm&Hd). rewrite Hm, keys_roundtrip. simpl. by rewrite zeros_union.
Qed.
End Merge.

(** ** Texts of marks

    The laws can be kept: marks as a list of numbers, five for each file. *)
Definition mark_cell (it : Z * spec_float) : bytes :=
  match it.2 with
  | S754_zero b => [it.1; 0; if b then 1 else 0; 0; 0]
  | S754_finite b m e => [it.1; 1; if b then 1 else 0; Z.pos m; e]
  | _ => [it.1; 0; 0; 0; 0]
  end.
Fixpoint cells (s : bytes) : list (Z * spec_float) :=
  match s with
  | k :: 0 :: b :: _ :: _ :: s => (k, S754_zero (b =? 1)) :: cells s
  | k :: 1 :: b :: m :: e :: s => (k, S754_finite (b =? 1) (Z.to_pos m) e) :: cells s
  | _ => []
  end.

Fixpoint flat (l : list (Z * spec_float)) : bytes := match l with [] => [] | it :: l => mark_cell it ++ flat l end.

Lemma cells_cell l : Forall (λ it : Z * spec_float, finite it.2) l → cells (flat l) = l.
Proof.
  induction 1 as [|[k f] l Hf _ IH]; [done|]. destruct f as [b| | |b m e]; try done.
  all: simpl in *; rewrite IH; by destruct b.
Qed.

Definition cell_texts : MarkTexts := {|
  Unmarshal_times t := match t with 9 :: s => (Some (list_to_map (cells s)), true) | [8] => (Some ∅, true) | [7] => (None, true) | _ => (Some ∅, false) end;
  Unmarshal_keys t := match t with 9 :: s => (Some (list_to_set (cells s).*1), false) | 8 :: s => (Some (list_to_set s), true) | _ => (None, false) end;
  Marshal_times m :=
    match m with
    | Some m => if bool_decide (finite_marks m) then Some (9 :: flat (map_to_list m)) else None
    | None => Some [7]
    end;
  Marshal_keys s := 8 :: elements s;
|}.
#[local] Existing Instance cell_texts.

Lemma cells_finite s : Forall (λ it : Z * spec_float, finite it.2) (cells s).
Proof.
  remember (length s) as n eqn:Hn. revert s Hn. induction n as [n IH] using lt_wf_ind. intros s ->.
  destruct s as [|k [|t [|b [|m [|e s]]]]]; simpl; repeat case_match; try constructor; try done;
    eapply IH; try done; simpl; lia.
Qed.

#[local] Instance cell_laws : MarkLaws.
Proof.
  split; simpl.
  - intros m Hm. rewrite bool_decide_eq_true_2 by done. eexists. split; [done|]. simpl. rewrite cells_cell; [by rewrite list_to_map_to_list|].
    rewrite Forall_forall. intros [k f] Hin. apply elem_of_map_to_list in Hin. by apply (Hm k f).
  - intros t m b Ht. assert (∀ s, finite_marks (list_to_map (cells s))) as Hall.
    { intros s k f Hk. apply elem_of_list_to_map_2 in Hk. pose proof (cells_finite s) as Hs. rewrite Forall_forall in Hs. by apply (Hs (k, f)). }
    assert (finite_marks ∅) as H0 by apply map_Forall_empty.
    repeat case_match; simplify_eq; auto.
  - done.
  - done.
  - intros m t. case_bool_decide as Hm; intros [= <-]. simpl. rewrite cells_cell.
    + f_equal. apply set_eq. intros k. rewrite elem_of_list_to_set, elem_of_dom, list_elem_of_fmap. split.
      * intros ([k' f]&->&Hin). apply elem_of_map_to_list in Hin. simpl. rewrite Hin. by eexists.
      * intros [f Hf]. exists (k, f). split; [done|]. by apply elem_of_map_to_list.
    + rewrite Forall_forall. intros [k f] Hin. apply elem_of_map_to_list in Hin. by apply (Hm k f).
  - intros s Hs. destruct (elements s) as [|k l] eqn:E; [by apply elements_empty_inv in E; apply leibniz_equiv in E|].
    exists ∅. split; [done|]. set_solver.
  - by rewrite elements_empty.
  - intros s. by rewrite list_to_set_elements_L.
Qed.

Definition at_half : spec_float := S754_finite false 1 (-1).
Definition some_marks : list viewed_call :=
  [VSet true (mkViewed (str "a") 1 at_half); VSet false (mkViewed (str "a") 2 at_half); VSet true (mkViewed (str "b") 1 at_half);
   VRem (mkViewed (str "a") 1 zero); VList (str "a"); VRem (mkViewed (str "b") (-1) zero); VList []].

Lemma viewed_marks_witness :
  ∃ given tdb, viewed_calls false some_marks (NewDBReadCache blank) = Done (given, tdb) ∧
    Forall2 (≡ₚ) given [[]; []; []; []; [mkViewed (str "a") 2 zero]; []; [mkViewed (str "a") 2 zero]].
Proof.
  assert (expected some_marks ∅ = [[]; []; []; []; [mkViewed (str "a") 2 zero]; []; [mkViewed (str "a") 2 zero]]) as <-
    by (vm_compute; reflexivity).
  assert (known (D := memory) path) as Hk by exact I.
  apply (viewed_marks (D := memory) Hk (λ _, True) (λ _ _ _ _ _, I) (λ v w (H : v = w), f_equal readIndexes H) some_marks blank ∅).
  - done.
  - intros h. by rewrite lookup_empty.
  - apply map_Forall_empty.
  - by repeat constructor.
Defined.
