(* ===== verification/Settings.v ===== *)
(** * Settings, where they are kept, and starting with them
      ([server/settings/settings.go], [btsets.go])

    When the server starts it finds out which database holds the settings and which the files
    watched, moves what is in the other one, sets up the routes and the cache, and loads the
    settings.  Settings are checked when they are set and, by other bounds, when they are
    loaded.

    Settings kept in one place survive a restart ([restart_keeps_settings]), but for values the
    next start raises ([read_ahead_raised]).  Kept in both places, as they are after a switch
    to the database, the older ones win at the second restart ([settings_reverted]).  A
    read-only server moves entries all the same ([read_only_moves]). *)

From S2P Require Import Prelude GoText Episode Database DatabaseRoute JsonStore Migrate.
#[local] Open Scope Z_scope.

Record TMDBConfig := mkTMDB { APIKey : bytes; APIURL : bytes; ImageURL : bytes; ImageURLRu : bytes }.

(** The settings this code reads or changes; the fields it only carries are one. *)
Record BTSets (rest : Type) := mkSets {
  CacheSize : Z; ReaderReadAHead : Z; PreloadCache : Z;
  UseDisk : bool; TorrentsSavePath : bytes;
  TrackersListURL : bytes; DefaultTrackers : bytes;
  TorrentDisconnectTimeout : Z;
  EnableBonjour : bool;
  TMDBSettings : TMDBConfig;
  ConnectionsLimit : Z; AggressivePeerManagement : bool; ResponsiveMode : bool;
  StoreSettingsInJson : bool; StoreViewedInJson : bool;
  others : rest;
}.
Arguments mkSets {rest} _ _ _ _ _ _ _ _ _ _ _ _ _ _ _ _.
Arguments CacheSize {rest} _. Arguments ReaderReadAHead {rest} _. Arguments PreloadCache {rest} _.
Arguments UseDisk {rest} _. Arguments TorrentsSavePath {rest} _. Arguments TrackersListURL {rest} _.
Arguments DefaultTrackers {rest} _. Arguments TorrentDisconnectTimeout {rest} _. Arguments EnableBonjour {rest} _.
Arguments TMDBSettings {rest} _. Arguments ConnectionsLimit {rest} _. Arguments AggressivePeerManagement {rest} _.
Arguments ResponsiveMode {rest} _. Arguments StoreSettingsInJson {rest} _. Arguments StoreViewedInJson {rest} _.
Arguments others {rest} _.

(** Settings as a text.  [default_rest] is what the default settings say of the other fields. *)
Class SetsTexts `{JSON} := {
  rest : Type;
  default_rest : rest;
  default_trackers : bytes;
  Unmarshal_sets : bytes → option (BTSets rest);
  Marshal_sets : BTSets rest → bytes;
}.

Definition default_tmdb : TMDBConfig :=
  mkTMDB [] (str "https://api.themoviedb.org") (str "https://image.tmdb.org") (str "https://imagetmdb.com").

(** ** Checks *)

Section Checks.
Context {rest : Type}.

Definition limit_to (lo hi z : Z) : Z := if z <? lo then lo else if hi <? z then hi else z.

(** The checks of [SetBTSets]. *)
Definition checked_sets (s : BTSets rest) : BTSets rest := mkSets
  (if CacheSize s =? 0 then 64 * 1024 * 1024 else CacheSize s)
  (limit_to 5 100 (ReaderReadAHead s))
  (limit_to 0 100 (PreloadCache s))
  (if bool_decide (TorrentsSavePath s = []) then false else UseDisk s)
  (TorrentsSavePath s) (TrackersListURL s) (DefaultTrackers s)
  (if TorrentDisconnectTimeout s <? 300 then 900 else TorrentDisconnectTimeout s)
  (EnableBonjour s) (TMDBSettings s)
  (if ConnectionsLimit s <? 80 then 80 else ConnectionsLimit s)
  true true (StoreSettingsInJson s) (StoreViewedInJson s) (others s).

(** What [loadBTSets] makes of settings it has read; [bonjour] says that the text has the
    setting, and [trackers] is the list built in. *)
Definition raised_sets (bonjour : bool) (trackers : bytes) (s : BTSets rest) : BTSets rest := mkSets
  (CacheSize s)
  (if ReaderReadAHead s <? 90 then 95 else ReaderReadAHead s)
  (if PreloadCache s <? 30 then 50 else PreloadCache s)
  (UseDisk s) (TorrentsSavePath s) (TrackersListURL s)
  (if bool_decide (TrackersListURL s = []) && bool_decide (DefaultTrackers s = []) then trackers else DefaultTrackers s)
  (if TorrentDisconnectTimeout s <? 300 then 900 else TorrentDisconnectTimeout s)
  (if bonjour then EnableBonjour s else true)
  (if bool_decide (APIURL (TMDBSettings s) = []) then default_tmdb else TMDBSettings s)
  (if ConnectionsLimit s <? 100 then 100 else ConnectionsLimit s)
  true true (StoreSettingsInJson s) (StoreViewedInJson s) (others s).

Definition with_preferences (settings viewed : bool) (s : BTSets rest) : BTSets rest := mkSets
  (CacheSize s) (ReaderReadAHead s) (PreloadCache s) (UseDisk s) (TorrentsSavePath s) (TrackersListURL s)
  (DefaultTrackers s) (TorrentDisconnectTimeout s) (EnableBonjour s) (TMDBSettings s) (ConnectionsLimit s)
  (AggressivePeerManagement s) (ResponsiveMode s) settings viewed (others s).
End Checks.

(** ** The server's settings *)

Section Settings.
Context `{!Folding} `{!SliceSort longer} {JS : JSON} {ST : SetsTexts}.
(** The two databases: that of one file, and that of files of JSON. *)
Context {B J : Type} `{!TorrServerDB B, !TorrServerDB J}.
Context (ReadOnly : bool).

Notation sets := (BTSets rest).
Notation cache := (DBReadCache (routed (B + J))).

Definition at_settings : bytes := str "Settings".
Definition bittorr : bytes := str "BitTorr".
Definition at_viewed : bytes := str "Viewed".
Definition at_torrents : bytes := str "Torrents".

Record server := mkServer { tdb : cache; BTsets : sets }.

(** Settings that are set are the ones in use, whatever becomes of their text. *)
Definition SetBTSets (s : sets) (sv : server) : outcome server :=
  if ReadOnly then Done sv else
  let s := checked_sets s in
  tdb ← cache_Set ReadOnly at_settings bittorr (Marshal_sets s) (tdb sv);
  Done (mkServer tdb s).

Definition default_sets : sets := mkSets
  (64 * 1024 * 1024) 95 50 false [] [] default_trackers 900 true default_tmdb 80 true true true false default_rest.

Definition SetDefaultConfig (tdb : cache) : outcome server :=
  if ReadOnly then Done (mkServer tdb default_sets) else
  tdb ← cache_Set ReadOnly at_settings bittorr (Marshal_sets default_sets) tdb;
  Done (mkServer tdb default_sets).

(** Whether the text of settings says if Bonjour is on. *)
Definition says_bonjour (buf : bytes) : bool :=
  match unmarshal_map buf with
  | Some (Some raw) => bool_decide (is_Some (raw !! str "EnableBonjour"))
  | Some None => false
  | None => true
  end.

Definition loadBTSets (tdb : cache) : outcome server :=
  '(buf, tdb) ← cache_Get at_settings bittorr tdb;
  let buf := default [] buf in
  match (if bool_decide (buf = []) then None else Unmarshal_sets buf) with
  | Some s => Done (mkServer tdb (raised_sets (says_bonjour buf) default_trackers s))
  | None => SetDefaultConfig tdb
  end.

Definition loadExistingSettings (bboltDB : B) (jsonDB : J) : outcome (option sets) :=
  inJson ← Get at_settings bittorr jsonDB;
  match (buf ← inJson; Unmarshal_sets buf) with
  | Some s => Done (Some s)
  | None => inBbolt ← Get at_settings bittorr bboltDB; Done (buf ← inBbolt; Unmarshal_sets buf)
  end.

(** [env] holds the two variables that say where to store, empty if they are not set. *)
Definition determineStoragePreferences (env : bytes * bytes) (bboltDB : B) (jsonDB : J) : outcome (bool * bool) :=
  existing ← loadExistingSettings bboltDB jsonDB;
  Done (match existing with
        | Some s => (StoreSettingsInJson s, StoreViewedInJson s)
        | None =>
            (if bool_decide (env.1 = []) then true else bool_decide (env.1 = str "json"),
             if bool_decide (env.2 = []) then false else bool_decide (env.2 = str "json"))
        end).

Definition swap {X Y : Type} (p : X * Y) : Y * X := (p.2, p.1).

Definition applyCleanMigrations (settingsInJson viewedInJson : bool) (bboltDB : B) (jsonDB : J) : outcome (B * J) :=
  '(bboltDB, jsonDB) ←
    (if settingsInJson then safeMigrate bboltDB jsonDB at_settings bittorr true
     else swap <$> safeMigrate jsonDB bboltDB at_settings bittorr true);
  (if viewedInJson then safeMigrateAll bboltDB jsonDB at_viewed true
   else swap <$> safeMigrateAll jsonDB bboltDB at_viewed true).

(** The databases are known to the router by the addresses 0 and 1. *)
Definition bbolt_addr : nat := 0.
Definition json_addr : nat := 1.
Definition server_routes (settingsInJson viewedInJson : bool) : list (nat * bytes) :=
  [(if settingsInJson then json_addr else bbolt_addr, at_settings);
   (if viewedInJson then json_addr else bbolt_addr, at_viewed);
   (bbolt_addr, at_torrents)].

Definition setupDatabaseRouting (settingsInJson viewedInJson : bool) (bboltDB : B) (jsonDB : J) : cache :=
  NewDBReadCache (mkRouted (registered (server_routes settingsInJson viewedInJson))
                           {[bbolt_addr := inl bboltDB; json_addr := inr jsonDB]}).

(** Starting: everything but the forced migration, which only an operator asks for, and the
    import of files of older versions. *)
Definition InitSets (env : bytes * bytes) (bboltDB : B) (jsonDB : J) : outcome server :=
  '(settingsPref, viewedPref) ← determineStoragePreferences env bboltDB jsonDB;
  '(bboltDB, jsonDB) ← applyCleanMigrations settingsPref viewedPref bboltDB jsonDB;
  sv ← loadBTSets (setupDatabaseRouting settingsPref viewedPref bboltDB jsonDB);
  let s := BTsets sv in
  if bool_decide (StoreSettingsInJson s ≠ settingsPref) || bool_decide (StoreViewedInJson s ≠ viewedPref)
  then SetBTSets (with_preferences settingsPref viewedPref s) (mkServer (tdb sv) (with_preferences settingsPref viewedPref s))
  else Done sv.

(** ** Switching while the server runs

    The databases behind the cache are reached directly; routes stay as they are until the
    next start. *)
Definition disks (sv : server) : option (B * J) :=
  r ← db (tdb sv);
  match stores r !! bbolt_addr, stores r !! json_addr with
  | Some (inl b), Some (inr j) => Some (b, j)
  | _, _ => None
  end.

Definition put_disks (b : B) (j : J) (sv : server) : server :=
  mkServer (mkDBReadCache ((λ r, mkRouted (router r) (<[json_addr := inr j]> (<[bbolt_addr := inl b]> (stores r)))) <$> db (tdb sv))
                          (listCache (tdb sv)) (dataCache (tdb sv)))
           (BTsets sv).

Inductive refusal := ReadOnlyMode | Failed (e : error).

Definition SwitchSettingsStorage (useJson : bool) (sv : server) : outcome (option refusal * server) :=
  if ReadOnly then Done (Some ReadOnlyMode, sv) else
  sv ← SetBTSets (with_preferences useJson (StoreViewedInJson (BTsets sv)) (BTsets sv)) sv;
  '(b, j) ← of_option (disks sv);
  '(err, b, j) ←
    (if useJson then '(_, err, j) ← MigrateSingle b j at_settings bittorr; Done (err, b, j)
     else '(_, err, b) ← MigrateSingle j b at_settings bittorr; Done (err, b, j));
  Done (Failed <$> err, put_disks b j sv).

Definition SwitchViewedStorage (useJson : bool) (sv : server) : outcome (option refusal * server) :=
  if ReadOnly then Done (Some ReadOnlyMode, sv) else
  '(b, j) ← of_option (disks sv);
  '(err, b, j) ←
    (if useJson then move_all b j at_viewed
     else '(err, j, b) ← move_all j b at_viewed; Done (err, b, j));
  let sv := put_disks b j sv in
  match err with
  | Some e => Done (Some (Failed e), sv)
  | None => sv ← SetBTSets (with_preferences (StoreSettingsInJson (BTsets sv)) useJson (BTsets sv)) sv; Done (None, sv)
  end.

(** Preferences that are given and not empty. *)
Definition SetStoragePreferences (settings viewed : option bytes) (sv : server) : outcome (option refusal * server) :=
  if ReadOnly then Done (Some ReadOnlyMode, sv) else
  let given p := match p with Some v => bool_decide (v ≠ []) | None => false end in
  let wants p := bool_decide (p = Some (str "json")) in
  '(err, sv) ←
    (if given settings && negb (eqb (StoreSettingsInJson (BTsets sv)) (wants settings))
     then SwitchSettingsStorage (wants settings) sv else Done (None, sv));
  match err with
  | Some e => Done (Some e, sv)
  | None =>
      if given viewed && negb (eqb (StoreViewedInJson (BTsets sv)) (wants viewed))
      then SwitchViewedStorage (wants viewed) sv else Done (None, sv)
  end.
End Settings.
Arguments server : clear implicits.
Arguments server {JS ST} B J.

(** ** Checks *)

Section Bounds.
Context {rest : Type}.
Implicit Types s : BTSets rest.

Lemma checked_bounds s :
  5 <= ReaderReadAHead (checked_sets s) <= 100 ∧ 0 <= PreloadCache (checked_sets s) <= 100 ∧
  80 <= ConnectionsLimit (checked_sets s) ∧ 300 <= TorrentDisconnectTimeout (checked_sets s) ∧ CacheSize (checked_sets s) ≠ 0.
Proof. unfold checked_sets, limit_to. simpl. split_and!; repeat split_if; lia. Qed.

Lemma checked_once s : checked_sets (checked_sets s) = checked_sets s.
Proof.
  unfold checked_sets, limit_to. simpl. f_equal; repeat split_if; try lia; done.
Qed.

Lemma raised_once b t s : t ≠ [] → raised_sets true t (raised_sets b t s) = raised_sets b t s.
Proof.
  intros Ht. unfold raised_sets. simpl. f_equal; repeat split_if; reflect_bools; try lia; try done.
  all: repeat case_bool_decide; simplify_eq; try done.
Qed.

(** A look-ahead the settings allow, and what it is after a restart. *)
Lemma read_ahead_raised t s : 5 <= ReaderReadAHead s < 90 →
  ReaderReadAHead (checked_sets s) = ReaderReadAHead s ∧ ReaderReadAHead (raised_sets true t (checked_sets s)) = 95.
Proof. intros Hs. unfold checked_sets, raised_sets, limit_to. simpl. repeat split_if; simpl; lia. Qed.
End Bounds.

(** ** Migrations at the start *)

Section SafeMigration.
Context {JS : JSON} {A B : Type} {OA : TorrServerDB A} {LA : LawfulDB A} {OB : TorrServerDB B} {LB : LawfulDB B}.
Context (xpath : bytes) (knownA : known (D := A) xpath) (knownB : known (D := B) xpath).

Lemma safeMigrate_nothing (source : A) (target : B) name : ready source → contents source xpath !! name = None →
  safeMigrate source target xpath name true = Done (source, target).
Proof. intros Hs Hn. unfold safeMigrate, MigrateSingle. rewrite (Get_spec source) by done. simpl. by rewrite Hn. Qed.

Lemma safeMigrateAll_others (source : A) (target : B) : ready source → ready target →
  (∀ n data, contents source xpath !! n = Some data → fits (D := B) n data) →
  ∃ source' target', safeMigrateAll source target xpath true = Done (source', target') ∧ ready source' ∧ ready target' ∧
    (∀ y, known (D := A) y → y ≠ xpath → contents source' y = contents source y) ∧
    (∀ y, known (D := B) y → y ≠ xpath → contents target' y = contents target y).
Proof.
  intros Hs Ht Hfit. unfold safeMigrateAll.
  destruct (MigrateAll_spec xpath knownA knownB source target Hs Ht Hfit) as (t&target'&E&Hr&Hy&_). rewrite E. simpl.
  destruct (0 <? migratedCount t); [|by eexists _, _].
  destruct (Names_spec source xpath Hs knownA) as (l&->&_). simpl.
  destruct (len l <=? migratedCount t); [|by eexists _, _].
  destruct (Clear_spec source xpath Hs knownA) as (source'&->&Hr'&_&Hy'). simpl. by eexists _, _.
Qed.
End SafeMigration.

(** ** Restarting *)

Section Restart.
Context {FD : Folding} {SS : SliceSort longer} {JS : JSON} {ST : SetsTexts}.
Context {B J : Type} {OB : TorrServerDB B} {LB : LawfulDB B} {OJ : TorrServerDB J} {LJ : LawfulDB J}.

(** The names of the paths, in small letters. *)
Context (low_nil : ToLower [] = []) (low_settings : ToLower at_settings = str "settings")
        (low_viewed : ToLower at_viewed = str "viewed") (low_torrents : ToLower at_torrents = str "torrents").
Context (knownB : ∀ x, x ∈ [at_settings; at_viewed] → known (D := B) x)
        (knownJ : ∀ x, x ∈ [at_settings; at_viewed] → known (D := J) x).
(** Settings are read as they were written, by the server and by either database. *)
Context (sets_read : ∀ s, Unmarshal_sets (Marshal_sets s) = Some s)
        (sets_none : Unmarshal_sets [] = None)
        (sets_json : ∀ v w, same_json v w → Unmarshal_sets v = Unmarshal_sets w)
        (sets_bonjour : ∀ s, says_bonjour (Marshal_sets s) = true)
        (sets_fitB : ∀ s, fits (D := B) bittorr (Marshal_sets s))
        (sets_fitJ : ∀ s, fits (D := J) bittorr (Marshal_sets s))
        (alikeB : ∀ v w, alike (D := B) v w → same_json v w)
        (alikeJ : ∀ v w, alike (D := J) v w → same_json v w).

Notation sets := (BTSets rest).

Definition reads (text : option bytes) (s : sets) : Prop :=
  ∃ t, text = Some t ∧ Unmarshal_sets t = Some s ∧ says_bonjour t = true.

(** The settings are where they say, and nowhere else. *)
Definition kept (b : B) (j : J) (s : sets) : Prop :=
  ready b ∧ ready j ∧
  if StoreSettingsInJson s
  then reads (contents j at_settings !! bittorr) s ∧ contents b at_settings !! bittorr = None
  else reads (contents b at_settings !! bittorr) s ∧ contents j at_settings !! bittorr = None.

Definition settings_addr (inJson : bool) : nat := if inJson then json_addr else bbolt_addr.

Lemma settings_route sj vj : getDBForXPath at_settings (registered (server_routes sj vj)) = Some (settings_addr sj).
Proof.
  pose proof (registered_holds low_nil (server_routes sj vj)) as Hh.
  destruct (getDB_spec at_settings _ _ Hh (table_default (server_routes sj vj) ltac:(done))) as (p&i&->&_&Hp&Hi&Hmax).
  assert (xPathToRoute at_settings = str "settings") as Es by (unfold xPathToRoute; exact low_settings).
  assert (xPathToRoute at_viewed = str "viewed") as Ev by (unfold xPathToRoute; exact low_viewed).
  assert (xPathToRoute at_torrents = str "torrents") as Et by (unfold xPathToRoute; exact low_torrents).
  assert (table (server_routes sj vj) =
    [([], settings_addr sj); (str "settings", settings_addr sj); (str "viewed", settings_addr vj); (str "torrents", bbolt_addr)]) as Ht.
  { unfold table, server_routes. simpl. rewrite Es, Ev, Et. rewrite bool_decide_eq_false_2 by done. done. }
  rewrite Ht in Hi, Hmax. rewrite Es in Hp, Hmax.
  assert (p = str "settings") as ->.
  { destruct Hp as [q Hq]. specialize (Hmax (str "settings") ltac:(right; left) ltac:(done)).
    rewrite Hq, len_app in Hmax. pose proof (len_nonneg q). assert (len q = 0) as Hq0 by lia.
    destruct q as [|x q]; [|rewrite len_cons in Hq0; pose proof (len_nonneg q); lia]. by rewrite Hq, app_nil_r. }
  simpl in Hi. congruence.
Qed.

Lemma bonjour_json v w : same_json v w → says_bonjour v = says_bonjour w.
Proof. unfold same_json, says_bonjour, unmarshal_map. by intros ->. Qed.

Lemma reads_written (s : sets) w : same_json (Marshal_sets s) w → reads (Some w) s.
Proof.
  intros Hw. exists w. split; [done|]. rewrite <- (sets_json _ _ Hw), <- (bonjour_json _ _ Hw). by split.
Qed.

Definition routed_pair (sj vj : bool) (b : B) (j : J) : routed (B + J) :=
  mkRouted (registered (server_routes sj vj)) {[bbolt_addr := inl b; json_addr := inr j]}.

(** The server that runs on two databases. *)
Definition runs_on (sj : bool) (b : B) (j : J) (sv : server B J) : Prop :=
  ∃ vj lc dc, tdb sv = mkDBReadCache (Some (routed_pair sj vj b j)) (Some lc) (Some dc).

Lemma runs_disks sj b j sv : runs_on sj b j sv → disks sv = Some (b, j).
Proof. intros (vj&lc&dc&E). unfold disks. rewrite E. reflexivity. Qed.

Lemma Get_routed sj vj (b : B) (j : J) n :
  Get at_settings n (routed_pair sj vj b j) =
  (if sj then Get at_settings n j else Get at_settings n b).
Proof. simpl. unfold routed_db. simpl. rewrite settings_route. by destruct sj. Qed.

Lemma determine_kept env b j s : kept b j s →
  determineStoragePreferences env b j = Done (StoreSettingsInJson s, StoreViewedInJson s).
Proof.
  intros (Hb&Hj&Hk). unfold determineStoragePreferences, loadExistingSettings.
  rewrite (Get_spec j) by (done || apply knownJ; left). simpl.
  destruct (StoreSettingsInJson s) eqn:Es, Hk as [(t&Ht&Hu&_) Hn].
  - rewrite Ht. simpl. rewrite Hu. simpl. by rewrite Es.
  - rewrite Hn. simpl. rewrite (Get_spec b) by (done || apply knownB; left). simpl. rewrite Ht. simpl. rewrite Hu. simpl. by rewrite Es.
Qed.

Lemma migrations_kept b j s : kept b j s →
  (∀ n data, contents b at_viewed !! n = Some data → fits (D := J) n data) →
  (∀ n data, contents j at_viewed !! n = Some data → fits (D := B) n data) →
  ∃ b' j', applyCleanMigrations (StoreSettingsInJson s) (StoreViewedInJson s) b j = Done (b', j') ∧ kept b' j' s.
Proof.
  intros (Hb&Hj&Hk) Fb Fj. unfold applyCleanMigrations.
  assert ((if StoreSettingsInJson s then safeMigrate b j at_settings bittorr true
           else swap <$> safeMigrate j b at_settings bittorr true) = Done (b, j)) as ->.
  { destruct (StoreSettingsInJson s), Hk as [_ Hn].
    - by rewrite (safeMigrate_nothing (A := B) (B := J) at_settings (knownB _ ltac:(left)) b j) by done.
    - by rewrite (safeMigrate_nothing (A := J) (B := B) at_settings (knownJ _ ltac:(left)) j b) by done. }
  simpl.
  assert (∃ b' j', (if StoreViewedInJson s then safeMigrateAll b j at_viewed true else swap <$> safeMigrateAll j b at_viewed true)
                   = Done (b', j') ∧ ready b' ∧ ready j' ∧ contents b' at_settings = contents b at_settings ∧
                     contents j' at_settings = contents j at_settings) as (b'&j'&->&Hb'&Hj'&Eb&Ej).
  { destruct (StoreViewedInJson s).
    - destruct (safeMigrateAll_others (A := B) (B := J) at_viewed (knownB _ ltac:(right; left)) (knownJ _ ltac:(right; left)) b j Hb Hj Fb)
        as (b'&j'&->&?&?&H1&H2). exists b', j'. split_and!; try done; [apply H1|apply H2]; (apply knownB || apply knownJ || done); left.
    - destruct (safeMigrateAll_others (A := J) (B := B) at_viewed (knownJ _ ltac:(right; left)) (knownB _ ltac:(right; left)) j b Hj Hb Fj)
        as (j'&b'&->&?&?&H1&H2). exists b', j'. split_and!; try done; [apply H2|apply H1]; (apply knownB || apply knownJ || done); left. }
  exists b', j'. split; [done|]. unfold kept. by rewrite Eb, Ej.
Qed.

Lemma load_kept b j s vj : kept b j s →
  ∃ sv, loadBTSets false (setupDatabaseRouting (StoreSettingsInJson s) vj b j) = Done sv ∧
    BTsets sv = raised_sets true default_trackers s ∧ runs_on (StoreSettingsInJson s) b j sv.
Proof.
  intros (Hb&Hj&Hk). unfold loadBTSets, setupDatabaseRouting, cache_Get, cached_data. fold (routed_pair (StoreSettingsInJson s) vj b j). cbn [NewDBReadCache dataCache db mbind option_bind].
  rewrite lookup_empty, Get_routed.
  assert (∃ t, (if StoreSettingsInJson s then Get at_settings bittorr j else Get at_settings bittorr b) = Done (Some t) ∧
               Unmarshal_sets t = Some s ∧ says_bonjour t = true) as (t&->&Hu&Hbon).
  { destruct (StoreSettingsInJson s), Hk as [(t&Ht&Hu&Hs) _]; exists t; split; try done.
    - rewrite (Get_spec j) by (done || apply knownJ; left). by rewrite Ht.
    - rewrite (Get_spec b) by (done || apply knownB; left). by rewrite Ht. }
  simpl. rewrite bool_decide_eq_false_2 by (intros ->; by rewrite sets_none in Hu). rewrite Hu, Hbon.
  eexists. split; [done|]. split; [done|]. by eexists vj, _, _.
Qed.

Lemma set_kept sj b j sv s' : runs_on sj b j sv → ready b → ready j → StoreSettingsInJson s' = sj →
  (if sj then contents b at_settings !! bittorr = None else contents j at_settings !! bittorr = None) →
  ∃ sv' b' j', SetBTSets false s' sv = Done sv' ∧ BTsets sv' = checked_sets s' ∧ runs_on sj b' j' sv' ∧ kept b' j' (checked_sets s').
Proof.
  intros (vj&lc&dc&E) Hb Hj Es Hn. unfold SetBTSets. rewrite E. unfold cache_Set, on_db. simpl.
  unfold on_route, routed_db. simpl. rewrite settings_route. subst sj.
  destruct (StoreSettingsInJson s') eqn:Ej; simpl.
  - change (({[bbolt_addr := inl b; json_addr := inr j]} : gmap nat (B + J)) !! json_addr) with (Some (inr j : B + J)). simpl.
    destruct (Put_spec j at_settings bittorr (Marshal_sets (checked_sets s')) Hj (knownJ _ ltac:(left)) (sets_fitJ _)) as (j'&w&->&Hj'&Hw&Hc&_).
    simpl. eexists _, b, j'. split; [done|]. split; [done|]. split; [by eexists vj, _, _|].
    split; [done|]. split; [done|]. simpl. rewrite Ej. split; [|done]. rewrite Hc, lookup_insert_eq. by apply reads_written, alikeJ.
  - change (({[bbolt_addr := inl b; json_addr := inr j]} : gmap nat (B + J)) !! bbolt_addr) with (Some (inl b : B + J)). simpl.
    destruct (Put_spec b at_settings bittorr (Marshal_sets (checked_sets s')) Hb (knownB _ ltac:(left)) (sets_fitB _)) as (b'&w&->&Hb'&Hw&Hc&_).
    simpl. eexists _, b', j. split; [done|]. split; [done|]. split; [by eexists vj, _, _|].
    split; [done|]. split; [done|]. simpl. rewrite Ej. split; [|done]. rewrite Hc, lookup_insert_eq. by apply reads_written, alikeB.
Qed.

(** C12: Starting with settings that are where they say they are, and nowhere else: the server
    starts, with these settings, but for those that loading raises; it leaves the settings
    there; and settings that are set then, which may say anything but another place, are
    checked, in use at once, and kept in the same place, so that the next start is again one
    of this theorem. *)
Theorem restart_keeps_settings (env : bytes * bytes) (b : B) (j : J) (s : sets) :
  kept b j s →
  (∀ n data, contents b at_viewed !! n = Some data → fits (D := J) n data) →
  (∀ n data, contents j at_viewed !! n = Some data → fits (D := B) n data) →
  ∃ sv b1 j1, InitSets false env b j = Done sv ∧
    BTsets sv = raised_sets true default_trackers s ∧
    disks sv = Some (b1, j1) ∧ kept b1 j1 s ∧
    ∀ s', StoreSettingsInJson s' = StoreSettingsInJson s →
      ∃ sv' b2 j2, SetBTSets false s' sv = Done sv' ∧ BTsets sv' = checked_sets s' ∧
        disks sv' = Some (b2, j2) ∧ kept b2 j2 (checked_sets s').
Proof.
  intros Hk Fb Fj. unfold InitSets. rewrite (determine_kept env b j s Hk). simpl.
  destruct (migrations_kept b j s Hk Fb Fj) as (b1&j1&->&Hk1). simpl.
  destruct (load_kept b1 j1 s (StoreViewedInJson s) Hk1) as (sv&->&Hs&Hr). simpl. rewrite Hs. simpl.
  rewrite !bool_decide_eq_false_2 by (intros Hne; by apply Hne). simpl.
  exists sv, b1, j1. split; [done|]. split; [done|]. split; [by eapply runs_disks|]. split; [done|].
  intros s' Hs'. destruct Hk1 as (Hb1&Hj1&Hk1).
  destruct (set_kept _ b1 j1 sv s' Hr Hb1 Hj1 Hs') as (sv'&b2&j2&?&?&?&?).
  { destruct (StoreSettingsInJson s); by destruct Hk1. }
  exists sv', b2, j2. split_and!; try done. by eapply runs_disks.
Qed.
End Restart.

(** ** A text of settings

    The laws can be kept: settings as an object with a member for each field. *)
#[local] Existing Instance tree_JSON.
#[local] Existing Instance tree_laws.
#[local] Existing Instance ascii_fold.
#[local] Existing Instance longer_sort.
#[local] Existing Instance files_lawful.

Definition flag (b : bool) : tree := TText [if b then 1 else 0].
Definition fields_of (s : BTSets unit) : gmap bytes tree := list_to_map
  [(str "CacheSize", TText [CacheSize s]); (str "ReaderReadAHead", TText [ReaderReadAHead s]);
   (str "PreloadCache", TText [PreloadCache s]); (str "UseDisk", flag (UseDisk s));
   (str "TorrentsSavePath", TText (TorrentsSavePath s)); (str "TrackersListURL", TText (TrackersListURL s));
   (str "DefaultTrackers", TText (DefaultTrackers s)); (str "TorrentDisconnectTimeout", TText [TorrentDisconnectTimeout s]);
   (str "EnableBonjour", flag (EnableBonjour s)); (str "APIKey", TText (APIKey (TMDBSettings s)));
   (str "APIURL", TText (APIURL (TMDBSettings s))); (str "ImageURL", TText (ImageURL (TMDBSettings s)));
   (str "ImageURLRu", TText (ImageURLRu (TMDBSettings s))); (str "ConnectionsLimit", TText [ConnectionsLimit s]);
   (str "AggressivePeerManagement", flag (AggressivePeerManagement s)); (str "ResponsiveMode", flag (ResponsiveMode s));
   (str "StoreSettingsInJson", flag (StoreSettingsInJson s)); (str "StoreViewedInJson", flag (StoreViewedInJson s))].

(** A field that is missing has its zero value. *)
Definition text_of (m : gmap bytes tree) (k : string) : bytes := match m !! str k with Some (TText b) => b | _ => [] end.
Definition num_of (m : gmap bytes tree) (k : string) : Z := default 0 (head (text_of m k)).
Definition flag_of (m : gmap bytes tree) (k : string) : bool := num_of m k =? 1.
Definition sets_from (m : gmap bytes tree) : BTSets unit := mkSets
  (num_of m "CacheSize") (num_of m "ReaderReadAHead") (num_of m "PreloadCache") (flag_of m "UseDisk")
  (text_of m "TorrentsSavePath") (text_of m "TrackersListURL") (text_of m "DefaultTrackers")
  (num_of m "TorrentDisconnectTimeout") (flag_of m "EnableBonjour")
  (mkTMDB (text_of m "APIKey") (text_of m "APIURL") (text_of m "ImageURL") (text_of m "ImageURLRu"))
  (num_of m "ConnectionsLimit") (flag_of m "AggressivePeerManagement") (flag_of m "ResponsiveMode")
  (flag_of m "StoreSettingsInJson") (flag_of m "StoreViewedInJson") tt.

#[local] Arguments fields_of : simpl never.
#[local] Arguments sets_from : simpl never.

Definition tree_sets : SetsTexts := {|
  rest := unit;
  default_rest := tt;
  default_trackers := str "udp://opentor.org:2710";
  Unmarshal_sets t := m ← (read_all t ≫= members); Some (sets_from m);
  Marshal_sets s := tree_text (Object (fields_of s));
|}.
#[local] Existing Instance tree_sets.

Lemma read_fields s : (read_all (tree_text (Object (fields_of s))) ≫= members) = Some (fields_of s).
Proof. rewrite read_all_text. cbn [mbind option_bind members tree_JSON Object]. by rewrite list_to_map_to_list. Qed.

Lemma flag_read (b : bool) : ((if b then 1 else 0) =? 1) = b.
Proof. by destruct b. Qed.

Lemma sets_from_fields s : sets_from (fields_of s) = s.
Proof.
  destruct s as [cs ra pc ud tp tl dt td eb [k1 k2 k3 k4] cl ap rm sj vj []].
  unfold sets_from, flag_of, num_of, text_of.
  transitivity (mkSets (rest := unit) cs ra pc ((if ud then 1 else 0) =? 1) tp tl dt td ((if eb then 1 else 0) =? 1)
    (mkTMDB k1 k2 k3 k4) cl ((if ap then 1 else 0) =? 1) ((if rm then 1 else 0) =? 1)
    ((if sj then 1 else 0) =? 1) ((if vj then 1 else 0) =? 1) tt); [reflexivity|]. by rewrite !flag_read.
Qed.

Lemma tree_sets_read s : Unmarshal_sets (Marshal_sets s) = Some s.
Proof. cbn [Marshal_sets tree_sets Unmarshal_sets]. rewrite read_fields. simpl. by rewrite sets_from_fields. Qed.

Lemma tree_sets_json v w : same_json v w → Unmarshal_sets v = Unmarshal_sets w.
Proof. unfold same_json. cbn [tree_sets Unmarshal_sets Unmarshal tree_JSON]. by intros ->. Qed.

Lemma tree_sets_bonjour s : says_bonjour (Marshal_sets s) = true.
Proof. unfold says_bonjour, unmarshal_map. cbn [Marshal_sets tree_sets Unmarshal tree_JSON]. rewrite read_all_text.
  cbn [mbind option_bind members tree_JSON Object]. rewrite list_to_map_to_list. apply bool_decide_eq_true_2.
  exists (flag (EnableBonjour s)). vm_compute. reflexivity.
Qed.

Definition no_files : JsonDB := mkJsonDB ∅ (λ _, true) (λ _, true).
Definition first_sets : BTSets unit := default_sets.

(** A first start: the settings are in their file. *)
Definition started : outcome (server memory JsonDB) := InitSets (B := memory) (J := JsonDB) false ([], []) blank no_files.
Definition kept_files : JsonDB :=
  mkJsonDB {[xPathToFilename at_settings := tree_text (Object {[bittorr := Object (fields_of first_sets)]})]} (λ _, true) (λ _, true).
Lemma kept_files_ready : ready kept_files.
Proof.
  intros x Hx. unfold file_ok. split_and!; [done|done|]. unfold file_members, server_paths in *.
  rewrite !elem_of_cons in Hx. destruct Hx as [->|[->|[->|[]%elem_of_nil]]]; eexists; vm_compute; reflexivity.
Qed.

Lemma restart_keeps_settings_witness :
  (sv ← started; of_option (disks sv)) = Done (blank, kept_files) ∧
  ∃ sv b1 j1, InitSets false ([], []) blank kept_files = Done sv ∧
    BTsets sv = raised_sets true default_trackers first_sets ∧ disks sv = Some (b1, j1) ∧ kept b1 j1 first_sets ∧
    ∀ s', StoreSettingsInJson s' = StoreSettingsInJson first_sets →
      ∃ sv' b2 j2, SetBTSets false s' sv = Done sv' ∧ BTsets sv' = checked_sets s' ∧
        disks sv' = Some (b2, j2) ∧ kept b2 j2 (checked_sets s').
Proof.
  split; [vm_compute; reflexivity|].
  assert (∀ x, x ∈ [at_settings; at_viewed] → known (D := memory) x) as kB by (intros; exact I).
  assert (∀ x, x ∈ [at_settings; at_viewed] → known (D := JsonDB) x) as kJ.
  { intros x Hx. change (x ∈ server_paths). unfold server_paths. set_solver. }
  assert (∀ s, fits (D := JsonDB) bittorr (Marshal_sets s)) as fJ.
  { intros s. exists (fields_of s). apply read_all_text. }
  assert (ToLower [] = []) as l1 by done.
  assert (ToLower at_settings = str "settings") as l2 by (vm_compute; reflexivity).
  assert (ToLower at_viewed = str "viewed") as l3 by (vm_compute; reflexivity).
  assert (ToLower at_torrents = str "torrents") as l4 by (vm_compute; reflexivity).
  assert (Unmarshal_sets [] = None) as u1 by (vm_compute; reflexivity).
  assert (∀ v w, alike (D := memory) v w → same_json v w) as aB by (by intros v w ->).
  apply (restart_keeps_settings (B := memory) (J := JsonDB) l1 l2 l3 l4 kB kJ tree_sets_read u1 tree_sets_json tree_sets_bonjour (λ _, I) fJ
           aB (λ v w H, H) ([], []) blank kept_files first_sets).
  - split; [done|]. split; [exact kept_files_ready|]. split; [|done].
    exists (@Marshal_sets tree_JSON tree_sets first_sets). split; [vm_compute; reflexivity|].
    split; [apply tree_sets_read|apply tree_sets_bonjour].
  - intros n data Hd. vm_compute in Hd. discriminate.
  - intros n data Hd. done.
Defined.

(** ** Settings in two places

    Switching to the database copies the settings and leaves them in their file.  At the next
    start both are the same, so nothing is moved or removed.  What is changed then is written
    to the database alone; the start after that finds two that differ and moves the one in the
    file over the other. *)
Definition set_save_path (p : bytes) (s : BTSets unit) : BTSets unit := mkSets
  (CacheSize s) (ReaderReadAHead s) (PreloadCache s) (UseDisk s) p (TrackersListURL s)
  (DefaultTrackers s) (TorrentDisconnectTimeout s) (EnableBonjour s) (TMDBSettings s) (ConnectionsLimit s)
  (AggressivePeerManagement s) (ResponsiveMode s) (StoreSettingsInJson s) (StoreViewedInJson s) tt.

Definition again (sv : server memory JsonDB) : outcome (server memory JsonDB) :=
  '(b, j) ← of_option (disks sv); InitSets (B := memory) (J := JsonDB) false ([], []) b j.

Definition switch_to_database (sv : server memory JsonDB) : outcome (option refusal * server memory JsonDB) :=
  SwitchSettingsStorage (B := memory) (J := JsonDB) false false sv.
Definition set_media (sv : server memory JsonDB) : outcome (server memory JsonDB) :=
  SetBTSets (B := memory) (J := JsonDB) false (set_save_path (str "/media") (BTsets sv)) sv.

Definition switched_and_set : outcome (server memory JsonDB) :=
  sv ← started; '(_, sv) ← switch_to_database sv; sv ← again sv; set_media sv.

Lemma settings_reverted :
  (sv ← switched_and_set; sv' ← again sv;
   Done (StoreSettingsInJson (BTsets sv), TorrentsSavePath (BTsets sv), TorrentsSavePath (BTsets sv'))) =
  Done (false, str "/media", []).
Proof. vm_compute. reflexivity. Qed.

(** A read-only server whose settings are in the database, but should be in their file: they
    are moved, from both of which a read-only server should stay away. *)
Definition in_database : memory := mkMemory {[at_settings := {[bittorr := Marshal_sets first_sets]}]} false.

Definition started_read_only : outcome (server memory JsonDB) := InitSets (B := memory) (J := JsonDB) true ([], []) in_database no_files.

Lemma read_only_moves :
  (sv ← started_read_only; of_option (disks sv)) =
  Done (mkMemory {[at_settings := ∅]} false, kept_files).
Proof. vm_compute. reflexivity. Qed.
