(* ===== verification/TorrentStore.v ===== *)
(** * Torrents remembered ([server/settings/torrent.go])

    The torrents of the server are entries of the database, under their hashes.  Calls that
    follow each other keep exactly the torrents added and not removed ([torrents_kept]); an
    addition writes back every torrent it has listed, so that one removed meanwhile returns
    ([removed_returns]). *)

From S2P Require Import Prelude GoText Database.
#[local] Open Scope Z_scope.

(** A torrent: the hash, in hexadecimal, the time it was added, and the rest. *)
Record TorrentDB (rest : Type) := mkTorrent { InfoHash : bytes; Timestamp : Z; details : rest }.
Arguments mkTorrent {rest} _ _ _. Arguments InfoHash {rest} _. Arguments Timestamp {rest} _. Arguments details {rest} _.

(** Torrents as texts; texts of the database do not say null. *)
Class TorrentTexts := {
  about : Type;
  Unmarshal_torrent : bytes → option (TorrentDB about);
  Marshal_torrent : TorrentDB about → option bytes;
}.

Definition newer {rest} (a b : TorrentDB rest) : bool := Timestamp b <? Timestamp a.

Section Store.
Context {TT : TorrentTexts} {SS : SliceSort (newer (rest := about))} {D : Type} {O : TorrServerDB D}.
Context (ReadOnly : bool).
Notation torrent := (TorrentDB about).

Definition torrents_path : bytes := str "Torrents".

Fixpoint decode_torrents (keys : list bytes) (tdb : DBReadCache D) : outcome (list torrent * DBReadCache D) :=
  match keys with
  | [] => Done ([], tdb)
  | key :: keys =>
      '(buf, tdb) ← cache_Get torrents_path key tdb;
      '(rest, tdb) ← decode_torrents keys tdb;
      let buf := default [] buf in
      Done (match (if bool_decide (buf = []) then None else Unmarshal_torrent buf) with Some t => t :: rest | None => rest end, tdb)
  end.

Definition ListTorrent (tdb : DBReadCache D) : outcome (list torrent * DBReadCache D) :=
  '(keys, tdb) ← cache_List torrents_path tdb;
  '(l, tdb) ← decode_torrents keys tdb;
  Done (sort_slice newer l, tdb).

(** The torrent in place of the first with its hash, or at the end. *)
Fixpoint put_torrent (torr : torrent) (l : list torrent) : list torrent :=
  match l with
  | [] => [torr]
  | db :: l => if bool_decide (InfoHash db = InfoHash torr) then torr :: l else db :: put_torrent torr l
  end.

Fixpoint save_all (l : list torrent) (tdb : DBReadCache D) : outcome (DBReadCache D) :=
  match l with
  | [] => Done tdb
  | db :: l =>
      tdb ← (match Marshal_torrent db with Some buf => cache_Set ReadOnly torrents_path (InfoHash db) buf tdb | None => Done tdb end);
      save_all l tdb
  end.

(** The list is made under the lock of its own, and given to the section that saves. *)
Definition add_listed (torr : torrent) (l : list torrent) (tdb : DBReadCache D) : outcome (DBReadCache D) :=
  save_all (put_torrent torr l) tdb.
Definition AddTorrent (torr : torrent) (tdb : DBReadCache D) : outcome (DBReadCache D) :=
  '(l, tdb) ← ListTorrent tdb; add_listed torr l tdb.

Definition RemTorrent (hash : bytes) (tdb : DBReadCache D) : outcome (DBReadCache D) :=
  cache_Rem ReadOnly torrents_path hash tdb.

Inductive torrent_call := TAdd (torr : torrent) | TRem (hash : bytes) | TList.

Definition torrent_call_run (k : torrent_call) (tdb : DBReadCache D) : outcome (list torrent * DBReadCache D) :=
  match k with
  | TAdd torr => tdb ← AddTorrent torr tdb; Done ([], tdb)
  | TRem hash => tdb ← RemTorrent hash tdb; Done ([], tdb)
  | TList => ListTorrent tdb
  end.

Fixpoint torrent_calls (ks : list torrent_call) (tdb : DBReadCache D) : outcome (list (list torrent) * DBReadCache D) :=
  match ks with
  | [] => Done ([], tdb)
  | k :: ks => '(a, tdb) ← torrent_call_run k tdb; '(l, tdb) ← torrent_calls ks tdb; Done (a :: l, tdb)
  end.

(** What should be kept: torrents by hash. *)
Definition torrent_step (k : torrent_call) (s : gmap bytes torrent) : gmap bytes torrent :=
  match k with TAdd torr => <[InfoHash torr := torr]> s | TRem hash => delete hash s | TList => s end.

(** A list is right if it has each torrent once, the newest first. *)
Definition listed_right (k : torrent_call) (s : gmap bytes torrent) (l : list torrent) : Prop :=
  match k with
  | TList => l ≡ₚ (map_to_list s).*2 ∧ Sorted (λ a b, newer b a = false) l
  | _ => l = []
  end.

Fixpoint all_right (ks : list torrent_call) (s : gmap bytes torrent) (ls : list (list torrent)) : Prop :=
  match ks, ls with
  | [], [] => True
  | k :: ks, l :: ls => listed_right k s l ∧ all_right ks (torrent_step k s) ls
  | _, _ => False
  end.
End Store.

(** ** Calls that follow each other *)

#[local] Arguments cache_Get : simpl never.
#[local] Arguments cache_Set : simpl never.
#[local] Arguments cache_Rem : simpl never.
#[local] Arguments cache_List : simpl never.
#[local] Arguments RemTorrent : simpl never.
#[local] Arguments AddTorrent : simpl never.
#[local] Arguments ListTorrent : simpl never.

Section Kept.
Context {TT : TorrentTexts} {SS : SliceSort (newer (rest := about))} {D : Type} {O : TorrServerDB D} {L : LawfulDB D}.
Notation torrent := (TorrentDB about).
Context (path_known : known (D := D) torrents_path).
(** Torrents that have a text the database takes; it reads as the torrent. *)
Context (writable : torrent → Prop).
Context (texts_read : ∀ t, writable t → ∃ buf, Marshal_torrent t = Some buf ∧ fits (D := D) (InfoHash t) buf ∧ Unmarshal_torrent buf = Some t).
Context (texts_none : Unmarshal_torrent [] = None).
Context (texts_alike : ∀ v w, alike (D := D) v w → Unmarshal_torrent v = Unmarshal_torrent w).

Definition keeps (c : DBReadCache D) (s : gmap bytes torrent) : Prop :=
  ∃ b, agrees c (Some b) ∧
    (∀ h, match b torrents_path !! h, s !! h with
          | Some buf, Some t => Unmarshal_torrent buf = Some t
          | None, None => True
          | _, _ => False
          end) ∧
    map_Forall (λ h t, InfoHash t = h ∧ writable t) s.

Lemma get_torrent h t c s : keeps c s → s !! h = Some t →
  ∃ buf c', cache_Get torrents_path h c = Done (Some buf, c') ∧ keeps c' s ∧ Unmarshal_torrent buf = Some t.
Proof.
  intros (b&Hc&Hm&Hw) Ht. pose proof (get_ok false torrents_path h c (Some b) path_known Hc) as Hg. simpl in Hg.
  destruct (cache_Get torrents_path h c) as [[o c']| |]; simpl in Hg; [|done..]. destruct Hg as [Ho Hc'].
  pose proof (Hm h) as Hh. rewrite Ht in Hh. simpl in Ho. destruct (b torrents_path !! h) as [w|] eqn:E; [|done].
  inversion Ho as [v w' Hv|]; subst. exists v, c'. split; [done|]. split; [by exists b|]. by rewrite (texts_alike _ _ Hv).
Qed.

Lemma decode_torrents_ok keys c s : keeps c s → (∀ h, h ∈ keys → is_Some (s !! h)) →
  ∃ l c', decode_torrents keys c = Done (l, c') ∧ keeps c' s ∧ Forall2 (λ h t, s !! h = Some t) keys l.
Proof.
  revert c. induction keys as [|h keys IH]; intros c Hc Hk; simpl; [by exists [], c|].
  destruct (Hk h) as [t Ht]; [by left|]. destruct (get_torrent h t c s Hc Ht) as (buf&c1&->&Hc1&Hu). simpl.
  destruct (IH c1 Hc1) as (l&c2&->&Hc2&Hl); [intros k Hin; apply Hk; by right|]. simpl.
  rewrite bool_decide_eq_false_2 by (intros ->; by rewrite texts_none in Hu). rewrite Hu.
  exists (t :: l), c2. split; [done|]. split; [done|]. by constructor.
Qed.

Lemma found_torrents (s : gmap bytes torrent) keys l : Forall2 (λ h t, s !! h = Some t) keys l → l = omap (s !!.) keys.
Proof. induction 1 as [|h t keys l Ht _ IH]; simpl; [done|]. by rewrite Ht, IH. Qed.

Lemma list_torrents_ok c s : keeps c s →
  ∃ l c', ListTorrent c = Done (l, c') ∧ keeps c' s ∧ l ≡ₚ (map_to_list s).*2 ∧ Sorted (λ a b, newer b a = false) l.
Proof.
  intros (b&Hc&Hm&Hw). unfold ListTorrent.
  pose proof (list_ok false torrents_path c (Some b) path_known Hc) as Hl. simpl in Hl.
  destruct (cache_List torrents_path c) as [[keys c1]| |]; simpl in Hl; [|done..]. destruct Hl as [Hp Hc1]. simpl in Hp, Hc1 |- *.
  assert (keys ≡ₚ (map_to_list s).*1) as Hkeys.
  { rewrite Hp. apply NoDup_Permutation; try apply NoDup_fst_map_to_list. intros h. rewrite names_elem, list_elem_of_fmap.
    specialize (Hm h). split.
    - intros [v Hv]. rewrite Hv in Hm. destruct (s !! h) as [t|] eqn:E; [|done]. exists (h, t). split; [done|]. by apply elem_of_map_to_list.
    - intros ([h' t]&->&Hin). apply elem_of_map_to_list in Hin. simpl in *. rewrite Hin in Hm. by destruct (b torrents_path !! h'). }
  destruct (decode_torrents_ok keys c1 s) as (l&c2&->&Hc2&Hl); [by exists b| |].
  { intros h. rewrite Hkeys, list_elem_of_fmap. intros ([h' t]&->&Hin). apply elem_of_map_to_list in Hin. by eexists. }
  simpl. exists (sort_slice newer l), c2. split; [done|]. split; [done|]. split; [|apply sort_slice_sorted].
  rewrite sort_slice_perm. clear -Hkeys Hl.
  rewrite (found_torrents _ _ _ Hl).
  rewrite Hkeys.
  assert (∀ p, (∀ ht, ht ∈ p → s !! ht.1 = Some ht.2) → omap (s !!.) p.*1 = p.*2) as Hall.
  { induction p as [|[h t] p IH]; intros Hin; simpl; [done|]. pose proof (Hin (h, t) ltac:(left)) as Hh. simpl in Hh. rewrite Hh.
    f_equal. apply IH. intros ht Ht. apply Hin. by right. }
  rewrite Hall; [done|]. intros [h t]. apply elem_of_map_to_list.
Qed.

Lemma save_one t c s : writable t → keeps c s →
  ∃ buf c', Marshal_torrent t = Some buf ∧ cache_Set false torrents_path (InfoHash t) buf c = Done c' ∧ keeps c' (<[InfoHash t := t]> s).
Proof.
  intros Ht (b&Hc&Hm&Hw). destruct (texts_read t Ht) as (buf&Hb&Hf&Hu).
  pose proof (set_ok false torrents_path (InfoHash t) buf c (Some b) (conj path_known Hf) Hc) as Hs. simpl in Hs.
  destruct (cache_Set false torrents_path (InfoHash t) buf c) as [c'| |] eqn:E; simpl in Hs; [|done..]. destruct Hs as [_ Hc'].
  exists buf, c'. split; [done|]. split; [done|]. eexists. split; [exact Hc'|]. split; [|by apply map_Forall_insert_2].
  intros h. unfold revise. rewrite decide_True by done. destruct (decide (h = InfoHash t)) as [->|Hne].
  - by rewrite lookup_insert_eq, lookup_insert_eq.
  - rewrite lookup_insert_ne, lookup_insert_ne by done. apply Hm.
Qed.

Lemma save_all_ok l c s : Forall writable l → keeps c s →
  ∃ c', save_all false l c = Done c' ∧ keeps c' (foldl (λ s t, <[InfoHash t := t]> s) s l).
Proof.
  intros Hl. revert c s. induction Hl as [|t l Ht _ IH]; intros c s Hc; simpl; [by exists c|].
  destruct (save_one t c s Ht Hc) as (buf&c1&->&->&Hc1). simpl. by apply IH.
Qed.

Lemma find_app {A} (f : A → bool) l k :
  List.find f (l ++ k) = match List.find f l with Some x => Some x | None => List.find f k end.
Proof. induction l as [|x l IH]; simpl; [done|]. by destruct (f x). Qed.

(** Saving torrents that are there already changes nothing. *)
Lemma fold_torrents (l : list torrent) (s : gmap bytes torrent) (h : bytes) :
  foldl (λ s t, <[InfoHash t := t]> s) s l !! h =
  match List.find (λ t, bool_decide (InfoHash t = h)) (rev l) with Some t => Some t | None => s !! h end.
Proof.
  revert s. induction l as [|t l IH]; intros s; simpl; [done|]. rewrite IH, find_app.
  destruct (List.find _ (rev l)); [done|]. simpl. case_bool_decide; subst; [by rewrite lookup_insert_eq|by rewrite lookup_insert_ne].
Qed.

Lemma put_torrent_elem (torr : torrent) (l : list torrent) (t : torrent) : t ∈ put_torrent torr l → t = torr ∨ t ∈ l.
Proof.
  induction l as [|u l IH]; simpl; [rewrite list_elem_of_singleton; by left|].
  case_bool_decide; rewrite !elem_of_cons; naive_solver.
Qed.

Lemma put_torrent_there (torr : torrent) (l : list torrent) : torr ∈ put_torrent torr l.
Proof. induction l as [|u l IH]; simpl; [by left|]. case_bool_decide; [by left|by right]. Qed.

(** With different hashes in the list, only the new torrent stays under its hash. *)
Lemma put_torrent_only (torr : torrent) (l : list torrent) (t : torrent) : NoDup (InfoHash <$> l) → t ∈ put_torrent torr l → InfoHash t = InfoHash torr → t = torr.
Proof.
  induction l as [|u l IH]; simpl; intros Hn Ht Hh; [by apply list_elem_of_singleton in Ht|].
  apply NoDup_cons in Hn as [Hu Hn]. case_bool_decide as E.
  - apply elem_of_cons in Ht as [->|Ht]; [done|]. destruct Hu. rewrite E, <- Hh. by apply list_elem_of_fmap_2.
  - apply elem_of_cons in Ht as [->|Ht]; [done|]. by apply IH.
Qed.

Lemma add_torrent_ok torr c s : writable torr → keeps c s →
  ∃ c', AddTorrent false torr c = Done c' ∧ keeps c' (<[InfoHash torr := torr]> s).
Proof.
  intros Hw Hc. unfold AddTorrent, add_listed. destruct (list_torrents_ok c s Hc) as (l&c1&->&Hc1&Hp&_). simpl.
  pose proof Hc1 as (b&_&_&Hs).
  assert (∀ t, t ∈ l → s !! InfoHash t = Some t ∧ writable t) as Hin.
  { intros t. rewrite Hp, list_elem_of_fmap. intros ([h u]&->&Hu). apply elem_of_map_to_list in Hu. destruct (Hs _ _ Hu) as [Hh ?]. simpl. by rewrite Hh. }
  assert (NoDup (InfoHash <$> l)) as Hn.
  { rewrite Hp, <- list_fmap_compose. rewrite (list_fmap_ext _ fst); [apply NoDup_fst_map_to_list|].
    intros i [h u] Hi. apply list_elem_of_lookup_2, elem_of_map_to_list in Hi. by destruct (Hs _ _ Hi). }
  destruct (save_all_ok (put_torrent torr l) c1 s) as (c2&Hsave&Hc2); [|done|].
  { rewrite Forall_forall. intros t [->|Ht]%put_torrent_elem; [done|]. by apply Hin. }
  exists c2. split; [done|].
  replace (<[InfoHash torr:=torr]> s) with (foldl (λ s t, <[InfoHash t := t]> s) s (put_torrent torr l)); [done|].
  apply map_eq. intros h. rewrite fold_torrents. destruct (List.find _ _) as [t|] eqn:E.
  - apply List.find_some in E as [Ht E]. apply bool_decide_eq_true in E. apply in_rev in Ht. apply list_elem_of_In in Ht.
    destruct (decide (h = InfoHash torr)) as [->|Hne].
    + rewrite lookup_insert_eq. f_equal. by eapply put_torrent_only.
    + rewrite lookup_insert_ne by done. apply put_torrent_elem in Ht as [->|Ht]; [done|]. subst h. by destruct (Hin t Ht) as [-> _].
  - destruct (decide (h = InfoHash torr)) as [->|Hne]; [|by rewrite lookup_insert_ne].
    eapply List.find_none in E; [|apply in_rev; rewrite rev_involutive; apply list_elem_of_In, (put_torrent_there torr l)].
    by rewrite bool_decide_eq_true_2 in E.
Qed.

Lemma rem_torrent_ok hash c s : keeps c s → ∃ c', RemTorrent false hash c = Done c' ∧ keeps c' (delete hash s).
Proof.
  intros (b&Hc&Hm&Hw). unfold RemTorrent.
  pose proof (rem_ok false torrents_path hash c (Some b) path_known Hc) as Hs. simpl in Hs.
  destruct (cache_Rem false torrents_path hash c) as [c'| |]; simpl in Hs; [|done..]. destruct Hs as [_ Hc'].
  exists c'. split; [done|]. eexists. split; [exact Hc'|]. split; [|by apply map_Forall_delete].
  intros h. unfold revise. rewrite decide_True by done. destruct (decide (h = hash)) as [->|Hne].
  - by rewrite lookup_delete_eq, lookup_delete_eq.
  - rewrite lookup_delete_ne, lookup_delete_ne by done. apply Hm.
Qed.

Definition call_writable (k : torrent_call) : Prop := match k with TAdd torr => writable torr | _ => True end.

Lemma torrent_calls_ok ks c s : Forall call_writable ks → keeps c s →
  ∃ ls c', torrent_calls false ks c = Done (ls, c') ∧ all_right ks s ls.
Proof.
  intros Hk. revert c s. induction Hk as [|k ks Hk _ IH]; intros c s Hc; simpl; [by exists [], c|].
  assert (∃ l c1, torrent_call_run false k c = Done (l, c1) ∧ keeps c1 (torrent_step k s) ∧ listed_right k s l) as (l&c1&->&Hc1&Hl).
  { destruct k as [torr|hash|]; simpl.
    - destruct (add_torrent_ok torr c s Hk Hc) as (c1&->&Hc1). by exists [], c1.
    - destruct (rem_torrent_ok hash c s Hc) as (c1&->&Hc1). by exists [], c1.
    - destruct (list_torrents_ok c s Hc) as (l&c1&->&Hc1&Hl). by exists l, c1. }
  simpl. destruct (IH c1 _ Hc1) as (ls&c2&->&Hr). simpl. by exists (l :: ls), c2.
Qed.

(** C15: Adding, removing and listing torrents through the read cache of any lawful database
    that has none to start with: calls that follow each other end, and each list has exactly
    the torrents added and not removed since, each once and as it was last added, the newest
    first, although every addition writes all of them. *)
Theorem torrents_kept (calls : list torrent_call) (d : D) :
  ready d → contents d torrents_path = ∅ → Forall call_writable calls →
  ∃ lists tdb, torrent_calls false calls (NewDBReadCache d) = Done (lists, tdb) ∧ all_right calls ∅ lists.
Proof.
  intros Hd He Hc. apply torrent_calls_ok; [done|]. exists (contents d). split; [by apply new_agrees|]. split.
  - intros h. by rewrite He, !lookup_empty.
  - apply map_Forall_empty.
Qed.
End Kept.

(** ** Calls that overlap *)

(** A torrent as its hash and time. *)
Definition plain_texts : TorrentTexts := {|
  about := unit;
  Unmarshal_torrent buf := match buf with t :: h => Some (mkTorrent h t tt) | [] => None end;
  Marshal_torrent t := Some (Timestamp t :: InfoHash t);
|}.
#[local] Existing Instance plain_texts.
#[local] Instance newer_sort : SliceSort (newer (rest := about)).
Proof. apply insertion_slice_sort. unfold newer. intros a b Hab. zlia. Defined.

Definition torrent_a : TorrentDB about := mkTorrent (str "a") 1 tt.
Definition torrent_b : TorrentDB about := mkTorrent (str "b") 2 tt.
Definition torrent_calls_demo : list torrent_call := [TAdd torrent_a; TAdd torrent_b; TList; TRem (str "a"); TList].

Lemma torrents_kept_witness :
  ∃ lists tdb, torrent_calls false torrent_calls_demo (NewDBReadCache blank) = Done (lists, tdb) ∧
    lists = [[]; []; [torrent_b; torrent_a]; []; [torrent_b]] ∧ all_right torrent_calls_demo ∅ lists.
Proof.
  assert (known (D := memory) torrents_path) as Hk by exact I.
  assert (∀ t : TorrentDB about, True → ∃ buf, Marshal_torrent t = Some buf ∧ fits (D := memory) (InfoHash t) buf ∧ Unmarshal_torrent buf = Some t) as Ht.
  { intros [h t []] _. by eexists. }
  destruct (torrents_kept (D := memory) Hk (λ _, True) Ht eq_refl (λ v w (E : v = w), f_equal Unmarshal_torrent E)
              torrent_calls_demo blank) as (lists&tdb&Hrun&Hr); [done|vm_compute; reflexivity|by repeat constructor|].
  exists lists, tdb. split; [done|]. split; [|done].
  assert ((p ← torrent_calls false torrent_calls_demo (NewDBReadCache blank); Done p.1) =
          Done [[]; []; [torrent_b; torrent_a]; []; [torrent_b]]) as E by (vm_compute; reflexivity).
  rewrite Hrun in E. by injection E.
Defined.

(** One request adds b while another removes a, between the two sections of the addition: a
    is back, and stays. *)
Definition race : outcome (list (TorrentDB about)) :=
  tdb ← AddTorrent false torrent_a (NewDBReadCache blank);
  '(listed, tdb) ← ListTorrent tdb;
  tdb ← RemTorrent false (str "a") tdb;
  tdb ← add_listed false torrent_b listed tdb;
  '(l, _) ← ListTorrent tdb;
  Done l.

Lemma removed_returns : race = Done [torrent_b; torrent_a].
Proof. vm_compute. reflexivity. Qed.
