(* ===== verification/JsText.v ===== *)
(** * Texts and numbers of JavaScript

    The web interface's bundles are JavaScript: strings are sequences of 16-bit code
    units, numbers are binary64 values.  This file holds what the modelled modules use
    of them: the conversions between strings and buffers of UTF-8 (the [Buffer] of the
    bundle [2.f454f580.chunk.js]), hexadecimal, [encodeURIComponent] and
    [decodeURIComponent], and numbers that are integers. *)

From S2P Require Import Prelude GoText.
#[local] Open Scope Z_scope.

(** A string: its code units. *)
Notation jstr := (list Z).

(** ** Code units and code points *)

Definition is_unit (c : Z) : Prop := 0 <= c < 65536.
Definition is_high (c : Z) : bool := (55296 <=? c) && (c <=? 56319).
Definition is_low (c : Z) : bool := (56320 <=? c) && (c <=? 57343).

(** A code point that is not a surrogate. *)
Definition scalar (c : Z) : bool := (0 <=? c) && (c <=? 1114111) && negb ((55296 <=? c) && (c <=? 57343)).

Definition utf16 (c : Z) : jstr :=
  if c <? 65536 then [c] else [55296 + (c - 65536) / 1024; 56320 + (c - 65536) mod 1024].

(** The code points of a string as [utf8ToBytes] finds them, [lead] the first half of a
    pair that waits for the second; a half on its own is U+FFFD. *)
Fixpoint code_points_from (lead : option Z) (s : jstr) : list Z :=
  match s with
  | [] => []
  | c :: s' =>
      if (55295 <? c) && (c <? 57344) then
        match lead with
        | None =>
            if 56319 <? c then 65533 :: code_points_from None s'
            else match s' with [] => [65533] | _ => code_points_from (Some c) s' end
        | Some i =>
            if c <? 56320 then 65533 :: code_points_from (Some c) s'
            else 65536 + (i - 55296) * 1024 + (c - 56320) :: code_points_from None s'
        end
      else match lead with Some _ => [65533] | None => [] end ++ c :: code_points_from None s'
  end.

Definition code_points (s : jstr) : list Z := code_points_from None s.

(** A string without surrogates on their own. *)
Fixpoint well_formed (s : jstr) : bool :=
  match s with
  | [] => true
  | a :: s1 =>
      if is_high a then
        match s1 with
        | b :: s2 => is_low b && well_formed s2
        | [] => false
        end
      else negb (is_low a) && (0 <=? a) && (a <? 65536) && well_formed s1
  end.

(** ** UTF-8 *)

Definition utf8 (c : Z) : bytes :=
  if c <? 128 then [c]
  else if c <? 2048 then [192 + c / 64; 128 + c mod 64]
  else if c <? 65536 then [224 + c / 4096; 128 + c / 64 mod 64; 128 + c mod 64]
  else [240 + c / 262144; 128 + c / 4096 mod 64; 128 + c / 64 mod 64; 128 + c mod 64].

(** [Buffer.from(s)] *)
Definition from_string (s : jstr) : bytes := concat (utf8 <$> code_points s).

(** [b.toString()]: a byte that starts no sequence is U+FFFD on its own. *)
Definition to_string (b : bytes) : jstr := concat (utf16 <$> runes b).

Lemma runes_utf8 c s : scalar c = true → runes (utf8 c ++ s) = c :: runes s.
Proof.
  unfold scalar. intros Hc. reflect_bools. apply andb_false_iff in H0. rewrite !Z.leb_gt in H0. unfold utf8.
  pose proof (Z.div_mod c 64 ltac:(lia)) as E1. pose proof (Z.mod_pos_bound c 64 ltac:(lia)) as B1.
  pose proof (Z.div_mod (c / 64) 64 ltac:(lia)) as E2. pose proof (Z.mod_pos_bound (c / 64) 64 ltac:(lia)) as B2.
  rewrite Z.div_div in E2 by lia. change (64 * 64) with 4096 in E2.
  pose proof (Z.div_mod (c / 4096) 64 ltac:(lia)) as E3. pose proof (Z.mod_pos_bound (c / 4096) 64 ltac:(lia)) as B3.
  rewrite Z.div_div in E3 by lia. change (4096 * 64) with 262144 in E3.
  destruct (c <? 128) eqn:H128; reflect_bools.
  { simpl. by rewrite (proj2 (Z.ltb_lt _ _)). }
  unfold cont. destruct (c <? 2048) eqn:H2048; reflect_bools.
  { simpl. rewrite (proj2 (Z.ltb_ge _ _)) by lia. unfold cont.
    repeat match goal with |- context [?a <=? ?b] => rewrite (proj2 (Z.leb_le a b)) by lia end. simpl. f_equal. lia. }
  destruct (c <? 65536) eqn:H64k; reflect_bools.
  - cbn [app runes]. rewrite (proj2 (Z.ltb_ge _ _)) by lia. unfold cont at 1. rewrite (proj2 (Z.leb_gt _ 223)) by lia.
    rewrite andb_false_r. cbn [andb].
    unfold cont. set (lo := if 224 + c / 4096 =? 224 then 160 else 128). set (hi := if 224 + c / 4096 =? 237 then 159 else 191).
    assert (Hlo : lo <= 128 + c / 64 mod 64) by (unfold lo; destruct (_ =? 224) eqn:E; reflect_bools; lia).
    assert (Hhi : 128 + c / 64 mod 64 <= hi) by (unfold hi; destruct (_ =? 237) eqn:E; reflect_bools; lia).
    rewrite !(proj2 (Z.leb_le _ _)) by lia. cbn [andb]. f_equal. lia.
  - cbn [app runes]. rewrite (proj2 (Z.ltb_ge _ _)) by lia. unfold cont at 1. rewrite (proj2 (Z.leb_gt _ 223)) by lia.
    rewrite andb_false_r. cbn [andb]. unfold cont at 1. rewrite (proj2 (Z.leb_gt _ 239)) by lia. rewrite andb_false_r. cbn [andb].
    unfold cont. set (lo := if 240 + c / 262144 =? 240 then 144 else 128). set (hi := if 240 + c / 262144 =? 244 then 143 else 191).
    assert (Hlo : lo <= 128 + c / 4096 mod 64) by (unfold lo; destruct (_ =? 240) eqn:E; reflect_bools; lia).
    assert (Hhi : 128 + c / 4096 mod 64 <= hi) by (unfold hi; destruct (_ =? 244) eqn:E; reflect_bools; lia).
    rewrite !(proj2 (Z.leb_le _ _)) by lia. cbn [andb]. f_equal. lia.
Qed.

Lemma runes_concat_utf8 cs s : Forall (λ c, scalar c = true) cs → runes (concat (utf8 <$> cs) ++ s) = cs ++ runes s.
Proof.
  induction 1 as [|c cs Hc _ IH]; [done|]. rewrite fmap_cons. cbn [concat]. rewrite <- app_assoc, runes_utf8 by done. cbn [app]. by f_equal.
Qed.

(** [blia] proves a goal about comparisons. *)
Ltac blia :=
  reflect_bools;
  rewrite ?andb_true_iff, ?andb_false_iff, ?orb_true_iff, ?orb_false_iff, ?negb_true_iff, ?negb_false_iff,
    ?andb_true_iff, ?andb_false_iff, ?Z.leb_le, ?Z.leb_gt, ?Z.ltb_lt, ?Z.ltb_ge, ?Z.eqb_eq, ?Z.eqb_neq; lia.

(** Induction along the code points of a string. *)
Lemma units_ind (P : jstr → Prop) :
  P [] → (∀ a, P [a]) → (∀ a b s, P s → P (b :: s) → P (a :: b :: s)) → ∀ s, P s.
Proof.
  intros H0 H1 H2 s. assert (P s ∧ ∀ a, P (a :: s)) as [? _]; [|done].
  induction s as [|b s [IH1 IH2]]; [by split|]. split; [done|]. intros a. by apply H2.
Qed.

Lemma pair_value a b : is_high a = true → is_low b = true →
  let c := 65536 + (a - 55296) * 1024 + (b - 56320) in scalar c = true ∧ utf16 c = [a; b].
Proof.
  unfold is_high, is_low. intros Ha Hb. cbv zeta. set (c := 65536 + _ + _). split; [unfold scalar, c; blia|].
  unfold utf16. rewrite (proj2 (Z.ltb_ge _ _)) by (unfold c; zlia).
  replace (c - 65536) with ((b - 56320) + (a - 55296) * 1024) by (unfold c; lia).
  rewrite Z.div_add, Z.mod_add, Z.div_small, Z.mod_small by zlia. f_equal; [|f_equal]; lia.
Qed.

Lemma single_value a : is_high a = false → is_low a = false → 0 <= a < 65536 → scalar a = true ∧ utf16 a = [a].
Proof.
  unfold is_high, is_low, scalar, utf16. intros Ha Hb Hr. rewrite (proj2 (Z.ltb_lt _ _)) by lia. split; [|done].
  rewrite andb_false_iff in *. rewrite !Z.leb_gt in *. blia.
Qed.

Lemma surrogate_eq c : ((55295 <? c) && (c <? 57344)) = is_high c || is_low c.
Proof.
  unfold is_high, is_low. apply eq_bool_prop_intro. rewrite orb_True, !andb_True. rewrite !Is_true_true, !Z.ltb_lt, !Z.leb_le. lia.
Qed.

Lemma code_points_pair a b s : is_high a = true → is_low b = true →
  code_points (a :: b :: s) = 65536 + (a - 55296) * 1024 + (b - 56320) :: code_points s.
Proof.
  intros Ha Hb. unfold code_points. cbn [code_points_from]. rewrite !surrogate_eq, Ha, Hb, orb_true_r. cbn [orb].
  unfold is_high, is_low in *. rewrite (proj2 (Z.ltb_ge 56319 a)), (proj2 (Z.ltb_ge b 56320)) by zlia. done.
Qed.

Lemma code_points_single a s : is_high a = false → is_low a = false → code_points (a :: s) = a :: code_points s.
Proof. intros Ha Hb. unfold code_points. cbn [code_points_from]. by rewrite surrogate_eq, Ha, Hb. Qed.

Lemma code_points_ok s : well_formed s = true →
  Forall (λ c, scalar c = true) (code_points s) ∧ concat (utf16 <$> code_points s) = s.
Proof.
  induction s as [|a|a b s IH1 IH2] using units_ind; intros Hw; [by split|..].
  - cbn [well_formed] in Hw. destruct (is_high a) eqn:Ea; [done|]. destruct (is_low a) eqn:Eb; [done|].
    destruct (single_value a) as [H3 H4]; [done|done|clear Ea Eb; simpl in Hw; zlia|].
    rewrite code_points_single by done. split; [by repeat constructor|]. rewrite fmap_cons. cbn [concat]. by rewrite H4.
  - change (well_formed (a :: b :: s)) with (if is_high a then is_low b && well_formed s
      else negb (is_low a) && (0 <=? a) && (a <? 65536) && well_formed (b :: s)) in Hw.
    destruct (is_high a) eqn:Ea.
    + apply andb_true_iff in Hw as [Hb Hw]. destruct (pair_value a b Ea Hb) as [H3 H4], (IH1 Hw) as [H5 H6].
      rewrite code_points_pair by done. split; [by constructor|]. rewrite fmap_cons. cbn [concat]. by rewrite H4, H6.
    + apply andb_true_iff in Hw as [Hw Hs]. destruct (is_low a) eqn:Eb; [done|]. destruct (IH2 Hs) as [H5 H6].
      destruct (single_value a) as [H3 H4]; [done|done|clear Ea Eb; simpl in Hw; zlia|].
      rewrite code_points_single by done. split; [by constructor|]. rewrite fmap_cons. cbn [concat]. by rewrite H4, H6.
Qed.

(** A string survives the way through a buffer unless a surrogate stands on its own. *)
Lemma to_from_string s : well_formed s = true → to_string (from_string s) = s.
Proof.
  intros Hw. destruct (code_points_ok s Hw) as [Hc He]. unfold to_string, from_string.
  rewrite <- (app_nil_r (concat (utf8 <$> _))), runes_concat_utf8 by done. cbn [runes]. by rewrite app_nil_r.
Qed.

Lemma utf8_bytes c : scalar c = true → bytes_ok (utf8 c).
Proof.
  unfold scalar, utf8. intros Hc. reflect_bools. clear H0.
  pose proof (Z.mod_pos_bound c 64 ltac:(lia)). pose proof (Z.mod_pos_bound (c / 64) 64 ltac:(lia)).
  pose proof (Z.mod_pos_bound (c / 4096) 64 ltac:(lia)).
  assert (c < 65536 → c / 4096 < 16) by (intros; apply Z.div_lt_upper_bound; lia).
  assert (c / 262144 < 5) by (apply Z.div_lt_upper_bound; lia).
  assert (c < 2048 → c / 64 < 32) by (intros; apply Z.div_lt_upper_bound; lia).
  assert (0 <= c / 64 ∧ 0 <= c / 4096 ∧ 0 <= c / 262144) as (?&?&?) by (split_and!; apply Z.div_pos; lia).
  unfold is_byte. repeat (case_match; reflect_bools); repeat constructor; lia.
Qed.

Lemma code_points_scalar s : Forall is_unit s → Forall (λ c, scalar c = true) (code_points s).
Proof.
  unfold code_points. intros Hs. assert (Hl : ∀ lead, match lead with Some i => is_high i = true | None => True end →
    Forall (λ c, scalar c = true) (code_points_from lead s)); [|by apply Hl].
  induction Hs as [|c s Hc Hs IH]; intros lead Hl; [by destruct lead|]. cbn [code_points_from]. rewrite surrogate_eq.
  destruct (is_high c) eqn:Ec; cbn [orb].
  - assert (c < 56320) by (unfold is_high in Ec; zlia). rewrite (proj2 (Z.ltb_ge 56319 c)), (proj2 (Z.ltb_lt c 56320)) by lia.
    destruct lead as [i|]; [constructor; [done|by apply IH]|]. destruct s; [by repeat constructor|]. by apply IH.
  - destruct (is_low c) eqn:El.
    + assert (56319 < c) by (unfold is_low in El; zlia). rewrite (proj2 (Z.ltb_lt 56319 c)), (proj2 (Z.ltb_ge c 56320)) by lia.
      destruct lead as [i|]; (constructor; [|by apply IH]); [by apply pair_value|done].
    + destruct (single_value c) as [Hv _]; [done..|]. destruct lead; repeat (constructor; try done); by apply IH.
Qed.

Lemma from_string_bytes s : Forall is_unit s → bytes_ok (from_string s).
Proof.
  intros Hs%code_points_scalar. unfold from_string. induction Hs as [|c cs Hc _ IH]; [constructor|].
  rewrite fmap_cons. cbn [concat]. apply bytes_ok_app. split; [by apply utf8_bytes|done].
Qed.

(** ** Objects

    An object lists its own properties in the order they were added; nothing modelled
    here depends on the order in which JavaScript enumerates them. *)

Fixpoint lookup_prop {A} (key : jstr) (d : list (jstr * A)) : option A :=
  match d with [] => None | (k, v) :: d => if bool_decide (k = key) then Some v else lookup_prop key d end.

(** [e[key] = v].  Assigning to [__proto__] makes no property. *)
Fixpoint replace_prop {A} (key : jstr) (v : A) (d : list (jstr * A)) : list (jstr * A) :=
  match d with
  | [] => [(key, v)]
  | (k, w) :: d => if bool_decide (k = key) then (k, v) :: d else (k, w) :: replace_prop key v d
  end.

Definition set_prop {A} (key : jstr) (v : A) (d : list (jstr * A)) : list (jstr * A) :=
  if bool_decide (key = str "__proto__") then d else replace_prop key v d.

Lemma replace_prop_new {A} k (v : A) d : k ∉ d.*1 → replace_prop k v d = d ++ [(k, v)].
Proof.
  induction d as [|[k' w] d IH]; [done|]. cbn [replace_prop fmap list_fmap]. intros [Hk Hd]%not_elem_of_cons.
  rewrite bool_decide_false by (simpl in Hk; congruence). by rewrite IH.
Qed.

Lemma lookup_replace_prop {A} k (v : A) d : lookup_prop k (replace_prop k v d) = Some v.
Proof.
  induction d as [|[k' w] d IH]; simpl; [by rewrite bool_decide_true|].
  destruct (bool_decide (k' = k)) eqn:E; simpl; by rewrite E.
Qed.

Lemma lookup_replace_prop_ne {A} k k' (v : A) d : k ≠ k' → lookup_prop k' (replace_prop k v d) = lookup_prop k' d.
Proof.
  intros Hk. induction d as [|[q w] d IH]; simpl; [by rewrite bool_decide_false|].
  destruct (bool_decide (q = k)) eqn:E; simpl; [|by rewrite IH].
  apply bool_decide_eq_true in E as ->. by rewrite (bool_decide_false (k = k')).
Qed.

(** ** White space, case, hexadecimal *)

Definition js_space (c : Z) : bool :=
  ((9 <=? c) && (c <=? 13)) || (c =? 32) || (c =? 160) || (c =? 5760) || ((8192 <=? c) && (c <=? 8202)) ||
  (c =? 8232) || (c =? 8233) || (c =? 8239) || (c =? 8287) || (c =? 12288) || (c =? 65279).

(** [s.toLowerCase()], for letters of ASCII. *)
Definition lower_unit (c : Z) : Z := if (65 <=? c) && (c <=? 90) then c + 32 else c.
Definition toLowerCase (s : jstr) : jstr := lower_unit <$> s.

(** [b.toString("hex")] is [hex_encode]. *)

(** ** Numbers that are integers

    [Int z] is a number whose value is [z] (both zeros are [Int 0]), [Infinity] one that
    is out of range.  [js_round] is the number nearest to an integer, ties to even. *)

Inductive number := Int (z : Z) | Infinity (negative : bool).

#[export] Instance number_eq_dec : EqDecision number.
Proof. solve_decision. Defined.

Definition two53 : Z := 9007199254740992.

Definition js_round (z : Z) : number :=
  let a := Z.abs z in
  if a <=? two53 then Int z
  else
    let u := 2 ^ (Z.log2 a - 52) in
    let q := a / u in
    let r := a mod u in
    let q := if (u <? 2 * r) || ((2 * r =? u) && Z.odd q) then q + 1 else q in
    if 2 ^ 1024 <=? q * u then Infinity (z <? 0) else Int (Z.sgn z * (q * u)).

Definition js_add (a b : number) : number :=
  match a, b with
  | Int x, Int y => js_round (x + y)
  | Infinity n, _ => Infinity n
  | _, Infinity n => Infinity n
  end.

(** [x * k] for an integer [k] that is not 0. *)
Definition js_scale (a : number) (k : Z) : number :=
  match a with Int x => js_round (x * k) | Infinity n => Infinity (xorb n (k <? 0)) end.

(** [~~x], [x | 0] *)
Definition to_int32 (a : number) : Z := match a with Int x => i32 x | Infinity _ => 0 end.

Lemma js_round_exact z : Z.abs z <= two53 → js_round z = Int z.
Proof. intros Hz. unfold js_round. by rewrite (proj2 (Z.leb_le _ _)). Qed.

(** The fewest digits that are read back as the number, filled up with zeros. *)
Fixpoint shortest (fuel : nat) (k m a : Z) : Z :=
  match fuel with
  | O => a
  | S fuel =>
      let p := 10 ^ (m - k) in
      let s := (a + p / 2) / p in
      if bool_decide (js_round (s * p) = Int a) then s * p else shortest fuel (k + 1) m a
  end.

(** Zeros at the end of a text. *)
Fixpoint strip_zeros (s : bytes) : bytes :=
  match s with
  | [] => []
  | c :: s => match strip_zeros s with [] => if c =? 48 then [] else [c] | t => c :: t end
  end.

(** [x.toString()] for integers: from 10^21 on with an exponent. *)
Definition num_text (z : Z) : jstr :=
  let a := Z.abs z in
  if a <=? two53 then FormatInt z
  else
    let v := shortest 17 1 (len (to_base 10 a)) a in
    (if z <? 0 then [45] else []) ++
    if v <? 10 ^ 21 then FormatInt v
    else
      match strip_zeros (FormatInt v) with
      | [] => []
      | [d] => d :: str "e+" ++ FormatInt (len (FormatInt v) - 1)
      | d :: ds => d :: 46 :: ds ++ str "e+" ++ FormatInt (len (FormatInt v) - 1)
      end.

Definition number_text (n : number) : jstr :=
  match n with Int z => num_text z | Infinity neg => (if neg then [45] else []) ++ str "Infinity" end.

(** [parseInt(s, radix)] *)
Definition digit_value (c : Z) : Z :=
  if (48 <=? c) && (c <=? 57) then c - 48
  else if (97 <=? c) && (c <=? 122) then c - 87
  else if (65 <=? c) && (c <=? 90) then c - 55
  else 36.

Fixpoint take_digits (radix : Z) (s : jstr) : list Z :=
  match s with
  | [] => []
  | c :: s => if digit_value c <? radix then digit_value c :: take_digits radix s else []
  end.

Fixpoint drop_spaces (s : jstr) : jstr :=
  match s with [] => [] | c :: s' => if js_space c then drop_spaces s' else s end.

Definition parseInt (s : jstr) (radix : Z) : option number :=
  let s := drop_spaces s in
  let '(neg, s) := match s with 43 :: s => (false, s) | 45 :: s => (true, s) | _ => (false, s) end in
  let '(radix, s) :=
    match s with
    | 48 :: x :: s' => if ((x =? 120) || (x =? 88)) && ((radix =? 0) || (radix =? 16)) then (16, s') else (if radix =? 0 then 10 else radix, s)
    | _ => (if radix =? 0 then 10 else radix, s)
    end in
  match take_digits radix s with
  | [] => None
  | ds => Some (js_round ((if neg : bool then -1 else 1) * from_base radix ds))
  end.

(** [Buffer.from(s, "hex")] for a string of even length: up to the first pair that is no number. *)
Fixpoint from_hex (s : jstr) : bytes :=
  match s with
  | a :: b :: s =>
      match parseInt [a; b] 16 with
      | Some (Int v) => v mod 256 :: from_hex s
      | _ => []
      end
  | _ => []
  end.

(** ** URI components *)

Definition uri_unescaped (c : Z) : bool :=
  is_alnum c || existsb (Z.eqb c) (str "-_.!~*'()").

Definition hex_upper (x : Z) : Z := if x <? 10 then 48 + x else 55 + x.
Definition percent (b : Z) : jstr := [37; hex_upper (b / 16); hex_upper (b mod 16)].

(** [encodeURIComponent(s)]: an error for a half of a pair on its own. *)
Definition encodeURIComponent (s : jstr) : outcome jstr :=
  if well_formed s then Done (concat ((λ c, if uri_unescaped c then [c] else concat (percent <$> utf8 c)) <$> code_points s))
  else Panic.

(** The bytes of the escapes a string starts with, at most [n]. *)
Definition escape (s : jstr) : option (Z * jstr) :=
  match s with
  | 37 :: a :: b :: s =>
      match hex_val a, hex_val b with Some x, Some y => Some (x * 16 + y, s) | _, _ => None end
  | _ => None
  end.

Fixpoint continuation (n : nat) (s : jstr) : option (bytes * jstr) :=
  match n with
  | O => Some ([], s)
  | S n =>
      match escape s with
      | Some (b, s) => if (128 <=? b) && (b <? 192) then (λ '(bs, s), (b :: bs, s)) <$> continuation n s else None
      | None => None
      end
  end.

Definition tail_length (b : Z) : nat :=
  if (192 <=? b) && (b <? 224) then 1 else if (224 <=? b) && (b <? 240) then 2 else if (240 <=? b) && (b <? 248) then 3 else 0.

(** The code point a string starts with the escapes of: its units, and the rest. *)
Definition escaped (s : jstr) : option (jstr * jstr) :=
  match escape s with
  | None => None
  | Some (b, s) =>
      if b <? 128 then Some ([b], s)
      else if decide (tail_length b = O) then None
      else
        match continuation (tail_length b) s with
        | Some (bs, s) => match runes (b :: bs) with [c] => Some (utf16 c, s) | _ => None end
        | None => None
        end
  end.

(** [decodeURIComponent(s)]: an error for an escape that is malformed or does not start
    the UTF-8 of a code point. *)
Fixpoint decode_uri (fuel : nat) (s : jstr) : outcome jstr :=
  match fuel with
  | O => NoFuel
  | S fuel =>
      match s with
      | [] => Done []
      | c :: s' =>
          if c =? 37 then
            match escaped s with
            | None => Panic
            | Some (u, s) => r ← decode_uri fuel s; Done (u ++ r)
            end
          else r ← decode_uri fuel s'; Done (c :: r)
      end
  end.

Definition decodeURIComponent (s : jstr) : outcome jstr := decode_uri (S (length s)) s.

(** ** URI components round-trip *)

Lemma hex_val_upper x : 0 <= x < 16 → hex_val (hex_upper x) = Some x.
Proof.
  intros Hx. unfold hex_val, hex_upper. destruct (x <? 10) eqn:E; reflect_bools.
  - rewrite !(proj2 (Z.leb_le _ _)) by lia. cbn [andb]. f_equal. lia.
  - rewrite (proj2 (Z.leb_gt (55 + x) 57)), andb_false_r, (proj2 (Z.leb_gt 97 _)) by lia. cbn [andb].
    rewrite !(proj2 (Z.leb_le _ _)) by lia. cbn [andb]. f_equal. lia.
Qed.

Lemma escape_percent b s : is_byte b → escape (percent b ++ s) = Some (b, s).
Proof.
  unfold is_byte. intros Hb. unfold escape, percent. cbn [app]. rewrite (hex_val_upper (b / 16)), (hex_val_upper (b mod 16)).
  - do 2 f_equal. pose proof (Z.div_mod b 16 ltac:(lia)). lia.
  - apply Z.mod_pos_bound. lia.
  - split; [apply Z.div_pos|apply Z.div_lt_upper_bound]; lia.
Qed.

Lemma continuation_percent bs s : Forall (λ b, 128 <= b < 192) bs →
  continuation (length bs) (concat (percent <$> bs) ++ s) = Some (bs, s).
Proof.
  induction 1 as [|b bs Hb _ IH]; [done|]. rewrite fmap_cons. cbn [length concat continuation]. rewrite <- app_assoc.
  rewrite escape_percent by (unfold is_byte; lia). rewrite (proj2 (Z.leb_le _ _)), (proj2 (Z.ltb_lt _ _)) by lia. cbn [andb].
  by rewrite IH.
Qed.

(** The UTF-8 of a code point beyond ASCII: a first byte that says how many follow. *)
Lemma utf8_shape c : scalar c = true → 128 <= c → ∃ b bs, utf8 c = b :: bs ∧ Forall (λ b, 128 <= b < 192) bs ∧
  (length bs = 1%nat ∧ 192 <= b < 224 ∨ length bs = 2%nat ∧ 224 <= b < 240 ∨ length bs = 3%nat ∧ 240 <= b < 248).
Proof.
  unfold scalar, utf8. intros Hc Hl. apply andb_true_iff in Hc as [Hc _]. apply andb_true_iff in Hc as [_ Hc].
  pose proof (Z.mod_pos_bound c 64 ltac:(lia)). pose proof (Z.mod_pos_bound (c / 64) 64 ltac:(lia)). pose proof (Z.mod_pos_bound (c / 4096) 64 ltac:(lia)).
  assert (c < 65536 → c / 4096 < 16) by (intros; apply Z.div_lt_upper_bound; lia).
  assert (c / 262144 < 5) by (apply Z.div_lt_upper_bound; zlia).
  assert (c < 2048 → c / 64 < 32) by (intros; apply Z.div_lt_upper_bound; lia).
  assert (0 <= c / 64 ∧ 0 <= c / 4096 ∧ 0 <= c / 262144) as (?&?&?) by (split_and!; apply Z.div_pos; lia).
  rewrite (proj2 (Z.ltb_ge c 128)) by lia.
  destruct (c <? 2048) eqn:E1; reflect_bools; [|destruct (c <? 65536) eqn:E2; reflect_bools];
    (eexists _, _; split; [reflexivity|]; split; [repeat constructor; lia|]); simpl length; lia.
Qed.

Definition uri_char (c : Z) : jstr := if uri_unescaped c then [c] else concat (percent <$> utf8 c).

Lemma uri_unescaped_bound c : uri_unescaped c = true → 0 <= c < 128 ∧ c ≠ 37.
Proof.
  unfold uri_unescaped, is_alnum. intros H. apply orb_true_iff in H as [H|H].
  - apply orb_true_iff in H as [H|H]; [apply orb_true_iff in H as [H|H]|]; zlia.
  - apply existsb_exists in H as (x&Hx&Heq). reflect_bools. subst.
    assert (Hall : forallb (λ x, (0 <=? x) && (x <? 128) && negb (x =? 37)) (str "-_.!~*'()") = true) by done.
    rewrite forallb_forall in Hall. specialize (Hall x Hx). zlia.
Qed.

Lemma uri_char_length c : (1 <= length (uri_char c))%nat.
Proof.
  unfold uri_char. destruct (uri_unescaped c); [done|]. unfold utf8.
  repeat case_match; cbn; lia.
Qed.

Lemma escaped_utf8 c rest : scalar c = true → escaped (concat (percent <$> utf8 c) ++ rest) = Some (utf16 c, rest).
Proof.
  intros Hc. unfold escaped. destruct (decide (c < 128)) as [Hsm|Hbig].
  - unfold scalar in Hc. assert (0 <= c) by zlia. unfold utf8, utf16.
    rewrite (proj2 (Z.ltb_lt c 128)), (proj2 (Z.ltb_lt c 65536)) by lia. rewrite fmap_cons. cbn [concat]. rewrite <- app_assoc.
    rewrite escape_percent by (unfold is_byte; lia). by rewrite (proj2 (Z.ltb_lt c 128)).
  - destruct (utf8_shape c Hc ltac:(lia)) as (b&bs&Eb&Hbs&Hn). pose proof (runes_utf8 c [] Hc) as Hr. rewrite app_nil_r in Hr.
    rewrite Eb in *. rewrite fmap_cons. cbn [concat]. rewrite <- app_assoc, escape_percent by (unfold is_byte; lia).
    rewrite (proj2 (Z.ltb_ge b 128)) by lia.
    assert (En : tail_length b = length bs).
    { unfold tail_length. repeat (case_match; reflect_bools); try lia; rewrite andb_false_iff in *; rewrite !Z.leb_gt, !Z.ltb_ge in *; lia. }
    rewrite En. case_decide; [lia|]. by rewrite continuation_percent, Hr.
Qed.

(** A turn of the decoder reads one encoded code point. *)
Lemma decode_uri_char fuel c rest r : scalar c = true → decode_uri fuel rest = Done r →
  decode_uri (S fuel) (uri_char c ++ rest) = Done (utf16 c ++ r).
Proof.
  intros Hc Hr. unfold uri_char. destruct (uri_unescaped c) eqn:Eu.
  - apply uri_unescaped_bound in Eu. cbn [app decode_uri]. rewrite (proj2 (Z.eqb_neq _ _)) by lia. rewrite Hr.
    cbn [mbind outcome_bind]. unfold utf16. by rewrite (proj2 (Z.ltb_lt _ _)) by lia.
  - pose proof (escaped_utf8 c rest Hc) as He. assert (∃ t, concat (percent <$> utf8 c) ++ rest = 37 :: t) as [t Et].
    { unfold utf8. repeat case_match; by eexists. }
    rewrite Et in *. change (decode_uri (S fuel) (37 :: t)) with
      (match escaped (37 :: t) with None => Panic | Some (u, s) => r ← decode_uri fuel s; Done (u ++ r) end).
    rewrite He, Hr. done.
Qed.

Lemma decode_uri_chars cs fuel : Forall (λ c, scalar c = true) cs → (length (concat (uri_char <$> cs)) < fuel)%nat →
  decode_uri fuel (concat (uri_char <$> cs)) = Done (concat (utf16 <$> cs)).
Proof.
  intros Hs. revert fuel. induction Hs as [|c cs Hc _ IH]; intros fuel Hf; [destruct fuel; [simpl in Hf; lia|done]|].
  rewrite !fmap_cons in *. cbn [concat] in *. rewrite length_app in Hf. pose proof (uri_char_length c) as Hl.
  destruct fuel as [|fuel]; [lia|]. apply decode_uri_char; [done|]. apply IH. lia.
Qed.

(** Decoding undoes encoding. *)
Lemma uri_roundtrip s r : encodeURIComponent s = Done r → decodeURIComponent r = Done s.
Proof.
  unfold encodeURIComponent. destruct (well_formed s) eqn:Hw; [|done]. intros [= <-].
  destruct (code_points_ok s Hw) as [Hc He]. unfold decodeURIComponent.
  change (λ c, if uri_unescaped c then [c] else concat (percent <$> utf8 c)) with uri_char.
  rewrite decode_uri_chars; [by rewrite He|done|lia].
Qed.

(** What encoding leaves in a text: nothing that separates the parts of a link. *)
Definition uri_safe (c : Z) : bool := uri_unescaped c || (c =? 37).

Lemma hex_upper_alnum x : 0 <= x < 16 → is_alnum (hex_upper x) = true.
Proof. intros Hx. unfold hex_upper, is_alnum. destruct (x <? 10) eqn:E; blia. Qed.

Lemma percent_safe b : is_byte b → Forall (λ c, uri_safe c = true) (percent b).
Proof.
  unfold is_byte. intros Hb. pose proof (Z.mod_pos_bound b 16 ltac:(lia)).
  assert (0 <= b / 16 < 16) by (split; [apply Z.div_pos|apply Z.div_lt_upper_bound]; lia).
  unfold uri_safe, uri_unescaped. repeat constructor; by rewrite ?hex_upper_alnum.
Qed.

Lemma uri_char_safe c : scalar c = true → Forall (λ c, uri_safe c = true) (uri_char c).
Proof.
  intros Hc. unfold uri_char. destruct (uri_unescaped c) eqn:E; [repeat constructor; unfold uri_safe; by rewrite E|].
  pose proof (utf8_bytes c Hc) as Hb. induction Hb as [|b bs Hb _ IH]; [constructor|]. rewrite fmap_cons. cbn [concat].
  apply Forall_app. split; [by apply percent_safe|done].
Qed.

Lemma encode_uri_eq s : well_formed s = true → encodeURIComponent s = Done (concat (uri_char <$> code_points s)).
Proof. intros Hw. unfold encodeURIComponent. by rewrite Hw. Qed.

Lemma uri_chars_safe cs : Forall (λ c, scalar c = true) cs → Forall (λ c, uri_safe c = true) (concat (uri_char <$> cs)).
Proof.
  induction 1 as [|c cs Hc _ IH]; [constructor|]. rewrite fmap_cons. cbn [concat]. apply Forall_app. split; [by apply uri_char_safe|done].
Qed.

Lemma from_string_ascii s : Forall (λ c, 0 <= c < 128) s → from_string s = s.
Proof.
  unfold from_string. induction 1 as [|c s Hc _ IH]; [done|].
  rewrite code_points_single by (unfold is_high, is_low; blia). rewrite fmap_cons. cbn [concat].
  rewrite IH. unfold utf8. by rewrite (proj2 (Z.ltb_lt _ _)) by lia.
Qed.
