(* ===== verification/WebList.v ===== *)
(** * The list of torrents of the web interface

    The bundle [main.c4612288.chunk.js]: the list [ar] filters the server's torrents by
    category and sorts them by title or by time, and [removeRedundantCharacters] ([K]) shortens the title a card
    shows.  [localeCompare] depends on the browser's language: a class states the one
    thing ECMA-402 promises, a consistent comparison, and [sort] is any function that
    keeps the contract of [Array.prototype.sort] for such a comparison. *)

From S2P Require Import Prelude GoText JsText.
#[local] Open Scope Z_scope.

(** ** Sorting *)

(** [localeCompare]: the signs are those of a total preorder. *)
Class Collation := {
  localeCompare : jstr → jstr → Z;
  collation_flip : ∀ a b, Z.sgn (localeCompare b a) = - Z.sgn (localeCompare a b);
  collation_trans : ∀ a b c, localeCompare a b <= 0 → localeCompare b c <= 0 → localeCompare a c <= 0;
}.

(** What the list reads of a torrent; a field the server leaves out is [undefined]. *)
Record card := mkCard { c_title : option jstr; c_category : option jstr; c_timestamp : option Z; c_hash : jstr }.
#[export] Instance card_eq_dec : EqDecision card.
Proof. solve_decision. Defined.

Definition title_or_empty (e : card) : jstr := default [] (c_title e).
Definition time_or_zero (e : card) : Z := default 0 (c_timestamp e).

(** ["all"]. *)
Definition all_categories : jstr := [97; 108; 108].

Definition in_category (o : jstr) (e : card) : bool :=
  bool_decide (o = all_categories) || bool_decide (c_category e = Some o).

Section Order.
Context `{!Collation}.

Definition by_title (e i : card) : Z :=
  let c := localeCompare (title_or_empty e) (title_or_empty i) in
  if c =? 0 then localeCompare (c_hash e) (c_hash i) else c.

Definition by_time (e i : card) : Z :=
  let t := time_or_zero e in let n := time_or_zero i in
  if negb (t =? n) then n - t else localeCompare (c_hash e) (c_hash i).

(** A comparison as the test that the first comes before the second. *)
Definition precedes (cmp : card → card → Z) (a b : card) : bool := cmp a b <? 0.

Definition TorrentList `{!SliceSort (precedes by_title), !SliceSort (precedes by_time)}
  (sortABC : bool) (sortCategory : jstr) (torrents : list card) : list card :=
  let e := List.filter (in_category sortCategory) torrents in
  if sortABC then sort_slice (precedes by_title) e else sort_slice (precedes by_time) e.

(** *** A comparison by two keys is a total preorder *)

Record consistent (cmp : card → card → Z) : Prop := {
  cons_flip : ∀ a b, Z.sgn (cmp b a) = - Z.sgn (cmp a b);
  cons_trans : ∀ a b c, cmp a b <= 0 → cmp b c <= 0 → cmp a c <= 0;
}.

Lemma hash_consistent : consistent (λ a b, localeCompare (c_hash a) (c_hash b)).
Proof. split; intros *; [apply collation_flip|apply collation_trans]. Qed.

Lemma then_consistent f g : consistent f → consistent g → consistent (λ a b, if f a b =? 0 then g a b else f a b).
Proof.
  intros [Ff Ft] [Gf Gt]. split.
  - intros a b. pose proof (Ff a b). pose proof (Gf a b). destruct (Z.eqb_spec (f a b) 0), (Z.eqb_spec (f b a) 0); lia.
  - intros a b c. pose proof (Ff a b). pose proof (Ff b c). pose proof (Ff a c). pose proof (Ft a b c). pose proof (Ft b c a). pose proof (Ft c a b). pose proof (Gt a b c).
    destruct (Z.eqb_spec (f a b) 0), (Z.eqb_spec (f b c) 0), (Z.eqb_spec (f a c) 0); lia.
Qed.

Lemma by_title_consistent : consistent by_title.
Proof.
  apply (then_consistent (λ a b, localeCompare (title_or_empty a) (title_or_empty b))); [|apply hash_consistent].
  split; intros *; [apply collation_flip|apply collation_trans].
Qed.

Lemma by_time_consistent : consistent by_time.
Proof.
  assert (Hc : consistent (λ a b, time_or_zero b - time_or_zero a)) by (split; intros *; lia).
  destruct (then_consistent _ _ Hc hash_consistent) as [Hf Ht].
  assert (He : ∀ a b, by_time a b = if time_or_zero b - time_or_zero a =? 0 then localeCompare (c_hash a) (c_hash b) else time_or_zero b - time_or_zero a).
  { intros a b. unfold by_time. destruct (Z.eqb_spec (time_or_zero a) (time_or_zero b)), (Z.eqb_spec (time_or_zero b - time_or_zero a) 0); cbn [negb]; lia. }
  split; intros *; rewrite !He; [apply Hf|apply Ht].
Qed.

Lemma before_asym cmp a b : consistent cmp → precedes cmp a b = true → precedes cmp b a = false.
Proof. intros [Hf _]. unfold precedes. specialize (Hf a b). rewrite Z.ltb_lt, Z.ltb_ge. lia. Qed.

(** *** The order is settled by the torrents *)

Lemma before_false cmp a b : consistent cmp → precedes cmp b a = false ↔ cmp a b <= 0.
Proof. intros [Hf _]. unfold precedes. specialize (Hf a b). rewrite Z.ltb_ge. lia. Qed.

Lemma sorted_strongly cmp l : consistent cmp → Sorted (λ a b, precedes cmp b a = false) l → StronglySorted (λ a b, cmp a b <= 0) l.
Proof.
  intros Hc Hl. apply Sorted_StronglySorted; [intros a b c; apply (cons_trans _ Hc)|].
  induction Hl as [|a l _ IH Ha]; constructor; [done|]. destruct Ha as [|b l Hab]; constructor. by apply before_false.
Qed.

Lemma sorted_unique cmp l l' : consistent cmp → (∀ a b, a ∈ l → b ∈ l → cmp a b = 0 → a = b) →
  StronglySorted (λ a b, cmp a b <= 0) l → StronglySorted (λ a b, cmp a b <= 0) l' → l ≡ₚ l' → l = l'.
Proof.
  intros [Hf Ht] Hd Hl Hl' Hp. apply (StronglySorted_unique_strong (λ a b, cmp a b <= 0)); [|done..].
  intros a b Ha Hb H1 H2. apply Hd; [done|by rewrite Hp|]. specialize (Hf a b). lia.
Qed.

Context `{!SliceSort (precedes by_title), !SliceSort (precedes by_time)}.

Definition order_chosen (abc : bool) : card → card → Z := if abc then by_title else by_time.

Lemma shown_strongly abc o ts : StronglySorted (λ a b, order_chosen abc a b <= 0) (TorrentList abc o ts).
Proof.
  unfold TorrentList, order_chosen. destruct abc; apply sorted_strongly, sort_slice_sorted;
    [apply by_title_consistent|apply by_time_consistent].
Qed.

(** The list holds each torrent of the category once, and none that the order puts before
    an earlier one. *)
Theorem shown_sorted abc o ts : TorrentList abc o ts ≡ₚ List.filter (in_category o) ts ∧
  ∀ l a l' b, TorrentList abc o ts = l ++ a :: l' → b ∈ l' → order_chosen abc a b <= 0.
Proof.
  split; [unfold TorrentList; destruct abc; apply sort_slice_perm|]. intros l a l' b E Hb.
  pose proof (shown_strongly abc o ts) as Hs. rewrite E in Hs. apply StronglySorted_app in Hs as (_&_&Hs).
  apply StronglySorted_inv in Hs as [_ Hs]. rewrite Forall_forall in Hs. by apply Hs.
Qed.

(** The server lists torrents from a map, in any order: when no two hashes compare equal,
    the list on the screen is the same whatever order they come in. *)
Theorem shown_settled abc o ts ts' : (∀ a b, a ∈ ts → b ∈ ts → localeCompare (c_hash a) (c_hash b) = 0 → a = b) →
  ts ≡ₚ ts' → TorrentList abc o ts = TorrentList abc o ts'.
Proof.
  intros Hd Hp.
  pose proof (filter_perm (in_category o) _ _ Hp) as Hf.
  assert (Hin : ∀ a, a ∈ List.filter (in_category o) ts → a ∈ ts).
  { intros a. rewrite !list_elem_of_In. by intros [? ?]%filter_In. }
  assert (Hm : ∀ a, a ∈ TorrentList abc o ts → a ∈ ts).
  { intros a. rewrite (proj1 (shown_sorted abc o ts)). apply Hin. }
  apply (sorted_unique (order_chosen abc)); [destruct abc; [apply by_title_consistent|apply by_time_consistent]| |apply shown_strongly..|].
  - intros a b Ha%Hm Hb%Hm Hz. apply Hd; [done..|]. destruct abc; cbn [order_chosen] in Hz; unfold by_title, by_time in Hz; cbv zeta in Hz.
    + by destruct (Z.eqb_spec (localeCompare (title_or_empty a) (title_or_empty b)) 0).
    + destruct (Z.eqb_spec (time_or_zero a) (time_or_zero b)); cbn [negb] in Hz; [done|lia].
  - by rewrite !(proj1 (shown_sorted _ _ _)).
Qed.

End Order.

(** ** Titles *)

(** The kinds of bracket, in the order they are looked at. *)
Definition bracket_pairs : list (Z * Z) := [(40, 41); (91, 93); (123, 125)].

(** The number of matches of a pattern of one character. *)
Definition count_unit (c : Z) (s : jstr) : nat := length (List.filter (Z.eqb c) s).

(** What the dot of a pattern does not match. *)
Definition line_end (c : Z) : bool := (c =? 10) || (c =? 13) || (c =? 8232) || (c =? 8233).

(** Whether [c] occurs in the rest of the line. *)
Fixpoint in_line (c : Z) (s : jstr) : bool :=
  match s with [] => false | x :: s' => negb (line_end x) && ((x =? c) || in_line c s') end.

(** [i.replace(/(\()(?!.*\1).*/g, empty text)]: from the last bracket of a line to the end of that
    line; [skip] while a match is passed over. *)
Fixpoint cut_open (c : Z) (skip : bool) (s : jstr) : jstr :=
  match s with
  | [] => []
  | x :: s' =>
      if line_end x then x :: cut_open c false s'
      else if skip then cut_open c true s'
      else if (x =? c) && negb (in_line c s') then cut_open c true s'
      else x :: cut_open c false s'
  end.

Definition cut_pair (i : jstr) (e : Z * Z) : jstr :=
  if negb (count_unit e.1 i =? count_unit e.2 i)%nat then cut_open e.1 false i else i.

Fixpoint drop_units (p : Z → bool) (s : jstr) : jstr :=
  match s with [] => [] | c :: s' => if p c then drop_units p s' else s end.
Definition drop_end (p : Z → bool) (s : jstr) : jstr := rev (drop_units p (rev s)).

(** The class of the pattern [/[\\.| ]+$/]. *)
Definition title_junk (c : Z) : bool := (c =? 92) || (c =? 46) || (c =? 124) || (c =? 32).

Definition trim (s : jstr) : jstr := drop_end js_space (drop_units js_space s).

Definition ends_in_dots (i : jstr) : bool := bool_decide (take 3 (rev i) = [46; 46; 46]).

Definition finish_title (i : jstr) : jstr :=
  let n := trim (drop_end title_junk i) in
  if ends_in_dots i then n ++ [46; 46] else n.

(** The title a card shows. *)
Definition removeRedundantCharacters (e : jstr) : jstr := finish_title (foldl cut_pair e bracket_pairs).

(** *** What is left of a title *)

Definition balanced (i : jstr) (e : Z * Z) : Prop := count_unit e.1 i = count_unit e.2 i.
Definition one_line (s : jstr) : Prop := Forall (λ c, line_end c = false) s.
Definition no_bracket (s : jstr) : Prop := Forall (λ e : Z * Z, count_unit e.1 s = O ∧ count_unit e.2 s = O) bracket_pairs.

Lemma count_unit_app c s t : count_unit c (s ++ t) = (count_unit c s + count_unit c t)%nat.
Proof. unfold count_unit. by rewrite List.filter_app, length_app. Qed.

Lemma count_unit_cons c x s : count_unit c (x :: s) = ((if (c =? x)%Z then 1 else 0) + count_unit c s)%nat.
Proof. unfold count_unit. cbn [List.filter]. by destruct (c =? x). Qed.

Lemma cut_pair_balanced i e : balanced i e → cut_pair i e = i.
Proof. unfold balanced, cut_pair. intros ->. by rewrite Nat.eqb_refl. Qed.

Lemma cut_balanced i es : Forall (balanced i) es → foldl cut_pair i es = i.
Proof. induction 1 as [|e es He _ IH]; [done|]. cbn [foldl]. by rewrite cut_pair_balanced. Qed.

Lemma in_line_app c t u : one_line t → line_end c = false → in_line c (t ++ c :: u) = true.
Proof.
  intros Ht Hc. induction Ht as [|x t Hx _ IH]; cbn [app in_line]; [by rewrite Hc, Z.eqb_refl|]. by rewrite Hx, IH, orb_true_r.
Qed.

Lemma in_line_none c u : count_unit c u = O → in_line c u = false.
Proof.
  induction u as [|x u IH]; [done|]. rewrite count_unit_cons. cbn [in_line]. destruct (Z.eqb_spec c x); [done|].
  intros H. rewrite IH by done. destruct (Z.eqb_spec x c); [done|]. apply andb_false_r.
Qed.

Lemma cut_open_skip c u : one_line u → cut_open c true u = [].
Proof. induction 1 as [|x u Hx _ IH]; [done|]. cbn [cut_open]. by rewrite Hx. Qed.

Lemma cut_open_last c t u : one_line t → one_line u → line_end c = false → count_unit c u = O → cut_open c false (t ++ c :: u) = t.
Proof.
  intros Ht Hu Hc Hn. induction Ht as [|x t Hx Ht IH]; cbn [app cut_open].
  - rewrite Hc, Z.eqb_refl, in_line_none by done. by apply cut_open_skip.
  - rewrite Hx, IH, in_line_app by done. by rewrite andb_false_r.
Qed.

(** A title whose brackets are in pairs keeps its words. *)
Theorem title_balanced i : Forall (balanced i) bracket_pairs → removeRedundantCharacters i = finish_title i.
Proof. intros H. unfold removeRedundantCharacters. by rewrite cut_balanced. Qed.

(** A title that ends inside a bracket is shown without the bracket. *)
Theorem title_truncated o cl t u : (o, cl) ∈ bracket_pairs → Forall (balanced t) bracket_pairs → one_line t → one_line u → no_bracket u →
  removeRedundantCharacters (t ++ o :: u) = finish_title t.
Proof.
  intros Hin Hb Ht Hu Hn. unfold removeRedundantCharacters. f_equal.
  assert (Hcut : cut_pair (t ++ o :: u) (o, cl) = t).
  { assert (Hne : (cl =? o) = false ∧ line_end o = false) by (unfold bracket_pairs in Hin; set_unfold; naive_solver).
    unfold cut_pair. rewrite !count_unit_app, !count_unit_cons. cbn [fst snd]. rewrite Z.eqb_refl, (proj1 Hne).
    unfold no_bracket in Hn. rewrite Forall_forall in Hb, Hn. destruct (Hn _ Hin) as [Hno Hnc]. specialize (Hb _ Hin). cbn in Hb, Hno, Hnc.
    rewrite Hno, Hnc. destruct (Nat.eqb_spec (count_unit o t + (1 + 0)) (count_unit cl t + (0 + 0))); [unfold balanced in Hb; cbn in Hb; lia|].
    cbn [negb]. apply cut_open_last; tauto. }
  assert (Hother : ∀ e, e ∈ bracket_pairs → e ≠ (o, cl) → cut_pair (t ++ o :: u) e = t ++ o :: u).
  { intros [o' cl'] He Hd. apply cut_pair_balanced. unfold no_bracket in Hn. rewrite Forall_forall in Hb, Hn. specialize (Hb _ He).
    destruct (Hn _ He) as [Hno Hnc]. unfold balanced in *. cbn [fst snd] in *. rewrite !count_unit_app, !count_unit_cons, Hno, Hnc, Hb.
    assert ((o' =? o) = false ∧ (cl' =? o) = false) as [-> ->]; [|done]. unfold bracket_pairs in *. set_unfold. naive_solver. }
  assert (Hself : ∀ e, e ∈ bracket_pairs → cut_pair t e = t).
  { intros e He. apply cut_pair_balanced. rewrite Forall_forall in Hb. by apply Hb. }
  unfold bracket_pairs in *. cbn [foldl].
  set_unfold in Hin. destruct Hin as [[= -> ->]|[[= -> ->]|[[= -> ->]|[]]]]; repeat first [rewrite Hcut|rewrite Hself by set_solver|rewrite Hother by set_solver|done].
Qed.

Lemma drop_units_length p s : (length (drop_units p s) <= length s)%nat.
Proof. induction s as [|c s IH]; cbn; [done|]. destruct (p c); cbn; lia. Qed.

Lemma drop_end_length p s : (length (drop_end p s) <= length s)%nat.
Proof. unfold drop_end. rewrite length_rev. etrans; [apply drop_units_length|]. by rewrite length_rev. Qed.

Lemma trim_length s : (length (trim s) <= length s)%nat.
Proof. unfold trim. etrans; [apply drop_end_length|apply drop_units_length]. Qed.

Lemma cut_open_length c skip s : (length (cut_open c skip s) <= length s)%nat.
Proof. revert skip. induction s as [|x s IH]; intros skip; cbn; [done|]. pose proof (IH true). pose proof (IH false). repeat case_match; cbn; lia. Qed.

Lemma finish_title_length i : (length (finish_title i) <= length i)%nat.
Proof.
  unfold finish_title. destruct (ends_in_dots i) eqn:E; [|etrans; [apply trim_length|apply drop_end_length]].
  rewrite length_app. cbn [length]. pose proof (trim_length (drop_end title_junk i)) as H. unfold drop_end at 2 in H. rewrite length_rev in H.
  apply bool_decide_eq_true in E. rewrite <- (length_rev i). rewrite <- (take_drop 3 (rev i)), E in H |- *.
  pose proof (drop_units_length title_junk (drop 3 (rev i))). cbn in H |- *. lia.
Qed.

(** A card never shows more than the title. *)
Theorem title_length e : (length (removeRedundantCharacters e) <= length e)%nat.
Proof.
  unfold removeRedundantCharacters. etrans; [apply finish_title_length|]. revert e.
  induction bracket_pairs as [|p ps IH]; intros e; cbn [foldl]; [done|]. etrans; [apply IH|].
  unfold cut_pair. destruct (_ =? _)%nat; cbn [negb]; [done|apply cut_open_length].
Qed.

(** A closing bracket too many counts as an opening one missing: a numbered title loses its year. *)
Example title_numbered : removeRedundantCharacters (str "1) Film (2010) 1080p") = str "1) Film".
Proof. vm_compute. reflexivity. Qed.

(** ** Runs *)

#[local] Instance unit_order : Collation :=
  {| localeCompare := compare_text;
     collation_flip := λ a b, eq_trans (f_equal Z.sgn (compare_text_flip a b)) (Z.sgn_opp _);
     collation_trans := compare_text_trans |}.
#[local] Instance title_sort : SliceSort (precedes by_title) := insertion_slice_sort _ (λ a b, before_asym _ a b by_title_consistent).
#[local] Instance time_sort : SliceSort (precedes by_time) := insertion_slice_sort _ (λ a b, before_asym _ a b by_time_consistent).

Definition movie := mkCard (Some (str "Film")) (Some (str "movie")) (Some 20) (str "aa").
Definition series := mkCard (Some (str "Show")) (Some (str "tv")) (Some 20) (str "bb").
Definition nameless := mkCard None None (Some 30) (str "cc").

Lemma shown_settled_witness : TorrentList false all_categories [series; nameless; movie] = [nameless; movie; series] ∧
  TorrentList true all_categories [series; nameless; movie] = TorrentList true all_categories [movie; series; nameless].
Proof.
  split; [vm_compute; reflexivity|]. apply (shown_settled true all_categories [series; nameless; movie] [movie; series; nameless]).
  - assert (H : Forall (λ a, Forall (λ b, localeCompare (c_hash a) (c_hash b) = 0 → a = b) [series; nameless; movie]) [series; nameless; movie])
      by (repeat constructor; vm_compute; congruence).
    intros a b Ha Hb. rewrite Forall_forall in H. specialize (H a Ha). rewrite Forall_forall in H. by apply H.
  - solve_Permutation.
Defined.

Lemma title_truncated_witness : removeRedundantCharacters (str "Film (2010) [BDRip 1080p") = str "Film (2010)".
Proof.
  apply (title_truncated 91 93 (str "Film (2010) ") (str "BDRip 1080p")); [set_solver|..];
    repeat constructor; vm_compute; reflexivity.
Defined.
