(* ===== verification/Bencode.v ===== *)
(** * Bencoding in the web interface ([2.f454f580.chunk.js], module bencode)

    The dialog that adds a torrent reads the file the user selects in the browser.  This
    is the decoder and the encoder it uses.  The decoder keeps its data and position in
    module variables; here they are arguments and results.  A thrown error is [Panic]. *)

From S2P Require Import Prelude GoText JsText.
#[local] Open Scope Z_scope.

(** ** Values *)

Inductive value :=
| VNull
| VBool (b : bool)
| VNum (n : number)
| VStr (s : jstr)
| VBuf (b : bytes)
| VList (l : list value)
| VDict (d : list (jstr * value)).

Definition is_true (v : option value) : bool :=
  match v with
  | None | Some VNull => false
  | Some (VBool b) => b
  | Some (VNum n) => negb (bool_decide (n = Int 0))
  | Some (VStr s) => negb (len s =? 0)
  | Some (VBuf _ | VList _ | VDict _) => true
  end.

(** [e[key] = v].  Assigning to [__proto__] makes no property: an object becomes the
    prototype, which is kept under that key, and anything else is ignored. *)
Definition set_key (key : jstr) (v : value) (d : list (jstr * value)) : list (jstr * value) :=
  if bool_decide (key = str "__proto__") then
    match v with VBuf _ | VList _ | VDict _ => replace_prop key v d | _ => d end
  else replace_prop key v d.

Definition own_props {A} (d : list (jstr * A)) : list (jstr * A) := filter (λ kv, kv.1 ≠ str "__proto__") d.

(** [v[key]], from a prototype where the object has no such property.  Of what buffers
    and lists have besides their elements only [_isBuffer] is given. *)
Fixpoint get_prop (key : jstr) (v : value) : option value :=
  match v with
  | VBuf _ => if bool_decide (key = str "_isBuffer") then Some (VBool true) else None
  | VDict d =>
      match lookup_prop key d with
      | Some w => Some w
      | None =>
          (fix inherited (d : list (jstr * value)) : option value :=
             match d with
             | [] => None
             | (k, proto) :: d => if bool_decide (k = str "__proto__") then get_prop key proto else inherited d
             end) d
      end
  | _ => None
  end.

(** [Buffer.isBuffer(v)] asks a property. *)
Definition isBuffer (v : value) : bool := is_true (get_prop (str "_isBuffer") v).

(** ** Decoding *)

Section Decode.
Context (data : bytes).

(** [data[position]]; a position is a number. *)
Definition byte_at (p : number) : option Z := match p with Int z => idx data z | Infinity _ => None end.

(** [decode.find]: from an infinite negative position, or one below -2^53 - 2, [t++]
    comes to where it gets nowhere. *)
Definition find (c : Z) (p : number) : outcome Z :=
  match p with
  | Infinity true => NoFuel
  | Infinity false => Panic
  | Int z =>
      if z <? - two53 - 2 then NoFuel
      else
        match list_find (λ x, x = c) (drop (Z.to_nat z) data) with
        | Some (k, _) => Done (Z.max z 0 + Z.of_nat k)
        | None => Panic
        end
  end.

(** The loop of [getIntFromBuffer], [first] at its start. *)
Fixpoint int_loop (first : bool) (s : bytes) (sum : number) (sign : Z) : outcome number :=
  match s with
  | [] => Done (js_scale sum sign)
  | num :: s =>
      if (num <? 58) && (48 <=? num) then int_loop false s (js_add (js_scale sum 10) (Int (num - 48))) sign
      else if first && (num =? 43) then int_loop false s sum sign
      else if first && (num =? 45) then int_loop false s sum (-1)
      else if num =? 46 then Done (js_scale sum sign)
      else Panic
  end.

(** Before the start of the data there is no digit. *)
Definition getIntFromBuffer (start : number) (end_ : Z) : outcome number :=
  match start with
  | Int z => if z <? 0 then Panic else int_loop true (take (Z.to_nat (end_ - z)) (drop (Z.to_nat z) data)) (Int 0) 1
  | Infinity _ => Panic
  end.

(** [data.slice(start, end)] of a [Buffer], for a start in range: the end is cut to 32
    bits, counts from the end of the data when negative, and is clamped. *)
Definition buffer_slice (start : Z) (end_ : number) : bytes :=
  let n := len data in
  let e := to_int32 end_ in
  let e := if e <? 0 then (if e + n <? 0 then 0 else e + n) else if n <? e then n else e in
  let e := if e <? start then start else e in
  take (Z.to_nat (e - start)) (drop (Z.to_nat start) data).

Definition integer (p : number) : outcome (number * number) :=
  end_ ← find 101 p;
  n ← getIntFromBuffer (js_add p (Int 1)) end_;
  Done (n, Int (end_ + 1)).

Definition buffer (p : number) : outcome (bytes * number) :=
  sep ← find 58 p;
  length ← getIntFromBuffer p sep;
  let start := sep + 1 in
  let end_ := js_add (Int start) length in
  Done (buffer_slice start end_, end_).

(** [decode.next], [decode.list] and [decode.dictionary]: the loops go on until they
    stand at an end mark. *)
Fixpoint next (fuel : nat) (p : number) {struct fuel} : outcome (value * number) :=
  match fuel with
  | O => NoFuel
  | S fuel =>
      match byte_at p with
      | Some 100 => '(d, p) ← dictionary fuel (js_add p (Int 1)) []; Done (VDict d, p)
      | Some 108 => '(l, p) ← list_ fuel (js_add p (Int 1)) []; Done (VList l, p)
      | Some 105 => '(n, p) ← integer p; Done (VNum n, p)
      | _ => '(b, p) ← buffer p; Done (VBuf b, p)
      end
  end
with list_ (fuel : nat) (p : number) (lst : list value) {struct fuel} : outcome (list value * number) :=
  match fuel with
  | O => NoFuel
  | S fuel =>
      if bool_decide (byte_at p = Some 101) then Done (lst, js_add p (Int 1))
      else '(v, p) ← next fuel p; list_ fuel p (lst ++ [v])
  end
with dictionary (fuel : nat) (p : number) (dict : list (jstr * value)) {struct fuel} : outcome (list (jstr * value) * number) :=
  match fuel with
  | O => NoFuel
  | S fuel =>
      if bool_decide (byte_at p = Some 101) then Done (dict, js_add p (Int 1))
      else '(k, p) ← buffer p; '(v, p) ← next fuel p; dictionary fuel p (set_key (to_string k) v dict)
  end.
End Decode.

(** [decode(data)]: [null] for no data; what follows the first value is not read. *)
Definition decode (fuel : nat) (data : bytes) : outcome value :=
  match data with
  | [] => Done VNull
  | _ => fst <$> next data fuel (Int 0)
  end.

(** ** Encoding *)

Definition encode_buffer (b : bytes) : bytes := FormatInt (len b) ++ [58] ++ b.
Definition encode_string (s : jstr) : bytes := encode_buffer (from_string s).

(** [hi] and [lo] are cut to 32 bits. *)
Definition encode_number (n : number) : bytes :=
  let maxLo := 2147483648 in
  let '(hi, lo) := match n with Int z => (i32 (Z.quot z maxLo), i32 (Z.rem z maxLo)) | Infinity _ => (0, 0) end in
  let val := js_add (Int (hi * maxLo)) (Int lo) in
  [105] ++ match val with Int v => num_text v | Infinity _ => [] end ++ [101].

(** The order of [sort()] on strings: by code units. *)
Fixpoint units_less (a b : jstr) : bool :=
  match a, b with
  | [], [] => false
  | [], _ => true
  | _, [] => false
  | x :: a, y :: b => if x =? y then units_less a b else x <? y
  end.

Definition key_less {A} (a b : jstr * A) : bool := units_less a.1 b.1.

Definition append_all {A} (print : A → outcome bytes) : list A → outcome bytes :=
  fix go (l : list A) : outcome bytes :=
    match l with
    | [] => Done []
    | x :: l => a ← print x; b ← go l; Done (a ++ b)
    end.

(** An object that [isBuffer] takes for a buffer is put among the buffers, and joining
    them fails where it is asked to copy itself.  The properties are printed before they
    are sorted; the order in which they are printed does not matter. *)
Fixpoint encode (v : value) : outcome bytes :=
  match v with
  | VNull => Done []
  | VBool b => Done (encode_number (Int (if b then 1 else 0)))
  | VNum n => Done (encode_number n)
  | VStr s => Done (encode_string s)
  | VBuf b => Done (encode_buffer b)
  | VList l => b ← append_all encode l; Done ([108] ++ b ++ [101])
  | VDict d =>
      if isBuffer (VDict d) then Panic
      else
        let entry '(k, v) := (k, match v with VNull => Done [] | _ => b ← encode v; Done (encode_string k ++ b) end) in
        b ← append_all snd (insertion_sort key_less (own_props (entry <$> d)));
        Done ([100] ++ b ++ [101])
  end.
