(* ===== verification/BencodeProps.v ===== *)
(** * Bencoding round-trips

    What the encoder prints of a canonical value is read back as that value, wherever it
    stands; reading ends unless a length is negative, and there is a text on which it
    does not. *)

From S2P Require Import Prelude GoText Encoding JsText Bencode.
#[local] Open Scope Z_scope.

(** ** Values *)

Section ValueInd.
Context (P : value → Prop).
Context (Hnull : P VNull) (Hbool : ∀ b, P (VBool b)) (Hnum : ∀ n, P (VNum n)) (Hstr : ∀ s, P (VStr s)) (Hbuf : ∀ b, P (VBuf b)).
Context (Hlist : ∀ l, Forall P l → P (VList l)) (Hdict : ∀ d, Forall (λ kv, P kv.2) d → P (VDict d)).

Fixpoint value_rect' (v : value) : P v :=
  match v with
  | VNull => Hnull
  | VBool b => Hbool b
  | VNum n => Hnum n
  | VStr s => Hstr s
  | VBuf b => Hbuf b
  | VList l => Hlist l ((fix go l := match l return Forall P l with
                                    | [] => @Forall_nil_2 _ P
                                    | v :: l => @Forall_cons_2 _ P v l (value_rect' v) (go l) end) l)
  | VDict d => Hdict d ((fix go d := match d return Forall (λ kv, P kv.2) d with
                                    | [] => @Forall_nil_2 _ (λ kv, P kv.2)
                                    | kv :: d => @Forall_cons_2 _ (λ kv, P kv.2) kv d (value_rect' kv.2) (go d) end) d)
  end.
End ValueInd.

(** ** The order of keys *)

Lemma units_less_irrefl a : units_less a a = false.
Proof. induction a as [|x a IH]; [done|]. simpl. by rewrite Z.eqb_refl. Qed.

Lemma units_less_trans a b c : units_less a b = true → units_less b c = true → units_less a c = true.
Proof.
  revert b c. induction a as [|x a IH]; intros [|y b] [|z c]; try done. simpl.
  destruct (x =? y) eqn:E1, (y =? z) eqn:E2; reflect_bools; intros Hab Hbc; subst.
  - rewrite Z.eqb_refl. by eapply IH.
  - by rewrite (proj2 (Z.eqb_neq _ _)).
  - by rewrite (proj2 (Z.eqb_neq _ _)).
  - reflect_bools. rewrite (proj2 (Z.eqb_neq _ _)) by lia. apply Z.ltb_lt. lia.
Qed.

Lemma units_less_asym a b : units_less a b = true → units_less b a = false.
Proof.
  intros Hab. destruct (units_less b a) eqn:E; [|done]. pose proof (units_less_trans _ _ _ Hab E) as Haa.
  by rewrite units_less_irrefl in Haa.
Qed.

Fixpoint ascending (ks : list jstr) : bool :=
  match ks with
  | a :: ((b :: _) as ks) => units_less a b && ascending ks
  | _ => true
  end.

Lemma ascending_strong ks : ascending ks = true → StronglySorted (λ a b, units_less a b = true) ks.
Proof.
  intros Ha. apply Sorted_StronglySorted; [intros a b c; apply units_less_trans|].
  induction ks as [|a [|b ks] IH]; [constructor|by repeat constructor|].
  simpl in Ha. apply andb_true_iff in Ha as [Hab Ha]. constructor; [by apply IH|by constructor].
Qed.

Lemma insertion_sort_id {A} (less : A → A → bool) l :
  Sorted (λ a b, less b a = false) l → insertion_sort less l = l.
Proof.
  induction 1 as [|x l Hs IH Hhd]; [done|]. cbn [insertion_sort foldr]. change (foldr (insert_sorted less) [] l) with (insertion_sort less l).
  rewrite IH. destruct Hhd as [|y l Hxy]; [done|]. simpl. by rewrite Hxy.
Qed.

(** ** Canonical values *)

(** What the encoder prints of a value in which no object is taken for a buffer. *)
Fixpoint written (v : value) : bytes :=
  match v with
  | VNull => []
  | VBool b => encode_number (Int (if b then 1 else 0))
  | VNum n => encode_number n
  | VStr s => encode_string s
  | VBuf b => encode_buffer b
  | VList l => [108] ++ concat (written <$> l) ++ [101]
  | VDict d =>
      let entry '(k, v) := (k, match v with VNull => [] | _ => encode_string k ++ written v end) in
      [100] ++ concat (snd <$> insertion_sort key_less (entry <$> d)) ++ [101]
  end.

Definition flagged (d : list (jstr * value)) : bool := is_true (lookup_prop (str "_isBuffer") d).

(** No object has a prototype of its own, or says that it is a buffer. *)
Fixpoint plain_value (v : value) : bool :=
  match v with
  | VList l => forallb plain_value l
  | VDict d => forallb (λ '(k, v), negb (bool_decide (k = str "__proto__")) && plain_value v) d && negb (flagged d)
  | _ => true
  end.

Lemma get_prop_own key d : Forall (λ kv, kv.1 ≠ str "__proto__") d → get_prop key (VDict d) = lookup_prop key d.
Proof.
  intros Hd. cbn [get_prop]. destruct (lookup_prop key d); [done|]. induction Hd as [|[k w] d Hk _ IH]; [done|].
  by rewrite bool_decide_false.
Qed.

Lemma own_props_all {A} (d : list (jstr * A)) : Forall (λ kv, kv.1 ≠ str "__proto__") d → own_props d = d.
Proof. induction 1 as [|kv d Hk _ IH]; [done|]. unfold own_props in *. rewrite filter_cons_True by done. by rewrite IH. Qed.

Lemma append_all_Done {A B} (g : A → B * bytes) (l : list A) :
  append_all snd ((λ x, ((g x).1, Done (g x).2)) <$> l) = Done (concat (snd <$> (g <$> l))).
Proof. induction l as [|x l IH]; [done|]. cbn [append_all fmap list_fmap snd mbind outcome_bind concat]. fold (append_all (@snd B (outcome bytes))). by rewrite IH. Qed.

Lemma insert_sorted_map {A B} (f : jstr * A → jstr * B) x l : (∀ y, (f y).1 = y.1) →
  f <$> insert_sorted key_less x l = insert_sorted key_less (f x) (f <$> l).
Proof.
  intros Hf. induction l as [|y l IH]; [done|]. cbn [insert_sorted fmap list_fmap]. unfold key_less at 1 3. rewrite !Hf.
  destruct (units_less y.1 x.1); [|done]. cbn [fmap list_fmap]. f_equal. exact IH.
Qed.

Lemma insertion_sort_map {A B} (f : jstr * A → jstr * B) l : (∀ y, (f y).1 = y.1) →
  f <$> insertion_sort key_less l = insertion_sort key_less (f <$> l).
Proof.
  intros Hf. induction l as [|x l IH]; [done|]. cbn [fmap list_fmap]. unfold insertion_sort. cbn [foldr].
  change (foldr (insert_sorted key_less) [] l) with (insertion_sort key_less l). rewrite insert_sorted_map, IH by done. done.
Qed.

Lemma encode_written v : plain_value v = true → encode v = Done (written v).
Proof.
  induction v as [|b|n|s|b|l IH|d IH] using value_rect'; intros Hp; try done.
  - cbn [encode written plain_value] in *. assert (E : append_all encode l = Done (concat (written <$> l))); [|by rewrite E].
    revert Hp. induction IH as [|v l Hv _ IHl]; [done|]. cbn [forallb]. intros [Hp Hl]%andb_true_iff. cbn [append_all].
    fold (append_all encode). by rewrite (Hv Hp), (IHl Hl).
  - cbn [plain_value] in Hp. apply andb_true_iff in Hp as [Hp Hf]. apply negb_true_iff in Hf. rewrite forallb_forall in Hp.
    rewrite Forall_forall in IH.
    assert (Hkv : ∀ k v, (k, v) ∈ d → k ≠ str "__proto__" ∧ encode v = Done (written v)).
    { intros k v Hin. pose proof (Hp _ (proj1 (list_elem_of_In _ _) Hin)) as H. cbv beta iota in H. apply andb_true_iff in H as [Hk Hv].
      apply negb_true_iff, bool_decide_eq_false in Hk. split; [done|]. by apply (IH _ Hin). }
    assert (Hown : Forall (λ kv, kv.1 ≠ str "__proto__") d) by (apply Forall_forall; intros [k v] Hin; by apply (Hkv k v)).
    cbn [encode written]. unfold isBuffer. rewrite get_prop_own by done. fold (flagged d). rewrite Hf.
    set (e := λ '((k, v) : jstr * value), (k, match v with VNull => Done [] | _ => _ end)).
    set (w := λ '((k, v) : jstr * value), (k, match v with VNull => [] | _ => encode_string k ++ written v end)).
    assert (E : e <$> d = (λ x : jstr * bytes, (x.1, Done x.2)) <$> (w <$> d)).
    { rewrite <- list_fmap_compose. apply list_fmap_ext. intros i [k v] Hi%list_elem_of_lookup_2. destruct (Hkv _ _ Hi) as [_ Hv].
      unfold e, w. cbn. destruct v; try done; by rewrite Hv. }
    assert (Ho : own_props (e <$> d) = e <$> d).
    { apply own_props_all. rewrite Forall_fmap. eapply Forall_impl; [exact Hown|]. by intros [k v]. }
    rewrite Ho, E, <- insertion_sort_map by done. pose proof (append_all_Done (λ x : jstr * bytes, x)) as Ha. cbv beta in Ha.
    rewrite Ha, list_fmap_id. done.
Qed.

(** What the encoder prints without loss: integers the numbers hold exactly, keys in
    order, without halves of surrogate pairs and not [__proto__], and no dictionary with
    a value under [_isBuffer] that is true. *)
Definition good_key (k : jstr) : bool := well_formed k && negb (bool_decide (k = str "__proto__")).

Fixpoint canonical (v : value) : bool :=
  match v with
  | VNum (Int z) => Z.abs z <=? two53
  | VBuf _ => true
  | VList l => forallb canonical l
  | VDict d => forallb (λ '(k, v), good_key k && canonical v) d && (ascending d.*1 && negb (flagged d))
  | _ => false
  end.

Lemma canonical_plain v : canonical v = true → plain_value v = true.
Proof.
  induction v as [|b|n|s|b|l IH|d IH] using value_rect'; intros Hc; try done; cbn [canonical plain_value] in *; rewrite Forall_forall in IH.
  - rewrite forallb_forall in *. intros v Hv. apply IH; [by apply list_elem_of_In|by apply Hc].
  - apply andb_true_iff in Hc as [Hc [_ Hf]%andb_true_iff]. rewrite Hf, andb_true_r. rewrite forallb_forall in *. intros [k v] Hin.
    specialize (Hc _ Hin). cbv beta iota in *. unfold good_key in Hc. apply andb_true_iff in Hc as [[_ Hk]%andb_true_iff Hv].
    rewrite Hk. apply (IH (k, v)); [by apply list_elem_of_In|done].
Qed.

Lemma canonical_own d : canonical (VDict d) = true → Forall (λ kv, kv.1 ≠ str "__proto__") d.
Proof.
  cbn [canonical]. intros [Hc _]%andb_true_iff. rewrite forallb_forall in Hc. apply Forall_forall. intros [k v] Hin%list_elem_of_In.
  specialize (Hc _ Hin). cbv beta iota in Hc. unfold good_key in Hc. apply andb_true_iff in Hc as [[_ Hk]%andb_true_iff _].
  by apply negb_true_iff, bool_decide_eq_false in Hk.
Qed.

Lemma lookup_prop_split {A} key (d : list (jstr * A)) v : lookup_prop key d = Some v → ∃ d1 d2, d = d1 ++ (key, v) :: d2.
Proof.
  induction d as [|[k w] d IH]; [done|]. cbn [lookup_prop]. case_bool_decide as E.
  - intros [= ->]. subst. by exists [], d.
  - intros H. destruct (IH H) as (d1&d2&->). by exists ((k, w) :: d1), d2.
Qed.

Lemma canonical_lookup d key v : canonical (VDict d) = true → lookup_prop key d = Some v → canonical v = true.
Proof.
  cbn [canonical]. intros [Hc _]%andb_true_iff (d1&d2&->)%lookup_prop_split. rewrite forallb_app in Hc. cbn [forallb] in Hc.
  apply andb_true_iff in Hc as [_ [[_ Hc]%andb_true_iff _]%andb_true_iff]. done.
Qed.

Definition entry (kv : jstr * value) : bytes := encode_string kv.1 ++ written kv.2.

Lemma canonical_not_null v : canonical v = true → v ≠ VNull.
Proof. by destruct v. Qed.

Lemma encode_dict d : canonical (VDict d) = true → written (VDict d) = [100] ++ concat (entry <$> d) ++ [101].
Proof.
  cbn [canonical]. intros [Hv [Hs _]%andb_true_iff]%andb_true_iff. cbn [written].
  set (f := λ '(k, v), _). assert (Hf : Forall (λ kv, (f kv).1 = kv.1 ∧ (f kv).2 = entry kv) d).
  { apply Forall_forall. intros [k v] Hin. rewrite forallb_forall in Hv. apply list_elem_of_In in Hin. specialize (Hv _ Hin). cbv beta iota in Hv.
    apply andb_true_iff in Hv as [_ Hv]. unfold f, entry. simpl. split; [done|]. by destruct v. }
  clearbody f. rewrite insertion_sort_id.
  - do 2 f_equal. f_equal. rewrite <- list_fmap_compose. apply list_fmap_ext. intros i kv Hi. by destruct (Forall_lookup_1 _ _ _ _ Hf Hi).
  - clear Hv. apply ascending_strong in Hs. induction Hf as [|kv d [Hk _] Hf IH]; [constructor|].
    rewrite fmap_cons in *. apply StronglySorted_inv in Hs as [Hs Hall]. constructor; [by apply IH|].
    destruct Hf as [|kw d [Hk' _]]; [constructor|]. constructor. unfold key_less. rewrite Hk, Hk'. apply units_less_asym.
    by apply Forall_inv in Hall.
Qed.

(** ** Numbers *)

Lemma encode_number_exact z : Z.abs z <= two53 → encode_number (Int z) = [105] ++ FormatInt z ++ [101].
Proof.
  intros Hz. unfold encode_number. cbv zeta. assert (two53 = 4194304 * 2147483648) as E53 by done.
  pose proof (Z.quot_rem' z 2147483648) as Eq. pose proof (Z.rem_bound_abs z 2147483648 ltac:(lia)) as Hr.
  assert (Hq : Z.abs (Z.quot z 2147483648) <= 4194304).
  { rewrite <- Z.quot_abs by lia. apply Z.quot_le_upper_bound; lia. }
  rewrite !i32_id by lia. cbn [js_add]. replace (Z.quot z 2147483648 * 2147483648 + Z.rem z 2147483648) with z by lia.
  rewrite js_round_exact by done. unfold num_text. by rewrite (proj2 (Z.leb_le _ _)).
Qed.

(** The digits of a number, and nothing else. *)
Lemma FormatInt_digits z : 0 <= z → ∃ ds, FormatInt z = (λ d, 48 + d) <$> ds ∧ ranged 10 ds ∧ from_base 10 ds = z ∧ ds ≠ [].
Proof.
  intros Hz. unfold FormatInt. destruct (z =? 0) eqn:E; reflect_bools.
  - subst. exists [0]. split_and!; [done|repeat constructor; lia|done|done].
  - rewrite (proj2 (Z.ltb_ge _ _)) by lia. rewrite Z.abs_eq by lia. exists (to_base 10 z).
    pose proof (to_base_value 10 ltac:(lia) z Hz) as Hv. split_and!; [done|by apply to_base_ranged|done|].
    intros Hn. rewrite Hn in Hv. unfold from_base in Hv. simpl in Hv. lia.
Qed.

Lemma int_loop_digits ds sum sign first : ranged 10 ds → 0 <= sum → from_base 10 (sum :: ds) <= two53 → (sign = 1 ∨ sign = -1) →
  int_loop first ((λ d, 48 + d) <$> ds) (Int sum) sign = Done (Int (from_base 10 (sum :: ds) * sign)).
Proof.
  intros Hd Hs Hb Hsg. revert sum first Hs Hb. induction Hd as [|d ds Hd Hds IH]; intros sum first Hs Hb.
  - cbn [fmap list_fmap int_loop js_scale]. unfold from_base in *. simpl in *. rewrite js_round_exact; [done|].
    destruct Hsg as [->| ->]; lia.
  - rewrite fmap_cons. cbn [int_loop]. rewrite (proj2 (Z.ltb_lt _ 58)), (proj2 (Z.leb_le 48 _)) by lia. cbn [andb js_scale].
    assert (E : from_base 10 (sum :: d :: ds) = from_base 10 ((sum * 10 + d) :: ds)) by (unfold from_base; simpl; f_equal; lia).
    assert (Hle : sum * 10 + d <= from_base 10 ((sum * 10 + d) :: ds)).
    { change ((sum * 10 + d) :: ds) with ([sum * 10 + d] ++ ds). rewrite from_base_app. pose proof (from_base_nonneg 10 ltac:(lia) ds Hds).
      assert (E1 : from_base 10 [sum * 10 + d] = sum * 10 + d) by (unfold from_base; simpl; lia). rewrite E1.
      assert (1 <= 10 ^ len ds) by (pose proof (Z.pow_pos_nonneg 10 (len ds) ltac:(lia) (len_nonneg ds)); lia). nia. }
    rewrite E in *. unfold two53 in *. rewrite js_round_exact by (unfold two53; lia). cbn [js_add].
    rewrite js_round_exact by (unfold two53; lia). replace (sum * 10 + (48 + d - 48)) with (sum * 10 + d) by lia. apply IH; lia.
Qed.

(** ** Reading what was printed *)

Section Read.
Context (data : bytes) (Hsize : len data < 2147483648).

Lemma find_at c off pre rest : at_ data off (pre ++ c :: rest) → c ∉ pre → find data c (Int off) = Done (off + len pre).
Proof.
  intros Ha Hc. pose proof (at_bounds _ _ _ Ha) as [Hoff _]. unfold find.
  rewrite (proj2 (Z.ltb_ge off _)) by (unfold two53; lia). destruct Ha as (p&r&->&->).
  unfold len at 1. rewrite Nat2Z.id, drop_app_length. rewrite <- app_assoc, list_find_app_r.
  - cbn [app list_find]. rewrite decide_True by done. cbn [fmap option_fmap option_map prod_map fst]. unfold len. f_equal. lia.
  - apply list_find_None. apply Forall_forall. intros x Hx ->. done.
Qed.

Lemma digits_not c ds : ranged 10 ds → ¬ (48 <= c <= 57) → c ∉ (λ d, 48 + d) <$> ds.
Proof. intros Hd Hc Hin. apply list_elem_of_fmap in Hin as (d&->&Hin). unfold ranged in Hd. rewrite Forall_forall in Hd. specialize (Hd _ Hin). lia. Qed.

Lemma getInt_at off txt rest n : at_ data off (txt ++ rest) → int_loop true txt (Int 0) 1 = Done n →
  getIntFromBuffer data (Int off) (off + len txt) = Done n.
Proof.
  intros Ha Hi. pose proof (at_bounds _ _ _ Ha) as [Hoff _]. unfold getIntFromBuffer. rewrite (proj2 (Z.ltb_ge off 0)) by lia.
  apply at_app in Ha as [Ha _]. rewrite (at_take data off txt); [done|done|unfold len; lia].
Qed.

Lemma buffer_at off b rest : at_ data off (encode_buffer b ++ rest) →
  buffer data (Int off) = Done (b, Int (off + len (encode_buffer b))).
Proof.
  intros Ha. unfold encode_buffer in *. destruct (FormatInt_digits (len b) (len_nonneg b)) as (ds&E&Hd&Hv&_). rewrite E in *.
  set (txt := (λ d, 48 + d) <$> ds) in *. rewrite <- !app_assoc in Ha. pose proof (at_bounds _ _ _ Ha) as [Hoff Hend].
  rewrite !len_app in Hend. pose proof (len_nonneg rest). pose proof (len_nonneg b). pose proof (len_nonneg txt). change (len [58]) with 1 in *.
  unfold buffer. rewrite (find_at 58 off txt (b ++ rest)) by (done || (apply digits_not; [done|lia])). cbn [mbind outcome_bind].
  rewrite (getInt_at off txt ([58] ++ b ++ rest) (Int (len b))); [|done|]; cycle 1.
  { unfold txt. rewrite int_loop_digits; [|done|lia| |by left].
    - change (0 :: ds) with ([0] ++ ds). rewrite from_base_app, Hv. do 2 f_equal. unfold from_base. simpl. lia.
    - change (0 :: ds) with ([0] ++ ds). rewrite from_base_app, Hv. unfold from_base. simpl. unfold two53. lia. }
  cbn [mbind outcome_bind js_add]. rewrite js_round_exact by (unfold two53; lia). rewrite !len_app. change (len [58]) with 1.
  replace (off + (len txt + (1 + len b))) with (off + len txt + 1 + len b) by lia. do 2 f_equal.
  unfold buffer_slice, to_int32. rewrite i32_id by lia. rewrite (proj2 (Z.ltb_ge (_ + len b) 0)), (proj2 (Z.ltb_ge (len data) _)) by lia.
  rewrite (proj2 (Z.ltb_ge (_ + len b) (_ + 1))) by lia. replace (off + len txt + 1) with (off + len (txt ++ [58])) by (rewrite len_app; change (len [58]) with 1; lia).
  rewrite (app_assoc txt) in Ha. apply at_app in Ha as [_ Ha]. apply at_app in Ha as [Ha _]. apply at_take; [done|].
  unfold len. lia.
Qed.

Lemma integer_at off z rest : at_ data off ([105] ++ FormatInt z ++ [101] ++ rest) → Z.abs z <= two53 →
  integer data (Int off) = Done (Int z, Int (off + 1 + len (FormatInt z) + 1)).
Proof.
  intros Ha Hz. assert (Ht : ∃ sg ds, FormatInt z = sg ++ ((λ d, 48 + d) <$> ds) ∧ ranged 10 ds ∧ ds ≠ [] ∧
    (sg = [] ∧ from_base 10 ds = z ∨ sg = [45] ∧ from_base 10 ds = - z)).
  { destruct (decide (0 <= z)) as [Hp|Hn].
    - destruct (FormatInt_digits z Hp) as (ds&?&?&?&?). exists [], ds. by split_and!; [| | |left].
    - assert (E : FormatInt z = [45] ++ FormatInt (- z)).
      { unfold FormatInt. rewrite (proj2 (Z.eqb_neq z 0)), (proj2 (Z.eqb_neq (- z) 0)), (proj2 (Z.ltb_lt z 0)), (proj2 (Z.ltb_ge (- z) 0)) by lia.
        by rewrite Z.abs_opp. }
      rewrite E. destruct (FormatInt_digits (- z)) as (ds&->&?&?&?); [lia|]. exists [45], ds. by split_and!; [| | |right]. }
  destruct Ht as (sg&ds&Et&Hd&Hne&Hv). pose proof (at_bounds _ _ _ Ha) as [Hoff Hend]. rewrite !len_app in Hend.
  pose proof (len_nonneg (FormatInt z)). pose proof (len_nonneg rest). change (len [105]) with 1 in *. change (len [101]) with 1 in *.
  unfold integer. rewrite (find_at 101 off ([105] ++ FormatInt z) rest); [|by rewrite <- app_assoc|]; cycle 1.
  { rewrite Et, !not_elem_of_app. split_and!; [|destruct Hv as [[-> _]|[-> _]]|apply digits_not; [done|lia]].
    - intros ?%list_elem_of_singleton. lia.
    - apply not_elem_of_nil.
    - intros ?%list_elem_of_singleton. lia. }
  cbn [mbind outcome_bind js_add]. rewrite js_round_exact by (unfold two53; lia). rewrite len_app. change (len [105]) with 1.
  apply at_app in Ha as [_ Ha]. change (len [105]) with 1 in Ha.
  replace (off + (1 + len (FormatInt z))) with (off + 1 + len (FormatInt z)) by lia.
  rewrite (getInt_at (off + 1) (FormatInt z) ([101] ++ rest) (Int z)); [done|done|]. rewrite Et.
  assert (Ez : from_base 10 (0 :: ds) = from_base 10 ds).
  { change (0 :: ds) with ([0] ++ ds). rewrite from_base_app. unfold from_base at 1. simpl. lia. }
  destruct Hv as [[-> Hv]|[-> Hv]].
  - cbn [app]. rewrite int_loop_digits; [rewrite Ez, Hv; do 2 f_equal; lia|done|lia|rewrite Ez; lia|by left].
  - cbn [app int_loop]. rewrite (proj2 (Z.ltb_lt 45 58)), (proj2 (Z.leb_gt 48 45)) by lia. cbn.
    rewrite int_loop_digits; [rewrite Ez, Hv; do 2 f_equal; lia|done|lia|rewrite Ez; lia|by right].
Qed.
End Read.

(** The first byte of a text tells the types apart, and from the end mark. *)
Lemma encode_buffer_head b : ∃ c t, encode_buffer b = c :: t ∧ 48 <= c <= 57.
Proof.
  unfold encode_buffer. destruct (FormatInt_digits (len b) (len_nonneg b)) as ([|d ds]&E&Hd&_&Hne); [done|].
  rewrite E, fmap_cons. cbn [app]. eexists _, _. split; [done|]. apply Forall_cons in Hd as [Hd _]. lia.
Qed.

Lemma encode_head v : canonical v = true → ∃ c t, written v = c :: t ∧ c ≠ 101.
Proof.
  destruct v as [| |[z|]| |b|l|d]; try done; intros Hc.
  - cbn [written canonical] in *. rewrite encode_number_exact by zlia. by eexists _, _.
  - cbn [written]. destruct (encode_buffer_head b) as (c&t&->&Hr). eexists _, _. split; [done|lia].
  - cbn [written app]. by eexists _, _.
  - rewrite encode_dict by done. cbn [app]. by eexists _, _.
Qed.

Lemma byte_at_not data off v rest : canonical v = true → at_ data off (written v ++ rest) → byte_at data (Int off) ≠ Some 101.
Proof.
  intros Hc Ha. destruct (encode_head v Hc) as (c&t&E&Hne). rewrite E in Ha. cbn [app] in Ha. cbn [byte_at].
  rewrite (at_idx _ _ _ _ Ha). congruence.
Qed.

Definition reads (v : value) : Prop := ∀ data off rest fuel,
  len data < 2147483648 → canonical v = true → at_ data off (written v ++ rest) → (length (written v) ≤ fuel)%nat →
  next data fuel (Int off) = Done (v, Int (off + len (written v))).

Lemma step_exact data off enc rest : len data < 2147483648 → at_ data off (enc ++ rest) →
  js_add (Int off) (Int 1) = Int (off + 1).
Proof.
  intros Hs Ha. pose proof (at_bounds _ _ _ Ha) as [? Hb]. pose proof (len_nonneg (enc ++ rest)). cbn [js_add].
  apply js_round_exact. unfold two53. lia.
Qed.

Lemma list_at l data off rest fuel acc : Forall reads l → forallb canonical l = true → len data < 2147483648 →
  at_ data off (concat (written <$> l) ++ 101 :: rest) → (1 + length (concat (written <$> l)) ≤ fuel)%nat →
  list_ data fuel (Int off) acc = Done (acc ++ l, Int (off + len (concat (written <$> l)) + 1)).
Proof.
  intros Hr. revert off fuel acc. induction Hr as [|v l Hv _ IH]; intros off fuel acc Hc Hs Ha Hf.
  - cbn [fmap list_fmap concat app] in *. destruct fuel as [|fuel]; [simpl in Hf; lia|]. cbn [list_ byte_at].
    rewrite (at_idx _ _ _ _ Ha), bool_decide_true by done.
    rewrite (step_exact data off [101] rest) by done. rewrite app_nil_r. do 3 f_equal. unfold len. simpl. lia.
  - rewrite fmap_cons in *. cbn [concat] in *. rewrite <- app_assoc in Ha. rewrite length_app in Hf.
    cbn [forallb] in Hc. apply andb_true_iff in Hc as [Hc1 Hc2]. destruct (encode_head v Hc1) as (c0&t0&E0&_).
    assert (1 <= length (written v))%nat by (rewrite E0; simpl; lia). destruct fuel as [|fuel]; [lia|]. cbn [list_].
    rewrite bool_decide_false by (by eapply byte_at_not). rewrite (Hv data off _ fuel Hs Hc1 Ha) by lia. cbn [mbind outcome_bind].
    apply at_app in Ha as [_ Ha]. rewrite (IH (off + len (written v)) fuel (acc ++ [v]) Hc2 Hs Ha) by lia.
    rewrite <- app_assoc, len_app. do 3 f_equal. lia.
Qed.

(** Properties come in order, so each is new. *)
Lemma set_key_new k (v : value) d : good_key k = true → k ∉ d.*1 → set_key k v d = d ++ [(k, v)].
Proof.
  unfold good_key, set_key. intros [_ Hk]%andb_true_iff Hn. apply negb_true_iff in Hk. rewrite Hk. by apply replace_prop_new.
Qed.

Lemma ascending_NoDup ks : ascending ks = true → NoDup ks.
Proof.
  intros Hs%ascending_strong. induction Hs as [|k ks Hs IH Hall]; [constructor|]. constructor; [|done].
  intros Hin. rewrite Forall_forall in Hall. specialize (Hall _ Hin). by rewrite units_less_irrefl in Hall.
Qed.

Lemma dictionary_at d data off rest fuel acc : Forall (λ kv, reads kv.2) d →
  forallb (λ '(k, v), good_key k && canonical v) d = true → NoDup (acc ++ d).*1 → len data < 2147483648 →
  at_ data off (concat (entry <$> d) ++ 101 :: rest) → (1 + length (concat (entry <$> d)) ≤ fuel)%nat →
  dictionary data fuel (Int off) acc = Done (acc ++ d, Int (off + len (concat (entry <$> d)) + 1)).
Proof.
  intros Hr. revert off fuel acc. induction Hr as [|[k v] d Hv _ IH]; intros off fuel acc Hc Hn Hs Ha Hf.
  - cbn [fmap list_fmap concat app] in *. destruct fuel as [|fuel]; [simpl in Hf; lia|]. cbn [dictionary byte_at].
    rewrite (at_idx _ _ _ _ Ha), bool_decide_true by done.
    rewrite (step_exact data off [101] rest) by done. rewrite app_nil_r. do 3 f_equal. unfold len. simpl. lia.
  - rewrite (fmap_cons entry) in *. cbn [concat] in *. unfold entry at 1 in Ha. unfold entry at 1 in Hf. unfold entry at 1.
    cbn [fst snd] in *. rewrite <- !app_assoc in Ha. rewrite !length_app in Hf.
    cbn [forallb] in Hc. apply andb_true_iff in Hc as [Hc1 Hc2]. apply andb_true_iff in Hc1 as [Hk Hc1].
    destruct (encode_buffer_head (from_string k)) as (c0&t0&E0&Hc0).
    assert (1 <= length (encode_string k))%nat by (unfold encode_string; rewrite E0; simpl; lia). destruct fuel as [|fuel]; [lia|].
    assert (Hb : byte_at data (Int off) ≠ Some 101).
    { unfold encode_string in Ha. rewrite E0 in Ha. cbn [byte_at app] in *. rewrite (at_idx _ _ _ _ Ha). intros [= ->]. lia. }
    cbn [dictionary]. rewrite bool_decide_false by done. unfold encode_string in Ha.
    rewrite (buffer_at data Hs off _ _ Ha). cbn [mbind outcome_bind].
    apply at_app in Ha as [_ Ha]. fold (encode_string k) in *.
    rewrite (Hv data (off + len (encode_string k)) _ fuel Hs Hc1 Ha) by (cbn [snd]; lia). cbn [mbind outcome_bind snd].
    apply at_app in Ha as [_ Ha]. pose proof Hk as Hk'. unfold good_key in Hk. apply andb_true_iff in Hk as [Hw _].
    rewrite to_from_string by done.
    assert (Hfresh : k ∉ acc.*1).
    { rewrite fmap_app, fmap_cons in Hn. apply NoDup_app in Hn as (_&Hd&_). intros Hin. apply (Hd k Hin). by left. }
    rewrite set_key_new by done. rewrite (IH _ fuel (acc ++ [(k, v)])); [|done|by rewrite <- app_assoc|done|done|lia].
    rewrite <- app_assoc. rewrite !len_app. do 3 f_equal. lia.
Qed.

Lemma next_at v : reads v.
Proof.
  induction v as [| |n| |b|l Hl|d Hd] using value_rect'; intros data off rest fuel Hs Hc Ha Hf; try done.
  - destruct n as [z|]; [|done]. cbn [written canonical] in *. reflect_bools.
    rewrite encode_number_exact in * by done. rewrite !length_app in Hf. destruct fuel as [|fuel]; [simpl in Hf; lia|].
    cbn [next byte_at]. rewrite <- !app_assoc in Ha. rewrite (at_idx _ _ _ _ Ha). rewrite (integer_at data Hs off z rest) by done.
    cbn [mbind outcome_bind]. rewrite !len_app. change (len [105]) with 1. change (len [101]) with 1. do 3 f_equal. lia.
  - cbn [written] in *. destruct (encode_buffer_head b) as (c&t&E&Hr). destruct fuel as [|fuel]; [rewrite E in Hf; simpl in Hf; lia|].
    cbn [next]. pose proof (buffer_at data Hs off b rest Ha) as Hb. rewrite E in Ha. cbn [app] in Ha. cbn [byte_at].
    rewrite (at_idx _ _ _ _ Ha). rewrite Hb. cbn [mbind outcome_bind].
    assert (E3 : ∀ (x y : outcome (value * number)) z, (match c with 100 => x | 108 => y | 105 => z | _ => Done (VBuf b, Int (off + len (encode_buffer b))) end)
       = Done (VBuf b, Int (off + len (encode_buffer b)))).
    { intros x y z. assert (c = 48 ∨ c = 49 ∨ c = 50 ∨ c = 51 ∨ c = 52 ∨ c = 53 ∨ c = 54 ∨ c = 55 ∨ c = 56 ∨ c = 57) by lia.
      by repeat destruct_or?; subst. }
    apply E3.
  - cbn [canonical] in Hc. cbn [written] in *. rewrite <- !app_assoc in Ha. rewrite !length_app in Hf. simpl length in Hf.
    destruct fuel as [|fuel]; [lia|]. cbn [next byte_at]. cbn [app] in Ha. rewrite (at_idx _ _ _ _ Ha).
    rewrite (step_exact data off [108] (concat (written <$> l) ++ 101 :: rest)) by done.
    change (108 :: concat (written <$> l) ++ 101 :: rest) with ([108] ++ concat (written <$> l) ++ 101 :: rest) in Ha.
    apply at_app in Ha as [_ Ha]. change (len [108]) with 1 in Ha. rewrite (list_at l data (off + 1) rest fuel []) by (done || lia).
    cbn [mbind outcome_bind app]. rewrite len_cons, len_app. change (len [101]) with 1. do 3 f_equal. lia.
  - rewrite encode_dict in * by done. cbn [canonical] in Hc. apply andb_true_iff in Hc as [Hc [Hasc _]%andb_true_iff].
    rewrite <- !app_assoc in Ha. rewrite !length_app in Hf. simpl length in Hf.
    destruct fuel as [|fuel]; [lia|]. cbn [next byte_at]. cbn [app] in Ha. rewrite (at_idx _ _ _ _ Ha).
    rewrite (step_exact data off [100] (concat (entry <$> d) ++ 101 :: rest)) by done.
    change (100 :: concat (entry <$> d) ++ 101 :: rest) with ([100] ++ concat (entry <$> d) ++ 101 :: rest) in Ha.
    apply at_app in Ha as [_ Ha]. change (len [100]) with 1 in Ha.
    rewrite (dictionary_at d data (off + 1) rest fuel []); [|done|done|by apply ascending_NoDup|done|done|lia].
    cbn [mbind outcome_bind app]. rewrite len_cons, len_app. change (len [101]) with 1. do 3 f_equal. lia.
Qed.

Lemma bencode_read (v : value) (rest : bytes) (fuel : nat) :
  canonical v = true → len (written v ++ rest) < 2147483648 → (length (written v) ≤ fuel)%nat →
  decode fuel (written v ++ rest) = Done v.
Proof.
  intros Hc Hs Hf. destruct (encode_head v Hc) as (c&t&E&_).
  assert (Hn : next (written v ++ rest) fuel (Int 0) = Done (v, Int (0 + len (written v)))).
  { apply (next_at v _ 0 rest); [done|done| |done]. exists [], []. by rewrite app_nil_r. }
  unfold decode. rewrite Hn. by rewrite E.
Qed.

(** C33: a canonical value is printed, and read again, whatever follows it, it is the
    same value: integers up to 2^53, bytes, lists, and dictionaries with their keys in
    order, none of which makes them look like a buffer or changes their prototype. *)
Theorem bencode_roundtrip (v : value) : canonical v = true →
  ∃ text, encode v = Done text ∧
    ∀ rest fuel, len (text ++ rest) < 2147483648 → (length text ≤ fuel)%nat → decode fuel (text ++ rest) = Done v.
Proof.
  intros Hc. exists (written v). split; [by apply encode_written, canonical_plain|]. intros rest fuel. by apply bencode_read.
Qed.

Definition sample_torrent : value :=
  VDict [(str "announce", VBuf (str "http://t/a"));
         (str "info", VDict [(str "length", VNum (Int 5)); (str "name", VBuf (str "a.mkv")); (str "piece length", VNum (Int 16384));
                             (str "pieces", VBuf (replicate 20 7))]);
         (str "tags", VList [VNum (Int (-3)); VBuf []])].

Lemma bencode_roundtrip_witness :
  ∃ text, encode sample_torrent = Done text ∧ text ≠ [] ∧
    ∀ rest fuel, len (text ++ rest) < 2147483648 → (length text ≤ fuel)%nat → decode fuel (text ++ rest) = Done sample_torrent.
Proof.
  destruct (bencode_roundtrip sample_torrent) as (text&E&H); [reflexivity|]. exists text. split; [exact E|]. split; [|exact H].
  intros ->. by vm_compute in E.
Defined.

(** ** Reading ends *)

Lemma js_round_nonneg z : 0 <= z → js_round z = Infinity false ∨ ∃ y, js_round z = Int y ∧ Z.min z two53 <= y.
Proof.
  intros Hz. unfold js_round. rewrite Z.abs_eq by done. destruct (z <=? two53) eqn:E; reflect_bools; [right; exists z; split; [done|lia]|].
  set (u := 2 ^ (Z.log2 z - 52)). cbv zeta. set (q := if _ || _ then _ else _).
  destruct (_ <=? q * u) eqn:Ei; [left; by rewrite (proj2 (Z.ltb_ge z 0))|]. right. eexists. split; [done|].
  assert (Hl : 53 <= Z.log2 z) by (apply Z.log2_le_pow2; [unfold two53 in *; lia|change (2 ^ 53) with two53; lia]).
  assert (Hu : 0 < u) by (apply Z.pow_pos_nonneg; lia).
  assert (Hq : z / u <= q) by (unfold q; case_match; lia).
  assert (Hd : 2 ^ 52 <= z / u).
  { apply Z.div_le_lower_bound; [done|]. unfold u. rewrite <- Z.pow_add_r by lia. replace (_ - 52 + 52) with (Z.log2 z) by lia.
    apply Z.log2_spec. unfold two53 in *. lia. }
  assert (Hu2 : 2 <= u) by (unfold u; change 2 with (2 ^ 1) at 1; apply Z.pow_le_mono_r; lia).
  rewrite Z.sgn_pos by (unfold two53 in *; lia). change (2 ^ 52) with 4503599627370496 in *. unfold two53 in *. nia.
Qed.

Definition nonneg (n : number) : Prop := match n with Int z => 0 <= z | Infinity neg => neg = false end.

Lemma js_round_sign z : 0 <= z → nonneg (js_round z).
Proof. intros Hz. destruct (js_round_nonneg z Hz) as [->|(y&->&Hy)]; [done|]. unfold nonneg, two53 in *. lia. Qed.

Lemma js_scale_nonneg n k : nonneg n → 0 < k → nonneg (js_scale n k).
Proof. destruct n as [z|neg]; intros Hn Hk; simpl in *; [apply js_round_sign; nia|]. subst. by rewrite (proj2 (Z.ltb_ge k 0)) by lia. Qed.

Lemma int_loop_nonneg first s sum n : 45 ∉ s → nonneg sum → int_loop first s sum 1 = Done n → nonneg n.
Proof.
  revert first sum. induction s as [|c s IH]; intros first sum Hs Hn.
  - intros [= <-]. by apply js_scale_nonneg.
  - apply not_elem_of_cons in Hs as [Hc Hs]. cbn [int_loop]. destruct ((c <? 58) && (48 <=? c)) eqn:E1; reflect_bools.
    + apply IH; [done|]. pose proof (js_scale_nonneg sum 10 Hn ltac:(lia)) as Hm.
      destruct (js_scale sum 10) as [z|neg]; simpl in *; [apply js_round_sign; lia|done].
    + destruct (first && (c =? 43)); [by apply IH|]. destruct (first && (c =? 45)) eqn:E2; [reflect_bools; lia|].
      destruct (c =? 46); [|done]. intros [= <-]. by apply js_scale_nonneg.
Qed.

Section Ends.
Context (data : bytes) (Hsize : len data < two53) (Hminus : 45 ∉ data).

(** How much of the data lies behind a position. *)
Definition left_of (p : number) : nat := match p with Int z => Z.to_nat (len data - z) | Infinity _ => 0 end.

Lemma find_ends c p : nonneg p → find data c p ≠ NoFuel ∧ ∀ e, find data c p = Done e → ∃ z, p = Int z ∧ z <= e < len data.
Proof.
  destruct p as [z|neg]; simpl; intros Hp; [|by subst]. rewrite (proj2 (Z.ltb_ge _ _)) by (unfold two53; lia).
  destruct (list_find _ _) as [[k x]|] eqn:E; [|done]. split; [done|]. intros e [= <-]. exists z. split; [done|].
  apply list_find_Some in E as (E&_&_). apply lookup_lt_Some in E. rewrite length_drop in E. unfold len. lia.
Qed.

Lemma getInt_ends p e : nonneg p → getIntFromBuffer data p e ≠ NoFuel ∧ ∀ n, getIntFromBuffer data p e = Done n → nonneg n.
Proof.
  destruct p as [z|neg]; simpl; intros Hp; [|done]. rewrite (proj2 (Z.ltb_ge _ _)) by lia.
  set (s := take _ _). assert (Hs : 45 ∉ s).
  { intros Hin. apply Hminus. unfold s in Hin. apply (subseteq_drop (Z.to_nat z)). by eapply subseteq_take. }
  split; [|intros n; by apply int_loop_nonneg].
  assert (Hl : ∀ first sum sign, int_loop first s sum sign ≠ NoFuel); [|apply Hl].
  clear. induction s as [|c s IH]; intros first sum sign; cbn [int_loop]; [done|]. by repeat case_match.
Qed.

Definition good {A} (p : number) (r : outcome (A * number)) : Prop :=
  r ≠ NoFuel ∧ ∀ a p', r = Done (a, p') → nonneg p' ∧ (left_of p' < left_of p)%nat.

Lemma good_bind {A B} p q (r : outcome (A * number)) (f : A * number → outcome (B * number)) :
  good p r → (left_of p ≤ left_of q)%nat →
  (∀ a p', nonneg p' → (left_of p' < left_of p)%nat → r = Done (a, p') → good p' (f (a, p')) ∨ ∃ b, f (a, p') = Done (b, p')) → good q (mbind f r).
Proof.
  intros [Hr Hd] Hle Hf. destruct r as [[a p']| |]; [|split; done|done].
  destruct (Hd a p' eq_refl) as [Hp Hl]. cbn [mbind outcome_bind]. destruct (Hf a p' Hp Hl eq_refl) as [[H1 H2]|[b E]].
  - split; [done|]. intros b q' Hb. destruct (H2 b q' Hb). split; [done|lia].
  - rewrite E. split; [done|]. intros ? ? [= <- <-]. split; [done|lia].
Qed.

Lemma buffer_ends p : nonneg p → good p (buffer data p).
Proof.
  intros Hp. unfold buffer, good. destruct (find_ends 58 p Hp) as [Hf1 Hf2]. destruct (find data 58 p) as [e| |]; [|by split|done].
  destruct (Hf2 e eq_refl) as (z&->&Hz). cbn [mbind outcome_bind]. destruct (getInt_ends (Int z) e Hp) as [Hg1 Hg2].
  destruct (getIntFromBuffer data (Int z) e) as [n| |]; [|by split|done]. specialize (Hg2 n eq_refl). cbn [mbind outcome_bind].
  split; [done|]. intros b p' [= _ <-]. simpl in Hp. destruct n as [y|neg]; simpl in *.
  - destruct (js_round_nonneg (e + 1 + y)) as [->|(w&->&Hw)]; [lia|simpl; split; [done|lia]|]. simpl. unfold two53 in *. split; lia.
  - subst. simpl. split; [done|lia].
Qed.

Lemma integer_ends p : nonneg p → good p (integer data p).
Proof.
  intros Hp. unfold integer, good. destruct (find_ends 101 p Hp) as [Hf1 Hf2]. destruct (find data 101 p) as [e| |]; [|by split|done].
  destruct (Hf2 e eq_refl) as (z&->&Hz). cbn [mbind outcome_bind js_add]. simpl in Hp.
  destruct (getInt_ends (js_round (z + 1)) e ltac:(apply js_round_sign; lia)) as [Hg1 Hg2].
  destruct (getIntFromBuffer data _ e) as [n| |]; [|by split|done]. cbn [mbind outcome_bind].
  split; [done|]. intros b p' [= _ <-]. simpl. lia.
Qed.

Lemma byte_at_left p c : nonneg p → byte_at data p = Some c → nonneg (js_add p (Int 1)) ∧ (left_of (js_add p (Int 1)) < left_of p)%nat.
Proof.
  destruct p as [z|]; [|done]. simpl. intros Hz Hc%idx_Some_lt. rewrite js_round_exact by (unfold two53 in *; lia). simpl. lia.
Qed.

Lemma next_S fuel p : next data (S fuel) p =
  if decide (byte_at data p = Some 100) then '(d, p) ← dictionary data fuel (js_add p (Int 1)) []; Done (VDict d, p)
  else if decide (byte_at data p = Some 108) then '(l, p) ← list_ data fuel (js_add p (Int 1)) []; Done (VList l, p)
  else if decide (byte_at data p = Some 105) then '(n, p) ← integer data p; Done (VNum n, p)
  else '(b, p) ← buffer data p; Done (VBuf b, p).
Proof.
  cbn [next]. destruct (byte_at data p) as [[|c|c]|]; [done| |done|done].
  repeat (destruct c as [c|c|]; try done).
Qed.

Lemma reading_ends fuel p : nonneg p →
  ((2 * left_of p + 1 ≤ fuel)%nat → good p (next data fuel p)) ∧
  ((2 * left_of p + 2 ≤ fuel)%nat → ∀ l, good p (list_ data fuel p l)) ∧
  ((2 * left_of p + 2 ≤ fuel)%nat → ∀ d, good p (dictionary data fuel p d)).
Proof.
  revert p. induction fuel as [|fuel IH]; intros p Hp; [split_and!; lia|]. split_and!; intros Hf.
  - rewrite next_S. destruct (decide _) as [E|_]; [|destruct (decide _) as [E|_]; [|destruct (decide _) as [E|_]]].
    + destruct (byte_at_left _ _ Hp E) as [Hq Hl]. destruct (IH _ Hq) as (_&_&IHd).
      eapply good_bind; [apply IHd; lia|lia|]. intros. right. by eexists.
    + destruct (byte_at_left _ _ Hp E) as [Hq Hl]. destruct (IH _ Hq) as (_&IHl&_).
      eapply good_bind; [apply IHl; lia|lia|]. intros. right. by eexists.
    + eapply good_bind; [by apply integer_ends|done|]. intros. right. by eexists.
    + eapply good_bind; [by apply buffer_ends|done|]. intros. right. by eexists.
  - intros l. cbn [list_]. case_bool_decide as E.
    + destruct (byte_at_left _ _ Hp E). split; [done|]. by intros ? ? [= <- <-].
    + eapply good_bind; [apply IH; [done|lia]|done|]. intros v p' Hp' Hl _. left. apply IH; [done|lia].
  - intros d. cbn [dictionary]. case_bool_decide as E.
    + destruct (byte_at_left _ _ Hp E). split; [done|]. by intros ? ? [= <- <-].
    + eapply good_bind; [by apply buffer_ends|done|]. intros k p' Hp' Hl _. left.
      eapply good_bind; [apply IH; [done|lia]|done|]. intros v p'' Hp'' Hl' _. left. apply IH; [done|lia].
Qed.
End Ends.

(** Reading a text without a minus sign returns a value or throws: the position
    only goes forward, so twice as many turns as there are bytes are enough. *)
Theorem decode_ends (data : bytes) (fuel : nat) :
  45 ∉ data → len data < two53 → (2 * length data + 1 ≤ fuel)%nat → decode fuel data ≠ NoFuel.
Proof.
  intros Hm Hs Hf. unfold decode. destruct data as [|c data]; [done|]. set (text := c :: data) in *.
  destruct (reading_ends text Hs Hm fuel (Int 0)) as [[Hn _] _]; [done|simpl left_of; unfold len; lia|].
  by destruct (next text fuel (Int 0)).
Qed.

Lemma decode_ends_witness : decode 100 (str "d4:listli1e2:abee") ≠ NoFuel ∧ decode 100 (str "l4:spam") ≠ NoFuel.
Proof.
  split; apply decode_ends; try (by vm_compute); try (apply Nat.leb_le; by vm_compute).
  all: apply (bool_decide_eq_true_1 (45 ∉ _)); by vm_compute.
Defined.

(** C40: a length may be negative: at a list that goes on with [-3:] the reader takes an
    empty text and stands where it stood before, so it never ends, whatever follows. *)
Theorem negative_length_hangs (rest : bytes) (fuel : nat) : decode fuel (str "l-3:" ++ rest) = NoFuel.
Proof.
  unfold decode. change (str "l-3:" ++ rest) with (108 :: 45 :: 51 :: 58 :: rest). set (data := 108 :: _).
  destruct fuel as [|fuel]; [done|]. change (next data (S fuel) (Int 0)) with ('(l, p) ← list_ data fuel (Int 1) []; Done (VList l, p)).
  assert (Hl : ∀ lst, list_ data fuel (Int 1) lst = NoFuel); [|by rewrite Hl].
  induction fuel as [|fuel IH]; intros lst; [done|].
  change (list_ data (S fuel) (Int 1) lst) with ('(v, p) ← next data fuel (Int 1); list_ data fuel p (lst ++ [v])).
  destruct fuel as [|fuel]; [done|].
  change (next data (S fuel) (Int 1)) with ('(b, p) ← Done (buffer_slice data 4 (Int 1), Int 1); Done (VBuf b, p)).
  cbn [mbind outcome_bind]. apply IH.
Qed.

(** What is read and printed again may differ: an integer beyond 2^53 is rounded,
    and a key that is not UTF-8 comes back as the replacement character. *)
Theorem reencode_differs :
  (v ← decode 100 (str "d6:lengthi9007199254740993ee"); encode v) = Done (str "d6:lengthi9007199254740992ee") ∧
  (v ← decode 100 (str "d1:" ++ [255] ++ str "i1ee"); encode v) = Done (str "d3:" ++ [239; 191; 189] ++ str "i1ee").
Proof. by vm_compute. Qed.

(** A dictionary that names itself a buffer, or has a text under [__proto__], is read
    but cannot be printed: the encoder takes it for a buffer and throws. *)
Theorem flagged_throws :
  (∃ v, decode 100 (str "d9:_isBufferi1ee") = Done v ∧ encode v = Panic) ∧
  (∃ v, decode 100 (str "d9:__proto__1:ae") = Done v ∧ encode v = Panic).
Proof. split; eexists; (split; [vm_compute; reflexivity|vm_compute; reflexivity]). Qed.
