(* ===== verification/BencodeTypes.v ===== *)
(** * What reading bencoded data gives

    Whatever the bytes, a value that is read is well-formed: buffers hold bytes, and keys
    are whole strings, each once.  Printed and read again it is the same value with its
    keys in order, as long as its integers are small enough for the numbers, and no
    dictionary looks like a buffer or has a prototype of its own. *)

From S2P Require Import Prelude GoText Encoding JsText Bencode BencodeProps.
#[local] Open Scope Z_scope.

(** ** Text of any bytes *)

Lemma runes_scalar b : bytes_ok b → Forall (λ c, scalar c = true) (runes b).
Proof.
  assert (H3 : ∀ n b, (length b ≤ n)%nat → bytes_ok b → Forall (λ c, scalar c = true) (runes b)); [|intros; by eapply H3].
  induction n as [|n IH]; intros [|x1 s1] Hl Hb; try constructor; [simpl in Hl; lia|].
  apply Forall_cons in Hb as [Hx1 Hb1]. simpl in Hl. assert (Hbad : Forall (λ c, scalar c = true) (65533 :: runes s1)) by (constructor; [done|apply IH; [lia|done]]).
  cbn [runes]. destruct (x1 <? 128) eqn:E0; [constructor; [unfold is_byte, scalar in *; blia|apply IH; [lia|done]]|].
  destruct s1 as [|x2 s2]; [done|]. apply Forall_cons in Hb1 as [Hx2 Hb2]. simpl in Hl.
  destruct (cont 194 223 x1 && cont 128 191 x2) eqn:E2; [constructor; [unfold cont, scalar in *; blia|apply IH; [lia|done]]|].
  destruct s2 as [|x3 s3]; [done|]. apply Forall_cons in Hb2 as [Hx3 Hb3]. simpl in Hl.
  set (lo := if x1 =? 224 then 160 else 128). set (hi := if x1 =? 237 then 159 else 191).
  destruct (cont 224 239 x1 && cont lo hi x2 && cont 128 191 x3) eqn:E3.
  { constructor; [|apply IH; [lia|done]]. unfold cont, scalar, lo, hi in *. destruct (x1 =? 224) eqn:Ea, (x1 =? 237) eqn:Eb; blia. }
  destruct s3 as [|x4 s4]; [done|]. apply Forall_cons in Hb3 as [Hx4 Hb4]. simpl in Hl. cbv zeta.
  set (lo4 := if x1 =? 240 then 144 else 128). set (hi4 := if x1 =? 244 then 143 else 191).
  destruct (cont 240 244 x1 && cont lo4 hi4 x2 && cont 128 191 x3 && cont 128 191 x4) eqn:E4; [|done].
  constructor; [|apply IH; [lia|done]]. unfold cont, scalar, lo4, hi4 in *. destruct (x1 =? 240) eqn:Ea, (x1 =? 244) eqn:Eb; blia.
Qed.

Lemma utf16_well_formed cs : Forall (λ c, scalar c = true) cs → well_formed (concat (utf16 <$> cs)) = true.
Proof.
  induction 1 as [|c cs Hc _ IH]; [done|]. rewrite fmap_cons. cbn [concat]. unfold utf16 at 1. destruct (c <? 65536) eqn:E.
  - cbn [app well_formed]. assert (is_high c = false) as -> by (unfold is_high, scalar in *; blia).
    rewrite IH. unfold is_low, scalar in *. blia.
  - cbn [app well_formed]. pose proof (Z.mod_pos_bound (c - 65536) 1024 ltac:(lia)) as Hm.
    assert (0 <= (c - 65536) / 1024 < 1024) as Hd.
    { unfold scalar in Hc. reflect_bools. split; [apply Z.div_pos; lia|apply Z.div_lt_upper_bound; lia]. }
    assert (is_high (55296 + (c - 65536) / 1024) = true) as -> by (unfold is_high; blia).
    rewrite IH. unfold is_low. blia.
Qed.

Lemma to_string_well_formed b : bytes_ok b → well_formed (to_string b) = true.
Proof. intros Hb. by apply utf16_well_formed, runes_scalar. Qed.

(** ** Well-formed values *)

Fixpoint typed (v : value) : bool :=
  match v with
  | VNum _ => true
  | VBuf b => bytes_okb b
  | VList l => forallb typed l
  | VDict d => forallb (λ '(k, v), well_formed k && typed v) d && bool_decide (NoDup d.*1)
  | VNull | VBool _ | VStr _ => false
  end.

Lemma replace_prop_keys (k : jstr) (v : value) d : (replace_prop k v d).*1 = if bool_decide (k ∈ d.*1) then d.*1 else d.*1 ++ [k].
Proof.
  induction d as [|[k' w] d IH]; [done|]. cbn [replace_prop]. change (((k', w) :: d).*1) with (k' :: d.*1). destruct (decide (k' = k)) as [->|Hne].
  - rewrite (bool_decide_true (k = k)), bool_decide_true by (done || by left). done.
  - rewrite (bool_decide_false (k' = k)) by done. change (((k', w) :: replace_prop k v d).*1) with (k' :: (replace_prop k v d).*1). rewrite IH.
    destruct (decide (k ∈ d.*1)).
    + rewrite !bool_decide_true by (done || by right). done.
    + rewrite !bool_decide_false; [done|by intros [->|?]%elem_of_cons|done].
Qed.

Lemma replace_prop_elem (k : jstr) (v : value) d x : x ∈ replace_prop k v d → x = (k, v) ∨ x ∈ d.
Proof.
  induction d as [|[k' w] d IH]; cbn [replace_prop]; [intros ->%list_elem_of_singleton; by left|]. case_bool_decide as E.
  - subst. intros [->|?]%elem_of_cons; [by left|right; by right].
  - intros [->|[->|?]%IH]%elem_of_cons; [right; by left|by left|right; by right].
Qed.

Lemma set_key_typed k v d : well_formed k = true → typed v = true → typed (VDict d) = true → typed (VDict (set_key k v d)) = true.
Proof.
  intros Hk Hv Hd. assert (Hr : typed (VDict (replace_prop k v d)) = true).
  { cbn [typed] in *. apply andb_true_iff in Hd as [Hd Hn]. apply bool_decide_eq_true in Hn. apply andb_true_iff. split.
    - rewrite forallb_forall in *. intros x Hx%list_elem_of_In. apply replace_prop_elem in Hx as [->|Hx]; [by rewrite Hk, Hv|].
      apply Hd. by apply list_elem_of_In.
    - apply bool_decide_eq_true. rewrite replace_prop_keys. case_bool_decide as E; [done|]. apply NoDup_app. split; [done|]. split; [|apply NoDup_singleton].
      by intros x Hx ->%list_elem_of_singleton. }
  unfold set_key. case_bool_decide; [|done]. by destruct v.
Qed.

Section Typed.
Context (data : bytes) (Hdata : bytes_ok data).

Lemma buffer_bytes p b p' : buffer data p = Done (b, p') → bytes_ok b.
Proof.
  unfold buffer. destruct (find data 58 p) as [sep| |]; try done. cbn [mbind outcome_bind]. destruct (getIntFromBuffer data p sep); try done.
  cbn [mbind outcome_bind]. intros [= <- _]. unfold buffer_slice. by apply Forall_take, Forall_drop.
Qed.

Lemma reading_typed fuel :
  (∀ p v p', next data fuel p = Done (v, p') → typed v = true) ∧
  (∀ p l v p', forallb typed l = true → list_ data fuel p l = Done (v, p') → typed (VList v) = true) ∧
  (∀ p d v p', typed (VDict d) = true → dictionary data fuel p d = Done (v, p') → typed (VDict v) = true).
Proof.
  induction fuel as [|fuel (IHn&IHl&IHd)]; [done|]. split_and!.
  - intros p v p'. rewrite next_S. destruct (decide _) as [_|_]; [|destruct (decide _) as [_|_]; [|destruct (decide _) as [_|_]]].
    + destruct (dictionary data fuel _ []) as [[d q]| |] eqn:E; try done. intros [= <- _]. refine (IHd _ _ _ _ _ E). reflexivity.
    + destruct (list_ data fuel _ []) as [[l q]| |] eqn:E; try done. intros [= <- _]. refine (IHl _ _ _ _ _ E). reflexivity.
    + destruct (integer data p) as [[n q]| |]; try done. by intros [= <- _].
    + destruct (buffer data p) as [[b q]| |] eqn:E; try done. intros [= <- _]. cbn [typed]. apply bytes_okb_spec. by eapply buffer_bytes.
  - intros p l v p' Hl. cbn [list_]. case_bool_decide; [by intros [= <- _]|]. destruct (next data fuel p) as [[w q]| |] eqn:E; try done.
    cbn [mbind outcome_bind]. apply IHl. rewrite forallb_app, Hl. simpl. by rewrite (IHn _ _ _ E).
  - intros p d v p' Hd. cbn [dictionary]. case_bool_decide; [by intros [= <- _]|]. destruct (buffer data p) as [[k q]| |] eqn:Ek; try done.
    cbn [mbind outcome_bind]. destruct (next data fuel q) as [[w q']| |] eqn:E; try done. cbn [mbind outcome_bind]. apply IHd.
    apply set_key_typed; [by eapply to_string_well_formed, buffer_bytes|by eapply IHn|done].
Qed.
End Typed.

(** ** Values with their keys in order *)

Fixpoint sort_keys (v : value) : value :=
  match v with
  | VList l => VList (sort_keys <$> l)
  | VDict d => VDict (insertion_sort key_less ((λ '(k, v), (k, sort_keys v)) <$> d))
  | _ => v
  end.

(** The integers the numbers hold exactly. *)
Fixpoint exact (v : value) : bool :=
  match v with
  | VNum (Int z) => Z.abs z <=? two53
  | VNum _ => false
  | VList l => forallb exact l
  | VDict d => forallb (λ '(k, v), exact v) d
  | _ => true
  end.

Lemma units_less_total a b : a ≠ b → units_less b a = false → units_less a b = true.
Proof.
  revert b. induction a as [|x a IH]; intros [|y b] Hne Hba; try done. simpl in *. rewrite Z.eqb_sym in Hba. destruct (x =? y) eqn:E; reflect_bools.
  - subst. apply IH; [congruence|done].
  - apply Z.ltb_lt. lia.
Qed.

Lemma sorted_ascending (d : list (jstr * value)) : Sorted (λ a b, key_less b a = false) d → NoDup d.*1 → ascending d.*1 = true.
Proof.
  induction 1 as [|a d Hs IH Hh]; intros Hn; [done|]. change ((a :: d).*1) with (a.1 :: d.*1) in *. apply NoDup_cons in Hn as [Ha Hn].
  destruct Hh as [|b d Hb]; [done|]. change ((b :: d).*1) with (b.1 :: d.*1) in *. cbn [ascending]. rewrite andb_true_iff. split; [|by apply IH].
  apply units_less_total; [|exact Hb]. intros E. apply Ha. rewrite E. by left.
Qed.

Lemma lookup_prop_elem {A} k (v : A) d : NoDup d.*1 → lookup_prop k d = Some v ↔ (k, v) ∈ d.
Proof.
  induction d as [|[k' w] d IH]; [intros _; split; [done|by intros ?%elem_of_nil]|].
  change (((k', w) :: d).*1) with (k' :: d.*1). intros [Hk Hn]%NoDup_cons. cbn [lookup_prop].
  case_bool_decide as E; rewrite elem_of_cons.
  - subst k'. split; [intros [= ->]; by left|]. intros [[= ->]|Hin]; [done|]. exfalso. apply Hk. by apply list_elem_of_fmap_2 with (f := fst) in Hin.
  - rewrite IH by done. split; [by right|]. intros [[= -> _]|?]; done.
Qed.

Lemma flagged_sort (d d' : list (jstr * value)) : NoDup d.*1 → NoDup d'.*1 →
  (∀ k v, (k, v) ∈ d' → ∃ w, (k, w) ∈ d ∧ is_true (Some v) = is_true (Some w)) → flagged d = false → flagged d' = false.
Proof.
  intros Hn Hn' Hd Hf. unfold flagged in *. destruct (lookup_prop _ d') as [v|] eqn:E; [|done]. apply lookup_prop_elem in E; [|done].
  destruct (Hd _ _ E) as (w&Hw&->). apply lookup_prop_elem in Hw; [|done]. by rewrite Hw in Hf.
Qed.

Lemma sort_keys_normal v : typed v = true → exact v = true → plain_value v = true → canonical (sort_keys v) = true ∧ written (sort_keys v) = written v.
Proof.
  induction v as [|b|n|s|b|l IH|d IH] using value_rect'; intros Ht He Hp; try done.
  - cbn [typed exact sort_keys canonical written plain_value] in *. rewrite Forall_forall in IH. rewrite forallb_forall in *. split.
    + intros w Hw%list_elem_of_In. apply list_elem_of_fmap in Hw as (v&->&Hv). apply IH; [done|by apply Ht, list_elem_of_In|by apply He, list_elem_of_In|by apply Hp, list_elem_of_In].
    + f_equal. f_equal. f_equal. rewrite <- list_fmap_compose. apply list_fmap_ext. intros i v Hv%list_elem_of_lookup_2.
      apply IH; [done|by apply Ht, list_elem_of_In|by apply He, list_elem_of_In|by apply Hp, list_elem_of_In].
  - set (f := λ '((k, v) : jstr * value), (k, sort_keys v)). assert (Hf : ∀ y, (f y).1 = y.1) by by intros [k v].
    cbn [typed exact plain_value] in *. apply andb_true_iff in Ht as [Ht Hn]. apply bool_decide_eq_true in Hn. apply andb_true_iff in Hp as [Hp Hfl].
    rewrite Forall_forall in IH. rewrite forallb_forall in Ht, He, Hp.
    assert (Hkv : ∀ k v, (k, v) ∈ d → good_key k = true ∧ canonical (sort_keys v) = true ∧ written (sort_keys v) = written v ∧ v ≠ VNull).
    { intros k v Hin. pose proof (proj1 (list_elem_of_In _ _) Hin) as Hin'. specialize (Ht _ Hin'). specialize (He _ Hin'). specialize (Hp _ Hin'). cbv beta iota in *.
      apply andb_true_iff in Ht as [Hk Hv]. apply andb_true_iff in Hp as [Hkp Hp]. destruct (IH _ Hin Hv He Hp). unfold good_key. rewrite Hk, Hkp.
      split; [done|]. split; [done|]. split; [done|]. by destruct v. }
    assert (Hc : canonical (sort_keys (VDict d)) = true).
    { cbn [sort_keys canonical]. fold f. apply andb_true_iff. split.
      - apply forallb_forall. intros x Hx%list_elem_of_In. rewrite insertion_sort_perm in Hx. apply list_elem_of_fmap in Hx as ([k v]&->&Hin).
        destruct (Hkv _ _ Hin) as (Hk&Hcv&_). unfold f. by rewrite Hk, Hcv.
      - assert (Hn' : NoDup (insertion_sort key_less (f <$> d)).*1).
        { rewrite insertion_sort_perm, <- list_fmap_compose. erewrite (list_fmap_ext _ fst); [exact Hn|]. intros i x _. apply Hf. }
        apply andb_true_iff. split.
        + by apply sorted_ascending; [apply insertion_sort_sorted; intros x y; apply units_less_asym|].
        + apply negb_true_iff. apply negb_true_iff in Hfl. revert Hfl. apply flagged_sort; [done|done|]. intros k v Hin.
          rewrite insertion_sort_perm in Hin. apply list_elem_of_fmap in Hin as ([k' w]&[= -> ->]&Hin). exists w. split; [done|]. by destruct w. }
    split; [done|]. cbn [sort_keys] in Hc |- *. fold f in Hc |- *. rewrite encode_dict by done. cbn [written].
    set (g := λ '((k, v) : jstr * value), _). rewrite <- (insertion_sort_map f d Hf), <- (insertion_sort_map g d) by by intros [k v].
    do 2 f_equal. f_equal. rewrite <- !list_fmap_compose. apply list_fmap_ext. intros i [k v] Hl. apply list_elem_of_lookup_2 in Hl.
    rewrite insertion_sort_perm in Hl. destruct (Hkv _ _ Hl) as (_&_&Hev&Hnn). unfold f, g, entry. cbn. rewrite Hev. by destruct v.
Qed.

(** C34: a value read from any bytes is well-formed: buffers hold bytes, and keys are
    whole strings, each once.  Where its integers are within 2^53 and no dictionary has a
    prototype of its own or names itself a buffer, it is printed, and read again before
    whatever follows it is the same value with its keys in order. *)
Theorem decode_typed (data : bytes) (fuel : nat) (v : value) : bytes_ok data → data ≠ [] → decode fuel data = Done v →
  typed v = true ∧
  (exact v = true → plain_value v = true →
   ∃ text, encode v = Done text ∧
     ∀ rest, len (text ++ rest) < 2147483648 → decode (length text) (text ++ rest) = Done (sort_keys v)).
Proof.
  intros Hb Hne Hd. assert (Ht : typed v = true).
  { unfold decode in Hd. destruct data as [|c data]; [done|]. destruct (next (c :: data) fuel (Int 0)) as [[w q]| |] eqn:E; try done.
    cbn in Hd. injection Hd as <-. destruct (reading_typed (c :: data) Hb fuel) as (Hn&_). by eapply Hn. }
  split; [done|]. intros He Hp. destruct (sort_keys_normal v Ht He Hp) as [Hc Henc]. exists (written v). split; [by apply encode_written|].
  intros rest Hl. rewrite <- Henc. apply bencode_read; [done|by rewrite Henc|done].
Qed.

Lemma decode_typed_witness :
  let v := VDict [(str "b", VBuf (str "new")); (str "a", VNum (Int 1))] in
  decode 100 (str "d1:bi2e1:ai1e1:b3:newe") = Done v ∧
  ∃ text, encode v = Done text ∧ decode (length text) (text ++ str "rest") = Done (VDict [(str "a", VNum (Int 1)); (str "b", VBuf (str "new"))]).
Proof.
  intros v. assert (E : decode 100 (str "d1:bi2e1:ai1e1:b3:newe") = Done v) by by vm_compute. split; [exact E|].
  destruct (decode_typed (str "d1:bi2e1:ai1e1:b3:newe") 100 v ltac:(by apply bytes_okb_spec) ltac:(done) E) as [_ H].
  destruct H as (text&Et&H); [reflexivity|reflexivity|]. exists text. split; [exact Et|]. rewrite H; [reflexivity|].
  assert (text = str "d1:ai1e1:b3:newe") as -> by (vm_compute in Et; injection Et as <-; reflexivity). by vm_compute.
Defined.
