(* ===== verification/Magnet.v ===== *)
(** * Magnet links in the web interface ([2.f454f580.chunk.js], modules thirty-two,
      bep53-range and magnet-uri)

    An object is the list of its own properties in the order of [Object.keys]; names
    every object inherits are not among them.  A thrown error is [Panic]. *)

From Stdlib Require Import SpecFloat.
From S2P Require Import Prelude GoFloat GoText JsText.
#[local] Open Scope Z_scope.

(** ** Strings *)

(** [s.split(c)] *)
Fixpoint split_unit (c : Z) (s : jstr) : list jstr :=
  match s with
  | [] => [[]]
  | x :: s =>
      if x =? c then [] :: split_unit c s
      else match split_unit c s with p :: ps => (x :: p) :: ps | [] => [[x]] end
  end.

(** [a.join(c)] *)
Fixpoint join (c : jstr) (ps : list jstr) : jstr :=
  match ps with [] => [] | [p] => p | p :: ps => p ++ c ++ join c ps end.

(** What stands before the first [sep], and behind it. *)
Fixpoint cut_at (sep s : jstr) : jstr * option jstr :=
  match strip_prefix sep s with
  | Some rest => ([], Some rest)
  | None => match s with [] => ([], None) | c :: s => let '(a, b) := cut_at sep s in (c :: a, b) end
  end.

(** [s.replace(/c/g, d)] *)
Definition replace_unit (c d : Z) (s : jstr) : jstr := (λ x, if x =? c then d else x) <$> s.

(** [s.replace(/%20/g, "+")] *)
Fixpoint space_to_plus (s : jstr) : jstr :=
  match s with
  | 37 :: 50 :: 48 :: s => 43 :: space_to_plus s
  | c :: s => c :: space_to_plus s
  | [] => []
  end.

(** ** Base 32 (thirty-two) *)

Module Base32.

Definition byteTable : list Z :=
  [255; 255; 26; 27; 28; 29; 30; 31; 255; 255; 255; 255; 255; 255; 255; 255; 255] ++ (Z.of_nat <$> seq 0 26) ++
  [255; 255; 255; 255; 255; 255] ++ (Z.of_nat <$> seq 0 26) ++ [255; 255; 255; 255; 255].

Definition charTable : list Z := str "ABCDEFGHIJKLMNOPQRSTUVWXYZ234567".

Definition quintetCount (b : bytes) : Z := if len b mod 5 =? 0 then len b / 5 else len b / 5 + 1.

(** The loop of [encode]: the bytes not yet finished, and how many bits of the first are. *)
Fixpoint encode_loop (fuel : nat) (plain : bytes) (shiftIndex : Z) : bytes :=
  match fuel with
  | O => []
  | S fuel =>
      match plain with
      | [] => []
      | current :: rest =>
          let shiftIndex' := (shiftIndex + 5) mod 8 in
          if 3 <? shiftIndex then
            let digit := Z.land current (Z.shiftr 255 shiftIndex) in
            let following := match rest with b :: _ => b | [] => 0 end in
            let digit := Z.lor (Z.shiftl digit shiftIndex') (Z.shiftr following (8 - shiftIndex')) in
            default 0 (idx charTable digit) :: encode_loop fuel rest shiftIndex'
          else
            let digit := Z.land (Z.shiftr current (8 - (shiftIndex + 5))) 31 in
            default 0 (idx charTable digit) :: encode_loop fuel (if shiftIndex' =? 0 then rest else plain) shiftIndex'
      end
  end.

(** The text is filled up with [=] to whole groups of eight; every byte takes at most
    two turns. *)
Definition encode (plain : bytes) : bytes :=
  let text := encode_loop (2 * length plain) plain 0 in
  text ++ replicate (Z.to_nat (quintetCount plain * 8 - len text)) 61.

(** The loop of [decode]; a character below [0] has no entry in the table and counts as
    0 bits. *)
Fixpoint decode_loop (text : bytes) (shiftIndex plainChar : Z) : outcome bytes :=
  match text with
  | [] => Done []
  | c :: text =>
      if c =? 61 then Done []
      else
        let encodedByte := c - 48 in
        if encodedByte <? len byteTable then
          let plainDigit := default 0 (idx byteTable encodedByte) in
          let shiftIndex' := (shiftIndex + 5) mod 8 in
          if shiftIndex <=? 3 then
            if shiftIndex' =? 0 then
              rest ← decode_loop text shiftIndex' 0; Done (u8 (Z.lor plainChar plainDigit) :: rest)
            else decode_loop text shiftIndex' (Z.lor plainChar (Z.land 255 (Z.shiftl plainDigit (8 - shiftIndex'))))
          else
            rest ← decode_loop text shiftIndex' (Z.land 255 (Z.shiftl plainDigit (8 - shiftIndex')));
            Done (u8 (Z.lor plainChar (Z.land 255 (Z.shiftr plainDigit shiftIndex'))) :: rest)
        else Panic
  end.

Definition decode (text : bytes) : outcome bytes := decode_loop text 0 0.

End Base32.

(** ** Ranges of file indexes (bep53-range) *)

Module Bep53.

(** [Array.from({length: end - start + 1}, (_, i) => i + start)] *)
Definition generateRange (start end_ : option number) : outcome (list number) :=
  match start, end_ with
  | Some (Int a), Some (Int b) =>
      match js_add (js_add (Int b) (Int (- a))) (Int 1) with
      | Int n => if n <=? 0 then Done [] else if n <=? 4294967295 then Done ((λ i, js_add (Int (Z.of_nat i)) (Int a)) <$> seq 0 (Z.to_nat n)) else Panic
      | Infinity neg => if neg then Done [] else Panic
      end
  | Some a, Some b =>
      (* one end is infinite: the difference is infinite, or not a number *)
      match b, a with
      | Infinity false, Infinity false => Done []
      | Infinity false, _ => Panic
      | Int _, Infinity true => Panic
      | _, _ => Done []
      end
  | _, _ => Done []
  end.

Definition parse_one (t : jstr) : outcome (list number) :=
  match split_unit 45 t with
  | [a] => generateRange (parseInt a 0) (parseInt a 0)
  | a :: b :: _ => generateRange (parseInt a 0) (parseInt b 0)
  | [] => Done []
  end.

Fixpoint parse (range : list jstr) : outcome (list number) :=
  match range with
  | [] => Done []
  | t :: range => r ← parse_one t; rs ← parse range; Done (r ++ rs)
  end.

(** The runs of consecutive numbers, in order. *)
Fixpoint runs (l : list Z) : list (list Z) :=
  match l with
  | [] => []
  | x :: l =>
      match runs l with
      | (y :: r) :: rs => if y =? x + 1 then (x :: y :: r) :: rs else [x] :: (y :: r) :: rs
      | rs => [x] :: rs
      end
  end.

Definition run_text (r : list Z) : jstr :=
  match r with
  | [] => []
  | [x] => num_text x
  | x :: r => num_text x ++ [45] ++ num_text (List.last r x)
  end.

Definition compose (l : list Z) : list jstr := run_text <$> runs l.

End Bep53.

(** ** Objects *)

(** A property's value: a string, a buffer, the number of [ix], a number of a range, an array. *)
Inductive mval :=
| MStr (s : jstr)
| MBuf (b : bytes)
| MFloat (x : float64)
| MNum (n : number)
| MList (l : list mval).

Notation obj := (list (jstr * mval)).

Fixpoint get (key : jstr) (o : obj) : option mval :=
  match o with [] => None | (k, v) :: o => if bool_decide (k = key) then Some v else get key o end.

Fixpoint put (key : jstr) (v : mval) (o : obj) : obj :=
  match o with [] => [(key, v)] | (k, w) :: o => if bool_decide (k = key) then (k, v) :: o else (k, w) :: put key v o end.

Definition remove (key : jstr) (o : obj) : obj := filter (λ kv, kv.1 ≠ key) o.

Definition truthy (v : option mval) : bool :=
  match v with
  | None => false
  | Some (MStr s) => negb (len s =? 0)
  | Some (MNum n) => negb (bool_decide (n = Int 0))
  | Some (MFloat x) => match x with S754_zero _ | S754_nan => false | _ => true end
  | Some (MBuf _ | MList _) => true
  end.

(** [Array.isArray(v) ? v : [v]] *)
Definition as_array (v : mval) : list mval := match v with MList l => l | _ => [v] end.

(** [[].concat(v)] when [v] is a string or an array, else nothing. *)
Definition strings_of (v : option mval) : list mval :=
  match v with Some (MStr s) => [MStr s] | Some (MList l) => l | _ => [] end.

(** [Array.from(new Set(l))]: arrays are different objects, strings are compared. *)
Definition same_string (a b : mval) : bool :=
  match a, b with MStr s, MStr t => bool_decide (s = t) | _, _ => false end.

Fixpoint dedupe (seen l : list mval) : list mval :=
  match l with
  | [] => []
  | v :: l => if existsb (same_string v) seen then dedupe seen l else v :: dedupe (v :: seen) l
  end.

Definition unique (l : list mval) : list mval := dedupe [] l.

(** [e.match(/^prefix(.{n})/)]: the group. *)
Definition not_newline (c : Z) : bool := negb ((c =? 10) || (c =? 13) || (c =? 8232) || (c =? 8233)).
Definition match_prefix (prefix : jstr) (n : nat) (s : jstr) : option jstr :=
  match strip_prefix prefix s with
  | Some rest => let m := take n rest in if bool_decide (length m = n) && forallb not_newline m then Some m else None
  | None => None
  end.

Section Magnet.
(** [Number(s)], the text of a number that need not be an integer, and the byte an array's
    element is converted to. *)
Context (Number : jstr → float64) (float_text : float64 → jstr) (byte_of : mval → Z).

(** [Buffer.from(v, "hex")]: a string of odd length throws. *)
Definition buffer_from_hex (v : mval) : outcome mval :=
  match v with
  | MStr s => if Z.odd (len s) then Panic else Done (MBuf (from_hex s))
  | MList l => Done (MBuf (byte_of <$> l))
  | _ => Done v
  end.

(** One parameter of the link: its value, and the value added to the object; a repeated
    parameter makes an array. *)
Definition param_value (key val : jstr) : outcome mval :=
  if bool_decide (key = str "dn") then d ← decodeURIComponent val; Done (MStr (replace_unit 43 32 d))
  else if existsb (λ k, bool_decide (key = str k)) ["tr"; "xs"; "as"; "ws"]%string then MStr <$> decodeURIComponent val
  else if bool_decide (key = str "kt") then d ← decodeURIComponent val; Done (MList (MStr <$> split_unit 43 d))
  else if bool_decide (key = str "ix") then Done (MFloat (Number val))
  else if bool_decide (key = str "so") then d ← decodeURIComponent val; l ← Bep53.parse (split_unit 44 d); Done (MList (MNum <$> l))
  else Done (MStr val).

Definition add_param (key : jstr) (v : mval) (o : obj) : obj :=
  match get key o with
  | Some w => if truthy (Some w) then put key (MList (as_array w ++ [v])) o else put key v o
  | None => put key v o
  end.

Definition read_param (param : jstr) (o : obj) : outcome obj :=
  match split_unit 61 param with
  | [key; val] => v ← param_value key val; Done (add_param key v o)
  | _ => Done o
  end.

Fixpoint read_params (ps : list jstr) (o : obj) : outcome obj :=
  match ps with [] => Done o | p :: ps => o ← read_param p o; read_params ps o end.

(** What one exact topic or exact source says. *)
Definition read_xt (xt : mval) (o : obj) : outcome obj :=
  match xt with
  | MStr s =>
      match match_prefix (str "urn:btih:") 40 s with
      | Some h => Done (put (str "infoHash") (MStr (toLowerCase h)) o)
      | None =>
          match match_prefix (str "urn:btih:") 32 s with
          | Some h => b ← Base32.decode (from_string h); Done (put (str "infoHash") (MStr (hex_encode b)) o)
          | None =>
              match match_prefix (str "urn:btmh:1220") 64 s with
              | Some h => Done (put (str "infoHashV2") (MStr (toLowerCase h)) o)
              | None => Done o
              end
          end
      end
  | _ => Panic
  end.

Definition read_xs (xs : mval) (o : obj) : outcome obj :=
  match xs with
  | MStr s =>
      Done match match_prefix (str "urn:btpk:") 64 s with
           | Some k => put (str "publicKey") (MStr (toLowerCase k)) o
           | None => o
           end
  | _ => Panic
  end.

Fixpoint for_each (f : mval → obj → outcome obj) (l : list mval) (o : obj) : outcome obj :=
  match l with [] => Done o | v :: l => o ← f v o; for_each f l o end.

Definition on_key (key : jstr) (f : mval → obj → outcome obj) (o : obj) : outcome obj :=
  match get key o with
  | Some v => if truthy (Some v) then f v o else Done o
  | None => Done o
  end.

Definition decode (uri : jstr) : outcome obj :=
  let data := match cut_at (str "magnet:?") uri with (_, Some rest) => Some (cut_at (str "magnet:?") rest).1 | (_, None) => None end in
  let params := match data with Some ((_ :: _) as d) => split_unit 38 d | _ => [] end in
  o ← read_params params [];
  o ← on_key (str "xt") (λ v, for_each read_xt (as_array v)) o;
  o ← on_key (str "xs") (λ v, for_each read_xs (as_array v)) o;
  o ← on_key (str "infoHash") (λ v o, b ← buffer_from_hex v; Done (put (str "infoHashBuffer") b o)) o;
  o ← on_key (str "infoHashV2") (λ v o, b ← buffer_from_hex v; Done (put (str "infoHashV2Buffer") b o)) o;
  o ← on_key (str "publicKey") (λ v o, b ← buffer_from_hex v; Done (put (str "publicKeyBuffer") b o)) o;
  o ← on_key (str "dn") (λ v o, Done (put (str "name") v o)) o;
  o ← on_key (str "kt") (λ v o, Done (put (str "keywords") v o)) o;
  let o := put (str "announce") (MList (unique (strings_of (get (str "tr") o)))) o in
  let o := put (str "urlList") (MList (unique (strings_of (get (str "as") o) ++ strings_of (get (str "ws") o)))) o in
  Done (put (str "peerAddresses") (MList (unique (strings_of (get (str "x.pe") o)))) o).

(** ** Printing a link *)

(** [String(v)] *)
Fixpoint text_of (v : mval) : jstr :=
  match v with
  | MStr s => s
  | MBuf b => to_string b
  | MFloat x => float_text x
  | MNum n => number_text n
  | MList l => join [44] (text_of <$> l)
  end.

Definition hex_urn (prefix : jstr) (v : mval) : mval :=
  MStr (prefix ++ match v with MBuf b => hex_encode b | _ => text_of v end).

(** The exact topics, each once. *)
Definition topics (o : obj) : list mval :=
  let t := match get (str "xt") o with Some (MStr s) => if len s =? 0 then [] else [MStr s] | Some (MList l) => l | _ => [] end in
  let add (key : string) (prefix : jstr) t := match get (str key) o with
    | Some v => if truthy (Some v) then t ++ [hex_urn prefix v] else t
    | None => t end in
  unique (add "infoHashV2"%string (str "urn:btmh:1220") (add "infoHashV2Buffer"%string (str "urn:btmh:1220")
    (add "infoHash"%string (str "urn:btih:") (add "infoHashBuffer"%string (str "urn:btih:") t)))).

(** [if (o[from]) o[to] = f(o[from])] *)
Definition copy (from to : string) (f : mval → mval) (o : obj) : obj :=
  match get (str from) o with
  | Some v => if truthy (Some v) then put (str to) (f v) o else o
  | None => o
  end.

Definition rename (o : obj) : obj :=
  let ts := topics o in
  let o := copy "infoHashV2Buffer" "xt" (hex_urn (str "urn:btmh:1220")) o in
  let o := match ts with [] => o | [t] => put (str "xt") t o | _ => put (str "xt") (MList ts) o end in
  let o := copy "publicKeyBuffer" "xs" (hex_urn (str "urn:btpk:")) o in
  let o := copy "publicKey" "xs" (hex_urn (str "urn:btpk:")) o in
  let o := copy "name" "dn" id o in
  let o := copy "keywords" "kt" id o in
  let o := copy "announce" "tr" id o in
  let o := if truthy (get (str "urlList") o) then remove (str "as") (copy "urlList" "ws" id o) else o in
  copy "peerAddresses" "x.pe" id o.

Definition print_value (key : jstr) (i j : nat) (v : mval) : outcome jstr :=
  let named k := bool_decide (key = str k) in
  let amp := if ((0 <? i)%nat || (0 <? j)%nat) && ((negb (named "kt"%string) && negb (named "so"%string)) || (j =? 0)%nat) then [38] else [] in
  t ← (if named "dn"%string then space_to_plus <$> encodeURIComponent (text_of v)
       else if named "tr"%string || named "as"%string || named "ws"%string then encodeURIComponent (text_of v)
       else if named "xs"%string then
         match v with
         | MStr s => if bool_decide (is_Some (strip_prefix (str "urn:btpk:") s)) then Done s else encodeURIComponent s
         | _ => Panic
         end
       else if named "kt"%string then encodeURIComponent (text_of v)
       else Done (text_of v));
  Done (amp ++ (if named "so"%string then [] else if named "kt"%string && (0 <? j)%nat then [43] ++ t else key ++ [61] ++ t)).

Fixpoint print_values (key : jstr) (i j : nat) (vs : list mval) : outcome jstr :=
  match vs with
  | [] => Done []
  | v :: vs => t ← print_value key i j v; r ← print_values key i (S j) vs; Done (t ++ r)
  end.

Definition index_of (v : mval) : Z := match v with MNum (Int z) => z | _ => 0 end.

Definition print_key (i : nat) (kv : jstr * mval) : outcome jstr :=
  let '(key, v) := kv in
  t ← print_values key i 0 (as_array v);
  Done (t ++ if bool_decide (key = str "so") then key ++ [61] ++ join [44] (Bep53.compose (index_of <$> as_array v)) else []).

Fixpoint print_keys (i : nat) (o : obj) : outcome jstr :=
  match o with [] => Done [] | kv :: o => t ← print_key i kv; r ← print_keys (S i) o; Done (t ++ r) end.

Definition encode (o : obj) : outcome jstr :=
  t ← print_keys 0 (filter (λ kv, length kv.1 = 2%nat ∨ kv.1 = str "x.pe") (rename o));
  Done (str "magnet:?" ++ t).

End Magnet.
