(* ===== verification/MagnetProps.v ===== *)
(** * Base 32, file ranges and magnet links round-trip *)

From Stdlib Require Import SpecFloat.
From S2P Require Import Prelude GoFloat GoText Encoding JsText Magnet.
#[local] Open Scope Z_scope.

(** ** Bits *)

Lemma lor_low k a b : 0 <= k → 0 <= b < 2 ^ k → Z.lor (a * 2 ^ k) b = a * 2 ^ k + b.
Proof.
  intros Hk Hb. rewrite <- Z.add_lor_land. assert (E : Z.land (a * 2 ^ k) b = 0); [|lia].
  apply Z.bits_inj'. intros n Hn. rewrite Z.land_spec, Z.bits_0. destruct (decide (n < k)).
  - by rewrite Z.mul_pow2_bits_low.
  - assert (Z.testbit b n = false) as ->; [|by rewrite andb_false_r].
    destruct (decide (b = 0)) as [->|]; [apply Z.bits_0|]. apply Z.bits_above_log2; [lia|].
    apply Z.log2_lt_pow2; [lia|]. apply Z.lt_le_trans with (2 ^ k); [lia|]. apply Z.pow_le_mono_r; lia.
Qed.

Lemma land_255 x : Z.land 255 x = x mod 256.
Proof. rewrite Z.land_comm. change 255 with (Z.ones 8). by rewrite Z.land_ones. Qed.

Lemma land_mask x k : 0 <= k <= 8 → Z.land x (Z.shiftr 255 k) = x mod 2 ^ (8 - k).
Proof.
  intros Hk. assert (E : Z.shiftr 255 k = Z.ones (8 - k)).
  { assert (k = 0 ∨ k = 1 ∨ k = 2 ∨ k = 3 ∨ k = 4 ∨ k = 5 ∨ k = 6 ∨ k = 7 ∨ k = 8) by lia. by repeat destruct_or?; subst. }
  rewrite E, Z.land_ones by lia. done.
Qed.

(** ** Base 32 *)

Lemma char_table d : 0 <= d < 32 →
  let c := default 0 (idx Base32.charTable d) in
  c ≠ 61 ∧ 48 <= c < 128 ∧ default 0 (idx Base32.byteTable (c - 48)) = d.
Proof.
  intros Hd. assert (Hall : forallb (λ k, let d := Z.of_nat k in let c := default 0 (idx Base32.charTable d) in
    negb (c =? 61) && (48 <=? c) && (c <? 128) && (default 0 (idx Base32.byteTable (c - 48)) =? d)) (seq 0 32) = true) by done.
  rewrite forallb_forall in Hall. specialize (Hall (Z.to_nat d) ltac:(apply in_seq; lia)). cbv zeta in *. rewrite Z2Nat.id in Hall by lia. zlia.
Qed.

(** The bits of a byte the decoder has when [i] of them are read. *)
Definition high (i c : Z) : Z := c / 2 ^ (8 - i) * 2 ^ (8 - i).

(** The digit that ends a byte, and what it starts of the next one. *)
Lemma last_digit i c n : 3 < i < 8 → is_byte c → is_byte n →
  let o := Z.lor (Z.shiftl (Z.land c (Z.shiftr 255 i)) (i - 3)) (Z.shiftr n (8 - (i - 3))) in
  0 <= o < 32 ∧ u8 (Z.lor (high i c) (Z.land 255 (Z.shiftr o (i - 3)))) = c ∧
  Z.land 255 (Z.shiftl o (8 - (i - 3))) = high (i - 3) n.
Proof.
  unfold is_byte, high, u8. intros Hi Hc Hn. rewrite land_mask by lia. cbv zeta. rewrite !land_255.
  rewrite Z.shiftl_mul_pow2, (Z.shiftr_div_pow2 n) by lia. set (x := c mod 2 ^ (8 - i)). set (y := n / 2 ^ (8 - (i - 3))).
  assert (Hx : 0 <= x < 2 ^ (8 - i)) by (apply Z.mod_pos_bound; lia).
  assert (E8 : 2 ^ (8 - (i - 3)) * 2 ^ (i - 3) = 256) by (rewrite <- Z.pow_add_r by lia; by replace (8 - (i - 3) + (i - 3)) with 8 by lia).
  assert (E5 : 2 ^ (8 - i) * 2 ^ (i - 3) = 32) by (rewrite <- Z.pow_add_r by lia; by replace (8 - i + (i - 3)) with 5 by lia).
  assert (Hp : 0 < 2 ^ (8 - (i - 3)) ∧ 0 < 2 ^ (i - 3) ∧ 0 < 2 ^ (8 - i)) by (split_and!; apply Z.pow_pos_nonneg; lia).
  assert (Hy : 0 <= y < 2 ^ (i - 3)) by (unfold y; split; [apply Z.div_pos; lia|apply Z.div_lt_upper_bound; lia]).
  rewrite lor_low by lia. set (o := x * 2 ^ (i - 3) + y).
  assert (Ho : o / 2 ^ (i - 3) = x) by (unfold o; rewrite Z.add_comm, Z.div_add, Z.div_small by lia; lia).
  rewrite Z.shiftr_div_pow2, Z.shiftl_mul_pow2, Ho by lia.
  assert (x < 256) by nia. rewrite (Z.mod_small x) by lia. rewrite lor_low by lia. pose proof (Z.div_mod c (2 ^ (8 - i)) ltac:(lia)) as Ec.
  fold x in Ec. split_and!; [unfold o; nia|unfold o; nia|rewrite Z.mod_small; lia|].
  unfold o. rewrite Z.mul_add_distr_r, <- Z.mul_assoc, (Z.mul_comm (2 ^ (i - 3))), E8, Z.add_comm, Z.mod_add by lia. apply Z.mod_small. nia.
Qed.

(** A digit within a byte: three bits or more remain behind it, or it ends the byte. *)
Lemma inner_digit i c : 0 <= i <= 3 → is_byte c →
  let o := Z.land (Z.shiftr c (8 - (i + 5))) 31 in
  0 <= o < 32 ∧ Z.lor (high i c) (Z.land 255 (Z.shiftl o (8 - (i + 5)))) = high (i + 5) c.
Proof.
  unfold is_byte, high. intros Hi Hc. cbv zeta. change 31 with (Z.ones 5). rewrite Z.land_ones by lia. rewrite land_255.
  rewrite Z.shiftr_div_pow2 by lia. set (o := _ mod _). assert (Ho : 0 <= o < 32) by (apply Z.mod_pos_bound; lia). split; [done|].
  rewrite Z.shiftl_mul_pow2 by lia. set (p := 2 ^ (8 - (i + 5))) in *. assert (Hp : 0 < p <= 8).
  { unfold p. split; [apply Z.pow_pos_nonneg; lia|]. change 8 with (2 ^ 3) at 2. apply Z.pow_le_mono_r; lia. }
  assert (E : 2 ^ (8 - i) = 32 * p) by (unfold p; change 32 with (2 ^ 5); rewrite <- Z.pow_add_r by lia; f_equal; lia).
  rewrite Z.mod_small by nia. rewrite lor_low by nia. rewrite E. subst o. change (2 ^ 5) with 32.
  pose proof (Z.div_mod (c / p) 32 ltac:(lia)) as Ed. rewrite Z.div_div in Ed by lia. rewrite (Z.mul_comm 32 p). nia.
Qed.

Lemma hd_byte b : bytes_ok b → is_byte (List.hd 0 b).
Proof. intros [|c b' Hc _]; [unfold is_byte; simpl; lia|done]. Qed.

Lemma high_0 b : bytes_ok b → high 0 (List.hd 0 b) = 0.
Proof. intros Hb%hd_byte. unfold high, is_byte in *. change (2 ^ (8 - 0)) with 256. by rewrite Z.div_small. Qed.

Lemma encode_loop_S fuel current rest i : 0 <= i < 8 →
  Base32.encode_loop (S fuel) (current :: rest) i =
    if 3 <? i then
      default 0 (idx Base32.charTable (Z.lor (Z.shiftl (Z.land current (Z.shiftr 255 i)) (i - 3)) (Z.shiftr (List.hd 0 rest) (8 - (i - 3)))))
        :: Base32.encode_loop fuel rest (i - 3)
    else
      default 0 (idx Base32.charTable (Z.land (Z.shiftr current (8 - (i + 5))) 31))
        :: Base32.encode_loop fuel (if i =? 3 then rest else current :: rest) (if i =? 3 then 0 else i + 5).
Proof.
  intros Hi. cbn [Base32.encode_loop]. destruct (3 <? i) eqn:E; reflect_bools.
  - replace ((i + 5) mod 8) with (i - 3); [by destruct rest|]. apply (Z.mod_unique _ _ 1); lia.
  - destruct (i =? 3) eqn:E3; reflect_bools; [by subst|]. rewrite Z.mod_small by lia. by rewrite (proj2 (Z.eqb_neq (i + 5) 0)) by lia.
Qed.

(** Decoder and encoder go in step. *)
Lemma lockstep fuel plain i pad : bytes_ok plain → 0 <= i < 8 →
  (2 * length plain - (if (3 <? i)%Z then 1 else 0) ≤ fuel)%nat →
  Base32.decode_loop (Base32.encode_loop fuel plain i ++ replicate pad 61) i (high i (List.hd 0 plain)) = Done plain.
Proof.
  revert plain i. induction fuel as [|fuel IH]; intros plain i Hb Hi Hf.
  - destruct plain as [|c plain]; [|cbn [length] in Hf; case_match; lia]. by destruct pad.
  - destruct plain as [|c plain]; [by destruct pad|]. apply Forall_cons in Hb as [Hc Hb]. rewrite encode_loop_S by done. cbn [List.hd].
    destruct (3 <? i) eqn:E3; reflect_bools; cbn [app Base32.decode_loop].
    + assert (Hn : is_byte (List.hd 0 plain)) by (destruct Hb; [unfold is_byte; simpl; lia|done]).
      destruct (last_digit i c (List.hd 0 plain) ltac:(lia) Hc Hn) as (Ho&E1&E2). cbv zeta in *. set (o := Z.lor _ (Z.shiftr (List.hd 0 plain) _)) in *.
      destruct (char_table o Ho) as (H61&H48&Hd). cbv zeta in *. rewrite (proj2 (Z.eqb_neq _ _)) by done.
      change (len Base32.byteTable) with 80. rewrite (proj2 (Z.ltb_lt _ 80)) by lia. rewrite Hd.
      replace ((i + 5) mod 8) with (i - 3) by (apply (Z.mod_unique _ _ 1); lia). rewrite (proj2 (Z.leb_gt i 3)) by lia.
      rewrite E1, E2, IH; [done|done|lia|]. cbn [length] in Hf. case_match; lia.
    + destruct (inner_digit i c ltac:(lia) Hc) as (Ho&E1). cbv zeta in *. set (o := Z.land (Z.shiftr c _) 31) in *.
      destruct (char_table o Ho) as (H61&H48&Hd). cbv zeta in *. rewrite (proj2 (Z.eqb_neq _ _)) by done.
      change (len Base32.byteTable) with 80. rewrite (proj2 (Z.ltb_lt _ 80)) by lia. rewrite Hd, (proj2 (Z.leb_le i 3)) by lia.
      cbn [length] in Hf.
      destruct (i =? 3) eqn:E; reflect_bools.
      * subst i. cbn [Z.add Z.modulo Z.eqb]. change ((3 + 5) mod 8 =? 0) with true. cbn match. change ((3 + 5) mod 8) with 0.
        assert (E0 : u8 (Z.lor (high 3 c) o) = c).
        { change (8 - (3 + 5)) with 0 in E1. rewrite Z.shiftl_0_r, land_255, Z.mod_small in E1 by lia. rewrite E1. unfold high, u8.
          change (2 ^ (8 - (3 + 5))) with 1. unfold is_byte in Hc. rewrite Z.div_1_r, Z.mul_1_r, Z.mod_small by lia. done. }
        rewrite E0. pose proof (IH plain 0 Hb ltac:(lia)) as IH0. rewrite high_0 in IH0 by done. rewrite IH0 by (simpl; lia). done.
      * rewrite Z.mod_small by lia. rewrite (proj2 (Z.eqb_neq (i + 5) 0)) by lia. rewrite E1.
        apply (IH (c :: plain)); [by constructor|lia|]. simpl. rewrite (proj2 (Z.ltb_lt 3 (i + 5))) by lia. lia.
Qed.

Lemma base32_inverse b : bytes_ok b → Base32.decode (Base32.encode b) = Done b.
Proof.
  intros Hb. unfold Base32.decode, Base32.encode. cbv zeta.
  pose proof (lockstep (2 * length b) b 0 (Z.to_nat (Base32.quintetCount b * 8 - len (Base32.encode_loop (2 * length b) b 0))) Hb) as E.
  rewrite high_0 in E by done. apply E; [lia|simpl; lia].
Qed.

(** The length of a printed text, before it is filled up: a character for every five bits. *)
Lemma encode_loop_length fuel plain i : 0 <= i < 8 → (2 * length plain - (if (3 <? i)%Z then 1 else 0) ≤ fuel)%nat → plain ≠ [] →
  8 * len plain - i <= 5 * len (Base32.encode_loop fuel plain i) < 8 * len plain - i + 5.
Proof.
  revert plain i. induction fuel as [|fuel IH]; intros [|c plain] i Hi Hf Hne; try done; [cbn [length] in Hf; case_match; lia|].
  rewrite encode_loop_S by done. rewrite len_cons. destruct (3 <? i) eqn:E3; reflect_bools; rewrite len_cons; cbn [length] in Hf.
  - destruct plain as [|b plain]; [destruct fuel; cbn [Base32.encode_loop]; rewrite !len_nil; lia|]. specialize (IH (b :: plain) (i - 3) ltac:(lia)).
    cbn [length] in *. specialize (IH ltac:(case_match; lia) ltac:(done)). rewrite len_cons in *. lia.
  - destruct (i =? 3) eqn:E; reflect_bools.
    + subst i. destruct plain as [|b plain]; [destruct fuel; cbn [Base32.encode_loop]; rewrite !len_nil; lia|]. specialize (IH (b :: plain) 0 ltac:(lia)).
      cbn [length] in *. specialize (IH ltac:(simpl; lia) ltac:(done)). rewrite len_cons in *. lia.
    + specialize (IH (c :: plain) (i + 5) ltac:(lia)). cbn [length] in IH. rewrite (proj2 (Z.ltb_lt 3 (i + 5))) in IH by lia.
      specialize (IH ltac:(lia) ltac:(done)). rewrite len_cons in IH. lia.
Qed.

Definition base32_char (c : Z) : bool := ((65 <=? c) && (c <=? 90)) || ((50 <=? c) && (c <=? 55)).

Lemma char_in_table d : 0 <= d < 32 → base32_char (default 0 (idx Base32.charTable d)) = true.
Proof.
  intros Hd. assert (Hall : forallb (λ k, base32_char (default 0 (idx Base32.charTable (Z.of_nat k)))) (seq 0 32) = true) by done.
  rewrite forallb_forall in Hall. specialize (Hall (Z.to_nat d) ltac:(apply in_seq; lia)). by rewrite Z2Nat.id in Hall by lia.
Qed.

Lemma encode_loop_chars fuel plain i : bytes_ok plain → 0 <= i < 8 →
  Forall (λ c, base32_char c = true) (Base32.encode_loop fuel plain i).
Proof.
  revert plain i. induction fuel as [|fuel IH]; intros [|c plain] i Hb Hi; try constructor.
  pose proof Hb as [Hc Hb']%Forall_cons. rewrite encode_loop_S by done. destruct (3 <? i) eqn:E3; reflect_bools; constructor.
  - apply char_in_table. by apply last_digit; [lia|done|apply hd_byte].
  - apply IH; [done|lia].
  - apply char_in_table. by apply inner_digit; [lia|].
  - destruct (i =? 3) eqn:E; reflect_bools; apply IH; (done || lia).
Qed.

(** A hash of 20 bytes is 32 characters. *)
Lemma base32_hash b : bytes_ok b → length b = 20%nat →
  length (Base32.encode b) = 32%nat ∧ Forall (λ c, base32_char c = true) (Base32.encode b).
Proof.
  intros Hb Hl. unfold Base32.encode. cbv zeta. set (t := Base32.encode_loop _ b 0).
  assert (Ht : len t = 32).
  { pose proof (encode_loop_length (2 * length b) b 0 ltac:(lia) ltac:(simpl; lia) ltac:(by destruct b)) as H.
    fold t in H. assert (len b = 20) by (unfold len; lia). lia. }
  unfold Base32.quintetCount. replace (len b) with 20 by (unfold len; lia). rewrite Ht. change (replicate _ 61) with (@nil Z). rewrite app_nil_r.
  split; [unfold len in Ht; lia|]. apply encode_loop_chars; [done|lia].
Qed.

(** Text in base 32 is read back as the bytes it was printed from, and a hash of 20
    bytes is printed as 32 characters without filling. *)
Theorem base32_roundtrip (b : bytes) : bytes_ok b →
  Base32.decode (Base32.encode b) = Done b ∧
  (length b = 20%nat → length (Base32.encode b) = 32%nat ∧ Forall (λ c, base32_char c = true) (Base32.encode b)).
Proof. intros Hb. split; [by apply base32_inverse|by apply base32_hash]. Qed.

Lemma base32_roundtrip_witness :
  Base32.encode (str "foob") = str "MZXW6YQ=" ∧ Base32.decode (str "MZXW6YQ=") = Done (str "foob").
Proof.
  split; [reflexivity|]. change (str "MZXW6YQ=") with (Base32.encode (str "foob")).
  apply (base32_roundtrip (str "foob")). by apply bytes_okb_spec.
Defined.

(** ** Numbers in text *)

Lemma split_unit_none c s : c ∉ s → split_unit c s = [s].
Proof.
  induction s as [|x s IH]; intros Hc; [done|]. apply not_elem_of_cons in Hc as [Hx Hc]. simpl.
  rewrite (proj2 (Z.eqb_neq x c)) by done. by rewrite IH.
Qed.

Lemma split_unit_app c a b : c ∉ a → split_unit c (a ++ c :: b) = a :: split_unit c b.
Proof.
  induction a as [|x a IH]; intros Hc; cbn [app split_unit]; [by rewrite Z.eqb_refl|].
  apply not_elem_of_cons in Hc as [Hx Hc]. rewrite (proj2 (Z.eqb_neq x c)) by done. by rewrite IH.
Qed.

Lemma split_join c ps : ps ≠ [] → Forall (λ p, c ∉ p) ps → split_unit c (join [c] ps) = ps.
Proof.
  intros Hne Hp. induction Hp as [|p ps Hp Hps IH]; [done|]. destruct ps as [|q ps]; [by apply split_unit_none|].
  change (join [c] (p :: q :: ps)) with (p ++ c :: join [c] (q :: ps)). rewrite split_unit_app by done. by rewrite IH.
Qed.

Lemma digit_loop_last B fuel x : 2 <= B → 0 < x < 2 ^ Z.of_nat fuel → ∃ l d, digit_loop fuel B x = l ++ [d] ∧ d ≠ 0.
Proof.
  intros HB. revert x. induction fuel as [|fuel IH]; intros x Hx; [simpl in Hx; lia|]. cbn [digit_loop].
  rewrite (proj2 (Z.ltb_lt 0 x)) by lia. destruct (decide (x / B = 0)) as [E|E].
  - rewrite E. exists [], (x mod B). split; [by destruct fuel|]. pose proof (Z.div_mod x B). lia.
  - destruct (IH (x / B)) as (l&d&->&Hd); [|by exists (x mod B :: l), d].
    assert (0 <= x / B) by (apply Z.div_pos; lia). split; [lia|]. rewrite Nat2Z.inj_succ, Z.pow_succ_r in Hx by lia.
    apply Z.div_lt_upper_bound; nia.
Qed.

(** A number in decimal: digits, the first of which is not 0 unless it is the only one. *)
Lemma FormatInt_normal z : 0 <= z → ∃ d ds, FormatInt z = (λ d, 48 + d) <$> d :: ds ∧ ranged 10 (d :: ds) ∧
  from_base 10 (d :: ds) = z ∧ (d ≠ 0 ∨ ds = []).
Proof.
  intros Hz. unfold FormatInt. destruct (z =? 0) eqn:E; reflect_bools.
  - subst. exists 0, []. split_and!; [done|repeat constructor; lia|done|by right].
  - rewrite (proj2 (Z.ltb_ge _ _)) by lia. rewrite Z.abs_eq by lia.
    pose proof (to_base_value 10 ltac:(lia) z Hz) as Hv. pose proof (to_base_ranged 10 ltac:(lia) z) as Hr.
    destruct (digit_loop_last 10 (fuel_for z) z) as (l&d&El&Hd); [lia| |].
    { unfold fuel_for. pose proof (Z.log2_spec z ltac:(lia)) as Hl. pose proof (Z.log2_nonneg z).
      rewrite Z2Nat.id by lia. rewrite <- Z.add_1_r in Hl. lia. }
    unfold to_base in *. rewrite El, rev_app_distr in *. cbn [rev app] in *. eexists d, _. split_and!; [done|done|done|by left].
Qed.

Lemma take_digits_all ds : ranged 10 ds → take_digits 10 ((λ d, 48 + d) <$> ds) = ds.
Proof.
  induction 1 as [|d ds Hd _ IH]; [done|]. rewrite fmap_cons. cbn [take_digits]. unfold digit_value.
  rewrite (proj2 (Z.leb_le 48 _)), (proj2 (Z.leb_le _ 57)) by lia. cbn [andb]. rewrite (proj2 (Z.ltb_lt _ 10)) by lia.
  rewrite IH. f_equal. lia.
Qed.

Lemma parseInt_num_text z : 0 <= z <= two53 → parseInt (num_text z) 0 = Some (Int z).
Proof.
  intros Hz. unfold num_text. rewrite (proj2 (Z.leb_le _ _)) by lia.
  destruct (FormatInt_normal z ltac:(lia)) as (d&ds&->&Hr&Hv&Hn). pose proof (take_digits_all _ Hr) as Ht. rewrite fmap_cons in *.
  unfold parseInt. apply Forall_cons in Hr as [Hd Hr].
  assert (Hs : drop_spaces (48 + d :: ((λ d, 48 + d) <$> ds)) = 48 + d :: ((λ d, 48 + d) <$> ds)).
  { cbn [drop_spaces]. unfold js_space. replace (_ || _) with false; [done|]. symmetry. blia. }
  rewrite Hs. clear Hs. assert (Hz' : js_round (1 * z) = Int z) by (rewrite js_round_exact by lia; f_equal; lia).
  destruct (decide (d = 0)) as [->|Hd0].
  - destruct Hn as [| ->]; [done|]. cbn in Hv. subst z. done.
  - remember (48 + d) as c eqn:Ec.
    assert (c = 49 ∨ c = 50 ∨ c = 51 ∨ c = 52 ∨ c = 53 ∨ c = 54 ∨ c = 55 ∨ c = 56 ∨ c = 57) as Hc by lia. clear Ec.
    repeat destruct_or?; subst c; cbn match; cbn beta iota zeta; change (0 =? 0) with true; cbn match; rewrite Ht, Hv, Hz'; done.
Qed.

Lemma num_text_digits z : 0 <= z <= two53 → Forall (λ c, 48 <= c <= 57) (num_text z).
Proof.
  intros Hz. unfold num_text. rewrite (proj2 (Z.leb_le _ _)) by lia. destruct (FormatInt_normal z ltac:(lia)) as (d&ds&->&Hr&_&_).
  apply Forall_fmap. eapply Forall_impl; [exact Hr|]. simpl. lia.
Qed.

(** ** Ranges of file indexes *)

Definition consecutive (x : Z) (n : nat) : list Z := (λ k, x + Z.of_nat k) <$> seq 0 n.

Lemma consecutive_S x n : consecutive x (S n) = x :: consecutive (x + 1) n.
Proof.
  unfold consecutive. cbn [seq]. rewrite fmap_cons. f_equal; [lia|]. rewrite <- seq_shift, <- list_fmap_compose.
  apply list_fmap_ext. intros i k _. simpl. lia.
Qed.

Lemma runs_spec l : concat (Bep53.runs l) = l ∧ Forall (λ r, ∃ x n, r = consecutive x (S n)) (Bep53.runs l).
Proof.
  induction l as [|x l [IH1 IH2]]; [by split|]. cbn [Bep53.runs]. destruct (Bep53.runs l) as [|[|y r] rs].
  - subst. split; [done|]. repeat constructor. exists x, 0%nat. unfold consecutive. cbn. f_equal. lia.
  - apply Forall_inv in IH2 as (y&n&Hr). by rewrite consecutive_S in Hr.
  - destruct (y =? x + 1) eqn:E; reflect_bools.
    + split; [cbn [concat app] in *; by rewrite IH1|]. pose proof (Forall_inv IH2) as (z&n&Hr). apply Forall_inv_tail in IH2.
      constructor; [|done]. rewrite consecutive_S in Hr. injection Hr as <- ->. exists x, (S n). rewrite (consecutive_S x), (consecutive_S (x + 1)).
      by subst.
    + split; [cbn [concat app] in *; by rewrite IH1|]. constructor; [|done]. exists x, 0%nat. unfold consecutive. cbn. f_equal. lia.
Qed.

Lemma consecutive_last x n : List.last (consecutive (x + 1) n) x = x + Z.of_nat n.
Proof.
  destruct n as [|n]; [simpl; lia|]. unfold consecutive. rewrite seq_S, fmap_app. simpl. rewrite List.last_last. lia.
Qed.

Lemma generateRange_spec x n : 0 <= x → x + Z.of_nat n <= two53 → Z.of_nat n < 4294967295 →
  Bep53.generateRange (Some (Int x)) (Some (Int (x + Z.of_nat n))) = Done (Int <$> consecutive x (S n)).
Proof.
  intros Hx Hn Hl. unfold Bep53.generateRange. cbn [js_add]. rewrite js_round_exact by (unfold two53 in *; lia).
  cbn [js_add]. rewrite js_round_exact by (unfold two53 in *; lia).
  rewrite (proj2 (Z.leb_gt _ 0)), (proj2 (Z.leb_le _ 4294967295)) by lia. f_equal.
  replace (Z.to_nat (x + Z.of_nat n + - x + 1)) with (S n) by lia. unfold consecutive. rewrite <- list_fmap_compose.
  apply list_fmap_ext. intros i k Hk. apply lookup_seq in Hk as [-> Hk]. simpl. rewrite js_round_exact by (unfold two53 in *; lia). f_equal. lia.
Qed.

Lemma parse_run x n : 0 <= x → x + Z.of_nat n <= two53 → Z.of_nat n < 4294967295 →
  Bep53.parse_one (Bep53.run_text (consecutive x (S n))) = Done (Int <$> consecutive x (S n)).
Proof.
  intros Hx Hn Hl. pose proof (generateRange_spec x n Hx Hn Hl) as Hg. pose proof (consecutive_last x n) as Hla.
  assert (Hd : ∀ z, 0 <= z <= two53 → 45 ∉ num_text z).
  { intros z Hz Hin. pose proof (num_text_digits z Hz) as Hf. rewrite Forall_forall in Hf. apply Hf in Hin. lia. }
  rewrite consecutive_S in *. unfold Bep53.parse_one. destruct (consecutive (x + 1) n) as [|y r] eqn:E.
  - destruct n; [|by rewrite consecutive_S in E]. cbn [Bep53.run_text]. rewrite split_unit_none by (apply Hd; lia).
    rewrite parseInt_num_text by lia. rewrite Z.add_0_r in Hg. done.
  - cbn [Bep53.run_text]. rewrite Hla. cbn [app]. rewrite split_unit_app, split_unit_none by (apply Hd; lia).
    rewrite !parseInt_num_text by lia. done.
Qed.

(** A list of file indexes printed as ranges is read back as the same list, in the
    same order. *)
Theorem ranges_roundtrip (l : list Z) :
  Forall (λ x, 0 <= x <= two53) l → len l <= 4294967295 → Bep53.parse (Bep53.compose l) = Done (Int <$> l).
Proof.
  intros Hl Hn. destruct (runs_spec l) as [Hc Hr]. unfold Bep53.compose. rewrite <- Hc in Hl, Hn |- * at 2. clear Hc.
  induction Hr as [|r rs (x&n&->) _ IH]; [done|]. rewrite fmap_cons. cbn [Bep53.parse concat] in *.
  apply Forall_app in Hl as [Hl1 Hl2]. rewrite len_app in Hn. pose proof (len_nonneg (concat rs)).
  assert (Hlen : len (consecutive x (S n)) = Z.of_nat (S n)) by (unfold len, consecutive; by rewrite length_fmap, length_seq).
  pose proof (len_nonneg (consecutive x (S n))). rewrite parse_run.
  - cbn [mbind outcome_bind]. rewrite IH by (done || lia). cbn [mbind outcome_bind]. by rewrite fmap_app.
  - rewrite consecutive_S in Hl1. apply Forall_inv in Hl1. simpl in Hl1. lia.
  - unfold consecutive in Hl1. rewrite Forall_fmap in Hl1. rewrite Forall_forall in Hl1. specialize (Hl1 n ltac:(apply elem_of_seq; lia)). simpl in Hl1. lia.
  - lia.
Qed.

Lemma ranges_roundtrip_witness :
  Bep53.compose [4; 5; 6; 2; 9; 10] = [str "4-6"; str "2"; str "9-10"] ∧
  Bep53.parse (Bep53.compose [4; 5; 6; 2; 9; 10]) = Done (Int <$> [4; 5; 6; 2; 9; 10]).
Proof. split; [reflexivity|]. apply ranges_roundtrip; [unfold two53; repeat constructor; lia|by vm_compute]. Defined.
