(* ===== verification/MagnetLink.v ===== *)
(** * Magnet links round-trip

    A link printed for a torrent is read back as that torrent, except for plus signs of
    its name; a hash may be written in hexadecimal or in base 32. *)

From Stdlib Require Import SpecFloat.
From S2P Require Import Prelude GoFloat GoText Encoding JsText Magnet MagnetProps.
#[local] Open Scope Z_scope.

(** ** Objects *)

Lemma get_put_eq k v o : get k (put k v o) = Some v.
Proof.
  induction o as [|[j w] o IH]; simpl; [by rewrite bool_decide_true|]. destruct (decide (j = k)) as [->|Hn].
  - rewrite bool_decide_true by done. simpl. by rewrite bool_decide_true.
  - rewrite bool_decide_false by done. simpl. by rewrite bool_decide_false.
Qed.

Lemma get_put_ne k k' v o : k ≠ k' → get k (put k' v o) = get k o.
Proof.
  intros Hne. induction o as [|[j w] o IH]; simpl; [by rewrite bool_decide_false|]. destruct (decide (j = k')) as [->|Hn].
  - rewrite (bool_decide_true (k' = k')) by done. simpl. by rewrite bool_decide_false.
  - rewrite (bool_decide_false (j = k')) by done. simpl. by rewrite IH.
Qed.

(** [keys] looks properties up through assignments to keys that are known. *)
Ltac keys := repeat first [rewrite get_put_eq | rewrite get_put_ne by done].

Lemma unique_fresh seen l : NoDup l → Forall (λ t, existsb (same_string (MStr t)) seen = false) l →
  (∀ v, v ∈ seen → ∃ t, v = MStr t) → dedupe seen (MStr <$> l) = MStr <$> l.
Proof.
  intros Hn. revert seen. induction Hn as [|t l Ht _ IH]; intros seen Hf Hs; [done|]. rewrite fmap_cons. cbn [dedupe].
  apply Forall_cons in Hf as [Hf1 Hf2]. rewrite Hf1. f_equal. apply IH.
  - apply Forall_forall. intros u Hu. rewrite Forall_forall in Hf2. simpl. rewrite Hf2 by done. rewrite orb_false_r.
    apply bool_decide_false. by intros ->.
  - intros v [->|Hv]%elem_of_cons; [by eexists|by apply Hs].
Qed.

Lemma unique_strings l : NoDup l → unique (MStr <$> l) = MStr <$> l.
Proof.
  intros Hn. apply unique_fresh; [done| |by intros v ?%not_elem_of_nil]. apply Forall_forall. done.
Qed.

(** ** Cutting a link into its parameters *)

Lemma cut_at_app (sep rest : jstr) : sep ≠ [] → cut_at sep (sep ++ rest) = ([], Some rest).
Proof.
  intros Hne. assert (E : strip_prefix sep (sep ++ rest) = Some rest).
  { clear Hne. induction sep as [|c sep IH]; [done|]. simpl. by rewrite Z.eqb_refl. }
  destruct sep as [|c sep]; [done|]. cbn [app] in *. unfold cut_at. by rewrite E.
Qed.

Lemma strip_prefix_in p s c r : strip_prefix p s = Some r → c ∈ p → c ∈ s.
Proof.
  revert s. induction p as [|x p IH]; intros s Hs Hc; [by apply not_elem_of_nil in Hc|]. destruct s as [|y s]; [done|]. simpl in Hs.
  destruct (x =? y) eqn:E; [|done]. reflect_bools. subst. apply elem_of_cons in Hc as [->|Hc]; [by left|]. right. by eapply IH.
Qed.

Lemma cut_at_none sep c s : c ∈ sep → c ∉ s → cut_at sep s = (s, None).
Proof.
  intros Hc Hs. induction s as [|x s IH].
  - unfold cut_at. destruct (strip_prefix sep []) eqn:E; [|done]. by eapply strip_prefix_in in E as ?%not_elem_of_nil.
  - cbn [cut_at]. destruct (strip_prefix sep (x :: s)) eqn:E; [by eapply strip_prefix_in in E|].
    apply not_elem_of_cons in Hs as [_ Hs]. by rewrite IH.
Qed.

(** ** Names *)

(** Encoding a name turns its spaces into plus signs. *)
Definition name_char (c : Z) : jstr := if c =? 32 then [43] else uri_char c.

Lemma space_to_plus_S c s : space_to_plus (c :: s) =
  if (c =? 37) && bool_decide (take 2 s = [50; 48]) then 43 :: space_to_plus (drop 2 s) else c :: space_to_plus s.
Proof.
  destruct (c =? 37) eqn:Ec; cbn [andb]; reflect_bools; [|destruct c as [|c|c]; try done; repeat (destruct c as [c|c|]; try done)].
  subst c. destruct s as [|x [|y s]]; [done|by destruct x as [|x|x]; try done; repeat (destruct x as [x|x|]; try done)|].
  case_bool_decide as E; [cbn [take] in E; by simplify_eq|]. cbn [take] in E.
  destruct (decide (x = 50)) as [->|Hx]; [|destruct x as [|x|x]; try done; repeat (destruct x as [x|x|]; try done)].
  assert (Hy : y ≠ 48) by (intros ->; by apply E). destruct y as [|y|y]; try done; repeat (destruct y as [y|y|]; try done).
Qed.

Lemma space_to_plus_pass c s : c ≠ 37 → space_to_plus (c :: s) = c :: space_to_plus s.
Proof. intros Hc. rewrite space_to_plus_S. by rewrite (proj2 (Z.eqb_neq c 37)). Qed.

Lemma space_to_plus_percent b s : is_byte b → b ≠ 32 → space_to_plus (percent b ++ s) = percent b ++ space_to_plus s.
Proof.
  intros Hb Hne. unfold percent. cbn [app]. unfold is_byte in Hb. pose proof (Z.mod_pos_bound b 16 ltac:(lia)) as Hm.
  assert (Hd : 0 <= b / 16 < 16) by (split; [apply Z.div_pos|apply Z.div_lt_upper_bound]; lia).
  assert (Hx : ∀ x, 0 <= x < 16 → hex_upper x ≠ 37) by (intros x Hx; unfold hex_upper; case_match; lia).
  pose proof (Hx _ Hm) as H1. pose proof (Hx _ Hd) as H2.
  assert (H3 : ¬ (hex_upper (b / 16) = 50 ∧ hex_upper (b mod 16) = 48)).
  { intros [E1 E2]. apply Hne. pose proof (Z.div_mod b 16 ltac:(lia)). unfold hex_upper in *. repeat case_match; reflect_bools; lia. }
  rewrite space_to_plus_S, bool_decide_false by (cbn [take]; intros E; apply H3; by simplify_eq).
  rewrite andb_false_r. by rewrite !space_to_plus_pass by done.
Qed.

Lemma space_to_plus_char c s : scalar c = true → space_to_plus (uri_char c ++ s) = name_char c ++ space_to_plus s.
Proof.
  intros Hc. unfold name_char. destruct (c =? 32) eqn:E; reflect_bools; [by subst|]. unfold uri_char. destruct (uri_unescaped c) eqn:Eu.
  - apply uri_unescaped_bound in Eu. cbn [app]. apply space_to_plus_pass. tauto.
  - assert (Hb : Forall (λ b, is_byte b ∧ b ≠ 32) (utf8 c)).
    { destruct (decide (c < 128)) as [Hs|Hs].
      - unfold utf8. rewrite (proj2 (Z.ltb_lt c 128)) by done. unfold scalar in Hc. repeat constructor; unfold is_byte; zlia.
      - destruct (utf8_shape c Hc ltac:(lia)) as (b&bs&->&Hbs&Hb). constructor; [unfold is_byte; lia|].
        eapply Forall_impl; [exact Hbs|]. unfold is_byte. simpl. lia. }
    induction Hb as [|b bs [Hb1 Hb2] _ IH]; [done|]. rewrite fmap_cons. cbn [concat]. rewrite <- !app_assoc.
    by rewrite space_to_plus_percent, IH.
Qed.

Lemma space_to_plus_chars cs : Forall (λ c, scalar c = true) cs →
  space_to_plus (concat (uri_char <$> cs)) = concat (name_char <$> cs).
Proof. induction 1 as [|c cs Hc _ IH]; [done|]. rewrite !fmap_cons. cbn [concat]. by rewrite space_to_plus_char, IH. Qed.

Lemma decode_uri_name cs fuel : Forall (λ c, scalar c = true) cs → (length (concat (name_char <$> cs)) < fuel)%nat →
  decode_uri fuel (concat (name_char <$> cs)) = Done (replace_unit 32 43 (concat (utf16 <$> cs))).
Proof.
  intros Hs. revert fuel. induction Hs as [|c cs Hc _ IH]; intros fuel Hf; [destruct fuel; [simpl in Hf; lia|done]|].
  rewrite !fmap_cons in *. cbn [concat] in *. rewrite length_app in Hf. unfold replace_unit in *. rewrite fmap_app.
  assert (Hl : (1 <= length (name_char c))%nat) by (unfold name_char; case_match; [simpl; lia|apply uri_char_length]).
  destruct fuel as [|fuel]; [lia|]. specialize (IH fuel ltac:(lia)). unfold name_char at 1. destruct (c =? 32) eqn:E; reflect_bools.
  - subst. cbn [app decode_uri]. rewrite (proj2 (Z.eqb_neq 43 37)) by lia. by rewrite IH.
  - rewrite (decode_uri_char _ _ _ _ Hc IH). do 2 f_equal. symmetry. unfold utf16. unfold scalar in Hc.
    destruct (c <? 65536) eqn:E2; reflect_bools; cbn [fmap list_fmap]; [by rewrite (proj2 (Z.eqb_neq _ _))|].
    pose proof (Z.mod_pos_bound (c - 65536) 1024 ltac:(lia)). assert (0 <= (c - 65536) / 1024) by (apply Z.div_pos; lia).
    by rewrite !(proj2 (Z.eqb_neq _ 32)) by lia.
Qed.

(** The text of a name in a link, and the name read from it: spaces stay, plus signs
    become spaces. *)
Definition name_text (s : jstr) : jstr := concat (name_char <$> code_points s).
Definition uri_text (s : jstr) : jstr := concat (uri_char <$> code_points s).

Lemma name_text_eq s : well_formed s = true → space_to_plus <$> encodeURIComponent s = Done (name_text s).
Proof.
  intros Hw. rewrite encode_uri_eq by done. cbn [fmap outcome_fmap]. by rewrite space_to_plus_chars by by apply code_points_ok.
Qed.

Lemma name_text_read s : well_formed s = true → decodeURIComponent (name_text s) = Done (replace_unit 32 43 s).
Proof.
  intros Hw. destruct (code_points_ok s Hw) as [Hc He]. unfold decodeURIComponent, name_text.
  rewrite decode_uri_name by (done || lia). by rewrite He.
Qed.

Lemma plus_and_back s : replace_unit 43 32 (replace_unit 32 43 s) = replace_unit 43 32 s.
Proof.
  unfold replace_unit. rewrite <- list_fmap_compose. apply list_fmap_ext. intros _ c _. simpl.
  destruct (c =? 32) eqn:E; reflect_bools; [by subst|done].
Qed.

Lemma no_plus s : 43 ∉ s → replace_unit 43 32 s = s.
Proof.
  intros Hn. unfold replace_unit. rewrite <- (list_fmap_id s) at 2. apply list_fmap_ext. intros i c Hi. simpl.
  rewrite (proj2 (Z.eqb_neq c 43)); [done|]. intros ->. apply Hn. by eapply list_elem_of_lookup_2.
Qed.

Lemma uri_text_read s : well_formed s = true → decodeURIComponent (uri_text s) = Done s.
Proof. intros Hw. apply uri_roundtrip. by apply encode_uri_eq. Qed.

(** Units that separate the parts of a link are in no part. *)
Definition separator (c : Z) : bool := (c =? 38) || (c =? 61) || (c =? 63).

Lemma safe_not_separator c : uri_safe c = true → separator c = false.
Proof.
  unfold uri_safe. intros H. apply orb_true_iff in H as [H|H]; [|reflect_bools; by subst].
  destruct (separator c) eqn:E; [|done]. unfold separator in E.
  assert (c = 38 ∨ c = 61 ∨ c = 63) as Hc by (rewrite !orb_true_iff, !Z.eqb_eq in E; tauto). by repeat destruct_or?; subst.
Qed.

Lemma uri_text_clean s c : well_formed s = true → separator c = true → c ∉ uri_text s.
Proof.
  intros Hw Hc Hin. pose proof (uri_chars_safe (code_points s) ltac:(by apply code_points_ok)) as Hs.
  rewrite Forall_forall in Hs. specialize (Hs _ Hin). apply safe_not_separator in Hs. congruence.
Qed.

Lemma name_text_clean s c : well_formed s = true → separator c = true → c ∉ name_text s.
Proof.
  intros Hw Hc Hin. assert (Hs : Forall (λ c, separator c = false) (name_text s)).
  { unfold name_text. pose proof (proj1 (code_points_ok s Hw)) as Hp. clear -Hp. induction Hp as [|c cs Hc _ IH]; [constructor|].
    rewrite fmap_cons. cbn [concat]. apply Forall_app. split; [|done]. unfold name_char. case_match; [by repeat constructor|].
    eapply Forall_impl; [by apply uri_char_safe|]. apply safe_not_separator. }
  rewrite Forall_forall in Hs. specialize (Hs _ Hin). congruence.
Qed.

(** ** The link of a torrent *)

Definition parts (h nm : jstr) (trs : list jstr) : list jstr :=
  (str "xt=urn:btih:" ++ h) :: (str "dn=" ++ name_text nm) :: ((λ t, str "tr=" ++ uri_text t) <$> trs).

Definition link (h nm : jstr) (trs : list jstr) : jstr := str "magnet:?" ++ join [38] (parts h nm trs).

Definition torrent_object (h nm : jstr) (trs : list jstr) : list (jstr * mval) :=
  [(str "infoHash", MStr h); (str "name", MStr nm); (str "announce", MList (MStr <$> trs))].

Lemma join_concat c p ps : join c (p :: ps) = p ++ concat ((λ q, c ++ q) <$> ps).
Proof.
  revert p. induction ps as [|q ps IH]; intros p; [simpl; by rewrite app_nil_r|].
  change (join c (p :: q :: ps)) with (p ++ c ++ join c (q :: ps)). rewrite IH, fmap_cons. cbn [concat]. by rewrite <- app_assoc.
Qed.

Section Link.
Context (Number : jstr → float64) (float_text : float64 → jstr) (byte_of : mval → Z).

Lemma print_trackers j trs : Forall (λ t, well_formed t = true) trs →
  print_values float_text (str "tr") 2 j (MStr <$> trs) = Done (concat ((λ t, [38] ++ str "tr=" ++ uri_text t) <$> trs)).
Proof.
  intros Hw. revert j. induction Hw as [|t trs Ht _ IH]; intros j; [done|]. rewrite !fmap_cons. cbn [print_values concat].
  assert (E : print_value float_text (str "tr") 2 j (MStr t) = (u ← encodeURIComponent t; Done ([38] ++ str "tr=" ++ u))) by done.
  rewrite E, encode_uri_eq by done. cbn [mbind outcome_bind]. by rewrite IH.
Qed.

Lemma encode_link h nm trs : h ≠ [] → nm ≠ [] → well_formed nm = true → Forall (λ t, well_formed t = true) trs →
  encode float_text (torrent_object h nm trs) = Done (link h nm trs).
Proof.
  intros Hh Hnm Hw Ht. unfold encode.
  assert (E : filter (λ kv, length kv.1 = 2%nat ∨ kv.1 = str "x.pe") (rename float_text (torrent_object h nm trs)) =
    [(str "xt", MStr (str "urn:btih:" ++ h)); (str "dn", MStr nm); (str "tr", MList (MStr <$> trs))]).
  { destruct h as [|c h]; [done|]. destruct nm as [|d nm]; [done|]. by vm_compute. }
  rewrite E. clear E. cbn [print_keys print_key as_array].
  assert (E1 : print_values float_text (str "xt") 0 0 [MStr (str "urn:btih:" ++ h)] = Done (str "xt=urn:btih:" ++ h)).
  { cbn [print_values]. assert (E : print_value float_text (str "xt") 0 0 (MStr (str "urn:btih:" ++ h)) = Done (str "xt=urn:btih:" ++ h)) by done.
    rewrite E. cbn [mbind outcome_bind]. by rewrite app_nil_r. }
  assert (E2 : print_values float_text (str "dn") 1 0 [MStr nm] = Done ([38] ++ str "dn=" ++ name_text nm)).
  { cbn [print_values]. assert (E : print_value float_text (str "dn") 1 0 (MStr nm) =
      (u ← space_to_plus <$> encodeURIComponent nm; Done ([38] ++ str "dn=" ++ u))) by done.
    rewrite E, name_text_eq by done. cbn [mbind outcome_bind]. by rewrite app_nil_r. }
  rewrite E1, E2, print_trackers by done. cbn [mbind outcome_bind].
  rewrite !(bool_decide_false (_ = str "so")) by done. rewrite !app_nil_r. unfold link, parts. f_equal.
  rewrite join_concat, fmap_cons. cbn [concat]. rewrite <- list_fmap_compose. by rewrite <- ?app_assoc.
Qed.

(** *** Reading its parameters *)

Lemma read_param_at key val v o : 61 ∉ key → 61 ∉ val → param_value Number key val = Done v →
  read_param Number (key ++ [61] ++ val) o = Done (add_param key v o).
Proof.
  intros Hk Hv E. unfold read_param. change (key ++ [61] ++ val) with (key ++ 61 :: val).
  rewrite split_unit_app, split_unit_none by done. by rewrite E.
Qed.

Lemma put_put k v w o : put k v (put k w o) = put k v o.
Proof.
  induction o as [|[j x] o IH]; simpl; [by rewrite bool_decide_true|]. destruct (decide (j = k)) as [->|Hn].
  - rewrite !bool_decide_true by done. simpl. by rewrite bool_decide_true.
  - rewrite !bool_decide_false by done. simpl. rewrite bool_decide_false by done. by rewrite IH.
Qed.

(** The trackers of a link as its parameter holds them. *)
Definition put_trackers (trs : list jstr) (o : list (jstr * mval)) : list (jstr * mval) :=
  match trs with
  | [] => o
  | [t] => put (str "tr") (MStr t) o
  | _ => put (str "tr") (MList (MStr <$> trs)) o
  end.

Definition tracker_ok (t : jstr) : Prop := well_formed t = true ∧ t ≠ [].

Lemma add_tracker ts t o : get (str "tr") o = None → Forall tracker_ok (ts ++ [t]) →
  add_param (str "tr") (MStr t) (put_trackers ts o) = put_trackers (ts ++ [t]) o.
Proof.
  intros Hg Hok. unfold add_param. destruct ts as [|u [|u' ts]]; cbn [put_trackers app].
  - by rewrite Hg.
  - rewrite get_put_eq. apply Forall_cons in Hok as [[_ Hu] _]. destruct u as [|c u]; [done|]. cbn [truthy as_array].
    rewrite len_cons. pose proof (len_nonneg u). rewrite (proj2 (Z.eqb_neq (1 + len u) 0)) by lia. cbn [negb]. by rewrite put_put.
  - rewrite get_put_eq. cbn [truthy as_array]. by rewrite put_put, <- fmap_snoc.
Qed.

Lemma read_trackers ts trs o : get (str "tr") o = None → Forall tracker_ok (ts ++ trs) →
  read_params Number ((λ t, str "tr=" ++ uri_text t) <$> trs) (put_trackers ts o) = Done (put_trackers (ts ++ trs) o).
Proof.
  intros Hg. revert ts. induction trs as [|t trs IH]; intros ts Hok; [by rewrite app_nil_r|]. rewrite fmap_cons. cbn [read_params].
  assert (Ht : tracker_ok t) by (apply Forall_app in Hok as [_ Hok]; by apply Forall_cons in Hok as [? _]).
  change (str "tr=" ++ uri_text t) with (str "tr" ++ [61] ++ uri_text t).
  rewrite (read_param_at _ _ (MStr t)); [|by apply (bool_decide_eq_true_1 (61 ∉ _))|by apply uri_text_clean; [apply Ht|]|]; cycle 1.
  { change (param_value Number (str "tr") (uri_text t)) with (MStr <$> decodeURIComponent (uri_text t)).
    by rewrite uri_text_read by apply Ht. }
  cbn [mbind outcome_bind]. replace (ts ++ t :: trs) with ((ts ++ [t]) ++ trs) in * by by rewrite <- app_assoc.
  rewrite add_tracker; [by apply IH|done|by apply Forall_app in Hok as [? _]].
Qed.

Lemma get_put_trackers k trs o : k ≠ str "tr" → get k (put_trackers trs o) = get k o.
Proof. intros Hk. destruct trs as [|t [|u trs]]; cbn [put_trackers]; [done|by rewrite get_put_ne..]. Qed.

Lemma strings_put_trackers trs o : get (str "tr") o = None → strings_of (get (str "tr") (put_trackers trs o)) = MStr <$> trs.
Proof. intros Hg. destruct trs as [|t [|u trs]]; cbn [put_trackers]; [by rewrite Hg|by rewrite get_put_eq..]. Qed.

(** A hash in hexadecimal, or any 40 characters of a link. *)
Definition hash_char (c : Z) : bool := is_alnum c.

Definition link_params (h nm : jstr) (trs : list jstr) : list (jstr * mval) :=
  put_trackers trs [(str "xt", MStr (str "urn:btih:" ++ h)); (str "dn", MStr nm)].

Lemma not_in_hash c h : Forall (λ c, hash_char c = true) h → hash_char c = false → c ∉ h.
Proof. intros Hh Hc Hin. rewrite Forall_forall in Hh. specialize (Hh _ Hin). congruence. Qed.

Lemma read_link h nm trs : Forall (λ c, hash_char c = true) h → well_formed nm = true → 43 ∉ nm → Forall tracker_ok trs →
  read_params Number (parts h nm trs) [] = Done (link_params h nm trs).
Proof.
  intros Hh Hw Hplus Ht. unfold parts. cbn [read_params].
  change (str "xt=urn:btih:" ++ h) with (str "xt" ++ [61] ++ (str "urn:btih:" ++ h)).
  rewrite (read_param_at _ _ (MStr (str "urn:btih:" ++ h))); [|by apply (bool_decide_eq_true_1 (61 ∉ _))| |done]; cycle 1.
  { apply not_elem_of_app. split; [by apply (bool_decide_eq_true_1 (61 ∉ _))|by apply not_in_hash]. }
  cbn [mbind outcome_bind]. change (add_param (str "xt") (MStr (str "urn:btih:" ++ h)) []) with [(str "xt", MStr (str "urn:btih:" ++ h))].
  change (str "dn=" ++ name_text nm) with (str "dn" ++ [61] ++ name_text nm).
  rewrite (read_param_at _ _ (MStr nm)); [|by apply (bool_decide_eq_true_1 (61 ∉ _))|by apply name_text_clean|]; cycle 1.
  { change (param_value Number (str "dn") (name_text nm)) with (d ← decodeURIComponent (name_text nm); Done (MStr (replace_unit 43 32 d))).
    rewrite name_text_read by done. cbn [mbind outcome_bind]. by rewrite plus_and_back, no_plus. }
  cbn [mbind outcome_bind]. apply (read_trackers [] trs); done.
Qed.

(** *** What the link says *)

Lemma hash_no_newline h : Forall (λ c, hash_char c = true) h → forallb not_newline h = true.
Proof.
  intros Hh. apply forallb_forall. intros c Hc%list_elem_of_In. rewrite Forall_forall in Hh. specialize (Hh _ Hc).
  unfold not_newline, hash_char, is_alnum in *. rewrite !orb_true_iff in Hh. destruct (_ || _) eqn:E; [|done].
  rewrite !orb_true_iff, !Z.eqb_eq in E. zlia || (repeat match goal with H : _ ∨ _ |- _ => destruct H end; reflect_bools; subst; lia).
Qed.

Lemma match_hash p n h : length h = n → Forall (λ c, hash_char c = true) h → match_prefix p n (p ++ h) = Some h.
Proof.
  intros Hl Hh. unfold match_prefix. rewrite strip_prefix_app. rewrite take_ge by lia.
  by rewrite bool_decide_true, hash_no_newline.
Qed.

Lemma read_xt_hex h o : length h = 40%nat → Forall (λ c, hash_char c = true) h →
  read_xt (MStr (str "urn:btih:" ++ h)) o = Done (put (str "infoHash") (MStr (toLowerCase h)) o).
Proof. intros Hl Hh. unfold read_xt. by rewrite match_hash. Qed.

Lemma on_key_some key v f (o : list (jstr * mval)) : get key o = Some v → truthy (Some v) = true → on_key key f o = f v o.
Proof. intros Hg Ht. unfold on_key. by rewrite Hg, Ht. Qed.

Lemma on_key_none key f (o : list (jstr * mval)) : get key o = None → on_key key f o = Done o.
Proof. intros Hg. unfold on_key. by rewrite Hg. Qed.

(** The parameters of a link: no two hold the same name, and only these three. *)
Record link_object (h : jstr) (dn : option jstr) (trs : list jstr) (o : list (jstr * mval)) : Prop := {
  lo_xt : get (str "xt") o = Some (MStr (str "urn:btih:" ++ h));
  lo_dn : get (str "dn") o = MStr <$> dn;
  lo_tr : strings_of (get (str "tr") o) = MStr <$> trs;
  lo_no : ∀ k, k ≠ str "tr" → k ≠ str "xt" → k ≠ str "dn" → get k o = None;
}.

Lemma link_params_object h nm trs : link_object h (Some nm) trs (link_params h nm trs).
Proof.
  unfold link_params. constructor; [by rewrite get_put_trackers|by rewrite get_put_trackers|by rewrite strings_put_trackers|].
  intros k H1 H2 H3. rewrite get_put_trackers by done. simpl. by rewrite !bool_decide_false.
Qed.

Lemma not_in_join c d ps : c ∉ d → Forall (λ p, c ∉ p) ps → c ∉ join d ps.
Proof.
  intros Hd. induction 1 as [|p ps Hp Hps IH]; [apply not_elem_of_nil|]. destruct ps as [|q ps]; [done|].
  change (join d (p :: q :: ps)) with (p ++ d ++ join d (q :: ps)). by rewrite !not_elem_of_app.
Qed.

(** From the parameters to the properties of the object. *)
Lemma finish_link h dn trs ps o hash (uri : jstr) :
  link_object h dn trs o → NoDup trs → dn ≠ Some [] → length hash = 40%nat →
  (∀ o, read_xt (MStr (str "urn:btih:" ++ h)) o = Done (put (str "infoHash") (MStr hash) o)) →
  cut_at (str "magnet:?") uri = ([], Some (join [38] ps)) → Forall (λ p, 63 ∉ p ∧ 38 ∉ p) ps → join [38] ps ≠ [] →
  read_params Number ps [] = Done o →
  ∃ o', decode Number byte_of uri = Done o' ∧ get (str "infoHash") o' = Some (MStr hash) ∧ get (str "name") o' = MStr <$> dn ∧
    get (str "announce") o' = Some (MList (MStr <$> trs)).
Proof.
  intros [Gxt Gdn Gtr Gno] Hn Hnm Hhash Hxt Hc1 Hcl Hj Hrd. apply Forall_and in Hcl as [H63 H38].
  assert (Hc2 : cut_at (str "magnet:?") (join [38] ps) = (join [38] ps, None)).
  { apply (cut_at_none _ 63); [by apply (bool_decide_eq_true_1 (_ ∈ _))|]. apply not_in_join; [|done].
    by apply (bool_decide_eq_true_1 (_ ∉ _)). }
  assert (Hsp : split_unit 38 (join [38] ps) = ps) by (apply split_join; [by destruct ps|done]).
  unfold decode. rewrite Hc1, Hc2. cbn [fst]. destruct (join [38] ps) as [|c j]; [done|]. rewrite Hsp, Hrd. cbn [mbind outcome_bind].
  assert (Hlen : len hash = 40) by (unfold len; lia).
  rewrite (on_key_some _ (MStr (str "urn:btih:" ++ h))) by done. cbn [as_array for_each]. rewrite Hxt. cbn [mbind outcome_bind].
  rewrite on_key_none by (keys; by apply Gno). cbn [mbind outcome_bind].
  rewrite (on_key_some (str "infoHash") (MStr hash)); [|by keys|cbn [truthy]; by rewrite Hlen].
  cbn [buffer_from_hex]. rewrite Hlen. change (Z.odd 40) with false. cbn match. cbn [mbind outcome_bind].
  rewrite on_key_none by (keys; by apply Gno). cbn [mbind outcome_bind].
  rewrite on_key_none by (keys; by apply Gno). cbn [mbind outcome_bind]. destruct dn as [nm|].
  - assert (Hnl : truthy (Some (MStr nm)) = true).
    { destruct nm; [done|]. cbn [truthy]. rewrite len_cons. pose proof (len_nonneg nm). by rewrite (proj2 (Z.eqb_neq (1 + len nm) 0)) by lia. }
    rewrite (on_key_some (str "dn") (MStr nm)); [|by keys|done]. cbn [mbind outcome_bind].
    rewrite on_key_none by (keys; by apply Gno). cbn [mbind outcome_bind].
    eexists. split; [reflexivity|]. keys. rewrite Gtr, unique_strings by done. done.
  - rewrite on_key_none by (by keys). cbn [mbind outcome_bind].
    rewrite on_key_none by (keys; by apply Gno). cbn [mbind outcome_bind].
    eexists. split; [reflexivity|]. keys. rewrite Gtr, unique_strings by done. split_and!; [done|by apply Gno|done].
Qed.

Lemma parts_clean c h nm trs : (c = 38 ∨ c = 63) → Forall (λ c, hash_char c = true) h → well_formed nm = true → Forall tracker_ok trs →
  Forall (λ p, c ∉ p) (parts h nm trs).
Proof.
  intros Hc Hh Hw Ht. assert (Hs : separator c = true) by (by destruct Hc; subst). unfold parts. constructor; [|constructor].
  - apply not_elem_of_app. split; [destruct Hc; subst; by apply (bool_decide_eq_true_1 (_ ∉ _))|].
    apply not_in_hash; [done|]. by destruct Hc; subst.
  - apply not_elem_of_app. split; [destruct Hc; subst; by apply (bool_decide_eq_true_1 (_ ∉ _))|by apply name_text_clean].
  - apply Forall_fmap. eapply Forall_impl; [exact Ht|]. intros t [Hwt _]. apply not_elem_of_app.
    split; [destruct Hc; subst; by apply (bool_decide_eq_true_1 (_ ∉ _))|by apply uri_text_clean].
Qed.

Lemma decode_link h nm trs hash : Forall (λ c, hash_char c = true) h → well_formed nm = true → nm ≠ [] → 43 ∉ nm →
  Forall tracker_ok trs → NoDup trs → length hash = 40%nat →
  (∀ o, read_xt (MStr (str "urn:btih:" ++ h)) o = Done (put (str "infoHash") (MStr hash) o)) →
  ∃ o, decode Number byte_of (link h nm trs) = Done o ∧ get (str "infoHash") o = Some (MStr hash) ∧
    get (str "name") o = Some (MStr nm) ∧ get (str "announce") o = Some (MList (MStr <$> trs)).
Proof.
  intros Hh Hw Hnm Hplus Ht Hn Hl Hxt.
  apply (finish_link h (Some nm) trs (parts h nm trs) (link_params h nm trs) hash); try done; [apply link_params_object|congruence| |by apply read_link].
  apply Forall_and. split; apply parts_clean; try done; [by right|by left].
Qed.

(** A link with nothing but a hash. *)
Lemma decode_bare_link h hash : Forall (λ c, hash_char c = true) h → length hash = 40%nat →
  (∀ o, read_xt (MStr (str "urn:btih:" ++ h)) o = Done (put (str "infoHash") (MStr hash) o)) →
  ∃ o, decode Number byte_of (str "magnet:?xt=urn:btih:" ++ h) = Done o ∧ get (str "infoHash") o = Some (MStr hash) ∧
    get (str "name") o = None ∧ get (str "announce") o = Some (MList []).
Proof.
  intros Hh Hl Hxt. set (p := str "xt" ++ [61] ++ (str "urn:btih:" ++ h)).
  assert (Hp : ∀ c, hash_char c = false → c ∉ str "urn:btih:" → c ∉ str "urn:btih:" ++ h).
  { intros c Hc Hu. apply not_elem_of_app. split; [done|by apply not_in_hash]. }
  apply (finish_link h None [] [p] [(str "xt", MStr (str "urn:btih:" ++ h))] hash); try done.
  - constructor; try done. intros k H1 H2 H3. simpl. by rewrite bool_decide_false.
  - constructor.
  - repeat constructor; unfold p; rewrite !not_elem_of_app; split_and!; try (by apply (bool_decide_eq_true_1 (_ ∉ _))); by apply not_in_hash.
  - unfold p. cbn [read_params]. rewrite (read_param_at _ _ (MStr (str "urn:btih:" ++ h))); [done| | |done].
    + by apply (bool_decide_eq_true_1 (_ ∉ _)).
    + apply Hp; [done|by apply (bool_decide_eq_true_1 (_ ∉ _))].
Qed.

(** The link printed for a torrent with a hash in hexadecimal, a name without plus
    signs and different trackers is read back as the hash in lower case, the same name
    and the same trackers. *)
Theorem magnet_roundtrip (h nm : jstr) (trs : list jstr) :
  length h = 40%nat → Forall (λ c, hash_char c = true) h → well_formed nm = true → nm ≠ [] → 43 ∉ nm →
  Forall tracker_ok trs → NoDup trs →
  ∃ uri o, encode float_text (torrent_object h nm trs) = Done uri ∧ decode Number byte_of uri = Done o ∧
    get (str "infoHash") o = Some (MStr (toLowerCase h)) ∧ get (str "name") o = Some (MStr nm) ∧
    get (str "announce") o = Some (MList (MStr <$> trs)).
Proof.
  intros Hl Hh Hw Hnm Hplus Ht Hn. exists (link h nm trs).
  destruct (decode_link h nm trs (toLowerCase h)) as (o&E&G); [done..|by unfold toLowerCase; rewrite length_fmap|by intros o; apply read_xt_hex|].
  exists o. split; [|done]. apply encode_link; [by destruct h|done|done|]. eapply Forall_impl; [exact Ht|]. by intros t [? _].
Qed.

(** *** A hash in base 32 *)

Lemma base32_is_hash b : bytes_ok b → length b = 20%nat → Forall (λ c, hash_char c = true) (Base32.encode b).
Proof.
  intros Hb Hl. destruct (base32_hash b Hb Hl) as [_ Hc]. eapply Forall_impl; [exact Hc|]. intros c E.
  unfold base32_char, hash_char, is_alnum in *. apply orb_true_iff in E as [E|E]; blia.
Qed.

Lemma read_xt_base32 b o : bytes_ok b → length b = 20%nat →
  read_xt (MStr (str "urn:btih:" ++ Base32.encode b)) o = Done (put (str "infoHash") (MStr (hex_encode b)) o).
Proof.
  intros Hb Hl. destruct (base32_hash b Hb Hl) as [H32 Hc]. unfold read_xt.
  assert (E40 : match_prefix (str "urn:btih:") 40 (str "urn:btih:" ++ Base32.encode b) = None).
  { unfold match_prefix. rewrite strip_prefix_app, bool_decide_false; [done|]. rewrite take_ge by lia. lia. }
  rewrite E40, match_hash by (done || by apply base32_is_hash). rewrite from_string_ascii.
  - by rewrite base32_inverse.
  - eapply Forall_impl; [exact Hc|]. intros c E. unfold base32_char in E. apply orb_true_iff in E as [E|E]; zlia.
Qed.

Lemma hex_encode_hash b : bytes_ok b → length (hex_encode b) = (2 * length b)%nat ∧ Forall (λ c, is_lower_hex c = true) (hex_encode b).
Proof.
  induction 1 as [|x b Hx _ [IH1 IH2]]; [done|]. cbn [hex_encode length]. split; [lia|].
  assert (Hd : ∀ d, 0 <= d < 16 → is_lower_hex (hex_digit d) = true).
  { intros d Hd. unfold hex_digit, is_lower_hex. destruct (d <? 10) eqn:E; blia. }
  unfold is_byte in Hx. constructor; [|constructor; [|done]]; apply Hd; [|apply Z.mod_pos_bound; lia].
  split; [apply Z.div_pos; lia|apply Z.div_lt_upper_bound; lia].
Qed.

Lemma lower_hex_hash h : Forall (λ c, is_lower_hex c = true) h → Forall (λ c, hash_char c = true) h ∧ toLowerCase h = h.
Proof.
  induction 1 as [|c h Hc _ [IH1 IH2]]; [done|]. unfold toLowerCase in *. rewrite fmap_cons, IH2. unfold is_lower_hex in Hc. split.
  - constructor; [|done]. unfold hash_char, is_alnum. apply orb_true_iff in Hc as [E|E]; blia.
  - f_equal. unfold lower_unit. replace (_ && _) with false; [done|]. symmetry. apply orb_true_iff in Hc as [E|E]; blia.
Qed.

(** A link may write the 20 bytes of its hash in hexadecimal or in base 32: both are
    read as the same hash in hexadecimal, with the same name and trackers. *)
Theorem magnet_notations (b : bytes) (nm : jstr) (trs : list jstr) :
  bytes_ok b → length b = 20%nat → well_formed nm = true → nm ≠ [] → 43 ∉ nm → Forall tracker_ok trs → NoDup trs →
  Forall (λ h, ∃ o, decode Number byte_of (link h nm trs) = Done o ∧ get (str "infoHash") o = Some (MStr (hex_encode b)) ∧
    get (str "name") o = Some (MStr nm) ∧ get (str "announce") o = Some (MList (MStr <$> trs)))
    [hex_encode b; Base32.encode b].
Proof.
  intros Hb Hl Hw Hnm Hplus Ht Hn. destruct (hex_encode_hash b Hb) as [Hlen Hlow]. destruct (lower_hex_hash _ Hlow) as [Hh Hlo].
  constructor; [|constructor; [|constructor]].
  - apply decode_link; try done; [lia|]. intros o. rewrite read_xt_hex by (done || lia). by rewrite Hlo.
  - apply decode_link; try done; [by apply base32_is_hash|lia|]. intros o. by apply read_xt_base32.
Qed.

(** A plus sign of a name does not survive: it is printed as an escape, and read as
    a space because escapes are undone before plus signs are replaced. *)
Theorem magnet_plus_lost :
  let h := str "0123456789abcdef0123456789abcdef01234567" in
  ∃ uri o, encode float_text (torrent_object h (str "C++") []) = Done uri ∧ decode Number byte_of uri = Done o ∧
    get (str "name") o = Some (MStr (str "C  ")).
Proof.
  eexists _, _. split; [vm_compute; reflexivity|]. split; [vm_compute; reflexivity|]. vm_compute. reflexivity.
Qed.
End Link.

Lemma tracker_okb t : well_formed t && negb (bool_decide (t = [])) = true → tracker_ok t.
Proof. intros [H1 H2]%andb_true_iff. split; [done|]. apply negb_true_iff in H2. by apply bool_decide_eq_false in H2. Qed.

Definition sample_number (s : jstr) : float64 := S754_nan.

Lemma magnet_roundtrip_witness :
  let h := str "0123456789ABCDEF0123456789abcdef01234567" in
  let nm := str "A film (2024) [1080p]" in
  let trs := [str "udp://tracker.example:80/announce?x=1&y=2"; str "http://t.example"] in
  ∃ uri o, encode (λ _, []) (torrent_object h nm trs) = Done uri ∧ decode sample_number (λ _, 0) uri = Done o ∧
    get (str "infoHash") o = Some (MStr (toLowerCase h)) ∧ get (str "name") o = Some (MStr nm) ∧
    get (str "announce") o = Some (MList (MStr <$> trs)).
Proof.
  apply (magnet_roundtrip sample_number (λ _, []) (λ _, 0)).
  - reflexivity.
  - apply Forall_forall. intros c Hc%list_elem_of_In. revert c Hc. by apply forallb_forall.
  - reflexivity.
  - discriminate.
  - by apply (bool_decide_eq_true_1 (_ ∉ _)).
  - repeat constructor; by apply tracker_okb.
  - by apply (bool_decide_eq_true_1 (NoDup _)).
Defined.

Lemma magnet_notations_witness :
  let b := [0; 1; 2; 3; 4; 5; 6; 7; 8; 9; 250; 251; 252; 253; 254; 255; 16; 17; 18; 19] in
  Forall (λ h, ∃ o, decode sample_number (λ _, 0) (link h (str "A b") [str "http://t"]) = Done o ∧
    get (str "infoHash") o = Some (MStr (hex_encode b)) ∧
    get (str "name") o = Some (MStr (str "A b")) ∧ get (str "announce") o = Some (MList (MStr <$> [str "http://t"])))
    [hex_encode b; Base32.encode b].
Proof.
  apply (magnet_notations sample_number (λ _, 0)).
  - by apply bytes_okb_spec.
  - reflexivity.
  - reflexivity.
  - discriminate.
  - by apply (bool_decide_eq_true_1 (_ ∉ _)).
  - repeat constructor; by apply tracker_okb.
  - by apply (bool_decide_eq_true_1 (NoDup _)).
Defined.
