(* ===== verification/ParseTorrent.v ===== *)
(** * Reading torrents in the web interface ([2.f454f580.chunk.js], module parse-torrent,
      and the add dialog of [main.c4612288.chunk.js])

    The dialog accepts a hash, a magnet link, a link or a file.  [parseTorrent] makes an
    object of it from which the dialog takes the hash, to find out whether the torrent is
    known, and the name.  A thrown error is [Panic].

    A dictionary of the file may set its own prototype.  Properties are looked up through
    dictionaries set in this way; what a dictionary would get from a list or a text that
    is its prototype, their length, elements and methods, is not modelled. *)

From Stdlib Require Import SpecFloat.
From S2P Require Import Prelude GoFloat GoText JsText Bencode Magnet.
#[local] Open Scope Z_scope.

(** ** Values of a decoded file *)

(** [v[key]]; the length of a buffer or a list is looked at where it is asked for. *)
Definition prop (v : value) (key : string) : option value := get_prop (str key) v.

(** [a || b] *)
Definition js_or (a b : option value) : option value := if is_true a then a else b.

(** [v.toString()]: a dictionary with a property of that name throws. *)
Fixpoint value_text (v : value) : outcome jstr :=
  match v with
  | VNull => Panic
  | VBool b => Done (str (if b then "true" else "false"))
  | VNum n => Done (number_text n)
  | VStr s => Done s
  | VBuf b => Done (to_string b)
  | VList l =>
      (fix go (l : list value) : outcome jstr :=
         match l with
         | [] => Done []
         | [v] => match v with VNull => Done [] | _ => value_text v end
         | v :: l => t ← match v with VNull => Done [] | _ => value_text v end; r ← go l; Done (t ++ [44] ++ r)
         end) l
  | VDict d => match prop v "toString" with Some _ => Panic | None => Done (str "[object Object]") end
  end.

Fixpoint map_text (l : list value) : outcome (list jstr) :=
  match l with [] => Done [] | v :: l => t ← value_text v; r ← map_text l; Done (t :: r) end.

Definition require (b : bool) : outcome unit := if b then Done tt else Panic.

(** [Array.from(new Set(l))] *)
Fixpoint unique_texts (seen l : list jstr) : list jstr :=
  match l with
  | [] => []
  | t :: l => if bool_decide (t ∈ seen) then unique_texts seen l else t :: unique_texts (t :: seen) l
  end.

(** ** Paths (path-browserify) *)

(** [normalizeArray(parts, false)], from the last part on. *)
Fixpoint normalize_loop (rev_parts : list jstr) (up : nat) : list jstr :=
  match rev_parts with
  | [] => []
  | last :: ps =>
      if bool_decide (last = str ".") then normalize_loop ps up
      else if bool_decide (last = str "..") then normalize_loop ps (S up)
      else match up with
           | O => last :: normalize_loop ps O
           | S up => normalize_loop ps up
           end
  end.

Definition normalizeArray (parts : list jstr) : list jstr := rev (normalize_loop (rev parts) 0).

(** [normalize(path)] of an absolute path. *)
Definition normalize (path : jstr) : jstr :=
  let trailing := bool_decide (List.last path 0 = 47) in
  let p := join [47] (normalizeArray (filter (λ s, s ≠ []) (split_unit 47 path))) in
  [47] ++ p ++ (if trailing && negb (len p =? 0) then [47] else []).

(** [join(sep, ...parts).slice(1)] *)
Definition file_path (parts : list jstr) : jstr :=
  drop 1 (normalize (join [47] (filter (λ s, s ≠ []) ([47] :: parts)))).

(** ** Torrent files *)

Record torrent_entry := mkEntry { f_path : jstr; f_name : jstr; f_length : number; f_offset : number }.

Record parsed_torrent := mkParsed {
  p_info : value;
  p_infoBuffer : bytes;
  p_name : jstr;
  p_infoHash : jstr;
  p_private : option bool;
  p_created : option value;
  p_createdBy : option jstr;
  p_comment : option jstr;
  p_announce : list jstr;
  p_urlList : list jstr;
  p_files : list torrent_entry;
  p_length : number;
  p_pieceLength : value;
  p_lastPieceLength : option number;
  p_pieces : list jstr;
}.

Section Parse.
(** The digest, [Number(s)] and the byte an array's element is converted to. *)
Context (sha1 : bytes → jstr) (Number : jstr → float64) (byte_of : mval → Z).

(** [typeof file.length === "number"] *)
Definition length_of (file : value) : option number :=
  match file with
  | VBuf b => Some (Int (len b))
  | VList l => Some (Int (len l))
  | _ => match prop file "length" with Some (VNum n) => Some n | _ => None end
  end.

Definition path_of (file : value) : option value := js_or (prop file "path.utf-8") (prop file "path").

Definition check_file (file : value) : outcome unit :=
  _ ← require (bool_decide (is_Some (length_of file))); require (is_true (path_of file)).

Fixpoint check_files (files : list value) : outcome unit :=
  match files with [] => Done tt | f :: fs => _ ← check_file f; check_files fs end.

(** The sanity checks; the files of the torrent. *)
Definition check_torrent (torrent : value) : outcome (value * value * list value) :=
  info ← of_option (prop torrent "info");
  _ ← require (is_true (Some info));
  name ← of_option (js_or (prop info "name.utf-8") (prop info "name"));
  _ ← require (is_true (Some name));
  _ ← require (is_true (prop info "piece length"));
  _ ← require (is_true (prop info "pieces"));
  if is_true (prop info "files") then
    match prop info "files" with
    | Some (VList files) => _ ← check_files files; Done (info, name, files)
    | _ => Panic
    end
  else _ ← require (bool_decide (is_Some (length_of info))); Done (info, name, [info]).

(** The urls of one tier: a buffer is an array of its bytes. *)
Definition tier_texts (urls : value) : outcome (list jstr) :=
  match urls with
  | VList l => map_text l
  | VBuf b => Done (num_text <$> b)
  | _ => Panic
  end.

Fixpoint tiers_texts (tiers : list value) : outcome (list jstr) :=
  match tiers with [] => Done [] | t :: ts => a ← tier_texts t; b ← tiers_texts ts; Done (a ++ b) end.

Definition announce_of (torrent : value) : outcome (list jstr) :=
  match prop torrent "announce-list" with
  | Some (VList (t :: ts)) => tiers_texts (t :: ts)
  | _ =>
      match prop torrent "announce" with
      | Some v => if is_true (Some v) then t ← value_text v; Done [t] else Done []
      | None => Done []
      end
  end.

(** [0 < v.length] of a dictionary. *)
Definition has_length (v : value) : outcome bool :=
  match prop v "length" with
  | None => Done false
  | Some (VNum (Int z)) => Done (0 <? z)
  | Some (VNum (Infinity neg)) => Done (negb neg)
  | Some v => t ← value_text v; Done (SFltb (S754_zero false) (Number t))
  end.

Definition urls_of (torrent : value) : outcome (list jstr) :=
  match prop torrent "url-list" with
  | Some (VBuf b) => if len b =? 0 then Done [] else Done [to_string b]
  | Some (VList l) => map_text l
  | Some (VDict d) =>
      if isBuffer (VDict d) then (b ← has_length (VDict d); if (b : bool) then map_text [VDict d] else Done []) else Panic
  | v => if is_true v then Panic else Done []
  end.

(** The comment, if it is a buffer or looks like one. *)
Definition comment_of (torrent : value) : outcome (option jstr) :=
  match prop torrent "comment" with
  | Some v => if isBuffer v then Some <$> value_text v else Done None
  | None => Done None
  end.

(** One file at an offset. *)
Definition entry_of (name : jstr) (file : value) (offset : number) : outcome torrent_entry :=
  rest ← match path_of file with
         | Some (VList l) => map_text l
         | Some v => if is_true (Some v) then t ← value_text v; Done [t] else Done []
         | None => Done []
         end;
  let parts := name :: rest in
  Done (mkEntry (file_path parts) (List.last parts []) (default (Int 0) (length_of file)) offset).

(** Every file lies behind the ones before it; the total length. *)
Fixpoint entries_of (name : jstr) (files : list value) (offset : number) : outcome (list torrent_entry * number) :=
  match files with
  | [] => Done ([], offset)
  | f :: fs =>
      e ← entry_of name f offset;
      '(es, total) ← entries_of name fs (js_add offset (f_length e));
      Done (e :: es, total)
  end.

(** [a % b || b] for numbers that are not 0. *)
Definition js_mod_or (a b : number) : number :=
  match a, b with
  | Infinity _, _ => b
  | Int x, Int y => if Z.rem x y =? 0 then b else Int (Z.rem x y)
  | Int x, Infinity _ => if x =? 0 then b else Int x
  end.

(** Twenty bytes for each piece. *)
Fixpoint hash_chunks (fuel : nat) (b : bytes) : list jstr :=
  match fuel with
  | O => []
  | S fuel => match b with [] => [] | _ => hex_encode (take 20 b) :: hash_chunks fuel (drop 20 b) end
  end.

Fixpoint list_chunks (fuel : nat) (l : list value) : outcome (list jstr) :=
  match fuel with
  | O => Done []
  | S fuel =>
      match l with
      | [] => Done []
      | _ => t ← value_text (VList (take 20 l)); r ← list_chunks fuel (drop 20 l); Done (t :: r)
      end
  end.

Definition splitPieces (pieces : value) : outcome (list jstr) :=
  match pieces with
  | VBuf b => Done (hash_chunks (length b) b)
  | VList l => list_chunks (length l) l
  | VDict d => b ← has_length (VDict d); _ ← require (negb b); Done []
  | _ => Done []
  end.

(** [decodeTorrentFile(torrent)]; where the length of a piece is not a number, that of
    the last piece is not given. *)
Definition read_torrent (torrent : value) : outcome parsed_torrent :=
  '(info, name_value, files) ← check_torrent torrent;
  infoBuffer ← Bencode.encode info;
  name ← value_text name_value;
  _ ← match prop torrent "creation date" with
      | Some ((VBuf _ | VList _ | VDict _) as v) => value_text v
      | _ => Done []
      end;
  createdBy ← match prop torrent "created by" with
              | Some v => if is_true (Some v) then Some <$> value_text v else Done None
              | None => Done None
              end;
  comment ← comment_of torrent;
  announce ← announce_of torrent;
  urls ← urls_of torrent;
  '(entries, total) ← entries_of name files (Int 0);
  lastFile ← of_option (last entries);
  let pieceLength := default VNull (prop info "piece length") in
  lastPieceLength ← match pieceLength with
                    | VNum n => Done (Some (js_mod_or (js_add (f_offset lastFile) (f_length lastFile)) n))
                    | v => _ ← value_text v; Done None
                    end;
  pieces ← splitPieces (default VNull (prop info "pieces"));
  Done {| p_info := info; p_infoBuffer := infoBuffer; p_name := name; p_infoHash := sha1 infoBuffer;
          p_private := (λ v, is_true (Some v)) <$> prop info "private";
          p_created := if is_true (prop torrent "creation date") then prop torrent "creation date" else None;
          p_createdBy := createdBy;
          p_comment := comment;
          p_announce := unique_texts [] announce; p_urlList := unique_texts [] urls; p_files := entries; p_length := total;
          p_pieceLength := pieceLength; p_lastPieceLength := lastPieceLength; p_pieces := pieces |}.

Definition decodeTorrentFile (fuel : nat) (torrent : bytes) : outcome parsed_torrent :=
  v ← Bencode.decode fuel torrent; read_torrent v.

(** ** Identifiers *)

Inductive torrent_id :=
| IdString (s : jstr)
| IdBuffer (b : bytes)
| IdObject (o : list (jstr * mval)).

Inductive parsed :=
| FromLink (o : list (jstr * mval))
| FromFile (t : parsed_torrent).

(** [/^[a-f0-9]{40}$/i], [/^[a-z2-7]{32}$/i] and [/^(stream-)?magnet:/] *)
Definition is_hex (c : Z) : bool := bool_decide (is_Some (hex_val c)).
Definition is_base32 (c : Z) : bool := ((97 <=? c) && (c <=? 122)) || ((65 <=? c) && (c <=? 90)) || ((50 <=? c) && (c <=? 55)).
Definition all_of (ok : Z → bool) (n : nat) (s : jstr) : bool := bool_decide (length s = n) && forallb ok s.

Definition parseTorrent (fuel : nat) (id : torrent_id) : outcome parsed :=
  match id with
  | IdString s =>
      if starts_with (str "magnet:") s || starts_with (str "stream-magnet:") s then
        o ← Magnet.decode Number byte_of s;
        if truthy (get (str "infoHash") o) then Done (FromLink o) else Panic
      else if all_of is_hex 40 s || all_of is_base32 32 s then
        FromLink <$> Magnet.decode Number byte_of (str "magnet:?xt=urn:btih:" ++ s)
      else Panic
  | IdBuffer b =>
      if len b =? 20 then FromLink <$> Magnet.decode Number byte_of (str "magnet:?xt=urn:btih:" ++ hex_encode b)
      else FromFile <$> decodeTorrentFile fuel b
  | IdObject o =>
      match get (str "infoHash") o with
      | Some v =>
          if truthy (Some v) then
            match v with
            | MStr h =>
                let o := put (str "infoHash") (MStr (toLowerCase h)) o in
                let o := if truthy (get (str "announce") o) then o else put (str "announce") (MList []) o in
                let o := match get (str "announce") o with Some (MStr s) => put (str "announce") (MList [MStr s]) o | _ => o end in
                Done (FromLink (if truthy (get (str "urlList") o) then o else put (str "urlList") (MList []) o))
            | _ => Panic
            end
          else Panic
      | None => Panic
      end
  end.

(** The hash of the result. *)
Definition hash_of (p : parsed) : option jstr :=
  match p with
  | FromLink o => match get (str "infoHash") o with Some (MStr h) => Some h | _ => None end
  | FromFile t => Some (p_infoHash t)
  end.

(** [parseTorrent.remote]: what is done with an identifier that is not a blob.  Without a
    hash a link is downloaded and parsed then. *)
Inductive answer := Answer (p : parsed) | Download (url : jstr) | Invalid.

Definition remote (fuel : nat) (id : torrent_id) : answer :=
  let otherwise := match id with
                   | IdString s => if starts_with (str "http:") s || starts_with (str "https:") s then Download s else Invalid
                   | _ => Invalid
                   end in
  match parseTorrent fuel id with
  | Done p => match hash_of p with Some (_ :: _) => Answer p | _ => otherwise end
  | _ => otherwise
  end.

(** ** The add dialog *)

Definition lower_starts_with (p s : jstr) : bool := starts_with p (toLowerCase s).

Definition hashRegex (s : jstr) : bool := all_of is_hex 32 s || all_of is_hex 40 s || all_of is_hex 64 s.
Definition magnetRegex (s : jstr) : bool :=
  match strip_prefix (str "magnet:?xt=urn:") (toLowerCase s) with Some (c :: _) => is_alnum c | _ => false end.
(** [/^.*\.(torrent)$/i] *)
Definition torrentRegex (s : jstr) : bool :=
  starts_with (rev (str ".torrent")) (rev (toLowerCase s)) && forallb not_newline s.
Definition linkRegex (s : jstr) : bool := lower_starts_with (str "http://") s || lower_starts_with (str "https://") s.
Definition torrsRegex (s : jstr) : bool := lower_starts_with (str "torrs://") s.

Definition checkTorrentSource (s : jstr) : bool :=
  hashRegex s || magnetRegex s || torrentRegex s || linkRegex s || torrsRegex s.

End Parse.
