(* ===== verification/ParseTorrentProps.v ===== *)
(** * What the web interface reads of a torrent *)

From Stdlib Require Import SpecFloat.
From S2P Require Import Prelude GoFloat GoText Encoding JsText Bencode BencodeProps Magnet MagnetProps MagnetLink ParseTorrent.
#[local] Open Scope Z_scope.

(** ** Paths *)

Lemma split_unit_clean c s p : p ∈ split_unit c s → c ∉ p.
Proof.
  revert p. induction s as [|x s IH]; intros p Hp; cbn [split_unit] in Hp.
  { apply list_elem_of_singleton in Hp as ->. apply not_elem_of_nil. }
  destruct (x =? c) eqn:E; reflect_bools.
  - apply elem_of_cons in Hp as [->|Hp]; [apply not_elem_of_nil|by apply IH].
  - destruct (split_unit c s) as [|q qs] eqn:Es.
    + apply list_elem_of_singleton in Hp as ->. by intros ->%list_elem_of_singleton.
    + apply elem_of_cons in Hp as [->|Hp]; [|apply IH; by right]. apply not_elem_of_cons. split; [done|]. apply IH. by left.
Qed.

Definition plain (c : jstr) : Prop := c ≠ str "." ∧ c ≠ str "..".

Lemma normalize_loop_spec ps up p : p ∈ normalize_loop ps up → p ∈ ps ∧ plain p.
Proof.
  revert up. induction ps as [|q ps IH]; intros up Hp; [by apply not_elem_of_nil in Hp|]. cbn [normalize_loop] in Hp.
  case_bool_decide as E1; [apply IH in Hp as [? ?]; split; [by right|done]|].
  case_bool_decide as E2; [apply IH in Hp as [? ?]; split; [by right|done]|].
  destruct up as [|up]; [|apply IH in Hp as [? ?]; split; [by right|done]].
  apply elem_of_cons in Hp as [->|Hp]; [split; [by left|done]|]. apply IH in Hp as [? ?]. split; [by right|done].
Qed.

Lemma file_path_plain parts : Forall plain (split_unit 47 (file_path parts)).
Proof.
  unfold file_path, normalize. cbv zeta. match goal with |- context [drop 1 ([47] ++ ?x)] => change (drop 1 ([47] ++ x)) with x end.
  set (comps := normalizeArray _). set (trailing := bool_decide _).
  assert (Hc : ∀ p, p ∈ comps → 47 ∉ p ∧ plain p).
  { intros p Hp. unfold comps, normalizeArray in Hp. apply list_elem_of_In, in_rev, list_elem_of_In in Hp. apply normalize_loop_spec in Hp as [Hp Hpl].
    apply list_elem_of_In, in_rev, list_elem_of_In, list_elem_of_filter in Hp as [_ Hp]. split; [by eapply split_unit_clean|done]. }
  clearbody comps trailing. assert (Hnil : plain []) by done.
  destruct (decide (comps = [])) as [->|Hne].
  { rewrite andb_false_r. cbn. by repeat constructor. }
  assert (Hall : Forall plain comps) by (apply Forall_forall; intros p Hp; by apply Hc).
  assert (Hns : Forall (λ p, 47 ∉ p) comps) by (apply Forall_forall; intros p Hp; by apply Hc).
  destruct (_ && _); [|rewrite app_nil_r, split_join; done].
  assert (E : join [47] comps ++ [47] = join [47] (comps ++ [[]])).
  { clear -Hne. induction comps as [|p [|q comps] IH]; [done|done|]. cbn [app]. change (join [47] (p :: q :: comps)) with (p ++ [47] ++ join [47] (q :: comps)).
    rewrite <- !app_assoc, IH by done. done. }
  rewrite E, split_join; [apply Forall_app; split; [done|by repeat constructor]|by destruct comps|].
  apply Forall_app. split; [done|]. repeat constructor. apply not_elem_of_nil.
Qed.

(** A path of parts that are proper names is the parts, joined. *)
Lemma normalize_loop_id ps : Forall plain ps → normalize_loop ps 0 = ps.
Proof.
  induction 1 as [|p ps [H1 H2] _ IH]; [done|]. cbn [normalize_loop]. rewrite !bool_decide_false by done. by rewrite IH.
Qed.

Definition part_ok (p : jstr) : Prop := p ≠ [] ∧ plain p ∧ 47 ∉ p.

Lemma filter_nonempty (ps : list jstr) : Forall part_ok ps → filter (λ s, s ≠ []) ps = ps.
Proof. induction 1 as [|p ps [Hp _] _ IH]; [done|]. by rewrite filter_cons_True, IH. Qed.

Lemma join_last ps : ps ≠ [] → Forall part_ok ps → List.last ([47; 47] ++ join [47] ps) 0 ≠ 47.
Proof.
  intros Hne Hp. induction Hp as [|p ps (Hp1&_&Hp2) Hps IH]; [done|]. destruct ps as [|q ps].
  - cbn [join]. destruct p as [|c p] using rev_ind; [done|]. rewrite app_assoc, List.last_last. intros ->. apply Hp2, elem_of_app. right. by left.
  - change (join [47] (p :: q :: ps)) with (p ++ [47] ++ join [47] (q :: ps)). specialize (IH ltac:(done)).
    pose proof (Forall_inv Hps) as (Hq&_&_). destruct (join [47] (q :: ps)) as [|c t] eqn:Ej using rev_ind.
    + destruct ps; cbn in Ej; [done|by destruct q].
    + rewrite !app_assoc, List.last_last in *. done.
Qed.

Lemma file_path_id ps : ps ≠ [] → Forall part_ok ps → file_path ps = join [47] ps.
Proof.
  intros Hne Hp. unfold file_path, normalize. cbv zeta. rewrite filter_cons_True by done. rewrite (filter_nonempty ps) by done.
  destruct ps as [|p ps]; [done|]. change (join [47] ([47] :: p :: ps)) with ([47; 47] ++ join [47] (p :: ps)).
  rewrite bool_decide_false by (by apply join_last). cbn [andb]. rewrite app_nil_r.
  assert (Hs : split_unit 47 ([47; 47] ++ join [47] (p :: ps)) = [] :: [] :: p :: ps).
  { cbn [app split_unit]. rewrite Z.eqb_refl. rewrite split_join; [done|done|]. eapply Forall_impl; [exact Hp|]. by intros ? (_&_&?). }
  rewrite Hs, !filter_cons_False by naive_solver. rewrite filter_nonempty by done.
  unfold normalizeArray. rewrite normalize_loop_id, rev_involutive; [done|]. apply Forall_rev. eapply Forall_impl; [exact Hp|]. by intros ? (_&?&_).
Qed.

(** ** Files of a torrent *)

Lemma entries_of_paths name files off es total : entries_of name files off = Done (es, total) →
  Forall (λ e, Forall plain (split_unit 47 (f_path e))) es.
Proof.
  revert off es total. induction files as [|f files IH]; intros off es total He; cbn [entries_of] in He.
  { injection He as <- <-. constructor. }
  apply bind_Done in He as (e&Ee&He). apply bind_Done in He as ([es' tot]&Er&He). injection He as <- <-.
  constructor; [|by eapply IH]. unfold entry_of in Ee. apply bind_Done in Ee as (rest&_&Ee). injection Ee as <-. apply file_path_plain.
Qed.

Notation props := (list (jstr * value)).

Section Read.
Context (sha1 : bytes → jstr) (Number : jstr → float64) (byte_of : mval → Z).

(** C32: whatever a torrent file says, the paths of its files name no parent directory:
    no part of a path is a single or a double dot. *)
Theorem torrent_paths_safe (fuel : nat) (file : bytes) (t : parsed_torrent) :
  parseTorrent sha1 Number byte_of fuel (IdBuffer file) = Done (FromFile t) →
  Forall (λ e, Forall plain (split_unit 47 (f_path e))) (p_files t).
Proof.
  cbn [parseTorrent]. destruct (len file =? 20).
  { by destruct (Magnet.decode _ _ _). }
  unfold decodeTorrentFile. destruct (Bencode.decode fuel file) as [v| |]; [|done..]. cbn [mbind outcome_bind].
  destruct (read_torrent sha1 Number v) as [t'| |] eqn:Er; [|done..]. intros [= ->].
  unfold read_torrent in Er. apply bind_Done in Er as ([[info nv] files]&_&Er). apply bind_Done in Er as (?&_&Er).
  apply bind_Done in Er as (name&_&Er). apply bind_Done in Er as (?&_&Er). apply bind_Done in Er as (?&_&Er).
  apply bind_Done in Er as (?&_&Er). apply bind_Done in Er as (?&_&Er).
  apply bind_Done in Er as (?&_&Er). apply bind_Done in Er as ([es total]&Ee&Er). apply bind_Done in Er as (?&_&Er).
  apply bind_Done in Er as (?&_&Er). apply bind_Done in Er as (?&_&Er). injection Er as <-. by eapply entries_of_paths.
Qed.

(** *** What a torrent file says *)

Record file_spec := mkFile { fs_path : list jstr; fs_length : Z }.



Definition text (t : jstr) : value := VBuf (from_string t).













(** *** Looking it up *)











(** *** The files *)










(** *** Its text *)




(** *** Identifiers *)

Lemma hex_is_hash s : Forall (λ c, is_hex c = true) s → Forall (λ c, hash_char c = true) s.
Proof.
  intros Hs. eapply Forall_impl; [exact Hs|]. intros c Hc. unfold is_hex in Hc. apply bool_decide_eq_true in Hc as [x Hx].
  unfold hash_char, is_alnum, hex_val in *. repeat case_match; try done; reflect_bools; blia.
Qed.

Lemma no_magnet_prefix s : Forall (λ c, hash_char c = true) s → starts_with (str "magnet:") s || starts_with (str "stream-magnet:") s = false.
Proof.
  intros Hs. unfold starts_with. apply orb_false_iff. split; apply bool_decide_false; intros [r Hr];
    (eapply strip_prefix_in with (c := 58) in Hr; [by eapply not_in_hash in Hr|by apply (bool_decide_eq_true_1 (_ ∈ _))]).
Qed.

Lemma parse_hash_string fuel s h : Forall (λ c, hash_char c = true) s → length h = 40%nat → all_of is_hex 40 s || all_of is_base32 32 s = true →
  (∀ o, read_xt (MStr (str "urn:btih:" ++ s)) o = Done (put (str "infoHash") (MStr h) o)) →
  ∃ p, parseTorrent sha1 Number byte_of fuel (IdString s) = Done p ∧ hash_of p = Some h.
Proof.
  intros Hs Hl Ha Hxt. cbn [parseTorrent]. rewrite no_magnet_prefix, Ha by done.
  destruct (decode_bare_link Number byte_of s h Hs Hl Hxt) as (o&->&Hg&_). exists (FromLink o). split; [done|]. cbn [hash_of]. by rewrite Hg.
Qed.

Lemma all_ofI ok n s : length s = n → Forall (λ c, ok c = true) s → all_of ok n s = true.
Proof.
  intros Hl Hs. unfold all_of. rewrite bool_decide_true by done. apply forallb_forall. intros c Hc%list_elem_of_In.
  rewrite Forall_forall in Hs. by apply Hs.
Qed.

(** A hash of 20 bytes is the same hash in every notation the dialog takes: its
    hexadecimal digits in any case, its base 32 text, its bytes, and a link with either. *)
Theorem hash_identifiers (b : bytes) (hex : jstr) (fuel : nat) :
  bytes_ok b → length b = 20%nat → Forall (λ c, is_hex c = true) hex → toLowerCase hex = hex_encode b →
  Forall (λ id, ∃ p, parseTorrent sha1 Number byte_of fuel id = Done p ∧ hash_of p = Some (hex_encode b))
    [IdString hex; IdString (Base32.encode b); IdBuffer b;
     IdString (str "magnet:?xt=urn:btih:" ++ hex); IdString (str "magnet:?xt=urn:btih:" ++ Base32.encode b)].
Proof.
  intros Hb Hl Hhex Hlow. destruct (hex_encode_hash b Hb) as [Hlen Hlo]. destruct (lower_hex_hash _ Hlo) as [Hh Hid].
  assert (Hhl : length hex = 40%nat) by (rewrite <- (length_fmap lower_unit hex); change (lower_unit <$> hex) with (toLowerCase hex); rewrite Hlow; lia).
  assert (X1 : ∀ o, read_xt (MStr (str "urn:btih:" ++ hex)) o = Done (put (str "infoHash") (MStr (hex_encode b)) o)).
  { intros o. rewrite read_xt_hex, Hlow; [done|done|by apply hex_is_hash]. }
  assert (X2 : ∀ o, read_xt (MStr (str "urn:btih:" ++ Base32.encode b)) o = Done (put (str "infoHash") (MStr (hex_encode b)) o)).
  { intros o. by apply read_xt_base32. }
  assert (X3 : ∀ o, read_xt (MStr (str "urn:btih:" ++ hex_encode b)) o = Done (put (str "infoHash") (MStr (hex_encode b)) o)).
  { intros o. rewrite read_xt_hex by (done || lia). by rewrite Hid. }
  assert (L : ∀ s, Forall (λ c, hash_char c = true) s →
    (∀ o, read_xt (MStr (str "urn:btih:" ++ s)) o = Done (put (str "infoHash") (MStr (hex_encode b)) o)) →
    ∃ p, parseTorrent sha1 Number byte_of fuel (IdString (str "magnet:?xt=urn:btih:" ++ s)) = Done p ∧ hash_of p = Some (hex_encode b)).
  { intros s Hs Hxt. destruct (decode_bare_link Number byte_of s (hex_encode b) Hs ltac:(lia) Hxt) as (o&E&Hg&_).
    exists (FromLink o). split; [|cbn [hash_of]; by rewrite Hg]. cbn [parseTorrent].
    change (starts_with (str "magnet:") (str "magnet:?xt=urn:btih:" ++ s)) with true. cbn [orb]. rewrite E. cbn [mbind outcome_bind].
    rewrite Hg. cbn [truthy]. unfold len. rewrite Hlen, Hl. done. }
  pose proof (base32_is_hash b Hb Hl) as H32. destruct (base32_hash b Hb Hl) as [L32 C32].
  repeat apply Forall_cons_2; [| | | | |constructor].
  - apply parse_hash_string; [by apply hex_is_hash|lia| |done]. by rewrite all_ofI.
  - apply parse_hash_string; [done|lia| |done]. rewrite (all_ofI is_base32) by (done || (eapply Forall_impl; [exact C32|]; intros c Hc;
      unfold is_base32, base32_char in *; apply orb_true_iff in Hc as [Hc|Hc]; rewrite Hc; by rewrite ?orb_true_r)). by rewrite orb_true_r.
  - cbn [parseTorrent]. unfold len. rewrite Hl. change (Z.of_nat 20 =? 20) with true. cbn match.
    destruct (decode_bare_link Number byte_of (hex_encode b) (hex_encode b) Hh ltac:(lia) X3) as (o&->&Hg&_).
    exists (FromLink o). split; [done|]. cbn [hash_of]. by rewrite Hg.
  - by apply L; [apply hex_is_hash|].
  - by apply L.
Qed.

(** The dialog accepts more hashes than the parser: 64 hexadecimal digits, and 32 of
    which one is no digit of base 32, are accepted as a source and then refused, so the
    dialog knows neither a hash nor a name for them. *)
Theorem accepted_and_refused (s : jstr) (fuel : nat) :
  Forall (λ c, is_hex c = true) s → (length s = 64%nat ∨ length s = 32%nat ∧ Exists (λ c, is_base32 c = false) s) →
  checkTorrentSource s = true ∧ parseTorrent sha1 Number byte_of fuel (IdString s) = Panic ∧
  remote sha1 Number byte_of fuel (IdString s) = Invalid.
Proof.
  intros Hhex Hl. assert (Hc : hashRegex s = true).
  { unfold hashRegex. destruct Hl as [Hl|[Hl _]]; rewrite (all_ofI is_hex _ s Hl Hhex); by rewrite ?orb_true_r. }
  assert (Hp : parseTorrent sha1 Number byte_of fuel (IdString s) = Panic).
  { cbn [parseTorrent]. rewrite no_magnet_prefix by by apply hex_is_hash. unfold all_of.
    rewrite (bool_decide_false (length s = 40%nat)) by (destruct Hl as [?|[? _]]; lia). cbn [andb orb].
    destruct Hl as [Hl|[Hl Hx]]; [rewrite bool_decide_false by lia; done|]. rewrite bool_decide_true by done.
    destruct (forallb is_base32 s) eqn:E; [|done]. rewrite forallb_forall in E. apply Exists_exists in Hx as (c&Hin&Hf).
    apply list_elem_of_In, E in Hin. congruence. }
  split; [unfold checkTorrentSource; by rewrite Hc|]. split; [done|]. unfold remote. rewrite Hp.
  assert (Hno : ∀ p, p ∈ [str "http:"; str "https:"] → starts_with p s = false).
  { intros p Hin. unfold starts_with. apply bool_decide_false. intros [r Hr]. apply hex_is_hash in Hhex.
    eapply strip_prefix_in with (c := 58) in Hr; [by eapply not_in_hash in Hr|].
    repeat (apply elem_of_cons in Hin as [->|Hin]; [by apply (bool_decide_eq_true_1 (_ ∈ _))|]). by apply not_elem_of_nil in Hin. }
  rewrite !Hno by (repeat (first [left|right])). done.
Qed.
End Read.

(** ** Concrete inputs *)

Definition no_digest (b : bytes) : jstr := replicate 40 48.
Definition no_number (s : jstr) : float64 := S754_nan.
Definition no_byte (v : mval) : Z := 0.

Definition file_value (f : file_spec) : value :=
  VDict [(str "length", VNum (Int (fs_length f))); (str "path", VList (text <$> fs_path f))].

Definition files_info (files : list file_spec) (name : jstr) (pieceLength : Z) (pieces : bytes) : props :=
  [(str "files", VList (file_value <$> files)); (str "name", text name);
   (str "piece length", VNum (Int pieceLength)); (str "pieces", VBuf pieces)].

(** A torrent whose paths climb. *)
Definition climbing_value : value :=
  VDict [(str "announce", text (str "http://t"));
         (str "info", VDict (files_info [mkFile [str ".."; str ".."; str "etc"; str "passwd"] 1; mkFile [str "a"; str "."; str "b.mkv"] 2] (str "film") 16384 [7]))].

Definition printed (v : value) : bytes := match Bencode.encode v with Done b => b | _ => [] end.

Definition climbing : bytes := printed climbing_value.

Lemma torrent_paths_safe_witness : ∃ t,
  parseTorrent no_digest no_number no_byte 500 (IdBuffer climbing) = Done (FromFile t) ∧
  f_path <$> p_files t = [str "etc/passwd"; str "film/a/b.mkv"] ∧
  Forall (λ e, Forall plain (split_unit 47 (f_path e))) (p_files t).
Proof.
  eexists. split; [vm_compute; reflexivity|]. split; [reflexivity|].
  apply (torrent_paths_safe no_digest no_number no_byte 500 climbing). vm_compute. reflexivity.
Defined.








Lemma hash_identifiers_witness :
  let b := [0; 1; 2; 3; 4; 5; 6; 7; 8; 9; 250; 251; 252; 253; 254; 255; 16; 17; 18; 19] in
  let hex := str "00010203040506070809FAFBFCfdfeff10111213" in
  Forall (λ id, ∃ p, parseTorrent no_digest no_number no_byte 1 id = Done p ∧ hash_of p = Some (hex_encode b))
    [IdString hex; IdString (Base32.encode b); IdBuffer b;
     IdString (str "magnet:?xt=urn:btih:" ++ hex); IdString (str "magnet:?xt=urn:btih:" ++ Base32.encode b)].
Proof.
  apply (hash_identifiers no_digest no_number no_byte).
  - by apply bytes_okb_spec.
  - reflexivity.
  - apply Forall_forall. intros c Hc%list_elem_of_In. revert c Hc. by apply forallb_forall.
  - reflexivity.
Defined.

Lemma accepted_and_refused_witness :
  let s := str "0123456789abcdef0123456789ABCDEF" in
  checkTorrentSource s = true ∧ parseTorrent no_digest no_number no_byte 1 (IdString s) = Panic ∧
  remote no_digest no_number no_byte 1 (IdString s) = Invalid.
Proof.
  apply (accepted_and_refused no_digest no_number no_byte).
  - apply Forall_forall. intros c Hc%list_elem_of_In. revert c Hc. by apply forallb_forall.
  - right. split; [reflexivity|]. by constructor.
Defined.
