(* ===== verification/IconColor.v ===== *)
(** * The animation player: colours and properties ([lord-icon-2.0.2.js])

    Icons of the web interface are animations whose colours, stroke and other settings
    are properties inside of a JSON document.  This file models how the player of the
    icons reads a list of colours ([colors="primary:#121331,secondary:white"]), finds the
    properties of a document, and writes and reads back their values by path.  Numbers
    are binary64.  The names of the code are single letters; each definition gives its own. *)

From Stdlib Require Import SpecFloat.
From S2P Require Import Prelude GoText GoFloat JsText Magnet.
#[local] Open Scope Z_scope.

(** ** Colours *)

(** [o] *)
Definition namedColors : list (string * string) :=
  [("aliceblue", "#f0f8ff"); ("antiquewhite", "#faebd7"); ("aqua", "#00ffff"); ("aquamarine", "#7fffd4"); ("azure", "#f0ffff"); ("beige", "#f5f5dc");
   ("bisque", "#ffe4c4"); ("black", "#000000"); ("blanchedalmond", "#ffebcd"); ("blue", "#0000ff"); ("blueviolet", "#8a2be2"); ("brown", "#a52a2a");
   ("burlywood", "#deb887"); ("cadetblue", "#5f9ea0"); ("chartreuse", "#7fff00"); ("chocolate", "#d2691e"); ("coral", "#ff7f50");
   ("cornflowerblue", "#6495ed"); ("cornsilk", "#fff8dc"); ("crimson", "#dc143c"); ("cyan", "#00ffff"); ("darkblue", "#00008b");
   ("darkcyan", "#008b8b"); ("darkgoldenrod", "#b8860b"); ("darkgray", "#a9a9a9"); ("darkgreen", "#006400"); ("darkkhaki", "#bdb76b");
   ("darkmagenta", "#8b008b"); ("darkolivegreen", "#556b2f"); ("darkorange", "#ff8c00"); ("darkorchid", "#9932cc"); ("darkred", "#8b0000");
   ("darksalmon", "#e9967a"); ("darkseagreen", "#8fbc8f"); ("darkslateblue", "#483d8b"); ("darkslategray", "#2f4f4f"); ("darkturquoise", "#00ced1");
   ("darkviolet", "#9400d3"); ("deeppink", "#ff1493"); ("deepskyblue", "#00bfff"); ("dimgray", "#696969"); ("dodgerblue", "#1e90ff");
   ("firebrick", "#b22222"); ("floralwhite", "#fffaf0"); ("forestgreen", "#228b22"); ("fuchsia", "#ff00ff"); ("gainsboro", "#dcdcdc");
   ("ghostwhite", "#f8f8ff"); ("gold", "#ffd700"); ("goldenrod", "#daa520"); ("gray", "#808080"); ("green", "#008000"); ("greenyellow", "#adff2f");
   ("honeydew", "#f0fff0"); ("hotpink", "#ff69b4"); ("indianred ", "#cd5c5c"); ("indigo", "#4b0082"); ("ivory", "#fffff0"); ("khaki", "#f0e68c");
   ("lavender", "#e6e6fa"); ("lavenderblush", "#fff0f5"); ("lawngreen", "#7cfc00"); ("lemonchiffon", "#fffacd"); ("lightblue", "#add8e6");
   ("lightcoral", "#f08080"); ("lightcyan", "#e0ffff"); ("lightgoldenrodyellow", "#fafad2"); ("lightgrey", "#d3d3d3"); ("lightgreen", "#90ee90");
   ("lightpink", "#ffb6c1"); ("lightsalmon", "#ffa07a"); ("lightseagreen", "#20b2aa"); ("lightskyblue", "#87cefa"); ("lightslategray", "#778899");
   ("lightsteelblue", "#b0c4de"); ("lightyellow", "#ffffe0"); ("lime", "#00ff00"); ("limegreen", "#32cd32"); ("linen", "#faf0e6");
   ("magenta", "#ff00ff"); ("maroon", "#800000"); ("mediumaquamarine", "#66cdaa"); ("mediumblue", "#0000cd"); ("mediumorchid", "#ba55d3");
   ("mediumpurple", "#9370d8"); ("mediumseagreen", "#3cb371"); ("mediumslateblue", "#7b68ee"); ("mediumspringgreen", "#00fa9a");
   ("mediumturquoise", "#48d1cc"); ("mediumvioletred", "#c71585"); ("midnightblue", "#191970"); ("mintcream", "#f5fffa"); ("mistyrose", "#ffe4e1");
   ("moccasin", "#ffe4b5"); ("navajowhite", "#ffdead"); ("navy", "#000080"); ("oldlace", "#fdf5e6"); ("olive", "#808000"); ("olivedrab", "#6b8e23");
   ("orange", "#ffa500"); ("orangered", "#ff4500"); ("orchid", "#da70d6"); ("palegoldenrod", "#eee8aa"); ("palegreen", "#98fb98");
   ("paleturquoise", "#afeeee"); ("palevioletred", "#d87093"); ("papayawhip", "#ffefd5"); ("peachpuff", "#ffdab9"); ("peru", "#cd853f");
   ("pink", "#ffc0cb"); ("plum", "#dda0dd"); ("powderblue", "#b0e0e6"); ("purple", "#800080"); ("rebeccapurple", "#663399"); ("red", "#ff0000");
   ("rosybrown", "#bc8f8f"); ("royalblue", "#4169e1"); ("saddlebrown", "#8b4513"); ("salmon", "#fa8072"); ("sandybrown", "#f4a460");
   ("seagreen", "#2e8b57"); ("seashell", "#fff5ee"); ("sienna", "#a0522d"); ("silver", "#c0c0c0"); ("skyblue", "#87ceeb"); ("slateblue", "#6a5acd");
   ("slategray", "#708090"); ("snow", "#fffafa"); ("springgreen", "#00ff7f"); ("steelblue", "#4682b4"); ("tan", "#d2b48c"); ("teal", "#008080");
   ("thistle", "#d8bfd8"); ("tomato", "#ff6347"); ("turquoise", "#40e0d0"); ("violet", "#ee82ee"); ("wheat", "#f5deb3"); ("white", "#ffffff");
   ("whitesmoke", "#f5f5f5"); ("yellow", "#ffff00"); ("yellowgreen", "#9acd32")]%string.

(** A colour, or a member every object has: [constructor], [__proto__]. *)
Inductive colour := Text (s : jstr) | Builtin (text : jstr).

(** [i(t)] *)
Definition parseColor (t : jstr) : colour :=
  match t with
  | 35 :: rest =>
      match rest with
      | [a; b; c] => Text [35; a; a; b; b; c; c]
      | _ => Text t
      end
  | _ =>
      let name := toLowerCase t in
      match lookup_prop name ((λ kv, (str kv.1, str kv.2)) <$> namedColors) with
      | Some c => Text c
      | None =>
          if bool_decide (name = str "constructor") then Builtin (str "function Object() { [native code] }")
          else if bool_decide (name = str "__proto__") then Builtin (str "[object Object]")
          else Text (str "#000000")
      end
  end.

(** [l(t)]: [undefined] for a missing or empty list. *)
Definition parseColors (t : option jstr) : option (list (jstr * colour)) :=
  match t with
  | None | Some [] => None
  | Some t =>
      let pairs := filter (λ e, length e = 2%nat) (split_unit 58 <$> filter (λ p, p ≠ []) (split_unit 44 t)) in
      Some (foldl (λ c e, match e with [k; v] => set_prop (toLowerCase k) (parseColor v) c | _ => c end) [] pairs)
  end.

(** [x.toString(16)] of an integer, [None] being NaN. *)
Definition hex_text (n : option number) : jstr :=
  match n with
  | None => str "NaN"
  | Some (Int z) => if z =? 0 then [48] else (if z <? 0 then [45] else []) ++ (hex_digit <$> to_base 16 (Z.abs z))
  | Some n => number_text n
  end.

(** [u(t)] *)
Definition componentToHex (t : option number) : jstr :=
  let e := hex_text t in if len e =? 1 then 48 :: e else e.

(** [Math.round(x)]: the nearest integer, halves upwards. *)
Definition math_round (x : float64) : option number :=
  match x with
  | S754_zero _ => Some (Int 0)
  | S754_infinity neg => Some (Infinity neg)
  | S754_nan => None
  | S754_finite neg m e =>
      let v := if neg then Zneg m else Zpos m in
      Some (Int (if 0 <=? e then v * 2 ^ e else (2 * v + 2 ^ (- e)) / 2 ^ (1 - e)))
  end.

Definition of_number (n : option number) : float64 :=
  match n with None => S754_nan | Some (Int z) => of_int z | Some (Infinity neg) => S754_infinity neg end.

(** [s(t)], [b(t)]: from a byte to a part of one in thousandths, and back. *)
Definition toUnitVector (t : float64) : float64 := fdiv (of_number (math_round (fmul (fdiv t (of_int 255)) (of_int 1000)))) (of_int 1000).
Definition fromUnitVector (t : float64) : option number := math_round (fmul (of_int 255) t).

(** [parseInt(..., 16)], cut to 32 bits, and its three low bytes. *)
Definition rgb_of (t : jstr) : Z * Z * Z :=
  let e := match parseInt (match t with 35 :: t => t | _ => t end) 16 with Some n => to_int32 n | None => 0 end in
  (Z.land (Z.shiftr e 16) 255, Z.land (Z.shiftr e 8) 255, Z.land 255 e).

(** [g(t)], [h(t)]: from a text to three parts of one, and back. *)
Definition hexToTupleColor (t : colour) : float64 * float64 * float64 :=
  let '(r, g, b) := rgb_of (match t with Text t => t | Builtin t => t end) in
  (toUnitVector (of_int r), toUnitVector (of_int g), toUnitVector (of_int b)).

Definition tupleColorToHex (t : float64 * float64 * float64) : jstr :=
  let '(x, y, z) := t in [35] ++ componentToHex (fromUnitVector x) ++ componentToHex (fromUnitVector y) ++ componentToHex (fromUnitVector z).

(** [d(t)]: the width of strokes as 1, 2 or 3 by name or number, any other text as a
    number; [Number] is the conversion of the language. *)
Definition parseStroke (Number : jstr → float64) (t : jstr) : float64 :=
  if existsb (λ k, bool_decide (t = str k)) ["light"; "1"]%string then of_int 1
  else if existsb (λ k, bool_decide (t = str k)) ["regular"; "2"]%string then of_int 2
  else if existsb (λ k, bool_decide (t = str k)) ["bold"; "3"]%string then of_int 3
  else Number t.

(** ** Documents *)

Inductive json :=
| JUndef
| JNull
| JBool (b : bool)
| JNum (x : float64)
| JStr (s : jstr)
| JArr (l : list json)
| JObj (d : list (jstr * json)).

(** [r(t)] *)
Definition is_object (j : json) : bool := match j with JArr _ | JObj _ => true | _ => false end.

Definition json_true (j : json) : bool :=
  match j with
  | JUndef | JNull => false
  | JBool b => b
  | JNum x => match x with S754_zero _ | S754_nan => false | _ => true end
  | JStr s => negb (bool_decide (s = []))
  | JArr _ | JObj _ => true
  end.

(** The index a name stands for: a number below 2^32 - 1 without leading zeros. *)
Definition array_index (key : jstr) : option nat :=
  let z := from_base 10 ((λ c, c - 48) <$> key) in
  if forallb is_digit key && bool_decide (FormatInt z = key) && (z <? 4294967295) then Some (Z.to_nat z) else None.

(** The own member of an object: names every object has are not asked for. *)
Definition own_member (j : json) (key : jstr) : option json :=
  match j with
  | JArr l => match array_index key with Some n => l !! n | None => None end
  | JObj d => lookup_prop key d
  | _ => None
  end.

Definition member (j : json) (key : jstr) : json := default JUndef (own_member j key).

(** [j[key]], which throws for [undefined] and [null]; [j?.[key]], which does not. *)
Definition access (j : json) (key : string) : outcome json :=
  match j with JUndef | JNull => Panic | _ => Done (member j (str key)) end.
Definition maybe (j : json) (key : string) : json := member j (str key).

(** [t(t, e, i)]: the value at a path, or the default where the path leaves the document. *)
Fixpoint walk (a : json) (path : list jstr) (i : json) : json :=
  match path with
  | [] => match a with JUndef => i | _ => a end
  | k :: ks => match own_member a k with Some c => walk c ks i | None => i end
  end.
Definition get_path (t : json) (e : jstr) : json := walk t (split_unit 46 e) JUndef.

(** [r[k] = v]: an array grows up to the index; what is not an object throws.  (A name
    that is no index is never written to an array here.) *)
Definition set_member (r : json) (k : jstr) (v : json) : outcome json :=
  match r with
  | JObj d => Done (JObj (set_prop k v d))
  | JArr l =>
      match array_index k with
      | Some n => Done (JArr (if bool_decide (n < length l)%nat then <[n := v]> l else l ++ replicate (n - length l) JUndef ++ [v]))
      | None => Panic
      end
  | _ => Panic
  end.

(** [a(t, e, i)]: the value is set at the end of the path; the documents are trees, so
    that what is changed below is put back in its place. *)
Fixpoint set_walk (r : json) (path : list jstr) (v : json) : outcome json :=
  match path with
  | [] => Done r
  | [k] => set_member r k v
  | k :: ks => if is_object r then c ← set_walk (member r k) ks v; set_member r k c else Panic
  end.
Definition set_path (t : json) (e : jstr) (v : json) : outcome json := set_walk t (split_unit 46 e) v.

(** ** Properties of an icon *)

Inductive ptype := Color | Slider | Point | Checkbox | Feature.

#[export] Instance ptype_eq_dec : EqDecision ptype.
Proof. solve_decision. Defined.

Record property := mkProperty { p_name : jstr; p_path : jstr; p_value : json; p_type : ptype }.

Definition type_of (mn : json) : outcome (option ptype) :=
  match mn with
  | JStr t =>
      Done (if bool_decide (t = str "ADBE Color Control") then Some Color
            else if bool_decide (t = str "ADBE Slider Control") then Some Slider
            else if bool_decide (t = str "ADBE Point Control") then Some Point
            else if bool_decide (t = str "ADBE Checkbox Control") then Some Checkbox
            else if starts_with (str "Pseudo/") t then Some Feature
            else None)
  | _ => Panic
  end.

(** An index in a text. *)
Definition nat_text (n : nat) : jstr := FormatInt (Z.of_nat n).

(** Where the value of an effect stands: in the running animation, or in the document. *)
Definition effect_path (lottieInstance : bool) (r s : nat) : list jstr :=
  if lottieInstance
  then [str "renderer"; str "elements"; nat_text r; str "effectsManager"; str "effectElements"; nat_text s; str "effectElements"; str "0"; str "p"; str "v"]
  else [str "layers"; nat_text r; str "ef"; nat_text s; str "ef"; str "0"; str "v"; str "k"].

Definition effect_value (t : json) : json := maybe (maybe (maybe (maybe t "ef") "0") "v") "k".

(** The body of the inner loop of [p(t, {lottieInstance})]. *)
Definition effect_property (lottieInstance : bool) (r s : nat) (t : json) : outcome (list property) :=
  match effect_value t with
  | JUndef => Done []
  | a =>
      mn ← access t "mn";
      ty ← type_of mn;
      match ty with
      | None => Done []
      | Some ty =>
          nm ← access t "nm";
          match nm with
          | JStr nm => Done [mkProperty (toLowerCase nm) (join [46] (effect_path lottieInstance r s)) a ty]
          | _ => Panic
          end
      end
  end.

(** [forEach] with the index. *)
Fixpoint for_each_at {A} (f : nat → json → outcome (list A)) (k : nat) (l : list json) : outcome (list A) :=
  match l with
  | [] => Done []
  | t :: l => a ← f k t; b ← for_each_at f (S k) l; Done (a ++ b)
  end.

Definition for_each {A} (f : nat → json → outcome (list A)) (j : json) : outcome (list A) :=
  match j with JArr l => for_each_at f 0 l | _ => Panic end.

Definition layer_properties (lottieInstance : bool) (r : nat) (t : json) : outcome (list property) :=
  nm ← access t "nm";
  if json_true nm then
    ef ← access t "ef";
    if json_true ef then for_each (effect_property lottieInstance r) ef else Done []
  else Done [].

(** [p(t, {lottieInstance})] *)
Definition extractProperties (lottieInstance : bool) (t : json) : outcome (list property) :=
  if json_true t && json_true (maybe t "layers") then for_each (layer_properties lottieInstance) (maybe t "layers") else Done [].

(** [y(t, e)]: every property gets back the value it was found with. *)
Fixpoint resetProperties (t : json) (e : list property) : outcome json :=
  match e with [] => Done t | i :: e => t ← set_path t (p_path i) (p_value i); resetProperties t e end.

Section Update.
Context (Number : jstr → float64).

(** The conversion of a value to a number. *)
Definition to_number (j : json) : float64 :=
  match j with
  | JNum x => x
  | JNull | JBool false => of_int 0
  | JBool true => of_int 1
  | JStr s => Number s
  | _ => S754_nan
  end.

Definition tuple_json (t : float64 * float64 * float64) : json := let '(x, y, z) := t in JArr [JNum x; JNum y; JNum z].
Definition tuple_of (j : json) : float64 * float64 * float64 :=
  (to_number (maybe j "0"), to_number (maybe j "1"), to_number (maybe j "2")).

Definition has (j : json) (key : string) : bool := bool_decide (is_Some (own_member j (str key))).

(** The body of the loop of [m(t, e, r)]. *)
Definition update_property (t : json) (n : property) (r : json) : outcome json :=
  match p_type n with
  | Color =>
      match r with
      | JNull => Panic
      | JStr c => set_path t (p_path n) (tuple_json (hexToTupleColor (parseColor c)))
      | _ =>
          if is_object r && has r "r" && has r "g" && has r "b" then
            let part k := toUnitVector (to_number (maybe r k)) in
            set_path t (p_path n) (tuple_json (part "r", part "g", part "b")%string)
          else match r with JArr _ => set_path t (p_path n) r | _ => Done t end
      end
  | Point =>
      let put x y := t ← set_path t (p_path n ++ str ".0") x; set_path t (p_path n ++ str ".1") y in
      match r with
      | JNull => Panic
      | _ =>
          if is_object r && has r "x" && has r "y" then put (maybe r "x") (maybe r "y")
          else match r with JArr _ => put (maybe r "0") (maybe r "1") | _ => Done t end
      end
  | _ => set_path t (p_path n) r
  end.

(** [m(t, e, r)] *)
Fixpoint updateProperties (t : json) (e : list property) (r : json) : outcome json :=
  match e with [] => Done t | n :: e => t ← update_property t n r; updateProperties t e r end.

(** ** The player's colours *)

Definition is_color (n : property) : bool := bool_decide (p_type n = Color).
Definition is_stroke (n : property) : bool := bool_decide (p_name n = str "stroke") || bool_decide (p_name n = str "stroke-layers").

(** The getter [rawProperties] *)
Definition rawProperties (iconData : json) (has_states : bool) : outcome (list property) :=
  raw ← extractProperties true iconData;
  Done (if has_states then raw
        else List.filter (λ n, negb (existsb (λ k, bool_decide (p_name n = str k)) ["scale"; "axis"; "stroke"]%string) &&
                               negb (starts_with (str "state-") (p_name n))) raw).

(** A colour as a value: a member every object has is no text and changes nothing. *)
Definition colour_json (c : colour) : json := match c with Text t => JStr t | Builtin _ => JObj [] end.

Fixpoint update_colors (raw : list property) (lottie : json) (cs : list (jstr * colour)) : outcome json :=
  match cs with
  | [] => Done lottie
  | (e, c) :: cs =>
      lottie ← updateProperties lottie (List.filter (λ n, is_color n && bool_decide (p_name n = e)) raw) (colour_json c);
      update_colors raw lottie cs
  end.

(** The setter [colors] *)
Definition set_colors (raw : list property) (t : option (list (jstr * colour))) (lottie : json) : outcome json :=
  lottie ← resetProperties lottie (List.filter is_color raw);
  match t with None => Done lottie | Some cs => update_colors raw lottie cs end.

(** Reading one of the [colors]: the first property of that name that has a value. *)
Fixpoint get_color (raw : list property) (lottie : json) (name : jstr) : option jstr :=
  match raw with
  | [] => None
  | n :: raw =>
      if is_color n && bool_decide (name = p_name n) then
        let e := get_path lottie (p_path n) in
        if json_true e then Some (tupleColorToHex (tuple_of e)) else get_color raw lottie name
      else get_color raw lottie name
  end.

(** The setter [stroke], whose argument is the attribute, and its getter. *)
Definition set_stroke (raw : list property) (t : jstr) (lottie : json) : outcome json :=
  lottie ← resetProperties lottie (List.filter is_stroke raw);
  let e := JNum (parseStroke Number t) in
  if json_true e then updateProperties lottie (List.filter is_stroke raw) e else Done lottie.

Definition get_stroke (raw : list property) (lottie : json) : option float64 :=
  match List.filter is_stroke raw with
  | n :: _ => let x := to_number (get_path lottie (p_path n)) in if json_true (JNum x) then Some x else None
  | [] => None
  end.
End Update.
