(* ===== verification/IconColorProps.v ===== *)
(** * Colours of icons: what is set is what is drawn

    A colour goes through thousandths and back without change; the player's colours,
    once set, are read back as they were given, and the ones not given as the icon has
    them. *)

From Stdlib Require Import SpecFloat.
From S2P Require Import Prelude GoText GoFloat JsText BencodeProps Magnet MagnetProps IconColor.
#[local] Open Scope Z_scope.

(** ** Colours as text *)

Definition hex_text6 (t : jstr) : Prop := length t = 6%nat ∧ Forall (λ c, is_Some (hex_val c)) t.

Lemma hex_char c : is_Some (hex_val c) → ∃ x, digit_value c = x ∧ 0 <= x < 16 ∧ hex_digit x = lower_unit c ∧
  js_space c = false ∧ c ≠ 43 ∧ c ≠ 45 ∧ c ≠ 120 ∧ c ≠ 88.
Proof.
  intros [x Hx]. assert (Hc : 48 <= c <= 57 ∨ 97 <= c <= 102 ∨ 65 <= c <= 70).
  { revert Hx. unfold hex_val. repeat split_if; try done; lia. }
  exists (digit_value c). split; [done|].
  assert (Hall : forallb (λ c, let x := digit_value c in (0 <=? x) && (x <? 16) && (hex_digit x =? lower_unit c) && negb (js_space c))
    (Z.of_nat <$> (seq 48 10 ++ seq 97 6 ++ seq 65 6)) = true) by by vm_compute.
  rewrite forallb_forall in Hall. specialize (Hall c). cbv zeta in Hall.
  assert (Hin : In c (Z.of_nat <$> (seq 48 10 ++ seq 97 6 ++ seq 65 6))).
  { apply list_elem_of_In, list_elem_of_fmap. exists (Z.to_nat c). split; [lia|]. rewrite !elem_of_app, !elem_of_seq. lia. }
  apply Hall in Hin. reflect_bools. split_and!; (done || lia).
Qed.

(** Every byte survives. *)
Lemma byte_survives x : 0 <= x < 256 →
  componentToHex (fromUnitVector (toUnitVector (of_int x))) = [hex_digit (x / 16); hex_digit (x mod 16)].
Proof.
  intros Hx. assert (Hall : forallb (λ x, bool_decide (componentToHex (fromUnitVector (toUnitVector (of_int x))) = [hex_digit (x / 16); hex_digit (x mod 16)]))
    (Z.of_nat <$> seq 0 256) = true) by by vm_compute.
  rewrite forallb_forall in Hall. apply (bool_decide_eq_true_1 _). apply Hall.
  apply list_elem_of_In, list_elem_of_fmap. exists (Z.to_nat x). split; [lia|]. apply elem_of_seq. lia.
Qed.

Lemma low_byte x : Z.land 255 x = x mod 256.
Proof. rewrite Z.land_comm. change 255 with (Z.ones 8). by rewrite Z.land_ones. Qed.

Lemma parse_hex6 t : hex_text6 t → ∃ x1 x2 x3 x4 x5 x6,
  lower_unit <$> t = hex_digit <$> [x1; x2; x3; x4; x5; x6] ∧ ranged 16 [x1; x2; x3; x4; x5; x6] ∧
  rgb_of (35 :: t) = (16 * x1 + x2, 16 * x3 + x4, 16 * x5 + x6).
Proof.
  intros [Hl Ht]. destruct t as [|a [|c [|d [|e [|f [|k [|]]]]]]]; try done. clear Hl. rewrite !Forall_cons in Ht.
  destruct Ht as (H1&H2&H3&H4&H5&H6&_).
  apply hex_char in H1 as (x1&D1&R1&L1&S1&P1&M1&_), H2 as (x2&D2&R2&L2&_&_&_&X2&Y2), H3 as (x3&D3&R3&L3&_), H4 as (x4&D4&R4&L4&_),
    H5 as (x5&D5&R5&L5&_), H6 as (x6&D6&R6&L6&_).
  exists x1, x2, x3, x4, x5, x6. split; [cbn; by rewrite L1, L2, L3, L4, L5, L6|]. split; [by unfold ranged; repeat (apply Forall_cons_2; [done|])|].
  unfold rgb_of. cbn match. set (v := 16 * (16 * (16 * (16 * (16 * x1 + x2) + x3) + x4) + x5) + x6).
  assert (Hp : parseInt [a; c; d; e; f; k] 16 = Some (Int v)).
  { unfold parseInt. cbn [drop_spaces]. rewrite S1.
    assert (Ht : take_digits 16 [a; c; d; e; f; k] = [x1; x2; x3; x4; x5; x6]).
    { cbn [take_digits]. rewrite D1, D2, D3, D4, D5, D6. by rewrite !(proj2 (Z.ltb_lt _ 16)) by lia. }
    assert (Hv : js_round (1 * from_base 16 [x1; x2; x3; x4; x5; x6]) = Int v).
    { unfold from_base. cbn [foldl]. rewrite js_round_exact by (unfold two53; lia). f_equal. subst v. lia. }
    destruct (decide (a = 48)) as [->|Ha].
    - replace ((c =? 120) || (c =? 88)) with false by blia. cbn match. cbn [andb]. change (16 =? 0) with false. cbn match. by rewrite Ht, Hv.
    - assert (E : match [a; c; d; e; f; k] with 43 :: s => (false, s) | 45 :: s => (true, s) | _ => (false, [a; c; d; e; f; k]) end = (false, [a; c; d; e; f; k])).
      { destruct a as [|a|a]; try done; repeat (destruct a as [a|a|]; try done). }
      rewrite E. cbn iota beta.
      assert (E' : match [a; c; d; e; f; k] with
                   | 48 :: x :: s' => if ((x =? 120) || (x =? 88)) && ((16 =? 0) || (16 =? 16)) then (16, s') else (if 16 =? 0 then 10 else 16, [a; c; d; e; f; k])
                   | _ => (if 16 =? 0 then 10 else 16, [a; c; d; e; f; k]) end = (16, [a; c; d; e; f; k])).
      { destruct a as [|a|a]; try done; repeat (destruct a as [a|a|]; try done). }
      rewrite E'. cbn iota beta. by rewrite Ht, Hv. }
  rewrite Hp. cbn match. unfold to_int32. rewrite i32_id by lia.
  rewrite !(Z.land_comm _ 255), !low_byte, !Z.shiftr_div_pow2 by lia.
  change (2 ^ 16) with 65536. change (2 ^ 8) with 256.
  rewrite <- (Z.div_unique v 65536 (16 * x1 + x2) (16 * (16 * (16 * x3 + x4) + x5) + x6)) by lia.
  rewrite <- (Z.div_unique v 256 (16 * (16 * (16 * x1 + x2) + x3) + x4) (16 * x5 + x6)) by lia.
  rewrite (Z.mod_small (16 * x1 + x2)) by lia.
  rewrite <- (Z.mod_unique v 256 (16 * (16 * (16 * x1 + x2) + x3) + x4) (16 * x5 + x6)) by lia.
  by rewrite <- (Z.mod_unique _ 256 (16 * x1 + x2) (16 * x3 + x4)) by lia.
Qed.

Lemma two_digits x y : 0 <= x < 16 → 0 <= y < 16 →
  componentToHex (fromUnitVector (toUnitVector (of_int (16 * x + y)))) = [hex_digit x; hex_digit y].
Proof.
  intros Hx Hy. rewrite byte_survives by lia.
  by rewrite <- (Z.div_unique (16 * x + y) 16 x y), <- (Z.mod_unique (16 * x + y) 16 x y) by lia.
Qed.

(** A colour with six digits is drawn and read back with small letters. *)
Lemma hex6_roundtrip t : hex_text6 t → tupleColorToHex (hexToTupleColor (Text (35 :: t))) = 35 :: toLowerCase t.
Proof.
  intros Ht. destruct (parse_hex6 t Ht) as (x1&x2&x3&x4&x5&x6&Hl&Hr&Hp). unfold hexToTupleColor. rewrite Hp. cbn iota beta.
  unfold ranged in Hr. rewrite !Forall_cons in Hr. destruct Hr as (?&?&?&?&?&?&_).
  unfold tupleColorToHex. rewrite !two_digits by done. unfold toLowerCase. by rewrite Hl.
Qed.

(** How a colour the code understands is drawn: small letters, six digits. *)
Inductive drawn_as : jstr → jstr → Prop :=
| drawn_six t : hex_text6 t → drawn_as (35 :: t) (35 :: toLowerCase t)
| drawn_three a b c : Forall (λ x, is_Some (hex_val x)) [a; b; c] → drawn_as [35; a; b; c] (35 :: toLowerCase [a; a; b; b; c; c])
| drawn_named name n t : (n, t) ∈ namedColors → toLowerCase name = str n → drawn_as name (str t).

Lemma parseColor_name t : List.hd 0 t ≠ 35 → ∀ c, lookup_prop (toLowerCase t) ((λ kv, (str kv.1, str kv.2)) <$> namedColors) = Some c →
  parseColor t = Text c.
Proof.
  intros Ht c Hc. unfold parseColor. destruct t as [|x t]; [by rewrite Hc|]. simpl in Ht.
  destruct x as [|x|x]; try (by rewrite Hc); repeat (destruct x as [x|x|]; try (by rewrite Hc)). done.
Qed.

Lemma named_table n t : (n, t) ∈ namedColors →
  lookup_prop (str n) ((λ kv, (str kv.1, str kv.2)) <$> namedColors) = Some (str t) ∧ List.hd 0 (str n) ≠ 35 ∧
  (∃ x1 x2 x3 x4 x5 x6, str t = [35; x1; x2; x3; x4; x5; x6]) ∧ tupleColorToHex (hexToTupleColor (Text (str t))) = str t.
Proof.
  intros Hin. assert (Hall : forallb (λ kv, bool_decide (lookup_prop (str kv.1) ((λ kv, (str kv.1, str kv.2)) <$> namedColors) = Some (str kv.2)) &&
    negb (List.hd 0 (str kv.1) =? 35) && (match str kv.2 with [35; _; _; _; _; _; _] => true | _ => false end) && bool_decide (tupleColorToHex (hexToTupleColor (Text (str kv.2))) = str kv.2)) namedColors = true) by by vm_compute.
  rewrite forallb_forall in Hall. apply list_elem_of_In, Hall in Hin. cbn [fst snd] in Hin.
  apply andb_true_iff in Hin as [[[Hl Hh]%andb_true_iff Hs]%andb_true_iff Hd]. reflect_bools. apply bool_decide_eq_true in Hl, Hd.
  split; [done|]. split; [done|]. split; [|done]. clear Hl Hd. destruct (str t) as [|x l]; [done|].
  destruct x as [|x|x]; try done. repeat (destruct x as [x|x|]; try done).
  destruct l as [|? [|? [|? [|? [|? [|? [|]]]]]]]; try done. by do 6 eexists.
Qed.

Lemma drawn_as_drawn t c : drawn_as t c → ∃ p, parseColor t = Text p ∧ parseColor p = Text p ∧ tupleColorToHex (hexToTupleColor (Text p)) = c.
Proof.
  intros [t' Ht|x y z Hx|name n t' Hin Hn].
  - exists (35 :: t'). assert (parseColor (35 :: t') = Text (35 :: t')); [|by split; [|split; [|apply hex6_roundtrip]]].
    destruct Ht as [Hl _]. unfold parseColor. by destruct t' as [|x [|y [|z [|w t']]]].
  - exists [35; x; x; y; y; z; z]. split; [done|]. split; [done|]. rewrite hex6_roundtrip; [done|]. split; [done|].
    rewrite !Forall_cons in Hx. destruct Hx as (?&?&?&_). by repeat (apply Forall_cons_2; [done|]).
  - apply named_table in Hin as (Hl&Hh&Hs&Hd). exists (str t'). split; [|split; [|done]].
    2: { destruct Hs as (x1&x2&x3&x4&x5&x6&->). done. }
    apply parseColor_name; [|rewrite Hn; exact Hl].
    clear Hl Hd Hs. rewrite <- Hn in Hh. destruct name as [|x name]; [done|]. simpl in Hh |- *. by intros ->.
Qed.

(** A colour of six or three digits, in any case, or of one of the 141 names is drawn
    as its six digits in small letters: going through thousandths loses nothing. *)
Theorem color_roundtrip (t c : jstr) : drawn_as t c →
  ∃ p, parseColor t = Text p ∧ parseColor p = Text p ∧ tupleColorToHex (hexToTupleColor (Text p)) = c.
Proof. apply drawn_as_drawn. Qed.

Lemma color_roundtrip_witness :
  (∃ p, parseColor (str "#A0f") = Text p ∧ parseColor p = Text p ∧ tupleColorToHex (hexToTupleColor (Text p)) = str "#aa00ff") ∧
  (∃ p, parseColor (str "White") = Text p ∧ parseColor p = Text p ∧ tupleColorToHex (hexToTupleColor (Text p)) = str "#ffffff").
Proof.
  split; apply color_roundtrip.
  - apply (drawn_three 65 48 102). by repeat (apply Forall_cons_2; [by eexists|]).
  - apply (drawn_named _ "white" "#ffffff"); [|reflexivity]. apply (bool_decide_eq_true_1 (_ ∈ _)). by vm_compute.
Defined.

(** The table writes [indianred] with a space behind it, so the name is not known. *)
Lemma indianred_is_black : parseColor (str "indianred") = Text (str "#000000") ∧ parseColor (str "indianred ") = Text (str "#cd5c5c").
Proof. split; by vm_compute. Qed.

(** ** Values at paths *)

Fixpoint path_lookup (j : json) (p : list jstr) : option json :=
  match p with [] => Some j | k :: ks => match own_member j k with Some c => path_lookup c ks | None => None end end.

Lemma walk_lookup p j : walk j p JUndef = default JUndef (path_lookup j p).
Proof. revert j. induction p as [|k ks IH]; intros j; [by destruct j|]. simpl. by destruct (own_member j k). Qed.

Lemma array_index_inj k k' n : array_index k = Some n → array_index k' = Some n → k = k'.
Proof.
  unfold array_index. repeat split_if; try done. intros [= <-] [= E].
  repeat match goal with H : (_ && _) = true |- _ => apply andb_true_iff in H as [? ?] end.
  repeat match goal with H : bool_decide _ = true |- _ => apply bool_decide_eq_true in H end.
  assert (from_base 10 ((λ c, c - 48) <$> k') = from_base 10 ((λ c, c - 48) <$> k)) as Ez.
  { assert (∀ s, forallb is_digit s = true → 0 <= from_base 10 ((λ c, c - 48) <$> s)) as Hn by (intros; by apply from_base_digits_nonneg).
    pose proof (Hn k ltac:(done)). pose proof (Hn k' ltac:(done)). lia. }
  congruence.
Qed.

(** A member that is there can be set, and the others stay. *)
Lemma set_member_spec r k c v : own_member r k = Some c → k ≠ str "__proto__" →
  ∃ r', set_member r k v = Done r' ∧ own_member r' k = Some v ∧ ∀ k', k' ≠ k → own_member r' k' = own_member r k'.
Proof.
  intros Hc Hk. destruct r as [| | | | |l|d]; try done; cbn [own_member] in Hc.
  - destruct (array_index k) as [n|] eqn:En; [|done]. eexists. split; [cbn [set_member]; by rewrite En|].
    apply lookup_lt_Some in Hc. rewrite bool_decide_true by done. split.
    + cbn [own_member]. rewrite En. by apply list_lookup_insert_eq.
    + intros k' Hk'. cbn [own_member]. destruct (array_index k') as [m|] eqn:Em; [|done]. apply list_lookup_insert_ne.
      intros ->. by apply Hk', (array_index_inj _ _ m).
  - eexists. split; [done|]. cbn [own_member]. unfold set_prop. rewrite bool_decide_false by done. split; [apply lookup_replace_prop|].
    intros k' Hk'. by apply lookup_replace_prop_ne.
Qed.

Definition plain_path (p : list jstr) : Prop := Forall (λ k, k ≠ str "__proto__") p.

(** A value that is there can be replaced, and the values at other paths of the same
    length stay. *)
Lemma set_walk_spec p r v : p ≠ [] → plain_path p → is_Some (path_lookup r p) →
  ∃ r', set_walk r p v = Done r' ∧ path_lookup r' p = Some v ∧
    ∀ q, length q = length p → q ≠ p → path_lookup r' q = path_lookup r q.
Proof.
  intros Hp Hplain. revert r. induction Hplain as [|k ks Hk Hks IH]; [done|]. intros r [w Hw]. cbn [path_lookup] in Hw.
  destruct (own_member r k) as [c|] eqn:Ec; [|done]. destruct ks as [|k2 ks].
  - destruct (set_member_spec r k c v Ec Hk) as (r'&Er&Ev&Ho). exists r'. split; [done|]. cbn [path_lookup]. rewrite Ev. split; [done|].
    intros [|k' [|]] Hl Hne; try done. cbn [path_lookup]. rewrite Ho; [done|]. congruence.
  - destruct (IH ltac:(done) c (mk_is_Some _ _ Hw)) as (c'&Ec'&Ev&Ho).
    destruct (set_member_spec r k c c' Ec Hk) as (r'&Er&Em&Hm). exists r'.
    assert (Hobj : is_object r = true) by by destruct r.
    split; [|split].
    + change (set_walk r (k :: k2 :: ks) v) with (if is_object r then c ← set_walk (member r k) (k2 :: ks) v; set_member r k c else Panic).
      rewrite Hobj. unfold member. rewrite Ec. cbn [default from_option id]. rewrite Ec'. done.
    + cbn [path_lookup] in Ev |- *. by rewrite Em.
    + intros [|k' q] Hl Hne; [done|]. cbn [path_lookup] in *. destruct (decide (k' = k)) as [->|Hk'].
      * rewrite Em, Ec. apply Ho; [simpl in Hl |- *; lia|congruence].
      * by rewrite Hm.
Qed.

(** ** Writing many values *)

Notation parts n := (split_unit 46 n).

Fixpoint set_all (t : json) (ws : list (jstr * json)) : outcome json :=
  match ws with [] => Done t | w :: ws => t ← set_path t w.1 w.2; set_all t ws end.

(** The value written last to a path. *)
Fixpoint last_write (q : list jstr) (ws : list (jstr * json)) : option json :=
  match ws with
  | [] => None
  | w :: ws =>
      match last_write q ws with
      | Some v => Some v
      | None => if bool_decide (parts w.1 = q) then Some w.2 else None
      end
  end.

Lemma set_all_app t ws ws' : set_all t (ws ++ ws') = t ← set_all t ws; set_all t ws'.
Proof.
  revert t. induction ws as [|w ws IH]; intros t; [done|]. cbn [app set_all]. destruct (set_path t w.1 w.2); try done.
  cbn [mbind outcome_bind]. apply IH.
Qed.

Lemma last_write_app q ws ws' : last_write q (ws ++ ws') = match last_write q ws' with Some v => Some v | None => last_write q ws end.
Proof.
  induction ws as [|w ws IH]; cbn [app last_write]; [by destruct (last_write q ws')|]. rewrite IH.
  by destruct (last_write q ws').
Qed.

Lemma last_write_none q ws : q ∉ (λ w, parts w.1) <$> ws → last_write q ws = None.
Proof.
  induction ws as [|w ws IH]; [done|]. rewrite fmap_cons. intros [Hw Hq]%not_elem_of_cons. cbn [last_write].
  rewrite IH by done. by rewrite bool_decide_false.
Qed.

Lemma last_write_some q v ws : q ∈ (λ w, parts w.1) <$> ws → (∀ w, w ∈ ws → parts w.1 = q → w.2 = v) → last_write q ws = Some v.
Proof.
  intros Hq Hv. induction ws as [|w ws IH]; [by apply elem_of_nil in Hq|]. cbn [last_write].
  destruct (decide (q ∈ (λ w, parts w.1) <$> ws)) as [Hin|Hin].
  - rewrite IH; [done|done|]. intros w' Hw'. apply Hv. by right.
  - rewrite last_write_none by done. rewrite fmap_cons in Hq. apply elem_of_cons in Hq as [->|Hq]; [|done].
    rewrite bool_decide_true by done. f_equal. apply Hv; [by left|done].
Qed.

(** Paths of one length that are not written through [__proto__]. *)
Definition good_path (n : nat) (p : jstr) : Prop := length (parts p) = S n ∧ plain_path (parts p).

Lemma set_all_spec n ws t :
  Forall (λ w, good_path n w.1 ∧ is_Some (path_lookup t (parts w.1))) ws →
  ∃ t', set_all t ws = Done t' ∧
    ∀ q, length q = S n → path_lookup t' q = match last_write q ws with Some v => Some v | None => path_lookup t q end.
Proof.
  revert t. induction ws as [|[p v] ws IH]; intros t Hw; [by eexists|]. apply Forall_cons in Hw as [[[Hl Hp] Hs] Hw]. cbn [fst snd] in *.
  destruct (set_walk_spec (parts p) t v) as (t1&E1&Hv&Ho); [by intros E; rewrite E in Hl|done|done|].
  assert (Hlk : ∀ q, length q = S n → path_lookup t1 q = if bool_decide (parts p = q) then Some v else path_lookup t q).
  { intros q Hq. case_bool_decide; [by subst|]. apply Ho; [lia|done]. }
  destruct (IH t1) as (t'&E'&Ht').
  { eapply Forall_impl; [exact Hw|]. intros w [[Hwl Hwp] Hws]. split; [done|]. rewrite Hlk by done. by case_bool_decide. }
  exists t'. split; [cbn [set_all fst snd]; unfold set_path; by rewrite E1|]. intros q Hq. rewrite Ht', Hlk by done. cbn [last_write fst snd].
  destruct (last_write q ws); [done|]. by case_bool_decide.
Qed.

(** ** The paths of an icon's properties *)

Lemma for_each_at_keys {A B} (f : nat → json → outcome (list A)) (path : A → jstr) (key : B → nat) (img : B → jstr) (P : B → Prop) :
  (∀ k t a, f k t = Done a → ∃ xs, NoDup xs ∧ path <$> a = img <$> xs ∧ Forall (λ x, key x = k ∧ P x) xs) →
  ∀ l k a, for_each_at f k l = Done a → ∃ xs, NoDup xs ∧ path <$> a = img <$> xs ∧ Forall (λ x, (k ≤ key x)%nat ∧ P x) xs.
Proof.
  intros Hf l. induction l as [|t l IH]; intros k a Ha; cbn [for_each_at] in Ha.
  { injection Ha as <-. exists []. split_and!; [apply NoDup_nil_2|done|constructor]. }
  destruct (f k t) as [a1| |] eqn:E1; try done. cbn [mbind outcome_bind] in Ha.
  destruct (for_each_at f (S k) l) as [a2| |] eqn:E2; try done. cbn [mbind outcome_bind] in Ha. injection Ha as <-.
  destruct (Hf k t a1 E1) as (x1&N1&P1&K1). destruct (IH (S k) a2 E2) as (x2&N2&P2&K2). rewrite Forall_forall in K1, K2.
  exists (x1 ++ x2). split_and!.
  - apply NoDup_app. split_and!; [done| |done]. intros x H1 H2. apply K1 in H1 as [? _]. apply K2 in H2 as [? _]. lia.
  - by rewrite !fmap_app, P1, P2.
  - apply Forall_app. split; apply Forall_forall; intros x Hx; [apply K1 in Hx|apply K2 in Hx]; destruct Hx; split; (done || lia).
Qed.

Lemma effect_keys li r s t a : effect_property li r s t = Done a →
  ∃ xs, NoDup xs ∧ p_path <$> a = (λ x : nat * nat, join [46] (effect_path li x.1 x.2)) <$> xs ∧ Forall (λ x, x.2 = s ∧ x.1 = r) xs.
Proof.
  unfold effect_property. intros Ha.
  assert (a = [] ∨ ∃ nm v ty, a = [mkProperty nm (join [46] (effect_path li r s)) v ty]) as [->|(nm&v&ty&->)].
  { destruct (effect_value t); try (injection Ha as <-; by left).
    all: destruct (access t "mn") as [mn| |]; try done; cbn [mbind outcome_bind] in Ha; destruct (type_of mn) as [[ty|]| |]; try done;
      cbn [mbind outcome_bind] in Ha; [|injection Ha as <-; by left]; destruct (access t "nm") as [nm| |]; try done;
      cbn [mbind outcome_bind] in Ha; destruct nm; try done; injection Ha as <-; right; by do 3 eexists. }
  - exists []. split_and!; [apply NoDup_nil_2|done|constructor].
  - exists [(r, s)]. split_and!; [apply NoDup_singleton|done|by repeat constructor].
Qed.

Lemma extract_keys li t raw : extractProperties li t = Done raw →
  ∃ xs, NoDup xs ∧ p_path <$> raw = (λ x : nat * nat, join [46] (effect_path li x.1 x.2)) <$> xs.
Proof.
  unfold extractProperties. intros Ha. destruct (_ && _); [|injection Ha as <-; exists []; split; [apply NoDup_nil_2|done]].
  unfold for_each in Ha. destruct (maybe t "layers") as [| | | | |l|]; try done.
  destruct (for_each_at_keys (layer_properties li) p_path fst (λ x : nat * nat, join [46] (effect_path li x.1 x.2)) (λ _, True)) with (l := l) (k := 0%nat) (a := raw)
    as (xs&Hn&Hp&_); [|done|by exists xs].
  clear l Ha. intros r layer a Ha. unfold layer_properties in Ha.
  assert (He : ∀ a, Done [] = Done a → ∃ xs, NoDup xs ∧ p_path <$> a = (λ x : nat * nat, join [46] (effect_path li x.1 x.2)) <$> xs ∧
    Forall (λ x, x.1 = r ∧ True) xs).
  { intros ? [= <-]. exists []. split_and!; [apply NoDup_nil_2|done|constructor]. }
  destruct (access layer "nm") as [nm| |]; try done. cbn [mbind outcome_bind] in Ha. destruct (json_true nm); [|by apply He].
  destruct (access layer "ef") as [ef| |]; try done. cbn [mbind outcome_bind] in Ha. destruct (json_true ef); [|by apply He].
  unfold for_each in Ha. destruct ef as [| | | | |l|]; try done.
  destruct (for_each_at_keys (effect_property li r) p_path snd (λ x : nat * nat, join [46] (effect_path li x.1 x.2)) (λ x, x.1 = r)) with (l := l) (k := 0%nat) (a := a)
    as (xs&Hn&Hp&Hk); [intros s t0 a0; apply effect_keys|done|].
  exists xs. split_and!; [done|done|]. eapply Forall_impl; [exact Hk|]. by intros x [_ ?].
Qed.

Lemma nat_text_digits n : Forall (λ c, 48 <= c <= 57) (nat_text n).
Proof.
  destruct (FormatInt_digits (Z.of_nat n) ltac:(lia)) as (ds&E&Hr&_&_). unfold nat_text. rewrite E. apply Forall_fmap.
  eapply Forall_impl; [exact Hr|]. simpl. lia.
Qed.

Lemma nat_text_inj n m : nat_text n = nat_text m → n = m.
Proof.
  unfold nat_text. intros E. destruct (FormatInt_digits (Z.of_nat n) ltac:(lia)) as (ds&En&_&Vn&_), (FormatInt_digits (Z.of_nat m) ltac:(lia)) as (es&Em&_&Vm&_).
  rewrite En, Em in E. apply (list_fmap_eq_inj (λ d, 48 + d)) in E; [subst; lia|]. intros x y Hxy. simpl in Hxy. lia.
Qed.

Lemma nat_text_plain n : nat_text n ≠ str "__proto__".
Proof. intros E. pose proof (nat_text_digits n) as H. rewrite E in H. apply Forall_inv in H. change (48 <= 95 <= 57) in H. lia. Qed.

Lemma effect_parts li r s : parts (join [46] (effect_path li r s)) = effect_path li r s.
Proof.
  apply split_join; [by destruct li|]. assert (Hd : ∀ n, 46 ∉ nat_text n).
  { intros n Hin. pose proof (nat_text_digits n) as H. rewrite Forall_forall in H. apply H in Hin. lia. }
  unfold effect_path. destruct li; repeat (apply Forall_cons_2; [first [apply Hd|by apply (bool_decide_eq_true_1 (_ ∉ _))]|]); by apply Forall_nil_2.
Qed.

Definition path_length (li : bool) : nat := if li then 9 else 7.

Lemma effect_good li r s : good_path (path_length li) (join [46] (effect_path li r s)).
Proof.
  unfold good_path. rewrite effect_parts. split; [by destruct li|]. unfold effect_path, plain_path.
  destruct li; repeat (apply Forall_cons_2; [first [apply nat_text_plain|by apply (bool_decide_eq_true_1 (_ ≠ _))]|]); by apply Forall_nil_2.
Qed.

Lemma effect_path_inj li : Inj (=) (=) (λ x : nat * nat, effect_path li x.1 x.2).
Proof. intros [r s] [r' s'] E. cbn [fst snd] in E. unfold effect_path in E. destruct li; injection E as E1 E2; apply nat_text_inj in E1, E2; congruence. Qed.

(** The properties of an icon stand at distinct paths of one length. *)
Definition distinct_paths (n : nat) (raw : list property) : Prop :=
  NoDup ((λ p, parts (p_path p)) <$> raw) ∧ Forall (λ p, good_path n (p_path p)) raw.

Lemma extract_distinct li t raw : extractProperties li t = Done raw → distinct_paths (path_length li) raw.
Proof.
  intros (xs&Hn&Hp)%extract_keys. split.
  - rewrite (list_fmap_compose p_path (split_unit 46)), Hp, <- list_fmap_compose.
    rewrite (list_fmap_ext _ (λ x : nat * nat, effect_path li x.1 x.2)) by (intros; apply effect_parts).
    apply NoDup_fmap_2; [apply effect_path_inj|done].
  - apply Forall_forall. intros p Hin. apply (list_elem_of_fmap_2 p_path) in Hin. rewrite Hp in Hin.
    apply list_elem_of_fmap in Hin as (x&->&_). apply effect_good.
Qed.

Lemma distinct_filter n f raw : distinct_paths n raw → distinct_paths n (List.filter f raw).
Proof.
  intros [Hn Hg]. split.
  - eapply sublist_NoDup; [exact Hn|]. apply fmap_sublist, list_filter_sublist.
  - rewrite Forall_forall in *. intros p [_ Hp]%list_filter_elem. by apply Hg.
Qed.

Lemma distinct_path n raw p q : distinct_paths n raw → p ∈ raw → q ∈ raw → parts (p_path p) = parts (p_path q) → p = q.
Proof.
  intros [Hn _] Hp Hq E. apply list_elem_of_lookup in Hp as [i Hi], Hq as [j Hj].
  assert (i = j) as <-; [|congruence]. eapply NoDup_lookup; [exact Hn| |]; rewrite list_lookup_fmap; [by rewrite Hi|by rewrite Hj, E].
Qed.

(** ** The list of colours *)

Definition print_colors (given : list (jstr * jstr)) : jstr := join [44] ((λ ec, ec.1 ++ 58 :: ec.2) <$> given).

(** A name as properties have it. *)
Definition good_name (e : jstr) : bool :=
  negb (bool_decide (44 ∈ e)) && negb (bool_decide (58 ∈ e)) && bool_decide (toLowerCase e = e) && negb (bool_decide (e = str "__proto__")).

Definition given_ok (given : list (jstr * jstr)) : Prop :=
  NoDup given.*1 ∧ Forall (λ ec, good_name ec.1 = true ∧ ∃ d, drawn_as ec.2 d) given.

Lemma good_nameE e : good_name e = true → 44 ∉ e ∧ 58 ∉ e ∧ toLowerCase e = e ∧ e ≠ str "__proto__".
Proof.
  unfold good_name. intros H. repeat match goal with H : (_ && _) = true |- _ => apply andb_true_iff in H as [? ?] end.
  repeat match goal with H : negb (bool_decide _) = true |- _ => apply negb_true_iff, bool_decide_eq_false in H end.
  by match goal with H : bool_decide _ = true |- _ => apply bool_decide_eq_true in H end.
Qed.

Lemma hex_no_mark x t : Forall (λ c, is_Some (hex_val c)) t → hex_val x = None → x ∉ t.
Proof. intros Ht Hx Hin. rewrite Forall_forall in Ht. destruct (Ht _ Hin) as [y Hy]. congruence. Qed.

Lemma drawn_no_mark t d x : drawn_as t d → x = 44 ∨ x = 58 → x ∉ t.
Proof.
  intros Hd Hx. assert (Hv : hex_val x = None) by by destruct Hx as [->| ->].
  destruct Hd as [t' [_ Ht]|a b c Ht|name n t' Hin Hn].
  - apply not_elem_of_cons. split; [lia|by apply hex_no_mark].
  - apply not_elem_of_cons. split; [lia|by apply hex_no_mark].
  - assert (Hall : forallb (λ kv, negb (bool_decide (44 ∈ str kv.1)) && negb (bool_decide (58 ∈ str kv.1))) namedColors = true) by by vm_compute.
    rewrite forallb_forall in Hall. apply list_elem_of_In, Hall, andb_true_iff in Hin as [H1 H2]. cbn [fst] in *.
    apply negb_true_iff, bool_decide_eq_false in H1, H2. intros Hin.
    apply (list_elem_of_fmap_2 lower_unit) in Hin. change (lower_unit <$> name) with (toLowerCase name) in Hin. rewrite Hn in Hin.
    destruct Hx as [->| ->]; [by apply H1|by apply H2].
Qed.

Lemma parseColors_printed given : given ≠ [] → given_ok given →
  parseColors (Some (print_colors given)) = Some ((λ ec, (ec.1, parseColor ec.2)) <$> given).
Proof.
  intros Hne [Hnd Hg]. rewrite Forall_forall in Hg. set (items := (λ ec : jstr * jstr, ec.1 ++ 58 :: ec.2) <$> given).
  assert (Hs : split_unit 44 (print_colors given) = items).
  { apply split_join; [unfold items; by destruct given|]. apply Forall_fmap, Forall_forall. intros [e c] Hin.
    destruct (Hg _ Hin) as [He%good_nameE [d Hd]]. cbn [fst snd] in *.
    intros [Hx|[Hx|Hx]%elem_of_cons]%elem_of_app; [|lia|]; [destruct He as [He _]; exact (He Hx)|]. by apply (drawn_no_mark c d 44 Hd (or_introl eq_refl)). }
  assert (Hps : print_colors given ≠ []).
  { intros E. rewrite E in Hs. destruct given as [|[[|x e] c] given]; try done. }
  unfold parseColors. destruct (print_colors given) as [|x t] eqn:E; [done|]. rewrite Hs. clear Hs Hps E x t. f_equal.
  assert (Hf : filter (λ e : list jstr, length e = 2%nat) (split_unit 58 <$> filter (λ p : jstr, p ≠ []) items) = (λ ec : jstr * jstr, [ec.1; ec.2]) <$> given).
  { unfold items. clear Hnd Hne items. induction given as [|[e c] given IH]; [done|]. rewrite !fmap_cons. cbn [fst snd].
    rewrite filter_cons_True by by destruct e. rewrite fmap_cons. destruct (Hg (e, c)) as [He%good_nameE [d Hd]]; [by left|]. cbn [fst snd] in *.
    rewrite split_unit_app by by apply He. rewrite split_unit_none by (eapply drawn_no_mark; [exact Hd|by right]).
    rewrite filter_cons_True by done. f_equal. apply IH. intros x Hx. apply Hg. by right. }
  rewrite Hf. clear Hf items Hne.
  assert (Hfold : ∀ acc, NoDup (acc.*1 ++ given.*1) →
    foldl (λ c e, match e with [k; v] => set_prop (toLowerCase k) (parseColor v) c | _ => c end) acc ((λ ec : jstr * jstr, [ec.1; ec.2]) <$> given) =
    acc ++ ((λ ec, (ec.1, parseColor ec.2)) <$> given)).
  { induction given as [|[e c] given IH]; intros acc Ha; [by rewrite app_nil_r|]. change (((e, c) :: given).*1) with (e :: given.*1) in Ha.
    rewrite !fmap_cons. cbn [foldl fst snd].
    destruct (Hg (e, c)) as [He%good_nameE _]; [by left|]. cbn [fst] in He. destruct He as (_&_&Hlow&Hpro). rewrite Hlow.
    unfold set_prop. rewrite bool_decide_false by done. rewrite replace_prop_new.
    - rewrite IH; [by rewrite <- app_assoc|by inversion Hnd|intros; apply Hg; by right|]. rewrite fmap_app. by rewrite <- app_assoc.
    - apply NoDup_app in Ha as (_&Ha&_). intros Hin. apply (Ha _ Hin). by left. }
  by rewrite Hfold.
Qed.

(** ** Setting the colours *)

Section Colours.
Context (Number : jstr → float64).

Definition color_value (c : colour) : json := tuple_json (hexToTupleColor c).

Definition reset_writes (raw : list property) : list (jstr * json) := (λ n, (p_path n, p_value n)) <$> raw.

Definition named (e : jstr) (raw : list property) : list property := List.filter (λ n, is_color n && bool_decide (p_name n = e)) raw.

Definition color_writes (raw : list property) (cs : list (jstr * colour)) : list (jstr * json) :=
  concat ((λ ec, (λ n, (p_path n, color_value ec.2)) <$> named ec.1 raw) <$> cs).

Lemma reset_set_all raw t : resetProperties t raw = set_all t (reset_writes raw).
Proof.
  revert t. induction raw as [|n raw IH]; intros t; [done|]. cbn [resetProperties reset_writes fmap list_fmap set_all fst snd].
  destruct (set_path t (p_path n) (p_value n)); try done. apply IH.
Qed.

Lemma update_set_all raw t p : Forall (λ n, p_type n = Color) raw → parseColor p = Text p →
  updateProperties Number t raw (JStr p) = set_all t ((λ n, (p_path n, color_value (Text p))) <$> raw).
Proof.
  intros Hc Hp. revert t. induction Hc as [|n raw Hn Hc IH]; intros t; [done|]. cbn [updateProperties fmap list_fmap set_all fst snd].
  unfold update_property. rewrite Hn, Hp. unfold color_value. destruct (set_path t (p_path n) _); try done. apply IH.
Qed.

Definition settled (c : colour) : Prop := ∃ p, c = Text p ∧ parseColor p = Text p.

Lemma update_colors_writes raw t cs : Forall (λ ec, settled ec.2) cs → update_colors Number raw t cs = set_all t (color_writes raw cs).
Proof.
  intros Hc. revert t. induction Hc as [|[e c] cs (p&Ec&Hp) _ IH]; intros t; [done|]. cbn [snd] in Ec. subst c. unfold color_writes in *. cbn [update_colors fmap list_fmap concat fst snd colour_json].
  rewrite set_all_app. change (List.filter _ raw) with (named e raw). rewrite update_set_all; [|apply Forall_forall|done].
  - destruct (set_all t _); try done. apply IH.
  - intros n Hn. unfold named in Hn. apply list_filter_elem in Hn as [Hn _]. apply andb_true_iff in Hn as [Hn _].
    by apply bool_decide_eq_true in Hn.
Qed.

Lemma set_colors_writes raw t cs : Forall (λ ec, settled ec.2) cs →
  set_colors Number raw (Some cs) t = set_all t (reset_writes (List.filter is_color raw) ++ color_writes raw cs).
Proof.
  intros Hc. unfold set_colors. rewrite reset_set_all, set_all_app. destruct (set_all t _); try done. by apply update_colors_writes.
Qed.

Lemma color_writes_elem raw cs w : w ∈ color_writes raw cs → ∃ e c n, (e, c) ∈ cs ∧ n ∈ raw ∧ is_color n = true ∧ p_name n = e ∧ w = (p_path n, color_value c).
Proof.
  unfold color_writes. intros (l&Hw&Hl)%elem_of_concat. apply list_elem_of_fmap in Hl as ([e c]&->&Hec). cbn [fst snd] in Hw.
  apply list_elem_of_fmap in Hw as (n&->&Hn). unfold named in Hn. apply list_filter_elem in Hn as [[Hc Hn]%andb_true_iff Hin].
  apply bool_decide_eq_true in Hn. by exists e, c, n.
Qed.

(** The value of a colour after the writes. *)
Lemma color_written N raw cs n : distinct_paths N raw → NoDup cs.*1 → n ∈ raw → is_color n = true →
  last_write (parts (p_path n)) (reset_writes (List.filter is_color raw) ++ color_writes raw cs) =
  Some (match lookup_prop (p_name n) cs with Some c => color_value c | None => p_value n end).
Proof.
  intros Hd Hcs Hn Hcol. rewrite last_write_app. destruct (lookup_prop (p_name n) cs) as [c|] eqn:El.
  - assert (Hec : (p_name n, c) ∈ cs).
    { clear -El. induction cs as [|[e c'] cs IH]; [done|]. cbn [lookup_prop] in El. case_bool_decide; [injection El as ->; subst e; by left|right; by apply IH]. }
    erewrite last_write_some; [done| |].
    + apply list_elem_of_fmap. exists (p_path n, color_value c). split; [done|]. unfold color_writes. apply elem_of_concat.
      eexists. split; [|apply list_elem_of_fmap; exists (p_name n, c); split; [done|done]]. cbn [fst snd].
      apply list_elem_of_fmap. exists n. split; [done|]. apply list_filter_elem. rewrite Hcol, bool_decide_true by done. done.
    + intros w (e&c'&m&Hin&Hm&_&Hname&->)%color_writes_elem E. cbn [fst snd] in *. assert (m = n) as -> by by eapply distinct_path.
      subst e. f_equal. apply list_elem_of_lookup in Hec as [i Hi], Hin as [j Hj].
      assert (i = j) as <-; [|congruence]. eapply NoDup_lookup; [exact Hcs| |]; rewrite list_lookup_fmap; [by rewrite Hi|by rewrite Hj].
  - rewrite last_write_none.
    + apply last_write_some.
      * apply list_elem_of_fmap. exists (p_path n, p_value n). split; [done|]. apply list_elem_of_fmap. exists n. split; [done|].
        by apply list_filter_elem.
      * intros w (m&->&[Hm Hmr]%list_filter_elem)%list_elem_of_fmap E. cbn [fst snd] in *. by assert (m = n) as -> by by eapply distinct_path.
    + intros (w&Hw&(e&c'&m&Hin&Hm&_&Hname&->)%color_writes_elem)%list_elem_of_fmap. cbn [fst] in Hw.
      assert (m = n) as -> by (by eapply distinct_path). subst e. clear -El Hin. induction cs as [|[e c] cs IH]; [by apply elem_of_nil in Hin|].
      cbn [lookup_prop] in El. case_bool_decide; [done|]. apply elem_of_cons in Hin as [[= <- <-]|Hin]; [done|by apply IH].
Qed.

(** The colour an icon has of itself. *)
Fixpoint original_color (raw : list property) (name : jstr) : option jstr :=
  match raw with
  | [] => None
  | n :: raw =>
      if is_color n && bool_decide (name = p_name n) && json_true (p_value n)
      then Some (tupleColorToHex (tuple_of Number (p_value n))) else original_color raw name
  end.

Definition parsed_colors (given : list (jstr * jstr)) : list (jstr * colour) := (λ ec, (ec.1, parseColor ec.2)) <$> given.

Lemma given_writes raw t given : given_ok given →
  set_colors Number raw (parseColors (Some (print_colors given))) t = set_all t (reset_writes (List.filter is_color raw) ++ color_writes raw (parsed_colors given)).
Proof.
  intros Hg. destruct (decide (given = [])) as [->|Hne].
  - change (set_colors Number raw _ t) with (lottie ← resetProperties t (List.filter is_color raw); Done lottie).
    rewrite reset_set_all. change (color_writes raw (parsed_colors [])) with (@nil (jstr * json)). rewrite app_nil_r. by destruct (set_all _ _).
  - rewrite parseColors_printed by done. apply set_colors_writes. destruct Hg as [_ Hg]. apply Forall_fmap.
    eapply Forall_impl; [exact Hg|]. intros [e c] (_&d&Hd). cbn. destruct (drawn_as_drawn _ _ Hd) as (p&E&Ep&_). by exists p.
Qed.

Lemma lookup_parsed e c given : NoDup given.*1 → (e, c) ∈ given → lookup_prop e (parsed_colors given) = Some (parseColor c).
Proof.
  induction given as [|[e' c'] given IH]; intros Hn Hin; [by apply elem_of_nil in Hin|]. cbn. change (((e', c') :: given).*1) with (e' :: given.*1) in Hn.
  apply NoDup_cons in Hn as [Hx Hn]. apply elem_of_cons in Hin as [[= <- <-]|Hin]; [by rewrite bool_decide_true|].
  rewrite bool_decide_false; [by apply IH|]. intros ->. apply Hx, list_elem_of_fmap. by exists (e, c).
Qed.

Lemma lookup_parsed_none e given : e ∉ given.*1 → lookup_prop e (parsed_colors given) = None.
Proof.
  induction given as [|[e' c'] given IH]; [done|]. change (((e', c') :: given).*1) with (e' :: given.*1).
  intros [Hx Hn]%not_elem_of_cons. cbn. rewrite bool_decide_false by done. by apply IH.
Qed.

Lemma tuple_of_json x : tuple_of Number (tuple_json x) = x.
Proof. by destruct x as [[x y] z]. Qed.

(** What is read where every colour has the value it was given, or its own. *)
Definition values_of (given : list (jstr * jstr)) (t : json) (l : list property) : Prop :=
  ∀ n, n ∈ l → is_color n = true →
    get_path t (p_path n) = match lookup_prop (p_name n) (parsed_colors given) with Some c => color_value c | None => p_value n end.

Lemma get_color_given given t e c d l : values_of given t l → NoDup given.*1 → (e, c) ∈ given → drawn_as c d → named e l ≠ [] →
  get_color Number l t e = Some d.
Proof.
  intros Hv Hnd Hec Hdr. destruct (drawn_as_drawn _ _ Hdr) as (p&Ep&_&Hp).
  induction l as [|n l IH]; [done|]. assert (Hv' : values_of given t l) by (intros m Hm; apply Hv; by right).
  cbn [get_color]. unfold named. cbn [List.filter]. destruct (is_color n) eqn:Hc; cbn [andb]; [|by apply IH].
  destruct (decide (p_name n = e)) as [Hn|Hn].
  - intros _. rewrite bool_decide_true by done. cbv zeta. rewrite !(Hv n) by (done || by left). rewrite Hn, (lookup_parsed e c), Ep by done.
    change (json_true (color_value (Text p))) with (json_true (tuple_json (hexToTupleColor (Text p)))).
    unfold color_value. rewrite tuple_of_json, Hp. by destruct (hexToTupleColor (Text p)) as [[? ?] ?].
  - rewrite (bool_decide_false (p_name n = e)), bool_decide_false by done. by apply IH.
Qed.

Lemma get_color_rest given t e l : values_of given t l → e ∉ given.*1 → get_color Number l t e = original_color l e.
Proof.
  intros Hv He. induction l as [|n l IH]; [done|]. assert (Hv' : values_of given t l) by (intros m Hm; apply Hv; by right).
  cbn [get_color original_color]. destruct (is_color n) eqn:Hc; cbn [andb]; [|by apply IH].
  case_bool_decide as Hn; cbn [andb]; [|by apply IH]. cbv zeta. rewrite !(Hv n) by (done || by left).
  rewrite <- Hn, lookup_parsed_none by done. destruct (json_true (p_value n)); [done|by apply IH].
Qed.

(** The colours of an icon, once set from the text of its attribute, are read back as
    they are drawn; colours not given are the icon's own; nothing else changes. *)
Theorem colors_drawn (doc lottie : json) (states : bool) (raw : list property) (given : list (jstr * jstr)) :
  rawProperties doc states = Done raw →
  Forall (λ n, is_color n = true → is_Some (path_lookup lottie (parts (p_path n)))) raw →
  given_ok given →
  ∃ lottie', set_colors Number raw (parseColors (Some (print_colors given))) lottie = Done lottie' ∧
    (∀ e c d, (e, c) ∈ given → drawn_as c d → named e raw ≠ [] → get_color Number raw lottie' e = Some d) ∧
    (∀ e, e ∉ given.*1 → get_color Number raw lottie' e = original_color raw e) ∧
    (∀ q, length q = 10%nat → q ∉ (λ n, parts (p_path n)) <$> List.filter is_color raw → path_lookup lottie' q = path_lookup lottie q).
Proof.
  intros Hraw Hpaths Hg. assert (Hd : distinct_paths 9 raw).
  { unfold rawProperties in Hraw. destruct (extractProperties true doc) as [all| |] eqn:E; try done. apply extract_distinct in E.
    cbn [mbind outcome_bind] in Hraw. injection Hraw as <-. destruct states; [done|by apply distinct_filter]. }
  rewrite given_writes by done. set (ws := _ ++ _).
  assert (Hws : ∀ w, w ∈ ws → ∃ n, n ∈ raw ∧ is_color n = true ∧ w.1 = p_path n).
  { intros w [(n&->&[Hc Hn]%list_filter_elem)%list_elem_of_fmap|(e&c&n&_&Hn&Hc&_&->)%color_writes_elem]%elem_of_app; by exists n. }
  destruct (set_all_spec 9 ws lottie) as (t'&E&Ht').
  { apply Forall_forall. intros w (n&Hn&Hc&->)%Hws. destruct Hd as [_ Hgood]. rewrite Forall_forall in Hgood, Hpaths. split; [by apply Hgood|by apply Hpaths]. }
  exists t'. split; [done|]. destruct Hg as [Hnd Hg].
  assert (Hval : values_of given t' raw).
  { intros n Hn Hc. unfold get_path. rewrite walk_lookup, Ht'.
    - unfold ws. rewrite (color_written 9); [done|done| |done|done]. unfold parsed_colors. by rewrite <- list_fmap_compose.
    - destruct Hd as [_ Hgood]. rewrite Forall_forall in Hgood. by destruct (Hgood n Hn). }
  split_and!; [intros; by eapply get_color_given|intros; by eapply get_color_rest|].
  intros q Hq Hnot. rewrite Ht' by done. rewrite last_write_none; [done|]. intros (w&->&(n&Hn&Hc&Hw)%Hws)%list_elem_of_fmap.
  apply Hnot, list_elem_of_fmap. exists n. rewrite Hw. split; [done|by apply list_filter_elem].
Qed.
End Colours.

(** ** A concrete icon *)

Definition no_Number (s : jstr) : float64 := S754_nan.

Definition effect (nm : string) (mn : string) (k : json) : json :=
  JObj [(str "nm", JStr (str nm)); (str "mn", JStr (str mn)); (str "ef", JArr [JObj [(str "v", JObj [(str "k", k)])]])].

Definition rgb (x y z : Z) : json := tuple_json (toUnitVector (of_int x), toUnitVector (of_int y), toUnitVector (of_int z)).

Definition sample_icon : json :=
  JObj [(str "layers", JArr [JObj [(str "nm", JStr (str "bg"))];
    JObj [(str "nm", JStr (str "control")); (str "ef", JArr [
      effect "Primary" "ADBE Color Control" (rgb 18 19 49); effect "Stroke" "ADBE Slider Control" (JNum (of_int 50));
      effect "Secondary" "ADBE Color Control" (rgb 8 168 138)])]])].

(** What the player's library makes of it, where it matters. *)
Definition live_value (v : json) : json := JObj [(str "effectElements", JArr [JObj [(str "p", JObj [(str "v", v)])]])].
Definition sample_lottie : json :=
  JObj [(str "renderer", JObj [(str "elements", JArr [JNull;
    JObj [(str "effectsManager", JObj [(str "effectElements", JArr [live_value (rgb 18 19 49); live_value (JNum (of_int 50)); live_value (rgb 8 168 138)])])]])])].

Definition sample_raw : list property :=
  default [] (match rawProperties sample_icon false with Done raw => Some raw | _ => None end).

Lemma colors_drawn_witness : ∃ lottie',
  set_colors no_Number sample_raw (parseColors (Some (str "primary:White"))) sample_lottie = Done lottie' ∧
  get_color no_Number sample_raw lottie' (str "primary") = Some (str "#ffffff") ∧
  get_color no_Number sample_raw lottie' (str "secondary") = Some (str "#08a88a").
Proof.
  destruct (colors_drawn no_Number sample_icon sample_lottie false sample_raw [(str "primary", str "White")]) as (t'&E&H1&H2&_).
  - by vm_compute.
  - apply Forall_forall. intros n Hn _. revert n Hn. apply Forall_forall. repeat (apply Forall_cons_2; [by eexists|]). by apply Forall_nil_2.
  - split; [by apply NoDup_singleton|]. apply Forall_singleton. split; [by vm_compute|]. exists (str "#ffffff").
    apply (drawn_named _ "white" "#ffffff"); [|reflexivity]. apply (bool_decide_eq_true_1 (_ ∈ _)). by vm_compute.
  - exists t'. split; [exact E|]. split.
    + apply (H1 _ (str "White")); [by left| |by vm_compute]. apply (drawn_named _ "white" "#ffffff"); [|reflexivity].
      apply (bool_decide_eq_true_1 (_ ∈ _)). by vm_compute.
    + rewrite H2; [by vm_compute|]. by apply (bool_decide_eq_true_1 (_ ∉ _)).
Defined.
