(* ===== verification/IconElement.v ===== *)
(** * The animation element: loading, players and triggers ([lord-icon-2.0.2.js])

    [<lord-icon>] loads a document, makes a player for it and hands it to a trigger, an
    object that starts the player on the events of a node.  Loading is asynchronous:
    [createPlayer] waits for the document and then for the player, and attributes may
    change and the element leave the page meanwhile.  The world is the element with the
    players and triggers it ever made, the listeners on nodes, and what is still under
    way; an [input] is one turn of the event loop.

    [Panic] is a [TypeError]: a command to a player whose animation is gone.  The trigger
    named [sequence] is modelled in [IconSequence]; here the attribute does not name it.
    Frames, colours and the styles of the container are left out. *)

From S2P Require Import Prelude GoText JsText.
#[local] Open Scope Z_scope.

Notation node := nat (only parsing).

(** ** Players *)

(** The animation of a player: whether it is paused, and where it runs. *)
Record player := mkPlayer { pl_data : Z; pl_connected : bool; pl_ready : bool; pl_paused : bool; pl_direction : Z; pl_lottie_direction : Z }.

(** [new Player(...)] after [connect()]: an animation that does not play yet. *)
Definition newPlayer (data : Z) (isLoaded : bool) : player := mkPlayer data true isLoaded true 1 1.

Definition set_paused (b : bool) (p : player) : player :=
  mkPlayer (pl_data p) (pl_connected p) (pl_ready p) b (pl_direction p) (pl_lottie_direction p).
Definition set_direction (d : Z) (p : player) : player :=
  mkPlayer (pl_data p) (pl_connected p) (pl_ready p) (pl_paused p) d d.
Definition set_ready (p : player) : player :=
  mkPlayer (pl_data p) (pl_connected p) true (pl_paused p) (pl_direction p) (pl_lottie_direction p).

(** [play()]; [playFromBeginning()]; [pause()]; [disconnect()] *)
Definition pl_play (p : player) : player :=
  mkPlayer (pl_data p) (pl_connected p) (pl_ready p) false (pl_direction p) (pl_direction p).
Definition pl_playFromBeginning (p : player) : player :=
  mkPlayer (pl_data p) (pl_connected p) (pl_ready p) false (pl_direction p) 1.
Definition pl_disconnect (p : player) : player :=
  mkPlayer (pl_data p) false false (pl_paused p) (pl_direction p) (pl_lottie_direction p).

(** ** Triggers *)

Inductive kind := In | Click | Hover | Loop | LoopOnHover | Morph | Boomerang.
Inductive event := mouseenter | mouseleave | mousedown | touchstart | click.

#[export] Instance kind_eq_dec : EqDecision kind.
Proof. solve_decision. Defined.
#[export] Instance event_eq_dec : EqDecision event.
Proof. solve_decision. Defined.

(** [defineTrigger] *)
Definition definedTriggers : list (string * kind) :=
  [("in", In); ("click", Click); ("hover", Hover); ("loop", Loop); ("loop-on-hover", LoopOnHover); ("morph", Morph);
   ("boomerang", Boomerang); ("morph-two-way", Boomerang)]%string.

Record trigger := mkTrigger {
  tg_kind : kind; tg_player : nat; tg_target : node;
  tg_timer : option nat;   (* playTimeout *)
  tg_mouseIn : bool; tg_played : bool; tg_observing : bool }.

Definition set_timer (o : option nat) (t : trigger) : trigger :=
  mkTrigger (tg_kind t) (tg_player t) (tg_target t) o (tg_mouseIn t) (tg_played t) (tg_observing t).
Definition set_mouseIn (b : bool) (t : trigger) : trigger :=
  mkTrigger (tg_kind t) (tg_player t) (tg_target t) (tg_timer t) b (tg_played t) (tg_observing t).
Definition set_played (b : bool) (t : trigger) : trigger :=
  mkTrigger (tg_kind t) (tg_player t) (tg_target t) (tg_timer t) (tg_mouseIn t) b (tg_observing t).
Definition set_observing (b : bool) (t : trigger) : trigger :=
  mkTrigger (tg_kind t) (tg_player t) (tg_target t) (tg_timer t) (tg_mouseIn t) (tg_played t) b.

(** The events an instance listens to while it is connected. *)
Definition kind_events (k : kind) : list event :=
  match k with
  | In | Loop => []
  | Click => [mousedown; touchstart]
  | Hover | Boomerang => [mouseenter]
  | LoopOnHover | Morph => [mouseenter; mouseleave]
  end.

(** ** The world *)

(** Who listens: a trigger, or the loader that waits for an interaction. *)
Inductive owner := OTrigger (id : nat) | OLoader (id : nat).
Record listener := mkListener { ls_node : node; ls_event : event; ls_owner : owner }.

#[export] Instance owner_eq_dec : EqDecision owner.
Proof. solve_decision. Defined.
#[export] Instance listener_eq_dec : EqDecision listener.
Proof. solve_decision. Defined.

(** [delayedLoading], with what its closure holds. *)
Inductive delayed := DLazy | DInteraction (loader : nat) (target : node) | DDelay.

(** A call of [createPlayer] that waits for its document: assigned to the element, or of
    an address; with the event to send again afterwards. *)
Inductive source := Assigned (data : Z) | Fetch (url : jstr) | NoSource.
Record job := mkJob { jb_source : source; jb_event : option (node * event) }.

(** A call of [createPlayer] that waits for its player, and whether it may go on. *)
Record waiting := mkWaiting { wt_player : nat; wt_event : option (node * event); wt_resolved : bool }.

(** The element's own fields and attributes. *)
Record element := mkElement {
  el_assigned : option Z; el_loaded : option Z; el_src : option jstr; el_trigger : option jstr;
  el_loading : option jstr; el_delay : bool;   (* a delay above 0 *)
  el_target : node;                            (* where the attribute [target] leads *)
  el_connected : bool; el_isReady : bool; el_class_ready : bool;
  el_delayed : option delayed; el_player : option nat; el_instance : option nat }.

Record world := mkWorld {
  w_el : element;
  w_players : gmap nat player; w_triggers : gmap nat trigger;
  w_listeners : list listener;
  w_timers : list (nat * nat);                 (* pending timeouts: timer, trigger *)
  w_delays : nat;                              (* pending timeouts of delayed loading *)
  w_jobs : list job; w_waiting : list waiting;
  w_next : nat }.                              (* a number not used so far *)

(** Assignments to the fields. *)
Definition put_assigned (v : option Z) (e : element) : element :=
  mkElement v (el_loaded e) (el_src e) (el_trigger e) (el_loading e) (el_delay e) (el_target e) (el_connected e) (el_isReady e) (el_class_ready e) (el_delayed e) (el_player e) (el_instance e).
Definition put_loaded (v : option Z) (e : element) : element :=
  mkElement (el_assigned e) v (el_src e) (el_trigger e) (el_loading e) (el_delay e) (el_target e) (el_connected e) (el_isReady e) (el_class_ready e) (el_delayed e) (el_player e) (el_instance e).
Definition put_src (v : option jstr) (e : element) : element :=
  mkElement (el_assigned e) (el_loaded e) v (el_trigger e) (el_loading e) (el_delay e) (el_target e) (el_connected e) (el_isReady e) (el_class_ready e) (el_delayed e) (el_player e) (el_instance e).
Definition put_trigger (v : option jstr) (e : element) : element :=
  mkElement (el_assigned e) (el_loaded e) (el_src e) v (el_loading e) (el_delay e) (el_target e) (el_connected e) (el_isReady e) (el_class_ready e) (el_delayed e) (el_player e) (el_instance e).
Definition put_loading (v : option jstr) (e : element) : element :=
  mkElement (el_assigned e) (el_loaded e) (el_src e) (el_trigger e) v (el_delay e) (el_target e) (el_connected e) (el_isReady e) (el_class_ready e) (el_delayed e) (el_player e) (el_instance e).
Definition put_delay (v : bool) (e : element) : element :=
  mkElement (el_assigned e) (el_loaded e) (el_src e) (el_trigger e) (el_loading e) v (el_target e) (el_connected e) (el_isReady e) (el_class_ready e) (el_delayed e) (el_player e) (el_instance e).
Definition put_target (v : nat) (e : element) : element :=
  mkElement (el_assigned e) (el_loaded e) (el_src e) (el_trigger e) (el_loading e) (el_delay e) v (el_connected e) (el_isReady e) (el_class_ready e) (el_delayed e) (el_player e) (el_instance e).
Definition put_connected (v : bool) (e : element) : element :=
  mkElement (el_assigned e) (el_loaded e) (el_src e) (el_trigger e) (el_loading e) (el_delay e) (el_target e) v (el_isReady e) (el_class_ready e) (el_delayed e) (el_player e) (el_instance e).
Definition put_isReady (v : bool) (e : element) : element :=
  mkElement (el_assigned e) (el_loaded e) (el_src e) (el_trigger e) (el_loading e) (el_delay e) (el_target e) (el_connected e) v (el_class_ready e) (el_delayed e) (el_player e) (el_instance e).
Definition put_class_ready (v : bool) (e : element) : element :=
  mkElement (el_assigned e) (el_loaded e) (el_src e) (el_trigger e) (el_loading e) (el_delay e) (el_target e) (el_connected e) (el_isReady e) v (el_delayed e) (el_player e) (el_instance e).
Definition put_delayed (v : option delayed) (e : element) : element :=
  mkElement (el_assigned e) (el_loaded e) (el_src e) (el_trigger e) (el_loading e) (el_delay e) (el_target e) (el_connected e) (el_isReady e) (el_class_ready e) v (el_player e) (el_instance e).
Definition put_player (v : option nat) (e : element) : element :=
  mkElement (el_assigned e) (el_loaded e) (el_src e) (el_trigger e) (el_loading e) (el_delay e) (el_target e) (el_connected e) (el_isReady e) (el_class_ready e) (el_delayed e) v (el_instance e).
Definition put_instance (v : option nat) (e : element) : element :=
  mkElement (el_assigned e) (el_loaded e) (el_src e) (el_trigger e) (el_loading e) (el_delay e) (el_target e) (el_connected e) (el_isReady e) (el_class_ready e) (el_delayed e) (el_player e) v.

Definition on_el (f : element → element) (w : world) : world :=
  mkWorld (f (w_el w)) (w_players w) (w_triggers w) (w_listeners w) (w_timers w) (w_delays w) (w_jobs w) (w_waiting w) (w_next w).
Definition on_players (f : gmap nat player → gmap nat player) (w : world) : world :=
  mkWorld (w_el w) (f (w_players w)) (w_triggers w) (w_listeners w) (w_timers w) (w_delays w) (w_jobs w) (w_waiting w) (w_next w).
Definition on_triggers (f : gmap nat trigger → gmap nat trigger) (w : world) : world :=
  mkWorld (w_el w) (w_players w) (f (w_triggers w)) (w_listeners w) (w_timers w) (w_delays w) (w_jobs w) (w_waiting w) (w_next w).
Definition on_listeners (f : list listener → list listener) (w : world) : world :=
  mkWorld (w_el w) (w_players w) (w_triggers w) (f (w_listeners w)) (w_timers w) (w_delays w) (w_jobs w) (w_waiting w) (w_next w).
Definition on_timers (f : list (nat * nat) → list (nat * nat)) (w : world) : world :=
  mkWorld (w_el w) (w_players w) (w_triggers w) (w_listeners w) (f (w_timers w)) (w_delays w) (w_jobs w) (w_waiting w) (w_next w).
Definition on_delays (f : nat → nat) (w : world) : world :=
  mkWorld (w_el w) (w_players w) (w_triggers w) (w_listeners w) (w_timers w) (f (w_delays w)) (w_jobs w) (w_waiting w) (w_next w).
Definition on_jobs (f : list job → list job) (w : world) : world :=
  mkWorld (w_el w) (w_players w) (w_triggers w) (w_listeners w) (w_timers w) (w_delays w) (f (w_jobs w)) (w_waiting w) (w_next w).
Definition on_waiting (f : list waiting → list waiting) (w : world) : world :=
  mkWorld (w_el w) (w_players w) (w_triggers w) (w_listeners w) (w_timers w) (w_delays w) (w_jobs w) (f (w_waiting w)) (w_next w).
Definition on_next (f : nat → nat) (w : world) : world :=
  mkWorld (w_el w) (w_players w) (w_triggers w) (w_listeners w) (w_timers w) (w_delays w) (w_jobs w) (w_waiting w) (f (w_next w)).

Definition fresh (w : world) : nat * world := (w_next w, on_next S w).

(** ** Commands to a player *)

(** What needs the animation of a player, and throws without one. *)
Definition command (pid : nat) (f : player → player) (w : world) : outcome world :=
  match w_players w !! pid with
  | Some p => if pl_connected p then Done (on_players <[pid := f p]> w) else Panic
  | None => Panic
  end.

Definition isPlaying (pid : nat) (w : world) : outcome bool :=
  match w_players w !! pid with
  | Some p => if pl_connected p then Done (negb (pl_paused p)) else Panic
  | None => Panic
  end.

(** ** What triggers do *)

Definition on_trigger (id : nat) (f : trigger → trigger) (w : world) : world := on_triggers (alter f id) w.

(** [addEventListener] adds a listener once; [removeEventListener]. *)
Definition addEventListener (l : listener) (w : world) : world :=
  on_listeners (λ ls, if bool_decide (l ∈ ls) then ls else ls ++ [l]) w.
Definition removeEventListener (l : listener) (w : world) : world := on_listeners (List.filter (λ x, negb (bool_decide (x = l)))) w.

Definition add_listeners (n : node) (o : owner) (es : list event) (w : world) : world :=
  foldl (λ w e, addEventListener (mkListener n e o) w) w es.
Definition remove_listeners (n : node) (o : owner) (es : list event) (w : world) : world :=
  foldl (λ w e, removeEventListener (mkListener n e o) w) w es.

Definition clearTimeout (tid : nat) (w : world) : world := on_timers (List.filter (λ x, negb (Nat.eqb x.1 tid))) w.

(** [resetPlayDelayTimer()] *)
Definition resetPlayDelayTimer (id : nat) (t : trigger) (w : world) : world :=
  match tg_timer t with
  | Some tid => on_trigger id (set_timer None) (clearTimeout tid w)
  | None => w
  end.

(** The end of [play()]: at once or after the delay. *)
Definition play_delayed (id : nat) (t : trigger) (w : world) : outcome world :=
  if el_delay (w_el w) then
    let '(tid, w) := fresh w in
    Done (on_trigger id (set_timer (Some tid)) (on_timers (λ ts, ts ++ [(tid, id)]) w))
  else command (tg_player t) pl_playFromBeginning w.

(** [play()] of the triggers that have one. *)
Definition trigger_play (id : nat) (t : trigger) (w : world) : outcome world :=
  match tg_kind t with
  | In =>
      if tg_played t then Done w
      else play_delayed id t (resetPlayDelayTimer id t (on_trigger id (set_played true) w))
  | Loop => play_delayed id t (resetPlayDelayTimer id t w)
  | LoopOnHover =>
      let w := resetPlayDelayTimer id t w in
      if tg_mouseIn t then play_delayed id t w else Done w
  | _ => Done w
  end.

(** [this.player.direction = d; this.player.play()] *)
Definition play_towards (d : Z) (t : trigger) (w : world) : outcome world :=
  w ← command (tg_player t) (set_direction d) w; command (tg_player t) pl_play w.

Definition onConnected (id : nat) (t : trigger) (w : world) : outcome world :=
  let w := add_listeners (tg_target t) (OTrigger id) (kind_events (tg_kind t)) w in
  match tg_kind t with
  | In => match el_loading (w_el w) with
          | Some _ => trigger_play id t w
          | None => Done (on_trigger id (set_observing true) w)
          end
  | _ => Done w
  end.

Definition onDisconnected (id : nat) (t : trigger) (w : world) : outcome world :=
  let w := remove_listeners (tg_target t) (OTrigger id) (kind_events (tg_kind t)) w in
  match tg_kind t with
  | Boomerang | Morph => command (tg_player t) (set_direction 1) w
  | In => Done (resetPlayDelayTimer id t (on_trigger id (set_observing false) (on_trigger id (set_played false) w)))
  | Loop | LoopOnHover => Done (resetPlayDelayTimer id t w)
  | Click | Hover => Done w
  end.

Definition onReady (id : nat) (t : trigger) (w : world) : outcome world :=
  match tg_kind t with Loop => trigger_play id t w | _ => Done w end.

Definition onComplete (id : nat) (t : trigger) (w : world) : outcome world :=
  match tg_kind t with
  | Boomerang => play_towards (-1) t w
  | Loop | LoopOnHover => trigger_play id t w
  | _ => Done w
  end.

(** The listeners of a trigger: [onHover], [onClick], [onMouseEnter], [onMouseLeave]. *)
Definition onEvent (e : event) (id : nat) (t : trigger) (w : world) : outcome world :=
  match tg_kind t, e with
  | Boomerang, _ => play_towards 1 t w
  | Click, _ | Hover, _ =>
      playing ← isPlaying (tg_player t) w;
      if playing : bool then Done w else command (tg_player t) pl_playFromBeginning w
  | LoopOnHover, mouseleave => Done (resetPlayDelayTimer id t (on_trigger id (set_mouseIn false) w))
  | LoopOnHover, _ =>
      let w := on_trigger id (set_mouseIn true) w in
      playing ← isPlaying (tg_player t) w;
      if playing : bool then Done w else trigger_play id (set_mouseIn true t) w
  | Morph, mouseleave => play_towards (-1) t w
  | Morph, _ => play_towards 1 t w
  | _, _ => Done w
  end.

(** A timeout of a trigger: [In] forgets its timer afterwards. *)
Definition onTimeout (id : nat) (t : trigger) (w : world) : outcome world :=
  w ← command (tg_player t) pl_playFromBeginning w;
  Done (match tg_kind t with In => on_trigger id (set_timer None) w | _ => w end).

(** ** The element *)

(** [this._triggerInstance && ...] *)
Definition with_instance (f : nat → trigger → world → outcome world) (w : world) : outcome world :=
  match el_instance (w_el w) with
  | Some id => match w_triggers w !! id with Some t => f id t w | None => Done w end
  | None => Done w
  end.

(** A trigger is dropped: [onDisconnected], and the instance is forgotten. *)
Definition drop_instance (w : world) : outcome world :=
  w ← with_instance onDisconnected w; Done (on_el (put_instance None) w).

Definition has_instance (w : world) : bool := bool_decide (is_Some (el_instance (w_el w))).

(** [triggerChanged()]; the flag tells whether it threw. *)
Definition triggerChanged (w : world) : outcome (world * bool) :=
  w ← (if has_instance w then
         w ← drop_instance w;
         match el_player (w_el w) with Some pid => command pid (set_paused true) w | None => Done w end
       else Done w);
  match el_trigger (w_el w), el_player (w_el w) with
  | Some ((_ :: _) as name), Some pid =>
      match lookup_prop name ((λ kv, (str kv.1, kv.2)) <$> definedTriggers) with
      | None => Done (w, false)
      | Some k =>
          let '(id, w) := fresh w in
          let t := mkTrigger k pid (el_target (w_el w)) None false false false in
          let w := on_el (put_instance (Some id)) (on_triggers <[id := t]> w) in
          w ← with_instance onConnected w;
          let ready := match w_players w !! pid with Some p => pl_ready p | None => false end in
          w ← (if ready then with_instance onReady w else Done w);
          Done (w, true)
      end
  | _, _ => Done (w, true)
  end.

(** The parts of [createPlayer()]: up to the document, from the document to the player,
    and from the player on. *)
Definition createPlayer (ev : option (node * event)) (w : world) : world :=
  match el_delayed (w_el w) with
  | Some _ => w
  | None =>
      let s := match el_assigned (w_el w), el_loaded (w_el w) with
               | Some d, _ => Assigned d
               | None, Some d => Assigned d
               | None, None => match el_src (w_el w) with Some ((_ :: _) as url) => Fetch url | _ => NoSource end
               end in
      on_jobs (λ js, js ++ [mkJob s ev]) w
  end.

Definition interaction_events : list event := [click; mouseenter; mouseleave].

(** [this.delayedLoading(cancel)], with the event that called it. *)
Definition delayedLoading (cancel : bool) (ev : option event) (w : world) : world :=
  match el_delayed (w_el w) with
  | None => w
  | Some d =>
      let w := match d with DInteraction id n => remove_listeners n (OLoader id) interaction_events w | _ => w end in
      let w := on_el (put_delayed None) w in
      if cancel then w
      else createPlayer (match d, ev with DInteraction _ n, Some e => Some (n, e) | _, _ => None end) w
  end.

(** An event at a node: the listeners that stood there are called in their order, unless
    they are removed meanwhile. *)
Definition call_listener (e : event) (l : listener) (w : world) : outcome world :=
  if bool_decide (l ∈ w_listeners w) then
    match ls_owner l with
    | OTrigger id => match w_triggers w !! id with Some t => onEvent e id t w | None => Done w end
    | OLoader _ => Done (delayedLoading false (Some e) w)
    end
  else Done w.

Fixpoint call_listeners (e : event) (ls : list listener) (w : world) : outcome world :=
  match ls with [] => Done w | l :: ls => w ← call_listener e l w; call_listeners e ls w end.

Definition dispatch (n : node) (e : event) (w : world) : outcome world :=
  call_listeners e (List.filter (λ l, Nat.eqb (ls_node l) n && bool_decide (ls_event l = e)) (w_listeners w)) w.

Definition player_made (ev : option (node * event)) (data : Z) (isLoaded : bool) (w : world) : outcome world :=
  let '(pid, w) := fresh w in
  let w := on_el (put_player (Some pid)) (on_players <[pid := newPlayer data isLoaded]> w) in
  '(w, ok) ← triggerChanged w;
  Done (if ok : bool then on_waiting (λ ws, ws ++ [mkWaiting pid ev isLoaded]) w else w).

Definition player_ready (w : world) : world := on_el (put_isReady true) (on_el (put_class_ready true) w).

(** [.then(...)] of a call made for an interaction: the event is sent again. *)
Definition send_again (ev : option (node * event)) (w : world) : outcome world :=
  match ev with Some (n, e) => dispatch n e w | None => Done w end.

Definition destroyPlayer (w : world) : outcome world :=
  let w := on_el (put_loaded None) (on_el (put_isReady false) w) in
  w ← (if has_instance w then drop_instance w else Done w);
  match el_player (w_el w) with
  | Some pid =>
      w ← command pid pl_disconnect w;
      Done (on_el (put_class_ready false) (on_el (put_player None) w))
  | None => Done w
  end.

(** [srcChanged()], [iconChanged()] *)
Definition srcChanged (w : world) : outcome world :=
  if el_connected (w_el w) then w ← destroyPlayer w; Done (createPlayer None w) else Done w.

(** The attribute [loading] in small letters. *)
Definition loading_is (k : string) (w : world) : bool :=
  match el_loading (w_el w) with Some t => bool_decide (toLowerCase t = str k) | None => false end.

Definition connectedCallback (w : world) : world :=
  let w :=
    if loading_is "lazy" w then on_el (put_delayed (Some DLazy)) w
    else if loading_is "interaction" w then
      let '(id, w) := fresh w in
      let n := el_target (w_el w) in
      add_listeners n (OLoader id) interaction_events (on_el (put_delayed (Some (DInteraction id n))) w)
    else if loading_is "delay" w then on_delays S (on_el (put_delayed (Some DDelay)) w)
    else createPlayer None w in
  on_el (put_connected true) w.

Definition disconnectedCallback (w : world) : outcome world :=
  let w := delayedLoading true None w in
  w ← destroyPlayer w;
  Done (on_el (put_connected false) w).

(** ** One turn of the event loop *)

Inductive input :=
| SetIconData (d : option Z)
| SetSrc (s : option jstr)
| SetTrigger (t : option jstr)
| SetTarget (n : node)
| SetLoading (l : option jstr)
| SetDelay (b : bool)
| Connected | Disconnected
| Loaded (k : nat) (data : option Z) (isLoaded : bool)   (* the [k]-th document arrives, or fails *)
| Ready (pid : nat)
| Continue (k : nat)                                     (* the [k]-th call that waited for its player *)
| Complete (pid : nat)
| Dom (n : node) (e : event)
| Timeout (tid : nat)
| DelayTimeout
| Visible.                                              (* the element comes into view *)

(** What the [k]-th waiting call does when its document arrives. *)
Definition resume (k : nat) (data : option Z) (isLoaded : bool) (w : world) : outcome world :=
  match w_jobs w !! k with
  | None => Done w
  | Some j =>
      let w := on_jobs (λ js, take k js ++ drop (S k) js) w in
      match jb_source j, data with
      | Assigned d, _ => player_made (jb_event j) d isLoaded w
      | Fetch _, Some d => player_made (jb_event j) d isLoaded (on_el (put_loaded (Some d)) w)
      | Fetch _, None => Done w
      | NoSource, _ => send_again (jb_event j) w
      end
  end.

(** A call whose player is ready goes on to its end. *)
Definition continue (k : nat) (w : world) : outcome world :=
  match w_waiting w !! k with
  | Some x => if wt_resolved x then send_again (wt_event x) (player_ready (on_waiting (λ ws, take k ws ++ drop (S k) ws) w)) else Done w
  | None => Done w
  end.

Definition resolve (pid : nat) (x : waiting) : waiting :=
  mkWaiting (wt_player x) (wt_event x) (wt_resolved x || Nat.eqb (wt_player x) pid).

Definition turn (i : input) (w : world) : outcome world :=
  match i with
  | SetIconData d =>
      if bool_decide (d = el_assigned (w_el w)) then Done w else srcChanged (on_el (put_assigned d) w)
  | SetSrc s => srcChanged (on_el (put_src s) w)
  | SetTrigger t => '(w, _) ← triggerChanged (on_el (put_trigger t) w); Done w
  | SetTarget n => '(w, _) ← triggerChanged (on_el (put_target n) w); Done w
  | SetLoading l => Done (on_el (put_loading l) w)
  | SetDelay b => Done (on_el (put_delay b) w)
  | Connected => if el_connected (w_el w) then Done w else Done (connectedCallback w)
  | Disconnected => if el_connected (w_el w) then disconnectedCallback w else Done w
  | Loaded k data isLoaded => resume k data isLoaded w
  | Ready pid =>
      match w_players w !! pid with
      | Some p =>
          if pl_connected p && negb (pl_ready p) then
            w ← with_instance onReady (on_players <[pid := set_ready p]> w); Done (on_waiting (fmap (resolve pid)) w)
          else Done w
      | None => Done w
      end
  | Continue k => continue k w
  | Complete pid =>
      match w_players w !! pid with
      | Some p => if pl_connected p && negb (pl_paused p) then with_instance onComplete (on_players <[pid := set_paused true p]> w) else Done w
      | None => Done w
      end
  | Dom n e => dispatch n e w
  | Timeout tid =>
      match list_find (λ x, x.1 = tid) (w_timers w) with
      | Some (k, (_, id)) =>
          let w := on_timers (λ ts, take k ts ++ drop (S k) ts) w in
          match w_triggers w !! id with Some t => onTimeout id t w | None => Done w end
      | None => Done w
      end
  | DelayTimeout =>
      match w_delays w with O => Done w | S n => Done (delayedLoading false None (on_delays (λ _, n) w)) end
  | Visible =>
      match el_delayed (w_el w) with
      | Some DLazy => Done (delayedLoading false None w)
      | _ =>
          with_instance (λ id t w, if tg_observing t then w ← trigger_play id t w; Done (on_trigger id (set_observing false) w) else Done w) w
      end
  end.

Fixpoint run (inputs : list input) (w : world) : outcome world :=
  match inputs with [] => Done w | i :: inputs => w ← turn i w; run inputs w end.

Definition no_sequence (i : input) : Prop := i ≠ SetTrigger (Some (str "sequence")).

(** An element that was just made. *)
Definition initial : world :=
  mkWorld (mkElement None None None None None false 0 false false false None None None) ∅ ∅ [] [] 0 [] [] 0.
