(* ===== verification/IconElementProps.v ===== *)
(** * The animation element: what holds in every run

    Whatever order attributes change, documents arrive, players get ready and the user
    acts in: no command reaches a player that is gone, and listeners and timers are those
    of the live trigger.  Where nothing is changed while a document is under way, there is
    at most one player; otherwise players are left behind. *)

From S2P Require Import Prelude GoText JsText IconElement.
#[local] Open Scope Z_scope.

(** ** What operations leave alone *)

Definition alive (w : world) (pid : nat) : Prop := ∃ p, w_players w !! pid = Some p ∧ pl_connected p = true.

Definition tstatic (t : trigger) : kind * nat * node := (tg_kind t, tg_player t, tg_target t).

Record quiet (w w' : world) : Prop := {
  q_el : w_el w' = w_el w;
  q_listeners : w_listeners w' = w_listeners w;
  q_alive : ∀ pid, alive w pid ↔ alive w' pid;
  q_ready : ∀ pid, pl_ready <$> w_players w' !! pid = pl_ready <$> w_players w !! pid;
  q_static : ∀ id, tstatic <$> w_triggers w' !! id = tstatic <$> w_triggers w !! id;
  q_delays : w_delays w' = w_delays w;
  q_jobs : w_jobs w' = w_jobs w;
  q_waiting : w_waiting w' = w_waiting w }.

#[export] Instance quiet_refl : Reflexive quiet.
Proof. by split. Qed.
#[export] Instance quiet_trans : Transitive quiet.
Proof.
  intros w1 w2 w3 H1 H2. split.
  - by rewrite (q_el _ _ H2), (q_el _ _ H1).
  - by rewrite (q_listeners _ _ H2), (q_listeners _ _ H1).
  - intros pid. by rewrite (q_alive _ _ H1), (q_alive _ _ H2).
  - intros pid. by rewrite (q_ready _ _ H2), (q_ready _ _ H1).
  - intros id. by rewrite (q_static _ _ H2), (q_static _ _ H1).
  - by rewrite (q_delays _ _ H2), (q_delays _ _ H1).
  - by rewrite (q_jobs _ _ H2), (q_jobs _ _ H1).
  - by rewrite (q_waiting _ _ H2), (q_waiting _ _ H1).
Qed.

Definition timed (k : kind) : bool := match k with In | Loop | LoopOnHover => true | _ => false end.

(** At most one timeout of a trigger is under way, and it is the one the live trigger
    knows of. *)
Definition timers_ok (w : world) : Prop :=
  (length (w_timers w) ≤ 1)%nat ∧ ∀ tid id, (tid, id) ∈ w_timers w → el_instance (w_el w) = Some id ∧
    ∃ t, w_triggers w !! id = Some t ∧ tg_timer t = Some tid ∧ timed (tg_kind t) = true.

(** A live trigger, its player and the fields the program keeps of it. *)
Definition live (w : world) (id : nat) (t : trigger) : Prop :=
  el_instance (w_el w) = Some id ∧ w_triggers w !! id = Some t ∧ alive w (tg_player t) ∧ timers_ok w.

(** An operation of a live trigger that returns and disturbs nothing else. *)
Definition tame (id : nat) (w : world) (r : outcome world) : Prop :=
  ∃ w', r = Done w' ∧ quiet w w' ∧ timers_ok w'.

Lemma command_quiet pid f w : (∀ p, pl_connected (f p) = pl_connected p ∧ pl_ready (f p) = pl_ready p) → alive w pid →
  ∃ w', command pid f w = Done w' ∧ quiet w w' ∧ w_triggers w' = w_triggers w ∧ w_timers w' = w_timers w.
Proof.
  intros Hf (p&Hp&Hc). unfold command. rewrite Hp, Hc. eexists. split; [done|]. split; [|done].
  destruct (Hf p) as [Hfc Hfr]. split; try done; cbn.
  - intros q. unfold alive. cbn. destruct (decide (q = pid)) as [->|Hq].
    + rewrite lookup_insert_eq, Hp. split; intros _; eexists; (split; [done|congruence]).
    + by rewrite lookup_insert_ne by done.
  - intros q. destruct (decide (q = pid)) as [->|Hq]; [rewrite lookup_insert_eq, Hp; simpl; by rewrite Hfr|by rewrite lookup_insert_ne by done].
Qed.

Lemma command_tame id pid f w : (∀ p, pl_connected (f p) = pl_connected p ∧ pl_ready (f p) = pl_ready p) → alive w pid → timers_ok w →
  tame id w (command pid f w).
Proof.
  intros Hf Ha Ht. destruct (command_quiet pid f w Hf Ha) as (w'&E&Hq&Htr&Htm). exists w'. split; [done|]. split; [done|]. unfold timers_ok. rewrite Htm.
  split; [apply Ht|]. intros tid i Hin. rewrite (q_el _ _ Hq), Htr. by apply Ht.
Qed.

Lemma tame_bind id w r f : tame id w r → (∀ w', r = Done w' → quiet w w' → timers_ok w' → tame id w' (f w')) → tame id w (r ≫= f).
Proof.
  intros (w'&->&Hq&Ht) Hf. destruct (Hf w') as (w2&E2&Hq2&Ht2); [done..|]. exists w2. split; [done|]. split; [by etrans|done].
Qed.

Lemma tame_done id w : timers_ok w → tame id w (Done w).
Proof. intros Ht. by exists w. Qed.

(** Changing what the program keeps of a trigger. *)
Lemma on_trigger_quiet id f w : (∀ t, tstatic (f t) = tstatic t) → quiet w (on_trigger id f w).
Proof.
  intros Hf. split; try done. intros i. cbn. destruct (decide (i = id)) as [->|Hi].
  - rewrite lookup_alter_eq. destruct (w_triggers w !! id); [|done]. simpl. by rewrite Hf.
  - by rewrite lookup_alter_ne.
Qed.

Lemma on_trigger_timers id f w : (∀ t, tstatic (f t) = tstatic t ∧ tg_timer (f t) = tg_timer t) → timers_ok w → timers_ok (on_trigger id f w).
Proof.
  intros Hf [Hlen Ht]. split; [done|]. intros tid i Hin. destruct (Ht tid i Hin) as (Hi&t&Hl&Htm&Hk). split; [done|]. cbn. destruct (decide (i = id)) as [->|Hne].
  - exists (f t). rewrite lookup_alter_eq, Hl. destruct (Hf t) as [Hs Ht']. unfold tstatic in Hs. injection Hs as Hk' _ _. rewrite Ht', Hk'. done.
  - exists t. by rewrite lookup_alter_ne.
Qed.

(** After a reset no timeout is under way. *)
Lemma reset_timers id t w : el_instance (w_el w) = Some id → tg_timer <$> w_triggers w !! id = Some (tg_timer t) → timers_ok w →
  quiet w (resetPlayDelayTimer id t w) ∧ w_timers (resetPlayDelayTimer id t w) = [] ∧
  (∀ i, (set_timer None <$> w_triggers (resetPlayDelayTimer id t w) !! i) = set_timer None <$> w_triggers w !! i).
Proof.
  intros Hi Ht [_ Hok]. unfold resetPlayDelayTimer. assert (Hall : ∀ tid i, (tid, i) ∈ w_timers w → tg_timer t = Some tid).
  { intros tid i Hin. destruct (Hok _ _ Hin) as (Hi'&t'&Hl&Htm&_). assert (i = id) as -> by congruence. rewrite Hl in Ht. injection Ht as Ht. congruence. }
  destruct (tg_timer t) as [tid|].
  - split; [|split].
    + etrans; [|by apply on_trigger_quiet]. by split.
    + change (w_timers _) with (List.filter (λ x, negb (Nat.eqb x.1 tid)) (w_timers w)).
      destruct (List.filter _ _) as [|[x i] l] eqn:E; [done|]. assert (Hin : List.In (x, i) (List.filter (λ x, negb (Nat.eqb x.1 tid)) (w_timers w))) by (rewrite E; by left).
      apply List.filter_In in Hin as [Hin Hx]. apply list_elem_of_In, Hall in Hin. injection Hin as ->. simpl in Hx. by rewrite Nat.eqb_refl in Hx.
    + intros i. cbn. destruct (decide (i = id)) as [->|Hne]; [|by rewrite lookup_alter_ne]. rewrite lookup_alter_eq. by destruct (w_triggers w !! id) as [[]|].
  - split; [done|]. split; [|done]. destruct (w_timers w) as [|[x i] l] eqn:E; [done|].
    by specialize (Hall x i ltac:(left)).
Qed.

Lemma no_timers_ok w : w_timers w = [] → timers_ok w.
Proof. intros E. unfold timers_ok. rewrite E. split; [simpl; lia|]. intros tid id Hin. by apply elem_of_nil in Hin. Qed.

Lemma quiet_alive w w' pid : quiet w w' → alive w pid → alive w' pid.
Proof. intros Hq. by apply Hq. Qed.

(** ** What triggers do *)

(** [t] is the live trigger [id], up to what has just been noted of it. *)
Definition held (w : world) (id : nat) (t : trigger) : Prop :=
  el_instance (w_el w) = Some id ∧ (∃ t0, w_triggers w !! id = Some t0 ∧ tstatic t0 = tstatic t ∧ tg_timer t0 = tg_timer t) ∧
  alive w (tg_player t) ∧ timers_ok w.

(** Noting something else than the timer. *)
Lemma held_note w id t t' f : (∀ t, tstatic (f t) = tstatic t ∧ tg_timer (f t) = tg_timer t) → tstatic t' = tstatic t → tg_timer t' = tg_timer t →
  held w id t → held (on_trigger id f w) id t'.
Proof.
  intros Hf Hs Htm (Hi&(t0&Hl&Hs0&Ht0)&Ha&Hok). assert (Hp : tg_player t' = tg_player t) by (unfold tstatic in Hs; congruence).
  split; [done|]. split; [|split].
  - exists (f t0). cbn. rewrite lookup_alter_eq, Hl. destruct (Hf t0) as [H1 H2]. split; [done|]. split; congruence.
  - rewrite Hp. apply (quiet_alive _ _ _ (on_trigger_quiet id f w (λ t, proj1 (Hf t))) Ha).
  - by apply on_trigger_timers.
Qed.

Lemma quiet_held_stored w w' id t : quiet w w' → (∃ t0, w_triggers w !! id = Some t0 ∧ tstatic t0 = tstatic t) →
  ∃ t0, w_triggers w' !! id = Some t0 ∧ tstatic t0 = tstatic t.
Proof.
  intros Hq (t0&Hl&Hs). pose proof (q_static _ _ Hq id) as E. rewrite Hl in E. destruct (w_triggers w' !! id) as [t1|]; [|done].
  injection E as E. exists t1. split; [done|]. unfold tstatic in *. congruence.
Qed.

Lemma play_delayed_tame w id t : el_instance (w_el w) = Some id → (∃ t0, w_triggers w !! id = Some t0 ∧ tstatic t0 = tstatic t) →
  timed (tg_kind t) = true → alive w (tg_player t) → w_timers w = [] → tame id w (play_delayed id t w).
Proof.
  intros Hi (t0&Hl&Hs) Hk Ha Htm. unfold play_delayed. destruct (el_delay (w_el w)).
  - cbn [fresh]. eexists. split; [done|]. split.
    + etrans; [|by apply on_trigger_quiet]. by split.
    + split; [cbn; rewrite Htm; simpl; lia|]. intros tid i Hin. cbn in Hin. rewrite Htm in Hin. apply list_elem_of_singleton in Hin. injection Hin as -> ->. split; [done|].
      exists (set_timer (Some (w_next w)) t0). cbn. rewrite lookup_alter_eq, Hl. split; [done|]. split; [done|]. unfold tstatic in Hs. by injection Hs as -> _ _.
  - apply command_tame; [done|done|by apply no_timers_ok].
Qed.

Lemma reset_held w id t : held w id t →
  quiet w (resetPlayDelayTimer id t w) ∧ w_timers (resetPlayDelayTimer id t w) = [].
Proof.
  intros (Hi&(t0&Hl&Hs&Ht)&Ha&Hok). destruct (reset_timers id t w Hi) as (Hq&Htm&_); [by rewrite Hl, <- Ht|done|done].
Qed.

Lemma reset_tame w id t : held w id t → tame id w (Done (resetPlayDelayTimer id t w)).
Proof. intros Hh. destruct (reset_held w id t Hh) as [Hq Htm]. eexists. split; [done|]. split; [done|by apply no_timers_ok]. Qed.

Lemma reset_play_tame w id t : held w id t → timed (tg_kind t) = true → tame id w (play_delayed id t (resetPlayDelayTimer id t w)).
Proof.
  intros Hh Hk. destruct (reset_held w id t Hh) as [Hq Htm]. destruct Hh as (Hi&(t0&Hl&Hs&Ht)&Ha&Hok).
  destruct (play_delayed_tame (resetPlayDelayTimer id t w) id t) as (w'&E&Hq'&Htm').
  - by rewrite (q_el _ _ Hq).
  - eapply quiet_held_stored; [done|by exists t0].
  - done.
  - by apply Hq.
  - done.
  - exists w'. split; [done|]. split; [by etrans|done].
Qed.

Lemma trigger_play_tame w id t : held w id t → tame id w (trigger_play id t w).
Proof.
  intros Hh. pose proof Hh as (_&_&_&Hok). unfold trigger_play. destruct (tg_kind t) eqn:Ek; try by apply tame_done.
  - destruct (tg_played t); [by apply tame_done|].
    assert (Hh' : held (on_trigger id (set_played true) w) id t) by (eapply held_note; [by intros| | |done]; done).
    destruct (reset_play_tame _ _ _ Hh') as (w'&E&Hq&Htm); [by rewrite Ek|]. exists w'. split; [done|]. split; [|done].
    etrans; [|done]. by apply on_trigger_quiet.
  - apply reset_play_tame; [done|by rewrite Ek].
  - destruct (tg_mouseIn t); [apply reset_play_tame; [done|by rewrite Ek]|by apply reset_tame].
Qed.

Lemma play_towards_tame w id t d : held w id t → tame id w (play_towards d t w).
Proof.
  intros (Hi&_&Ha&Hok). unfold play_towards. apply tame_bind; [by apply command_tame|]. intros w' _ Hq Ht. apply command_tame; [done|by apply Hq|done].
Qed.

Lemma isPlaying_alive w pid : alive w pid → ∃ b, isPlaying pid w = Done b.
Proof. intros (p&Hp&Hc). unfold isPlaying. rewrite Hp, Hc. by eexists. Qed.

Lemma onReady_tame w id t : held w id t → tame id w (onReady id t w).
Proof. intros Hh. unfold onReady. destruct (tg_kind t); try (apply tame_done; apply Hh). by apply trigger_play_tame. Qed.

Lemma onComplete_tame w id t : held w id t → tame id w (onComplete id t w).
Proof.
  intros Hh. unfold onComplete. destruct (tg_kind t); try (apply tame_done; apply Hh); try by apply trigger_play_tame. by apply play_towards_tame.
Qed.

Lemma onEvent_tame e w id t : held w id t → tame id w (onEvent e id t w).
Proof.
  intros Hh. pose proof Hh as (Hi&_&Ha&Hok). destruct (isPlaying_alive _ _ Ha) as [b Hb].
  assert (Hpb : tame id w (b ← isPlaying (tg_player t) w; if b : bool then Done w else command (tg_player t) pl_playFromBeginning w)).
  { rewrite Hb. cbn [mbind outcome_bind]. destruct b; [by apply tame_done|by apply command_tame]. }
  unfold onEvent. destruct (tg_kind t) eqn:Ek; try (by apply tame_done); try (by destruct e); try by apply play_towards_tame.
  - assert (Henter : tame id w (let w := on_trigger id (set_mouseIn true) w in b ← isPlaying (tg_player t) w; if b : bool then Done w else trigger_play id (set_mouseIn true t) w)).
    { cbv zeta. assert (Hh' : held (on_trigger id (set_mouseIn true) w) id (set_mouseIn true t)) by (eapply held_note; [by intros| | |done]; done).
      destruct (isPlaying_alive (on_trigger id (set_mouseIn true) w) (tg_player t)) as [b' Hb']; [apply Hh'|]. rewrite Hb'. cbn [mbind outcome_bind].
      destruct b'; [eexists; split; [done|split; [by apply on_trigger_quiet|apply Hh']]|].
      destruct (trigger_play_tame _ _ _ Hh') as (w'&E&Hq&Htm). exists w'. split; [done|]. split; [|done]. etrans; [|done]. by apply on_trigger_quiet. }
    assert (Hleave : tame id w (Done (resetPlayDelayTimer id t (on_trigger id (set_mouseIn false) w)))).
    { assert (Hh' : held (on_trigger id (set_mouseIn false) w) id t) by (eapply held_note; [by intros| | |done]; done).
      destruct (reset_tame _ _ _ Hh') as (w'&E&Hq&Htm). exists w'. split; [done|]. split; [|done]. etrans; [|done]. by apply on_trigger_quiet. }
    destruct e; done.
  - destruct e; by apply play_towards_tame.
Qed.

(** A timeout that has just been taken off the list. *)
Lemma onTimeout_tame w id t : held w id t → w_timers w = [] → tame id w (onTimeout id t w).
Proof.
  intros (Hi&Hst&Ha&Hok) Htm. unfold onTimeout.
  destruct (command_quiet (tg_player t) pl_playFromBeginning w) as (w'&E&Hq&_&Htm'); [done|done|]. rewrite E. cbn [mbind outcome_bind]. rewrite Htm in Htm'.
  destruct (tg_kind t); try (exists w'; split; [done|split; [done|by apply no_timers_ok]]).
  eexists. split; [done|]. split; [|by apply no_timers_ok]. etrans; [done|]. by apply on_trigger_quiet.
Qed.

(** ** Listeners *)

Lemma elem_addEventListener l x w : x ∈ w_listeners (addEventListener l w) ↔ x = l ∨ x ∈ w_listeners w.
Proof.
  cbn. case_bool_decide as H; [|rewrite elem_of_app, list_elem_of_singleton; tauto]. split; [by right|]. by intros [->|?].
Qed.

Lemma elem_add_listeners n o es x w :
  x ∈ w_listeners (add_listeners n o es w) ↔ (ls_node x = n ∧ ls_owner x = o ∧ ls_event x ∈ es) ∨ x ∈ w_listeners w.
Proof.
  unfold add_listeners. revert w. induction es as [|e es IH]; intros w; cbn [foldl].
  - split; [by right|]. intros [(_&_&H)|H]; [by apply elem_of_nil in H|done].
  - rewrite IH, elem_addEventListener, elem_of_cons. destruct x as [xn xe xo]. cbn. split.
    + intros [(?&?&?)|[[= -> -> ->]|?]]; tauto.
    + intros [(->&->&[->|?])|?]; tauto.
Qed.

Lemma elem_remove_listeners n o es x w :
  x ∈ w_listeners (remove_listeners n o es w) ↔ ¬ (ls_node x = n ∧ ls_owner x = o ∧ ls_event x ∈ es) ∧ x ∈ w_listeners w.
Proof.
  unfold remove_listeners. revert w. induction es as [|e es IH]; intros w; cbn [foldl].
  - split; [|by intros [_ ?]]. intros H. split; [|done]. intros (_&_&Hn). by apply elem_of_nil in Hn.
  - rewrite IH. cbn. rewrite list_filter_elem, negb_true_iff, bool_decide_eq_false, elem_of_cons.
    destruct x as [xn xe xo]. cbn. split.
    + intros (H1&H2&H3). split; [|done]. intros (->&->&[->|?]); [by apply H2|by apply H1].
    + intros (H1&H2). split; [tauto|]. split; [|done]. intros [= -> -> ->]. apply H1. tauto.
Qed.

Lemma add_listeners_frame n o es w : ∃ ls, add_listeners n o es w = on_listeners (λ _, ls) w.
Proof.
  unfold add_listeners. revert w. induction es as [|e es IH]; intros w; cbn [foldl]; [by exists (w_listeners w); destruct w|].
  destruct (IH (addEventListener (mkListener n e o) w)) as [ls ->]. by exists ls.
Qed.

Lemma remove_listeners_frame n o es w : ∃ ls, remove_listeners n o es w = on_listeners (λ _, ls) w.
Proof.
  unfold remove_listeners. revert w. induction es as [|e es IH]; intros w; cbn [foldl]; [by exists (w_listeners w); destruct w|].
  destruct (IH (removeEventListener (mkListener n e o) w)) as [ls ->]. by exists ls.
Qed.

(** ** The invariant *)

(** The listeners are exactly those of the live trigger and of the waiting loader. *)
Definition trigger_listens (w : world) (l : listener) (id : nat) : Prop :=
  el_instance (w_el w) = Some id ∧ ∃ t, w_triggers w !! id = Some t ∧ ls_node l = tg_target t ∧ ls_event l ∈ kind_events (tg_kind t).
Definition loader_listens (w : world) (l : listener) (id : nat) : Prop :=
  el_delayed (w_el w) = Some (DInteraction id (ls_node l)) ∧ ls_event l ∈ interaction_events.

Definition listens (w : world) (l : listener) : Prop :=
  match ls_owner l with OTrigger id => trigger_listens w l id | OLoader id => loader_listens w l id end.

(** [Loose]: the live trigger's player is alive, though the element may have another. *)
Record Loose (w : world) : Prop := {
  i_player : ∀ pid, el_player (w_el w) = Some pid → alive w pid;
  i_instance : ∀ id, el_instance (w_el w) = Some id → ∃ t, w_triggers w !! id = Some t ∧ alive w (tg_player t);
  i_listeners : ∀ l, l ∈ w_listeners w ↔ listens w l;
  i_timers : timers_ok w;
  i_connected : el_connected (w_el w) = false → el_delayed (w_el w) = None }.

Record Inv (w : world) : Prop := {
  i_loose : Loose w;
  i_driven : ∀ id t, el_instance (w_el w) = Some id → w_triggers w !! id = Some t → el_player (w_el w) = Some (tg_player t) }.

Lemma listens_quiet w w' l : quiet w w' → listens w l ↔ listens w' l.
Proof.
  intros Hq. unfold listens. destruct (ls_owner l) as [id|id].
  - unfold trigger_listens. rewrite (q_el _ _ Hq). pose proof (q_static _ _ Hq id) as E.
    split; intros (Hi&t&Hl&Hn&He); (split; [done|]); rewrite Hl in E.
    + destruct (w_triggers w' !! id) as [t'|]; [|done]. unfold tstatic in E. injection E as Ek _ Et. exists t'. rewrite Ek, Et. done.
    + destruct (w_triggers w !! id) as [t'|]; [|done]. unfold tstatic in E. injection E as Ek _ Et. exists t'. rewrite <- Ek, <- Et. done.
  - unfold loader_listens. by rewrite (q_el _ _ Hq).
Qed.

Lemma element_quiet_inv w w' : Inv w → quiet w w' → timers_ok w' → Inv w'.
Proof.
  intros [[Hp Hi Hl Ht Hc] Hd] Hq Ht'. pose proof (q_el _ _ Hq) as Hel.
  assert (Hst : ∀ id t', w_triggers w' !! id = Some t' → ∃ t, w_triggers w !! id = Some t ∧ tg_player t' = tg_player t).
  { intros id t' E. pose proof (q_static _ _ Hq id) as Es. rewrite E in Es. destruct (w_triggers w !! id) as [t|]; [|done].
    unfold tstatic in Es. injection Es as _ Ep _. by exists t. }
  split; [split|]; rewrite ?Hel; try done.
  - intros pid E. by apply Hq, Hp.
  - intros id E. destruct (Hi _ E) as (t&Hlk&Ha). pose proof (q_static _ _ Hq id) as Es. rewrite Hlk in Es.
    destruct (w_triggers w' !! id) as [t'|]; [|done]. exists t'. split; [done|]. unfold tstatic in Es. injection Es as _ -> _. by apply Hq.
  - intros l. rewrite (q_listeners _ _ Hq), Hl. by apply listens_quiet.
  - intros id t' E (t&Hlk&->)%Hst. by apply (Hd id).
Qed.

Lemma inv_held w id t : Inv w → el_instance (w_el w) = Some id → w_triggers w !! id = Some t → held w id t.
Proof.
  intros [Hl _] Hi Hlk. split; [done|]. split; [by exists t|]. split; [|apply Hl].
  destruct (i_instance _ Hl _ Hi) as (t'&Hlk'&Ha). by simplify_eq.
Qed.

Lemma with_instance_tame w f : Inv w → (∀ id t, held w id t → tame id w (f id t w)) →
  ∃ w', with_instance f w = Done w' ∧ quiet w w' ∧ timers_ok w'.
Proof.
  intros HI Hf. pose proof (i_timers _ (i_loose _ HI)) as Ht. unfold with_instance. destruct (el_instance (w_el w)) as [id|] eqn:Ei; [|by exists w].
  destruct (w_triggers w !! id) as [t|] eqn:Et; [|by exists w]. apply Hf. by apply inv_held.
Qed.

(** *** Dropping a trigger *)

Record dropped (w w' : world) : Prop := {
  d_el : w_el w' = put_instance None (w_el w);
  d_alive : ∀ pid, alive w pid ↔ alive w' pid;
  d_ready : ∀ pid, pl_ready <$> w_players w' !! pid = pl_ready <$> w_players w !! pid;
  d_delays : w_delays w' = w_delays w;
  d_jobs : w_jobs w' = w_jobs w;
  d_waiting : w_waiting w' = w_waiting w;
  d_timers : w_timers w' = [];
  d_listeners : ∀ l, l ∈ w_listeners w' ↔ ∃ id, ls_owner l = OLoader id ∧ loader_listens w l id }.

(** What [onDisconnected] does besides the listeners. *)
Lemma timed_timers w id t : timers_ok w → el_instance (w_el w) = Some id → w_triggers w !! id = Some t → timed (tg_kind t) = false → w_timers w = [].
Proof.
  intros [_ Ht] Hi Hl Hk. destruct (w_timers w) as [|[tid i] ts]; [done|]. destruct (Ht tid i ltac:(left)) as (Hi'&t'&Hl'&_&Hk').
  rewrite Hi in Hi'. injection Hi' as <-. rewrite Hl in Hl'. injection Hl' as <-. congruence.
Qed.

Lemma onDisconnected_spec w id t : held w id t → w_triggers w !! id = Some t →
  ∃ w', onDisconnected id t w = Done w' ∧ quiet (remove_listeners (tg_target t) (OTrigger id) (kind_events (tg_kind t)) w) w' ∧ w_timers w' = [].
Proof.
  intros (Hi&_&Ha&Hok) Hlk. destruct (remove_listeners_frame (tg_target t) (OTrigger id) (kind_events (tg_kind t)) w) as [ls E].
  unfold onDisconnected. rewrite E. set (w1 := on_listeners (λ _, ls) w).
  assert (Hh1 : held w1 id t) by (split; [done|]; split; [by exists t|]; split; [|done]; done).
  destruct (tg_kind t) eqn:Ek.
  - assert (Hh2 : held (on_trigger id (set_observing false) (on_trigger id (set_played false) w1)) id t).
    { eapply held_note; [by intros| | |eapply held_note; [by intros| | |exact Hh1]]; done. }
    destruct (reset_held _ _ _ Hh2) as [Hq Htm]. eexists. split; [done|]. split; [|done]. etrans; [|done].
    etrans; by apply on_trigger_quiet.
  - exists w1. split; [done|]. split; [done|]. apply (timed_timers w1 id t); [done..|by rewrite Ek].
  - exists w1. split; [done|]. split; [done|]. apply (timed_timers w1 id t); [done..|by rewrite Ek].
  - destruct (reset_held _ _ _ Hh1) as [Hq Htm]. by eexists.
  - destruct (reset_held _ _ _ Hh1) as [Hq Htm]. by eexists.
  - destruct (command_quiet (tg_player t) (set_direction 1) w1) as (w'&E'&Hq&_&Htm); [done|done|]. exists w'. split; [done|]. split; [done|].
    rewrite Htm. apply (timed_timers w1 id t); [done..|by rewrite Ek].
  - destruct (command_quiet (tg_player t) (set_direction 1) w1) as (w'&E'&Hq&_&Htm); [done|done|]. exists w'. split; [done|]. split; [done|].
    rewrite Htm. apply (timed_timers w1 id t); [done..|by rewrite Ek].
Qed.

Lemma drop_instance_spec w id : Loose w → el_instance (w_el w) = Some id → ∃ w', drop_instance w = Done w' ∧ dropped w w'.
Proof.
  intros HL Hi. destruct (i_instance _ HL _ Hi) as (t&Hlk&Ha). unfold drop_instance, with_instance. rewrite Hi, Hlk.
  destruct (onDisconnected_spec w id t) as (w'&E&Hq&Htm); [split; [done|split; [by exists t|split; [done|apply HL]]]|done|].
  rewrite E. cbn [mbind outcome_bind]. eexists. split; [done|].
  destruct (remove_listeners_frame (tg_target t) (OTrigger id) (kind_events (tg_kind t)) w) as [ls El].
  split; cbn.
  - rewrite (q_el _ _ Hq), El. done.
  - intros pid. pose proof (q_alive _ _ Hq pid) as H. rewrite El in H. exact H.
  - intros pid. rewrite (q_ready _ _ Hq), El. done.
  - by rewrite (q_delays _ _ Hq), El.
  - by rewrite (q_jobs _ _ Hq), El.
  - by rewrite (q_waiting _ _ Hq), El.
  - done.
  - intros l. rewrite (q_listeners _ _ Hq), elem_remove_listeners, (i_listeners _ HL). unfold listens. split.
    + intros [Hn Hl]. destruct (ls_owner l) as [i|i] eqn:Eo; [|by exists i]. destruct Hl as (Hi'&t'&Hlk'&Hnode&Hev). exfalso. apply Hn.
      rewrite Hi in Hi'. injection Hi' as <-. rewrite Hlk in Hlk'. injection Hlk' as <-. done.
    + intros (i&Eo&Hl). rewrite Eo. split; [|done]. intros (_&?&_). done.
Qed.

(** *** Changing the trigger *)

Record changed (w w' : world) : Prop := {
  c_el : ∃ x, w_el w' = put_instance x (w_el w);
  c_alive : ∀ pid, alive w pid ↔ alive w' pid;
  c_ready : ∀ pid, pl_ready <$> w_players w' !! pid = pl_ready <$> w_players w !! pid;
  c_delays : w_delays w' = w_delays w;
  c_jobs : w_jobs w' = w_jobs w;
  c_waiting : w_waiting w' = w_waiting w }.

Lemma put_instance_same e : e = put_instance (el_instance e) e.
Proof. by destruct e. Qed.

Lemma changed_trans w1 w2 w3 : changed w1 w2 → changed w2 w3 → changed w1 w3.
Proof.
  intros H1 H2. split.
  - destruct (c_el _ _ H1) as [x E1], (c_el _ _ H2) as [y E2]. exists y. by rewrite E2, E1.
  - intros pid. by rewrite (c_alive _ _ H1), (c_alive _ _ H2).
  - intros pid. by rewrite (c_ready _ _ H2), (c_ready _ _ H1).
  - by rewrite (c_delays _ _ H2), (c_delays _ _ H1).
  - by rewrite (c_jobs _ _ H2), (c_jobs _ _ H1).
  - by rewrite (c_waiting _ _ H2), (c_waiting _ _ H1).
Qed.

Lemma quiet_changed w w' : quiet w w' → changed w w'.
Proof.
  intros Hq. split; try apply Hq. exists (el_instance (w_el w)). rewrite (q_el _ _ Hq). apply put_instance_same.
Qed.

Lemma dropped_changed w w' : dropped w w' → changed w w'.
Proof. intros Hd. split; try apply Hd. exists None. apply Hd. Qed.

Lemma dropped_inv w w' : Loose w → dropped w w' → Inv w'.
Proof.
  intros HL Hd. pose proof (d_el _ _ Hd) as Hel. split; [split|]; rewrite ?Hel; cbn; try done.
  - intros pid E. by apply Hd, HL.
  - intros l. rewrite (d_listeners _ _ Hd). unfold listens. destruct (ls_owner l) as [i|i].
    + split; [by intros (?&?&_)|]. intros (Hi&_). by rewrite Hel in Hi.
    + unfold loader_listens. rewrite Hel. cbn. split; [by intros (?&[= <-]&?)|]. intros H. by exists i.
  - apply no_timers_ok, Hd.
  - intros Hc. by apply (i_connected _ HL).
Qed.

(** The first half: an old trigger goes, and the player pauses. *)
Lemma clear_trigger w : Loose w → ∃ w1,
  (if has_instance w then w ← drop_instance w; match el_player (w_el w) with Some pid => command pid (set_paused true) w | None => Done w end
   else Done w) = Done w1 ∧ changed w w1 ∧ el_instance (w_el w1) = None ∧ w_timers w1 = [] ∧ Inv w1.
Proof.
  intros HL. unfold has_instance. destruct (el_instance (w_el w)) as [id|] eqn:Ei.
  - rewrite bool_decide_true by by eexists. destruct (drop_instance_spec w id HL Ei) as (w'&E&Hd). rewrite E. cbn [mbind outcome_bind].
    pose proof (dropped_inv _ _ HL Hd) as HI. pose proof (d_el _ _ Hd) as Hel. destruct (el_player (w_el w')) as [pid|] eqn:Ep.
    + destruct (command_quiet pid (set_paused true) w') as (w''&E''&Hq&_&Htm); [done|by apply HI|]. exists w''. split; [done|]. split.
      { eapply changed_trans; [by apply dropped_changed|by apply quiet_changed]. }
      rewrite (q_el _ _ Hq), Hel. split; [done|]. split; [rewrite Htm; apply Hd|]. eapply element_quiet_inv; [done..|]. apply no_timers_ok. rewrite Htm. apply Hd.
    + exists w'. split; [done|]. split; [by apply dropped_changed|]. rewrite Hel. split; [done|]. by split; [apply Hd|].
  - rewrite bool_decide_false by by intros [? ?]. exists w. split; [done|]. split; [by apply quiet_changed|]. split; [done|]. split.
    + destruct (w_timers w) as [|[tid i] ts] eqn:E; [done|]. destruct (i_timers _ HL) as [_ Ht]. rewrite E in Ht.
      destruct (Ht tid i ltac:(left)) as [Hi _]. congruence.
    + split; [done|]. intros id t Hi. congruence.
Qed.

Lemma onConnected_spec w id t : held w id t → w_timers w = [] →
  ∃ w', onConnected id t w = Done w' ∧ quiet (add_listeners (tg_target t) (OTrigger id) (kind_events (tg_kind t)) w) w' ∧ timers_ok w'.
Proof.
  intros Hh Htm. destruct (add_listeners_frame (tg_target t) (OTrigger id) (kind_events (tg_kind t)) w) as [ls E].
  unfold onConnected. rewrite E. set (w1 := on_listeners (λ _, ls) w).
  assert (Hh1 : held w1 id t) by exact Hh. assert (Ht1 : timers_ok w1) by by apply no_timers_ok.
  destruct (tg_kind t) eqn:Ek; try by exists w1. destruct (el_loading (w_el w1)); [by apply trigger_play_tame|].
  eexists. split; [done|]. split; [by apply on_trigger_quiet|]. by apply no_timers_ok.
Qed.

(** A new trigger for the current player. *)
Lemma new_trigger w pid k : Inv w → el_instance (w_el w) = None → w_timers w = [] → el_player (w_el w) = Some pid →
  let '(id, w0) := fresh w in
  let t := mkTrigger k pid (el_target (w_el w0)) None false false false in
  let w1 := on_el (put_instance (Some id)) (on_triggers <[id := t]> w0) in
  ∃ w', with_instance onConnected w1 = Done w' ∧ Inv w' ∧ changed w w'.
Proof.
  intros [HL _] Hi Htm Hp. cbn [fresh]. set (id := w_next w). set (t := mkTrigger _ _ _ _ _ _ _). set (w1 := on_el _ _).
  assert (Hlk : w_triggers w1 !! id = Some t) by apply lookup_insert_eq.
  assert (Ha : alive w1 pid) by exact (i_player _ HL _ Hp).
  assert (Hh : held w1 id t) by (split; [done|]; split; [by exists t|]; split; [done|by apply no_timers_ok]).
  destruct (onConnected_spec w1 id t Hh Htm) as (w'&E&Hq&Ht'). exists w'. split; [unfold with_instance; cbn; rewrite lookup_insert_eq; exact E|].
  destruct (add_listeners_frame (tg_target t) (OTrigger id) (kind_events (tg_kind t)) w1) as [ls El].
  set (w2 := add_listeners (tg_target t) (OTrigger id) (kind_events (tg_kind t)) w1) in *.
  assert (HI2 : Inv w2).
  { rewrite El. split; [split|]; cbn; try done.
    - intros q E'. exact (i_player _ HL _ E').
    - intros i [= <-]. exists t. rewrite lookup_insert_eq. done.
    - intros l. replace ls with (w_listeners w2) by by rewrite El. unfold w2. rewrite elem_add_listeners.
      change (w_listeners w1) with (w_listeners w). rewrite (i_listeners _ HL). unfold listens, trigger_listens, loader_listens. cbn.
      destruct (ls_owner l) as [i|i].
      + split.
        * intros [(Hn&[= ->]&He)|[Hx _]]; [|congruence]. split; [done|]. exists t. by rewrite lookup_insert_eq.
        * intros ([= <-]&t'&Hl&Hn&He). left. rewrite lookup_insert_eq in Hl. by injection Hl as <-.
      + split; [intros [(_&?&_)|?]; done|by right].
    - by apply no_timers_ok.
    - intros Hc. by apply (i_connected _ HL).
    - intros i t' [= <-] Hl. rewrite lookup_insert_eq in Hl. by injection Hl as <-. }
  split; [by eapply element_quiet_inv|]. eapply changed_trans; [|by apply quiet_changed]. rewrite El. split; cbn; try done. by exists (Some id).
Qed.

Lemma triggerChanged_spec w : Loose w → ∃ w' ok, triggerChanged w = Done (w', ok) ∧ Inv w' ∧ changed w w'.
Proof.
  intros HL. unfold triggerChanged. destruct (clear_trigger w HL) as (w1&->&Hc&Hn&Htm&HI). cbn [mbind outcome_bind].
  destruct (el_trigger (w_el w1)) as [[|c name]|]; try (by exists w1, true). destruct (el_player (w_el w1)) as [pid|] eqn:Ep; [|by exists w1, true].
  destruct (lookup_prop _ _) as [k|]; [|by exists w1, false].
  pose proof (new_trigger w1 pid k HI Hn Htm Ep) as Hnew. destruct (fresh w1) as [id w0]. cbv zeta in Hnew.
  destruct Hnew as (w2&->&HI2&Hc2). cbn [mbind outcome_bind]. destruct (match w_players w2 !! pid with Some p => pl_ready p | None => false end).
  - destruct (with_instance_tame w2 onReady HI2) as (w3&->&Hq&Ht); [intros; by apply onReady_tame|]. cbn [mbind outcome_bind]. exists w3, true. split; [done|].
    split; [by eapply element_quiet_inv|]. eapply changed_trans; [done|]. eapply changed_trans; [done|]. by apply quiet_changed.
  - cbn [mbind outcome_bind]. exists w2, true. split; [done|]. split; [done|]. by eapply changed_trans.
Qed.

(** *** Making and destroying players *)

Lemma createPlayer_frame ev w : createPlayer ev w = w ∨ ∃ j, createPlayer ev w = on_jobs (λ js, js ++ [j]) w.
Proof. unfold createPlayer. destruct (el_delayed (w_el w)); [by left|right; by eexists]. Qed.

(** The invariant speaks of neither jobs, waiting calls and delays nor of what the
    element keeps besides its player, its trigger and its loader. *)
Lemma Loose_ext w w' :
  el_player (w_el w') = el_player (w_el w) → el_instance (w_el w') = el_instance (w_el w) → el_delayed (w_el w') = el_delayed (w_el w) →
  (el_connected (w_el w') = false → el_delayed (w_el w) = None) →
  w_players w' = w_players w → w_triggers w' = w_triggers w → w_listeners w' = w_listeners w → w_timers w' = w_timers w →
  Loose w → Loose w'.
Proof.
  intros Ep Ei Ed Ec Epl Etr Els Etm [Hp Hi Hl Ht Hc]. unfold listens, trigger_listens, loader_listens, timers_ok, alive in *.
  split; unfold listens, trigger_listens, loader_listens, timers_ok, alive; rewrite ?Ep, ?Ei, ?Ed, ?Epl, ?Etr, ?Els, ?Etm; done.
Qed.

Lemma Inv_ext w w' :
  el_player (w_el w') = el_player (w_el w) → el_instance (w_el w') = el_instance (w_el w) → el_delayed (w_el w') = el_delayed (w_el w) →
  (el_connected (w_el w') = false → el_delayed (w_el w) = None) →
  w_players w' = w_players w → w_triggers w' = w_triggers w → w_listeners w' = w_listeners w → w_timers w' = w_timers w →
  Inv w → Inv w'.
Proof.
  intros Ep Ei Ed Ec Epl Etr Els Etm [HL Hd]. split; [by eapply Loose_ext|]. rewrite Ep, Ei, Etr. done.
Qed.

Lemma createPlayer_inv ev w : Inv w → Inv (createPlayer ev w).
Proof. intros HI. destruct (createPlayer_frame ev w) as [->|[j ->]]; [done|]. apply (Inv_ext w); try done. apply (i_connected _ (i_loose _ HI)). Qed.

Record destroyed (w w' : world) : Prop := {
  x_el : ∃ c, w_el w' = put_class_ready c (put_player None (put_instance None (put_loaded None (put_isReady false (w_el w)))));
  x_class : el_class_ready (w_el w') = match el_player (w_el w) with Some _ => false | None => el_class_ready (w_el w) end;
  x_alive : ∀ pid, alive w' pid ↔ alive w pid ∧ el_player (w_el w) ≠ Some pid;
  x_delays : w_delays w' = w_delays w;
  x_jobs : w_jobs w' = w_jobs w;
  x_waiting : w_waiting w' = w_waiting w;
  x_timers : w_timers w' = [] }.

Lemma drop_maybe w : Loose w → ∃ w1, (if has_instance w then drop_instance w else Done w) = Done w1 ∧ dropped w w1.
Proof.
  intros HL. unfold has_instance. destruct (el_instance (w_el w)) as [id|] eqn:Ei.
  - rewrite bool_decide_true by by eexists. by eapply drop_instance_spec.
  - rewrite bool_decide_false by by intros [? ?]. exists w. split; [done|]. split; try done.
    + rewrite <- Ei. apply put_instance_same.
    + destruct (w_timers w) as [|[tid i] ts] eqn:E; [done|]. destruct (i_timers _ HL) as [_ Ht]. rewrite E in Ht.
      destruct (Ht tid i ltac:(left)) as [Hi _]. congruence.
    + intros l. rewrite (i_listeners _ HL). unfold listens, trigger_listens. destruct (ls_owner l) as [i|i].
      * split; [intros [? _]; congruence|by intros (?&?&_)].
      * split; [by intros ?; exists i|by intros (?&[= <-]&?)].
Qed.

Lemma destroyPlayer_spec w : Inv w → ∃ w', destroyPlayer w = Done w' ∧ Inv w' ∧ destroyed w w'.
Proof.
  intros HI. unfold destroyPlayer. set (w0 := on_el (put_loaded None) (on_el (put_isReady false) w)).
  assert (HL0 : Loose w0) by (apply (Loose_ext w); try done; [apply (i_connected _ (i_loose _ HI))|apply HI]).
  destruct (drop_maybe w0 HL0) as (w1&->&Hd). cbn [mbind outcome_bind]. pose proof (dropped_inv _ _ HL0 Hd) as HI1. pose proof (d_el _ _ Hd) as Hel.
  assert (Hp1 : el_player (w_el w1) = el_player (w_el w)) by by rewrite Hel. destruct (el_player (w_el w1)) as [pid|] eqn:Ep.
  - destruct (i_player _ (i_loose _ HI1) _ Ep) as (p&Hp&Hc). unfold command. rewrite Hp, Hc. cbn [mbind outcome_bind]. eexists. split; [done|].
    assert (Hal : ∀ q, alive (on_el (put_class_ready false) (on_el (put_player None) (on_players <[pid := pl_disconnect p]> w1))) q ↔ alive w q ∧ el_player (w_el w) ≠ Some q).
    { intros q. rewrite <- Hp1. trans (alive w1 q ∧ Some pid ≠ Some q); [|by rewrite <- (d_alive _ _ Hd q)].
      unfold alive. cbn. destruct (decide (q = pid)) as [->|Hq].
      - rewrite lookup_insert_eq. split; [|by intros [_ ?]]. intros (?&[= <-]&?). done.
      - rewrite lookup_insert_ne by done. split; [intros ?; split; [done|congruence]|by intros [? _]]. }
    split; [split; [split|]|split]; cbn; try done; try apply Hd.
    + intros i Hi. rewrite Hel in Hi. done.
    + intros l. rewrite (i_listeners _ (i_loose _ HI1)). unfold listens, trigger_listens, loader_listens. destruct (ls_owner l); [|done]. cbn. rewrite Hel. cbn.
      split; by intros [? _].
    + apply no_timers_ok, Hd.
    + apply (i_connected _ (i_loose _ HI1)).
    + intros i t Hi. rewrite Hel in Hi. done.
    + rewrite Hel. by exists false.
    + by rewrite <- Hp1.
  - exists w1. split; [done|]. split; [done|]. split; try apply Hd.
    + exists (el_class_ready (w_el w)). rewrite Hel. cbn. unfold put_player, put_class_ready, put_instance, put_loaded, put_isReady. cbn. by rewrite <- Hp1.
    + rewrite <- Hp1. by rewrite Hel.
    + intros q. rewrite <- (d_alive _ _ Hd q), <- Hp1. split; [by split|by intros [? _]].
Qed.

(** *** Delayed loading and events *)

(** What neither events nor delayed loading touch; a loader may call [createPlayer]. *)
Record kept (w w' : world) : Prop := {
  k_player : el_player (w_el w') = el_player (w_el w);
  k_connected : el_connected (w_el w') = el_connected (w_el w);
  k_isReady : el_isReady (w_el w') = el_isReady (w_el w);
  k_class : el_class_ready (w_el w') = el_class_ready (w_el w);
  k_alive : ∀ pid, alive w pid ↔ alive w' pid;
  k_ready : ∀ pid, pl_ready <$> w_players w' !! pid = pl_ready <$> w_players w !! pid;
  k_waiting : w_waiting w' = w_waiting w;
  k_jobs : (w_jobs w' = w_jobs w ∧ el_delayed (w_el w') = el_delayed (w_el w)) ∨
    (el_delayed (w_el w) ≠ None ∧ el_delayed (w_el w') = None ∧ ∃ js, (length js ≤ 1)%nat ∧ w_jobs w' = w_jobs w ++ js) }.

Lemma kept_trans w1 w2 w3 : kept w1 w2 → kept w2 w3 → kept w1 w3.
Proof.
  intros H1 H2. split.
  - by rewrite (k_player _ _ H2), (k_player _ _ H1).
  - by rewrite (k_connected _ _ H2), (k_connected _ _ H1).
  - by rewrite (k_isReady _ _ H2), (k_isReady _ _ H1).
  - by rewrite (k_class _ _ H2), (k_class _ _ H1).
  - intros pid. by rewrite (k_alive _ _ H1), (k_alive _ _ H2).
  - intros pid. by rewrite (k_ready _ _ H2), (k_ready _ _ H1).
  - by rewrite (k_waiting _ _ H2), (k_waiting _ _ H1).
  - destruct (k_jobs _ _ H1) as [[J1 D1]|(N1&D1&js&Hl&J1)], (k_jobs _ _ H2) as [[J2 D2]|(N2&D2&js2&Hl2&J2)].
    + left. split; congruence.
    + right. split; [congruence|]. split; [done|]. exists js2. split; [done|congruence].
    + right. split; [done|]. split; [congruence|]. exists js. split; [done|congruence].
    + congruence.
Qed.

Lemma quiet_kept w w' : quiet w w' → kept w w'.
Proof.
  intros Hq. pose proof (q_el _ _ Hq) as E. split; rewrite ?E; try done; try apply Hq. left. split; [apply Hq|done].
Qed.

Lemma delayedLoading_spec cancel ev w : Inv w →
  Inv (delayedLoading cancel ev w) ∧ kept w (delayedLoading cancel ev w) ∧ el_delayed (w_el (delayedLoading cancel ev w)) = None ∧
  (cancel = true → w_jobs (delayedLoading cancel ev w) = w_jobs w).
Proof.
  intros HI. unfold delayedLoading. destruct (el_delayed (w_el w)) as [d|] eqn:Ed.
  2: { split; [done|]. split; [|done]. split; try done. by left. }
  set (w1 := match d with DInteraction id n => remove_listeners n (OLoader id) interaction_events w | _ => w end).
  assert (Hw1 : ∃ ls, w1 = on_listeners (λ _, ls) w).
  { unfold w1. destruct d as [|id n|]; [by exists (w_listeners w); destruct w|apply remove_listeners_frame|by exists (w_listeners w); destruct w]. }
  assert (Hls : ∀ l, l ∈ w_listeners w1 ↔ ∃ id, ls_owner l = OTrigger id ∧ trigger_listens w l id).
  { intros l. assert (Hbase : l ∈ w_listeners w ↔ listens w l) by apply HI. unfold listens, loader_listens in Hbase. rewrite Ed in Hbase. unfold w1. destruct d as [|id n|].
    - rewrite Hbase. destruct (ls_owner l) as [i|i]; [split; [by intros ?; exists i|by intros (?&[= <-]&?)]|split; [by intros [? _]|by intros (?&?&_)]].
    - rewrite elem_remove_listeners, Hbase. destruct (ls_owner l) as [i|i].
      + split; [by intros [_ ?]; exists i|]. intros (?&[= <-]&?). split; [|done]. by intros (_&?&_).
      + split; [|by intros (?&?&_)]. intros (Hn&[= -> Hnode]&He). exfalso. by apply Hn.
    - rewrite Hbase. destruct (ls_owner l) as [i|i]; [split; [by intros ?; exists i|by intros (?&[= <-]&?)]|split; [by intros [? _]|by intros (?&?&_)]]. }
  destruct Hw1 as [ls E1]. rewrite E1 in *. set (w2 := on_el (put_delayed None) (on_listeners (λ _, ls) w)).
  assert (HI2 : Inv w2).
  { destruct HI as [[Hp Hi Hl Ht Hc] Hd]. split; [split|]; try done. intros l. change (w_listeners w2) with (w_listeners (on_listeners (λ _, ls) w)). rewrite Hls.
    unfold listens, trigger_listens, loader_listens. cbn. destruct (ls_owner l) as [i|i].
    - split; [by intros (?&[= <-]&?)|by intros ?; exists i].
    - split; [by intros (?&?&_)|by intros [? _]]. }
  assert (Hk : ∀ js, (length js ≤ 1)%nat → kept w (on_jobs (λ l, l ++ js) w2)).
  { intros js Hjs. split; try done. right. rewrite Ed. split; [done|]. split; [done|]. by exists js. }
  assert (Hk0 : kept w w2) by (specialize (Hk [] ltac:(simpl; lia)); split; try apply Hk; right; rewrite Ed; split; [done|split; [done|]]; exists []; split; [simpl; lia|by rewrite app_nil_r]).
  destruct cancel; [by split|]. set (e := match d, ev with DInteraction _ n, Some e => Some (n, e) | _, _ => None end).
  destruct (createPlayer_frame e w2) as [E|[j E]].
  - rewrite E. done.
  - split; [by apply createPlayer_inv|]. rewrite E. split; [apply Hk; simpl; lia|done].
Qed.

Lemma call_listener_spec e l w : Inv w → ∃ w', call_listener e l w = Done w' ∧ Inv w' ∧ kept w w'.
Proof.
  intros HI. assert (Hrefl : kept w w) by (by apply quiet_kept). unfold call_listener. case_bool_decide as Hin; [|by exists w].
  destruct (ls_owner l) as [id|id] eqn:Eo.
  - apply (i_listeners _ (i_loose _ HI)) in Hin. unfold listens in Hin. rewrite Eo in Hin. destruct Hin as (Hi&t&Hl&_). rewrite Hl.
    destruct (onEvent_tame e w id t) as (w'&E&Hq&Ht); [by apply inv_held|]. exists w'. split; [done|]. split; [by eapply element_quiet_inv|by apply quiet_kept].
  - destruct (delayedLoading_spec false (Some e) w HI) as (HI'&Hk&_). by eexists.
Qed.

Lemma call_listeners_spec e ls w : Inv w → ∃ w', call_listeners e ls w = Done w' ∧ Inv w' ∧ kept w w'.
Proof.
  revert w. induction ls as [|l ls IH]; intros w HI; [exists w; split; [done|split; [done|by apply quiet_kept]]|]. cbn [call_listeners].
  destruct (call_listener_spec e l w HI) as (w1&->&HI1&Hk1). cbn [mbind outcome_bind]. destruct (IH w1 HI1) as (w2&E&HI2&Hk2).
  exists w2. split; [done|]. split; [done|]. by eapply kept_trans.
Qed.

Lemma send_again_spec ev w : Inv w → ∃ w', send_again ev w = Done w' ∧ Inv w' ∧ kept w w'.
Proof.
  intros HI. unfold send_again. destruct ev as [[n e]|]; [by apply call_listeners_spec|]. exists w. split; [done|]. split; [done|by apply quiet_kept].
Qed.

Record made (pid : nat) (isLoaded : bool) (w w' : world) : Prop := {
  m_el : ∃ x, w_el w' = put_instance x (put_player (Some pid) (w_el w));
  m_alive : ∀ q, alive w' q ↔ q = pid ∨ alive w q;
  m_ready : ∀ q, pl_ready <$> w_players w' !! q = if bool_decide (q = pid) then Some isLoaded else pl_ready <$> w_players w !! q;
  m_jobs : w_jobs w' = w_jobs w;
  m_waiting : ∃ ws, w_waiting w' = w_waiting w ++ ws ∧ Forall (λ x, wt_player x = pid ∧ wt_resolved x = isLoaded) ws }.

Lemma player_made_spec ev data isLoaded w : Inv w →
  ∃ w', player_made ev data isLoaded w = Done w' ∧ Inv w' ∧ made (w_next w) isLoaded w w'.
Proof.
  intros HI. unfold player_made. cbn [fresh]. set (pid := w_next w).
  set (w1 := on_el (put_player (Some pid)) (on_players <[pid := newPlayer data isLoaded]> (on_next S w))).
  assert (Ha1 : ∀ q, alive w1 q ↔ q = pid ∨ alive w q).
  { intros q. unfold alive. cbn. destruct (decide (q = pid)) as [->|Hq].
    - rewrite lookup_insert_eq. split; [by left|]. intros _. by eexists.
    - rewrite lookup_insert_ne by done. split; [by right|by intros [?|?]]. }
  assert (HL1 : Loose w1).
  { destruct HI as [[Hp Hi Hl Ht Hc] Hd]. split; try done.
    - intros q [= <-]. apply Ha1. by left.
    - intros id Hid. destruct (Hi id Hid) as (t&Hlk&Ha). exists t. split; [done|]. apply Ha1. by right. }
  destruct (triggerChanged_spec w1 HL1) as (w2&ok&->&HI2&Hc). cbn [mbind outcome_bind].
  assert (Hready : ∀ q, pl_ready <$> w_players w1 !! q = if bool_decide (q = pid) then Some isLoaded else pl_ready <$> w_players w !! q).
  { intros q. cbn. case_bool_decide as Hq; [subst; by rewrite lookup_insert_eq|by rewrite lookup_insert_ne]. }
  eexists. split; [done|]. set (w3 := if ok then _ else _).
  assert (HI3 : Inv w3). { unfold w3. destruct ok; [|done]. apply (Inv_ext w2); try done. apply (i_connected _ (i_loose _ HI2)). }
  split; [done|]. assert (Hbase : w_el w3 = w_el w2 ∧ w_players w3 = w_players w2 ∧ w_jobs w3 = w_jobs w2) by by destruct ok.
  destruct Hbase as (He&Hpl&Hj). split.
  - rewrite He. destruct (c_el _ _ Hc) as [x E]. by exists x.
  - intros q. rewrite <- Ha1, (c_alive _ _ Hc). unfold alive. by rewrite Hpl.
  - intros q. rewrite Hpl, (c_ready _ _ Hc). apply Hready.
  - rewrite Hj. apply Hc.
  - unfold w3. destruct ok; cbn; rewrite (c_waiting _ _ Hc).
    + eexists. split; [done|]. by apply Forall_singleton.
    + exists []. by rewrite app_nil_r.
Qed.

Lemma connectedCallback_inv w : Inv w → el_connected (w_el w) = false → Inv (connectedCallback w).
Proof.
  intros HI Hc. pose proof (i_connected _ (i_loose _ HI) Hc) as Hd. unfold connectedCallback.
  assert (Hset : ∀ d w0, d = DLazy ∨ d = DDelay → Inv w0 → el_delayed (w_el w0) = None → Inv (on_el (put_connected true) (on_el (put_delayed (Some d)) w0))).
  { intros d w0 Hdd [[Hp Hi Hl Ht Hcc] Hdr] Hn. split; [split|]; try done. intros l. cbn. rewrite Hl. unfold listens, trigger_listens, loader_listens. cbn. rewrite Hn.
    destruct (ls_owner l); [done|]. split; [by intros [? _]|]. intros [H _]. destruct Hdd; congruence. }
  destruct (loading_is "lazy" w); [apply Hset; [by left|done|done]|].
  destruct (loading_is "interaction" w).
  - cbn [fresh]. set (id := w_next w). set (n := el_target _).
    destruct (add_listeners_frame n (OLoader id) interaction_events (on_el (put_delayed (Some (DInteraction id n))) (on_next S w))) as [ls E].
    set (w1 := add_listeners n (OLoader id) interaction_events (on_el (put_delayed (Some (DInteraction id n))) (on_next S w))) in *.
    assert (Hls : ∀ l, l ∈ w_listeners w1 ↔ (ls_node l = n ∧ ls_owner l = OLoader id ∧ ls_event l ∈ interaction_events) ∨ l ∈ w_listeners w).
    { intros l. exact (elem_add_listeners n (OLoader id) interaction_events l (on_el (put_delayed (Some (DInteraction id n))) (on_next S w))). }
    clearbody w1. subst w1. destruct HI as [[Hp Hi Hl Ht Hcc] Hdr]. split; [split|]; try done. intros l.
    change (w_listeners (on_el _ _)) with (w_listeners (on_listeners (λ _, ls) (on_el (put_delayed (Some (DInteraction id n))) (on_next S w)))). rewrite Hls, Hl.
    unfold listens, trigger_listens, loader_listens. cbn. rewrite Hd. destruct (ls_owner l) as [i|i].
    + split; [by intros [(_&?&_)|?]|by right].
    + split; [intros [(->&[= ->]&?)|[? _]]; done|]. intros [[= <- Hn] He]. left. done.
  - destruct (loading_is "delay" w).
    + change (Inv (on_delays S (on_el (put_connected true) (on_el (put_delayed (Some DDelay)) w)))).
      apply (Inv_ext (on_el (put_connected true) (on_el (put_delayed (Some DDelay)) w))); try done. apply Hset; [by right|done|done].
    + apply (Inv_ext (createPlayer None w)); try done. by apply createPlayer_inv.
Qed.

Lemma disconnectedCallback_spec w : Inv w → ∃ w', disconnectedCallback w = Done w' ∧ Inv w' ∧
  el_connected (w_el w') = false ∧ el_player (w_el w') = None ∧ el_instance (w_el w') = None ∧ el_delayed (w_el w') = None ∧
  el_isReady (w_el w') = false ∧ w_timers w' = [] ∧ w_listeners w' = [] ∧ w_jobs w' = w_jobs w ∧ w_waiting w' = w_waiting w ∧
  (∀ pid, alive w' pid ↔ alive w pid ∧ el_player (w_el w) ≠ Some pid).
Proof.
  intros HI. unfold disconnectedCallback. destruct (delayedLoading_spec true None w HI) as (HI1&Hk&Hd&Hj). specialize (Hj eq_refl).
  set (w1 := delayedLoading true None w) in *. destruct (destroyPlayer_spec w1 HI1) as (w2&->&HI2&Hx). cbn [mbind outcome_bind].
  destruct (x_el _ _ Hx) as [c Hel]. eexists. split; [done|]. assert (Hd2 : el_delayed (w_el w2) = None) by by rewrite Hel.
  assert (HI3 : Inv (on_el (put_connected false) w2)) by by apply (Inv_ext w2).
  split; [done|]. cbn. rewrite Hel. cbn. split_and!; try done; try apply Hx.
  - destruct (w_listeners w2) as [|l ls] eqn:E; [done|]. assert (Hin : l ∈ w_listeners w2) by (rewrite E; by left).
    apply (i_listeners _ (i_loose _ HI2)) in Hin. unfold listens, trigger_listens, loader_listens in Hin. rewrite Hel in Hin. cbn in Hin. rewrite Hd in Hin.
    destruct (ls_owner l); by destruct Hin.
  - by rewrite (x_jobs _ _ Hx).
  - by rewrite (x_waiting _ _ Hx), (k_waiting _ _ Hk).
  - intros pid. change (alive (on_el (put_connected false) w2) pid) with (alive w2 pid). by rewrite (x_alive _ _ Hx), (k_player _ _ Hk), (k_alive _ _ Hk).
Qed.

(** ** Every turn *)

Lemma changed_inv_ext (f : element → element) w :
  (∀ e, el_player (f e) = el_player e ∧ el_instance (f e) = el_instance e ∧ el_delayed (f e) = el_delayed e ∧ el_connected (f e) = el_connected e) →
  Inv w → Inv (on_el f w).
Proof.
  intros Hf HI. destruct (Hf (w_el w)) as (H1&H2&H3&H4). apply (Inv_ext w); try done. cbn. rewrite H4. apply (i_connected _ (i_loose _ HI)).
Qed.

Lemma srcChanged_inv w : Inv w → ∃ w', srcChanged w = Done w' ∧ Inv w'.
Proof.
  intros HI. unfold srcChanged. destruct (el_connected (w_el w)); [|by exists w]. destruct (destroyPlayer_spec w HI) as (w1&->&HI1&_).
  eexists. split; [done|]. by apply createPlayer_inv.
Qed.

(** What changes of a player that neither lives nor dies. *)
Lemma on_player_inv w pid p p' : w_players w !! pid = Some p → pl_connected p' = pl_connected p → Inv w →
  Inv (on_players <[pid := p']> w) ∧ ∀ q, alive w q ↔ alive (on_players <[pid := p']> w) q.
Proof.
  intros Hp Hc [[Hpl Hi Hl Ht Hcc] Hd]. assert (Ha : ∀ q, alive w q ↔ alive (on_players <[pid := p']> w) q).
  { intros q. unfold alive. cbn. destruct (decide (q = pid)) as [->|Hq]; [|by rewrite lookup_insert_ne by done].
    rewrite lookup_insert_eq, Hp. split; intros (?&[= <-]&?); eexists; (split; [done|congruence]). }
  split; [|done]. split; [split|]; try done.
  - intros q E. by apply Ha, Hpl.
  - intros id E. destruct (Hi _ E) as (t&Hlk&Hal). exists t. split; [done|]. by apply Ha.
Qed.

Lemma resume_spec k data isLoaded w : Inv w → ∃ w', resume k data isLoaded w = Done w' ∧ Inv w' ∧
  match w_jobs w !! k with
  | None => w' = w
  | Some j =>
      let w0 := on_jobs (λ js, take k js ++ drop (S k) js) w in
      kept w0 w' ∨ ∃ l, made (w_next w) isLoaded (on_el (put_loaded l) w0) w'
  end.
Proof.
  intros HI. unfold resume. destruct (w_jobs w !! k) as [j|]; [|by exists w]. set (w0 := on_jobs _ w).
  assert (HI0 : Inv w0) by (apply (Inv_ext w); try done; apply (i_connected _ (i_loose _ HI))).
  assert (Hput : ∀ l, Inv (on_el (put_loaded l) w0)) by (intros l; by apply changed_inv_ext).
  assert (Hsame : w0 = on_el (put_loaded (el_loaded (w_el w0))) w0) by (clearbody w0; by destruct w0 as [[] ? ? ? ? ? ? ? ?]).
  destruct (jb_source j) as [d|url|].
  - destruct (player_made_spec (jb_event j) d isLoaded w0 HI0) as (w'&E&HI'&Hm). exists w'. split; [done|]. split; [done|].
    right. exists (el_loaded (w_el w0)). rewrite <- Hsame. exact Hm.
  - destruct data as [d|]; [|exists w0; split; [done|split; [done|by left; apply quiet_kept]]].
    destruct (player_made_spec (jb_event j) d isLoaded _ (Hput (Some d))) as (w'&E&HI'&Hm). exists w'. split; [done|]. split; [done|]. right. by exists (Some d).
  - destruct (send_again_spec (jb_event j) w0 HI0) as (w'&E&HI'&Hk). exists w'. by split; [destruct data|split; [|left]].
Qed.

Lemma continue_spec k w : Inv w → ∃ w', continue k w = Done w' ∧ Inv w' ∧
  (w' = w ∨ ∃ x, w_waiting w !! k = Some x ∧ wt_resolved x = true ∧ kept (player_ready (on_waiting (λ ws, take k ws ++ drop (S k) ws) w)) w').
Proof.
  intros HI. unfold continue. destruct (w_waiting w !! k) as [x|] eqn:Ek; [|exists w; by split; [|split; [|left]]].
  destruct (wt_resolved x) eqn:Ex; [|exists w; by split; [|split; [|left]]]. set (w0 := player_ready _).
  assert (HI0 : Inv w0) by (apply (Inv_ext w); try done; apply (i_connected _ (i_loose _ HI))).
  destruct (send_again_spec (wt_event x) w0 HI0) as (w'&E&HI'&Hk). exists w'. split; [done|]. split; [done|]. right. by exists x.
Qed.

Lemma timeout_inv tid w : Inv w → ∃ w', turn (Timeout tid) w = Done w' ∧ Inv w' ∧ kept w w'.
Proof.
  intros HI. assert (Hrefl : kept w w) by by apply quiet_kept. cbn [turn]. destruct (list_find _ _) as [[k [tid' id]]|] eqn:Ef; [|by exists w].
  apply list_find_Some in Ef as (Hk&_&_). set (w0 := on_timers _ w).
  destruct (i_timers _ (i_loose _ HI)) as [Hlen Ht]. destruct (Ht tid' id) as (Hi&t&Hl&_); [by eapply list_elem_of_lookup_2|].
  assert (Htm : w_timers w0 = []).
  { change (take k (w_timers w) ++ drop (S k) (w_timers w) = []). destruct (w_timers w) as [|x [|]]; [done| |simpl in Hlen; lia]. by destruct k. }
  assert (HI0 : Inv w0). { destruct HI as [[Hp Hin Hls _ Hc] Hd]. split; [split|]; try done. by apply no_timers_ok. }
  change (w_triggers w0 !! id) with (w_triggers w !! id). rewrite Hl.
  destruct (onTimeout_tame w0 id t) as (w'&E&Hq&Ht'); [by apply inv_held|done|]. exists w'. split; [done|]. split; [by eapply element_quiet_inv|].
  eapply kept_trans; [|by apply quiet_kept]. split; try done. by left.
Qed.

Lemma visible_inv w : Inv w → ∃ w', turn Visible w = Done w' ∧ Inv w' ∧ kept w w'.
Proof.
  intros HI. cbn [turn].
  assert (Hv : ∃ w', with_instance (λ id t w, if tg_observing t then w ← trigger_play id t w; Done (on_trigger id (set_observing false) w) else Done w) w = Done w' ∧ Inv w' ∧ kept w w').
  { destruct (with_instance_tame w (λ id t w, if tg_observing t then w ← trigger_play id t w; Done (on_trigger id (set_observing false) w) else Done w) HI) as (w'&E&Hq&Ht).
    - intros id t Hh. cbv beta. destruct (tg_observing t); [|apply tame_done, Hh]. apply tame_bind; [by apply trigger_play_tame|].
      intros w' _ _ Ht. exists (on_trigger id (set_observing false) w'). split; [done|]. split; [by apply on_trigger_quiet|]. by apply on_trigger_timers.
    - exists w'. split; [done|]. split; [by eapply element_quiet_inv|by apply quiet_kept]. }
  destruct (el_delayed (w_el w)) as [[]|]; try exact Hv. destruct (delayedLoading_spec false None w HI) as (HI'&Hk&_). by eexists.
Qed.

Lemma ready_spec pid w : Inv w → ∃ w', turn (Ready pid) w = Done w' ∧ Inv w' ∧
  (w' = w ∨ ∃ w1, kept w1 w' ∧ w1 = on_waiting (fmap (resolve pid)) (on_players <[pid := set_ready (default (newPlayer 0 false) (w_players w !! pid))]> w) ∧ alive w pid).
Proof.
  intros HI. cbn [turn]. destruct (w_players w !! pid) as [p|] eqn:Ep; [|exists w; by split; [|split; [|left]]].
  destruct (pl_connected p) eqn:Ec; [|exists w; by split; [|split; [|left]]]. cbn [andb].
  destruct (negb (pl_ready p)); [|exists w; by split; [|split; [|left]]].
  destruct (on_player_inv w pid p (set_ready p) Ep) as [HI0 Ha]; [done|done|]. set (w0 := on_players _ w) in *.
  destruct (with_instance_tame w0 onReady HI0) as (w1&->&Hq&Ht); [intros; by apply onReady_tame|]. cbn [mbind outcome_bind].
  assert (HI1 : Inv w1) by by eapply element_quiet_inv. eexists. split; [done|]. split; [apply (Inv_ext w1); try done; apply (i_connected _ (i_loose _ HI1))|].
  right. exists (on_waiting (fmap (resolve pid)) w0). split; [|split; [done|by exists p]].
  destruct (quiet_kept _ _ Hq) as [H1 H2 H3 H4 H5 H6 H7 H8]. split; try done. cbn. by rewrite H7.
Qed.

Lemma complete_inv pid w : Inv w → ∃ w', turn (Complete pid) w = Done w' ∧ Inv w' ∧ kept w w'.
Proof.
  intros HI. assert (Hrefl : kept w w) by by apply quiet_kept. cbn [turn]. destruct (w_players w !! pid) as [p|] eqn:Ep; [|by exists w].
  destruct (_ && _); [|by exists w]. destruct (on_player_inv w pid p (set_paused true p) Ep) as [HI0 Ha]; [done|done|].
  destruct (with_instance_tame _ onComplete HI0) as (w1&->&Hq&Ht); [intros; by apply onComplete_tame|].
  exists w1. split; [done|]. split; [by eapply element_quiet_inv|]. eapply kept_trans; [|by apply quiet_kept]. split; try done; [|by left].
  intros q. cbn. destruct (decide (q = pid)) as [->|Hq']; [by rewrite lookup_insert_eq, Ep|by rewrite lookup_insert_ne].
Qed.

Lemma delay_timeout_inv w : Inv w → ∃ w', turn DelayTimeout w = Done w' ∧ Inv w' ∧ kept w w'.
Proof.
  intros HI. cbn [turn]. destruct (w_delays w) as [|n]; [exists w; split; [done|split; [done|by apply quiet_kept]]|].
  set (w0 := on_delays _ w). assert (HI0 : Inv w0) by (apply (Inv_ext w); try done; apply (i_connected _ (i_loose _ HI))).
  destruct (delayedLoading_spec false None w0 HI0) as (HI'&Hk&_). eexists. split; [done|]. split; [done|]. eapply kept_trans; [|done]. split; try done. by left.
Qed.

Lemma trigger_turn (f : element → element) w :
  (∀ e, el_player (f e) = el_player e ∧ el_instance (f e) = el_instance e ∧ el_delayed (f e) = el_delayed e ∧ el_connected (f e) = el_connected e) →
  Inv w → ∃ w', ('(w, _) ← triggerChanged (on_el f w); Done w) = Done w' ∧ Inv w' ∧ changed (on_el f w) w'.
Proof.
  intros Hf HI. pose proof (changed_inv_ext f w Hf HI) as HI0. destruct (triggerChanged_spec _ (i_loose _ HI0)) as (w'&ok&->&HI'&Hc).
  by exists w'.
Qed.

Lemma turn_inv i w : Inv w → ∃ w', turn i w = Done w' ∧ Inv w'.
Proof.
  intros HI. destruct i as [d|s|t|n|l|b| | |k data isLoaded|pid|k|pid|n e|tid| |].
  - cbn [turn]. case_bool_decide; [by exists w|]. apply srcChanged_inv. by apply changed_inv_ext.
  - apply srcChanged_inv. by apply changed_inv_ext.
  - destruct (trigger_turn (put_trigger t) w) as (w'&E&HI'&_); [done|done|by exists w'].
  - destruct (trigger_turn (put_target n) w) as (w'&E&HI'&_); [done|done|by exists w'].
  - eexists. split; [done|]. by apply changed_inv_ext.
  - eexists. split; [done|]. by apply changed_inv_ext.
  - cbn [turn]. destruct (el_connected (w_el w)) eqn:Ec; [by exists w|]. eexists. split; [done|]. by apply connectedCallback_inv.
  - cbn [turn]. destruct (el_connected (w_el w)) eqn:Ec; [|by exists w]. destruct (disconnectedCallback_spec w HI) as (w'&E&HI'&_). by exists w'.
  - destruct (resume_spec k data isLoaded w HI) as (w'&E&HI'&_). by exists w'.
  - destruct (ready_spec pid w HI) as (w'&E&HI'&_). by exists w'.
  - destruct (continue_spec k w HI) as (w'&E&HI'&_). by exists w'.
  - destruct (complete_inv pid w HI) as (w'&E&HI'&_). by exists w'.
  - destruct (call_listeners_spec e (List.filter (λ l, Nat.eqb (ls_node l) n && bool_decide (ls_event l = e)) (w_listeners w)) w HI) as (w'&E&HI'&_). by exists w'.
  - destruct (timeout_inv tid w HI) as (w'&E&HI'&_). by exists w'.
  - destruct (delay_timeout_inv w HI) as (w'&E&HI'&_). by exists w'.
  - destruct (visible_inv w HI) as (w'&E&HI'&_). by exists w'.
Qed.

Lemma initial_inv : Inv initial.
Proof.
  split; [split|]; try done; [|by apply no_timers_ok]. intros l. cbn. unfold listens, trigger_listens, loader_listens.
  split; [by intros ?%elem_of_nil|]. destruct (ls_owner l); by intros [? _].
Qed.

Lemma run_inv inputs w : Inv w → ∃ w', run inputs w = Done w' ∧ Inv w'.
Proof.
  revert w. induction inputs as [|i inputs IH]; intros w HI; [by exists w|]. cbn [run]. destruct (turn_inv i w HI) as (w1&->&HI1). by apply IH.
Qed.

(** C35: whatever happens in whatever order, no command reaches a player that is gone; the
    listeners are exactly those of the live trigger and of the loader that waits, at most
    one timeout is under way and it is the live trigger's, and that trigger drives the
    element's player, which lives.  Out of the page nothing listens and nothing is timed. *)
Theorem element_hygiene (inputs : list input) : Forall no_sequence inputs →
  ∃ w, run inputs initial = Done w ∧
    (∀ l, l ∈ w_listeners w ↔ listens w l) ∧ timers_ok w ∧
    (∀ id, el_instance (w_el w) = Some id → ∃ t, w_triggers w !! id = Some t ∧ el_player (w_el w) = Some (tg_player t) ∧ alive w (tg_player t)) ∧
    (el_connected (w_el w) = true → ∃ w', run (inputs ++ [Disconnected]) initial = Done w' ∧
       w_listeners w' = [] ∧ w_timers w' = [] ∧ el_player (w_el w') = None ∧ el_delayed (w_el w') = None).
Proof.
  intros _. destruct (run_inv inputs initial initial_inv) as (w&E&HI). exists w. split; [done|]. split; [apply HI|]. split; [apply HI|]. split.
  - intros id Hi. destruct (i_instance _ (i_loose _ HI) _ Hi) as (t&Hl&Ha). exists t. split; [done|]. split; [|done]. by apply (i_driven _ HI id).
  - intros Hc. destruct (disconnectedCallback_spec w HI) as (w'&E'&_&_&Hp&_&Hd&_&Ht&Hls&_). exists w'. split_and!; try done.
    assert (Happ : ∀ xs ys w0, run (xs ++ ys) w0 = w ← run xs w0; run ys w).
    { induction xs as [|i xs IH]; intros ys w0; [done|]. cbn [run app]. destruct (turn i w0); try done. apply IH. }
    rewrite Happ, E. cbn [mbind outcome_bind run turn]. by rewrite Hc, E'.
Qed.

(** ** One player at a time *)

(** Nothing is under way that would touch the players. *)
Definition settled (w : world) : bool := bool_decide (w_jobs w = []) && forallb (λ x, negb (wt_resolved x)) (w_waiting w).

(** The document and the place of the element change only then. *)
Definition calm_turn (i : input) (w : world) : bool :=
  match i with SetIconData _ | SetSrc _ | Connected | Disconnected => settled w | _ => true end.

Fixpoint calm (inputs : list input) (w : world) : bool :=
  match inputs with
  | [] => true
  | i :: inputs => calm_turn i w && match turn i w with Done w => calm inputs w | _ => true end
  end.

Definition player_is_ready (w : world) (pid : nat) : Prop := pl_ready <$> w_players w !! pid = Some true.

Record One (w : world) : Prop := {
  o_only : ∀ pid, alive w pid → el_player (w_el w) = Some pid;
  o_jobs : (length (w_jobs w) ≤ 1)%nat;
  o_loading : w_jobs w ≠ [] → el_player (w_el w) = None ∧ el_connected (w_el w) = true;
  o_delayed : el_delayed (w_el w) ≠ None → el_player (w_el w) = None ∧ w_jobs w = [];
  o_out : el_connected (w_el w) = false → el_player (w_el w) = None;
  o_ready : el_isReady (w_el w) = true → ∃ pid, el_player (w_el w) = Some pid ∧ player_is_ready w pid;
  o_class : el_class_ready (w_el w) = el_isReady (w_el w);
  o_resolved : ∀ x, x ∈ w_waiting w → wt_resolved x = true → el_player (w_el w) = Some (wt_player x) ∧ player_is_ready w (wt_player x) }.

Lemma settledE w : settled w = true → w_jobs w = [] ∧ ∀ x, x ∈ w_waiting w → wt_resolved x = false.
Proof.
  unfold settled. intros [Hj Hw]%andb_true_iff. apply bool_decide_eq_true in Hj. split; [done|]. intros x Hx.
  rewrite forallb_forall in Hw. apply negb_true_iff, Hw. by apply list_elem_of_In.
Qed.

Lemma One_kept w w' : Inv w → One w → kept w w' → One w'.
Proof.
  intros HI [H1 H2 H3 H4 H5 H6 H7 H8] [Kp Kc Kr Kcl Ka Kre Kw Kj]. unfold player_is_ready in *. split; rewrite ?Kp, ?Kc, ?Kr, ?Kcl, ?Kw; try done.
  - intros pid Ha. by apply H1, Ka.
  - destruct Kj as [[-> _]|(Hd&_&js&Hl&->)]; [done|]. destruct (H4 Hd) as [_ ->]. done.
  - destruct Kj as [[-> _]|(Hd&_&js&Hl&->)]; [done|]. intros _. split; [by apply H4|].
    destruct (el_connected (w_el w)) eqn:E; [done|]. apply (i_connected _ (i_loose _ HI)) in E. done.
  - destruct Kj as [[-> ->]|(Hd&->&_)]; done.
  - intros Hr. destruct (H6 Hr) as (pid&?&?). exists pid. unfold player_is_ready. by rewrite Kre.
  - intros x Hx Hr. destruct (H8 x Hx Hr). unfold player_is_ready. by rewrite Kre.
Qed.

Lemma One_changed w w' : One w → changed w w' → One w'.
Proof.
  intros [H1 H2 H3 H4 H5 H6 H7 H8] Hc. destruct (c_el _ _ Hc) as [x Hel]. unfold player_is_ready in *.
  split; unfold player_is_ready; rewrite ?Hel, ?(c_jobs _ _ Hc), ?(c_waiting _ _ Hc); try done.
  - intros pid Ha. by apply H1, (c_alive _ _ Hc).
  - intros Hr. destruct (H6 Hr) as (pid&?&?). exists pid. by rewrite (c_ready _ _ Hc).
  - intros y Hy Hr. destruct (H8 y Hy Hr). by rewrite (c_ready _ _ Hc).
Qed.

Lemma One_el f w : (∀ e, el_player (f e) = el_player e ∧ el_delayed (f e) = el_delayed e ∧ el_connected (f e) = el_connected e ∧
  el_isReady (f e) = el_isReady e ∧ el_class_ready (f e) = el_class_ready e) → One w → One (on_el f w).
Proof.
  intros Hf [H1 H2 H3 H4 H5 H6 H7 H8]. destruct (Hf (w_el w)) as (E1&E2&E3&E4&E5). unfold player_is_ready in *.
  split; unfold player_is_ready; cbn; rewrite ?E1, ?E2, ?E3, ?E4, ?E5; done.
Qed.

Lemma One_createPlayer ev w : One w → el_player (w_el w) = None → w_jobs w = [] → (el_delayed (w_el w) = None → el_connected (w_el w) = true) →
  One (createPlayer ev w).
Proof.
  intros [H1 H2 H3 H4 H5 H6 H7 H8] Hp Hj Hc. unfold createPlayer. destruct (el_delayed (w_el w)) eqn:Ed; [by split; rewrite ?Ed|].
  split; cbn; rewrite ?Hj; try done. intros _. by split; [|apply Hc].
Qed.

Lemma One_destroyed w w' : One w → settled w = true → destroyed w w' → One w' ∧ el_player (w_el w') = None ∧ w_jobs w' = [].
Proof.
  intros [H1 H2 H3 H4 H5 H6 H7 H8] [Hj Hw]%settledE Hx. destruct (x_el _ _ Hx) as [c Hel].
  assert (Hcl : el_class_ready (w_el w') = false).
  { rewrite (x_class _ _ Hx). destruct (el_player (w_el w)) eqn:Ep; [done|]. rewrite H7. destruct (el_isReady (w_el w)); [|done].
    destruct (H6 eq_refl) as (?&?&_). congruence. }
  assert (Hp : el_player (w_el w') = None) by by rewrite Hel. assert (Hj' : w_jobs w' = []) by by rewrite (x_jobs _ _ Hx).
  assert (Hr : el_isReady (w_el w') = false) by by rewrite Hel.
  split; [|done]. split; rewrite ?Hp, ?Hj', ?Hr; try done.
  - intros pid [Ha Hne]%(x_alive _ _ Hx). exfalso. by apply Hne, H1.
  - simpl. lia.
  - intros x Hx' Hres. rewrite (x_waiting _ _ Hx) in Hx'. rewrite Hw in Hres; done.
Qed.

Lemma One_srcChanged w w' : Inv w → One w → settled w = true → srcChanged w = Done w' → One w'.
Proof.
  intros HI HO Hs. unfold srcChanged. destruct (el_connected (w_el w)) eqn:Ec; [|by intros [= <-]].
  destruct (destroyPlayer_spec w HI) as (w1&->&HI1&Hx). cbn [mbind outcome_bind]. intros [= <-].
  destruct (One_destroyed w w1 HO Hs Hx) as (HO1&Hp&Hj). apply One_createPlayer; [done..|]. intros _. destruct (x_el _ _ Hx) as [c ->]. done.
Qed.

Lemma One_connectedCallback w : One w → el_connected (w_el w) = false → settled w = true → One (connectedCallback w).
Proof.
  intros [H1 H2 H3 H4 H5 H6 H7 H8] Hc [Hj Hw]%settledE. pose proof (H5 Hc) as Hp. unfold connectedCallback. unfold player_is_ready in *.
  assert (Hset : ∀ d, One (on_el (put_connected true) (on_el (put_delayed (Some d)) w))).
  { intros d. split; unfold player_is_ready; cbn; rewrite ?Hj; try done; simpl; lia. }
  destruct (loading_is "lazy" w); [apply Hset|]. destruct (loading_is "interaction" w).
  - cbn [fresh]. set (n := el_target _). destruct (add_listeners_frame n (OLoader (w_next w)) interaction_events (on_el (put_delayed (Some (DInteraction (w_next w) n))) (on_next S w))) as [ls ->].
    destruct (Hset (DInteraction (w_next w) n)) as [A1 A2 A3 A4 A5 A6 A7 A8]. by split.
  - destruct (loading_is "delay" w); [destruct (Hset DDelay) as [A1 A2 A3 A4 A5 A6 A7 A8]; by split|].
    unfold createPlayer. destruct (el_delayed (w_el w)) eqn:Ed.
    + split; unfold player_is_ready; cbn; rewrite ?Hj, ?Ed; try done; simpl; lia.
    + split; unfold player_is_ready; cbn; rewrite ?Hj, ?Ed; try done; simpl; lia.
Qed.

Lemma elem_take_drop {A} k (x : A) l : x ∈ take k l ++ drop (S k) l → x ∈ l.
Proof.
  intros [H|H]%elem_of_app; [by apply elem_of_take in H as (i&?&_); eapply list_elem_of_lookup_2|].
  apply list_elem_of_lookup in H as [i Hi]. rewrite lookup_drop in Hi. by eapply list_elem_of_lookup_2.
Qed.

Lemma One_resume k data isLoaded w w' : Inv w → One w → resume k data isLoaded w = Done w' → One w'.
Proof.
  intros HI HO E. destruct (resume_spec k data isLoaded w HI) as (w2&E2&_&Hk). rewrite E in E2. injection E2 as <-.
  destruct (w_jobs w !! k) as [j|] eqn:Ej; [|by subst]. pose proof HO as [H1 H2 H3 H4 H5 H6 H7 H8].
  assert (Hjobs : w_jobs w = [j] ∧ k = 0%nat).
  { destruct (w_jobs w) as [|j0 [|]]; [done| |simpl in H2; lia]. destruct k; [|done]. by injection Ej as ->. }
  destruct Hjobs as [Hj ->]. destruct H3 as [Hp Hc]; [by rewrite Hj|].
  assert (Hd : el_delayed (w_el w) = None). { destruct (el_delayed (w_el w)); [|done]. destruct H4 as [_ Hj']; [done|]. congruence. }
  assert (Hr : el_isReady (w_el w) = false). { destruct (el_isReady (w_el w)); [|done]. destruct H6 as (?&?&_); [done|congruence]. }
  set (w0 := on_jobs (λ js, take 0 js ++ drop 1 js) w) in *. assert (Hj0 : w_jobs w0 = []) by (cbn; by rewrite Hj).
  assert (HO0 : One w0) by (split; rewrite ?Hj0; try done; simpl; lia).
  assert (HI0 : Inv w0) by (apply (Inv_ext w); try done; apply (i_connected _ (i_loose _ HI))).
  destruct Hk as [Hk|[l Hm]]; [by eapply One_kept|]. destruct (m_el _ _ _ _ Hm) as [x Hel].
  assert (Hready : player_is_ready w' (w_next w) ↔ isLoaded = true).
  { unfold player_is_ready. rewrite (m_ready _ _ _ _ Hm), bool_decide_true by done. split; [by intros [= ->]|by intros ->]. }
  split; rewrite ?Hel, ?(m_jobs _ _ _ _ Hm); cbn; rewrite ?Hj; cbn; rewrite ?Hd, ?Hr, ?Hc; try done.
  - intros pid [->|Ha]%(m_alive _ _ _ _ Hm); [done|]. change (alive w pid) in Ha. apply H1 in Ha. congruence.
  - lia.
  - by rewrite H7.
  - intros y Hy Hres. destruct (m_waiting _ _ _ _ Hm) as (ws&Ews&Hws). rewrite Ews in Hy. apply elem_of_app in Hy as [Hy|Hy].
    + change (y ∈ w_waiting w) in Hy. destruct (H8 y Hy Hres). congruence.
    + rewrite Forall_forall in Hws. destruct (Hws y Hy) as [-> Hr']. split; [done|]. apply Hready. congruence.
Qed.

Lemma One_ready_turn pid w w' : Inv w → One w → turn (Ready pid) w = Done w' → One w'.
Proof.
  intros HI HO E. destruct (ready_spec pid w HI) as (w2&E2&_&Hk). rewrite E in E2. injection E2 as <-.
  destruct Hk as [->|(w1&Hk&->&Ha)]; [done|]. pose proof HO as [H1 H2 H3 H4 H5 H6 H7 H8]. pose proof (H1 _ Ha) as Hp.
  destruct Ha as (p&Hl&Hc). rewrite Hl in Hk. cbn [default from_option id] in Hk.
  destruct (on_player_inv w pid p (set_ready p) Hl) as [HI0 Hal]; [done|done|].
  set (w0 := on_players <[pid := set_ready p]> w) in *.
  assert (Hready : ∀ q, player_is_ready w q ∨ q = pid → player_is_ready w0 q).
  { intros q Hq. unfold player_is_ready. cbn. destruct (decide (q = pid)) as [->|Hne]; [by rewrite lookup_insert_eq|].
    rewrite lookup_insert_ne by done. by destruct Hq. }
  apply (One_kept (on_waiting (fmap (resolve pid)) w0)); [apply (Inv_ext w0); try done; apply (i_connected _ (i_loose _ HI0))| |done].
  split; cbn; try done.
  - intros q Hq. apply H1, Hal. exact Hq.
  - intros Hr. destruct (H6 Hr) as (q&Hq&Hqr). exists q. split; [done|]. apply Hready. by left.
  - intros x Hx Hres. apply list_elem_of_fmap in Hx as (y&->&Hy). cbn in *. apply orb_true_iff in Hres as [Hres|Hp0%Nat.eqb_eq].
    + destruct (H8 y Hy Hres). split; [done|]. apply Hready. by left.
    + rewrite Hp0. split; [done|]. apply Hready. by right.
Qed.

Lemma One_continue k w w' : Inv w → One w → continue k w = Done w' → One w'.
Proof.
  intros HI HO E. destruct (continue_spec k w HI) as (w2&E2&_&Hk). rewrite E in E2. injection E2 as <-.
  destruct Hk as [->|(x&Hx&Hres&Hk)]; [done|]. pose proof HO as [H1 H2 H3 H4 H5 H6 H7 H8].
  eapply One_kept; [|  |exact Hk].
  - apply (Inv_ext w); try done. apply (i_connected _ (i_loose _ HI)).
  - destruct (H8 x) as [Hp Hr]; [by eapply list_elem_of_lookup_2|done|]. split; cbn; try done.
    + intros _. by exists (wt_player x).
    + intros y Hy. apply H8. by eapply elem_take_drop.
Qed.

Lemma One_turn i w w' : Inv w → One w → calm_turn i w = true → turn i w = Done w' → One w'.
Proof.
  intros HI HO Hc E. destruct i as [d|s|t|n|l|b| | |k data isLoaded|pid|k|pid|n e|tid| |]; cbn [calm_turn] in Hc.
  - cbn [turn] in E. case_bool_decide; [by injection E as <-|]. apply (One_srcChanged (on_el (put_assigned d) w)); [by apply changed_inv_ext|by apply One_el|exact Hc|exact E].
  - cbn [turn] in E. apply (One_srcChanged (on_el (put_src s) w)); [by apply changed_inv_ext|by apply One_el|exact Hc|exact E].
  - destruct (trigger_turn (put_trigger t) w) as (w2&E2&_&Hch); [done|done|]. cbn [turn] in E. rewrite E in E2. injection E2 as <-.
    eapply One_changed; [|exact Hch]. by apply One_el.
  - destruct (trigger_turn (put_target n) w) as (w2&E2&_&Hch); [done|done|]. cbn [turn] in E. rewrite E in E2. injection E2 as <-.
    eapply One_changed; [|exact Hch]. by apply One_el.
  - injection E as <-. by apply One_el.
  - injection E as <-. by apply One_el.
  - cbn [turn] in E. destruct (el_connected (w_el w)) eqn:Ec; [by injection E as <-|]. injection E as <-. by apply One_connectedCallback.
  - cbn [turn] in E. destruct (el_connected (w_el w)) eqn:Ec; [|by injection E as <-].
    destruct (disconnectedCallback_spec w HI) as (w2&E2&_&_&Hp&_&Hd&Hr&_&_&Hj&Hw&Ha). rewrite E in E2. injection E2 as <-.
    pose proof (settledE _ Hc) as [Hjs Hws]. rewrite Hjs in Hj.
    assert (Hcl : el_class_ready (w_el w') = false).
    { clear -HI HO E Ec. unfold disconnectedCallback in E. destruct (delayedLoading_spec true None w HI) as (HI1&Hk&_).
      destruct (destroyPlayer_spec _ HI1) as (w2&E2&_&Hx). rewrite E2 in E. cbn [mbind outcome_bind] in E. injection E as <-. cbn.
      rewrite (x_class _ _ Hx), (k_player _ _ Hk), (k_class _ _ Hk). destruct (el_player (w_el w)) eqn:Ep; [done|]. rewrite (o_class _ HO).
      destruct (el_isReady (w_el w)) eqn:Er; [|done]. destruct (o_ready _ HO Er) as (?&?&_). congruence. }
    split; rewrite ?Hp, ?Hd, ?Hr, ?Hj, ?Hcl; try done; simpl; try lia.
    + intros pid [Hal Hne]%Ha. exfalso. by apply Hne, (o_only _ HO).
    + intros x Hx Hres. rewrite Hw in Hx. rewrite (Hws x Hx) in Hres. done.
  - by eapply One_resume.
  - by eapply One_ready_turn.
  - by eapply One_continue.
  - destruct (complete_inv pid w HI) as (w2&E2&_&Hk). rewrite E in E2. injection E2 as <-. by eapply One_kept.
  - destruct (call_listeners_spec e (List.filter (λ l, Nat.eqb (ls_node l) n && bool_decide (ls_event l = e)) (w_listeners w)) w HI) as (w2&E2&_&Hk).
    cbn [turn] in E. unfold dispatch in E. rewrite E in E2. injection E2 as <-. by eapply One_kept.
  - destruct (timeout_inv tid w HI) as (w2&E2&_&Hk). rewrite E in E2. injection E2 as <-. by eapply One_kept.
  - destruct (delay_timeout_inv w HI) as (w2&E2&_&Hk). rewrite E in E2. injection E2 as <-. by eapply One_kept.
  - destruct (visible_inv w HI) as (w2&E2&_&Hk). rewrite E in E2. injection E2 as <-. by eapply One_kept.
Qed.

Lemma One_initial : One initial.
Proof.
  split; try done; simpl; try lia; [|intros x Hx; by apply elem_of_nil in Hx].
  intros pid (p&Hp&_). cbn in Hp. by rewrite lookup_empty in Hp.
Qed.

(** Where the document and the place of the element change only while nothing is
    under way, there is at most one player alive, the element's; out of the page there is
    none; and an element that says it is ready has a player that is. *)
Theorem one_player (inputs : list input) : calm inputs initial = true →
  ∃ w, run inputs initial = Done w ∧
    (∀ pid, alive w pid → el_player (w_el w) = Some pid) ∧
    (el_connected (w_el w) = false → ∀ pid, ¬ alive w pid) ∧
    (el_isReady (w_el w) = true → ∃ pid, el_player (w_el w) = Some pid ∧ alive w pid ∧ player_is_ready w pid).
Proof.
  assert (Hrun : ∀ xs w, Inv w → One w → calm xs w = true → ∃ w', run xs w = Done w' ∧ Inv w' ∧ One w').
  { induction xs as [|i xs IH]; intros w HI HO Hc; [by exists w|]. cbn [calm run] in *. apply andb_true_iff in Hc as [Hi Hc].
    destruct (turn_inv i w HI) as (w1&E&HI1). rewrite E in Hc |- *. cbn [mbind outcome_bind].
    apply IH; [done|exact (One_turn i w w1 HI HO Hi E)|done]. }
  intros Hc. destruct (Hrun inputs initial initial_inv One_initial Hc) as (w&E&HI&HO). exists w. split; [done|].
  split; [apply HO|]. split.
  - intros Ho pid Ha. apply (o_only _ HO) in Ha. pose proof (o_out _ HO Ho). congruence.
  - intros Hr. destruct (o_ready _ HO Hr) as (pid&Hp&Hpr). exists pid. split; [done|]. split; [|done]. by apply (i_player _ (i_loose _ HI)).
Qed.

(** ** Concrete runs *)

(** An icon that loops after a delay is put into the page, is shown and played, and leaves. *)
Definition sample_inputs : list input :=
  [SetSrc (Some (str "icon.json")); SetTrigger (Some (str "loop")); SetDelay true; Connected;
   Loaded 0 (Some 7) false; Ready 0; Continue 0; Timeout 2; Complete 0; Timeout 3].

Lemma element_hygiene_witness : ∃ w, run sample_inputs initial = Done w ∧ el_isReady (w_el w) = true ∧
  ∃ w', run (sample_inputs ++ [Disconnected]) initial = Done w' ∧ w_listeners w' = [] ∧ w_timers w' = [].
Proof.
  destruct (element_hygiene sample_inputs) as (w&E&_&_&_&Hd).
  { repeat (apply Forall_cons_2; [intros E; vm_compute in E; discriminate|]). by apply Forall_nil_2. }
  exists w. split; [exact E|]. assert (Hw : Done w = run sample_inputs initial) by done. vm_compute in Hw. injection Hw as ->.
  split; [done|]. destruct Hd as (w'&E'&Hl&Ht&_); [done|]. by exists w'.
Defined.

Lemma one_player_witness : ∃ w, run sample_inputs initial = Done w ∧ el_isReady (w_el w) = true ∧ ∀ pid, alive w pid → pid = 0%nat.
Proof.
  destruct (one_player sample_inputs) as (w&E&Ho&_&_); [by vm_compute|].
  exists w. split; [exact E|]. assert (Hw : Done w = run sample_inputs initial) by done. vm_compute in Hw. injection Hw as ->.
  split; [done|]. intros pid Ha%Ho. vm_compute in Ha. by injection Ha.
Defined.

(** Otherwise players are left behind: an address that changes while the first document is
    under way makes two, and the icon that arrives last is shown, be it the old one; an
    element that leaves the page meanwhile keeps a player. *)
Lemma players_left_behind :
  (∃ w, run [SetSrc (Some (str "old")); Connected; SetSrc (Some (str "new")); Loaded 1 (Some 2) true; Loaded 0 (Some 1) true] initial = Done w ∧
     alive w 0 ∧ alive w 1 ∧ el_player (w_el w) = Some 1%nat ∧ (pl_data <$> w_players w !! 1%nat) = Some 1) ∧
  (∃ w, run [SetSrc (Some (str "old")); Connected; Disconnected; Loaded 0 (Some 1) true] initial = Done w ∧
     alive w 0 ∧ el_connected (w_el w) = false).
Proof.
  split; (eexists; split; [vm_compute; reflexivity|]).
  - split; [by eexists|]. split; [by eexists|]. done.
  - split; [by eexists|done].
Qed.
