(* ===== verification/IconSequence.v ===== *)
(** * The trigger that plays a sequence ([lord-icon-2.0.2.js])

    The attribute [sequence="delay:1.5,play,frame:10"] is a list of actions, repeated for
    ever: states and delays are noted for the next action, [play] and [frame] start a
    timeout, [idle] stops.  The class [Sequence] takes one step at a time; a step goes on
    by itself over states and delays.  The effects on the player are the result of a
    step. *)

From Stdlib Require Import SpecFloat.
From S2P Require Import Prelude GoText GoFloat JsText Magnet MagnetProps.
#[local] Open Scope Z_scope.

Record sequence := mkSequence {
  sq_index : nat; sq_state : option jstr; sq_first : option float64; sq_last : option float64 }.

Definition sq_new : sequence := mkSequence 0 None None None.

(** What a step comes to: the state the player gets, and the action behind the timeout. *)
Inductive effect :=
| Play (state : option jstr) (reverse : bool) (delay : option float64)
| Frame (frame : float64) (delay : option float64)
| Rest
| Invalid.

(** [NUMBER_REGEX]: [/^\d*(\.\d+)?$/] *)
Fixpoint number_like (s : jstr) : bool :=
  match s with
  | [] => true
  | 46 :: s => negb (bool_decide (s = [])) && forallb is_digit s
  | c :: s => is_digit c && number_like s
  end.

Definition positive (x : float64) : bool := match SFcompare x (of_int 0) with Some Gt => true | _ => false end.

Section Sequence.
Context (Number : jstr → float64) (frames : float64).

(** [Math.max(0, Math.min(frames, x))]: a frame of the animation. *)
Definition clamp (x : float64) : float64 :=
  match SFcompare x frames, SFcompare frames x with
  | None, _ | _, None => S754_nan
  | _, _ =>
      let m := match SFcompare x frames with Some Gt => frames | _ => x end in
      match SFcompare m (of_int 0) with Some Lt => of_int 0 | _ => m end
  end.

(** [this.sequence.split(",")[this.sequenceIndex]], and the index of the next step. *)
Definition takeStep (steps : list jstr) (s : sequence) : outcome (jstr * list jstr * sequence) :=
  match steps !! sq_index s with
  | None => Panic
  | Some e =>
      let i := S (sq_index s) in
      let s := mkSequence (if (length steps <=? i)%nat then 0%nat else i) (sq_state s) (sq_first s) (sq_last s) in
      match split_unit 58 e with
      | a :: params => Done (a, params, s)
      | [] => Panic
      end
  end.

Definition includes (params : list jstr) (k : string) : bool := existsb (λ p, bool_decide (p = str k)) params.

(** The last of the parameters that is a number. *)
Fixpoint last_number (params : list jstr) (t : option float64) : option float64 :=
  match params with
  | [] => t
  | i :: params => last_number params (if negb (bool_decide (i = [])) && number_like i then Some (Number i) else t)
  end.

Definition note_delay (params : list jstr) (s : sequence) : sequence :=
  match last_number params None with
  | Some t =>
      if positive t then
        if includes params "first" && includes params "last" then mkSequence (sq_index s) (sq_state s) (Some t) (Some t)
        else if includes params "first" then mkSequence (sq_index s) (sq_state s) (Some t) (sq_last s)
        else if includes params "last" then mkSequence (sq_index s) (sq_state s) (sq_first s) (Some t)
        else mkSequence (sq_index s) (sq_state s) (Some t) (sq_last s)
      else s
  | None => s
  end.

Definition is_action (a : jstr) (k : string) : bool := bool_decide (a = str k).

(** [step()] and [handleStep(action, params)] *)
Fixpoint step (fuel : nat) (steps : list jstr) (s : sequence) : outcome (sequence * effect) :=
  match fuel with
  | O => NoFuel
  | S fuel =>
      '(a, params, s) ← takeStep steps s;
      if bool_decide (a = []) then Done (s, Rest)
      else if is_action a "play" then
        let st := match sq_state s with Some (_ :: _) => sq_state s | _ => None end in
        Done (mkSequence (sq_index s) (match st with Some _ => None | None => sq_state s end) (sq_first s) (sq_last s),
              Play st (includes params "reverse") (sq_first s))
      else if is_action a "frame" then
        let t := match params with p :: _ => if number_like p then clamp (Number p) else of_int 0 | [] => of_int 0 end in
        Done (s, Frame t (sq_first s))
      else if is_action a "state" then
        step fuel steps (mkSequence (sq_index s) (match params with p :: _ => Some p | [] => None end) (sq_first s) (sq_last s))
      else if is_action a "delay" then step fuel steps (note_delay params s)
      else if is_action a "idle" then Done (s, Rest)
      else Done (s, Invalid)
  end.

(** [onReady()] and the timeouts of [play] and [frame]: the first delay is forgotten. *)
Definition start (fuel : nat) (text : jstr) (s : sequence) : outcome (sequence * effect) := step fuel (split_unit 44 text) s.
Definition timeout (s : sequence) : sequence := mkSequence (sq_index s) (sq_state s) None (sq_last s).
(** The timeout of [onComplete()]: the last delay is forgotten. *)
Definition completed (s : sequence) : sequence := mkSequence (sq_index s) (sq_state s) (sq_first s) None.

(** ** When a step ends *)

Definition action_of (e : jstr) : jstr := List.hd [] (split_unit 58 e).

(** Actions over which a step goes on. *)
Definition passes (e : jstr) : bool := is_action (action_of e) "state" || is_action (action_of e) "delay".

Lemma split_unit_cons c s : ∃ a l, split_unit c s = a :: l.
Proof.
  induction s as [|x s (a&l&IH)]; [by exists [], []|]. cbn [split_unit]. destruct (x =? c); [by eexists _, _|]. rewrite IH. by eexists _, _.
Qed.

Lemma note_delay_index params s : sq_index (note_delay params s) = sq_index s.
Proof. unfold note_delay. destruct (last_number params None); [|done]. repeat case_match; done. Qed.

(** One action. *)
Lemma step_action fuel steps s e : steps !! sq_index s = Some e →
  let next := if (length steps <=? S (sq_index s))%nat then 0%nat else S (sq_index s) in
  if passes e then ∃ s', sq_index s' = next ∧ step (S fuel) steps s = step fuel steps s'
  else ∃ s' x, sq_index s' = next ∧ step (S fuel) steps s = Done (s', x).
Proof.
  intros He. cbv zeta. cbn [step]. unfold takeStep. rewrite He. unfold passes, action_of.
  destruct (split_unit_cons 58 e) as (a&params&->). cbn [mbind outcome_bind List.hd]. set (s0 := mkSequence _ _ _ _). unfold is_action.
  destruct (bool_decide (a = str "state")) eqn:Es.
  { apply bool_decide_eq_true in Es as ->. cbn [orb]. eexists. split; [|reflexivity]. done. }
  destruct (bool_decide (a = str "delay")) eqn:Ed.
  { apply bool_decide_eq_true in Ed as ->. cbn [orb]. eexists. split; [|reflexivity]. by rewrite note_delay_index. }
  cbn [orb]. destruct (bool_decide (a = [])), (bool_decide (a = str "play")), (bool_decide (a = str "frame")), (bool_decide (a = str "idle"));
    (do 2 eexists; split; [|reflexivity]); done.
Qed.

(** The position [k] steps further on. *)
Lemma next_mod n i k : (i < n)%nat → (((if n <=? S i then 0 else S i) + k) `mod` n = (i + S k) `mod` n)%nat.
Proof.
  intros Hi. destruct (Nat.leb_spec n (S i)) as [H|H].
  - assert (n = S i) as -> by lia. replace (i + S k)%nat with (k + 1 * S i)%nat by lia. by rewrite Nat.Div0.mod_add.
  - f_equal. lia.
Qed.

Lemma step_reaches steps k s e fuel :
  (sq_index s < length steps)%nat → (∀ j, (j < k)%nat → ∃ e, steps !! ((sq_index s + j) `mod` length steps)%nat = Some e ∧ passes e = true) →
  steps !! ((sq_index s + k) `mod` length steps)%nat = Some e → passes e = false → (k < fuel)%nat →
  ∃ s' x, step fuel steps s = Done (s', x) ∧ sq_index s' = ((sq_index s + S k) `mod` length steps)%nat.
Proof.
  revert s fuel. induction k as [|k IH]; intros s fuel Hi Hp He Hx Hf; (destruct fuel as [|fuel]; [lia|]).
  - rewrite Nat.add_0_r, Nat.mod_small in He by done. pose proof (step_action fuel steps s e He) as Hs. cbv zeta in Hs. rewrite Hx in Hs.
    destruct Hs as (s'&x&Hn&E). exists s', x. split; [done|]. rewrite Hn, <- (next_mod _ _ 0 Hi), Nat.add_0_r.
    symmetry. apply Nat.mod_small. destruct (Nat.leb_spec (length steps) (S (sq_index s))); lia.
  - destruct (Hp 0%nat) as (e0&He0&Hp0); [lia|]. rewrite Nat.add_0_r, Nat.mod_small in He0 by done.
    pose proof (step_action fuel steps s e0 He0) as Hs. cbv zeta in Hs. rewrite Hp0 in Hs. destruct Hs as (s1&Hn&E).
    destruct (IH s1 fuel) as (s'&x&E'&Hn').
    + rewrite Hn. destruct (Nat.leb_spec (length steps) (S (sq_index s))); lia.
    + intros j Hj. rewrite Hn, next_mod by done. apply Hp. lia.
    + by rewrite Hn, next_mod.
    + done.
    + lia.
    + exists s', x. rewrite E. split; [done|]. by rewrite Hn', Hn, next_mod.
Qed.

(** The first action that does not pass. *)
Lemma first_stop steps i : (i < length steps)%nat → Exists (λ e, passes e = false) steps →
  ∃ k e, (k < length steps)%nat ∧ steps !! ((i + k) `mod` length steps)%nat = Some e ∧ passes e = false ∧
    ∀ j, (j < k)%nat → ∃ e, steps !! ((i + j) `mod` length steps)%nat = Some e ∧ passes e = true.
Proof.
  intros Hi Hex. set (n := length steps) in *. set (P := λ k, ∃ e, steps !! ((i + k) `mod` n)%nat = Some e ∧ passes e = false).
  assert (Hdec : ∀ k, Decision (P k)).
  { intros k. unfold P. destruct (steps !! _) as [e|]; [|right; by intros (?&?&_)]. destruct (passes e) eqn:E; [|left; by exists e].
    right. intros (?&[= <-]&?). congruence. }
  assert (Hall : ∀ k, ∃ e, steps !! ((i + k) `mod` n)%nat = Some e) by (intros k; apply lookup_lt_is_Some, Nat.mod_upper_bound; lia).
  assert (Hk : ∃ k, (k < n)%nat ∧ P k).
  { apply Exists_exists in Hex as (e&He&Hx). apply list_elem_of_lookup in He as [p Hp]. pose proof (lookup_lt_Some _ _ _ Hp) as Hlt.
    fold n in Hlt. exists (if decide (i ≤ p)%nat then (p - i)%nat else (p + n - i)%nat). split; [destruct (decide (i ≤ p)%nat); lia|].
    exists e. split; [|done]. replace ((i + _) `mod` n)%nat with p; [done|]. destruct (decide (i ≤ p)%nat).
    - rewrite Nat.mod_small; lia.
    - replace (i + (p + n - i))%nat with (p + 1 * n)%nat by lia. rewrite Nat.Div0.mod_add. by rewrite Nat.mod_small. }
  destruct Hk as (k0&Hk0&HP0). assert (Hmin : ∀ m, (∃ k, (k < m)%nat ∧ P k) → ∃ k, (k < m)%nat ∧ P k ∧ ∀ j, (j < k)%nat → ¬ P j).
  { induction m as [|m IHm]; intros (k&Hkm&HP); [lia|]. destruct (decide (Exists P (seq 0 m))) as [Hx|Hx].
    - apply Exists_exists in Hx as (k'&Hin&HP'). apply elem_of_seq in Hin. destruct IHm as (k2&?&?&?); [exists k'; split; [lia|done]|]. exists k2. split; [lia|done].
    - exists k. split; [done|]. split; [done|]. intros j Hj HPj. apply Hx, Exists_exists. exists j. split; [apply elem_of_seq; lia|done]. }
  destruct (Hmin n) as (k&Hkn&(e&He&Hx)&Hlt); [by exists k0|]. exists k, e. split_and!; [done..|].
  intros j Hj. destruct (Hall j) as [e' He']. exists e'. split; [done|]. destruct (passes e') eqn:E; [done|]. exfalso. apply (Hlt j Hj). by exists e'.
Qed.

(** A step of a sequence ends when one of the actions is no state and no delay, after
    at most one round, and stands behind that action; otherwise it never ends. *)
Theorem sequence_steps (text : jstr) (s : sequence) : (sq_index s < length (split_unit 44 text))%nat →
  if existsb (λ e, negb (passes e)) (split_unit 44 text)
  then ∀ fuel, (length (split_unit 44 text) ≤ fuel)%nat → ∃ s' x k, start fuel text s = Done (s', x) ∧ (k < length (split_unit 44 text))%nat ∧
    sq_index s' = ((sq_index s + S k) `mod` length (split_unit 44 text))%nat
  else ∀ fuel, start fuel text s = NoFuel.
Proof.
  unfold start. set (steps := split_unit 44 text). intros Hi. destruct (existsb _ _) eqn:Ex.
  - intros fuel Hf. apply existsb_exists in Ex as (e0&Hin&He0). destruct (first_stop steps (sq_index s) Hi) as (k&e&Hk&He&Hx&Hp).
    { apply Exists_exists. exists e0. split; [by apply list_elem_of_In|]. by apply negb_true_iff. }
    destruct (step_reaches steps k s e fuel) as (s'&x&E&Hn); [done..|lia|]. by exists s', x, k.
  - intros fuel. revert s Hi. induction fuel as [|fuel IH]; intros s Hi; [done|]. destruct (lookup_lt_is_Some_2 _ _ Hi) as [e He].
    pose proof (step_action fuel steps s e He) as Hs. cbv zeta in Hs. destruct (passes e) eqn:Ep.
    + destruct Hs as (s'&Hn&E). rewrite E. apply IH. rewrite Hn. destruct (Nat.leb_spec (length steps) (S (sq_index s))); lia.
    + assert (Hc : existsb (λ e, negb (passes e)) steps = true); [|congruence]. apply existsb_exists. exists e. split; [|by rewrite Ep].
      apply list_elem_of_In. by eapply list_elem_of_lookup_2.
Qed.
End Sequence.

Definition any_Number (s : jstr) : float64 := of_int 3.

Definition plays : jstr := str "delay:3,play,idle".
Definition never_plays : jstr := str "delay:3,state:hover".

Lemma sequence_steps_witness :
  (∃ s' x k, start any_Number (of_int 60) 3 plays sq_new = Done (s', x) ∧ (k < length (split_unit 44 plays))%nat ∧
    sq_index s' = ((sq_index sq_new + S k) `mod` length (split_unit 44 plays))%nat) ∧
  ∀ fuel, start any_Number (of_int 60) fuel never_plays sq_new = NoFuel.
Proof.
  pose proof (sequence_steps any_Number (of_int 60) plays sq_new) as H1. pose proof (sequence_steps any_Number (of_int 60) never_plays sq_new) as H2.
  assert (E1 : existsb (λ e, negb (passes e)) (split_unit 44 plays) = true) by by vm_compute.
  assert (E2 : existsb (λ e, negb (passes e)) (split_unit 44 never_plays) = false) by by vm_compute.
  rewrite E1 in H1. rewrite E2 in H2. split.
  - apply H1; [apply Nat.ltb_lt; by vm_compute|apply Nat.leb_le; by vm_compute].
  - apply H2. apply Nat.ltb_lt. by vm_compute.
Defined.
